(* ===== verification/_CoqProject ===== *)
-Q . S2P
Prelude.v
Arrays.v
SortLemmas.v
ClrsSorting.v
DsSorting.v
Bytes.v
Db.v
DbBytes.v
DbLinks.v
DbProofs.v
DbTheorems.v
MaxSubarray.v
ClrsExercises.v
Heap.v
Avl.v
Sys.v
Lcx.v
LcxRelay.v
LcxMain.v
ErrorLog.v
FdPass.v
FdPassProofs.v
Opend.v
OpendProofs.v
OpendServer.v
OpendPoll.v
OpendPollProofs.v
FooTable.v
FooTableProofs.v
FooTableTheorems.v
Rot13.v
Rot13Proofs.v
Ftw.v
FtwProofs.v
Arpspoof.v
ArpspoofProofs.v
Pty.v
PtyProofs.v
PtyForkProofs.v
Ruptime.v
RuptimeProofs.v
RuptimeServers.v
Tty.v
TtyProofs.v
TellWait.v
TellWaitProofs.v
DevZero.v
Timeout.v
TimeoutProofs.v
Environ.v
MsgPoll.v
MsgPollProofs.v
Coroutine.v
CoroutineProofs.v
ThreadLocal.v
Sleep.v
SleepProofs.v
Explore.v
RecordLocks.v
SignalThread.v
Getaddrinfo.v
Tls.v
TlsProofs.v
