(* ===== verification/Prelude.v ===== *)
(** The verification of the C programs of this repository.

    The repository is a collection of programs written while reading books: the
    key/value database, servers and threads of Advanced Programming in the UNIX
    Environment (src/apue), the port forwarder lcx, the ARP spoofer and
    the TLS file transfer of src/network, the AVL tree and the sorting programs of a data structures book
    (src/data_structure_and_algorithm), and the sorting routines and exercises of
    CLRS (src/clrs). They share no code but the error routines of apue, the
    functions that pass descriptors and those with which two processes wait for each
    other, so the development is a library of common
    notions and one group of files per program.

    * How C is modelled

    A computation on a state [S] that returns an [A] is of type [M S A]: it
    returns a value and a state ([Ret]), ends the process ([Exit]), meets what the
    C standard leaves undefined ([UB]: a read or write out of bounds, a null
    pointer, signed overflow, an overrun buffer), or exhausts the fuel of a loop
    ([Diverge]). [wp m Q X s] says that [m] run from [s] does neither of the last
    two, that a normal return satisfies [Q] and an exit [X]: every theorem stated
    with [wp] includes termination, absence of undefined behaviour and, where [X]
    is [noexit], that the process goes on. [loop] is the one loop; a [for] or
    [while] of the source is [loop] with a fuel that the theorem shows sufficient,
    or [forever] where every round makes a system call. Integers are [Z]: [int32]
    fails on signed overflow, [u32], [u64] and [signed] wrap around. Arrays are
    lists with checked indices (Arrays), byte buffers lists of integers in
    [0, 256) (Bytes), structs records, globals a record that is the state, nodes
    on the heap a finite map from addresses (Heap). What the program cannot know
    is a parameter of its definitions or an answer of the environment: the result
    of [malloc], of [rand], an indeterminate value, the padding of a struct.

    Programs that talk to the operating system run on a [script], the list of the
    answers that its calls will get (Sys). A theorem for every script covers all
    behaviours of the environment, and since a script may end at any call, where
    the run exits with [WAITING], all moments of the run. What the kernel may
    answer is the class [Kernel]; what POSIX documents of an answer ([read] stores
    at most as many bytes as it was asked for, a new descriptor is not in use, ...)
    are predicates on it ([posix_read], ...), hypotheses of the theorems that need
    them. The kernel [linux] satisfies them, and the witnesses use it.

    * The library

    - Prelude: outcomes, the monad, loops, weakest preconditions and their rules,
      machine integers, lenses.
    - Arrays: C arrays, segments, permutations, sortedness. SortLemmas: the
      invariants that the two families of sorting routines share.
    - Bytes: byte strings, decimal numbers and their round trip, slices of files.
    - Heap: heap memory, and a separation logic for [M] with the Iris proof mode.
    - Sys: system calls, scripts, histories, documented behaviour of the kernel.
    - ErrorLog: apue.3e/lib/error.c and apue/errorlog.c; no message overruns its
      buffer.

    * The programs

    - apue/20db/db.c: Db holds every function of it over the bytes of the two
      files. DbBytes relates these bytes to a store of records, DbLinks the
      pointers in the records to hash chains and a free list and these to a finite
      map, DbProofs shows what each operation does to all three, and DbTheorems
      that [db_open], [db_store], [db_fetch], [db_delete] and [db_nextrec] refine
      the operations of a finite map from keys to data, with their results on every
      branch and the locks they take given back. Two theorems show where the code
      fails: the line that overruns its buffer, and [O_CREAT] without [O_TRUNC].
      The retry loops of a run have the length of the file as fuel; a theorem's
      hypothesis asks for more fuel than there are records.
    - network/lcx/lcx.c: Lcx holds all its functions; LcxRelay shows that
      [transdata] relays each direction unchanged at every moment, LcxMain that
      the drivers hold at most four descriptors, and what [main] makes of each form
      of the command line.
    - network/arpspoof/arpspoof.c: Arpspoof holds all its functions; ArpspoofProofs
      says what frames a history of calls of libnet sends, and shows that a run
      sends those of its rounds and no others, and the signal handler all of its
      own, but for hosts that the cache has refused to find four times. Runs in which
      the unchecked [calloc] fails, or an interface has a long name, are undefined.
    - apue/17.5open_serv_1 and 17.6open_serv_2, with the functions of 13.3, 14.7
      and 17.2 to 17.4 that they are made of: FdPass and Opend hold the functions;
      FdPassProofs shows complete transfers and the round trip of descriptors and
      error messages over a socket, OpendProofs that a request is parsed as it was
      sent, OpendServer the invariant of the loop with [select]. OpendPoll is the loop
      with [poll], in which a function that exists nowhere is a parameter, and
      OpendPollProofs its invariant. Undefined behaviour that a client can provoke, a
      number too large for [atoi] or a percent sign in a name that is used as a format,
      ends a run of the model with a status of its own, [UNDEFINED], and the
      theorems say what must have happened before it.
    - apue/11.6.2avoid_deadlock1.c: FooTable makes each access to shared memory and
      each call of the thread library one atomic step of one of many threads, a
      step relation by a function from states and moves; FooTableProofs has the
      invariant, FooTableTheorems safety, counting, freedom from deadlock and
      termination, and the result of a search, in every reachable state.
    - apue/14.5.3rot_13_aio.c: Rot13 is the program; Rot13Proofs shows that what is
      written is the translation of what was read at its place, to the output file,
      completely for a file of one block, and that a longer one can be cut.
    - apue/4.22ftw.c: Ftw is the program; FtwProofs shows that it visits every file
      of the tree that the system shows it once, in preorder, counts the files by
      type, closes the directories it opened, and never overruns its buffer, but
      with a short path whose first block of memory is refused.
    - apue/19.3ptym_ptys.c to 19.6do_driver.c: Pty is the program; PtyProofs shows
      that each of its two processes relays one direction unchanged and when it
      stops the other, PtyForkProofs which calls [pty_fork] makes and which
      descriptors are open after it.
    - apue/16.4connect_retry.c, 16.4initserver.c and the five programs of 16.5:
      Ruptime holds all of it; RuptimeServers has an automaton for each of the
      three servers, its contract, and shows that every history of the server is one
      of the automaton, RuptimeProofs that connecting again and again comes to an
      end, and that the client prints what it receives.
    - apue/18.11break_and_raw.c: Tty; TtyProofs shows that a program gives its
      terminal back as it was, and when [tty_raw] fails.
    - apue/15.2.3tell_wait.c and 10.16sigsuspend3.c: TellWait makes each call and each
      access to the flag of the handler a step of one of two processes;
      TellWaitProofs shows for all interleavings that no notification is lost, with
      pipes always, with signals up to the first wait of each process, and gives the
      interleaving that loses one in the second.
    - apue/15.9dev_zero.c: DevZero is its two loops over the pipes of TellWait, with the
      increment of the shared counter as a load and a store: the processes take turns
      in every interleaving, no update is lost, and both come to their end.
    - apue/12.4.1recursive_mutex.c and 12.2makethread.c: Timeout is the program with the
      thread it starts; TimeoutProofs shows that the function is called once, after
      exactly the time that is left, and that the locks are balanced.
    - apue/12.5getenv_r.c: Environ; [getenv_r] is the lookup in a list of entries, and
      accesses no byte out of bounds. apue/12.6threadlocal.c: ThreadLocal, the same search
      with a buffer for each thread, which is its own and freed when the thread ends.
    - apue/17.2socketpair_xsi_ipc.c and 17.2socketpair_xsi_ipc_test.c: MsgPoll makes each
      call of main, of the helper of each queue and of the senders a step;
      MsgPollProofs shows that no message is lost, doubled or overtaken, and that the
      program comes to rest only when all of them are printed.
    - apue/15.4coroutine.c and 15.4add2.c: Coroutine is the two loops over two pipes;
      CoroutineProofs shows that each line is answered in its turn, and what the
      parent leaves behind when the child dies.
    - apue/10.19my_sleep.c and 10.10sleep2.c: Sleep has the clock, the mask and the pending
      signal; SleepProofs shows that the functions sleep their time and give back what
      they changed, and the runs in which they do not.
    - apue/14.3.3deadlock.c and 12.8pthread_signal.c: RecordLocks, on the signals of
      TellWait, and SignalThread are systems with finitely many states. Explore visits all that can be reached and
      shows that what is checked of each of them holds in every run.
    - apue/16.3.3getaddrinfo.c: Getaddrinfo is the program with a reader of its output.
    - network/ssl/ssl_client.c and ssl_server.c: Tls, with the calls of OpenSSL as calls of
      the environment; TlsProofs shows that the file arrives under its own name as it
      was, unless a write is short, with one byte more in [buf], which the code
      overruns as it stands.
    - clrs/sorting.c and test_sorting.c: ClrsSorting. clrs/exercises/04.1.3: 
      MaxSubarray. The other exercises and problems: ClrsExercises, a Module each.
    - data_structure_and_algorithm/sort: DsSorting, a Module per program.
      data_structure_and_algorithm/avl: Avl, functional trees that state what each
      operation computes, and the code on the heap proved to implement them.

    * What the theorems show

    Sorting and searching: sorted permutation of the segment, the rest unchanged,
    no access out of bounds, no overflow, termination with an explicit bound on
    the fuel. Data structures: refinement of a finite map (Db), of ordered trees
    (Avl). Programs that run forever: an invariant of the whole history of their
    system calls, for every script (Lcx, Arpspoof, Opend, Rot13, Pty, Ruptime), or of
    every reachable state (FooTable, TellWait, DevZero, MsgPoll, Coroutine, Sleep,
    RecordLocks, SignalThread), with a bound on the steps that are left. Communication: round trips of what one side
    sends and the other receives. Errors: where the code does not do what it means
    to, an input on which it fails, proved on the same definitions.

    * Bounds

    The fuel of a loop appears as an argument and each theorem states how much is
    enough: the number of elements for loops over an array, its square or a power
    for nested recursion, the number of records for chains, the height for trees.
    Constants in definitions (9 for eight buffers) are one more than the rounds
    that the loop can make. Db takes file offsets below its own limits (PTR_MAX),
    sorting takes lengths below [INT_MAX].

    * Not modelled

    - Db: failing reads and writes (they would end the process in [err_dump]),
      contention of locks, the path names; the debugging output; the overflow of the
      hash of a key of more than 2^24 bytes.
    - ClrsExercises: the text that [crandom] prints for an empty range.
    - Lcx, Arpspoof: signal handlers are functions, not called in the middle of
      another; the output of the DEBUG builds is left out.
    - Opend: where both servers hold the same file it is modelled once.
    - Ruptime: signals (SIGPIPE would end a server); the C library's popen.
    - Pty: SIGTERM is caught during a read of the relay or not at all; the program's
      calls of [tty_raw] and [tty_atexit] are single steps.
    - TellWait: failing calls; the demonstrations that use the functions, except DevZero,
      which is built with an anonymous mapping, as its [#if 1] says.
    - Timeout: the two threads are runs of their own, not interleaved; what [main] reads
      of a variable without a value is a parameter.
    - Environ, ThreadLocal: failing calls of the thread library; a change of the
      environment meanwhile.
    - MsgPoll: queues that are removed, and their permissions.
    - Coroutine: the set-up of the pipes, and a standard input that fails; the output is
      what reaches the standard output when the process ends.
    - Sleep: failing calls; a handler of the caller that does not return. The programs
      that call the functions are not modelled, one of them does not compile.
    - RecordLocks: failing calls, but for the lock that is refused; the file is made by
      [creat], for the function that the program calls does not exist. SignalThread: failing
      calls, and the default of the switch, for signals that are not in the mask.
    - Tls: what OpenSSL does with the connection; SIGPIPE.
    - FooTable: sequentially consistent memory; errors of the thread library.
    - The files of apue/apue.3e are the book's own sources, except lib/error.c,
      which the programs here call; the wrapper made by Swig, the programs in
      Python, JavaScript, C++ and SQL are not C code of this repository.
    - data_structure_and_algorithm: list, stack, queue, hashtable, heap,
      leftist_heap, binqueue, binary_search_tree and the_disjoint_set do not
      compile as they stand (misspelt fields and types, missing headers).
    - apue: the short demonstrations print what one system call does and hold no
      state; 11.6.4job_queue.c does not compile. The same is true of
      15.3popen_and_pclose.c, 10.18my_system.c, 11.6.8barrier.c, 13.6.1rereadconf.c and
      the server of network/multicast, whose client repeats one call. network/tun is built on a framework that is not here;
      kernel/netfilter needs the kernel. *)
From Stdlib Require Export ZArith Lia Bool.
From stdpp Require Export base numbers list option strings pretty.
#[export] Set Default Goal Selector "!".
Open Scope Z_scope.

(** Linear arithmetic with division and remainder by constants. *)
Ltac zlia := Z.to_euclidean_division_equations; lia.

(** ** The outcome of running C code on a state *)

(** A run either returns a value and the new state, ends the process ([exit],
    [err_dump], [err_quit], ...) with a status, runs into behaviour the C
    standard leaves undefined, or exhausts the fuel of a loop. *)
Inductive outcome (S A : Type) : Type :=
| Ret (a : A) (s : S)
| Exit (code : Z) (s : S)
| UB
| Diverge.
Arguments Ret {S A} a s.
Arguments Exit {S A} code s.
Arguments UB {S A}.
Arguments Diverge {S A}.

Definition M (S A : Type) : Type := S -> outcome S A.

Definition ret {S A} (a : A) : M S A := fun s => Ret a s.

Definition bind {S A B} (m : M S A) (f : A -> M S B) : M S B := fun s =>
  match m s with
  | Ret a s' => f a s'
  | Exit c s' => Exit c s'
  | UB => UB
  | Diverge => Diverge
  end.

Definition ub {S A} : M S A := fun _ => UB.
Definition exit_ {S A} (code : Z) : M S A := fun s => Exit code s.
Definition gets {S A} (f : S -> A) : M S A := fun s => Ret (f s) s.
Definition modify {S} (f : S -> S) : M S unit := fun s => Ret tt (f s).

Declare Scope c_scope.
Delimit Scope c_scope with c.
Notation "x <- m ;; k" := (bind m (fun x => k))
  (at level 100, m at next level, right associativity) : c_scope.
Notation "'let!' p := m 'in' k" := (bind m (fun x => match x with p => k end))
  (at level 10, p pattern, k at level 200) : c_scope.
Notation "m ;; k" := (bind m (fun _ => k))
  (at level 100, right associativity) : c_scope.
Notation "'when' b 'do' m" := (if b then m else ret tt)
  (at level 99, b at level 200, m at level 99) : c_scope.
#[export] Set Warnings "-notation-overridden".
Open Scope c_scope.

(** [guard_ok b] continues when [b] holds; what C leaves undefined otherwise. *)
Definition guard_ok {S} (b : bool) : M S unit := if b then ret tt else ub.

(** One loop primitive: [inl l] goes round again with the locals [l], [inr r]
    leaves the loop with [r] (its condition failed, [break] or [return]). *)
Fixpoint loop {S L R} (fuel : nat) (body : L -> M S (L + R)) (l : L) : M S R :=
  match fuel with
  | O => fun _ => Diverge
  | S n => r <- body l ;;
           match r with
           | inl l' => loop n body l'
           | inr r' => ret r'
           end
  end.

Definition while_ {S L} (fuel : nat) (cond : L -> M S bool) (body : L -> M S L)
  (l : L) : M S L :=
  loop fuel (fun l => b <- cond l ;;
                      if b : bool then l' <- body l ;; ret (inl l')
                      else ret (inr l)) l.

(** ** Weakest preconditions *)

(** [wp m Q X s]: run from [s], [m] neither runs into undefined behaviour nor
    out of fuel; a normal return satisfies [Q], an exit satisfies [X]. *)
Definition wp {S A} (m : M S A) (Q : A -> S -> Prop) (X : Z -> S -> Prop)
  (s : S) : Prop :=
  match m s with
  | Ret a s' => Q a s'
  | Exit c s' => X c s'
  | UB | Diverge => False
  end.

(** The program does not exit. *)
Definition noexit {S} : Z -> S -> Prop := fun _ _ => False.

Section wp_rules.
Context {S : Type}.
Implicit Types (s : S).

Lemma wp_ret {A} (a : A) (Q : A -> S -> Prop) X s : Q a s -> wp (ret a) Q X s.
Proof. done. Qed.

Lemma wp_exit {A} c (Q : A -> S -> Prop) (X : Z -> S -> Prop) s :
  X c s -> wp (exit_ c) Q X s.
Proof. done. Qed.

Lemma wp_bind {A B} (m : M S A) (f : A -> M S B) Q X s :
  wp m (fun a => wp (f a) Q X) X s -> wp (bind m f) Q X s.
Proof. unfold wp, bind. by destruct (m s). Qed.

Lemma wp_gets {A} (f : S -> A) (Q : A -> S -> Prop) X s :
  Q (f s) s -> wp (gets f) Q X s.
Proof. done. Qed.

Lemma wp_modify (f : S -> S) (Q : unit -> S -> Prop) X s :
  Q tt (f s) -> wp (modify f) Q X s.
Proof. done. Qed.

Lemma wp_guard b (Q : unit -> S -> Prop) X s :
  b = true -> Q tt s -> wp (guard_ok b) Q X s.
Proof. by intros ->. Qed.

Lemma wp_mono {A} (m : M S A) (Q Q' : A -> S -> Prop) (X X' : Z -> S -> Prop) s :
  wp m Q X s -> (forall a s', Q a s' -> Q' a s') ->
  (forall c s', X c s' -> X' c s') -> wp m Q' X' s.
Proof. unfold wp. destruct (m s); eauto. Qed.

(** Keep the postcondition, weaken it under the run already known. *)
Lemma wp_conseq {A} (m : M S A) (Q Q' : A -> S -> Prop) X s :
  wp m Q X s -> (forall a s', Q a s' -> Q' a s') -> wp m Q' X s.
Proof. intros H HQ. by apply (wp_mono m Q Q' X X). Qed.

(** Total correctness of a loop: an invariant and a decreasing measure. *)
Lemma wp_loop {L R} (I : L -> S -> Prop) (mu : L -> S -> nat)
  (body : L -> M S (L + R)) (Q : R -> S -> Prop) X fuel l s :
  I l s -> (mu l s < fuel)%nat ->
  (forall l s, I l s ->
     wp (body l) (fun r s' => match r with
                              | inl l' => I l' s' /\ (mu l' s' < mu l s)%nat
                              | inr r => Q r s'
                              end) X s) ->
  wp (loop fuel body l) Q X s.
Proof.
  intros HI Hmu Hbody. revert l s HI Hmu.
  induction fuel as [|fuel IH]; intros l s HI Hmu; [lia|].
  apply wp_bind, wp_mono with (1 := Hbody l s HI); [|done].
  intros [l'|r] s'; simpl; [|done].
  intros [HI' Hlt]. apply IH; [done|lia].
Qed.

(** The same with the measure as an index of the invariant. *)
Lemma wp_loop_idx {L R} (I : nat -> L -> S -> Prop)
  (body : L -> M S (L + R)) (Q : R -> S -> Prop) X fuel n l s :
  I n l s -> (n < fuel)%nat ->
  (forall n l s, I n l s ->
     wp (body l) (fun r s' => match r with
                              | inl l' => exists n', I n' l' s' /\ (n' < n)%nat
                              | inr r => Q r s'
                              end) X s) ->
  wp (loop fuel body l) Q X s.
Proof.
  intros HI Hn Hbody. revert n l s HI Hn.
  induction fuel as [|fuel IH]; intros n l s HI Hn; [lia|].
  apply wp_bind, wp_mono with (1 := Hbody n l s HI); [|done].
  intros [l'|r] s'; simpl; [|done].
  intros (n' & HI' & Hlt). apply (IH n'); [done|lia].
Qed.

Lemma wp_while {L} (I : L -> S -> Prop) (mu : L -> S -> nat)
  (cond : L -> M S bool) (body : L -> M S L) (Q : L -> S -> Prop) X fuel l s :
  I l s -> (mu l s < fuel)%nat ->
  (forall l s, I l s ->
     wp (cond l) (fun b s1 =>
       if b : bool
       then wp (body l) (fun l' s' => I l' s' /\ (mu l' s' < mu l s)%nat) X s1
       else Q l s1) X s) ->
  wp (while_ fuel cond body l) Q X s.
Proof.
  intros HI Hmu Hstep. apply (wp_loop I mu); [done..|].
  intros l1 s1 HI1. apply wp_bind, wp_mono with (1 := Hstep l1 s1 HI1); [|done].
  intros [] s2; [|done]. intros H. by apply wp_bind.
Qed.
End wp_rules.

(** Two runs of the same computation from the same state agree. *)
Lemma wp_run {S A} (m : M S A) Q s :
  wp m Q noexit s -> exists a s', m s = Ret a s' /\ Q a s'.
Proof. unfold wp. destruct (m s) eqn:E; try done. eauto. Qed.

Lemma wp_of_run {S A} (m : M S A) (Q : A -> S -> Prop) X s a s' :
  m s = Ret a s' -> Q a s' -> wp m Q X s.
Proof. unfold wp. by intros ->. Qed.

(** A [when] whose condition is known. *)
Lemma wp_unless {S} (b : bool) (m : M S unit) (Q : unit -> S -> Prop) X s :
  b = false -> Q tt s -> wp (when b do m) Q X s.
Proof. by intros ->. Qed.

Lemma wp_when {S} (b : bool) (m : M S unit) (Q : unit -> S -> Prop) X s :
  b = true -> wp m Q X s -> wp (when b do m) Q X s.
Proof. by intros ->. Qed.

(** ** Machine integers *)

(** A 32-bit [int]: signed overflow is undefined, so arithmetic that can leave
    the range goes through [int32]. *)
Definition INT_MAX : Z := 2147483647.
Definition INT_MIN : Z := -2147483648.
Definition in_int (z : Z) : bool := (INT_MIN <=? z) && (z <=? INT_MAX).
Definition int32 {S} (z : Z) : M S Z := if in_int z then ret z else ub.

(** Conversions to the unsigned types wrap around. *)
Definition u8 (z : Z) : Z := z mod 2 ^ 8.
Definition u32 (z : Z) : Z := z mod 2 ^ 32.
Definition u64 (z : Z) : Z := z mod 2 ^ 64.

(** Conversion of a value to a signed type of [w] bits, two's complement. *)
Definition signed (w : Z) (z : Z) : Z :=
  let m := z mod 2 ^ w in if m <? 2 ^ (w - 1) then m else m - 2 ^ w.

Lemma in_int_spec z : in_int z = true <-> INT_MIN <= z <= INT_MAX.
Proof. unfold in_int. lia. Qed.

Lemma wp_int32 {S} z (Q : Z -> S -> Prop) X s :
  INT_MIN <= z <= INT_MAX -> Q z s -> wp (int32 z) Q X s.
Proof. intros H HQ. unfold int32. apply in_int_spec in H. by rewrite H. Qed.

Lemma quot2_bounds z : 0 <= z -> 0 <= Z.quot z 2 <= z /\ (0 < z -> Z.quot z 2 < z)
  /\ 2 * Z.quot z 2 <= z < 2 * Z.quot z 2 + 2.
Proof. intros H. zlia. Qed.

(** ** Lenses: the part of a state that a piece of code works on *)

Record lens (S A : Type) : Type := Lens {
  view : S -> A;
  over : A -> S -> S;
}.
Arguments Lens {S A} view over.
Arguments view {S A} l s.
Arguments over {S A} l a s.

Class LensLaws {S A} (l : lens S A) : Prop := {
  view_over : forall a s, view l (over l a s) = a;
  over_view : forall s, over l (view l s) s = s;
  over_over : forall a b s, over l a (over l b s) = over l a s;
}.

Definition id_lens {S} : lens S S := Lens (fun s => s) (fun a _ => a).
#[export] Instance id_lens_laws {S} : LensLaws (@id_lens S).
Proof. by split. Qed.

(** Run a computation on the part of the state that a lens selects. *)
Definition zoom {S A B} (l : lens S A) (m : M A B) : M S B := fun s =>
  match m (view l s) with
  | Ret b a => Ret b (over l a s)
  | Exit c a => Exit c (over l a s)
  | UB => UB
  | Diverge => Diverge
  end.

Lemma wp_zoom {S A B} (l : lens S A) (m : M A B) (Q : B -> S -> Prop) X s :
  wp m (fun b a => Q b (over l a s)) (fun c a => X c (over l a s)) (view l s) ->
  wp (zoom l m) Q X s.
Proof. unfold wp, zoom. by destruct (m (view l s)). Qed.

(** Bodies that behave alike make loops that behave alike. *)
Lemma loop_ext {S L R} fuel (b1 b2 : L -> M S (L + R)) l s :
  (forall l s, b1 l s = b2 l s) -> loop fuel b1 l s = loop fuel b2 l s.
Proof.
  intros Hb. revert l s. induction fuel as [|fuel IH]; intros l s; [done|].
  simpl. unfold bind. rewrite Hb. by destruct (b2 l s) as [[l1|r]| | |].
Qed.

Lemma bind_ext {S A B} (m1 m2 : M S A) (f1 f2 : A -> M S B) s :
  m1 s = m2 s -> (forall a s', f1 a s' = f2 a s') -> bind m1 f1 s = bind m2 f2 s.
Proof. intros Hm Hf. unfold bind. rewrite Hm. by destruct (m2 s). Qed.

Lemma wp_eq {S A} (m1 m2 : M S A) Q X s : m1 s = m2 s -> wp m2 Q X s -> wp m1 Q X s.
Proof. unfold wp. by intros ->. Qed.

(** A newline, for the texts that the programs print. *)
Definition nl : string := String (Ascii.ascii_of_nat 10) "".

Lemma string_app_assoc (u v w : string) : (u +:+ v) +:+ w = u +:+ (v +:+ w).
Proof. induction u as [|c u IH]; [done|]. exact (f_equal (String c) IH). Qed.

Lemma string_app_nil (u : string) : u +:+ "" = u.
Proof. induction u as [|c u IH]; [done|]. exact (f_equal (String c) IH). Qed.
