(* ===== verification/Arrays.v ===== *)
(** Arrays: C arrays as lists indexed by [Z], reads and writes that are
    undefined out of bounds, segments, permutations of a segment and
    sortedness. Shared by every component that works on an array in place. *)
From stdpp Require Import list sorting.
From S2P Require Import Prelude.

Definition Zlen {A} (l : list A) : Z := Z.of_nat (length l).
Definition aget `{Inhabited A} (l : list A) (i : Z) : A := l !!! Z.to_nat i.
Definition aset {A} (l : list A) (i : Z) (v : A) : list A := <[Z.to_nat i := v]> l.
Definition in_bounds {A} (l : list A) (i : Z) : bool := (0 <=? i) && (i <? Zlen l).

Section ops.
Context `{Inhabited A} {S : Type} (a : lens S (list A)).
(** [a[i]] as an rvalue, and [a[i] = v]. *)
Definition rd (i : Z) : M S A := fun s =>
  if in_bounds (view a s) i then Ret (aget (view a s) i) s else UB.
Definition wr (i : Z) (v : A) : M S unit := fun s =>
  if in_bounds (view a s) i then Ret tt (over a (aset (view a s) i v) s) else UB.

Lemma wp_rd i Q X s :
  0 <= i < Zlen (view a s) -> Q (aget (view a s) i) s -> wp (rd i) Q X s.
Proof. intros Hi HQ. unfold wp, rd, in_bounds. destruct (_ && _) eqn:E; [done|lia]. Qed.

Lemma wp_wr i v Q X s :
  0 <= i < Zlen (view a s) -> Q tt (over a (aset (view a s) i v) s) ->
  wp (wr i v) Q X s.
Proof. intros Hi HQ. unfold wp, wr, in_bounds. destruct (_ && _) eqn:E; [done|lia]. Qed.
End ops.

Section array_lemmas.
Context `{Inhabited A}.
Implicit Types (l : list A) (i j k lo hi : Z) (v w : A).

Lemma Zlen_nonneg l : 0 <= Zlen l.
Proof. unfold Zlen. lia. Qed.

Lemma Zlen_aset l i v : Zlen (aset l i v) = Zlen l.
Proof. unfold Zlen, aset. by rewrite length_insert. Qed.

Lemma Zlen_app l l' : Zlen (l ++ l') = Zlen l + Zlen l'.
Proof. unfold Zlen. rewrite length_app. lia. Qed.

Lemma aget_aset_eq l i v : 0 <= i < Zlen l -> aget (aset l i v) i = v.
Proof. intros. apply list_lookup_total_insert_eq. unfold Zlen in *. lia. Qed.

Lemma aget_aset_ne l i j v : 0 <= i -> 0 <= j -> i <> j ->
  aget (aset l i v) j = aget l j.
Proof. intros. apply list_lookup_total_insert_ne. lia. Qed.

Lemma aget_aset l i j v : 0 <= i < Zlen l -> 0 <= j ->
  aget (aset l i v) j = if i =? j then v else aget l j.
Proof.
  intros. destruct (Z.eqb_spec i j) as [->|].
  - by apply aget_aset_eq.
  - apply aget_aset_ne; lia.
Qed.

Lemma aget_lookup l i : 0 <= i < Zlen l -> l !! Z.to_nat i = Some (aget l i).
Proof. intros. apply list_lookup_lookup_total_lt. unfold Zlen in *. lia. Qed.

Lemma aset_id l i : 0 <= i -> aset l i (aget l i) = l.
Proof.
  intros. unfold aset, aget. destruct (decide (Z.to_nat i < length l)%nat).
  - apply list_insert_id, list_lookup_lookup_total_lt. done.
  - apply list_insert_ge. lia.
Qed.

Lemma aset_aset l i v w : aset (aset l i w) i v = aset l i v.
Proof. apply list_insert_insert_eq. Qed.

Lemma array_ext l l' : Zlen l = Zlen l' ->
  (forall k, 0 <= k < Zlen l -> aget l k = aget l' k) -> l = l'.
Proof.
  unfold Zlen. intros Hl Hk. apply list_eq_same_length with (length l); [lia|done|].
  intros i x y Hi Hx Hy. specialize (Hk (Z.of_nat i)).
  unfold aget in Hk. rewrite Nat2Z.id in Hk.
  apply list_lookup_total_correct in Hx, Hy. rewrite <-Hx, <-Hy. apply Hk. lia.
Qed.

(** *** Permutations by two writes *)

Lemma perm_swap l i j : 0 <= i < Zlen l -> 0 <= j < Zlen l ->
  Permutation l (aset (aset l i (aget l j)) j (aget l i)).
Proof.
  intros Hi Hj. destruct (decide (i = j)) as [->|Hne].
  { rewrite aset_aset. by rewrite aset_id by lia. }
  apply aget_lookup in Hi as Li. apply aget_lookup in Hj as Lj.
  unfold aset, Zlen in *. apply Permutation_inj. split; [by rewrite !length_insert|].
  set (f (n : nat) := if decide (n = Z.to_nat i) then Z.to_nat j
              else if decide (n = Z.to_nat j) then Z.to_nat i else n).
  exists f. split.
  { intros x y. unfold f. repeat case_decide; lia. }
  intros n. unfold f. repeat case_decide; subst; try lia.
  - by rewrite list_lookup_insert_eq by (rewrite length_insert; lia).
  - rewrite list_lookup_insert_ne by lia. by rewrite list_lookup_insert_eq by lia.
  - by rewrite !list_lookup_insert_ne by lia.
Qed.

(** Moving the hole at [i] to [j], the element of [j] into [i]. *)
Lemma hole_move l i j v : 0 <= i < Zlen l -> 0 <= j < Zlen l -> i <> j ->
  Permutation (aset l i v) (aset (aset l i (aget l j)) j v).
Proof.
  intros Hi Hj Hne.
  pose proof (perm_swap (aset l i v) i j) as HP. rewrite !Zlen_aset in HP.
  specialize (HP Hi Hj). rewrite aset_aset, aget_aset_eq in HP by done.
  by rewrite aget_aset_ne in HP by lia.
Qed.
End array_lemmas.

(** ** Segments [lo, hi) of an array *)

Definition seg {A} (l : list A) (lo hi : Z) : list A :=
  take (Z.to_nat (hi - lo)) (drop (Z.to_nat lo) l).

(** [l'] is [l] with only the cells of [lo, hi) changed. *)
Definition same_out `{Inhabited A} (l l' : list A) (lo hi : Z) : Prop :=
  Zlen l' = Zlen l /\
  forall k, 0 <= k -> k < lo \/ hi <= k -> aget l' k = aget l k.

(** [l'] is [l] with the cells of [lo, hi) permuted. *)
Definition perm_in `{Inhabited A} (l l' : list A) (lo hi : Z) : Prop :=
  Permutation l l' /\ same_out l l' lo hi.

Section segment_lemmas.
Context `{Inhabited A}.
Implicit Types (l : list A) (i j k lo mid hi : Z) (v w : A).

Lemma seg_nil l lo hi : hi <= lo -> seg l lo hi = [].
Proof. intros. unfold seg. by replace (Z.to_nat (hi - lo)) with 0%nat by lia. Qed.

Lemma seg_snoc l lo k : 0 <= lo <= k -> k < Zlen l ->
  seg l lo (k + 1) = seg l lo k ++ [aget l k].
Proof.
  intros. unfold seg, Zlen in *.
  replace (Z.to_nat (k + 1 - lo)) with (S (Z.to_nat (k - lo))) by lia.
  apply take_S_r. rewrite lookup_drop.
  replace (Z.to_nat lo + Z.to_nat (k - lo))%nat with (Z.to_nat k) by lia.
  apply aget_lookup. unfold Zlen. lia.
Qed.

Lemma seg_cons l lo hi : 0 <= lo < hi -> lo < Zlen l ->
  seg l lo hi = aget l lo :: seg l (lo + 1) hi.
Proof.
  intros. unfold seg, Zlen in *.
  rewrite (drop_S l (aget l lo) (Z.to_nat lo)) by (apply aget_lookup; unfold Zlen; lia).
  replace (Z.to_nat (hi - lo)) with (S (Z.to_nat (hi - (lo + 1)))) by lia. simpl.
  by replace (Z.to_nat (lo + 1)) with (S (Z.to_nat lo)) by lia.
Qed.

Lemma seg_app l lo mid hi : 0 <= lo <= mid -> mid <= hi ->
  seg l lo hi = seg l lo mid ++ seg l mid hi.
Proof.
  intros. unfold seg.
  replace (Z.to_nat (hi - lo)) with (Z.to_nat (mid - lo) + Z.to_nat (hi - mid))%nat by lia.
  replace (Z.to_nat mid) with (Z.to_nat lo + Z.to_nat (mid - lo))%nat by lia.
  by rewrite <-drop_drop, take_take_drop.
Qed.

Lemma seg_full l : seg l 0 (Zlen l) = l.
Proof. unfold seg, Zlen. rewrite drop_0. apply take_ge. lia. Qed.

Lemma seg_length l lo hi : 0 <= lo <= hi -> hi <= Zlen l -> Zlen (seg l lo hi) = hi - lo.
Proof. intros. unfold seg, Zlen in *. rewrite length_take, length_drop. lia. Qed.

Lemma seg_split l lo hi : 0 <= lo <= hi -> hi <= Zlen l ->
  l = seg l 0 lo ++ seg l lo hi ++ seg l hi (Zlen l).
Proof.
  intros. rewrite <-seg_app by lia. rewrite <-seg_app by lia. by rewrite seg_full.
Qed.

Lemma seg_lookup l lo hi n : (n < Z.to_nat (hi - lo))%nat -> 0 <= lo ->
  seg l lo hi !! n = l !! (Z.to_nat lo + n)%nat.
Proof. intros. unfold seg. rewrite lookup_take_lt by lia. by rewrite lookup_drop. Qed.

Lemma aget_ge l k : Zlen l <= k -> aget l k = inhabitant.
Proof.
  intros. unfold aget. rewrite list_lookup_total_alt, lookup_ge_None_2 by (unfold Zlen in *; lia). done.
Qed.

Lemma aget_seg l lo hi k : 0 <= lo -> 0 <= k < hi - lo -> hi <= Zlen l ->
  aget (seg l lo hi) k = aget l (lo + k).
Proof.
  intros. unfold aget. rewrite !list_lookup_total_alt, seg_lookup by lia.
  do 2 f_equal. lia.
Qed.

Lemma seg_ext l l' lo hi : 0 <= lo -> hi <= Zlen l -> hi <= Zlen l' ->
  (forall k, lo <= k < hi -> aget l k = aget l' k) -> seg l lo hi = seg l' lo hi.
Proof.
  intros Hlo Hl Hl' Hk. apply list_eq. intros n.
  destruct (decide (n < Z.to_nat (hi - lo))%nat).
  - rewrite !seg_lookup by lia.
    replace (Z.to_nat lo + n)%nat with (Z.to_nat (lo + Z.of_nat n)) by lia.
    rewrite !aget_lookup by lia. f_equal. apply Hk. lia.
  - rewrite !lookup_ge_None_2; [done|..]; unfold seg; rewrite length_take; lia.
Qed.

Lemma elem_of_seg l lo hi v : 0 <= lo -> hi <= Zlen l ->
  v ∈ seg l lo hi <-> exists k, lo <= k < hi /\ aget l k = v.
Proof.
  intros Hlo Hhi. rewrite list_elem_of_lookup. split.
  - intros [n Hn].
    assert (n < Z.to_nat (hi - lo))%nat.
    { apply lookup_lt_Some in Hn. unfold seg in Hn. rewrite length_take in Hn. lia. }
    rewrite seg_lookup in Hn by lia. exists (lo + Z.of_nat n). split; [lia|].
    unfold aget. replace (Z.to_nat (lo + Z.of_nat n)) with (Z.to_nat lo + n)%nat by lia.
    by apply list_lookup_total_correct.
  - intros (k & Hk & <-). exists (Z.to_nat (k - lo)). rewrite seg_lookup by lia.
    replace (Z.to_nat lo + Z.to_nat (k - lo))%nat with (Z.to_nat k) by lia.
    apply aget_lookup. lia.
Qed.

(** *** Frames *)

Lemma same_out_refl l lo hi : same_out l l lo hi.
Proof. by split. Qed.

Lemma same_out_trans l1 l2 l3 lo hi :
  same_out l1 l2 lo hi -> same_out l2 l3 lo hi -> same_out l1 l3 lo hi.
Proof.
  intros [Hl1 H1] [Hl2 H2]. split; [congruence|].
  intros k Hk Ho. by rewrite H2, H1.
Qed.

Lemma same_out_weaken l l' lo hi lo' hi' :
  same_out l l' lo hi -> lo' <= lo -> hi <= hi' -> same_out l l' lo' hi'.
Proof. intros [Hl Hk] ? ?. split; [done|]. intros k ? ?. apply Hk; lia. Qed.

Lemma same_out_aset l lo hi i v : 0 <= lo <= i -> i < hi -> same_out l (aset l i v) lo hi.
Proof.
  intros. split; [apply Zlen_aset|]. intros k ? ?. apply aget_aset_ne; lia.
Qed.

Lemma same_out_seg l l' lo hi a b : same_out l l' lo hi ->
  0 <= a -> b <= Zlen l -> b <= lo \/ hi <= a -> seg l' a b = seg l a b.
Proof.
  intros [Hl Hk] ? ? ?. apply seg_ext; [done|lia..|]. intros k ?. apply Hk; lia.
Qed.

Lemma perm_in_refl l lo hi : perm_in l l lo hi.
Proof. by split. Qed.

Lemma perm_in_trans l1 l2 l3 lo hi :
  perm_in l1 l2 lo hi -> perm_in l2 l3 lo hi -> perm_in l1 l3 lo hi.
Proof. intros [P1 S1] [P2 S2]. split; [by rewrite P1|by eapply same_out_trans]. Qed.

Lemma perm_in_weaken l l' lo hi lo' hi' :
  perm_in l l' lo hi -> lo' <= lo -> hi <= hi' -> perm_in l l' lo' hi'.
Proof. intros [? ?] ? ?. split; [done|by eapply same_out_weaken]. Qed.

Lemma perm_in_len l l' lo hi : perm_in l l' lo hi -> Zlen l' = Zlen l.
Proof. by intros [_ [? _]]. Qed.

Lemma perm_in_swap l lo hi i j : 0 <= lo <= i -> i < hi -> lo <= j -> j < hi ->
  hi <= Zlen l -> perm_in l (aset (aset l i (aget l j)) j (aget l i)) lo hi.
Proof.
  intros. split; [apply perm_swap; lia|].
  eapply same_out_trans; apply same_out_aset; lia.
Qed.

(** Permuting the whole array while framing all but a segment permutes the
    segment, and conversely. *)
Lemma perm_in_seg l l' lo hi : 0 <= lo <= hi -> hi <= Zlen l ->
  perm_in l l' lo hi -> Permutation (seg l lo hi) (seg l' lo hi).
Proof.
  intros ? ? [HP HS]. pose proof (proj1 HS) as Hlen.
  rewrite (seg_split l lo hi), (seg_split l' lo hi) in HP by lia.
  rewrite (same_out_seg _ _ _ _ 0 lo HS) in HP by lia.
  rewrite Hlen, (same_out_seg _ _ _ _ hi (Zlen l) HS) in HP by lia.
  by apply Permutation_app_inv_l, Permutation_app_inv_r in HP.
Qed.

Lemma seg_perm_in l l' lo hi : 0 <= lo <= hi -> hi <= Zlen l ->
  same_out l l' lo hi -> Permutation (seg l lo hi) (seg l' lo hi) -> perm_in l l' lo hi.
Proof.
  intros ? ? HS HP. split; [|done]. pose proof (proj1 HS) as Hlen.
  rewrite (seg_split l lo hi), (seg_split l' lo hi) by lia.
  rewrite (same_out_seg _ _ _ _ 0 lo HS) by lia.
  rewrite Hlen, (same_out_seg _ _ _ _ hi (Zlen l) HS) by lia. by rewrite HP.
Qed.

(** What holds of every cell of a segment still holds once it is permuted. *)
Lemma perm_in_forall (P : A -> Prop) l l' lo hi a b :
  0 <= a -> b <= Zlen l -> perm_in l l' lo hi -> a <= lo -> hi <= b -> lo <= hi ->
  (forall k, a <= k < b -> P (aget l k)) -> forall k, a <= k < b -> P (aget l' k).
Proof.
  intros ? ? HP ? ? ? Hall k Hk. apply (perm_in_weaken _ _ _ _ a b) in HP; [|done..].
  pose proof (perm_in_len _ _ _ _ HP). apply perm_in_seg in HP; [|lia..].
  assert (aget l' k ∈ seg l a b) as Hin.
  { rewrite HP. apply elem_of_seg; [lia..|]. by exists k. }
  apply elem_of_seg in Hin as (k' & Hk' & <-); [|lia..]. by apply Hall.
Qed.
End segment_lemmas.

(** ** Sortedness *)

Definition sorted_in (l : list Z) (lo hi : Z) : Prop :=
  forall i j, lo <= i -> i <= j -> j < hi -> aget l i <= aget l j.

(** What a sorting routine has to establish on [a[lo..hi)]. *)
Definition sorts (l l' : list Z) (lo hi : Z) : Prop :=
  perm_in l l' lo hi /\ sorted_in l' lo hi.

Section sorted_lemmas.
Implicit Types (l : list Z).

Lemma sorted_in_small l lo hi : hi <= lo + 1 -> sorted_in l lo hi.
Proof. intros ? i j ? ? ?. replace i with j by lia. lia. Qed.

Lemma sorted_in_weaken l lo hi lo' hi' :
  sorted_in l lo hi -> lo <= lo' -> hi' <= hi -> sorted_in l lo' hi'.
Proof. intros Hs ? ? i j ? ? ?. apply Hs; lia. Qed.

Lemma sorted_in_same l l' lo hi a b : sorted_in l lo hi -> same_out l l' a b ->
  0 <= lo -> hi <= a \/ b <= lo -> sorted_in l' lo hi.
Proof.
  intros Hs [_ Hk] ? ? i j ? ? ?. rewrite !Hk by lia. by apply Hs.
Qed.

(** Two sorted halves, every element of the left at most every one of the right. *)
Lemma sorted_in_app l lo mid hi : sorted_in l lo mid -> sorted_in l mid hi ->
  (forall i j, lo <= i < mid -> mid <= j < hi -> aget l i <= aget l j) ->
  sorted_in l lo hi.
Proof.
  intros Hl Hr Hx i j ? ? ?. destruct (Z.lt_ge_cases j mid); [by apply Hl|].
  destruct (Z.lt_ge_cases i mid); [apply Hx; lia|by apply Hr].
Qed.

Lemma sorted_in_snoc l lo hi : sorted_in l lo (hi - 1) ->
  (forall i, lo <= i < hi - 1 -> aget l i <= aget l (hi - 1)) -> sorted_in l lo hi.
Proof.
  intros Hs Hm. apply (sorted_in_app l lo (hi - 1) hi); [done|apply sorted_in_small; lia|].
  intros i j ? ?. replace j with (hi - 1) by lia. apply Hm. lia.
Qed.

(** A whole sorted array, as a [StronglySorted] list. *)
Lemma sorted_in_Sorted l : sorted_in l 0 (Zlen l) -> StronglySorted Z.le l.
Proof.
  induction l as [|x l IH]; intros Hs; constructor.
  - apply IH. intros i j ? ? Hj. unfold Zlen in *. simpl in Hs.
    specialize (Hs (i + 1) (j + 1)). unfold aget in *.
    replace (Z.to_nat (i + 1)) with (S (Z.to_nat i)) in Hs by lia.
    replace (Z.to_nat (j + 1)) with (S (Z.to_nat j)) in Hs by lia. apply Hs; lia.
  - apply Forall_lookup. intros n y Hn. pose proof (lookup_lt_Some _ _ _ Hn).
    specialize (Hs 0 (Z.of_nat (S n))). unfold aget, Zlen in Hs. rewrite Nat2Z.id in Hs.
    simpl in Hs. apply list_lookup_total_correct in Hn. rewrite Hn in Hs. apply Hs; lia.
Qed.

(** Sorted permutations of the same array are equal. *)
Lemma sorts_unique l l1 l2 : sorts l l1 0 (Zlen l) -> sorts l l2 0 (Zlen l) -> l1 = l2.
Proof.
  intros [HP1 HS1] [HP2 HS2].
  rewrite <-(perm_in_len _ _ _ _ HP1) in HS1. rewrite <-(perm_in_len _ _ _ _ HP2) in HS2.
  apply (StronglySorted_unique Z.le); [by apply sorted_in_Sorted..|].
  destruct HP1 as [P1 _], HP2 as [P2 _]. by rewrite <-P1.
Qed.
End sorted_lemmas.

(** ** Automation *)

Create HintDb arr.

#[export] Hint Resolve same_out_refl perm_in_refl sorted_in_small : arr.

(** Simplify reads after writes; the comparisons are left as [=?]. *)
Ltac asimp :=
  repeat (rewrite Zlen_aset in * || rewrite aget_aset_eq in * by (rewrite ?Zlen_aset; lia)
          || rewrite aget_aset_ne in * by lia).

(** Unfold the lenses of the state; each component adds its own. *)
Ltac lens_hook := idtac.
Ltac lens_simpl := cbn [view over id_lens]; lens_hook.
Ltac side := lens_simpl; try lia.

(** One step of symbolic execution. Side conditions that [lia] does not close
    remain; conditionals become two goals with the test as a hypothesis. *)
Ltac wstep :=
  cbn beta;
  lazymatch goal with
  | |- wp (bind _ _) _ _ _ => apply wp_bind
  | |- wp (ret _) _ _ _ => apply wp_ret
  | |- wp (rd _ _) _ _ _ => apply wp_rd; [side|]
  | |- wp (wr _ _ _) _ _ _ => apply wp_wr; [side|]
  | |- wp (int32 _) _ _ _ => apply wp_int32; [side|]
  | |- wp (gets _) _ _ _ => apply wp_gets
  | |- wp (modify _) _ _ _ => apply wp_modify
  | |- wp (guard_ok _) _ _ _ => apply wp_guard; [side|]
  | |- wp (if ?b then _ else _) _ _ _ => let E := fresh "Hb" in destruct b eqn:E
  | |- wp (match ?b with _ => _ end) _ _ _ => let E := fresh "Hm" in destruct b eqn:E
  | |- wp (let _ := _ in _) _ _ _ => cbv zeta
  | |- (if ?b then _ else _) => let E := fresh "Hb" in destruct b eqn:E
  end; cbn beta iota; lens_simpl.
Ltac wsteps := repeat wstep.
