(* ===== verification/SortLemmas.v ===== *)
(** SortLemmas: the invariants of the in-place sorts, stated on arrays alone and
    shared by the routines of clrs/sorting.c and data_structure_and_algorithm/sort:
    exchanging two cells, growing a sorted prefix or suffix, the hole of an
    insertion or a partition, the merge of two runs, binary max-heaps. *)
From stdpp Require Import list sorting.
From S2P Require Import Prelude Arrays.

(** ** Exchanging two cells *)

Definition aswap (l : list Z) (i j : Z) : list Z := aset (aset l i (aget l j)) j (aget l i).

Section aswap.
Implicit Types (l : list Z) (i j k : Z).

Lemma Zlen_aswap l i j : Zlen (aswap l i j) = Zlen l.
Proof. unfold aswap. by rewrite !Zlen_aset. Qed.

Lemma aget_aswap l i j k : 0 <= i < Zlen l -> 0 <= j < Zlen l -> 0 <= k ->
  aget (aswap l i j) k = if j =? k then aget l i else if i =? k then aget l j else aget l k.
Proof. intros. unfold aswap. by rewrite !aget_aset by (rewrite ?Zlen_aset; lia). Qed.

Lemma perm_in_aswap l i j lo hi : 0 <= lo <= i -> i < hi -> lo <= j -> j < hi ->
  hi <= Zlen l -> perm_in l (aswap l i j) lo hi.
Proof. apply perm_in_swap. Qed.
End aswap.

(** ** A sorted prefix below the rest, a sorted suffix above the rest *)

Definition prefix_le (a : list Z) (i n : Z) : Prop :=
  sorted_in a 0 i /\ forall x y, 0 <= x < i -> i <= y < n -> aget a x <= aget a y.

Definition suffix_ge (a : list Z) (i n : Z) : Prop :=
  sorted_in a i n /\ forall x y, 0 <= x < i -> i <= y < n -> aget a x <= aget a y.

Section prefix_suffix.
Implicit Types (a : list Z) (i n : Z).

Lemma prefix_le_0 a n : prefix_le a 0 n.
Proof. split; [apply sorted_in_small; lia|lia]. Qed.

(** One more minimum brought to the front of what remains. *)
Lemma prefix_le_step a a' i n : 0 <= i < n -> n <= Zlen a -> prefix_le a i n ->
  perm_in a a' i n -> (forall k, i <= k < n -> aget a' i <= aget a' k) ->
  prefix_le a' (i + 1) n.
Proof.
  intros Hi Hn [Hs Hle] HP Hmin. pose proof (proj2 HP) as HS.
  assert (Hle' : forall x y, 0 <= x < i -> i <= y < n -> aget a' x <= aget a' y).
  { intros x y Hx Hy. rewrite (proj2 HS x) by lia.
    apply (perm_in_forall (fun v => aget a x <= v) a a' i n i n); try lia; [done|].
    intros k Hk. by apply Hle. }
  split.
  - apply sorted_in_snoc; replace (i + 1 - 1) with i by lia.
    + eapply sorted_in_same; [exact Hs|exact HS|lia|lia].
    + intros x Hx. apply Hle'; lia.
  - intros x y Hx Hy. destruct (decide (x = i)) as [->|]; [apply Hmin|apply Hle']; lia.
Qed.

Lemma prefix_le_done a n : prefix_le a (n - 1) n -> sorted_in a 0 n.
Proof. intros [Hs Hle]. apply sorted_in_snoc; [done|]. intros. apply Hle; lia. Qed.

Lemma suffix_ge_n a n : suffix_ge a n n.
Proof. split; [apply sorted_in_small; lia|lia]. Qed.

(** The cells below [i] are permuted so that a maximum is at [i - 1]. *)
Lemma suffix_ge_step a a' i n : 0 < i <= n -> n <= Zlen a -> suffix_ge a i n ->
  perm_in a a' 0 i -> (forall k, 0 <= k < i -> aget a' k <= aget a' (i - 1)) ->
  suffix_ge a' (i - 1) n.
Proof.
  intros Hi Hn [Hs Hle] HP Hmax. pose proof (proj2 HP) as HS.
  assert (Hle' : forall x y, 0 <= x < i -> i <= y < n -> aget a' x <= aget a' y).
  { intros x y Hx Hy. rewrite (proj2 HS y) by lia.
    apply (perm_in_forall (fun v => v <= aget a y) a a' 0 i 0 i); try lia; [done|].
    intros k Hk. by apply Hle. }
  split.
  - apply (sorted_in_app _ _ i); [apply sorted_in_small; lia|..].
    + eapply sorted_in_same; [exact Hs|exact HS|lia|lia].
    + intros x y ? ?. apply Hle'; lia.
  - intros x y Hx Hy. destruct (decide (y = i - 1)) as [->|]; [apply Hmax|apply Hle']; lia.
Qed.

Lemma suffix_ge_done a n : suffix_ge a 0 n -> sorted_in a 0 n.
Proof. by intros [? _]. Qed.
End prefix_suffix.

(** ** The hole of an insertion *)

(** [a] with a hole at [j], the value [tmp] held outside: filling it gives back a
    permutation of [a0]. *)
Definition hole (a0 a : list Z) (lo hi j tmp : Z) : Prop :=
  lo <= j < hi /\ perm_in a0 (aset a j tmp) lo hi.

(** Inserting into the sorted [lo, i): what was moved up exceeds [tmp]. *)
Definition insert_inv (a0 a : list Z) (lo i j tmp : Z) : Prop :=
  hole a0 a lo (i + 1) j tmp /\
  (forall x y, lo <= x -> x <= y -> y <= i -> x <> j -> y <> j -> aget a x <= aget a y) /\
  (forall y, j < y <= i -> tmp < aget a y).

Section hole.
Implicit Types (a : list Z) (i j k lo hi tmp : Z).

Lemma hole_len a0 a lo hi j tmp : hole a0 a lo hi j tmp -> Zlen a = Zlen a0.
Proof. intros [_ HP]. apply perm_in_len in HP. by rewrite Zlen_aset in HP. Qed.

Lemma hole_start a0 lo hi j : 0 <= lo <= j -> j < hi -> hole a0 a0 lo hi j (aget a0 j).
Proof. intros. split; [lia|]. rewrite aset_id by lia. apply perm_in_refl. Qed.

(** [a[j] = a[k]]: the hole moves to [k]. *)
Lemma hole_shift a0 a lo hi j k tmp : 0 <= lo -> hi <= Zlen a0 -> lo <= k < hi -> j <> k ->
  hole a0 a lo hi j tmp -> hole a0 (aset a j (aget a k)) lo hi k tmp.
Proof.
  intros Hlo Hhi Hk Hne Hh. pose proof (hole_len _ _ _ _ _ _ Hh) as Hlen.
  destruct Hh as [Hj HP]. split; [lia|]. eapply perm_in_trans; [exact HP|].
  split; [apply hole_move; lia|].
  eapply same_out_trans; [|apply same_out_aset; lia].
  split; [by rewrite !Zlen_aset|]. intros m ? ?. by rewrite !aget_aset_ne by lia.
Qed.

Lemma insert_start a0 lo i : 0 <= lo <= i -> sorted_in a0 lo i ->
  insert_inv a0 a0 lo i i (aget a0 i).
Proof.
  intros Hlo Hs. split; [apply hole_start; lia|]. split; [|lia].
  intros x y ? ? ? ? ?. apply Hs; lia.
Qed.

Lemma insert_shift a0 a lo i j tmp : 0 <= lo < j -> i < Zlen a0 ->
  insert_inv a0 a lo i j tmp -> tmp < aget a (j - 1) ->
  insert_inv a0 (aset a j (aget a (j - 1))) lo i (j - 1) tmp.
Proof.
  intros Hlo Hi (Hh & Hs & Hgt) Htmp. pose proof (hole_len _ _ _ _ _ _ Hh) as Hlen.
  destruct (proj1 Hh) as [? ?].
  split; [apply hole_shift; [lia..|done]|]. split.
  - intros x y ? ? ? ? ?. rewrite !aget_aset by lia.
    destruct (Z.eqb_spec j x) as [<-|]; destruct (Z.eqb_spec j y) as [<-|];
      try lia; apply Hs; lia.
  - intros y ?. rewrite aget_aset by lia. destruct (Z.eqb_spec j y); [done|apply Hgt; lia].
Qed.

Lemma insert_done a0 a lo i j tmp : 0 <= lo -> i < Zlen a0 -> insert_inv a0 a lo i j tmp ->
  j = lo \/ aget a (j - 1) <= tmp -> sorts a0 (aset a j tmp) lo (i + 1).
Proof.
  intros Hlo Hi (Hh & Hs & Hgt) Hj. pose proof (hole_len _ _ _ _ _ _ Hh) as Hlen.
  destruct Hh as [? HP]. split; [done|].
  intros x y ? ? ?. rewrite !aget_aset by lia.
  destruct (Z.eqb_spec j x) as [<-|]; destruct (Z.eqb_spec j y) as [<-|]; [lia|..].
  - specialize (Hgt y). lia.
  - destruct Hj as [->|Hj]; [lia|]. specialize (Hs x (j - 1)). lia.
  - apply Hs; lia.
Qed.
End hole.

(** ** The hole of a partition around [tmp] *)

Definition part_inv (a0 a : list Z) (b e i j h tmp : Z) : Prop :=
  b <= i <= j /\ j < e /\ hole a0 a b e h tmp /\
  (forall k, b <= k < i -> aget a k <= tmp) /\ (forall k, j < k < e -> tmp <= aget a k).

Section partition.
Implicit Types (a : list Z) (b e i j tmp : Z).

Lemma part_start a b e : 0 <= b < e -> part_inv a a b e b (e - 1) b (aget a b).
Proof. intros. split; [lia|]. split; [lia|]. split; [apply hole_start; lia|]. split; intros; lia. Qed.

(** [a[i++] = a[j]] with the hole at [i]. *)
Lemma part_left a0 a b e i j tmp : 0 <= b -> e <= Zlen a0 -> i < j ->
  part_inv a0 a b e i j i tmp -> aget a j <= tmp ->
  part_inv a0 (aset a i (aget a j)) b e (i + 1) j j tmp.
Proof.
  intros Hb He Hij (? & ? & Hh & Hl & Hr) Hj. pose proof (hole_len _ _ _ _ _ _ Hh).
  split; [lia|]. split; [lia|]. split; [apply hole_shift; [lia..|done]|].
  split; intros k ?; rewrite aget_aset by lia.
  - destruct (Z.eqb_spec i k); [done|apply Hl; lia].
  - destruct (Z.eqb_spec i k); [lia|apply Hr; lia].
Qed.

(** [a[j--] = a[i]] with the hole at [j]. *)
Lemma part_right a0 a b e i j tmp : 0 <= b -> e <= Zlen a0 -> i < j ->
  part_inv a0 a b e i j j tmp -> tmp <= aget a i ->
  part_inv a0 (aset a j (aget a i)) b e i (j - 1) i tmp.
Proof.
  intros Hb He Hij (? & ? & Hh & Hl & Hr) Hi. pose proof (hole_len _ _ _ _ _ _ Hh).
  split; [lia|]. split; [lia|]. split; [apply hole_shift; [lia..|done]|].
  split; intros k ?; rewrite aget_aset by lia.
  - destruct (Z.eqb_spec j k); [lia|apply Hl; lia].
  - destruct (Z.eqb_spec j k); [done|apply Hr; lia].
Qed.

(** The pivot put into the hole, and the two sides sorted. *)
Lemma part_sorted a0 a a1 a2 b e i tmp : 0 <= b -> e <= Zlen a0 ->
  part_inv a0 a b e i i i tmp -> sorts (aset a i tmp) a1 b i -> sorts a1 a2 (i + 1) e ->
  sorts a0 a2 b e.
Proof.
  intros Hb He (? & ? & Hh & Hl & Hr) [HP1 Hs1] [HP2 Hs2].
  pose proof (hole_len _ _ _ _ _ _ Hh). destruct Hh as [_ HP].
  pose proof (perm_in_len _ _ _ _ HP) as Hlen. rewrite Zlen_aset in Hlen.
  pose proof (perm_in_len _ _ _ _ HP1) as Hlen1. rewrite Zlen_aset in Hlen1.
  pose proof (perm_in_len _ _ _ _ HP2) as Hlen2.
  split.
  { eapply perm_in_trans; [exact HP|].
    eapply perm_in_trans; [eapply perm_in_weaken; [exact HP1|lia..]|].
    eapply perm_in_weaken; [exact HP2|lia..]. }
  assert (Hpiv : aget a2 i = tmp).
  { rewrite (proj2 (proj2 HP2)), (proj2 (proj2 HP1)) by lia. by apply aget_aset_eq; lia. }
  assert (Hleft : forall k, b <= k < i -> aget a2 k <= tmp).
  { intros k Hk. rewrite (proj2 (proj2 HP2)) by lia.
    apply (perm_in_forall (fun v => v <= tmp) (aset a i tmp) a1 b i b i);
      rewrite ?Zlen_aset; try lia; [done|].
    intros m ?. rewrite aget_aset_ne by lia. by apply Hl. }
  assert (Hright : forall k, i < k < e -> tmp <= aget a2 k).
  { intros k Hk.
    apply (perm_in_forall (fun v => tmp <= v) a1 a2 (i + 1) e (i + 1) e); try lia; [done|].
    intros m ?. rewrite (proj2 (proj2 HP1)), aget_aset_ne by lia. apply Hr. lia. }
  apply (sorted_in_app _ b i e).
  - eapply sorted_in_same; [exact Hs1|exact (proj2 HP2)|lia..].
  - apply (sorted_in_app _ i (i + 1) e); [apply sorted_in_small; lia|done|].
    intros x y ? ?. replace x with i by lia. rewrite Hpiv. apply Hright. lia.
  - intros x y ? ?. transitivity tmp; [by apply Hleft|].
    destruct (Z.eq_dec y i) as [->|]; [by rewrite Hpiv|apply Hright; lia].
Qed.
End partition.

(** ** Merging two sorted runs of [a] into [t], from the offset [off] *)

Definition merge_inv (a t : list Z) (b mid e i j off ti : Z) : Prop :=
  b <= i <= mid /\ mid <= j <= e /\ ti - off = (i - b) + (j - mid) /\
  Permutation (seg t off ti) (seg a b i ++ seg a mid j) /\ sorted_in t off ti /\
  (forall x, off <= x < ti -> (i < mid -> aget t x <= aget a i) /\ (j < e -> aget t x <= aget a j)).

Section merge.
Implicit Types (a t : list Z).

Lemma merge_start a t b mid e off : b <= mid <= e -> merge_inv a t b mid e b mid off off.
Proof.
  intros. repeat split; try lia; [|apply sorted_in_small; lia].
  by rewrite !seg_nil by lia.
Qed.

Context (a : list Z) (b mid e off : Z).
Hypothesis Hb : 0 <= b.
Hypothesis He : e <= Zlen a.
Hypothesis Hoff : 0 <= off.
Hypothesis Hl : sorted_in a b mid.
Hypothesis Hr : sorted_in a mid e.

Lemma merge_emit t i j ti v : merge_inv a t b mid e i j off ti -> ti < Zlen t ->
  seg (aset t ti v) off (ti + 1) = seg t off ti ++ [v].
Proof.
  intros (? & ? & ? & _) Hti. rewrite seg_snoc by (rewrite ?Zlen_aset; lia).
  rewrite aget_aset_eq by lia. f_equal.
  apply seg_ext; rewrite ?Zlen_aset; try lia. intros. by rewrite aget_aset_ne by lia.
Qed.

Lemma merge_sorted t i j ti v : merge_inv a t b mid e i j off ti -> ti < Zlen t ->
  (forall x, off <= x < ti -> aget t x <= v) -> sorted_in (aset t ti v) off (ti + 1).
Proof.
  intros (? & ? & ? & _ & Hs & _) Hti Hv.
  apply sorted_in_snoc; replace (ti + 1 - 1) with ti by lia.
  - intros x y ? ? ?. rewrite !aget_aset_ne by lia. by apply Hs.
  - intros x ?. rewrite aget_aset_eq, aget_aset_ne by lia. by apply Hv.
Qed.

Lemma merge_left t i j ti : merge_inv a t b mid e i j off ti -> ti < Zlen t -> i < mid ->
  (j < e -> aget a i <= aget a j) ->
  merge_inv a (aset t ti (aget a i)) b mid e (i + 1) j off (ti + 1).
Proof.
  intros Hm Hti Hi Hij. pose proof Hm as (? & ? & ? & HP & Hs & Hle).
  split; [lia|]. split; [lia|]. split; [lia|]. split; [|split].
  - erewrite merge_emit by done. rewrite (seg_snoc a b i) by lia.
    rewrite HP, <-!(assoc_L _). apply Permutation_app_head.
    symmetry. apply (Permutation_cons_append (seg a mid j)).
  - eapply merge_sorted; [done..|]. intros x Hx. by apply (Hle x).
  - intros x Hx. rewrite aget_aset by lia. destruct (Z.eqb_spec ti x) as [<-|].
    + split; [|done]. intros. apply Hl; lia.
    + destruct (Hle x) as [Hxi Hxj]; [lia|]. split; [|done].
      intros. transitivity (aget a i); [by apply Hxi|apply Hl; lia].
Qed.

Lemma merge_right t i j ti : merge_inv a t b mid e i j off ti -> ti < Zlen t -> j < e ->
  (i < mid -> aget a j <= aget a i) ->
  merge_inv a (aset t ti (aget a j)) b mid e i (j + 1) off (ti + 1).
Proof.
  intros Hm Hti Hj Hij. pose proof Hm as (? & ? & ? & HP & Hs & Hle).
  split; [lia|]. split; [lia|]. split; [lia|]. split; [|split].
  - erewrite merge_emit by done. rewrite (seg_snoc a mid j) by lia.
    by rewrite HP, <-!(assoc_L _).
  - eapply merge_sorted; [done..|]. intros x Hx. by apply (Hle x).
  - intros x Hx. rewrite aget_aset by lia. destruct (Z.eqb_spec ti x) as [<-|].
    + split; [done|]. intros. apply Hr; lia.
    + destruct (Hle x) as [Hxi Hxj]; [lia|]. split; [done|].
      intros. transitivity (aget a j); [by apply Hxj|apply Hr; lia].
Qed.

(** The merged run copied back over the two. *)
Lemma merge_copied t ti a' : b <= mid <= e -> merge_inv a t b mid e mid e off ti -> ti <= Zlen t ->
  same_out a a' b e -> (forall k, b <= k < e -> aget a' k = aget t (k - b + off)) ->
  sorts a a' b e.
Proof.
  intros Hm (_ & _ & Hti & HP & Hs & _) Htl Hout Hk. split.
  - apply seg_perm_in; [lia..|done|]. rewrite (seg_app a b mid e) by lia.
    rewrite <-HP. apply reflexive_eq, list_eq. intros n.
    pose proof (proj1 Hout).
    destruct (decide (n < Z.to_nat (e - b))%nat).
    + rewrite !seg_lookup by lia.
      replace (Z.to_nat off + n)%nat with (Z.to_nat (off + Z.of_nat n)) by lia.
      replace (Z.to_nat b + n)%nat with (Z.to_nat (b + Z.of_nat n)) by lia.
      rewrite !aget_lookup by lia. rewrite Hk by lia. do 2 f_equal. lia.
    + rewrite !lookup_ge_None_2; [done|..]; unfold seg; rewrite length_take; lia.
  - intros x y ? ? ?. rewrite !Hk by lia. apply Hs; lia.
Qed.
End merge.

(** ** Binary max-heaps, node [k] over [2k+1] and [2k+2] *)

Definition child (k c : Z) : Prop := c = 2 * k + 1 \/ c = 2 * k + 2.

Definition heap_from (a : list Z) (lo n : Z) : Prop :=
  forall k c, lo <= k -> child k c -> c < n -> aget a c <= aget a k.

(** A heap except between [p] and its children, which are below [p]'s parent. *)
Definition heap_except (a : list Z) (lo n p : Z) : Prop :=
  (forall k c, lo <= k -> k <> p -> child k c -> c < n -> aget a c <= aget a k) /\
  (forall q c, lo <= q -> child q p -> child p c -> c < n -> aget a c <= aget a q).

Section heap.
Implicit Types (a : list Z) (lo n p c : Z).

Lemma heap_root_max a n : heap_from a 0 n -> forall k, 0 <= k < n -> aget a k <= aget a 0.
Proof.
  intros Hh k [Hk Hn]. revert Hn. pattern k. apply Zlt_0_ind; [|done].
  intros x IH Hx Hn. destruct (decide (x = 0)) as [->|]; [lia|].
  set (q := (x - 1) / 2). assert (0 <= q < x /\ child q x) as [Hq Hc] by (unfold child, q; zlia).
  transitivity (aget a q); [by apply Hh; [lia|..]|apply IH; lia].
Qed.

Lemma heap_none a lo n : n <= 2 * lo + 1 -> heap_from a lo n.
Proof. unfold heap_from, child. lia. Qed.

Lemma heap_except_start a p n : 0 <= p -> heap_from a (p + 1) n -> heap_except a p n p.
Proof. intros Hp Hh. split; unfold child; [|lia]. intros k c ? ? ? ?. apply Hh; unfold child; lia. Qed.

Lemma heap_except_done a lo n p : n <= 2 * p + 1 -> heap_except a lo n p -> heap_from a lo n.
Proof.
  intros Hp [He _] k c Hk Hc Hn. destruct (decide (k = p)) as [->|]; [|by apply He].
  unfold child in Hc. lia.
Qed.

(** No violation at [p]: the heap is complete. *)
Lemma heap_except_ok a lo n p : heap_except a lo n p ->
  (forall c, child p c -> c < n -> aget a c <= aget a p) -> heap_from a lo n.
Proof.
  intros [He _] Hp k c Hk Hc Hn. destruct (decide (k = p)) as [->|]; [by apply Hp|by apply He].
Qed.

(** A heap is one with any node as the exception. *)
Lemma heap_from_except a lo n p : 0 <= lo -> heap_from a lo n -> heap_except a lo n p.
Proof.
  intros Hlo Hh. split; [intros; by apply Hh|]. intros q c Hq Hqp Hpc Hc.
  transitivity (aget a p); apply Hh; try done; unfold child in *; lia.
Qed.

(** The larger child goes up to [p], which held less. *)
Lemma heap_sift a a' lo n p c : 0 <= lo <= p -> child p c -> c < n -> n <= Zlen a ->
  heap_except a lo n p -> (forall c', child p c' -> c' < n -> aget a c' <= aget a c) ->
  Zlen a' = Zlen a -> aget a' p = aget a c -> aget a p < aget a c ->
  (forall k, 0 <= k -> k <> p -> k <> c -> aget a' k = aget a k) ->
  aget a' c = aget a p -> heap_except a' lo n c.
Proof.
  intros Hlo Hc Hcn Hn [He Hg] Hmax Hlen Hap Hlt Hk Hac.
  split.
  - intros k d Hkl Hkc Hd Hdn.
    destruct (decide (k = p)) as [->|Hkp].
    + rewrite Hap. destruct (decide (d = c)) as [->|]; [lia|].
      rewrite Hk by (unfold child in *; lia). by apply Hmax.
    + rewrite (Hk k) by (unfold child in *; lia).
      destruct (decide (d = p)) as [->|].
      * rewrite Hap. by apply (Hg k c).
      * rewrite Hk by (unfold child in *; lia). by apply He.
  - intros q d Hq Hqc Hcd Hdn. replace q with p by (unfold child in *; lia).
    rewrite Hap. rewrite Hk by (unfold child in *; lia).
    apply He; [unfold child in *; lia..|done|done].
Qed.
End heap.
