(* ===== verification/ClrsSorting.v ===== *)
(** ClrsSorting: the sorting routines of clrs/sorting.c, run on a C array of
    ints by the loop primitive of Prelude, and the program of
    clrs/test_sorting.c that runs all of them on copies of one array. *)
From stdpp Require Import list sorting.
From S2P Require Import Prelude Arrays SortLemmas.

(** The memory of the routines that sort in place: the array [a]; a pointer
    into it ([a+i]) is the index [i]. *)
Abbreviation arr := (@id_lens (list Z)).

(** The memory of the merge sort: [a] and the buffer [tmpa]. *)
Record mem := Mem { m_a : list Z; m_tmp : list Z }.
Definition la : lens mem (list Z) := Lens m_a (fun x m => Mem x (m_tmp m)).
Definition ltmp : lens mem (list Z) := Lens m_tmp (fun x m => Mem (m_a m) x).

Section sorting.
Variable fuel : nat.

Definition swap (a b : Z) : M (list Z) unit :=
  if a =? b then ret tt
  else
    x <- rd arr a ;; y <- rd arr b ;; wr arr a (Z.lxor x y) ;;
    y <- rd arr b ;; x <- rd arr a ;; wr arr b (Z.lxor y x) ;;
    x <- rd arr a ;; y <- rd arr b ;; wr arr a (Z.lxor x y).

Definition bubblesort (n : Z) : M (list Z) unit :=
  while_ fuel (fun i => ret (i <? n - 1)) (fun i =>
    while_ fuel (fun j => ret (i <? j)) (fun j =>
      x <- rd arr j ;; y <- rd arr (j - 1) ;;
      (when x <? y do swap j (j - 1)) ;;
      ret (j - 1)) (n - 1) ;;
    ret (i + 1)) 0 ;;
  ret tt.

Definition selectsort (n : Z) : M (list Z) unit :=
  while_ fuel (fun i => ret (i <? n - 1)) (fun i =>
    let! (_, min) := while_ fuel (fun '(j, _) => ret (i <? j)) (fun '(j, min) =>
      x <- rd arr j ;; y <- rd arr min ;;
      ret (j - 1, if x <? y then j else min)) (n - 1, i) in
    swap i min ;;
    ret (i + 1)) 0 ;;
  ret tt.

Definition insertsort (n : Z) : M (list Z) unit :=
  while_ fuel (fun i => ret (i <? n)) (fun i =>
    tmp <- rd arr i ;;
    j <- while_ fuel
           (fun j => if 0 <? j then x <- rd arr (j - 1) ;; ret (tmp <? x) else ret false)
           (fun j => x <- rd arr (j - 1) ;; wr arr j x ;; ret (j - 1)) i ;;
    wr arr j tmp ;;
    ret (i + 1)) 1 ;;
  ret tt.

Definition shellsort (n : Z) : M (list Z) unit :=
  while_ fuel (fun sep => ret (1 <=? sep)) (fun sep =>
    while_ fuel (fun i => ret (i <? n)) (fun i =>
      tmp <- rd arr i ;;
      j <- while_ fuel
             (fun j => if sep <=? j then x <- rd arr (j - sep) ;; ret (tmp <? x)
                       else ret false)
             (fun j => x <- rd arr (j - sep) ;; wr arr j x ;; ret (j - sep)) i ;;
      wr arr j tmp ;;
      ret (i + 1)) sep ;;
    ret (Z.quot sep 2)) (Z.quot n 2) ;;
  ret tt.

Definition merge (b mid e : Z) : M mem unit :=
  let! (i, j, ti) := while_ fuel (fun '(i, j, _) => ret ((i <? mid) && (j <? e)))
    (fun '(i, j, ti) =>
       x <- rd la i ;; y <- rd la j ;;
       if x <? y then x <- rd la i ;; wr ltmp ti x ;; ret (i + 1, j, ti + 1)
       else y <- rd la j ;; wr ltmp ti y ;; ret (i, j + 1, ti + 1))
    (b, mid, 0) in
  let! (i, ti) := while_ fuel (fun '(i, _) => ret (i <? mid))
    (fun '(i, ti) => x <- rd la i ;; wr ltmp ti x ;; ret (i + 1, ti + 1)) (i, ti) in
  while_ fuel (fun '(j, _) => ret (j <? e))
    (fun '(j, ti) => y <- rd la j ;; wr ltmp ti y ;; ret (j + 1, ti + 1)) (j, ti) ;;
  while_ fuel (fun '(i, _) => ret (i <? e))
    (fun '(i, ti) => x <- rd ltmp ti ;; wr la i x ;; ret (i + 1, ti + 1)) (b, 0) ;;
  ret tt.

Fixpoint msort (depth : nat) (b e : Z) : M mem unit :=
  match depth with
  | O => fun _ => Diverge
  | S depth =>
      if b + 1 <? e then
        sum <- int32 (b + e) ;;
        let mid := Z.quot sum 2 in
        msort depth b mid ;; msort depth mid e ;; merge b mid e
      else ret tt
  end.

(** [block] is what [malloc] returned: [None] for a failure, otherwise the
    contents, whatever they are, of the [n] cells. The result tells whether
    the error message was printed instead. *)
Definition mergesort (block : option (list Z)) (n : Z) : M (list Z) bool := fun a =>
  match block with
  | Some tmpa => match msort fuel 0 n (Mem a tmpa) with
                 | Ret _ m => Ret true (m_a m)
                 | Exit c m => Exit c (m_a m)
                 | UB => UB
                 | Diverge => Diverge
                 end
  | None => Ret false a
  end.

(** [k] is 1-based, as in the source. *)
Definition sink (k n : Z) : M (list Z) unit :=
  while_ fuel (fun k => k2 <- int32 (2 * k) ;; ret (k2 <=? n)) (fun k =>
    biggerchild <-
      (k21 <- int32 (2 * k + 1) ;;
       if n <? k21 then ret (2 * k)
       else x <- rd arr (2 * k - 1) ;; y <- rd arr (2 * k) ;;
            if y <? x then ret (2 * k) else ret (2 * k + 1)) ;;
    x <- rd arr (k - 1) ;; y <- rd arr (biggerchild - 1) ;;
    (when x <? y do swap (k - 1) (biggerchild - 1)) ;;
    ret biggerchild) k ;;
  ret tt.

Definition buildheap (n : Z) : M (list Z) unit :=
  while_ fuel (fun i => ret (0 <? i)) (fun i => sink i n ;; ret (i - 1)) (Z.quot n 2) ;;
  ret tt.

Definition heapsort (n : Z) : M (list Z) unit :=
  buildheap n ;;
  while_ fuel (fun i => ret (0 <? i)) (fun i =>
    swap 0 (i - 1) ;; sink 1 (i - 1) ;; ret (i - 1)) n ;;
  ret tt.

(** The partition loop of [quicksort]: the final [i]. *)
Definition qpartition (tmp b e : Z) : M (list Z) Z :=
  let! (i, _) := while_ fuel (fun '(i, j) => ret (i <? j)) (fun '(i, j) =>
    j <- while_ fuel
           (fun j => if i <? j then x <- rd arr j ;; ret (tmp <=? x) else ret false)
           (fun j => ret (j - 1)) j ;;
    i <- (if i <? j then x <- rd arr j ;; wr arr i x ;; ret (i + 1) else ret i) ;;
    i <- while_ fuel
           (fun i => if i <? j then x <- rd arr i ;; ret (x <=? tmp) else ret false)
           (fun i => ret (i + 1)) i ;;
    j <- (if i <? j then x <- rd arr i ;; wr arr j x ;; ret (j - 1) else ret j) ;;
    ret (i, j)) (b, e - 1) in
  ret i.

Fixpoint quicksort (depth : nat) (b e : Z) : M (list Z) unit :=
  match depth with
  | O => fun _ => Diverge
  | S depth =>
      tmp <- rd arr b ;;
      i <- qpartition tmp b e ;;
      wr arr i tmp ;;
      when b + 2 <? e do (quicksort depth b i ;; quicksort depth (i + 1) e)
  end.

Definition my_qsort (n : Z) : M (list Z) unit := quicksort fuel 0 n.
End sorting.

(** The memory of clrs/test_sorting.c: the seven blocks that [main] allocates. *)
Record blocks := Blocks {
  barr : list Z; sarr : list Z; iarr : list Z; sharr : list Z;
  marr : list Z; harr : list Z; qarr : list Z;
}.
Definition lbarr := Lens barr (fun x '(Blocks _ s i sh m h q) => Blocks x s i sh m h q).
Definition lsarr := Lens sarr (fun x '(Blocks b _ i sh m h q) => Blocks b x i sh m h q).
Definition liarr := Lens iarr (fun x '(Blocks b s _ sh m h q) => Blocks b s x sh m h q).
Definition lsharr := Lens sharr (fun x '(Blocks b s i _ m h q) => Blocks b s i x m h q).
Definition lmarr := Lens marr (fun x '(Blocks b s i sh _ h q) => Blocks b s i sh x h q).
Definition lharr := Lens harr (fun x '(Blocks b s i sh m _ q) => Blocks b s i sh m x q).
Definition lqarr := Lens qarr (fun x '(Blocks b s i sh m h _) => Blocks b s i sh m h x).

(** [memcpy(dst, barr, sizeof(int) * n)] for two blocks that do not overlap. *)
Definition memcpy_barr (dst : lens blocks (list Z)) (n : Z) : M blocks unit :=
  src <- gets barr ;; old <- gets (view dst) ;;
  guard_ok ((n <=? Zlen src) && (n <=? Zlen old)) ;;
  modify (over dst (seg src 0 n ++ drop (Z.to_nat n) old)).

(** [main] of clrs/test_sorting.c, its blocks allocated: [rand] gives the [i]-th
    random number, [block] is what [mergesort] gets from [malloc]. *)
Definition test_main (fuel : nat) (n : Z) (rand : Z -> Z) (block : option (list Z)) :
  M blocks Z :=
  while_ fuel (fun i => ret (i <? n)) (fun i =>
    wr lbarr i (Z.rem (rand i) 10000) ;; ret (i + 1)) 0 ;;
  memcpy_barr lsarr n ;; memcpy_barr liarr n ;; memcpy_barr lsharr n ;;
  memcpy_barr lmarr n ;; memcpy_barr lharr n ;; memcpy_barr lqarr n ;;
  zoom lbarr (bubblesort fuel n) ;;
  zoom lsarr (selectsort fuel n) ;;
  zoom liarr (insertsort fuel n) ;;
  zoom lsharr (shellsort fuel n) ;;
  zoom lmarr (mergesort fuel block n) ;;
  zoom lharr (heapsort fuel n) ;;
  zoom lqarr (my_qsort fuel n) ;;
  ret 0.


(** ** Elementary sorts *)

Ltac lens_hook ::= cbn [la ltmp view over m_a m_tmp].

Section sorting_proofs.
Variable fuel : nat.
Implicit Types (a : list Z) (n : Z).

(** The exclusive-or exchange, aliased pointers included. *)
Lemma wp_swap i j (Q : unit -> list Z -> Prop) X a :
  0 <= i < Zlen a -> 0 <= j < Zlen a -> Q tt (aswap a i j) -> wp (swap i j) Q X a.
Proof.
  intros Hi Hj HQ. unfold swap. destruct (Z.eqb_spec i j) as [->|Hne].
  - apply wp_ret. unfold aswap in HQ. by rewrite aset_aset, aset_id in HQ by lia.
  - wsteps; simpl in *; rewrite ?Zlen_aset; try lia.
    replace (aset _ i _) with (aswap a i j); [done|].
    apply array_ext; [unfold aswap; by rewrite !Zlen_aset|].
    intros k Hk. unfold aswap in *.
    repeat rewrite aget_aset by (rewrite ?Zlen_aset in *; lia).
    rewrite !Z.eqb_refl, (proj2 (Z.eqb_neq i j)), (proj2 (Z.eqb_neq j i)) by lia.
    destruct (Z.eqb_spec j k), (Z.eqb_spec i k); try lia;
      apply Z.bits_inj'; intros m Hm; rewrite ?Z.lxor_spec;
      by destruct (Z.testbit (aget a i) m), (Z.testbit (aget a j) m).
Qed.

Lemma wp_bubblesort a n : 0 <= n <= Zlen a -> (Z.to_nat n < fuel)%nat ->
  wp (bubblesort fuel n) (fun _ a' => sorts a a' 0 n) noexit a.
Proof.
  intros Hn Hfuel. unfold bubblesort. wstep.
  apply (wp_while (fun i a1 => 0 <= i <= Z.max 0 (n - 1) /\ perm_in a a1 0 n /\ prefix_le a1 i n)
           (fun i _ => Z.to_nat (n - i))); [|lia|].
  { split; [lia|]. split; [apply perm_in_refl|apply prefix_le_0]. }
  intros i a1 (Hi & HP & Hpre). pose proof (perm_in_len _ _ _ _ HP).
  wsteps; [|split; [done|]].
  2: { destruct (Z.eq_dec n 0) as [->|]; [apply sorted_in_small; lia|].
       apply prefix_le_done. by replace (n - 1) with i by lia. }
  apply (wp_while (fun j a2 => i <= j < n /\ perm_in a1 a2 i n /\
                               forall k, j <= k < n -> aget a2 j <= aget a2 k)
           (fun j _ => Z.to_nat (j - i))); [|lia|].
  { split; [lia|]. split; [apply perm_in_refl|]. intros k ?. by replace k with (n - 1) by lia. }
  intros j a2 (Hj & HP2 & Hmin). pose proof (perm_in_len _ _ _ _ HP2).
  wsteps; simpl in *; try lia.
  - apply wp_swap; [lia..|]. wstep. split; [|lia]. split; [lia|]. split.
    + eapply perm_in_trans; [done|]. apply perm_in_aswap; lia.
    + intros k Hk. rewrite !aget_aswap by lia. specialize (Hmin k).
      destruct (Z.eqb_spec (j - 1) (j - 1)), (Z.eqb_spec (j - 1) k), (Z.eqb_spec j k); lia.
  - split; [|lia]. split; [lia|]. split; [done|].
    intros k Hk. destruct (decide (k = j - 1)) as [->|]; [lia|]. specialize (Hmin k). lia.
  - split; [|lia]. split; [lia|]. split.
    + eapply perm_in_trans; [done|]. eapply perm_in_weaken; [done|lia..].
    + eapply prefix_le_step; [..|exact HP2|]; [lia|lia|done|].
      replace i with j by lia. done.
Qed.

Lemma wp_selectsort a n : 0 <= n <= Zlen a -> (Z.to_nat n < fuel)%nat ->
  wp (selectsort fuel n) (fun _ a' => sorts a a' 0 n) noexit a.
Proof.
  intros Hn Hfuel. unfold selectsort. wstep.
  apply (wp_while (fun i a1 => 0 <= i <= Z.max 0 (n - 1) /\ perm_in a a1 0 n /\ prefix_le a1 i n)
           (fun i _ => Z.to_nat (n - i))); [|lia|].
  { split; [lia|]. split; [apply perm_in_refl|apply prefix_le_0]. }
  intros i a1 (Hi & HP & Hpre). pose proof (perm_in_len _ _ _ _ HP).
  wsteps; [|split; [done|]].
  2: { destruct (Z.eq_dec n 0) as [->|]; [apply sorted_in_small; lia|].
       apply prefix_le_done. by replace (n - 1) with i by lia. }
  apply (wp_while (fun '(j, min) a2 => a2 = a1 /\ i <= j < n /\ i <= min < n /\
            (min = i \/ j < min) /\ (aget a1 min <= aget a1 i) /\
            forall k, j < k < n -> aget a1 min <= aget a1 k)
           (fun '(j, _) _ => Z.to_nat (j - i))); [|lia|].
  { repeat split; lia. }
  intros [j min] a2 (-> & Hj & Hmin & Hor & Hle & Hall).
  wsteps; simpl in *; try lia.
  - split; [|lia]. split; [done|].
    destruct (Z.ltb_spec (aget a1 j) (aget a1 min)).
    + repeat split; try lia. intros k ?. destruct (decide (k = j)) as [->|]; [lia|].
      specialize (Hall k). lia.
    + repeat split; try lia. intros k ?. destruct (decide (k = j)) as [->|]; [lia|].
      specialize (Hall k). lia.
  - apply wp_swap; [lia..|]. wstep. split; [|lia]. split; [lia|]. split.
    + eapply perm_in_trans; [done|]. apply perm_in_aswap; lia.
    + eapply (prefix_le_step a1); [lia..|done|apply perm_in_aswap; lia|].
      assert (Hm : forall k, i <= k < n -> aget a1 min <= aget a1 k).
      { intros k Hk. destruct (Z.eq_dec k i) as [->|]; [done|apply Hall; lia]. }
      intros k Hk. pose proof (Hm k Hk). pose proof (Hm i).
      rewrite !aget_aswap, Z.eqb_refl by lia.
      destruct (Z.eqb_spec min i) as [Hmi|], (Z.eqb_spec min k), (Z.eqb_spec i k);
        try rewrite <-Hmi; lia.
Qed.

Lemma wp_insertsort a n : 0 <= n <= Zlen a -> (Z.to_nat n < fuel)%nat ->
  wp (insertsort fuel n) (fun _ a' => sorts a a' 0 n) noexit a.
Proof.
  intros Hn Hfuel. unfold insertsort. wstep.
  apply (wp_while (fun i a1 => 1 <= i <= Z.max 1 n /\ perm_in a a1 0 n /\ sorted_in a1 0 i)
           (fun i _ => Z.to_nat (n - i))); [|lia|].
  { split; [lia|]. split; [apply perm_in_refl|apply sorted_in_small; lia]. }
  intros i a1 (Hi & HP & Hs). pose proof (perm_in_len _ _ _ _ HP).
  wsteps; [|split; [done|eapply sorted_in_weaken; [done|lia..]]].
  apply (wp_while (fun j a2 => insert_inv a1 a2 0 i j (aget a1 i)) (fun j _ => Z.to_nat j));
    [apply insert_start; [lia|done]|lia|].
  intros j a2 Hinv. pose proof (hole_len _ _ _ _ _ _ (proj1 Hinv)) as Hlen.
  destruct (proj1 (proj1 Hinv)) as [? ?].
  assert (Hend : j = 0 \/ aget a2 (j - 1) <= aget a1 i ->
    0 <= i + 1 /\ perm_in a (aset a2 j (aget a1 i)) 0 n /\
    sorted_in (aset a2 j (aget a1 i)) 0 (i + 1)).
  { intros Hj. destruct (insert_done a1 a2 0 i j (aget a1 i)) as [HP' ?]; [lia..|done|done|].
    split; [lia|]. split; [|done]. eapply perm_in_trans; [done|].
    eapply perm_in_weaken; [done|lia..]. }
  wsteps; simpl in *; try lia.
  - split; [|lia]. apply insert_shift; [lia..|done|]. simpl in *. lia.
  - destruct Hend as (? & ? & ?); [lia|]. split; [|lia]. split; [lia|]. by split.
  - destruct Hend as (? & ? & ?); [lia|]. split; [|lia]. split; [lia|]. by split.
Qed.

(** One pass of the shell sort with any gap permutes; with gap 1 it sorts. *)
Lemma wp_shell_pass a n sep : 1 <= sep -> 0 <= n <= Zlen a -> (Z.to_nat n < fuel)%nat ->
  wp (while_ fuel (fun i => ret (i <? n)) (fun i =>
        tmp <- rd arr i ;;
        j <- while_ fuel
               (fun j => if sep <=? j then x <- rd arr (j - sep) ;; ret (tmp <? x)
                         else ret false)
               (fun j => x <- rd arr (j - sep) ;; wr arr j x ;; ret (j - sep)) i ;;
        wr arr j tmp ;;
        ret (i + 1)) sep)
     (fun _ a' => perm_in a a' 0 n /\ (sep = 1 -> sorted_in a' 0 n)) noexit a.
Proof.
  intros Hsep Hn Hfuel.
  apply (wp_while (fun i a1 => sep <= i <= Z.max sep n /\ perm_in a a1 0 n /\
                               (sep = 1 -> sorted_in a1 0 i))
           (fun i _ => Z.to_nat (n - i))); [|lia|].
  { split; [lia|]. split; [apply perm_in_refl|]. intros ->. apply sorted_in_small. lia. }
  intros i a1 (Hi & HP & Hs). pose proof (perm_in_len _ _ _ _ HP).
  wsteps; [|split; [done|intros ->; eapply sorted_in_weaken; [by apply Hs|lia..]]].
  apply (wp_while (fun j a2 => hole a1 a2 0 (i + 1) j (aget a1 i) /\
                               (sep = 1 -> insert_inv a1 a2 0 i j (aget a1 i)))
           (fun j _ => Z.to_nat j)); [|lia|].
  { split; [apply hole_start; lia|]. intros ->. apply insert_start; [lia|by apply Hs]. }
  intros j a2 [Hh Hinv]. pose proof (hole_len _ _ _ _ _ _ Hh) as Hlen. pose proof (proj1 Hh).
  assert (Hend : (sep = 1 -> j = 0 \/ aget a2 (j - 1) <= aget a1 i) ->
    perm_in a (aset a2 j (aget a1 i)) 0 n /\
    (sep = 1 -> sorted_in (aset a2 j (aget a1 i)) 0 (i + 1))).
  { intros Hj. split.
    - eapply perm_in_trans; [done|]. eapply perm_in_weaken; [apply Hh|lia..].
    - intros Hs1. eapply insert_done; [..|by apply Hinv|by apply Hj]; lia. }
  wsteps; try lia.
  - split; [|lia]. split; [apply hole_shift; [lia..|done]|].
    intros ->. apply insert_shift; [lia..|by apply Hinv|lia].
  - destruct Hend as [? ?]; [intros ->; lia|]. split; [|lia]. split; [lia|]. by split.
  - destruct Hend as [? ?]; [lia|]. split; [|lia]. split; [lia|]. by split.
Qed.

Lemma wp_shellsort a n : 0 <= n <= Zlen a -> (Z.to_nat n < fuel)%nat ->
  wp (shellsort fuel n) (fun _ a' => sorts a a' 0 n) noexit a.
Proof.
  intros Hn Hfuel. unfold shellsort. wstep.
  apply (wp_while (fun sep a1 => 0 <= sep <= n /\ perm_in a a1 0 n /\
                                 (sep = 0 -> sorted_in a1 0 n))
           (fun sep _ => Z.to_nat sep)); [|pose proof (quot2_bounds n); lia|].
  { split; [pose proof (quot2_bounds n); lia|]. split; [apply perm_in_refl|].
    intros. apply sorted_in_small. zlia. }
  intros sep a1 (Hsep & HP & Hs). pose proof (perm_in_len _ _ _ _ HP).
  wsteps; [|split; [done|apply Hs; lia]].
  apply wp_conseq with (1 := wp_shell_pass a1 n sep ltac:(lia) ltac:(lia) Hfuel).
  intros _ a2 [HP2 Hs2]. wsteps. pose proof (quot2_bounds sep).
  split; [|lia]. split; [lia|]. split; [by eapply perm_in_trans|].
  intros. apply Hs2. zlia.
Qed.

(** *** Merge sort *)

Lemma wp_merge a tmp b mid e : 0 <= b <= mid -> mid <= e -> e <= Zlen a ->
  e - b <= Zlen tmp -> (Z.to_nat (e - b) < fuel)%nat ->
  sorted_in a b mid -> sorted_in a mid e ->
  wp (merge fuel b mid e)
     (fun _ m => sorts a (m_a m) b e /\ Zlen (m_tmp m) = Zlen tmp) noexit (Mem a tmp).
Proof.
  intros Hb Hmid He Htmp Hfuel Hl Hr. unfold merge.
  set (I m i j ti := m_a m = a /\ Zlen (m_tmp m) = Zlen tmp /\
                     merge_inv a (m_tmp m) b mid e i j 0 ti).
  wstep. apply (wp_while (fun '(i, j, ti) m => I m i j ti) (fun '(i, j, _) _ =>
    Z.to_nat ((mid - i) + (e - j)))); [unfold I; simpl; split_and!; [done..|apply merge_start; lia]|lia|].
  intros [[i j] ti] [a1 t1] (Ha & Hlen & Hm). simpl in *. subst a1.
  pose proof Hm as (? & ? & ? & _). wsteps; try lia.
  { split; [|lia]. unfold I; simpl. split_and!; [done|by rewrite Zlen_aset|]. apply merge_left; try done; lia. }
  { split; [|lia]. unfold I; simpl. split_and!; [done|by rewrite Zlen_aset|]. apply merge_right; try done; lia. }
  apply (wp_while (fun '(i, ti) m => I m i j ti /\ (i < mid -> e <= j)) (fun '(i, _) _ =>
    Z.to_nat (mid - i))); [by split; [|lia]|lia|].
  intros [i' ti'] [a1 t2] [(Ha' & Hlen' & Hm') Hij]. simpl in *. subst a1.
  pose proof Hm' as (? & ? & ? & _). wsteps; try lia.
  { split; [|lia]. split; [|lia]. unfold I; simpl. split_and!; [done|by rewrite Zlen_aset|].
    apply merge_left; try done; lia. }
  apply (wp_while (fun '(j, ti) m => I m mid j ti) (fun '(j, _) _ => Z.to_nat (e - j)));
    [by replace mid with i' by lia|lia|].
  intros [j' ti''] [a1 t3] (Ha'' & Hlen'' & Hm''). simpl in *. subst a1.
  pose proof Hm'' as (? & ? & ? & _). wsteps; try lia.
  { split; [|lia]. unfold I; simpl. split_and!; [done|by rewrite Zlen_aset|]. apply merge_right; try done; lia. }
  apply (wp_while (fun '(i, ti) m => ti = i - b /\ b <= i <= e /\ m_tmp m = t3 /\
      same_out a (m_a m) b e /\
      forall k, b <= k < i -> aget (m_a m) k = aget t3 (k - b + 0))
    (fun '(i, _) _ => Z.to_nat (e - i))); [|lia|].
  { split_and!; try done; lia. }
  intros [i0 ti0] [a4 t4] (-> & Hi0 & Ht0 & Hout & Hk). simpl in *. subst t4.
  pose proof (proj1 Hout). wsteps; try lia.
  - split; [|lia]. split_and!; try done; try lia.
    + eapply same_out_trans; [done|apply same_out_aset; lia].
    + intros k Hk'. rewrite aget_aset by lia. destruct (Z.eqb_spec i0 k) as [->|].
      * f_equal. lia.
      * apply Hk. lia.
  - split; [|lia]. replace j' with e in Hm'' by lia.
    eapply (merge_copied a b mid e 0); [lia..|exact Hm''|lia|done|].
    intros k ?. apply Hk. lia.
Qed.

Lemma wp_msort depth : forall a tmp b e,
  0 <= b -> e <= Zlen a -> 2 * e <= INT_MAX -> e - b <= Zlen tmp ->
  (Z.to_nat (e - b) < fuel)%nat -> (Z.to_nat (e - b) < depth)%nat ->
  wp (msort fuel depth b e)
     (fun _ m => sorts a (m_a m) b e /\ Zlen (m_tmp m) = Zlen tmp) noexit (Mem a tmp).
Proof.
  induction depth as [|depth IH]; intros a tmp b e Hb He Hmax Htmp Hfuel Hdepth; [lia|].
  unfold msort; fold msort. unfold INT_MAX in Hmax. wsteps.
  3: { split; [|done]. split; [apply perm_in_refl|apply sorted_in_small; lia]. }
  { unfold INT_MIN, INT_MAX. lia. }
  set (mid := Z.quot (b + e) 2). assert (b < mid < e) by (unfold mid; zlia).
  eapply wp_conseq; [apply IH; unfold INT_MAX; lia|]. intros _ [a1 t1] [[HP1 Hs1] Ht1]. simpl in *.
  pose proof (perm_in_len _ _ _ _ HP1). wsteps.
  eapply wp_conseq; [apply IH; unfold INT_MAX; lia|]. intros _ [a2 t2] [[HP2 Hs2] Ht2]. simpl in *.
  pose proof (perm_in_len _ _ _ _ HP2).
  eapply wp_conseq; [apply wp_merge; try lia|].
  - eapply sorted_in_same; [exact Hs1|apply HP2|lia..].
  - done.
  - intros _ [a3 t3] [[HP3 Hs3] Ht3]. simpl in *. split; [|lia]. split; [|done].
    eapply perm_in_trans; [eapply perm_in_weaken; [exact HP1|lia..]|].
    eapply perm_in_trans; [eapply perm_in_weaken; [exact HP2|lia..]|done].
Qed.

Lemma wp_mergesort a block n : 0 <= n <= Zlen a -> 2 * n <= INT_MAX ->
  (Z.to_nat n < fuel)%nat -> (forall t, block = Some t -> Zlen t = n) ->
  wp (mergesort fuel block n)
     (fun ok a' => if ok : bool then sorts a a' 0 n else block = None /\ a' = a) noexit a.
Proof.
  intros Hn Hmax Hfuel Hblock. unfold wp, mergesort.
  destruct block as [t|]; [|done]. specialize (Hblock t eq_refl).
  pose proof (wp_msort fuel a t 0 n) as H. unfold wp in H.
  destruct (msort fuel fuel 0 n (Mem a t)); try (apply H; lia). 
Qed.

(** *** Heap sort *)

Lemma wp_sink a k n : 1 <= k <= n + 1 -> 0 <= n <= Zlen a -> 2 * n + 2 <= INT_MAX ->
  (Z.to_nat n + 1 < fuel)%nat -> heap_from a k n ->
  wp (sink fuel k n) (fun _ a' => perm_in a a' (k - 1) n /\ heap_from a' (k - 1) n) noexit a.
Proof.
  intros Hk Hn Hmax Hfuel Hheap. unfold sink, INT_MAX in *. wstep.
  apply (wp_while (fun p a1 => k <= p <= Z.max n k /\ perm_in a a1 (k - 1) n /\
                               heap_except a1 (k - 1) n (p - 1))
           (fun p _ => Z.to_nat (n + 1 - p))); [|lia|].
  { split; [lia|]. split; [apply perm_in_refl|]. apply heap_except_start; [lia|].
    by replace (k - 1 + 1) with k by lia. }
  intros p a1 (Hp & HP & Hex). pose proof (perm_in_len _ _ _ _ HP).
  apply wp_bind, wp_int32; [unfold INT_MIN, INT_MAX; lia|]. apply wp_ret.
  destruct (Z.leb_spec (2 * p) n).
  2: { wsteps. split; [done|]. eapply heap_except_done; [|done]. lia. }
  wstep.
  apply wp_conseq with (Q := fun c a2 => a2 = a1 /\ child (p - 1) (c - 1) /\ c <= n /\
    forall c', child (p - 1) c' -> c' < n -> aget a1 c' <= aget a1 (c - 1)).
  { wsteps; try (unfold INT_MIN, INT_MAX; lia).
    all: split; [done|]; unfold child; split; [lia|]; split; [lia|].
    all: intros c' [->| ->] ?; try lia.
    all: replace (2 * (p - 1) + 1) with (2 * p - 1) in * by lia.
    all: replace (2 * (p - 1) + 2) with (2 * p) in * by lia.
    all: replace (2 * p + 1 - 1) with (2 * p) by lia; lia. }
  intros c a2 (-> & Hc & Hcn & Hmaxc). assert (p < c) by (unfold child in *; lia).
  wsteps; try (unfold child in *; lia).
  - apply wp_swap; [unfold child in *; lia..|]. wstep. split; [|lia]. split; [lia|].
    split.
    + eapply perm_in_trans; [done|]. apply perm_in_aswap; unfold child in *; lia.
    + eapply (heap_sift a1); [|exact Hc|..]; try done; try lia; try by rewrite ?Zlen_aswap.
      * rewrite aget_aswap by lia. by rewrite (proj2 (Z.eqb_neq _ _)), Z.eqb_refl by lia.
      * intros m ? ? ?. rewrite aget_aswap by lia.
        by rewrite !(proj2 (Z.eqb_neq _ _)) by lia.
      * rewrite aget_aswap by lia. by rewrite Z.eqb_refl.
  - split; [|lia]. split; [lia|]. split; [done|].
    apply heap_from_except; [lia|]. eapply heap_except_ok; [done|].
    intros c' Hc' Hn'. specialize (Hmaxc c' Hc' Hn'). lia.
Qed.

Lemma wp_buildheap a n : 0 <= n <= Zlen a -> 2 * n + 2 <= INT_MAX ->
  (Z.to_nat n + 1 < fuel)%nat ->
  wp (buildheap fuel n) (fun _ a' => perm_in a a' 0 n /\ heap_from a' 0 n) noexit a.
Proof.
  intros Hn Hmax Hfuel. unfold buildheap. wstep. pose proof (quot2_bounds n).
  apply (wp_while (fun i a1 => 0 <= i <= Z.quot n 2 /\ perm_in a a1 0 n /\ heap_from a1 i n)
           (fun i _ => Z.to_nat i)); [|lia|].
  { split; [lia|]. split; [apply perm_in_refl|]. apply heap_none. lia. }
  intros i a1 (Hi & HP & Hh). pose proof (perm_in_len _ _ _ _ HP).
  wsteps; [|by replace i with 0 in Hh by lia].
  eapply wp_conseq; [apply wp_sink; try done; lia|]. intros _ a2 [HP2 Hh2]. wstep.
  split; [|lia]. split; [lia|]. split; [|done].
  eapply perm_in_trans; [done|]. eapply perm_in_weaken; [done|lia..].
Qed.

Lemma wp_heapsort a n : 0 <= n <= Zlen a -> 2 * n + 2 <= INT_MAX ->
  (Z.to_nat n + 1 < fuel)%nat ->
  wp (heapsort fuel n) (fun _ a' => sorts a a' 0 n) noexit a.
Proof.
  intros Hn Hmax Hfuel. unfold heapsort. wstep.
  eapply wp_conseq; [by apply wp_buildheap|]. intros _ a0 [HP0 Hh0].
  pose proof (perm_in_len _ _ _ _ HP0). wstep.
  apply (wp_while (fun i a1 => 0 <= i <= n /\ perm_in a a1 0 n /\ heap_from a1 0 i /\
                               suffix_ge a1 i n) (fun i _ => Z.to_nat i)); [|lia|].
  { split; [lia|]. split; [done|]. split; [done|]. apply suffix_ge_n. }
  intros i a1 (Hi & HP & Hh & Hsuf). pose proof (perm_in_len _ _ _ _ HP).
  wsteps.
  2: { split; [done|]. apply suffix_ge_done. by replace i with 0 in Hsuf by lia. }
  apply wp_swap; [lia..|].
  assert (HPs : perm_in a1 (aswap a1 0 (i - 1)) 0 i) by (apply perm_in_aswap; lia).
  wstep. eapply wp_conseq; [apply wp_sink; rewrite ?Zlen_aswap; try lia|].
  { intros k c ? ? ?. rewrite !aget_aswap by (unfold child in *; lia).
    rewrite !(proj2 (Z.eqb_neq _ _)) by (unfold child in *; lia). apply Hh; [lia|done|lia]. }
  replace (1 - 1) with 0 by lia. intros _ a2 [HP2 Hh2].
  pose proof (perm_in_len _ _ _ _ HP2) as Hl2. rewrite Zlen_aswap in Hl2.
  wsteps. split; [|lia]. split; [lia|].
  assert (HP12 : perm_in a1 a2 0 i)
    by (eapply perm_in_trans; [done|eapply perm_in_weaken; [done|lia..]]).
  split; [eapply perm_in_trans; [done|eapply perm_in_weaken; [done|lia..]]|].
  split; [done|]. eapply suffix_ge_step; [..|exact HP12|]; [lia|lia|done|].
  intros k Hk. assert (Hlast : aget a2 (i - 1) = aget a1 0).
  { rewrite (proj2 (proj2 HP2)), aget_aswap, Z.eqb_refl by lia. done. }
  rewrite Hlast.
  apply (perm_in_forall (fun v => v <= aget a1 0) a1 a2 0 i 0 i); try lia; [done|].
  intros. by apply (heap_root_max a1 i).
Qed.

(** *** Quick sort *)

Lemma wp_qpartition a b e : 0 <= b < e -> e <= Zlen a -> (Z.to_nat (e - b) < fuel)%nat ->
  wp (qpartition fuel (aget a b) b e)
     (fun i a' => part_inv a a' b e i i i (aget a b)) noexit a.
Proof.
  intros Hb He Hfuel. unfold qpartition. set (tmp := aget a b). wstep.
  apply (wp_while (fun '(i, j) a1 => part_inv a a1 b e i j i tmp)
           (fun '(i, j) _ => Z.to_nat (j - i))); [by apply part_start|lia|].
  intros [i j] a1 Hp. wsteps.
  2: { destruct Hp as (? & ? & Hp). by replace j with i in * by lia. }
  apply (wp_while (fun j' a2 => a2 = a1 /\ i <= j' <= j /\ part_inv a a1 b e i j' i tmp)
           (fun j' _ => Z.to_nat (j' - i))); [split_and!; try done; lia| |].
  { destruct Hp; lia. }
  intros j1 a2 (-> & Hj1 & Hp1). pose proof Hp1 as (? & ? & Hh & Hl & Hr).
  pose proof (hole_len _ _ _ _ _ _ Hh).
  assert (Hphase2 : forall i2 h a3, i <= i2 -> i2 <= j1 -> j1 - i2 < j - i ->
    h = j1 -> part_inv a a3 b e i2 j1 h tmp ->
    wp (while_ fuel
           (fun i => if i <? j1 then x <- rd arr i ;; ret (x <=? tmp) else ret false)
           (fun i => ret (i + 1)) i2)
      (fun r => wp (j' <- (if r <? j1 then x <- rd arr r ;; wr arr j1 x ;; ret (j1 - 1)
                           else ret j1) ;; ret (r, j'))
         (fun l' a' => part_inv a a' b e l'.1 l'.2 l'.1 tmp /\
            (Z.to_nat (l'.2 - l'.1) < Z.to_nat (j - i))%nat) noexit)
      noexit a3).
  { intros i2 h a3 ? ? ? -> Hp2.
    apply (wp_while (fun i' a4 => a4 = a3 /\ i2 <= i' <= j1 /\ part_inv a a3 b e i' j1 j1 tmp)
             (fun i' _ => Z.to_nat (j1 - i'))); [split_and!; try done; lia|lia|].
    intros i3 a4 (-> & Hi3 & Hp3). pose proof Hp3 as (? & ? & Hh3 & Hl3 & Hr3).
    pose proof (hole_len _ _ _ _ _ _ Hh3). wsteps; try lia.
    - split; [|lia]. split; [done|]. split; [lia|]. split; [lia|]. split; [lia|].
      split; [done|]. split; [|done]. intros k ?.
      destruct (Z.eq_dec k i3) as [->|]; [lia|apply Hl3; lia].
    - cbn [fst snd]. split; [|lia]. apply part_right; try done; lia.
    - cbn [fst snd]. replace i3 with j1 by lia. split; [|lia]. by replace i3 with j1 in Hp3 by lia. }
  wsteps; try lia.
  - split; [|lia]. split; [done|]. split; [lia|]. split; [lia|]. split; [lia|].
    split; [done|]. split; [done|]. intros k ?.
    destruct (Z.eq_dec k j1) as [->|]; [lia|apply Hr; lia].
  - eapply wp_conseq; [eapply (Hphase2 (i + 1) j1); [lia..|done|]; apply part_left; try done; lia|].
    intros r a4 H4. eapply wp_conseq; [exact H4|]. by intros [i0 j0] a5 H5.
  - eapply wp_conseq; [eapply (Hphase2 i i); [lia..| |exact Hp1]; lia|].
    intros r a4 H4. eapply wp_conseq; [exact H4|]. by intros [i0 j0] a5 H5.
Qed.

(** When the pivot is the strict maximum the partition ends at the last cell. *)
Lemma wp_qpartition_max a n : 2 <= n -> Zlen a = n -> (Z.to_nat n < fuel)%nat ->
  (forall k, 0 < k < n -> aget a k < aget a 0) ->
  wp (qpartition fuel (aget a 0) 0 n) (fun i a' => i = n - 1 /\ Zlen a' = n) noexit a.
Proof.
  intros Hn Hlen Hfuel Hmax. unfold qpartition. set (tmp := aget a 0) in *. wstep.
  apply (wp_while (fun '(i, j) a1 => Zlen a1 = n /\ j = n - 1 /\
                    (i = 0 /\ a1 = a \/ i = n - 1))
           (fun '(i, j) _ => Z.to_nat (j - i))); [split_and!; auto|lia|].
  intros [i j] a1 (Hl1 & -> & Hor). wsteps; [|split; lia].
  destruct Hor as [[-> ->]|]; [|lia].
  apply (wp_while (fun j a2 => a2 = a /\ j = n - 1) (fun _ _ => 0%nat)); [done|lia|].
  intros j a2 [-> ->]. pose proof (Hmax (n - 1)). wsteps; try lia.
  apply (wp_while (fun i a2 => 1 <= i <= n - 1 /\ Zlen a2 = n /\
                               forall k, 0 <= k < n - 1 -> aget a2 k <= tmp)
           (fun i _ => Z.to_nat (n - 1 - i))); [|lia|].
  { rewrite Zlen_aset. split; [lia|]. split; [done|]. intros k Hk.
    rewrite aget_aset by lia. destruct (Z.eqb_spec 0 k); [lia|]. pose proof (Hmax k). lia. }
  intros i a2 (Hi & Hl2 & Hle). pose proof (Hle i). wsteps; try lia.
  split; [|lia]. split; [lia|]. by split.
Qed.

Lemma quicksort_S depth b e : quicksort fuel (S depth) b e =
  (tmp <- rd arr b ;; i <- qpartition fuel tmp b e ;; wr arr i tmp ;;
   when b + 2 <? e do (quicksort fuel depth b i ;; quicksort fuel depth (i + 1) e)).
Proof. done. Qed.

Lemma wp_quicksort depth : forall a b e,
  0 <= b <= e -> e < Zlen a -> (Z.to_nat (e - b) < fuel)%nat -> (Z.to_nat (e - b) < depth)%nat ->
  wp (quicksort fuel depth b e) (fun _ a' => sorts a a' b e) noexit a.
Proof.
  induction depth as [|depth IH]; intros a b e Hb He Hfuel Hdepth; [lia|].
  rewrite quicksort_S. wsteps.
  destruct (Z.eq_dec b e) as [<-|Hne].
  { apply wp_of_run with (a := b) (s' := a).
    - unfold qpartition. destruct fuel; [lia|].
      unfold bind, while_, loop, bind, ret. simpl. by rewrite (proj2 (Z.ltb_ge _ _)) by lia.
    - wsteps; try lia. rewrite aset_id by lia.
      split; [apply perm_in_refl|apply sorted_in_small; lia]. }
  eapply wp_conseq; [apply wp_qpartition; lia|]. intros i a1 Hp.
  pose proof Hp as (? & ? & Hh & Hl & Hr). pose proof (hole_len _ _ _ _ _ _ Hh) as Hlen.
  wsteps.
  - eapply wp_conseq; [apply IH; rewrite ?Zlen_aset; lia|]. intros [] a2 H2.
    pose proof (perm_in_len _ _ _ _ (proj1 H2)) as Hlen2. rewrite Zlen_aset in Hlen2.
    eapply wp_conseq; [apply IH; lia|]. intros [] a3 H3.
    eapply part_sorted; [..|exact Hp|exact H2|exact H3]; lia.
  - eapply part_sorted; [..|exact Hp| |]; [lia..| |];
      (split; [apply perm_in_refl|apply sorted_in_small; lia]).
Qed.
End sorting_proofs.

Section test_main_proof.
Implicit Types (m : blocks).

(** Sorting a block of [n] cells, or the first [n] of a longer one. *)
Lemma sorts_seg l a a' n : Zlen l = n -> n <= Zlen a -> seg a 0 n = l -> sorts a a' 0 n ->
  sorts l (seg a' 0 n) 0 n.
Proof.
  intros Hl Hn <- [HP Hs]. pose proof (perm_in_len _ _ _ _ HP).
  pose proof (Zlen_nonneg (seg a 0 n)). split; [split; [|split]|].
  - apply perm_in_seg; [lia..|done].
  - rewrite !seg_length by lia. done.
  - intros k ? ?. rewrite !aget_ge; [done|rewrite seg_length by lia; lia..].
  - intros i j ? ? ?. rewrite !aget_seg by lia. rewrite !Z.add_0_l. by apply Hs.
Qed.

Lemma wp_memcpy dst n (Q : unit -> blocks -> Prop) X m : Zlen (barr m) = n ->
  n <= Zlen (view dst m) ->
  Q tt (over dst (barr m ++ drop (Z.to_nat n) (view dst m)) m) ->
  wp (memcpy_barr dst n) Q X m.
Proof.
  intros Hn Hd HQ. unfold memcpy_barr. wsteps. subst n. by rewrite seg_full.
Qed.

Lemma wp_test_main fuel n rand t m : 0 <= n -> 2 * n + 2 <= INT_MAX ->
  (Z.to_nat n + 1 < fuel)%nat -> Zlen t = n ->
  Forall (fun l => Zlen l = n) [barr m; sarr m; iarr m; sharr m; marr m; harr m] ->
  n < Zlen (qarr m) ->
  wp (test_main fuel n rand (Some t)) (fun c m' => c = 0 /\ exists r,
    Zlen r = n /\ (forall i, 0 <= i < n -> aget r i = Z.rem (rand i) 10000) /\
    sorts r (barr m') 0 n /\
    Forall (eq (barr m')) [sarr m'; iarr m'; sharr m'; marr m'; harr m'; seg (qarr m') 0 n])
    noexit m.
Proof.
  destruct m as [b s i sh mm h q]. intros Hn Hmax Hfuel Ht Hblocks Hq. simpl in *.
  do 6 (apply Forall_cons_1 in Hblocks as [? Hblocks]); clear Hblocks.
  unfold test_main. wstep.
  apply (wp_while (fun x m => 0 <= x <= n /\ exists b, Zlen b = n /\
                    m = Blocks b s i sh mm h q /\
                    forall k, 0 <= k < x -> aget b k = Z.rem (rand k) 10000)
           (fun x _ => Z.to_nat (n - x))); [|lia|].
  { split; [lia|]. exists b. split; [done|]. split; [done|]. lia. }
  intros x m1 (Hx & b1 & Hb1 & -> & Hfill). wsteps; [simpl; lia| |].
  { split; [|lia]. split; [lia|]. eexists. split; [|split; [done|]]; [by rewrite Zlen_aset|].
    simpl. intros k Hk. rewrite aget_aset by lia. destruct (Z.eqb_spec x k) as [->|]; [done|].
    apply Hfill. lia. }
  replace x with n in Hfill by lia.
  do 6 (try wstep; apply wp_memcpy; [done|simpl; lia|]; simpl).
  assert (Hdrop : forall l : list Z, Zlen l = n -> b1 ++ drop (Z.to_nat n) l = b1).
  { intros l Hl. rewrite skipn_all2, app_nil_r by (unfold Zlen in *; lia). done. }
  rewrite (Hdrop s), (Hdrop i), (Hdrop sh), (Hdrop mm), (Hdrop h) by done.
  do 6 (try wstep; apply wp_zoom; simpl; eapply wp_conseq; [first
    [apply wp_bubblesort; lia|apply wp_selectsort; lia|apply wp_insertsort; lia
    |apply wp_shellsort; lia|apply (wp_mergesort _ _ (Some t)); [lia..|congruence]
    |apply wp_heapsort; lia]|]; [intros ? ? ?]; simpl).
  destruct a3; [|naive_solver].
  assert (Hseg : seg (b1 ++ drop (Z.to_nat n) q) 0 n = b1).
  { unfold seg. rewrite drop_0, Z.sub_0_r. apply take_app_length'. unfold Zlen in *. lia. }
  assert (HlenQ : Zlen (b1 ++ drop (Z.to_nat n) q) = Zlen q).
  { rewrite Zlen_app. unfold Zlen in *. rewrite length_drop. lia. }
  wstep. apply wp_zoom. eapply wp_conseq; [apply wp_quicksort; simpl; lia|].
  intros ? a6 H11. wstep. simpl in *. split; [done|].
  apply sorts_seg with (l := b1) in H11; [|lia..|done].
  exists b1. split; [done|]. split; [done|]. split; [done|].
  rewrite <-Hb1 in *. repeat constructor; by eapply sorts_unique.
Qed.
End test_main_proof.

(** ** The theorems *)

(** C38: bubble, selection, insertion and shell sort each return, and leave the
    first [n] cells a sorted permutation of what they were, the other cells
    untouched, for every array and every [n] up to its length. *)
Theorem elementary_sorts_correct fuel n a : 0 <= n <= Zlen a -> (Z.to_nat n < fuel)%nat ->
  forall sort, sort ∈ [bubblesort fuel; selectsort fuel; insertsort fuel; shellsort fuel] ->
  exists a', sort n a = Ret tt a' /\ sorts a a' 0 n.
Proof.
  intros Hn Hfuel sort Hsort.
  assert (wp (sort n) (fun _ a' => sorts a a' 0 n) noexit a) as ([] & a' & ? & ?)%wp_run; [|eauto].
  rewrite !elem_of_cons, elem_of_nil in Hsort. destruct Hsort as [->|[->|[->|[->|[]]]]].
  - by apply wp_bubblesort.
  - by apply wp_selectsort.
  - by apply wp_insertsort.
  - by apply wp_shellsort.
Qed.

Lemma elementary_sorts_correct_witness :
  exists a', shellsort 9 5 [4; 1; 3; 1; 0; 7] = Ret tt a' /\ sorts [4; 1; 3; 1; 0; 7] a' 0 5.
Proof.
  apply (elementary_sorts_correct 9 5 [4; 1; 3; 1; 0; 7]).
  - vm_compute. split; discriminate.
  - apply Nat.ltb_lt. reflexivity.
  - apply elem_of_cons. right. apply elem_of_cons. right. apply elem_of_cons. right.
    apply elem_of_cons. left. reflexivity.
Defined.

(** Merge sort with a buffer of [n] cells, whatever they hold, sorts the
    first [n] cells; when [malloc] fails it reports that and changes nothing. *)
Theorem mergesort_correct fuel block n a : 0 <= n <= Zlen a -> 2 * n <= INT_MAX ->
  (Z.to_nat n < fuel)%nat -> (forall t, block = Some t -> Zlen t = n) ->
  exists ok a', mergesort fuel block n a = Ret ok a' /\
    ((ok = true /\ sorts a a' 0 n) \/ (ok = false /\ block = None /\ a' = a)).
Proof.
  intros. destruct (wp_run _ _ _ (wp_mergesort fuel a block n ltac:(done) ltac:(done)
    ltac:(done) ltac:(done))) as (ok & a' & ? & ?). exists ok, a'. destruct ok; naive_solver.
Qed.

Lemma mergesort_correct_witness :
  exists ok a', mergesort 9 (Some [0; 0; 0; 0]) 4 [4; 1; 3; 1] = Ret ok a' /\
    ((ok = true /\ sorts [4; 1; 3; 1] a' 0 4) \/
     (ok = false /\ Some [0; 0; 0; 0] = None /\ a' = [4; 1; 3; 1])).
Proof.
  apply (mergesort_correct 9 (Some [0; 0; 0; 0]) 4 [4; 1; 3; 1]).
  - vm_compute. split; discriminate.
  - vm_compute. discriminate.
  - apply Nat.ltb_lt. reflexivity.
  - intros t [= <-]. reflexivity.
Defined.

(** Heap sort, with its 1-based [sink], sorts the first [n] cells in place;
    no index computation overflows as long as [2 * n + 2] is an [int]. *)
Theorem heapsort_correct fuel n a : 0 <= n <= Zlen a -> 2 * n + 2 <= INT_MAX ->
  (Z.to_nat n + 1 < fuel)%nat ->
  exists a', heapsort fuel n a = Ret tt a' /\ sorts a a' 0 n.
Proof.
  intros. destruct (wp_run _ _ _ (wp_heapsort fuel a n ltac:(done) ltac:(done) ltac:(done)))
    as ([] & a' & ? & ?). eauto.
Qed.

Lemma heapsort_correct_witness :
  exists a', heapsort 9 5 [4; 1; 3; 1; 9; 2] = Ret tt a' /\ sorts [4; 1; 3; 1; 9; 2] a' 0 5.
Proof.
  apply (heapsort_correct 9 5 [4; 1; 3; 1; 9; 2]).
  - vm_compute. split; discriminate.
  - vm_compute. discriminate.
  - apply Nat.ltb_lt. reflexivity.
Defined.

(** Quick sort sorts the first [n] cells provided that the cell behind
    them can be read and written; that cell keeps its value. *)
Theorem my_qsort_correct fuel n a : 0 <= n < Zlen a -> (Z.to_nat n < fuel)%nat ->
  exists a', my_qsort fuel n a = Ret tt a' /\ sorts a a' 0 n.
Proof.
  intros. destruct (wp_run _ _ _ (wp_quicksort fuel fuel a 0 n ltac:(lia) ltac:(lia)
    ltac:(lia) ltac:(lia))) as ([] & a' & ? & ?). eauto.
Qed.

Lemma my_qsort_correct_witness :
  exists a', my_qsort 9 5 [4; 1; 3; 1; 9; 2] = Ret tt a' /\ sorts [4; 1; 3; 1; 9; 2] a' 0 5.
Proof.
  apply (my_qsort_correct 9 5 [4; 1; 3; 1; 9; 2]).
  - vm_compute. split; [discriminate|reflexivity].
  - apply Nat.ltb_lt. reflexivity.
Defined.

(** Without that cell the code overruns the array: whenever the first of
    [n >= 3] elements is the strict maximum and the block holds exactly [n]
    cells, the run is undefined behaviour. *)
Theorem my_qsort_overrun fuel a n : 3 <= n -> Zlen a = n -> (Z.to_nat n < fuel)%nat ->
  (forall k, 0 < k < n -> aget a k < aget a 0) -> my_qsort fuel n a = UB.
Proof.
  intros Hn Hlen Hfuel Hmax. unfold my_qsort.
  assert (exists d, fuel = S (S d)) as [d Hd] by (exists (fuel - 2)%nat; lia).
  rewrite Hd at 2. rewrite quicksort_S. unfold bind at 1. unfold rd at 1. simpl view.
  unfold in_bounds. rewrite (proj2 (andb_true_iff _ _)) by lia.
  destruct (wp_run _ _ _ (wp_qpartition_max fuel a n ltac:(lia) Hlen Hfuel Hmax))
    as (i & a1 & E & -> & Hlen1).
  unfold bind at 1. rewrite E. unfold bind at 1, wr, in_bounds. simpl view. rewrite Hlen1.
  rewrite (proj2 (andb_true_iff _ _)) by lia. rewrite (proj2 (Z.ltb_lt _ _)) by lia.
  pose proof (wp_quicksort fuel (S d) (aset a1 (n - 1) (aget a 0)) 0 (n - 1)) as Hq.
  rewrite Zlen_aset in Hq. destruct (wp_run _ _ _ (Hq ltac:(lia) ltac:(lia) ltac:(lia) ltac:(lia)))
    as ([] & a2 & E2 & [HP2 _]). apply perm_in_len in HP2. rewrite Zlen_aset in HP2.
  unfold bind at 1. cbn [over id_lens]. rewrite E2.
  replace (n - 1 + 1) with n by lia. rewrite quicksort_S. unfold bind at 1, rd at 1, in_bounds. simpl view.
  by rewrite (proj2 (andb_false_iff _ _)) by lia.
Qed.

Lemma my_qsort_overrun_witness : my_qsort 9 3 [3; 1; 2] = UB.
Proof.
  apply (my_qsort_overrun 9 [3; 1; 2] 3).
  - vm_compute. discriminate.
  - reflexivity.
  - apply Nat.ltb_lt. reflexivity.
  - intros k Hk. assert (k = 1 \/ k = 2) as [-> | ->] by lia; reflexivity.
Defined.

(** The program that times the sorts computes the same array with all of
    them: [main] returns 0 and its seven blocks hold the same first [n] cells, a
    sorted permutation of the random numbers (reduced modulo 10000). The block
    of the quick sort has to be longer than the [n] cells [main] asks for. *)
Theorem test_main_agree fuel n rand t m : 0 <= n -> 2 * n + 2 <= INT_MAX ->
  (Z.to_nat n + 1 < fuel)%nat -> Zlen t = n ->
  Forall (fun l => Zlen l = n) [barr m; sarr m; iarr m; sharr m; marr m; harr m] ->
  n < Zlen (qarr m) ->
  exists m' r, test_main fuel n rand (Some t) m = Ret 0 m' /\
    Zlen r = n /\ (forall i, 0 <= i < n -> aget r i = Z.rem (rand i) 10000) /\
    sorts r (barr m') 0 n /\
    Forall (eq (barr m')) [sarr m'; iarr m'; sharr m'; marr m'; harr m'; seg (qarr m') 0 n].
Proof.
  intros Hn Hmax Hfuel Ht Hblocks Hq.
  destruct (wp_run _ _ _ (wp_test_main fuel n rand t m Hn Hmax Hfuel Ht Hblocks Hq))
    as (? & m' & E & -> & r & H). exists m', r. by split.
Qed.

Lemma test_main_agree_witness :
  let z := [0; 0; 0] in let m := Blocks z z z z z z [0; 0; 0; 5] in
  exists m' r, test_main 9 3 (fun i => 10002 - i) (Some z) m = Ret 0 m' /\
    Zlen r = 3 /\ (forall i, 0 <= i < 3 -> aget r i = Z.rem (10002 - i) 10000) /\
    sorts r (barr m') 0 3 /\
    Forall (eq (barr m')) [sarr m'; iarr m'; sharr m'; marr m'; harr m'; seg (qarr m') 0 3].
Proof.
  intros z m. apply (test_main_agree 9 3 (fun i => 10002 - i) z m).
  - vm_compute. discriminate.
  - vm_compute. discriminate.
  - apply Nat.ltb_lt. reflexivity.
  - reflexivity.
  - repeat constructor.
  - reflexivity.
Defined.
