(* ===== verification/DsSorting.v ===== *)
(** DsSorting: the five sorting programs of data_structure_and_algorithm/sort,
    one Module per file, with the texts that their [main]s print. *)
From stdpp Require Import list strings pretty.
From S2P Require Import Prelude Arrays SortLemmas ClrsSorting.

(** The state of one of these programs: its array and its standard output. *)
Record prog := Prog { pa : list Z; out : string }.
Definition lpa : lens prog (list Z) := Lens pa (fun x s => Prog x (out s)).
Definition printf (t : string) : M prog unit := modify (fun s => Prog (pa s) (out s +:+ t)).

Section print_array.
Variable fuel : nat.
Definition print_array (n : Z) : M prog unit :=
  while_ fuel (fun i => ret (i <? n)) (fun i =>
    x <- rd lpa i ;; printf (pretty x +:+ " ") ;; ret (i + 1)) 0 ;;
  printf nl.
End print_array.

Module Heapsort.
Definition leftchild {S} (i : Z) : M S Z := int32 (2 * i + 1).

Definition swap (a b : Z) : M (list Z) unit :=
  tmp <- rd arr a ;; x <- rd arr b ;; wr arr a x ;; wr arr b tmp.

Definition percdown (fuel : nat) (i n : Z) : M (list Z) unit :=
  tmp <- rd arr i ;;
  i <- loop fuel (fun i =>
    l <- leftchild i ;;
    if l <? n then
      child <- leftchild i ;;
      child <- (if negb (child =? n - 1) then
                  y <- rd arr (child + 1) ;; x <- rd arr child ;;
                  ret (if x <? y then child + 1 else child)
                else ret child) ;;
      x <- rd arr child ;;
      if tmp <? x then x <- rd arr child ;; wr arr i x ;; ret (inl child)
      else ret (inr i)
    else ret (inr i)) i ;;
  wr arr i tmp.

Definition heapsort (fuel : nat) (n : Z) : M (list Z) unit :=
  while_ fuel (fun i => ret (0 <=? i)) (fun i => percdown fuel i n ;; ret (i - 1))
    (Z.quot n 2) ;;
  while_ fuel (fun i => ret (0 <? i)) (fun i =>
    swap 0 i ;; percdown fuel 0 i ;; ret (i - 1)) (n - 1) ;;
  ret tt.

Definition heapsort_main (fuel : nat) : outcome prog Z :=
  (n <- gets (fun s => Zlen (pa s)) ;;
   printf ("Before heapsort:" +:+ nl) ;; print_array fuel n ;;
   zoom lpa (heapsort fuel n) ;;
   printf ("After heapsort:" +:+ nl) ;; print_array fuel n ;;
   ret 0) (Prog [1; 9; 2; 10; 3; 11; 4; 12; 6; 13; 6; 14; 7; 15; 8; 16] "").
End Heapsort.

Module InsertionSort.
Definition insertion_sort (fuel : nat) (n : Z) : M (list Z) unit :=
  while_ fuel (fun i => ret (i <? n)) (fun i =>
    tmp <- rd arr i ;;
    j <- while_ fuel
           (fun j => if 0 <? j then x <- rd arr (j - 1) ;; ret (tmp <? x) else ret false)
           (fun j => x <- rd arr (j - 1) ;; wr arr j x ;; ret (j - 1)) i ;;
    wr arr j tmp ;;
    ret (i + 1)) 1 ;;
  ret tt.

Definition insertion_main (fuel : nat) : outcome prog Z :=
  (printf "Before insertion_sort: " ;; print_array fuel 6 ;;
   zoom lpa (insertion_sort fuel 6) ;;
   printf "After insertion_sort: " ;; print_array fuel 6 ;;
   ret 0) (Prog [34; 8; 64; 51; 32; 21] "").
End InsertionSort.

Module Mergesort.
Section mergesort.
Variable fuel : nat.

Definition merge (lpos rpos rightend : Z) : M mem unit :=
  let i := lpos in
  let leftend := rpos in
  let! (lpos, rpos, tmppos) := while_ fuel
    (fun '(lpos, rpos, _) => ret ((lpos <? leftend) && (rpos <? rightend)))
    (fun '(lpos, rpos, tmppos) =>
       x <- rd la lpos ;; y <- rd la rpos ;;
       if x <=? y then x <- rd la lpos ;; wr ltmp tmppos x ;; ret (lpos + 1, rpos, tmppos + 1)
       else y <- rd la rpos ;; wr ltmp tmppos y ;; ret (lpos, rpos + 1, tmppos + 1))
    (lpos, rpos, lpos) in
  let! (lpos, tmppos) := while_ fuel (fun '(lpos, _) => ret (lpos <? leftend))
    (fun '(lpos, tmppos) =>
       x <- rd la lpos ;; wr ltmp tmppos x ;; ret (lpos + 1, tmppos + 1)) (lpos, tmppos) in
  while_ fuel (fun '(rpos, _) => ret (rpos <? rightend))
    (fun '(rpos, tmppos) =>
       y <- rd la rpos ;; wr ltmp tmppos y ;; ret (rpos + 1, tmppos + 1)) (rpos, tmppos) ;;
  while_ fuel (fun i => ret (i <? rightend))
    (fun i => x <- rd ltmp i ;; wr la i x ;; ret (i + 1)) i ;;
  ret tt.

Fixpoint msort (depth : nat) (left right : Z) : M mem unit :=
  match depth with
  | O => fun _ => Diverge
  | S depth =>
      if left + 1 <? right then
        sum <- int32 (left + right) ;;
        let center := Z.quot sum 2 in
        msort depth left center ;; msort depth center right ;; merge left center right
      else ret tt
  end.

(** [tmparray] is what [malloc] returned, see [ClrsSorting.mergesort]. *)
Definition mergesort (tmparray : option (list Z)) (n : Z) : M prog unit := fun s =>
  match tmparray with
  | Some t => match msort fuel 0 n (Mem (pa s) t) with
              | Ret _ m => Ret tt (Prog (m_a m) (out s))
              | Exit c m => Exit c (Prog (m_a m) (out s))
              | UB => UB
              | Diverge => Diverge
              end
  | None => printf ("no space for tmp array!!!" +:+ nl) s
  end.

Definition mergesort_main (tmparray : option (list Z)) : outcome prog unit :=
  (n <- gets (fun s => Zlen (pa s)) ;;
   printf ("Before sort:" +:+ nl) ;; print_array fuel n ;;
   mergesort tmparray n ;;
   printf ("After sort:" +:+ nl) ;; print_array fuel n)
    (Prog [24; 13; 26; 1; 2; 27; 38; 15; 100; 5; 50] "").
End mergesort.
End Mergesort.

Module Quicksort.
Definition cutoff : Z := 3.

Definition swap (a b : Z) : M (list Z) unit :=
  tmp <- rd arr a ;; x <- rd arr b ;; wr arr a x ;; wr arr b tmp.

Definition median3 (left right : Z) : M (list Z) Z :=
  sum <- int32 (left + right) ;;
  let center := Z.quot sum 2 in
  x <- rd arr left ;; y <- rd arr center ;;
  (when y <? x do swap left center) ;;
  x <- rd arr left ;; y <- rd arr right ;;
  (when y <? x do swap left right) ;;
  x <- rd arr center ;; y <- rd arr right ;;
  (when y <? x do swap center right) ;;
  swap center (right - 1) ;;
  rd arr (right - 1).

Section qsort.
Variable fuel : nat.
(** [insertionsort(a + off, n)]: called, but defined nowhere in the repository. *)
Variable insertionsort : Z -> Z -> M (list Z) unit.

Definition partition (pivot left right : Z) : M (list Z) Z :=
  let! (i, j) := loop fuel (fun '(i, j) =>
    i <- while_ fuel (fun i => x <- rd arr i ;; ret (x <? pivot)) (fun i => ret (i + 1)) (i + 1) ;;
    j <- while_ fuel (fun j => x <- rd arr j ;; ret (pivot <? x)) (fun j => ret (j - 1)) (j - 1) ;;
    if i <? j then swap i j ;; ret (inl (i, j)) else ret (inr (i, j))) (left, right - 1) in
  ret i.

Fixpoint qsort (depth : nat) (left right : Z) : M (list Z) unit :=
  match depth with
  | O => fun _ => Diverge
  | S depth =>
      if left + cutoff <=? right then
        pivot <- median3 left right ;;
        i <- partition pivot left right ;;
        swap i (right - 1) ;;
        qsort depth left (i - 1) ;; qsort depth (i + 1) right
      else insertionsort left (right - left + 1)
  end.

Definition quicksort (n : Z) : M (list Z) unit := qsort fuel 0 (n - 1).
End qsort.
End Quicksort.

Module Shellsort.
Section shellsort.
Variable fuel : nat.

Definition shell_pass (increment n : Z) : M (list Z) Z :=
  while_ fuel (fun i => ret (i <? n)) (fun i =>
    tmp <- rd arr i ;;
    j <- loop fuel (fun j =>
      if increment <=? j then
        x <- rd arr (j - increment) ;;
        if tmp <? x then
          x <- rd arr (j - increment) ;; wr arr j x ;; ret (inl (j - increment))
        else ret (inr j)
      else ret (inr j)) i ;;
    wr arr j tmp ;;
    ret (i + 1)) increment.

Definition shellsort (n : Z) : M prog unit :=
  while_ fuel (fun increment => ret (0 <? increment)) (fun increment =>
    zoom lpa (shell_pass increment n) ;;
    print_array fuel n ;;
    ret (Z.quot increment 2)) (Z.quot n 2) ;;
  ret tt.

Definition shellsort_main : outcome prog Z :=
  (printf ("Before shellsort: " +:+ nl) ;; print_array fuel 13 ;;
   shellsort 13 ;;
   printf ("After shellsort: " +:+ nl) ;; print_array fuel 13 ;;
   ret 0) (Prog [81; 94; 11; 96; 12; 35; 17; 95; 28; 58; 41; 75; 15] "").
End shellsort.
End Shellsort.

(** ** Proofs *)

(** The exchange through a temporary, as heapsort.c and quicksort.c write it. *)
Lemma wp_swap_tmp i j (Q : unit -> list Z -> Prop) X a :
  0 <= i < Zlen a -> 0 <= j < Zlen a -> Q tt (aswap a i j) -> wp (Heapsort.swap i j) Q X a.
Proof. intros. unfold Heapsort.swap. wsteps; rewrite ?Zlen_aset; lia || done. Qed.

Section percdown.
Variable fuel : nat.
Implicit Types a : list Z.

Lemma aset_swap_hole a i c tmp : 0 <= i < Zlen a -> 0 <= c < Zlen a -> i <> c ->
  aset (aset a i (aget a c)) c tmp = aswap (aset a i tmp) i c.
Proof.
  intros Hi Hc Hne. unfold aswap. rewrite aset_aset. by rewrite aget_aset_ne, aget_aset_eq by lia.
Qed.

(** [a] with the sifted element [tmp] put back at [i] is a heap but for [i]. *)
Lemma wp_percdown a i n : 0 <= i < n -> n <= Zlen a -> 2 * n <= INT_MAX ->
  (Z.to_nat n < fuel)%nat -> heap_from a (i + 1) n ->
  wp (Heapsort.percdown fuel i n) (fun _ a' => perm_in a a' i n /\ heap_from a' i n) noexit a.
Proof.
  intros Hi Hn Hmax Hfuel Hh. unfold Heapsort.percdown, Heapsort.leftchild, INT_MAX in *. wsteps.
  set (tmp := aget a i).
  apply (wp_loop (fun p a1 => hole a a1 i n p tmp /\ heap_except (aset a1 p tmp) i n p)
           (fun p _ => Z.to_nat (n - p))); [|lia|].
  { split; [apply hole_start; lia|]. unfold tmp. rewrite aset_id by lia.
    apply heap_except_start; [lia|done]. }
  intros p a1 [Hhole Hex]. pose proof (hole_len _ _ _ _ _ _ Hhole). destruct Hhole as [Hp HP].
  apply wp_bind, wp_int32; [unfold INT_MIN, INT_MAX; lia|]. cbn beta.
  destruct (Z.ltb_spec (2 * p + 1) n).
  2: { wsteps. split; [done|]. eapply heap_except_done; [|done]. lia. }
  wstep. apply wp_conseq with (Q := fun c a2 => a2 = a1 /\ c = 2 * p + 1).
  { wsteps; [unfold INT_MIN, INT_MAX; lia|]. done. }
  intros ? ? [-> ->]. wstep.
  apply wp_conseq with (Q := fun c a2 => a2 = a1 /\ child p c /\ c < n /\
    forall c', child p c' -> c' < n -> aget a1 c' <= aget a1 c).
  { wsteps; try lia; try (destruct (Z.ltb_spec (aget a1 (2 * p + 1)) (aget a1 (2 * p + 1 + 1))));
      (split; [done|]); unfold child; (split; [lia|]); (split; [lia|]);
      intros c' [->| ->] ?; replace (2 * p + 1 + 1) with (2 * p + 2) in * by lia; lia. }
  intros c a2 (-> & Hc & Hcn & Hmaxc). assert (p < c) by (unfold child in *; lia).
  assert (Hget : forall k, 0 <= k -> k <> p -> aget (aset a1 p tmp) k = aget a1 k)
    by (intros; apply aget_aset_ne; lia).
  wsteps; try lia.
  - split; [|lia]. split; [by apply hole_shift; [lia..|]|].
    rewrite aset_swap_hole by lia.
    eapply (heap_sift (aset a1 p tmp)); [|exact Hc|..]; try done; try lia;
      rewrite ?Zlen_aswap, ?Zlen_aset; try lia.
    + intros c' Hc' ?. rewrite !Hget by (unfold child in *; lia). by apply Hmaxc.
    + rewrite aget_aswap by (rewrite ?Zlen_aset; lia).
      by rewrite (proj2 (Z.eqb_neq _ _)), Z.eqb_refl by lia.
    + rewrite (Hget c), aget_aset_eq by lia. lia.
    + intros m ? ? ?. rewrite aget_aswap by (rewrite ?Zlen_aset; lia).
      by rewrite !(proj2 (Z.eqb_neq _ _)) by lia.
    + rewrite aget_aswap by (rewrite ?Zlen_aset; lia). by rewrite Z.eqb_refl.
  - split; [done|]. eapply heap_except_ok; [done|]. intros c' Hc' ?.
    rewrite Hget by (unfold child in *; lia). rewrite aget_aset_eq by lia.
    specialize (Hmaxc c' Hc'). lia.
Qed.

Lemma wp_ds_heapsort a n : 1 <= n <= Zlen a -> 2 * n <= INT_MAX ->
  (Z.to_nat n + 1 < fuel)%nat ->
  wp (Heapsort.heapsort fuel n) (fun _ a' => sorts a a' 0 n) noexit a.
Proof.
  intros Hn Hmax Hfuel. unfold Heapsort.heapsort. wstep. pose proof (quot2_bounds n).
  apply (wp_while (fun i a1 => -1 <= i <= Z.quot n 2 /\ perm_in a a1 0 n /\ heap_from a1 (i + 1) n)
           (fun i _ => Z.to_nat (i + 1))); [|lia|].
  { split; [lia|]. split; [apply perm_in_refl|]. apply heap_none. lia. }
  intros i a1 (Hi & HP & Hh). pose proof (perm_in_len _ _ _ _ HP). wsteps.
  { eapply wp_conseq; [apply wp_percdown; try done; try lia|].
    intros ? a2 [HP2 Hh2]. wstep. split; [|lia]. split; [lia|].
    split; [eapply perm_in_trans; [done|eapply perm_in_weaken; [done|lia..]]|].
    by replace (i - 1 + 1) with i by lia. }
  replace (i + 1) with 0 in Hh by lia.
  apply (wp_while (fun i a1 => 0 <= i <= n - 1 /\ perm_in a a1 0 n /\ heap_from a1 0 (i + 1) /\
                               suffix_ge a1 (i + 1) n) (fun i _ => Z.to_nat i)); [|lia|].
  { split; [lia|]. split; [done|]. replace (n - 1 + 1) with n by lia.
    split; [done|]. apply suffix_ge_n. }
  clear dependent a1. clear dependent i. intros i a1 (Hi & HP & Hh & Hsuf).
  pose proof (perm_in_len _ _ _ _ HP). wsteps.
  2: { split; [done|]. replace (i + 1) with 1 in * by lia.
       eapply suffix_ge_done. apply (suffix_ge_step a1 a1 1 n); [lia..|done|apply perm_in_refl|].
       intros k ?. by replace k with (1 - 1) by lia. }
  apply wp_swap_tmp; [lia..|].
  assert (HPs : perm_in a1 (aswap a1 0 i) 0 (i + 1)) by (apply perm_in_aswap; lia).
  wstep. eapply wp_conseq; [apply wp_percdown; rewrite ?Zlen_aswap; try lia|].
  { intros k c ? ? ?. rewrite !aget_aswap by (unfold child in *; lia).
    rewrite !(proj2 (Z.eqb_neq _ _)) by (unfold child in *; lia).
    apply Hh; [lia|done|lia]. }
  intros ? a2 [HP2 Hh2]. wsteps. split; [|lia]. split; [lia|].
  assert (HP12 : perm_in a1 a2 0 (i + 1))
    by (eapply perm_in_trans; [done|eapply perm_in_weaken; [done|lia..]]).
  split; [eapply perm_in_trans; [done|eapply perm_in_weaken; [done|lia..]]|].
  replace (i - 1 + 1) with i by lia. split; [done|].
  replace i with (i + 1 - 1) at 1 by lia.
  eapply suffix_ge_step; [..|exact HP12|]; [lia|lia|done|].
  intros k Hk. replace (i + 1 - 1) with i by lia.
  assert (Hlast : aget a2 i = aget a1 0).
  { rewrite (proj2 (proj2 HP2)), aget_aswap, Z.eqb_refl by lia. done. }
  rewrite Hlast.
  apply (perm_in_forall (fun v => v <= aget a1 0) a1 a2 0 (i + 1) 0 (i + 1)); try lia; [done|].
  intros. by apply (heap_root_max a1 (i + 1)).
Qed.
End percdown.

Section ds_insertion.
Variable fuel : nat.

Lemma wp_insertion_sort a n : 0 <= n <= Zlen a -> (Z.to_nat n < fuel)%nat ->
  wp (InsertionSort.insertion_sort fuel n) (fun _ a' => sorts a a' 0 n) noexit a.
Proof. apply wp_insertsort. Qed.

(** The pass with [break] runs like the pass of clrs/sorting.c. *)
Lemma wp_ds_shell_pass a n inc : 1 <= inc -> 0 <= n <= Zlen a -> (Z.to_nat n < fuel)%nat ->
  wp (Shellsort.shell_pass fuel inc n)
     (fun _ a' => perm_in a a' 0 n /\ (inc = 1 -> sorted_in a' 0 n)) noexit a.
Proof.
  intros Hinc Hn Hfuel. eapply wp_eq; [|by apply wp_shell_pass].
  apply loop_ext. intros i s. apply bind_ext; [done|]. intros [] s1; [|done].
  apply bind_ext; [|done]. apply bind_ext; [done|]. intros tmp s2.
  apply bind_ext; [|done]. apply loop_ext. intros j s4.
  unfold bind, ret. destruct (inc <=? j); [|done].
  destruct (rd arr (j - inc) s4) as [x s5| | |] eqn:E; try done.
  destruct (tmp <? x); [|done].
  destruct (rd arr (j - inc) s5) as [x' s6| | |]; [|done..]. by destruct (wr arr j x' s6).
Qed.

(** [print_array] only reads the array. *)
Lemma wp_print_array n s (Q : unit -> prog -> Prop) : 0 <= n <= Zlen (pa s) ->
  (Z.to_nat n < fuel)%nat -> (forall t, Q tt (Prog (pa s) t)) ->
  wp (print_array fuel n) Q noexit s.
Proof.
  intros Hn Hfuel HQ. unfold print_array, printf. wstep.
  apply (wp_while (fun i s1 => 0 <= i <= n /\ pa s1 = pa s) (fun i _ => Z.to_nat (n - i)));
    [split; [lia|done]|lia|].
  intros i s1 [Hi Hs]. wsteps; simpl; rewrite ?Hs; try lia.
  - split; [split; [lia|done]|lia].
  - apply HQ.
Qed.

Lemma wp_ds_shellsort n s : 0 <= n <= Zlen (pa s) -> (Z.to_nat n < fuel)%nat ->
  wp (Shellsort.shellsort fuel n) (fun _ s' => sorts (pa s) (pa s') 0 n) noexit s.
Proof.
  intros Hn Hfuel. unfold Shellsort.shellsort. wstep. pose proof (quot2_bounds n).
  apply (wp_while (fun inc s1 => 0 <= inc <= n /\ perm_in (pa s) (pa s1) 0 n /\
                                 (inc = 0 -> sorted_in (pa s1) 0 n))
           (fun inc _ => Z.to_nat inc)); [|lia|].
  { split; [lia|]. split; [apply perm_in_refl|]. intros. apply sorted_in_small. zlia. }
  intros inc s1 (Hinc & HP & Hs). pose proof (perm_in_len _ _ _ _ HP).
  wsteps; [|split; [done|apply Hs; lia]].
  apply wp_zoom. eapply wp_conseq; [apply wp_ds_shell_pass; simpl; lia|].
  intros ? a2 [HP2 Hs2]. pose proof (perm_in_len _ _ _ _ HP2). simpl in *.
  wstep. apply wp_print_array; simpl; [lia..|]. intros t. wsteps. simpl.
  pose proof (quot2_bounds inc). split; [|lia]. split; [lia|].
  split; [by eapply perm_in_trans|]. intros. apply Hs2. zlia.
Qed.
End ds_insertion.

Section ds_mergesort.
Variable fuel : nat.

(** The buffer is indexed like the array: run and buffer start at [b]. *)
Lemma wp_ds_merge a tmp b mid e : 0 <= b <= mid -> mid <= e -> e <= Zlen a ->
  e <= Zlen tmp -> (Z.to_nat (e - b) < fuel)%nat ->
  sorted_in a b mid -> sorted_in a mid e ->
  wp (Mergesort.merge fuel b mid e)
     (fun _ m => sorts a (m_a m) b e /\ Zlen (m_tmp m) = Zlen tmp) noexit (Mem a tmp).
Proof.
  intros Hb Hmid He Htmp Hfuel Hl Hr. unfold Mergesort.merge. cbv zeta.
  set (I m i j ti := m_a m = a /\ Zlen (m_tmp m) = Zlen tmp /\
                     merge_inv a (m_tmp m) b mid e i j b ti).
  wstep. apply (wp_while (fun '(i, j, ti) m => I m i j ti) (fun '(i, j, _) _ =>
    Z.to_nat ((mid - i) + (e - j)))); [unfold I; simpl; split_and!; [done..|apply merge_start; lia]|lia|].
  intros [[i j] ti] [a1 t1] (Ha & Hlen & Hm). simpl in *. subst a1.
  pose proof Hm as (? & ? & ? & _). wsteps; try lia.
  { split; [|lia]. unfold I; simpl. split_and!; [done|by rewrite Zlen_aset|]. apply merge_left; try done; lia. }
  { split; [|lia]. unfold I; simpl. split_and!; [done|by rewrite Zlen_aset|]. apply merge_right; try done; lia. }
  apply (wp_while (fun '(i, ti) m => I m i j ti /\ (i < mid -> e <= j)) (fun '(i, _) _ =>
    Z.to_nat (mid - i))); [by split; [|lia]|lia|].
  intros [i' ti'] [a1 t2] [(Ha' & Hlen' & Hm') Hij]. simpl in *. subst a1.
  pose proof Hm' as (? & ? & ? & _). wsteps; try lia.
  { split; [|lia]. split; [|lia]. unfold I; simpl. split_and!; [done|by rewrite Zlen_aset|].
    apply merge_left; try done; lia. }
  apply (wp_while (fun '(j, ti) m => I m mid j ti) (fun '(j, _) _ => Z.to_nat (e - j)));
    [by replace mid with i' by lia|lia|].
  intros [j' ti''] [a1 t3] (Ha'' & Hlen'' & Hm''). simpl in *. subst a1.
  pose proof Hm'' as (? & ? & ? & _). wsteps; try lia.
  { split; [|lia]. unfold I; simpl. split_and!; [done|by rewrite Zlen_aset|]. apply merge_right; try done; lia. }
  apply (wp_while (fun i m => b <= i <= e /\ m_tmp m = t3 /\ same_out a (m_a m) b e /\
      forall k, b <= k < i -> aget (m_a m) k = aget t3 (k - b + b))
    (fun i _ => Z.to_nat (e - i))); [|lia|].
  { split_and!; try done; lia. }
  intros i0 [a4 t4] (Hi0 & Ht0 & Hout & Hk). simpl in *. subst t4.
  pose proof (proj1 Hout). wsteps; try lia.
  - split; [|lia]. split_and!; try done; try lia.
    + eapply same_out_trans; [done|apply same_out_aset; lia].
    + intros k Hk'. rewrite aget_aset by lia. destruct (Z.eqb_spec i0 k) as [->|].
      * f_equal. lia.
      * apply Hk. lia.
  - split; [|lia]. replace j' with e in Hm'' by lia.
    eapply (merge_copied a b mid e b); [lia..|exact Hm''|lia|done|].
    intros k ?. apply Hk. lia.
Qed.

Lemma wp_ds_msort depth : forall a tmp b e,
  0 <= b -> e <= Zlen a -> 2 * e <= INT_MAX -> e <= Zlen tmp ->
  (Z.to_nat (e - b) < fuel)%nat -> (Z.to_nat (e - b) < depth)%nat ->
  wp (Mergesort.msort fuel depth b e)
     (fun _ m => sorts a (m_a m) b e /\ Zlen (m_tmp m) = Zlen tmp) noexit (Mem a tmp).
Proof.
  induction depth as [|depth IH]; intros a tmp b e Hb He Hmax Htmp Hfuel Hdepth; [lia|].
  unfold Mergesort.msort; fold Mergesort.msort. unfold INT_MAX in Hmax. wsteps.
  3: { split; [|done]. split; [apply perm_in_refl|apply sorted_in_small; lia]. }
  { unfold INT_MIN, INT_MAX. lia. }
  set (mid := Z.quot (b + e) 2). assert (b < mid < e) by (unfold mid; zlia).
  eapply wp_conseq; [apply IH; unfold INT_MAX; lia|]. intros _ [a1 t1] [[HP1 Hs1] Ht1]. simpl in *.
  pose proof (perm_in_len _ _ _ _ HP1). wsteps.
  eapply wp_conseq; [apply IH; unfold INT_MAX; lia|]. intros _ [a2 t2] [[HP2 Hs2] Ht2]. simpl in *.
  pose proof (perm_in_len _ _ _ _ HP2).
  eapply wp_conseq; [apply wp_ds_merge; try lia|].
  - eapply sorted_in_same; [exact Hs1|apply HP2|lia..].
  - done.
  - intros _ [a3 t3] [[HP3 Hs3] Ht3]. simpl in *. split; [|lia]. split; [|done].
    eapply perm_in_trans; [eapply perm_in_weaken; [exact HP1|lia..]|].
    eapply perm_in_trans; [eapply perm_in_weaken; [exact HP2|lia..]|done].
Qed.
End ds_mergesort.

Section ds_quicksort.
Variable fuel : nat.
Variable insertionsort : Z -> Z -> M (list Z) unit.
(** What the name promises: [insertionsort(a + off, n)] sorts [n] cells. *)
Hypothesis insertionsort_sorts : forall a off n, 0 <= off -> 0 <= n -> off + n <= Zlen a ->
  (Z.to_nat n < fuel)%nat ->
  wp (insertionsort off n) (fun _ a' => sorts a a' off (off + n)) noexit a.
Implicit Types a : list Z.

Lemma wp_median3 a left right : 0 <= left -> left + 3 <= right -> right < Zlen a ->
  2 * right <= INT_MAX ->
  wp (Quicksort.median3 left right) (fun p a' => perm_in a a' left (right + 1) /\
    p = aget a' (right - 1) /\ aget a' left <= p <= aget a' right) noexit a.
Proof.
  intros Hl Hlr Hr Hmax. unfold Quicksort.median3, INT_MAX in *. wstep.
  apply wp_int32; [unfold INT_MIN, INT_MAX; lia|]. cbv zeta.
  set (c := Z.quot (left + right) 2). assert (left < c < right - 1) by (unfold c; zlia).
  wstep. apply wp_rd; [simpl; lia|]. wstep. apply wp_rd; [simpl; lia|]. wstep.
  apply wp_conseq with (Q := fun _ a1 => perm_in a a1 left (right + 1) /\ aget a1 left <= aget a1 c).
  { wstep; [apply wp_swap_tmp; [lia..|]|apply wp_ret; simpl in *; split; [apply perm_in_refl|lia]].
    simpl in *. split; [apply perm_in_aswap; lia|]. rewrite !aget_aswap by lia.
    rewrite !Z.eqb_refl, !(proj2 (Z.eqb_neq _ _)) by lia. lia. }
  intros [] a1 [HP1 Hm1]. pose proof (perm_in_len _ _ _ _ HP1).
  wstep. apply wp_rd; [simpl; lia|]. wstep. apply wp_rd; [simpl; lia|]. wstep.
  apply wp_conseq with (Q := fun _ a2 => perm_in a a2 left (right + 1) /\
    aget a2 left <= aget a2 c /\ aget a2 left <= aget a2 right).
  { wstep; [apply wp_swap_tmp; [lia..|]|apply wp_ret; simpl in *; split_and!; [done|lia..]].
    simpl in *. split; [eapply perm_in_trans; [done|apply perm_in_aswap; lia]|].
    rewrite !aget_aswap by lia.
    rewrite !Z.eqb_refl, !(proj2 (Z.eqb_neq _ _)) by lia. lia. }
  intros [] a2 (HP2 & Hm2 & Hm3). pose proof (perm_in_len _ _ _ _ HP2).
  wstep. apply wp_rd; [simpl; lia|]. wstep. apply wp_rd; [simpl; lia|]. wstep.
  apply wp_conseq with (Q := fun _ a3 => perm_in a a3 left (right + 1) /\
    aget a3 left <= aget a3 c <= aget a3 right).
  { wstep; [apply wp_swap_tmp; [lia..|]|apply wp_ret; simpl in *; split_and!; [done|lia..]].
    simpl in *. split; [eapply perm_in_trans; [done|apply perm_in_aswap; lia]|].
    rewrite !aget_aswap by lia.
    rewrite !Z.eqb_refl, !(proj2 (Z.eqb_neq _ _)) by lia. lia. }
  intros [] a3 (HP3 & Hm4). pose proof (perm_in_len _ _ _ _ HP3).
  wstep. apply wp_swap_tmp; [lia..|]. apply wp_rd; simpl; rewrite ?Zlen_aswap; [lia|].
  split; [eapply perm_in_trans; [done|apply perm_in_aswap; lia]|]. split; [done|].
  rewrite !aget_aswap by lia. rewrite !Z.eqb_refl, !(proj2 (Z.eqb_neq _ _)) by lia. lia.
Qed.

(** Left of [i] at most the pivot, right of it at least; the pivot is still at
    [right - 1] and goes to [i] next. *)
Lemma wp_partition a left right pivot : 0 <= left -> left + 3 <= right -> right < Zlen a ->
  (Z.to_nat (right - left + 1) < fuel)%nat ->
  pivot = aget a (right - 1) -> aget a left <= pivot <= aget a right ->
  wp (Quicksort.partition fuel pivot left right) (fun i a' =>
    perm_in a a' left (right + 1) /\ left < i < right /\ aget a' (right - 1) = pivot /\
    pivot <= aget a' i /\
    (forall k, left <= k < i -> aget a' k <= pivot) /\
    (forall k, i <= k < right + 1 -> pivot <= aget a' k)) noexit a.
Proof.
  intros Hl Hlr Hr Hfuel Hpiv Hends. unfold Quicksort.partition. wstep.
  apply (wp_loop (fun '(i, j) a1 => perm_in a a1 left (right + 1) /\
      left <= i < j /\ j < right /\ aget a1 (right - 1) = pivot /\
      (forall k, left <= k <= i -> aget a1 k <= pivot) /\
      (forall k, j <= k < right + 1 -> pivot <= aget a1 k)) (fun '(i, j) _ => Z.to_nat (j - i)));
    [|lia|].
  { split_and!; [apply perm_in_refl|lia|lia|lia|done|..].
    - intros k ?. replace k with left by lia. lia.
    - intros k ?. destruct (Z.eq_dec k right) as [->|]; [lia|].
      replace k with (right - 1) by lia. lia. }
  intros [i j] a1 (HP & Hij & Hj & Hp & Hle & Hge). pose proof (perm_in_len _ _ _ _ HP).
  wstep. apply (wp_while (fun i1 a2 => a2 = a1 /\ i < i1 <= j /\
                          forall k, left <= k < i1 -> aget a1 k <= pivot)
                  (fun i1 _ => Z.to_nat (j - i1))); [|lia|].
  { split; [done|]. split; [lia|]. intros k ?. apply Hle. lia. }
  intros i1 a2 (-> & Hi1 & Hle1). pose proof (Hge j). wsteps; try lia.
  { assert (i1 <> j) by (intros ->; lia). split; [|lia]. split; [done|].
    split; [lia|]. intros k ?.
    destruct (Z.eq_dec k i1) as [->|]; [lia|apply Hle1; lia]. }
  apply (wp_while (fun j1 a2 => a2 = a1 /\ i <= j1 < j /\
                          forall k, j1 < k < right + 1 -> pivot <= aget a1 k)
                  (fun j1 _ => Z.to_nat (j1 - i))); [|lia|].
  { split; [done|]. split; [lia|]. intros k ?. apply Hge. lia. }
  intros j1 a2 (-> & Hj1 & Hge1). pose proof (Hle i). wsteps; try lia.
  { assert (j1 <> i) by (intros ->; lia). split; [|lia]. split; [done|].
    split; [lia|]. intros k ?.
    destruct (Z.eq_dec k j1) as [->|]; [lia|apply Hge1; lia]. }
  - apply wp_swap_tmp; [lia..|]. wstep. split; [|lia].
    split_and!; [eapply perm_in_trans; [done|apply perm_in_aswap; lia]|lia..| | |].
    + rewrite aget_aswap by lia. by rewrite !(proj2 (Z.eqb_neq _ _)) by lia.
    + intros k ?. rewrite aget_aswap by lia.
      destruct (Z.eqb_spec j1 k), (Z.eqb_spec i1 k); try lia. apply Hle1. lia.
    + intros k ?. rewrite aget_aswap by lia.
      destruct (Z.eqb_spec j1 k), (Z.eqb_spec i1 k); try lia. apply Hge1. lia.
  - simpl in *. split_and!; [done|lia|lia|done|lia|done|].
    intros k ?. destruct (Z.eq_dec k i1) as [->|]; [lia|apply Hge1; lia].
Qed.

Lemma wp_qsort depth : forall a left right,
  0 <= left -> left <= right + 1 -> right < Zlen a -> 2 * right <= INT_MAX ->
  (Z.to_nat (right - left + 1) < fuel)%nat -> (Z.to_nat (right - left + 1) < depth)%nat ->
  wp (Quicksort.qsort fuel insertionsort depth left right)
     (fun _ a' => sorts a a' left (right + 1)) noexit a.
Proof.
  induction depth as [|depth IH]; intros a left right Hl Hlr Hr Hmax Hfuel Hdepth; [lia|].
  cbn [Quicksort.qsort]. unfold Quicksort.cutoff. wstep.
  2: { replace (right + 1) with (left + (right - left + 1)) by lia.
       apply insertionsort_sorts; lia. }
  wstep. eapply wp_conseq; [apply wp_median3; lia|]. intros p a1 (HP1 & Hp & Hends).
  pose proof (perm_in_len _ _ _ _ HP1).
  wstep. eapply wp_conseq; [apply wp_partition; try done; lia|].
  intros i a2 (HP2 & Hi & Hpiv & Hpi & Hle & Hge). pose proof (perm_in_len _ _ _ _ HP2).
  wstep. apply wp_swap_tmp; [lia..|].
  set (a3 := aswap a2 i (right - 1)).
  assert (HP3 : perm_in a2 a3 left (right + 1)) by (apply perm_in_aswap; lia).
  assert (Hlen3 : Zlen a3 = Zlen a2) by apply Zlen_aswap.
  assert (Ha3 : aget a3 i = p).
  { unfold a3. rewrite aget_aswap by lia. destruct (Z.eqb_spec (right - 1) i) as [<-|]; [done|].
    by rewrite Z.eqb_refl. }
  assert (Hpart : part_inv a a3 left (right + 1) i i i (aget a3 i)).
  { split; [lia|]. split; [lia|]. split; [split; [lia|]|].
    - rewrite aset_id by lia. eapply perm_in_trans; [done|]. by eapply perm_in_trans.
    - rewrite Ha3. split; intros k ?; unfold a3; rewrite aget_aswap by lia.
      + rewrite !(proj2 (Z.eqb_neq _ _)) by lia. apply Hle. lia.
      + destruct (Z.eqb_spec (right - 1) k); [done|].
        rewrite (proj2 (Z.eqb_neq _ _)) by lia. apply Hge. lia. }
  wstep. eapply wp_conseq; [apply IH; lia|]. intros [] a4 H4.
  pose proof (perm_in_len _ _ _ _ (proj1 H4)) as Hlen4.
  eapply wp_conseq; [apply IH; lia|]. intros [] a5 H5.
  replace (i - 1 + 1) with i in H4 by lia.
  eapply part_sorted; [..|exact Hpart| |exact H5]; try lia. by rewrite aset_id by lia.
Qed.
End ds_quicksort.

(** ** A pointer into an array *)

(** [a + off] as an array of its own. *)
Definition ptr (off : Z) : lens (list Z) (list Z) :=
  Lens (drop (Z.to_nat off)) (fun x l => take (Z.to_nat off) l ++ x).

Lemma aget_drop (a : list Z) off k : 0 <= off -> 0 <= k ->
  aget (drop (Z.to_nat off) a) k = aget a (off + k).
Proof.
  intros. unfold aget. rewrite !list_lookup_total_alt, lookup_drop.
  do 2 f_equal. lia.
Qed.

Lemma sorts_ptr a x off n : 0 <= off -> 0 <= n -> off + n <= Zlen a ->
  sorts (drop (Z.to_nat off) a) x 0 n -> sorts a (over (ptr off) x a) off (off + n).
Proof.
  intros Hoff Hn Hlen [[HP [Hl HS]] Hs].
  set (a' := over (ptr off) x a).
  assert (Hdrop : drop (Z.to_nat off) a' = x).
  { unfold a', ptr; simpl. apply drop_app_length'. rewrite length_take. unfold Zlen in *. lia. }
  assert (Hpre : forall k, 0 <= k < off -> aget a' k = aget a k).
  { intros k ?. unfold a', ptr, aget; simpl. rewrite !list_lookup_total_alt.
    rewrite lookup_app_l by (rewrite length_take; unfold Zlen in *; lia).
    by rewrite lookup_take_lt by lia. }
  assert (Hget : forall k, off <= k -> aget a' k = aget x (k - off)).
  { intros k ?. rewrite <-Hdrop, aget_drop by lia. f_equal. lia. }
  assert (Hget0 : forall k, off <= k -> aget a k = aget (drop (Z.to_nat off) a) (k - off)).
  { intros k ?. rewrite aget_drop by lia. f_equal. lia. }
  split; [split; [|split]|].
  - rewrite <-(take_drop (Z.to_nat off) a) at 1. unfold a', ptr; simpl. by apply Permutation_app_head.
  - unfold a', ptr, Zlen in *; simpl. rewrite length_app, length_take.
    rewrite length_drop in Hl. lia.
  - intros k Hk [?|?]; [apply Hpre; lia|]. rewrite Hget, Hget0 by lia. apply HS; lia.
  - intros i j ? ? ?. rewrite !Hget by lia. apply Hs; lia.
Qed.

(** [insertion_sort] of insertion_sort.c, called on [a + off]. *)
Definition insertion_at (fuel : nat) (off n : Z) : M (list Z) unit :=
  zoom (ptr off) (InsertionSort.insertion_sort fuel n).

Lemma wp_insertion_at fuel a off n : 0 <= off -> 0 <= n -> off + n <= Zlen a ->
  (Z.to_nat n < fuel)%nat ->
  wp (insertion_at fuel off n) (fun _ a' => sorts a a' off (off + n)) noexit a.
Proof.
  intros. apply wp_zoom. eapply wp_conseq; [apply wp_insertion_sort; [|done]|].
  - unfold Zlen in *. simpl. rewrite length_drop. lia.
  - intros ? x Hx. by apply sorts_ptr.
Qed.

(** ** The theorems *)

(** Heap sort by holes ([percdown]) sorts the first [n >= 1] cells. *)
Theorem ds_heapsort_correct fuel n a : 1 <= n <= Zlen a -> 2 * n <= INT_MAX ->
  (Z.to_nat n + 1 < fuel)%nat ->
  exists a', Heapsort.heapsort fuel n a = Ret tt a' /\ sorts a a' 0 n.
Proof.
  intros. destruct (wp_run _ _ _ (wp_ds_heapsort fuel a n ltac:(done) ltac:(done) ltac:(done)))
    as ([] & a' & ? & ?). eauto.
Qed.

Lemma ds_heapsort_correct_witness :
  exists a', Heapsort.heapsort 9 5 [4; 1; 3; 1; 9; 2] = Ret tt a' /\ sorts [4; 1; 3; 1; 9; 2] a' 0 5.
Proof.
  apply (ds_heapsort_correct 9 5 [4; 1; 3; 1; 9; 2]).
  - vm_compute. split; discriminate.
  - vm_compute. discriminate.
  - apply Nat.ltb_lt. reflexivity.
Defined.

(** The empty array is not handled: [heapsort] still sifts node 0, and reads
    a cell that a block of no cells does not have. *)
Theorem ds_heapsort_empty fuel : Heapsort.heapsort (S fuel) 0 [] = UB.
Proof. reflexivity. Qed.

(** The stable merge sort of mergesort.c, whose buffer is indexed like the
    array, sorts the first [n] cells when it gets its buffer, and otherwise
    prints a message and changes nothing. *)
Theorem ds_mergesort_correct fuel block n s : 0 <= n <= Zlen (pa s) -> 2 * n <= INT_MAX ->
  (Z.to_nat n < fuel)%nat -> (forall t, block = Some t -> Zlen t = n) ->
  exists s', Mergesort.mergesort fuel block n s = Ret tt s' /\
    ((block <> None /\ out s' = out s /\ sorts (pa s) (pa s') 0 n) \/
     (block = None /\ pa s' = pa s /\ out s' = out s +:+ ("no space for tmp array!!!" +:+ nl))).
Proof.
  intros Hn Hmax Hfuel Hblock. unfold Mergesort.mergesort. destruct block as [t|].
  2: { eexists. split; [reflexivity|]. by right. }
  specialize (Hblock t eq_refl).
  destruct (wp_run _ _ _ (wp_ds_msort fuel fuel (pa s) t 0 n ltac:(lia) ltac:(lia) ltac:(lia)
    ltac:(lia) ltac:(lia) ltac:(lia))) as ([] & m & -> & Hs & _).
  eexists. split; [reflexivity|]. left. simpl. split; [done|]. by split.
Qed.

Lemma ds_mergesort_correct_witness : let s := Prog [4; 1; 3; 1] "" in
  exists s', Mergesort.mergesort 9 (Some [0; 0; 0; 0]) 4 s = Ret tt s' /\
    ((Some [0; 0; 0; 0] <> None /\ out s' = out s /\ sorts (pa s) (pa s') 0 4) \/
     (Some [0; 0; 0; 0] = None /\ pa s' = pa s /\
      out s' = out s +:+ ("no space for tmp array!!!" +:+ nl))).
Proof.
  intros s. apply (ds_mergesort_correct 9 (Some [0; 0; 0; 0]) 4 s).
  - vm_compute. split; discriminate.
  - vm_compute. discriminate.
  - apply Nat.ltb_lt. reflexivity.
  - intros t [= <-]. reflexivity.
Defined.

(** median-of-three quick sort, down to the cutoff, sorts the first [n] cells
    with no sentinel and no access outside them, provided the [insertionsort] it
    calls sorts the segment it is given. *)
Theorem ds_quicksort_correct fuel insertionsort n a :
  (forall a off n, 0 <= off -> 0 <= n -> off + n <= Zlen a -> (Z.to_nat n < fuel)%nat ->
     wp (insertionsort off n) (fun _ a' => sorts a a' off (off + n)) noexit a) ->
  0 <= n <= Zlen a -> 2 * n <= INT_MAX -> (Z.to_nat n < fuel)%nat ->
  exists a', Quicksort.quicksort fuel insertionsort n a = Ret tt a' /\ sorts a a' 0 n.
Proof.
  intros Hins ? ? ?. unfold Quicksort.quicksort.
  destruct (wp_run _ _ _ (wp_qsort fuel insertionsort Hins fuel a 0 (n - 1) ltac:(lia) ltac:(lia)
    ltac:(lia) ltac:(lia) ltac:(lia) ltac:(lia))) as ([] & a' & ? & ?).
  exists a'. by replace (n - 1 + 1) with n in * by lia.
Qed.

Lemma ds_quicksort_correct_witness :
  let a := [10; 5; 78; 111; 34; 55; 100; 300; 201; 2; 70] in
  exists a', Quicksort.quicksort 20 (insertion_at 20) 11 a = Ret tt a' /\ sorts a a' 0 11.
Proof.
  intros a. apply (ds_quicksort_correct 20 (insertion_at 20) 11 a).
  - intros. apply wp_insertion_at; assumption.
  - vm_compute. split; discriminate.
  - vm_compute. discriminate.
  - apply Nat.ltb_lt. reflexivity.
Defined.

(** Insertion_sort.c and shellsort.c sort; the latter prints the array
    after every pass and nothing it prints disturbs the array. *)
Theorem ds_insertion_shell_correct fuel n s : 0 <= n <= Zlen (pa s) -> (Z.to_nat n < fuel)%nat ->
  (exists a', InsertionSort.insertion_sort fuel n (pa s) = Ret tt a' /\ sorts (pa s) a' 0 n) /\
  (exists s', Shellsort.shellsort fuel n s = Ret tt s' /\ sorts (pa s) (pa s') 0 n).
Proof.
  intros Hn Hf. split.
  - destruct (wp_run _ _ _ (wp_insertion_sort fuel (pa s) n Hn Hf)) as ([] & a' & ? & ?). eauto.
  - destruct (wp_run _ _ _ (wp_ds_shellsort fuel n s Hn Hf)) as ([] & s' & ? & ?). eauto.
Qed.

Lemma ds_insertion_shell_correct_witness : let s := Prog [4; 1; 3; 1] "" in
  (exists a', InsertionSort.insertion_sort 9 4 (pa s) = Ret tt a' /\ sorts (pa s) a' 0 4) /\
  (exists s', Shellsort.shellsort 9 4 s = Ret tt s' /\ sorts (pa s) (pa s') 0 4).
Proof.
  intros s. apply (ds_insertion_shell_correct 9 4 s).
  - vm_compute. split; discriminate.
  - apply Nat.ltb_lt. reflexivity.
Defined.

(** What the four programs print, run by the kernel. *)
Example heapsort_main_out : exists s, Heapsort.heapsort_main 20 = Ret 0 s /\ out s =
  "Before heapsort:" +:+ nl +:+ "1 9 2 10 3 11 4 12 6 13 6 14 7 15 8 16 " +:+ nl +:+
  "After heapsort:" +:+ nl +:+ "1 2 3 4 6 6 7 8 9 10 11 12 13 14 15 16 " +:+ nl.
Proof. eexists. split; vm_compute; reflexivity. Qed.

Example insertion_main_out : exists s, InsertionSort.insertion_main 9 = Ret 0 s /\ out s =
  "Before insertion_sort: 34 8 64 51 32 21 " +:+ nl +:+
  "After insertion_sort: 8 21 32 34 51 64 " +:+ nl.
Proof. eexists. split; vm_compute; reflexivity. Qed.

Example mergesort_main_out : exists s,
  Mergesort.mergesort_main 20 (Some (replicate 11 0)) = Ret tt s /\ out s =
  "Before sort:" +:+ nl +:+ "24 13 26 1 2 27 38 15 100 5 50 " +:+ nl +:+
  "After sort:" +:+ nl +:+ "1 2 5 13 15 24 26 27 38 50 100 " +:+ nl.
Proof. eexists. split; vm_compute; reflexivity. Qed.
