(* ===== verification/Bytes.v ===== *)
(** Bytes: byte strings as C programs see them. Bytes are integers in [0, 256); a
    C string is the bytes before its terminating 0. Decimal printing and
    parsing with their round trip, slices and overwriting of byte files, and
    the layout of a file as a sequence of variable-length records. *)
From stdpp Require Import sets list strings.
From S2P Require Import Prelude Arrays.

Abbreviation bytes := (list Z).

(** The bytes of a literal. *)
Fixpoint B (s : string) : bytes :=
  match s with
  | EmptyString => []
  | String c s => Z.of_N (Ascii.N_of_ascii c) :: B s
  end.

Definition NUL : Z := 0.
Definition SPACE : Z := 32.
Definition NEWLINE : Z := 10.

(** What a [char *] to a buffer with this contents denotes. *)
Fixpoint cstr (b : bytes) : bytes :=
  match b with
  | [] => []
  | c :: b => if c =? NUL then [] else c :: cstr b
  end.

Definition no_nul (b : bytes) : Prop := NUL ∉ b.

(** [strchr]: the text before the first [c], and the text after it. *)
Fixpoint split_at (c : Z) (b : bytes) : option (bytes * bytes) :=
  match b with
  | [] => None
  | x :: b => if x =? c then Some ([], b)
              else match split_at c b with
                   | Some (l, r) => Some (x :: l, r)
                   | None => None
                   end
  end.

(** ** Decimal numbers *)

Definition isdigit (c : Z) : bool := (48 <=? c) && (c <=? 57).
Definition isspace (c : Z) : bool := (c =? 32) || ((9 <=? c) && (c <=? 13)).

Fixpoint digits (fuel : nat) (n : Z) : bytes :=
  match fuel with
  | O => []
  | S fuel => if n <? 10 then [48 + n] else digits fuel (n / 10) ++ [48 + n mod 10]
  end.

(** [sprintf] of "%ld", and of "%*ld" with a width. *)
Definition dec (n : Z) : bytes :=
  if n <? 0 then 45 :: digits (S (Z.to_nat (- n))) (- n) else digits (S (Z.to_nat (Z.log2_up (n + 1)))) n.
Definition fmt (w : nat) (n : Z) : bytes :=
  replicate (w - length (dec n)) SPACE ++ dec n.

Fixpoint digits_val (acc : Z) (b : bytes) : Z :=
  match b with
  | c :: b => if isdigit c then digits_val (acc * 10 + (c - 48)) b else acc
  | [] => acc
  end.

Fixpoint skip_spaces (b : bytes) : bytes :=
  match b with
  | c :: b' => if isspace c then skip_spaces b' else b
  | [] => []
  end.

(** [atol], [atoi]: the value before any overflow. *)
Definition atol (b : bytes) : Z :=
  match skip_spaces b with
  | 45 :: b => - digits_val 0 b
  | 43 :: b => digits_val 0 b
  | b => digits_val 0 b
  end.

(** What [strncpy] of [n] bytes stores. *)
Definition strncpy (s : bytes) (n : nat) : bytes := take n s ++ replicate (n - length s) NUL.

(** ** Files *)

Definition slice (b : bytes) (off n : Z) : bytes := seg b off (off + n).

(** Overwrite at [off]; a hole between the end and [off] reads as zeros. *)
Definition file_write (b : bytes) (off : Z) (data : bytes) : bytes :=
  take (Z.to_nat off) (b ++ replicate (Z.to_nat off - length b) NUL)
    ++ data ++ drop (Z.to_nat off + length data) b.

(** ** Lemmas *)

Lemma cstr_no_nul b : no_nul (cstr b).
Proof.
  unfold no_nul. induction b as [|c b IH]; simpl; [set_solver|].
  destruct (Z.eqb_spec c NUL); set_solver.
Qed.

Lemma cstr_app b c : no_nul b -> cstr (b ++ NUL :: c) = b.
Proof.
  unfold no_nul. induction b as [|x b IH]; simpl; intros Hb; [done|].
  destruct (Z.eqb_spec x NUL) as [->|]; [set_solver|]. f_equal. set_solver.
Qed.

Lemma cstr_id b : no_nul b -> cstr b = b.
Proof.
  unfold no_nul. induction b as [|x b IH]; simpl; intros Hb; [done|].
  destruct (Z.eqb_spec x NUL) as [->|]; [set_solver|]. f_equal. set_solver.
Qed.

Lemma split_at_app c a b : c ∉ a -> split_at c (a ++ c :: b) = Some (a, b).
Proof.
  induction a as [|x a IH]; simpl; intros Ha; [by rewrite Z.eqb_refl|].
  destruct (Z.eqb_spec x c) as [->|]; [set_solver|]. rewrite IH; [done|set_solver].
Qed.

Lemma split_at_none c a : c ∉ a -> split_at c a = None.
Proof.
  induction a as [|x a IH]; simpl; intros Ha; [done|].
  destruct (Z.eqb_spec x c) as [->|]; [set_solver|]. rewrite IH; [done|set_solver].
Qed.

Section decimal.
Implicit Types n : Z.

Lemma digits_enough f g n : 0 <= n < 10 ^ Z.of_nat f -> 0 <= n < 10 ^ Z.of_nat g ->
  (0 < f)%nat -> (0 < g)%nat -> digits f n = digits g n.
Proof.
  revert g n. induction f as [|f IH]; intros g n Hf Hg Hf0 Hg0; [lia|].
  destruct g as [|g]; [lia|]. simpl. destruct (Z.ltb_spec n 10); [done|].
  rewrite Nat2Z.inj_succ, Z.pow_succ_r in Hf, Hg by lia.
  destruct f as [|f]; [simpl in Hf; lia|]. destruct g as [|g]; [simpl in Hg; lia|].
  rewrite (IH (S g)); [done|zlia..|lia|lia].
Qed.

Lemma pow2_pow10 (k : Z) : 0 <= k -> 2 ^ k <= 10 ^ k.
Proof. intros. apply Z.pow_le_mono_l. lia. Qed.

Lemma dec_digits k n : 0 <= n < 10 ^ Z.of_nat k -> (0 < k)%nat -> dec n = digits k n.
Proof.
  intros Hn Hk. unfold dec. destruct (Z.ltb_spec n 0); [lia|].
  apply digits_enough; [|done|lia|done]. split; [lia|].
  rewrite Nat2Z.inj_succ, Z2Nat.id by apply Z.log2_up_nonneg.
  pose proof (Z.log2_up_nonneg (n + 1)). pose proof (pow2_pow10 (Z.log2_up (n + 1))).
  destruct (Z.eq_dec n 0) as [->|]; [simpl; lia|].
  pose proof (Z.log2_up_spec (n + 1)). rewrite Z.pow_succ_r by lia. lia.
Qed.

Lemma dec_small n : 0 <= n < 10 -> dec n = [48 + n].
Proof. intros. rewrite (dec_digits 1) by lia. simpl. destruct (Z.ltb_spec n 10); [done|lia]. Qed.

Lemma dec_snoc n : 10 <= n -> dec n = dec (n / 10) ++ [48 + n mod 10].
Proof.
  intros Hn. set (k := S (Z.to_nat n)).
  assert (n < 10 ^ Z.of_nat k).
  { unfold k. pose proof (Z.pow_gt_lin_r 10 n). rewrite Nat2Z.inj_succ, Z2Nat.id, Z.pow_succ_r; lia. }
  rewrite (dec_digits (S k)), (dec_digits k).
  - simpl digits at 1. destruct (Z.ltb_spec n 10); [lia|done].
  - zlia.
  - lia.
  - rewrite Nat2Z.inj_succ, Z.pow_succ_r by lia. lia.
  - lia.
Qed.

(** Induction on the decimal length. *)
Lemma dec_ind (P : Z -> Prop) : (forall n, 0 <= n < 10 -> P n) ->
  (forall n, 10 <= n -> P (n / 10) -> P n) -> forall n, 0 <= n -> P n.
Proof.
  intros H1 H2. apply Zlt_0_ind. intros x IH Hx. destruct (Z.lt_ge_cases x 10); [apply H1; lia|].
  apply H2; [lia|]. apply IH; zlia.
Qed.

Lemma dec_isdigit n : 0 <= n -> Forall (fun c => isdigit c = true) (dec n).
Proof.
  revert n. apply dec_ind; intros n Hn.
  - rewrite dec_small by lia. constructor; [unfold isdigit; lia|constructor].
  - intros IH. rewrite dec_snoc by lia. apply Forall_app. split; [done|].
    constructor; [unfold isdigit; zlia|constructor].
Qed.

Lemma dec_neg n : n < 0 -> dec n = 45 :: dec (- n).
Proof.
  intros Hn. unfold dec at 1. rewrite (proj2 (Z.ltb_lt n 0)) by lia. f_equal.
  rewrite (dec_digits (S (Z.to_nat (- n))) (- n)); [done| |lia]. split; [lia|].
  rewrite Nat2Z.inj_succ, Z2Nat.id by lia. pose proof (Z.pow_gt_lin_r 10 (Z.succ (- n))). lia.
Qed.

Lemma dec_length_pos n : 0 <= n -> (0 < length (dec n))%nat.
Proof.
  revert n. apply dec_ind; intros n Hn; [by rewrite dec_small by lia; simpl; lia|].
  intros IH. rewrite dec_snoc, length_app by lia. simpl. lia.
Qed.

Lemma dec_length k n : 0 <= n < 10 ^ Z.of_nat k -> (0 < k)%nat -> (length (dec n) <= k)%nat.
Proof.
  intros Hn Hk. rewrite (dec_digits k) by done. clear Hn. revert n Hk.
  induction k as [|k IH]; intros n Hk; [lia|]. simpl. destruct (n <? 10); [simpl; lia|].
  rewrite length_app. simpl. destruct k; [simpl; lia|]. specialize (IH (n / 10)). lia.
Qed.

Lemma digits_val_app acc a b : Forall (fun c => isdigit c = true) a ->
  digits_val acc (a ++ b) = digits_val (digits_val acc a) b.
Proof.
  intros Ha. revert acc. induction Ha as [|c a Hc Ha IH]; intros acc; simpl; [done|].
  rewrite Hc. apply IH.
Qed.

Lemma digits_val_dec n : 0 <= n -> digits_val 0 (dec n) = n.
Proof.
  revert n. apply dec_ind; intros n Hn.
  - rewrite dec_small by lia. simpl. replace (isdigit (48 + n)) with true by (unfold isdigit; lia). lia.
  - intros IH. rewrite dec_snoc, digits_val_app, IH by (lia || apply dec_isdigit; zlia).
    simpl. replace (isdigit (48 + n mod 10)) with true by (unfold isdigit; zlia). zlia.
Qed.

Definition no_digit_head (b : bytes) : Prop :=
  match b with [] => True | c :: _ => isdigit c = false end.

Lemma atol_digits n b : 0 <= n -> no_digit_head b -> atol (dec n ++ b) = n.
Proof.
  intros Hn Hb. pose proof (dec_isdigit n Hn) as Hd. pose proof (dec_length_pos n Hn) as Hl.
  assert (Hv : digits_val 0 (dec n ++ b) = n).
  { rewrite digits_val_app, digits_val_dec by done. destruct b as [|c b]; simpl in *; [done|by rewrite Hb]. }
  revert Hv. destruct (dec n) as [|c d]; simpl in *; [lia|]. apply Forall_cons_1 in Hd as [Hc _].
  unfold atol, isdigit in *. simpl. intros Hv.
  replace (isspace c) with false by (unfold isspace; lia).
  destruct c as [|p|p]; [done| |done].
  do 6 (destruct p as [p|p|]; try done; try (simpl in Hc; lia)).
Qed.

(** The round trip of every number. *)
Lemma atol_dec_app n b : no_digit_head b -> atol (dec n ++ b) = n.
Proof.
  intros Hb. destruct (Z.lt_ge_cases n 0) as [Hn|Hn]; [|by apply atol_digits].
  rewrite dec_neg by done. unfold atol. simpl. rewrite digits_val_app, digits_val_dec by (apply dec_isdigit || idtac; lia).
  destruct b as [|c b]; simpl in *; [lia|]. rewrite Hb. lia.
Qed.

Lemma skip_spaces_replicate k b : skip_spaces (replicate k SPACE ++ b) = skip_spaces b.
Proof. induction k as [|k IH]; simpl; [done|apply IH]. Qed.

(** The round trip of a padded field. *)
Lemma atol_fmt w n b : 0 <= n -> no_digit_head b -> atol (fmt w n ++ b) = n.
Proof.
  intros. unfold fmt. rewrite <-(assoc_L (++)). unfold atol. rewrite skip_spaces_replicate.
  fold (atol (dec n ++ b)). by apply atol_digits.
Qed.

Lemma fmt_length w n : 0 <= n < 10 ^ Z.of_nat w -> (0 < w)%nat -> length (fmt w n) = w.
Proof.
  intros Hn Hw. unfold fmt. rewrite length_app, length_replicate.
  pose proof (dec_length w n Hn Hw). lia.
Qed.

Lemma dec_no (c : Z) n : 0 <= n -> isdigit c = false -> c ∉ dec n.
Proof.
  intros Hn Hc Hin. pose proof (dec_isdigit n Hn) as Hd. rewrite Forall_forall in Hd.
  specialize (Hd c Hin). congruence.
Qed.
End decimal.

Lemma slice_app (a b c : bytes) : slice (a ++ b ++ c) (Zlen a) (Zlen b) = b.
Proof.
  unfold slice, seg, Zlen. rewrite Nat2Z.id.
  replace (Z.to_nat _) with (length b) by lia. by rewrite drop_app_length, take_app_length.
Qed.

(** A slice of a prefix of what remains. *)
Lemma slice_slice_app (a b c : bytes) off n : off = Zlen a -> n = Zlen b ->
  slice (a ++ b ++ c) off n = b.
Proof. intros -> ->. apply slice_app. Qed.

Lemma file_write_app (a b b' c : bytes) : length b = length b' ->
  file_write (a ++ b ++ c) (Zlen a) b' = a ++ b' ++ c.
Proof.
  intros Hb. unfold file_write, Zlen. rewrite Nat2Z.id.
  replace (length a - length (a ++ b ++ c))%nat with 0%nat by (rewrite length_app; lia).
  simpl. rewrite app_nil_r, take_app_length. f_equal. f_equal.
  rewrite <-Hb, <-drop_drop, drop_app_length. apply drop_app_length.
Qed.

Lemma file_write_end (a b : bytes) : file_write a (Zlen a) b = a ++ b.
Proof.
  unfold file_write, Zlen. rewrite Nat2Z.id, Nat.sub_diag.
  simpl. rewrite app_nil_r, firstn_all. rewrite skipn_all2 by lia. by rewrite app_nil_r.
Qed.

Lemma file_write_length (b : bytes) off d : 0 <= off ->
  Zlen (file_write b off d) = Z.max (Zlen b) (off + Zlen d).
Proof.
  intros. unfold file_write, Zlen.
  rewrite !length_app, length_take, length_drop, length_app, length_replicate. lia.
Qed.

(** ** A file as a sequence of records, found by their offsets *)

Section layout.
Context {R : Type} (enc : R -> bytes).
Implicit Types (l pre post : list R) (r : R) (base o : Z).

Definition layout (l : list R) : bytes := concat (map enc l).

Fixpoint find_at (base : Z) (l : list R) (o : Z) : option R :=
  match l with
  | [] => None
  | r :: l => if o =? base then Some r else find_at (base + Zlen (enc r)) l o
  end.

Fixpoint upd_at (base : Z) (l : list R) (o : Z) (r' : R) : list R :=
  match l with
  | [] => []
  | r :: l => if o =? base then r' :: l else r :: upd_at (base + Zlen (enc r)) l o r'
  end.

Lemma layout_app l l' : layout (l ++ l') = layout l ++ layout l'.
Proof. unfold layout. by rewrite map_app, concat_app. Qed.

Lemma layout_cons r l : layout (r :: l) = enc r ++ layout l.
Proof. done. Qed.

Lemma layout_one r : layout [r] = enc r.
Proof. unfold layout. simpl. by rewrite app_nil_r. Qed.

Lemma find_at_split base l o r r' : find_at base l o = Some r ->
  exists pre post, l = pre ++ r :: post /\ upd_at base l o r' = pre ++ r' :: post /\
    o = base + Zlen (layout pre).
Proof.
  revert base. induction l as [|x l IH]; intros base; simpl; [done|].
  destruct (Z.eqb_spec o base) as [->|].
  - intros [= ->]. exists [], l. unfold layout, Zlen. simpl. split_and!; [done..|lia].
  - intros (pre & post & -> & -> & ->)%IH. exists (x :: pre), post.
    rewrite layout_cons, Zlen_app. split_and!; [done..|lia].
Qed.

Lemma find_at_range base l o r : find_at base l o = Some r ->
  base <= o /\ o + Zlen (enc r) <= base + Zlen (layout l).
Proof.
  intros H. destruct (find_at_split _ _ _ _ r H) as (pre & post & -> & _ & ->).
  rewrite layout_app, layout_cons, !Zlen_app. pose proof (Zlen_nonneg (layout pre)).
  pose proof (Zlen_nonneg (layout post)). lia.
Qed.

Lemma find_at_elem base l o r : find_at base l o = Some r -> r ∈ l.
Proof.
  intros H. destruct (find_at_split _ _ _ _ r H) as (pre & post & -> & _). set_solver.
Qed.

Lemma find_at_upd_eq base l o r r' : find_at base l o = Some r ->
  find_at base (upd_at base l o r') o = Some r'.
Proof.
  revert base. induction l as [|x l IH]; intros base; simpl; [done|].
  destruct (Z.eqb_spec o base) as [->|Hne]; simpl.
  - by rewrite Z.eqb_refl.
  - rewrite (proj2 (Z.eqb_neq _ _)) by done. apply IH.
Qed.

Lemma find_at_upd_ne base l o o' r r' : find_at base l o = Some r ->
  Zlen (enc r') = Zlen (enc r) -> o' <> o ->
  find_at base (upd_at base l o r') o' = find_at base l o'.
Proof.
  intros Hf Hlen Hne. revert base Hf. induction l as [|x l IH]; intros base; simpl; [done|].
  destruct (Z.eqb_spec o base) as [->|]; simpl.
  - intros [= ->]. by rewrite Hlen, (proj2 (Z.eqb_neq _ _)).
  - intros Hf. destruct (o' =? base); [done|]. by apply IH.
Qed.

Lemma layout_upd_len base l o r r' : find_at base l o = Some r ->
  Zlen (enc r') = Zlen (enc r) -> Zlen (layout (upd_at base l o r')) = Zlen (layout l).
Proof.
  intros Hf Hlen. destruct (find_at_split _ _ _ _ r' Hf) as (pre & post & -> & -> & _).
  rewrite !layout_app, !layout_cons, !Zlen_app. lia.
Qed.

Lemma find_at_app base l l' o r : find_at base l o = Some r -> find_at base (l ++ l') o = Some r.
Proof.
  revert base. induction l as [|x l IH]; intros base; simpl; [done|].
  destruct (o =? base); [done|apply IH].
Qed.

Lemma find_at_app_ne base l r o : o <> base + Zlen (layout l) ->
  find_at base (l ++ [r]) o = find_at base l o.
Proof.
  revert base. induction l as [|x l IH]; intros base; simpl.
  - intros Hne. rewrite (proj2 (Z.eqb_neq _ _)); [done|]. unfold layout, Zlen in Hne. simpl in Hne. lia.
  - rewrite layout_cons, Zlen_app. intros Hne. destruct (o =? base); [done|]. apply IH. lia.
Qed.

Lemma find_at_end base l r : Forall (fun r => 0 < Zlen (enc r)) l ->
  find_at base (l ++ [r]) (base + Zlen (layout l)) = Some r.
Proof.
  intros Hl. revert base. induction Hl as [|x l Hx Hl IH]; intros base; simpl.
  - unfold layout, Zlen. simpl. by rewrite Z.add_0_r, Z.eqb_refl.
  - rewrite layout_cons, Zlen_app. pose proof (Zlen_nonneg (layout l)).
    rewrite (proj2 (Z.eqb_neq _ _)) by lia. rewrite Z.add_assoc. apply IH.
Qed.

Lemma upd_at_Forall (P : R -> Prop) base l o r' : Forall P l -> P r' -> Forall P (upd_at base l o r').
Proof.
  intros Hl Hr. revert base. induction Hl as [|x l Hx Hl IH]; intros base; simpl; [constructor|].
  destruct (o =? base); constructor; auto.
Qed.

(** Reading and overwriting the record at [o] of a file with the header [h]. *)
Lemma slice_find h l o r : find_at (Zlen h) l o = Some r ->
  slice (h ++ layout l) o (Zlen (enc r)) = enc r.
Proof.
  intros H. destruct (find_at_split _ _ _ _ r H) as (pre & post & -> & _ & ->).
  rewrite layout_app, layout_cons, (assoc_L (++)), <-Zlen_app. apply slice_app.
Qed.

Lemma write_find h l o r r' : find_at (Zlen h) l o = Some r -> length (enc r') = length (enc r) ->
  file_write (h ++ layout l) o (enc r') = h ++ layout (upd_at (Zlen h) l o r').
Proof.
  intros H Hlen. destruct (find_at_split _ _ _ _ r' H) as (pre & post & -> & -> & ->).
  rewrite !layout_app, !layout_cons, !(assoc_L (++) h), <-Zlen_app.
  by rewrite (file_write_app (h ++ layout pre)).
Qed.

(** Overwriting only the first bytes of the record. *)
Lemma write_find_prefix h l o r r' a a' c : find_at (Zlen h) l o = Some r ->
  enc r = a ++ c -> enc r' = a' ++ c -> length a' = length a ->
  file_write (h ++ layout l) o a' = h ++ layout (upd_at (Zlen h) l o r').
Proof.
  intros H Hr Hr' Hlen. destruct (find_at_split _ _ _ _ r' H) as (pre & post & -> & -> & ->).
  rewrite !layout_app, !layout_cons, Hr, Hr', !(assoc_L (++) h), <-Zlen_app.
  rewrite <-!(assoc_L (++)). rewrite !(assoc_L (++) h). by rewrite (file_write_app (h ++ layout pre)).
Qed.
End layout.

#[global] Arguments file_write : simpl never.
#[global] Arguments fmt : simpl never.
#[global] Arguments dec : simpl never.
#[global] Arguments slice : simpl never.
