(* ===== verification/Db.v ===== *)
(** Db: the hashed key/value store of apue/20db/db.c. The two files are byte
    strings with an offset each, every function works on the handle, and
    [err_dump]/[err_quit] end the process. The calls to the operating system
    succeed (a short read at the end of a file and a seek before its start are
    kept); the byte-range locks a call holds are recorded. *)
From stdpp Require Import sets list strings.
From S2P Require Import Prelude Arrays Bytes.

Definition IDXLEN_SZ : Z := 4.
Definition SEP : Z := 58.
Definition PTR_SZ : Z := 7.
Definition PTR_MAX : Z := 999999.
Definition NHASH_DEF : Z := 137.
Definition FREE_OFF : Z := 0.
Definition HASH_OFF : Z := PTR_SZ.

Definition DB_INSERT : Z := 1.
Definition DB_REPLACE : Z := 2.
Definition DB_STORE : Z := 3.
Definition IDXLEN_MIN : Z := 6.
Definition IDXLEN_MAX : Z := 1024.
Definition DATLEN_MIN : Z := 2.
Definition DATLEN_MAX : Z := 1024.

Record counts := Counts {
  cnt_delok : Z; cnt_delerr : Z; cnt_fetchok : Z; cnt_fetcherr : Z; cnt_nextrec : Z;
  cnt_stor1 : Z; cnt_stor2 : Z; cnt_stor3 : Z; cnt_stor4 : Z; cnt_storerr : Z;
}.

(** Which counter a call increments. *)
Inductive counter := DELOK | DELERR | FETCHOK | FETCHERR | NEXTREC
  | STOR1 | STOR2 | STOR3 | STOR4 | STORERR.

Definition incr (w : counter) (c : counts) : counts :=
  let '(Counts a b c d e f g h i j) := c in
  let s x := u64 (x + 1) in
  match w with
  | DELOK => Counts (s a) b c d e f g h i j | DELERR => Counts a (s b) c d e f g h i j
  | FETCHOK => Counts a b (s c) d e f g h i j | FETCHERR => Counts a b c (s d) e f g h i j
  | NEXTREC => Counts a b c d (s e) f g h i j | STOR1 => Counts a b c d e (s f) g h i j
  | STOR2 => Counts a b c d e f (s g) h i j | STOR3 => Counts a b c d e f g (s h) i j
  | STOR4 => Counts a b c d e f g h (s i) j | STORERR => Counts a b c d e f g h i (s j)
  end.

(** A lock held: on which file, for writing or not, from where, how long (0: to
    the end of the file). *)
Inductive fdesc := IDX | DAT.
#[export] Instance fdesc_eq_dec : EqDecision fdesc.
Proof. solve_decision. Defined.
Record lock := Lock { l_fd : fdesc; l_write : bool; l_off : Z; l_len : Z }.

Record DB := MkDB {
  idx : bytes; (* contents of the file behind [idxfd] *)
  idxpos : Z; (* its file offset *)
  dat : bytes; (* contents of the file behind [datfd] *)
  datpos : Z; (* its file offset *)
  idxbuf : bytes; (* the C string in the index buffer *)
  datbuf : bytes; (* the C string in the data buffer *)
  idxoff : Z;
  idxlen : Z;
  datoff : Z;
  datlen : Z;
  ptrval : Z;
  ptroff : Z;
  chainoff : Z;
  hashoff : Z;
  nhash : Z;
  cnt : counts; (* the ten [cnt_] fields *)
  locks : list lock; (* the byte-range locks held *)
  errno : Z;
}.
Definition set_idx (v : bytes) (d : DB) : DB :=
  MkDB v (idxpos d) (dat d) (datpos d) (idxbuf d) (datbuf d) (idxoff d) (idxlen d) (datoff d) (datlen d) (ptrval d) (ptroff d) (chainoff d) (hashoff d) (nhash d) (cnt d) (locks d) (errno d).
Definition set_idxpos (v : Z) (d : DB) : DB :=
  MkDB (idx d) v (dat d) (datpos d) (idxbuf d) (datbuf d) (idxoff d) (idxlen d) (datoff d) (datlen d) (ptrval d) (ptroff d) (chainoff d) (hashoff d) (nhash d) (cnt d) (locks d) (errno d).
Definition set_dat (v : bytes) (d : DB) : DB :=
  MkDB (idx d) (idxpos d) v (datpos d) (idxbuf d) (datbuf d) (idxoff d) (idxlen d) (datoff d) (datlen d) (ptrval d) (ptroff d) (chainoff d) (hashoff d) (nhash d) (cnt d) (locks d) (errno d).
Definition set_datpos (v : Z) (d : DB) : DB :=
  MkDB (idx d) (idxpos d) (dat d) v (idxbuf d) (datbuf d) (idxoff d) (idxlen d) (datoff d) (datlen d) (ptrval d) (ptroff d) (chainoff d) (hashoff d) (nhash d) (cnt d) (locks d) (errno d).
Definition set_idxbuf (v : bytes) (d : DB) : DB :=
  MkDB (idx d) (idxpos d) (dat d) (datpos d) v (datbuf d) (idxoff d) (idxlen d) (datoff d) (datlen d) (ptrval d) (ptroff d) (chainoff d) (hashoff d) (nhash d) (cnt d) (locks d) (errno d).
Definition set_datbuf (v : bytes) (d : DB) : DB :=
  MkDB (idx d) (idxpos d) (dat d) (datpos d) (idxbuf d) v (idxoff d) (idxlen d) (datoff d) (datlen d) (ptrval d) (ptroff d) (chainoff d) (hashoff d) (nhash d) (cnt d) (locks d) (errno d).
Definition set_idxoff (v : Z) (d : DB) : DB :=
  MkDB (idx d) (idxpos d) (dat d) (datpos d) (idxbuf d) (datbuf d) v (idxlen d) (datoff d) (datlen d) (ptrval d) (ptroff d) (chainoff d) (hashoff d) (nhash d) (cnt d) (locks d) (errno d).
Definition set_idxlen (v : Z) (d : DB) : DB :=
  MkDB (idx d) (idxpos d) (dat d) (datpos d) (idxbuf d) (datbuf d) (idxoff d) v (datoff d) (datlen d) (ptrval d) (ptroff d) (chainoff d) (hashoff d) (nhash d) (cnt d) (locks d) (errno d).
Definition set_datoff (v : Z) (d : DB) : DB :=
  MkDB (idx d) (idxpos d) (dat d) (datpos d) (idxbuf d) (datbuf d) (idxoff d) (idxlen d) v (datlen d) (ptrval d) (ptroff d) (chainoff d) (hashoff d) (nhash d) (cnt d) (locks d) (errno d).
Definition set_datlen (v : Z) (d : DB) : DB :=
  MkDB (idx d) (idxpos d) (dat d) (datpos d) (idxbuf d) (datbuf d) (idxoff d) (idxlen d) (datoff d) v (ptrval d) (ptroff d) (chainoff d) (hashoff d) (nhash d) (cnt d) (locks d) (errno d).
Definition set_ptrval (v : Z) (d : DB) : DB :=
  MkDB (idx d) (idxpos d) (dat d) (datpos d) (idxbuf d) (datbuf d) (idxoff d) (idxlen d) (datoff d) (datlen d) v (ptroff d) (chainoff d) (hashoff d) (nhash d) (cnt d) (locks d) (errno d).
Definition set_ptroff (v : Z) (d : DB) : DB :=
  MkDB (idx d) (idxpos d) (dat d) (datpos d) (idxbuf d) (datbuf d) (idxoff d) (idxlen d) (datoff d) (datlen d) (ptrval d) v (chainoff d) (hashoff d) (nhash d) (cnt d) (locks d) (errno d).
Definition set_chainoff (v : Z) (d : DB) : DB :=
  MkDB (idx d) (idxpos d) (dat d) (datpos d) (idxbuf d) (datbuf d) (idxoff d) (idxlen d) (datoff d) (datlen d) (ptrval d) (ptroff d) v (hashoff d) (nhash d) (cnt d) (locks d) (errno d).
Definition set_hashoff (v : Z) (d : DB) : DB :=
  MkDB (idx d) (idxpos d) (dat d) (datpos d) (idxbuf d) (datbuf d) (idxoff d) (idxlen d) (datoff d) (datlen d) (ptrval d) (ptroff d) (chainoff d) v (nhash d) (cnt d) (locks d) (errno d).
Definition set_nhash (v : Z) (d : DB) : DB :=
  MkDB (idx d) (idxpos d) (dat d) (datpos d) (idxbuf d) (datbuf d) (idxoff d) (idxlen d) (datoff d) (datlen d) (ptrval d) (ptroff d) (chainoff d) (hashoff d) v (cnt d) (locks d) (errno d).
Definition set_cnt (v : counts) (d : DB) : DB :=
  MkDB (idx d) (idxpos d) (dat d) (datpos d) (idxbuf d) (datbuf d) (idxoff d) (idxlen d) (datoff d) (datlen d) (ptrval d) (ptroff d) (chainoff d) (hashoff d) (nhash d) v (locks d) (errno d).
Definition set_locks (v : list lock) (d : DB) : DB :=
  MkDB (idx d) (idxpos d) (dat d) (datpos d) (idxbuf d) (datbuf d) (idxoff d) (idxlen d) (datoff d) (datlen d) (ptrval d) (ptroff d) (chainoff d) (hashoff d) (nhash d) (cnt d) v (errno d).
Definition set_errno (v : Z) (d : DB) : DB :=
  MkDB (idx d) (idxpos d) (dat d) (datpos d) (idxbuf d) (datbuf d) (idxoff d) (idxlen d) (datoff d) (datlen d) (ptrval d) (ptroff d) (chainoff d) (hashoff d) (nhash d) (cnt d) (locks d) v.

Definition EINVAL : Z := 22.
Definition ENOENT : Z := 2.

(** ** The system calls *)

(** [err_dump] aborts, [err_quit] exits with 1. *)
Definition err_dump {A} : M DB A := exit_ 134.
Definition err_quit {A} : M DB A := exit_ 1.

Definition writew_lock (f : fdesc) (off len : Z) : M DB unit :=
  modify (fun d => set_locks (Lock f true off len :: locks d) d).
Definition readw_lock (f : fdesc) (off len : Z) : M DB unit :=
  modify (fun d => set_locks (Lock f false off len :: locks d) d).
Definition un_lock (f : fdesc) (off len : Z) : M DB unit :=
  modify (fun d => set_locks (filter (fun l =>
    ~ (l_fd l = f /\ l_off l = off /\ l_len l = len)) (locks d)) d).

Definition fpos (f : fdesc) : DB -> Z := match f with IDX => idxpos | DAT => datpos end.
Definition set_fpos (f : fdesc) : Z -> DB -> DB := match f with IDX => set_idxpos | DAT => set_datpos end.
Definition file (f : fdesc) : DB -> bytes := match f with IDX => idx | DAT => dat end.
Definition set_file (f : fdesc) : bytes -> DB -> DB := match f with IDX => set_idx | DAT => set_dat end.

Inductive seek := SEEK_SET | SEEK_CUR | SEEK_END.
Definition lseek (f : fdesc) (offset : Z) (whence : seek) : M DB Z := fun d =>
  let o := match whence with
           | SEEK_SET => offset
           | SEEK_CUR => fpos f d + offset
           | SEEK_END => Zlen (file f d) + offset
           end in
  if o <? 0 then Ret (-1) d else Ret o (set_fpos f o d).

(** [read] and [readv]: the bytes read, fewer than [n] at the end of the file. *)
Definition read (f : fdesc) (n : Z) : M DB bytes := fun d =>
  let b := slice (file f d) (fpos f d) n in
  Ret b (set_fpos f (fpos f d + Zlen b) d).

(** [write] and [writev]: all the bytes are written. *)
Definition write (f : fdesc) (b : bytes) : M DB unit := fun d =>
  Ret tt (set_fpos f (fpos f d + Zlen b) (set_file f (file_write (file f d) (fpos f d) b) d)).

(** [atol] on a text of any length: overflow of [long] is undefined. *)
Definition atol_long (b : bytes) : M DB Z :=
  let v := atol b in guard_ok ((- 2 ^ 63 <=? v) && (v <? 2 ^ 63)) ;; ret v.

(** ** The functions of db.c *)

Section db.
Variable fuel : nat.

(** The sum is unsigned. The product is an [int], which it fits for keys of up to 2^24
    bytes ([hash_products_fit]); a record of the index has at most [IDXLEN_MAX]. *)
Fixpoint hash_loop (key : bytes) (i hval : Z) : Z :=
  match key with
  | [] => hval
  | c :: key => hash_loop key (i + 1) (u64 (hval + signed 8 c * i))
  end.
Definition _db_hash (key : bytes) : M DB Z :=
  n <- gets nhash ;; ret (hash_loop key 1 0 mod n).

Definition _db_readptr (offset : Z) : M DB Z :=
  r <- lseek IDX offset SEEK_SET ;;
  (when r =? -1 do err_dump) ;;
  asciiptr <- read IDX PTR_SZ ;;
  (when negb (Zlen asciiptr =? PTR_SZ) do err_dump) ;;
  ret (atol asciiptr).

(** The text of a record split at its separators: idxbuf keeps the key. *)
Definition parse_record (buf : bytes) : M DB Z :=
  match split_at SEP buf with
  | None => err_dump
  | Some (key, rest) =>
      modify (set_idxbuf key) ;;
      match split_at SEP rest with
      | None => err_dump
      | Some (p1, p2) =>
          match split_at SEP p2 with
          | Some _ => err_dump
          | None =>
              v <- atol_long p1 ;; modify (set_datoff v) ;;
              (when v <? 0 do err_dump) ;;
              v <- atol_long p2 ;; modify (set_datlen (u64 v)) ;;
              (when (u64 v <=? 0) || (DATLEN_MAX <? u64 v) do err_dump) ;;
              gets ptrval
          end
      end
  end.

Definition _db_readidx (offset : Z) : M DB Z :=
  r <- lseek IDX offset (if offset =? 0 then SEEK_CUR else SEEK_SET) ;;
  modify (set_idxoff r) ;;
  (when r =? -1 do err_dump) ;;
  b <- read IDX (PTR_SZ + IDXLEN_SZ) ;;
  if negb (Zlen b =? PTR_SZ + IDXLEN_SZ) then
    if (Zlen b =? 0) && (offset =? 0) then ret (-1) else err_dump
  else
    modify (set_ptrval (atol (take (Z.to_nat PTR_SZ) b))) ;;
    modify (set_idxlen (u64 (atol (drop (Z.to_nat PTR_SZ) b)))) ;;
    n <- gets idxlen ;;
    (when (n <? IDXLEN_MIN) || (IDXLEN_MAX <? n) do err_dump) ;;
    b <- read IDX n ;;
    (when negb (Zlen b =? n) do err_dump) ;;
    (when negb (aget b (n - 1) =? NEWLINE) do err_dump) ;;
    parse_record (cstr (take (Z.to_nat (n - 1)) b)).

Definition _db_readdat : M DB bytes :=
  off <- gets datoff ;;
  r <- lseek DAT off SEEK_SET ;;
  (when r =? -1 do err_dump) ;;
  n <- gets datlen ;;
  b <- read DAT n ;;
  (when negb (Zlen b =? n) do err_dump) ;;
  (when negb (aget b (n - 1) =? NEWLINE) do err_dump) ;;
  modify (set_datbuf (cstr (take (Z.to_nat (n - 1)) b))) ;;
  gets datbuf.

Definition _db_find_and_lock (key : bytes) (writelock : bool) : M DB Z :=
  h <- _db_hash key ;;
  modify (fun d => set_chainoff (h * PTR_SZ + hashoff d) d) ;;
  modify (fun d => set_ptroff (chainoff d) d) ;;
  off <- gets chainoff ;;
  (if writelock then writew_lock IDX off 1 else readw_lock IDX off 1) ;;
  p <- gets ptroff ;;
  offset <- _db_readptr p ;;
  offset <- loop fuel (fun offset =>
    if negb (offset =? 0) then
      nextoffset <- _db_readidx offset ;;
      buf <- gets idxbuf ;;
      if bool_decide (buf = key) then ret (inr offset)
      else modify (set_ptroff offset) ;; ret (inl nextoffset)
    else ret (inr offset)) offset ;;
  ret (if offset =? 0 then -1 else 0).

Definition db_fetch (key : bytes) : M DB (option bytes) :=
  r <- _db_find_and_lock key false ;;
  ptr <- (if r <? 0 then modify (fun d => set_cnt (incr FETCHERR (cnt d)) d) ;; ret None
          else ptr <- _db_readdat ;;
               modify (fun d => set_cnt (incr FETCHOK (cnt d)) d) ;; ret (Some ptr)) ;;
  off <- gets chainoff ;;
  un_lock IDX off 1 ;;
  ret ptr.

Definition _db_writedat (data : bytes) (offset : Z) (whence : seek) : M DB unit :=
  (match whence with SEEK_END => writew_lock DAT 0 0 | _ => ret tt end) ;;
  r <- lseek DAT offset whence ;;
  modify (set_datoff r) ;;
  (when r =? -1 do err_dump) ;;
  modify (set_datlen (Zlen data + 1)) ;;
  write DAT (data ++ [NEWLINE]) ;;
  (match whence with SEEK_END => un_lock DAT 0 0 | _ => ret tt end).

Definition record_line (key : bytes) (datoff datlen : Z) : bytes :=
  key ++ [SEP] ++ dec datoff ++ [SEP] ++ dec datlen ++ [NEWLINE].

(** [sprintf] writes the line into the buffer of [IDXLEN_MAX + 2] bytes before
    its length is looked at. *)
Definition _db_writeidx (key : bytes) (offset : Z) (whence : seek) (ptr : Z) : M DB unit :=
  modify (set_ptrval ptr) ;;
  (when (ptr <? 0) || (PTR_MAX <? ptr) do err_quit) ;;
  datoff <- gets datoff ;; datlen <- gets datlen ;;
  let line := record_line key datoff datlen in
  guard_ok (Zlen line + 1 <=? IDXLEN_MAX + 2) ;;
  modify (set_idxbuf line) ;;
  let len := Zlen line in
  (when (len <? IDXLEN_MIN) || (IDXLEN_MAX <? len) do err_dump) ;;
  let asciiptrlen := fmt (Z.to_nat PTR_SZ) ptr ++ fmt (Z.to_nat IDXLEN_SZ) len in
  n <- gets nhash ;;
  (match whence with SEEK_END => writew_lock IDX ((n + 1) * PTR_SZ + 1) 0 | _ => ret tt end) ;;
  r <- lseek IDX offset whence ;;
  modify (set_idxoff r) ;;
  (when r =? -1 do err_dump) ;;
  write IDX (take (Z.to_nat (PTR_SZ + IDXLEN_SZ)) asciiptrlen ++ line) ;;
  (match whence with SEEK_END => un_lock IDX ((n + 1) * PTR_SZ + 1) 0 | _ => ret tt end).

Definition _db_writeptr (offset ptr : Z) : M DB unit :=
  (when (ptr <? 0) || (PTR_MAX <? ptr) do err_quit) ;;
  r <- lseek IDX offset SEEK_SET ;;
  (when r =? -1 do err_dump) ;;
  write IDX (take (Z.to_nat PTR_SZ) (fmt (Z.to_nat PTR_SZ) ptr)).

Definition _db_dodelete : M DB unit :=
  modify (fun d => set_datbuf (replicate (Z.to_nat (datlen d - 1)) SPACE) d) ;;
  modify (fun d => set_idxbuf (replicate (length (idxbuf d)) SPACE) d) ;;
  writew_lock IDX FREE_OFF 1 ;;
  data <- gets datbuf ;; off <- gets datoff ;;
  _db_writedat data off SEEK_SET ;;
  freeptr <- _db_readptr FREE_OFF ;;
  saveptr <- gets ptrval ;;
  key <- gets idxbuf ;; ioff <- gets idxoff ;;
  _db_writeidx key ioff SEEK_SET freeptr ;;
  ioff <- gets idxoff ;;
  _db_writeptr FREE_OFF ioff ;;
  poff <- gets ptroff ;;
  _db_writeptr poff saveptr ;;
  un_lock IDX FREE_OFF 1.

Definition db_delete (key : bytes) : M DB Z :=
  r <- _db_find_and_lock key true ;;
  rc <- (if r =? 0 then
           _db_dodelete ;; modify (fun d => set_cnt (incr DELOK (cnt d)) d) ;; ret 0
         else modify (fun d => set_cnt (incr DELERR (cnt d)) d) ;; ret (-1)) ;;
  off <- gets chainoff ;;
  un_lock IDX off 1 ;;
  ret rc.

Definition _db_findfree (keylen dlen : Z) : M DB Z :=
  writew_lock IDX FREE_OFF 1 ;;
  offset <- _db_readptr FREE_OFF ;;
  let! (saveoffset, offset) := loop fuel (fun '(saveoffset, offset) =>
    if negb (offset =? 0) then
      nextoffset <- _db_readidx offset ;;
      buf <- gets idxbuf ;; n <- gets datlen ;;
      if (Zlen buf =? keylen) && (n =? dlen) then ret (inr (saveoffset, offset))
      else ret (inl (offset, nextoffset))
    else ret (inr (saveoffset, offset))) (FREE_OFF, offset) in
  rc <- (if offset =? 0 then ret (-1)
         else p <- gets ptrval ;; _db_writeptr saveoffset p ;; ret 0) ;;
  un_lock IDX FREE_OFF 1 ;;
  ret rc.

Definition db_store (key data : bytes) (flag : Z) : M DB Z :=
  if negb (flag =? DB_INSERT) && negb (flag =? DB_REPLACE) && negb (flag =? DB_STORE) then
    modify (set_errno EINVAL) ;; ret (-1)
  else
    let keylen := Zlen key in
    let dlen := Zlen data + 1 in
    (when (dlen <? DATLEN_MIN) || (DATLEN_MAX <? dlen) do err_dump) ;;
    r <- _db_find_and_lock key true ;;
    rc <- (if r <? 0 then
             if flag =? DB_REPLACE then
               modify (fun d => set_cnt (incr STORERR (cnt d)) d) ;;
               modify (set_errno ENOENT) ;; ret (-1)
             else
               off <- gets chainoff ;;
               ptr <- _db_readptr off ;;
               f <- _db_findfree keylen dlen ;;
               (if f <? 0 then
                  _db_writedat data 0 SEEK_END ;;
                  _db_writeidx key 0 SEEK_END ptr ;;
                  off <- gets chainoff ;; ioff <- gets idxoff ;;
                  _db_writeptr off ioff ;;
                  modify (fun d => set_cnt (incr STOR1 (cnt d)) d)
                else
                  doff <- gets datoff ;; _db_writedat data doff SEEK_SET ;;
                  ioff <- gets idxoff ;; _db_writeidx key ioff SEEK_SET ptr ;;
                  off <- gets chainoff ;; ioff <- gets idxoff ;;
                  _db_writeptr off ioff ;;
                  modify (fun d => set_cnt (incr STOR2 (cnt d)) d)) ;;
               ret 0
           else if flag =? DB_INSERT then
             modify (fun d => set_cnt (incr STORERR (cnt d)) d) ;; ret 1
           else
             n <- gets datlen ;;
             (if negb (dlen =? n) then
                _db_dodelete ;;
                off <- gets chainoff ;;
                ptr <- _db_readptr off ;;
                _db_writedat data 0 SEEK_END ;;
                _db_writeidx key 0 SEEK_END ptr ;;
                off <- gets chainoff ;; ioff <- gets idxoff ;;
                _db_writeptr off ioff ;;
                modify (fun d => set_cnt (incr STOR3 (cnt d)) d)
              else
                doff <- gets datoff ;; _db_writedat data doff SEEK_SET ;;
                modify (fun d => set_cnt (incr STOR4 (cnt d)) d)) ;;
             ret 0) ;;
    off <- gets chainoff ;;
    un_lock IDX off 1 ;;
    ret rc.

Definition db_rewind : M DB unit :=
  n <- gets nhash ;;
  let offset := (n + 1) * PTR_SZ in
  r <- lseek IDX (offset + 1) SEEK_SET ;;
  modify (set_idxoff r) ;;
  (when r =? -1 do err_dump).

(** [None] at the end of the file, otherwise the key copied out and the data. *)
Definition db_nextrec : M DB (option (bytes * bytes)) :=
  readw_lock IDX FREE_OFF 1 ;;
  found <- loop fuel (fun _ : unit =>
    r <- _db_readidx 0 ;;
    if r <? 0 then ret (inr false)
    else buf <- gets idxbuf ;;
         if forallb (fun c => c =? SPACE) buf then ret (inl tt) else ret (inr true)) tt ;;
  ptr <- (if found : bool then
            key <- gets idxbuf ;; data <- _db_readdat ;;
            modify (fun d => set_cnt (incr NEXTREC (cnt d)) d) ;; ret (Some (key, data))
          else ret None) ;;
  un_lock IDX FREE_OFF 1 ;;
  ret ptr.
End db.

(** ** Opening and closing *)

(** The files [<pathname>.idx] and [<pathname>.dat], where they exist. *)
Record files := Files { f_idx : option bytes; f_dat : option bytes }.

(** What [open] leaves of a file: [None] when it does not exist. *)
Definition open_file (f : option bytes) (creat trunc : bool) : option bytes :=
  match f with
  | Some b => Some (if trunc then [] else b)
  | None => if creat then Some [] else None
  end.

(** [calloc]: all fields zero. [mem] tells which of the four allocations succeed. *)
Definition _db_alloc (mem : nat -> bool) : option DB :=
  if mem 0%nat && mem 1%nat && mem 2%nat && mem 3%nat then
    Some (MkDB [] 0 [] 0 [] [] 0 0 0 0 0 0 0 0 0 (Counts 0 0 0 0 0 0 0 0 0 0) [] 0)
  else None.

(** The empty index: 138 zero pointers and a newline. *)
Definition init_hash : bytes :=
  Nat.iter (Z.to_nat (NHASH_DEF + 1)) (fun hash => hash ++ fmt (Z.to_nat PTR_SZ) 0) [] ++ [NEWLINE].

Definition db_init (creat trunc : bool) : M DB unit :=
  (when creat && trunc do
     (writew_lock IDX 0 0 ;;
      st_size <- gets (fun d => Zlen (idx d)) ;;
      (when st_size =? 0 do write IDX init_hash) ;;
      un_lock IDX 0 0)) ;;
  db_rewind.

Definition db_open (mem : nat -> bool) (creat trunc : bool) : M files (option DB) := fun s =>
  match _db_alloc mem with
  | None => Exit 134 s
  | Some db =>
      let db := set_hashoff HASH_OFF (set_nhash NHASH_DEF db) in
      let fi := open_file (f_idx s) creat trunc in
      let fd := open_file (f_dat s) creat trunc in
      match fi, fd with
      | Some i, Some d =>
          match db_init creat trunc (set_dat d (set_idx i db)) with
          | Ret _ db => Ret (Some db) (Files (Some (idx db)) (Some (dat db)))
          | Exit c db => Exit c (Files (Some (idx db)) (Some (dat db)))
          | UB => UB
          | Diverge => Diverge
          end
      | _, _ => Ret None (Files fi fd)
      end
  end.

(** Closing leaves in the file system what the handle wrote. *)
Definition db_close (db : DB) : files := Files (Some (idx db)) (Some (dat db)).
