(* ===== verification/DbBytes.v ===== *)
(** DbBytes: what the two files of db.c contain. An abstract store is a list of
    138 pointers (the free list's and one per hash bucket), a list of index
    records and a list of data records; [repr] says which bytes represent it, and
    each primitive of Db is shown to read and write it field by field. *)
From stdpp Require Import sets list strings.
From S2P Require Import Prelude Arrays Bytes Db.

Record irec := IRec { ir_ptr : Z; ir_key : bytes; ir_off : Z; ir_len : Z }.

Definition ir_line (r : irec) : bytes := record_line (ir_key r) (ir_off r) (ir_len r).
Definition enc_irec (r : irec) : bytes :=
  fmt 7 (ir_ptr r) ++ fmt 4 (Zlen (ir_line r)) ++ ir_line r.
Definition enc_drec (d : bytes) : bytes := d ++ [NEWLINE].

Record store := Store { s_slots : list Z; s_irecs : list irec; s_drecs : list bytes }.

Definition BASE : Z := 967.
Definition hdr (slots : list Z) : bytes := layout (fmt 7) slots ++ [NEWLINE].

Definition wf_ptr (p : Z) : Prop := 0 <= p <= PTR_MAX.
Definition wf_irec (r : irec) : Prop :=
  wf_ptr (ir_ptr r) /\ no_nul (ir_key r) /\ (SEP ∉ ir_key r) /\
  0 <= ir_off r < 2 ^ 63 /\ DATLEN_MIN <= ir_len r <= DATLEN_MAX /\
  IDXLEN_MIN <= Zlen (ir_line r) <= IDXLEN_MAX.
Definition wf_drec (d : bytes) : Prop := no_nul d.

Record wf_store (s : store) : Prop := {
  wf_slots_len : Zlen (s_slots s) = NHASH_DEF + 1;
  wf_slots : Forall wf_ptr (s_slots s);
  wf_irecs : Forall wf_irec (s_irecs s);
  wf_drecs : Forall wf_drec (s_drecs s);
}.

Definition find_i (s : store) (o : Z) : option irec := find_at enc_irec BASE (s_irecs s) o.
Definition find_d (s : store) (o : Z) : option bytes := find_at enc_drec 0 (s_drecs s) o.

Record repr (s : store) (d : DB) : Prop := {
  repr_wf : wf_store s;
  repr_idx : idx d = hdr (s_slots s) ++ layout enc_irec (s_irecs s);
  repr_dat : dat d = layout enc_drec (s_drecs s);
  repr_nhash : nhash d = NHASH_DEF;
  repr_hashoff : hashoff d = HASH_OFF;
}.

(** ** Lengths *)

Lemma fmt7_len p : wf_ptr p -> Zlen (fmt 7 p) = 7.
Proof. intros [? ?]. unfold Zlen. rewrite fmt_length; unfold PTR_MAX in *; simpl; lia. Qed.

Lemma layout_fmt7_len slots : Forall wf_ptr slots -> Zlen (layout (fmt 7) slots) = 7 * Zlen slots.
Proof.
  induction 1 as [|p l Hp Hl IH]; [done|].
  rewrite layout_cons, Zlen_app, IH, fmt7_len by done. unfold Zlen. simpl length. lia.
Qed.

Lemma hdr_len s : wf_store s -> Zlen (hdr (s_slots s)) = BASE.
Proof.
  intros Hs. unfold hdr. rewrite Zlen_app, layout_fmt7_len, (wf_slots_len s Hs) by apply Hs. done.
Qed.

Lemma enc_irec_len r : wf_irec r -> Zlen (enc_irec r) = 11 + Zlen (ir_line r).
Proof.
  intros (Hp & _ & _ & _ & _ & Hl). unfold enc_irec. rewrite !Zlen_app, fmt7_len by done.
  unfold Zlen at 1. rewrite fmt_length; unfold IDXLEN_MIN, IDXLEN_MAX in *; simpl; lia.
Qed.

Lemma enc_drec_len d : Zlen (enc_drec d) = Zlen d + 1.
Proof. unfold enc_drec. by rewrite Zlen_app. Qed.

Lemma find_i_wf s o r : wf_store s -> find_i s o = Some r -> wf_irec r /\ BASE <= o.
Proof.
  intros Hs Hf. pose proof (wf_irecs s Hs) as Hw. rewrite Forall_forall in Hw.
  split; [apply Hw; by eapply find_at_elem|]. by apply find_at_range in Hf as [? _].
Qed.

Lemma find_d_wf s o x : wf_store s -> find_d s o = Some x -> no_nul x /\ 0 <= o.
Proof.
  intros Hs Hf. pose proof (wf_drecs s Hs) as Hw. rewrite Forall_forall in Hw.
  split; [apply Hw; by eapply find_at_elem|]. by apply find_at_range in Hf as [? _].
Qed.

(** ** Updating the abstract store *)

Definition set_slot (s : store) (b v : Z) : store :=
  Store (aset (s_slots s) b v) (s_irecs s) (s_drecs s).
Definition set_irec (s : store) (o : Z) (r : irec) : store :=
  Store (s_slots s) (upd_at enc_irec BASE (s_irecs s) o r) (s_drecs s).
Definition set_drec (s : store) (o : Z) (x : bytes) : store :=
  Store (s_slots s) (s_irecs s) (upd_at enc_drec 0 (s_drecs s) o x).
Definition add_irec (s : store) (r : irec) : store :=
  Store (s_slots s) (s_irecs s ++ [r]) (s_drecs s).
Definition add_drec (s : store) (x : bytes) : store :=
  Store (s_slots s) (s_irecs s) (s_drecs s ++ [x]).
Definition end_i (s : store) : Z := BASE + Zlen (layout enc_irec (s_irecs s)).
Definition end_d (s : store) : Z := Zlen (layout enc_drec (s_drecs s)).

Lemma wf_set_slot s b v : wf_store s -> wf_ptr v -> wf_store (set_slot s b v).
Proof.
  intros [Hl Hs Hi Hd] Hv. split; simpl; [by rewrite Zlen_aset| |done|done].
  by apply Forall_insert.
Qed.

Lemma wf_set_irec s o r : wf_store s -> wf_irec r -> wf_store (set_irec s o r).
Proof. intros [Hl Hs Hi Hd] Hr. split; simpl; [done..| |done]. by apply upd_at_Forall. Qed.

Lemma wf_set_drec s o x : wf_store s -> wf_drec x -> wf_store (set_drec s o x).
Proof. intros [Hl Hs Hi Hd] Hr. split; simpl; [done..|]. by apply upd_at_Forall. Qed.

Lemma wf_add_irec s r : wf_store s -> wf_irec r -> wf_store (add_irec s r).
Proof.
  intros [Hl Hs Hi Hd] Hr. split; simpl; [done..| |done]. apply Forall_app. split; [done|].
  by constructor.
Qed.

Lemma wf_add_drec s x : wf_store s -> wf_drec x -> wf_store (add_drec s x).
Proof.
  intros [Hl Hs Hi Hd] Hr. split; simpl; [done..|]. apply Forall_app. split; [done|].
  by constructor.
Qed.

(** ** Reading *)

Lemma slot_split s b : wf_store s -> 0 <= b <= NHASH_DEF ->
  exists pre post, s_slots s = pre ++ aget (s_slots s) b :: post /\
    Zlen (layout (fmt 7) pre) = 7 * b /\
    forall v, aset (s_slots s) b v = pre ++ v :: post.
Proof.
  intros Hs Hb. pose proof (wf_slots_len s Hs) as Hl. pose proof (wf_slots s Hs) as Hw.
  unfold NHASH_DEF in *. set (l := s_slots s) in *. set (n := Z.to_nat b).
  assert (Hn : l !! n = Some (aget l b)) by (apply aget_lookup; lia).
  exists (take n l), (drop (S n) l). pose proof (take_drop_middle l n _ Hn) as E.
  split; [done|]. split.
  - rewrite layout_fmt7_len by by apply Forall_take. unfold Zlen in *. rewrite length_take. lia.
  - intros v. unfold aset. fold n. rewrite <-E at 1.
    assert (length (take n l) = n) as Hlt by (unfold Zlen in *; rewrite length_take; lia).
    rewrite insert_app_r_alt by lia. by rewrite Hlt, Nat.sub_diag.
Qed.

Lemma wf_slot s b : wf_store s -> 0 <= b <= NHASH_DEF -> wf_ptr (aget (s_slots s) b).
Proof.
  intros Hs Hb. pose proof (wf_slots s Hs) as Hw. rewrite Forall_forall in Hw. apply Hw.
  apply list_elem_of_lookup. exists (Z.to_nat b). apply aget_lookup.
  rewrite (wf_slots_len s Hs). unfold NHASH_DEF in *. lia.
Qed.

Lemma lseek_set f o (Q : Z -> DB -> Prop) X d : 0 <= o -> Q o (set_fpos f o d) ->
  wp (lseek f o SEEK_SET) Q X d.
Proof. intros Ho HQ. unfold wp, lseek. by rewrite (proj2 (Z.ltb_ge _ _)). Qed.

Lemma lseek_cur f (Q : Z -> DB -> Prop) X d : 0 <= fpos f d ->
  Q (fpos f d) (set_fpos f (fpos f d) d) -> wp (lseek f 0 SEEK_CUR) Q X d.
Proof.
  intros Ho HQ. unfold wp, lseek. rewrite Z.add_0_r. by rewrite (proj2 (Z.ltb_ge _ _)).
Qed.

Lemma lseek_end f (Q : Z -> DB -> Prop) X d :
  Q (Zlen (file f d)) (set_fpos f (Zlen (file f d)) d) -> wp (lseek f 0 SEEK_END) Q X d.
Proof.
  intros HQ. unfold wp, lseek. rewrite Z.add_0_r. pose proof (Zlen_nonneg (file f d)).
  by rewrite (proj2 (Z.ltb_ge _ _)).
Qed.

Lemma wp_read f n b (Q : bytes -> DB -> Prop) X d : slice (file f d) (fpos f d) n = b ->
  Q b (set_fpos f (fpos f d + Zlen b) d) -> wp (read f n) Q X d.
Proof. intros <- HQ. done. Qed.

Lemma wp_read_idx n b (Q : bytes -> DB -> Prop) X d : slice (idx d) (idxpos d) n = b ->
  Q b (set_idxpos (idxpos d + Zlen b) d) -> wp (read IDX n) Q X d.
Proof. intros <- HQ. done. Qed.

(** [_db_readptr] is only ever called on one of the 138 pointers of the header. *)
Lemma wp_readptr s b (Q : Z -> DB -> Prop) X d : repr s d -> 0 <= b <= NHASH_DEF ->
  Q (aget (s_slots s) b) (set_idxpos (7 * b + 7) d) -> wp (_db_readptr (7 * b)) Q X d.
Proof.
  intros Hr Hb HQ. pose proof (repr_wf s d Hr) as Hs. pose proof (wf_slot s b Hs Hb) as Hw.
  destruct (slot_split s b Hs Hb) as (pre & post & E & Hlen & _).
  set (v := aget (s_slots s) b) in *.
  unfold _db_readptr. wstep. apply lseek_set; [lia|]. wstep.
  rewrite (proj2 (Z.eqb_neq _ _)) by lia. wsteps.
  apply wp_read_idx with (b := fmt 7 v).
  { change (slice (idx d) (7 * b) PTR_SZ = fmt 7 v). rewrite (repr_idx s d Hr).
    unfold hdr. rewrite E, layout_app, layout_cons, <-!(assoc_L (++)).
    apply slice_slice_app; [done|]. by rewrite fmt7_len. }
  wstep. rewrite fmt7_len by done. wsteps; [done|].
  rewrite <-(app_nil_r (fmt 7 v)), atol_fmt by (done || apply Hw). exact HQ.
Qed.

(** The handle after the record [r] at [o] was read. *)
Definition loaded (o : Z) (r : irec) (d : DB) : DB :=
  set_datlen (ir_len r) (set_datoff (ir_off r) (set_idxbuf (ir_key r)
    (set_idxpos (o + Zlen (enc_irec r)) (set_idxlen (Zlen (ir_line r))
      (set_ptrval (ir_ptr r) (set_idxoff o d)))))).

Lemma ir_line_split r : ir_line r =
  (ir_key r ++ SEP :: (dec (ir_off r) ++ SEP :: dec (ir_len r))) ++ [NEWLINE].
Proof. unfold ir_line, record_line. simpl. rewrite <-!(assoc_L (++)). simpl. by rewrite <-!(assoc_L (++)). Qed.

Lemma no_nul_dec n : 0 <= n -> no_nul (dec n).
Proof. intros. by apply dec_no. Qed.

Lemma no_nul_app a b : no_nul (a ++ b) <-> no_nul a /\ no_nul b.
Proof. unfold no_nul. rewrite elem_of_app. tauto. Qed.

Lemma no_nul_cons x a : x <> NUL -> no_nul a -> no_nul (x :: a).
Proof. unfold no_nul. rewrite elem_of_cons. naive_solver. Qed.

Lemma dec_no_sep n : 0 <= n -> SEP ∉ dec n.
Proof. intros. by apply dec_no. Qed.

Lemma aget_last (a : bytes) x : aget (a ++ [x]) (Zlen (a ++ [x]) - 1) = x.
Proof.
  unfold aget, Zlen. rewrite length_app. simpl.
  replace (Z.to_nat _) with (length a) by lia. rewrite list_lookup_total_alt.
  by rewrite lookup_app_r, Nat.sub_diag by lia.
Qed.

Lemma take_last (a : bytes) x : take (Z.to_nat (Zlen (a ++ [x]) - 1)) (a ++ [x]) = a.
Proof.
  unfold Zlen. rewrite length_app. simpl.
  replace (Z.to_nat _) with (length a) by lia. apply take_app_length.
Qed.

Lemma wp_parse_record r (Q : Z -> DB -> Prop) X d : wf_irec r ->
  Q (ptrval d) (set_datlen (ir_len r) (set_datoff (ir_off r) (set_idxbuf (ir_key r) d))) ->
  wp (parse_record (ir_key r ++ SEP :: (dec (ir_off r) ++ SEP :: dec (ir_len r)))) Q X d.
Proof.
  intros (_ & _ & Hk & Hoff & Hlen & _) HQ. unfold DATLEN_MIN, DATLEN_MAX in *.
  unfold parse_record. rewrite split_at_app by done. wstep. wstep.
  rewrite split_at_app by (apply dec_no_sep; lia). rewrite split_at_none by (apply dec_no_sep; lia).
  assert (Hatol : forall n, 0 <= n -> atol (dec n) = n).
  { intros n Hn. rewrite <-(app_nil_r (dec n)). by apply atol_digits. }
  assert (Hu : u64 (ir_len r) = ir_len r) by (unfold u64; rewrite Z.mod_small; lia).
  unfold atol_long. rewrite !Hatol by lia. unfold DATLEN_MAX.
  wsteps; try lia; rewrite ?Hu in *; try lia. exact HQ.
Qed.

Lemma ir_line_no_nul r : wf_irec r ->
  no_nul (ir_key r ++ SEP :: (dec (ir_off r) ++ SEP :: dec (ir_len r))).
Proof.
  intros (_ & Hk & _ & Hoff & Hlen & _). unfold DATLEN_MIN in *.
  apply no_nul_app. split; [done|]. apply no_nul_cons; [done|].
  apply no_nul_app. split; [apply no_nul_dec; lia|]. apply no_nul_cons; [done|].
  apply no_nul_dec. lia.
Qed.

Lemma find_i_slices s d o r : repr s d -> find_i s o = Some r ->
  slice (idx d) o 11 = fmt 7 (ir_ptr r) ++ fmt 4 (Zlen (ir_line r)) /\
  slice (idx d) (o + 11) (Zlen (ir_line r)) = ir_line r.
Proof.
  intros Hr Hf. pose proof (repr_wf s d Hr) as Hs.
  destruct (find_i_wf s o r Hs Hf) as [Hw Ho].
  pose proof (enc_irec_len r Hw) as Hl. destruct Hw as (Hp & _ & _ & _ & _ & Hlen).
  unfold find_i in Hf. rewrite <-(hdr_len s Hs) in Hf.
  destruct (find_at_split _ _ _ _ _ r Hf) as (pre & post & E & _ & Ho').
  rewrite (repr_idx s d Hr), E, layout_app, layout_cons. unfold enc_irec in *.
  rewrite Zlen_app, fmt7_len in Hl by done. set (a := fmt 7 (ir_ptr r)) in *.
  rewrite (assoc_L (++) (hdr _)), <-!(assoc_L (++)), Zlen_app in *.
  set (f := fmt 4 (Zlen (ir_line r))) in *. assert (Zlen a = 7) by by apply fmt7_len.
  rewrite !(assoc_L (++)). split.
  - rewrite <-!(assoc_L (++)). rewrite (assoc_L (++) (hdr _)), (assoc_L (++) a).
    apply slice_slice_app; rewrite ?Zlen_app; lia.
  - rewrite <-(assoc_L (++)). apply slice_slice_app; rewrite ?Zlen_app; lia.
Qed.

(** Reading the record at [o], either by its offset or, with offset 0, as the next
    one in the file. *)
Lemma wp_readidx s o off r (Q : Z -> DB -> Prop) X d : repr s d -> find_i s o = Some r ->
  off = o \/ off = 0 /\ idxpos d = o -> Q (ir_ptr r) (loaded o r d) ->
  wp (_db_readidx off) Q X d.
Proof.
  intros Hr Hf Hoff HQ. pose proof (repr_wf s d Hr) as Hs.
  destruct (find_i_wf s o r Hs Hf) as [Hw Ho]. unfold BASE in Ho.
  destruct (find_i_slices s d o r Hr Hf) as [Hs1 Hs2].
  pose proof (enc_irec_len r Hw) as Hel. pose proof Hw as (Hp & _ & _ & _ & _ & Hlen).
  assert (Hf7 : length (fmt 7 (ir_ptr r)) = 7%nat)
    by (pose proof (fmt7_len _ Hp); unfold Zlen in *; lia).
  assert (Hl11 : Zlen (fmt 7 (ir_ptr r) ++ fmt 4 (Zlen (ir_line r))) = 11).
  { unfold enc_irec in Hel. rewrite (assoc_L (++)), Zlen_app in Hel. lia. }
  unfold _db_readidx. wstep.
  apply wp_mono with (Q := fun v d' => v = o /\ d' = set_idxpos o d) (X := X); [| |done].
  { destruct Hoff as [->|[-> <-]].
    - rewrite (proj2 (Z.eqb_neq o 0)) by lia. apply lseek_set; [lia|done].
    - simpl. apply lseek_cur; [simpl; lia|done]. }
  intros v d' [-> ->]. wstep. wstep. rewrite (proj2 (Z.eqb_neq o (-1))) by lia. wstep. wstep.
  wstep. apply wp_read_idx with (b := fmt 7 (ir_ptr r) ++ fmt 4 (Zlen (ir_line r))); [exact Hs1|].
  cbv beta. rewrite Hl11. change (negb (11 =? PTR_SZ + IDXLEN_SZ)) with false. cbv iota.
  change (Z.to_nat PTR_SZ) with 7%nat.
  rewrite take_app_length', drop_app_length' by lia.
  rewrite <-(app_nil_r (fmt 7 (ir_ptr r))), <-(app_nil_r (fmt 4 _)), !atol_fmt
    by (done || apply Hp || apply Zlen_nonneg).
  assert (Hu : u64 (Zlen (ir_line r)) = Zlen (ir_line r))
    by (unfold u64, IDXLEN_MIN, IDXLEN_MAX in *; rewrite Z.mod_small; lia).
  rewrite Hu. unfold IDXLEN_MIN, IDXLEN_MAX in *.
  wstep. wstep. wstep. wstep. wstep. wstep. wstep. apply wp_unless; [simpl; lia|].
  wstep. apply wp_read_idx with (b := ir_line r); [exact Hs2|].
  wstep. apply wp_unless; [simpl; lia|]. wstep.
  assert (Hnl : aget (ir_line r) (Zlen (ir_line r) - 1) = NEWLINE)
    by (rewrite ir_line_split; apply aget_last).
  apply wp_unless; [simpl; by rewrite Hnl|].
  change (wp (parse_record (cstr (take (Z.to_nat (Zlen (ir_line r) - 1)) (ir_line r)))) Q X
    (set_idxpos (o + 11 + Zlen (ir_line r)) (set_idxlen (Zlen (ir_line r))
      (set_ptrval (ir_ptr r) (set_idxpos (o + 11) (set_idxoff o d)))))).
  replace (take (Z.to_nat (Zlen (ir_line r) - 1)) (ir_line r))
    with (ir_key r ++ SEP :: (dec (ir_off r) ++ SEP :: dec (ir_len r)))
    by (rewrite ir_line_split; symmetry; apply take_last).
  rewrite cstr_id by by apply ir_line_no_nul.
  apply wp_parse_record; [done|]. unfold loaded in HQ. rewrite Hel, Z.add_assoc in HQ. exact HQ.
Qed.

(** At the end of the index [_db_readidx(db, 0)] returns -1. *)
Lemma wp_readidx_eof s (Q : Z -> DB -> Prop) X d : repr s d -> idxpos d = Zlen (idx d) ->
  Q (-1) (set_idxpos (idxpos d) (set_idxoff (idxpos d) d)) -> wp (_db_readidx 0) Q X d.
Proof.
  intros Hr Hpos HQ. pose proof (Zlen_nonneg (idx d)). unfold _db_readidx. wstep.
  apply lseek_cur; [simpl; lia|]. wsteps; simpl in *; [lia|].
  apply wp_read_idx with (b := []).
  { unfold slice, seg. simpl. rewrite skipn_all2; [by rewrite take_nil|].
    rewrite Hpos. unfold Zlen. lia. }
  simpl. rewrite Z.add_0_r. exact HQ.
Qed.

Lemma wp_readdat s x (Q : bytes -> DB -> Prop) X d : repr s d ->
  find_d s (datoff d) = Some x -> datlen d = Zlen x + 1 ->
  Q x (set_datbuf x (set_datpos (datoff d + datlen d) d)) -> wp _db_readdat Q X d.
Proof.
  intros Hr Hf Hn HQ. pose proof (repr_wf s d Hr) as Hs.
  destruct (find_d_wf s _ x Hs Hf) as [Hnul Ho].
  assert (Hsl : slice (dat d) (datoff d) (datlen d) = enc_drec x).
  { rewrite (repr_dat s d Hr), Hn, <-enc_drec_len. by apply (slice_find enc_drec []). }
  unfold _db_readdat. wstep. wstep. wstep. apply lseek_set; [done|]. wstep.
  apply wp_unless; [lia|]. wstep. wstep. wstep.
  apply wp_read with (b := enc_drec x); [exact Hsl|].
  wstep. apply wp_unless; [simpl; rewrite enc_drec_len; lia|].
  assert (Hlast : aget (enc_drec x) (datlen d - 1) = NEWLINE)
    by (rewrite Hn, <-enc_drec_len; apply aget_last).
  assert (Hcs : cstr (take (Z.to_nat (datlen d - 1)) (enc_drec x)) = x).
  { rewrite Hn, <-enc_drec_len. unfold enc_drec. by rewrite take_last, cstr_id. }
  wstep. apply wp_unless; [simpl; by rewrite Hlast|]. wstep. wstep. wstep. simpl.
  rewrite !Hcs, enc_drec_len, <-Hn. exact HQ.
Qed.

(** ** Writing *)

Lemma wp_write_idx b (Q : unit -> DB -> Prop) X d :
  Q tt (set_idxpos (idxpos d + Zlen b) (set_idx (file_write (idx d) (idxpos d) b) d)) ->
  wp (write IDX b) Q X d.
Proof. done. Qed.

Lemma wp_write_dat b (Q : unit -> DB -> Prop) X d :
  Q tt (set_datpos (datpos d + Zlen b) (set_dat (file_write (dat d) (datpos d) b) d)) ->
  wp (write DAT b) Q X d.
Proof. done. Qed.

Lemma wp_writeptr_slot s b v (Q : unit -> DB -> Prop) X d : repr s d -> 0 <= b <= NHASH_DEF ->
  wf_ptr v ->
  (forall y p, repr (set_slot s b v) (set_idxpos p (set_idx y d)) ->
     Q tt (set_idxpos p (set_idx y d))) ->
  wp (_db_writeptr (7 * b) v) Q X d.
Proof.
  intros Hr Hb Hv HQ. pose proof (repr_wf s d Hr) as Hs. pose proof (wf_slot s b Hs Hb) as Hw.
  destruct (slot_split s b Hs Hb) as (pre & post & E & Hlen & Hset).
  pose proof (fmt7_len v Hv) as H7. pose proof (fmt7_len _ Hw) as H7'.
  unfold _db_writeptr. unfold wf_ptr in Hv. wstep. apply wp_unless; [lia|]. wstep.
  apply lseek_set; [lia|]. wstep. apply wp_unless; [lia|].
  change (Z.to_nat PTR_SZ) with 7%nat. rewrite take_ge by (unfold Zlen in *; lia).
  apply wp_write_idx, (HQ (file_write (idx d) (7 * b) (fmt 7 v))).
  split; [by apply wf_set_slot| |apply Hr..].
  change (file_write (idx d) (7 * b) (fmt 7 v)
          = hdr (aset (s_slots s) b v) ++ layout enc_irec (s_irecs s)).
  rewrite (repr_idx s d Hr), Hset. rewrite E at 1. unfold hdr.
  rewrite !layout_app, !layout_cons, <-!(assoc_L (++)), <-Hlen.
  apply file_write_app. unfold Zlen in *. lia.
Qed.

Lemma wp_writeptr_rec s o r v (Q : unit -> DB -> Prop) X d : repr s d ->
  find_i s o = Some r -> wf_ptr v ->
  (forall y p, repr (set_irec s o (IRec v (ir_key r) (ir_off r) (ir_len r)))
                 (set_idxpos p (set_idx y d)) -> Q tt (set_idxpos p (set_idx y d))) ->
  wp (_db_writeptr o v) Q X d.
Proof.
  intros Hr Hf Hv HQ. pose proof (repr_wf s d Hr) as Hs.
  destruct (find_i_wf s o r Hs Hf) as [Hw Ho]. unfold BASE in Ho.
  pose proof (fmt7_len v Hv) as H7. pose proof (fmt7_len _ (proj1 Hw)) as H7'.
  unfold _db_writeptr. pose proof Hv as [? ?]. wstep. apply wp_unless; [lia|]. wstep.
  apply lseek_set; [lia|]. wstep. apply wp_unless; [lia|].
  change (Z.to_nat PTR_SZ) with 7%nat. rewrite take_ge by (unfold Zlen in *; lia).
  apply wp_write_idx, (HQ (file_write (idx d) o (fmt 7 v))).
  set (r' := IRec v (ir_key r) (ir_off r) (ir_len r)).
  split; [| |apply Hr..].
  { apply wf_set_irec; [done|]. split; [done|]. apply Hw. }
  change (file_write (idx d) o (fmt 7 v)
          = hdr (s_slots s) ++ layout enc_irec (upd_at enc_irec BASE (s_irecs s) o r')).
  rewrite (repr_idx s d Hr). unfold find_i in Hf. rewrite <-(hdr_len s Hs) in Hf |- *.
  apply (write_find_prefix enc_irec _ _ _ r _ (fmt 7 (ir_ptr r)) _
           (fmt 4 (Zlen (ir_line r)) ++ ir_line r)); [done..|].
  unfold Zlen in *. lia.
Qed.

(** The locks left when a lock is given back. *)
Definition unlocked (f : fdesc) (off len : Z) (ls : list lock) : list lock :=
  filter (fun l => ~ (l_fd l = f /\ l_off l = off /\ l_len l = len)) ls.

Lemma unlocked_cons f w off len ls :
  unlocked f off len (Lock f w off len :: ls) = unlocked f off len ls.
Proof. unfold unlocked. rewrite filter_cons_False; [done|]. simpl. tauto. Qed.

Lemma wp_un_lock f off len (Q : unit -> DB -> Prop) X d :
  Q tt (set_locks (unlocked f off len (locks d)) d) -> wp (un_lock f off len) Q X d.
Proof. done. Qed.

Lemma layout_len_nonneg {R} (enc : R -> bytes) l : 0 <= Zlen (layout enc l).
Proof. apply Zlen_nonneg. Qed.

Lemma repr_idx_len s d : repr s d -> Zlen (idx d) = end_i s.
Proof. intros Hr. by rewrite (repr_idx s d Hr), Zlen_app, (hdr_len s (repr_wf s d Hr)). Qed.

Lemma repr_dat_len s d : repr s d -> Zlen (dat d) = end_d s.
Proof. intros Hr. by rewrite (repr_dat s d Hr). Qed.

Lemma wp_writedat_set s data y (Q : unit -> DB -> Prop) X d : repr s d ->
  find_d s (datoff d) = Some y -> length y = length data -> no_nul data ->
  (forall p b, let d' := set_datpos p (set_dat b (set_datlen (Zlen data + 1) d)) in
     repr (set_drec s (datoff d) data) d' -> Q tt d') ->
  wp (_db_writedat data (datoff d) SEEK_SET) Q X d.
Proof.
  intros Hr Hf Hlen Hnul HQ. pose proof (repr_wf s d Hr) as Hs.
  destruct (find_d_wf s _ y Hs Hf) as [_ Ho].
  unfold _db_writedat. wstep. wstep. wstep. apply lseek_set; [done|]. wstep. wstep. wstep.
  apply wp_unless; [lia|]. wstep. wstep. wstep.
  apply wp_write_dat. wstep.
  apply (HQ (datoff d + Zlen (data ++ [NEWLINE])) (file_write (dat d) (datoff d) (data ++ [NEWLINE]))).
  split; [by apply wf_set_drec|apply Hr| |apply Hr..].
  change (file_write (dat d) (datoff d) (enc_drec data)
          = layout enc_drec (upd_at enc_drec 0 (s_drecs s) (datoff d) data)).
  rewrite (repr_dat s d Hr). apply (write_find enc_drec [] _ _ y); [done|].
  unfold enc_drec. rewrite !length_app. lia.
Qed.

Lemma wp_writedat_end s data (Q : unit -> DB -> Prop) X d : repr s d -> no_nul data ->
  (forall p b, let d' := set_locks (unlocked DAT 0 0 (locks d)) (set_datpos p (set_dat b
       (set_datlen (Zlen data + 1) (set_datoff (end_d s) d)))) in
     repr (add_drec s data) d' -> Q tt d') ->
  wp (_db_writedat data 0 SEEK_END) Q X d.
Proof.
  intros Hr Hnul HQ. pose proof (repr_wf s d Hr) as Hs.
  pose proof (repr_dat_len s d Hr) as Hlen. pose proof (layout_len_nonneg enc_drec (s_drecs s)).
  unfold _db_writedat, writew_lock. wstep. wstep. wstep. apply lseek_end. wstep. wstep. wstep.
  unfold file at 1. change (dat (set_locks _ d)) with (dat d).
  change (file DAT (set_locks (Lock DAT true 0 0 :: locks d) d)) with (dat d). rewrite Hlen.
  apply wp_unless; [unfold end_d; lia|]. wstep. wstep. wstep.
  apply wp_write_dat. apply wp_un_lock. cbn [locks set_locks set_datpos set_dat set_datlen set_datoff set_fpos].
  rewrite unlocked_cons.
  apply (HQ (end_d s + Zlen (data ++ [NEWLINE])) (file_write (dat d) (end_d s) (data ++ [NEWLINE]))).
  split; [by apply wf_add_drec|apply Hr| |apply Hr..].
  change (file_write (dat d) (end_d s) (enc_drec data) = layout enc_drec (s_drecs s ++ [data])).
  rewrite <-Hlen, file_write_end, layout_app, layout_one. by rewrite (repr_dat s d Hr).
Qed.

Lemma enc_irec_take r : wf_irec r ->
  take (Z.to_nat (PTR_SZ + IDXLEN_SZ)) (fmt 7 (ir_ptr r) ++ fmt 4 (Zlen (ir_line r))) ++ ir_line r
  = enc_irec r.
Proof.
  intros Hw. pose proof (enc_irec_len r Hw) as Hl. unfold enc_irec in *.
  rewrite (assoc_L (++)), Zlen_app in Hl. rewrite take_ge; [by rewrite (assoc_L (++))|].
  change (Z.to_nat (PTR_SZ + IDXLEN_SZ)) with 11%nat. unfold Zlen in *. lia.
Qed.

(** What [_db_writeidx] has stored in the handle when it is about to write. *)
Definition line_set (r : irec) (d : DB) : DB := set_idxbuf (ir_line r) (set_ptrval (ir_ptr r) d).

Lemma wp_writeidx_set s o r0 key ptr (Q : unit -> DB -> Prop) X d : repr s d ->
  find_i s o = Some r0 ->
  let r := IRec ptr key (datoff d) (datlen d) in
  wf_irec r -> Zlen (ir_line r) = Zlen (ir_line r0) ->
  (forall p b, let d' := set_idxpos p (set_idx b (set_idxoff o (line_set r d))) in
     repr (set_irec s o r) d' -> Q tt d') ->
  wp (_db_writeidx key o SEEK_SET ptr) Q X d.
Proof.
  intros Hr Hf r Hw Hlen HQ. pose proof (repr_wf s d Hr) as Hs.
  destruct (find_i_wf s o r0 Hs Hf) as [Hw0 Ho]. unfold BASE in Ho.
  pose proof Hw as ((? & ?) & _ & _ & _ & _ & Hl). pose proof (enc_irec_take r Hw) as Htake.
  unfold IDXLEN_MIN, IDXLEN_MAX in Hl.
  unfold _db_writeidx. wstep. wstep. wstep. apply wp_unless; [simpl in *; lia|].
  wstep. wstep. wstep. wstep.
  change (record_line key (datoff (set_ptrval ptr d)) (datlen (set_ptrval ptr d))) with (ir_line r).
  cbv zeta. unfold IDXLEN_MIN, IDXLEN_MAX.
  wstep. apply wp_guard; [lia|]. wstep. wstep. wstep. apply wp_unless; [lia|].
  wstep. wstep. wstep. wstep. wstep. apply lseek_set; [lia|]. wstep. wstep. wstep.
  apply wp_unless; [lia|]. wstep. change (Z.to_nat PTR_SZ) with 7%nat.
  change (Z.to_nat IDXLEN_SZ) with 4%nat. change ptr with (ir_ptr r) at 1. rewrite Htake.
  apply wp_write_idx. wstep.
  apply (HQ (o + Zlen (enc_irec r)) (file_write (idx d) o (enc_irec r))).
  split; [by apply wf_set_irec| |apply Hr..].
  change (file_write (idx d) o (enc_irec r)
          = hdr (s_slots s) ++ layout enc_irec (upd_at enc_irec BASE (s_irecs s) o r)).
  rewrite (repr_idx s d Hr). unfold find_i in Hf. rewrite <-(hdr_len s Hs) in Hf |- *.
  apply (write_find enc_irec _ _ _ r0); [done|].
  pose proof (enc_irec_len r Hw). pose proof (enc_irec_len r0 Hw0). unfold Zlen in *. lia.
Qed.

Lemma wp_writeidx_end s key ptr (Q : unit -> DB -> Prop) X d : repr s d ->
  let r := IRec ptr key (datoff d) (datlen d) in
  wf_irec r ->
  (forall p b, let d' := set_locks (unlocked IDX BASE 0 (locks d)) (set_idxpos p (set_idx b
       (set_idxoff (end_i s) (line_set r d)))) in
     repr (add_irec s r) d' -> Q tt d') ->
  wp (_db_writeidx key 0 SEEK_END ptr) Q X d.
Proof.
  intros Hr r Hw HQ. pose proof (repr_wf s d Hr) as Hs.
  pose proof (repr_idx_len s d Hr) as Hlen. pose proof (layout_len_nonneg enc_irec (s_irecs s)).
  pose proof Hw as ((? & ?) & _ & _ & _ & _ & Hl). pose proof (enc_irec_take r Hw) as Htake.
  unfold IDXLEN_MIN, IDXLEN_MAX in Hl.
  unfold _db_writeidx, writew_lock. wstep. wstep. wstep. apply wp_unless; [simpl in *; lia|].
  wstep. wstep. wstep. wstep.
  change (record_line key (datoff (set_ptrval ptr d)) (datlen (set_ptrval ptr d))) with (ir_line r).
  cbv zeta. unfold IDXLEN_MIN, IDXLEN_MAX.
  wstep. apply wp_guard; [lia|]. wstep. wstep. wstep. apply wp_unless; [lia|].
  wstep. wstep. wstep. wstep.
  change (nhash (set_idxbuf (ir_line r) (set_ptrval ptr d))) with (nhash d).
  rewrite (repr_nhash s d Hr). change ((NHASH_DEF + 1) * PTR_SZ + 1) with BASE.
  wstep. apply lseek_end.
  match goal with |- context [Zlen (file IDX ?d')] => change (file IDX d') with (idx d) end.
  rewrite Hlen. wstep. wstep. wstep.
  apply wp_unless; [unfold end_i, BASE; lia|]. wstep. change (Z.to_nat PTR_SZ) with 7%nat.
  change (Z.to_nat IDXLEN_SZ) with 4%nat. change ptr with (ir_ptr r) at 1. rewrite Htake.
  apply wp_write_idx. apply wp_un_lock.
  cbn [locks set_locks set_idxpos set_idx set_idxoff set_idxbuf set_ptrval set_fpos]. rewrite unlocked_cons.
  apply (HQ (end_i s + Zlen (enc_irec r)) (file_write (idx d) (end_i s) (enc_irec r))).
  split; [by apply wf_add_irec| |apply Hr..].
  change (file_write (idx d) (end_i s) (enc_irec r)
          = hdr (s_slots s) ++ layout enc_irec (s_irecs s ++ [r])).
  rewrite <-Hlen, file_write_end, layout_app, layout_one, (repr_idx s d Hr). by rewrite (assoc_L (++)).
Qed.
