(* ===== verification/DbLinks.v ===== *)
(** DbLinks: the linked structure inside the index of db.c, abstracted from bytes:
    the pointer at each address, the chains that start in the 138 header slots
    (slot 0 the free list, slot [b] the bucket [b]), what each record holds, and
    the key/value map that the whole stands for. *)
From stdpp Require Import sets gmap list.
From S2P Require Import Prelude Arrays Bytes Db DbBytes.

(** The products of [hash_loop] do not overflow. *)
Lemma hash_products_fit (key : bytes) (i : nat) (c : Z) : key !! i = Some c -> Zlen key <= 2 ^ 24 ->
  in_int (signed 8 c * (Z.of_nat i + 1)) = true.
Proof.
  intros Hi%lookup_lt_Some Hl. apply in_int_spec. unfold INT_MIN, INT_MAX, Zlen in *.
  assert (-128 <= signed 8 c <= 127).
  { unfold signed. pose proof (Z.mod_pos_bound c (2 ^ 8) ltac:(lia)). case_match; lia. }
  nia.
Qed.

(** The slot of a key: [chainoff] is seven times this. *)
Definition bucket (key : bytes) : Z := 1 + hash_loop key 1 0 mod NHASH_DEF.

Definition inr_ (b : Z) : Prop := 0 <= b <= NHASH_DEF.

Lemma bucket_range key : 1 <= bucket key <= NHASH_DEF.
Proof. unfold bucket, NHASH_DEF. pose proof (Z.mod_pos_bound (hash_loop key 1 0) 137). lia. Qed.

(** ** Chains of pointers *)

Section chains.
Implicit Types (g : Z -> option Z) (a o v : Z) (l : list Z).

(** The chain that starts with the pointer stored at [a] visits [l]. *)
Fixpoint chain (g : Z -> option Z) (a : Z) (l : list Z) : Prop :=
  match l with
  | [] => g a = Some 0
  | o :: l => g a = Some o /\ BASE <= o /\ chain g o l
  end.

(** The address holding the pointer that leads past [l]. *)
Definition prev (a : Z) (l : list Z) : Z := default a (last l).

Lemma prev_snoc a l o : prev a (l ++ [o]) = o.
Proof. unfold prev. by rewrite last_snoc. Qed.

Lemma prev_cons a o l : prev a (o :: l) = prev o l.
Proof. unfold prev. destruct l as [|x l]; [done|]. rewrite last_cons_cons.
  destruct (last (x :: l)) eqn:E; [done|]. by apply last_None in E. Qed.

Lemma prev_in a l : prev a l = a \/ prev a l ∈ l.
Proof.
  unfold prev. destruct (last l) as [x|] eqn:E; simpl; [right|by left].
  apply last_Some in E as [l' ->]. set_solver.
Qed.

Lemma chain_ext g g' a l : (forall x, x = a \/ x ∈ l -> g' x = g x) -> chain g a l -> chain g' a l.
Proof.
  revert a. induction l as [|o l IH]; intros a Hg; simpl; [by rewrite Hg by auto|].
  intros (Ha & Ho & Hl). rewrite Hg by auto. split; [done|]. split; [done|].
  apply IH; [|done]. intros x [->|Hx]; apply Hg; right; apply elem_of_cons; auto.
Qed.

Lemma chain_base g a l o : chain g a l -> o ∈ l -> BASE <= o.
Proof.
  revert a. induction l as [|x l IH]; intros a; simpl; [set_solver|].
  intros (_ & Hx & Hl) [->|Hin]%elem_of_cons; [done|by eapply IH].
Qed.

Lemma chain_split g a l1 o l2 : chain g a (l1 ++ o :: l2) ->
  g (prev a l1) = Some o /\ BASE <= o /\ chain g o l2.
Proof.
  revert a. induction l1 as [|x l1 IH]; intros a; simpl; [done|].
  intros (_ & _ & Hl). rewrite prev_cons. by apply IH.
Qed.

Lemma chain_end g a l : chain g a l -> g (prev a l) = Some 0.
Proof.
  revert a. induction l as [|x l IH]; intros a; simpl; [done|].
  intros (_ & _ & Hl). rewrite prev_cons. by apply IH.
Qed.

(** The pointer before [o] now skips it. *)
Lemma chain_unlink g g' a l1 o l2 v : chain g a (l1 ++ o :: l2) ->
  NoDup (a :: l1 ++ o :: l2) -> g o = Some v -> g' (prev a l1) = Some v ->
  (forall x, x = a \/ x ∈ l1 \/ x ∈ l2 -> x <> prev a l1 -> g' x = g x) ->
  chain g' a (l1 ++ l2).
Proof.
  intros Hc Hnd Ho Hp Hg. revert a Hc Hnd Hp Hg. induction l1 as [|x l1 IH]; intros a; simpl.
  - intros (_ & _ & Hc) [Ha Hnd]%NoDup_cons Hp Hg. apply NoDup_cons in Hnd as [Ho2 Hnd].
    change (prev a []) with a in *.
    destruct l2 as [|y l2]; simpl in *; [by rewrite Hp, <-Ho|].
    destruct Hc as (Hy & Hby & Hc). split; [by rewrite Hp, <-Ho|]. split; [done|].
    apply chain_ext with (2 := Hc). intros z Hz. apply Hg; set_solver.
  - intros (Ha & Hx & Hc) [Hna Hnd]%NoDup_cons Hp Hg. rewrite prev_cons in *.
    assert (prev x l1 <> a) by (destruct (prev_in x l1); set_solver).
    split; [rewrite Hg; [done|by left|done]|]. split; [done|].
    apply IH; [done..|]. intros z Hz. apply Hg. set_solver.
Qed.
End chains.

(** ** The header slots and their chains *)

Definition upd (ch : Z -> list Z) (b : Z) (l : list Z) : Z -> list Z :=
  fun x => if x =? b then l else ch x.

Lemma upd_eq ch b l : upd ch b l b = l.
Proof. unfold upd. by rewrite Z.eqb_refl. Qed.
Lemma upd_ne ch b b' l : b' <> b -> upd ch b l b' = ch b'.
Proof. intros. unfold upd. by rewrite (proj2 (Z.eqb_neq _ _)). Qed.

Record links (g : Z -> option Z) (ch : Z -> list Z) : Prop := {
  lk_chain : forall b, inr_ b -> chain g (7 * b) (ch b);
  lk_nodup : forall b, inr_ b -> NoDup (ch b);
  lk_disj : forall b b' o, inr_ b -> inr_ b' -> o ∈ ch b -> o ∈ ch b' -> b = b';
}.

Lemma links_base g ch b o : links g ch -> inr_ b -> o ∈ ch b -> BASE <= o.
Proof. intros Hl Hb. eapply chain_base. by apply (lk_chain g ch Hl). Qed.

(** Addresses of slots are below those of records. *)
Lemma slot_below b : inr_ b -> 7 * b < BASE.
Proof. unfold inr_, NHASH_DEF, BASE. lia. Qed.

Section moves.
Context (g g' : Z -> option Z) (ch : Z -> list Z) (Hl : links g ch).
Implicit Types (b o : Z).

(** A new record is put in front of the chain [b]. *)
Lemma links_push b o h : inr_ b -> BASE <= o -> (forall c, inr_ c -> o ∉ ch c) ->
  g (7 * b) = Some h -> g' (7 * b) = Some o -> g' o = Some h ->
  (forall x, x <> o -> x <> 7 * b -> (exists c, inr_ c /\ (x = 7 * c \/ x ∈ ch c)) -> g' x = g x) ->
  links g' (upd ch b (o :: ch b)).
Proof.
  intros Hb Ho Hfresh Hh Hb' Ho' Hg. pose proof (slot_below b Hb).
  assert (Hslot : forall c, inr_ c -> 7 * c <> o) by (intros c ?%slot_below; lia).
  split.
  - intros c Hc. destruct (Z.eq_dec c b) as [->|Hne].
    + rewrite upd_eq. simpl. split; [done|]. split; [done|].
      pose proof (lk_chain g ch Hl b Hb) as Hch. pose proof (lk_nodup g ch Hl b Hb) as Hnd.
      pose proof (Hfresh b Hb). assert (forall x, x ∈ ch b -> x <> 7 * b).
      { intros x Hx. pose proof (links_base g ch b x Hl Hb Hx). lia. }
      destruct (ch b) as [|y l] eqn:E; simpl in *; [congruence|].
      destruct Hch as (Hy & Hby & Hch). split; [congruence|]. split; [done|].
      eapply chain_ext; [|exact Hch]. intros x Hx. apply Hg; [set_solver..|].
      exists b. rewrite E. set_solver.
    + rewrite upd_ne by done. eapply chain_ext; [|by apply (lk_chain g ch Hl)].
      intros x Hx. pose proof (Hfresh c Hc). apply Hg; [..|by exists c].
      * destruct Hx as [->|]; [by apply Hslot|set_solver].
      * destruct Hx as [->|Hx]; [lia|]. pose proof (links_base g ch c x Hl Hc Hx). lia.
  - intros c Hc. destruct (Z.eq_dec c b) as [->|Hne].
    + rewrite upd_eq. apply NoDup_cons. split; [by apply Hfresh|by apply (lk_nodup g ch Hl)].
    + rewrite upd_ne by done. by apply (lk_nodup g ch Hl).
  - intros c c' x Hc Hc'. pose proof (lk_disj g ch Hl c c' x Hc Hc').
    destruct (Z.eq_dec c b) as [->|Hne], (Z.eq_dec c' b) as [->|Hne'];
      rewrite ?upd_eq, ?upd_ne by done; [done|..|done].
    + intros [->|]%elem_of_cons Hx; [by destruct (Hfresh c' Hc' Hx)|auto].
    + intros Hx [->|]%elem_of_cons; [by destruct (Hfresh c Hc Hx)|auto].
Qed.

(** A record goes from the chain [b1] to the front of the chain [b2]. *)
Section move_record.
Context (b1 b2 : Z) (l1 l2 : list Z) (o : Z).
Hypothesis Hb1 : inr_ b1.
Hypothesis Hb2 : inr_ b2.
Hypothesis Hne : b1 <> b2.
Hypothesis E : ch b1 = l1 ++ o :: l2.
Let ch' := upd (upd ch b1 (l1 ++ l2)) b2 (o :: ch b2).

Lemma moving_in : o ∈ ch b1.
Proof. rewrite E. set_solver. Qed.

Lemma moving_only c : inr_ c -> c <> b1 -> o ∉ ch c.
Proof. intros Hc Hn Hoc. apply Hn. eapply (lk_disj g ch Hl); [done..|]. exact moving_in. Qed.

Lemma moving_nodup : NoDup (l1 ++ l2) /\ (o ∉ l1) /\ (o ∉ l2).
Proof.
  pose proof (lk_nodup g ch Hl b1 Hb1) as Hnd. rewrite E in Hnd.
  apply NoDup_app in Hnd as (Hnd1 & Hd & Hnd2). apply NoDup_cons in Hnd2 as [? Hnd2]. split; [|split; [|done]].
  - apply NoDup_app. split_and!; [done| |done]. intros x Hx1 Hx2. apply (Hd x Hx1). set_solver.
  - intros Hin1. apply (Hd o Hin1). set_solver.
Qed.

(** The address before [o] belongs to the chain [b1], and so to no other. *)
Lemma moving_prev : prev (7 * b1) l1 = 7 * b1 \/ prev (7 * b1) l1 ∈ ch b1.
Proof. rewrite E. destruct (prev_in (7 * b1) l1); [by left|right; set_solver]. Qed.

Lemma moving_not_prev c x : inr_ c -> c <> b1 -> x = 7 * c \/ x ∈ ch c -> x <> prev (7 * b1) l1.
Proof.
  intros Hc Hn Hx ->. pose proof (slot_below c Hc). pose proof (slot_below b1 Hb1). destruct Hx as [Hx|Hx].
  - destruct moving_prev as [|Hp1]; [lia|]. pose proof (links_base g ch b1 _ Hl Hb1 Hp1). lia.
  - destruct moving_prev as [Hp1|Hp1].
    + pose proof (links_base g ch c _ Hl Hc Hx). lia.
    + apply Hn. exact (lk_disj g ch Hl c b1 _ Hc Hb1 Hx Hp1).
Qed.

Lemma moving_not_o c x : inr_ c -> c <> b1 -> x = 7 * c \/ x ∈ ch c -> x <> o.
Proof.
  intros Hc Hn Hx ->. destruct Hx as [Hx|Hx]; [|by apply (moving_only c)].
  pose proof (slot_below c Hc). pose proof (links_base g ch b1 o Hl Hb1 moving_in). lia.
Qed.

Lemma moving_not_slot c x : inr_ c -> x = 7 * c /\ c <> b2 \/ x ∈ ch c -> x <> 7 * b2.
Proof.
  intros Hc Hx ->. destruct Hx as [[? ?]|Hx]; [lia|]. pose proof (slot_below b2 Hb2).
  pose proof (links_base g ch c _ Hl Hc Hx). lia.
Qed.

Lemma moving_nodups c : inr_ c -> NoDup (ch' c).
Proof.
  intros Hc. unfold ch'. destruct (Z.eq_dec c b2) as [->|Hn2].
  - rewrite upd_eq. apply NoDup_cons. split; [by apply moving_only|by apply (lk_nodup g ch Hl)].
  - rewrite (upd_ne _ b2) by done. destruct (Z.eq_dec c b1) as [->|Hn1].
    + rewrite upd_eq. apply moving_nodup.
    + rewrite upd_ne by done. by apply (lk_nodup g ch Hl).
Qed.

Lemma moving_members c x : inr_ c -> x ∈ ch' c -> x = o /\ c = b2 \/ x <> o /\ x ∈ ch c.
Proof.
  intros Hc. unfold ch'. destruct moving_nodup as (_ & ? & ?). destruct (Z.eq_dec c b2) as [->|Hn2].
  - rewrite upd_eq. intros [->|Hx]%elem_of_cons; [by left|right]. split; [|done].
    intros ->. by apply (moving_only b2).
  - rewrite (upd_ne _ b2) by done. intros Hx. right. destruct (Z.eq_dec c b1) as [->|Hn1].
    + rewrite upd_eq in Hx. rewrite E. set_solver.
    + rewrite upd_ne in Hx by done. split; [|done]. intros ->. by apply (moving_only c).
Qed.

Lemma links_move v h : g o = Some v -> g (7 * b2) = Some h ->
  g' (prev (7 * b1) l1) = Some v -> g' (7 * b2) = Some o -> g' o = Some h ->
  (forall x, x <> o -> x <> 7 * b2 -> x <> prev (7 * b1) l1 ->
     (exists c, inr_ c /\ (x = 7 * c \/ x ∈ ch c)) -> g' x = g x) ->
  links g' (upd (upd ch b1 (l1 ++ l2)) b2 (o :: ch b2)).
Proof.
  intros Hv Hh Hp Hs Ho Hg. pose proof (links_base g ch b1 o Hl Hb1 moving_in) as HBo.
  split; [intros c Hc|exact moving_nodups|].
  2: { intros c c' x Hc Hc' [[-> ->]|[? ?]]%moving_members [[? ->]|[? ?]]%moving_members; try done.
       by eapply (lk_disj g ch Hl). }
  pose proof (lk_chain g ch Hl c Hc) as Hch. destruct (Z.eq_dec c b2) as [->|Hn2].
  - rewrite upd_eq. simpl. split; [done|]. split; [done|].
    assert (Hsame : forall x, x ∈ ch b2 -> g' x = g x).
    { intros x Hx. apply Hg; [by apply (moving_not_o b2); auto|by apply (moving_not_slot b2); auto
        |by apply (moving_not_prev b2); auto|by exists b2; auto]. }
    destruct (ch b2) as [|y l]; simpl in *; [congruence|].
    destruct Hch as (Hy & Hby & Hch). split; [congruence|]. split; [done|].
    eapply chain_ext; [|exact Hch]. intros x Hx. apply Hsame. set_solver.
  - rewrite (upd_ne _ b2) by done. destruct (Z.eq_dec c b1) as [->|Hn1].
    + rewrite upd_eq. rewrite E in Hch. apply (chain_unlink g g' _ l1 o l2 v); [done| |done|done|].
      * pose proof (slot_below b1 Hb1). apply NoDup_cons. rewrite <-E. split; [|by apply (lk_nodup g ch Hl)].
        intros Hx. pose proof (links_base g ch b1 _ Hl Hb1 Hx). lia.
      * destruct moving_nodup as (_ & ? & ?). pose proof (slot_below b1 Hb1).
        intros x Hx Hxp. assert (x = 7 * b1 \/ x ∈ ch b1) as Hx' by (rewrite E; set_solver).
        apply Hg; [|apply (moving_not_slot b1)|done|exists b1]; [|done|naive_solver|done].
        destruct Hx as [->|Hx]; [lia|set_solver].
    + rewrite upd_ne by done. eapply chain_ext; [|exact Hch]. intros x Hx. apply Hg.
      * by apply (moving_not_o c).
      * apply (moving_not_slot c); [done|]. destruct Hx; auto.
      * by apply (moving_not_prev c).
      * by exists c.
Qed.
End move_record.
End moves.

(** ** What the records hold *)

(** Key, offset and length of the data of the record at an address; the data at an
    offset of the data file. *)
Abbreviation info := (bytes * Z * Z)%type.

Record recs (inf : Z -> option info) (fd : Z -> option bytes) (ch : Z -> list Z) : Prop := {
  rc_in : forall b o, inr_ b -> o ∈ ch b -> is_Some (inf o);
  rc_cover : forall o, is_Some (inf o) -> exists b, inr_ b /\ o ∈ ch b;
  rc_data : forall o k off len, inf o = Some (k, off, len) ->
    exists x, fd off = Some x /\ len = Zlen x + 1;
  rc_inj : forall o o' k k' off len len', inf o = Some (k, off, len) ->
    inf o' = Some (k', off, len') -> o = o';
  rc_bucket : forall b o k off len, 1 <= b <= NHASH_DEF -> o ∈ ch b ->
    inf o = Some (k, off, len) -> bucket k = b;
  rc_keys : forall b o o' k off off' len len', 1 <= b <= NHASH_DEF -> o ∈ ch b -> o' ∈ ch b ->
    inf o = Some (k, off, len) -> inf o' = Some (k, off', len') -> o = o';
  rc_free : forall o k off len, o ∈ ch 0 -> inf o = Some (k, off, len) ->
    Forall (eq SPACE) k;
}.

(** The record at [o] holds the pair [k], [x] in the chain of its bucket. *)
Definition entry (inf : Z -> option info) (fd : Z -> option bytes) (ch : Z -> list Z)
  (k x : bytes) (o : Z) : Prop :=
  o ∈ ch (bucket k) /\ exists off len, inf o = Some (k, off, len) /\ fd off = Some x.

(** The map that the store stands for. *)
Definition holds (inf : Z -> option info) (fd : Z -> option bytes) (ch : Z -> list Z)
  (m : gmap bytes bytes) : Prop :=
  forall k x, m !! k = Some x <-> exists o, entry inf fd ch k x o.

Section records.
Context (inf inf' : Z -> option info) (fd fd' : Z -> option bytes) (ch ch' : Z -> list Z).
Context (Hrc : recs inf fd ch).

(** One record changes: it now holds [k] and, at [off], [x], and belongs to the
    chain [b]. *)
Context (o b off len : Z) (k x : bytes).
Hypothesis Hb : inr_ b.
Hypothesis Ho : inf' o = Some (k, off, len).
Hypothesis Hx : fd' off = Some x.
Hypothesis Hlen : len = Zlen x + 1.
Hypothesis Hinf : forall o', o' <> o -> inf' o' = inf o'.
Hypothesis Hfd : forall o', o' <> off -> is_Some (fd o') -> fd' o' = fd o'.
Hypothesis Hoff : forall o' k' len', inf o' = Some (k', off, len') -> o' = o.
Hypothesis Hin : forall c, inr_ c -> o ∈ ch' c <-> c = b.
Hypothesis Hch : forall c o', inr_ c -> o' <> o -> o' ∈ ch' c <-> o' ∈ ch c.
Hypothesis Hbucket : 1 <= b -> bucket k = b.
Hypothesis Hkeys : forall o' off' len', 1 <= b -> o' ∈ ch b -> inf o' = Some (k, off', len') -> o' = o.
Hypothesis Hfree : b = 0 -> Forall (eq SPACE) k.

Lemma recs_update : recs inf' fd' ch'.
Proof.
  assert (H1b : forall c, 1 <= c <= NHASH_DEF -> inr_ c) by (unfold inr_; lia).
  split.
  - intros c o' Hc Ho'. destruct (Z.eq_dec o' o) as [->|Hne]; [by rewrite Ho|].
    rewrite Hinf by done. eapply (rc_in inf fd ch Hrc c); [done|]. by apply Hch.
  - intros o' Ho'. destruct (Z.eq_dec o' o) as [->|Hne]; [exists b; split; [done|by apply Hin]|].
    rewrite Hinf in Ho' by done. destruct (rc_cover inf fd ch Hrc o' Ho') as (c & Hc & ?).
    exists c. split; [done|]. by apply Hch.
  - intros o' k' off' len' Ho'. destruct (Z.eq_dec o' o) as [->|Hne].
    { rewrite Ho in Ho'. injection Ho' as <- <- <-. by exists x. }
    rewrite Hinf in Ho' by done. destruct (rc_data inf fd ch Hrc _ _ _ _ Ho') as (y & Hy & ?).
    exists y. split; [|done]. rewrite Hfd; [done| |done]. intros ->. by apply Hne, (Hoff o' k' len').
  - intros o1 o2 k1 k2 off' l1 l2 H1 H2.
    destruct (Z.eq_dec o1 o) as [->|Hn1], (Z.eq_dec o2 o) as [->|Hn2]; [done|..].
    + rewrite Ho in H1. injection H1 as <- <- <-. rewrite Hinf in H2 by done.
      symmetry. by apply (Hoff o2 k2 l2).
    + rewrite Ho in H2. injection H2 as <- <- <-. rewrite Hinf in H1 by done.
      by apply (Hoff o1 k1 l1).
    + rewrite Hinf in H1, H2 by done. by eapply (rc_inj inf fd ch Hrc).
  - intros c o' k' off' len' Hc Hin' Ho'. destruct (Z.eq_dec o' o) as [->|Hne].
    + rewrite Ho in Ho'. injection Ho' as <- <- <-. apply Hin in Hin'; [|by apply H1b].
      subst c. apply Hbucket. lia.
    + rewrite Hinf in Ho' by done. apply Hch in Hin'; [|by apply H1b|done].
      by eapply (rc_bucket inf fd ch Hrc).
  - intros c o1 o2 k' off1 off2 l1 l2 Hc Hi1 Hi2 H1 H2.
    destruct (Z.eq_dec o1 o) as [->|Hn1], (Z.eq_dec o2 o) as [->|Hn2]; [done|..].
    + apply Hin in Hi1; [|by apply H1b]. subst c. rewrite Ho in H1. injection H1 as <- <- <-.
      rewrite Hinf in H2 by done. apply Hch in Hi2; [|done..].
      symmetry. eapply Hkeys; [lia|done|done].
    + apply Hin in Hi2; [|by apply H1b]. subst c. rewrite Ho in H2. injection H2 as <- <- <-.
      rewrite Hinf in H1 by done. apply Hch in Hi1; [|done..]. eapply Hkeys; [lia|done|done].
    + rewrite Hinf in H1, H2 by done. apply Hch in Hi1, Hi2; [|done || by apply H1b..].
      by eapply (rc_keys inf fd ch Hrc c).
  - assert (inr_ 0) by (unfold inr_, NHASH_DEF; lia).
    intros o' k' off' len' Hin' Ho'. destruct (Z.eq_dec o' o) as [->|Hne].
    + rewrite Ho in Ho'. injection Ho' as <- <- <-. apply Hin in Hin'; [|done].
      by apply Hfree.
    + rewrite Hinf in Ho' by done. apply Hch in Hin'; [|done..].
      by eapply (rc_free inf fd ch Hrc).
Qed.

Lemma entry_other k' y o' : o' <> o -> entry inf' fd' ch' k' y o' <-> entry inf fd ch k' y o'.
Proof.
  intros Hne. pose proof (bucket_range k') as Hbk.
  assert (inr_ (bucket k')) by (unfold inr_; lia). unfold entry.
  rewrite Hinf, Hch by done. split; intros [? (off' & len' & Hi & Hf)]; (split; [done|]);
    exists off', len'; (split; [done|]).
  - destruct (rc_data inf fd ch Hrc _ _ _ _ Hi) as (z & Hz & _).
    rewrite Hfd in Hf; [done| |by rewrite Hz]. intros ->. by apply Hne, (Hoff o' k' len').
  - rewrite Hfd; [done| |by rewrite Hf]. intros ->. by apply Hne, (Hoff o' k' len').
Qed.

(** A record goes live, or is overwritten under the same key. *)
Lemma holds_insert m : 1 <= b ->
  (forall k' y, entry inf fd ch k' y o -> k' = k) ->
  holds inf fd ch m -> holds inf' fd' ch' (<[k := x]> m).
Proof.
  intros Hb1 Hold Hm k' y. destruct (decide (k' = k)) as [->|Hne].
  - rewrite lookup_insert_eq. split.
    + intros [= <-]. exists o. split; [|by exists off, len].
      apply Hin; [|by apply Hbucket]. by rewrite Hbucket.
    + intros (o' & He). destruct (Z.eq_dec o' o) as [->|Hno].
      * destruct He as (_ & off' & len' & Hi & Hf). rewrite Ho in Hi. injection Hi as <- <-.
        congruence.
      * exfalso. apply entry_other in He; [|done]. destruct He as (Hi & off' & len' & Hinf' & _).
        rewrite Hbucket in Hi by done. by eapply Hno, Hkeys.
  - rewrite lookup_insert_ne by done. rewrite (Hm k' y). split; intros (o' & He); exists o'.
    + apply entry_other; [|done]. intros ->. by apply Hne, (Hold k' y).
    + apply entry_other; [|done]. intros ->. destruct He as (_ & off' & len' & Hi & _).
      rewrite Ho in Hi. by injection Hi.
Qed.

(** A live record goes to the free list. *)
Lemma holds_delete m kold y : b = 0 -> entry inf fd ch kold y o ->
  holds inf fd ch m -> holds inf' fd' ch' (delete kold m).
Proof.
  intros Hb0 Hold Hm k' z. pose proof (bucket_range k') as Hbk.
  assert (Hno : forall w, ~ entry inf' fd' ch' k' w o).
  { intros w (Hi & _). apply Hin in Hi; [lia|unfold inr_; lia]. }
  destruct (decide (k' = kold)) as [->|Hne].
  - rewrite lookup_delete_eq. split; [done|]. intros (o' & He). exfalso.
    destruct (Z.eq_dec o' o) as [->|Hn]; [by eapply Hno|]. apply entry_other in He; [|done].
    destruct He as (H1 & off1 & l1 & E1 & _), Hold as (H2 & off2 & l2 & E2 & _).
    by eapply Hn, (rc_keys inf fd ch Hrc (bucket kold)).
  - rewrite lookup_delete_ne by done. rewrite (Hm k' z). split; intros (o' & He); exists o'.
    + apply entry_other; [|done]. intros ->. apply Hne.
      destruct He as (_ & off1 & l1 & E1 & _), Hold as (_ & off2 & l2 & E2 & _). congruence.
    + destruct (Z.eq_dec o' o) as [->|Hn]; [by destruct (Hno z)|]. by apply entry_other in He.
Qed.
End records.
