(* ===== verification/DbProofs.v ===== *)
(** DbProofs: the operations of Db, run on files that represent a well-linked
    store, implement a finite map from keys to data. *)
From stdpp Require Import sets gmap list.
From S2P Require Import Prelude Arrays Bytes Db DbBytes DbLinks.

Definition pget (s : store) (a : Z) : option Z :=
  if a <? BASE then Some (aget (s_slots s) (a / 7)) else ir_ptr <$> find_i s a.
Definition inf (s : store) (o : Z) : option info :=
  (fun r => (ir_key r, ir_off r, ir_len r)) <$> find_i s o.

Record good (s : store) (ch : Z -> list Z) : Prop := {
  g_links : links (pget s) ch;
  g_recs : recs (inf s) (find_d s) ch;
}.

(** The pointer at an address is overwritten. *)
Definition pset (s : store) (a v : Z) : store :=
  if a <? BASE then set_slot s (a / 7) v
  else match find_i s a with
       | Some r => set_irec s a (IRec v (ir_key r) (ir_off r) (ir_len r))
       | None => s
       end.

Definition addr (s : store) (a : Z) : Prop := (exists b, inr_ b /\ a = 7 * b) \/ is_Some (find_i s a).

Section store_lemmas.
Implicit Types (s : store) (b o a v : Z).

Lemma slot_div b : 7 * b / 7 = b.
Proof. zlia. Qed.

Lemma pget_slot s b : inr_ b -> pget s (7 * b) = Some (aget (s_slots s) b).
Proof.
  intros Hb. pose proof (slot_below b Hb). unfold pget.
  rewrite (proj2 (Z.ltb_lt _ _)) by done. by rewrite slot_div.
Qed.

Lemma pget_rec s o : BASE <= o -> pget s o = ir_ptr <$> find_i s o.
Proof. intros. unfold pget. by rewrite (proj2 (Z.ltb_ge _ _)). Qed.

Lemma inf_find s o r : find_i s o = Some r -> inf s o = Some (ir_key r, ir_off r, ir_len r).
Proof. unfold inf. by intros ->. Qed.

Lemma inf_some s o : is_Some (inf s o) <-> is_Some (find_i s o).
Proof. unfold inf. by rewrite fmap_is_Some. Qed.

Lemma find_i_base s o r : find_i s o = Some r -> BASE <= o.
Proof. by intros [? _]%find_at_range. Qed.

Lemma find_set_irec_eq s o r r' : find_i s o = Some r -> find_i (set_irec s o r') o = Some r'.
Proof. intros H. by eapply find_at_upd_eq. Qed.

Lemma find_set_irec_ne s o o' r r' : find_i s o = Some r ->
  Zlen (enc_irec r') = Zlen (enc_irec r) -> o' <> o -> find_i (set_irec s o r') o' = find_i s o'.
Proof. intros H ??. by eapply find_at_upd_ne. Qed.

Lemma enc_irec_ptr r v : wf_irec r -> wf_ptr v ->
  Zlen (enc_irec (IRec v (ir_key r) (ir_off r) (ir_len r))) = Zlen (enc_irec r).
Proof.
  intros Hr Hv. rewrite !enc_irec_len; [done|done|]. split; [done|]. apply Hr.
Qed.

Section pset.
Context (s : store) (a v : Z) (Hs : wf_store s) (Ha : addr s a) (Hv : wf_ptr v).

Lemma pset_inf o : inf (pset s a v) o = inf s o.
Proof.
  unfold pset. destruct (a <? BASE); [done|]. destruct (find_i s a) as [r|] eqn:E; [|done].
  destruct (find_i_wf s a r Hs E) as [Hr _].
  destruct (Z.eq_dec o a) as [->|Hne].
  - rewrite (inf_find s a r E). by rewrite (inf_find _ _ _ (find_set_irec_eq s a r _ E)).
  - unfold inf. erewrite find_set_irec_ne; [done|done|by apply enc_irec_ptr|done].
Qed.

Lemma pset_find_d o : find_d (pset s a v) o = find_d s o.
Proof. unfold pset. destruct (a <? BASE); [done|]. by destruct (find_i s a). Qed.

Lemma pset_wf : wf_store (pset s a v).
Proof.
  unfold pset. destruct (a <? BASE); [by apply wf_set_slot|].
  destruct (find_i s a) as [r|] eqn:E; [|done].
  destruct (find_i_wf s a r Hs E) as [Hr _]. apply wf_set_irec; [done|].
  split; [done|]. apply Hr.
Qed.

Lemma pget_pset_eq : pget (pset s a v) a = Some v.
Proof.
  destruct Ha as [(b & Hb & ->)|[r Hr]].
  - pose proof (slot_below b Hb). rewrite pget_slot by done. unfold pset.
    rewrite (proj2 (Z.ltb_lt _ _)) by done. rewrite slot_div. simpl.
    rewrite aget_aset_eq; [done|]. rewrite (wf_slots_len s Hs). unfold inr_, NHASH_DEF in *. lia.
  - pose proof (find_i_base s a r Hr). rewrite pget_rec by done. unfold pset.
    rewrite (proj2 (Z.ltb_ge _ _)) by done. rewrite Hr. by rewrite (find_set_irec_eq s a r).
Qed.

Lemma pget_pset_ne x : x <> a -> addr s x -> pget (pset s a v) x = pget s x.
Proof.
  intros Hne Hx. destruct Ha as [(b & Hb & ->)|[r Hr]].
  - pose proof (slot_below b Hb). unfold pset. rewrite (proj2 (Z.ltb_lt _ _)), slot_div by done.
    destruct Hx as [(b' & Hb' & ->)|[r' Hr']].
    + rewrite !pget_slot by done. simpl. rewrite aget_aset_ne; [done|..]; unfold inr_ in *; lia.
    + pose proof (find_i_base s x r' Hr'). by rewrite !pget_rec by done.
  - pose proof (find_i_base s a r Hr). unfold pset. rewrite (proj2 (Z.ltb_ge _ _)), Hr by done.
    destruct (find_i_wf s a r Hs Hr) as [Hwr _].
    destruct Hx as [(b' & Hb' & ->)|[r' Hr']].
    + by rewrite !pget_slot by done.
    + pose proof (find_i_base s x r' Hr'). rewrite !pget_rec by done.
      erewrite find_set_irec_ne; [done|done|by apply enc_irec_ptr|done].
Qed.

Lemma pset_addr x : addr (pset s a v) x <-> addr s x.
Proof.
  unfold addr. pose proof (inf_some (pset s a v) x) as H. rewrite pset_inf, inf_some in H.
  by rewrite <-H.
Qed.
End pset.

(** [_db_writeptr] on a slot or on a record. *)
Lemma wp_writeptr s a v (Q : unit -> DB -> Prop) X d : repr s d -> addr s a -> wf_ptr v ->
  (forall y p, repr (pset s a v) (set_idxpos p (set_idx y d)) -> Q tt (set_idxpos p (set_idx y d))) ->
  wp (_db_writeptr a v) Q X d.
Proof.
  intros Hr [(b & Hb & ->)|[r Hf]] Hv HQ.
  - apply (wp_writeptr_slot s); [done..|]. intros y p Hrep. apply HQ. unfold pset.
    pose proof (slot_below b Hb). rewrite (proj2 (Z.ltb_lt _ _)) by done. by rewrite slot_div.
  - apply (wp_writeptr_rec s a r); [done..|]. intros y p Hrep. apply HQ. unfold pset.
    pose proof (find_i_base s a r Hf). rewrite (proj2 (Z.ltb_ge _ _)) by done. by rewrite Hf.
Qed.

(** Every record lies inside the file, so a chain is shorter than the file. *)
Lemma chain_length s ch d b : repr s d -> good s ch -> inr_ b ->
  (length (ch b) <= Z.to_nat (Zlen (idx d)))%nat.
Proof.
  intros Hr [Hl Hc] Hb. pose proof (repr_idx_len s d Hr) as Hlen.
  assert (Hsub : ch b ⊆+ seqZ 0 (Zlen (idx d))).
  { apply NoDup_submseteq; [by apply (lk_nodup _ _ Hl)|]. intros o Ho.
    destruct (rc_in _ _ _ Hc b o Hb Ho) as [i Hi].
    assert (is_Some (find_i s o)) as [r Hf] by (rewrite <-inf_some; eauto).
    pose proof (find_at_range _ _ _ _ _ Hf). pose proof (find_i_base s o r Hf).
    destruct (find_i_wf s o r (repr_wf s d Hr) Hf) as [Hw _].
    pose proof (enc_irec_len r Hw). pose proof (Zlen_nonneg (ir_line r)).
    rewrite Hlen. unfold end_i. apply elem_of_seqZ. unfold BASE in *. lia. }
  apply submseteq_length in Hsub. by rewrite length_seqZ in Hsub.
Qed.
End store_lemmas.

(** ** Walking a chain *)

(** The files, the header fields and the statistics are untouched. *)
Record frame (d d' : DB) : Prop := {
  fr_idx : idx d' = idx d; fr_dat : dat d' = dat d;
  fr_nhash : nhash d' = nhash d; fr_hashoff : hashoff d' = hashoff d;
  fr_cnt : cnt d' = cnt d; fr_errno : errno d' = errno d;
}.

Lemma frame_refl d : frame d d.
Proof. done. Qed.

Lemma frame_trans d1 d2 d3 : frame d1 d2 -> frame d2 d3 -> frame d1 d3.
Proof. intros [] []. split; congruence. Qed.

Lemma frame_repr s d d' : frame d d' -> repr s d -> repr s d'.
Proof. intros [] []. split; congruence. Qed.

Lemma repr_ext s d d' : repr s d -> idx d' = idx d -> dat d' = dat d -> nhash d' = nhash d ->
  hashoff d' = hashoff d -> repr s d'.
Proof. intros [] ? ? ? ?. split; congruence. Qed.

(** The handle describes the record [r] at [o], reached in the chain of [b] past [l1]. *)
Record at_rec (d : DB) (o : Z) (r : irec) : Prop := {
  ar_idxoff : idxoff d = o; ar_ptrval : ptrval d = ir_ptr r; ar_idxbuf : idxbuf d = ir_key r;
  ar_datoff : datoff d = ir_off r; ar_datlen : datlen d = ir_len r;
}.

Lemma loaded_at o r d : at_rec (loaded o r d) o r.
Proof. done. Qed.

Definition head0 (l : list Z) : Z := match l with [] => 0 | o :: _ => o end.

(** The state differs from one in the frame only in other fields. *)
Ltac framed := eapply frame_trans; [eassumption|by split].

Section walk.
Variable fuel : nat.
Context (s : store) (ch : Z -> list Z) (Hg : good s ch).

Lemma chain_head a l : chain (pget s) a l -> pget s a = Some (head0 l).
Proof. destruct l; simpl; tauto. Qed.

(** One step along a chain. *)
Lemma chain_next b l1 o l2 : inr_ b -> ch b = l1 ++ o :: l2 ->
  exists r, find_i s o = Some r /\ ir_ptr r = head0 l2 /\ BASE <= o.
Proof.
  intros Hb E. destruct Hg as [Hl Hc].
  pose proof (lk_chain _ _ Hl b Hb) as Hch. rewrite E in Hch.
  apply chain_split in Hch as (_ & Ho & Hch).
  destruct (rc_in _ _ _ Hc b o Hb) as [i Hi]; [rewrite E; set_solver|].
  assert (is_Some (find_i s o)) as [r Hf] by (rewrite <-inf_some; eauto).
  exists r. split; [done|]. split; [|done]. apply chain_head in Hch.
  rewrite pget_rec, Hf in Hch by done. by injection Hch.
Qed.

Lemma head0_slot b : inr_ b -> aget (s_slots s) b = head0 (ch b).
Proof.
  intros Hb. pose proof (lk_chain _ _ (g_links _ _ Hg) b Hb) as Hch.
  apply chain_head in Hch. rewrite pget_slot in Hch by done. by injection Hch.
Qed.

Lemma wp_hash key (Q : Z -> DB -> Prop) X d : repr s d -> Q (bucket key - 1) d ->
  wp (_db_hash key) Q X d.
Proof.
  intros Hr HQ. unfold _db_hash. wsteps. rewrite (repr_nhash s d Hr).
  unfold bucket in HQ. by replace (1 + _ - 1) with (hash_loop key 1 0 mod NHASH_DEF) in HQ by lia.
Qed.

Lemma wp_find_and_lock key w d : repr s d -> (Z.to_nat (Zlen (idx d)) < fuel)%nat ->
  wp (_db_find_and_lock fuel key w) (fun r d' =>
    frame d d' /\ locks d' = Lock IDX w (7 * bucket key) 1 :: locks d /\
    chainoff d' = 7 * bucket key /\
    (r = -1 /\ (forall o off len, o ∈ ch (bucket key) -> inf s o <> Some (key, off, len)) \/
     r = 0 /\ exists l1 o l2 rec, ch (bucket key) = l1 ++ o :: l2 /\ find_i s o = Some rec /\
       ir_key rec = key /\ at_rec d' o rec /\ ptroff d' = prev (7 * bucket key) l1)) noexit d.
Proof.
  intros Hr Hfuel. pose proof (bucket_range key) as Hbk. set (b := bucket key) in *.
  assert (Hb : inr_ b) by (unfold inr_; lia).
  unfold _db_find_and_lock. wstep. apply wp_hash; [done|]. fold b. wstep. wstep. wstep. wstep. wstep. wstep.
  set (d1 := set_ptroff _ _).
  assert (Hd1 : frame d d1 /\ locks d1 = locks d /\ chainoff d1 = 7 * b /\ ptroff d1 = 7 * b).
  { assert (E : (b - 1) * PTR_SZ + hashoff d = 7 * b)
      by (rewrite (repr_hashoff s d Hr); unfold PTR_SZ, HASH_OFF, PTR_SZ; lia).
    unfold d1. simpl. rewrite E. done. }
  clearbody d1. destruct Hd1 as (Hf1 & Hl1 & Hc1 & Hp1). rewrite Hc1.
  wstep. apply wp_conseq with (Q := fun _ d2 => frame d d2 /\
    locks d2 = Lock IDX w (7 * b) 1 :: locks d /\ chainoff d2 = 7 * b /\ ptroff d2 = 7 * b).
  { rewrite <-Hl1. destruct w; (split; [framed|done]). }
  clear d1 Hf1 Hl1 Hc1 Hp1. intros _ d1 (Hf1 & Hl1 & Hc1 & Hp1).
  wstep. wstep. wstep. rewrite Hp1. apply (wp_readptr s); [eapply frame_repr; eassumption|done|].
  rewrite (head0_slot b Hb). set (d2 := set_idxpos (7 * b + 7) d1).
  assert (Hd2 : frame d d2 /\ locks d2 = Lock IDX w (7 * b) 1 :: locks d /\ chainoff d2 = 7 * b /\
    ptroff d2 = 7 * b) by (split_and!; [framed|done..]).
  clearbody d2. clear d1 Hf1 Hl1 Hc1 Hp1. destruct Hd2 as (Hf2 & Hl2 & Hc2 & Hp2).
  wstep. apply wp_loop_idx with (n := length (ch b)) (I := fun n p d' =>
    frame d d' /\ locks d' = Lock IDX w (7 * b) 1 :: locks d /\ chainoff d' = 7 * b /\
    exists l1 l2, ch b = l1 ++ l2 /\ n = length l2 /\ p = head0 l2 /\ ptroff d' = prev (7 * b) l1 /\
      forall o off len, o ∈ l1 -> inf s o <> Some (key, off, len)).
  { split; [done|]. split; [done|]. split; [done|]. exists [], (ch b). split_and!; [done..|].
    intros. set_solver. }
  { pose proof (chain_length s ch d b Hr Hg Hb). lia. }
  clear d2 Hf2 Hl2 Hc2 Hp2. intros n p d1 (Hf1 & Hl1 & Hc1 & l1 & l2 & E & -> & -> & Hp & Hno).
  destruct l2 as [|o l2].
  { simpl. wsteps. split; [done|]. split; [done|]. split; [done|]. left. split; [done|].
    rewrite E, app_nil_r. done. }
  destruct (chain_next b l1 o l2 Hb E) as (r & Hfo & Hnext & Ho). unfold BASE in Ho. simpl head0.
  rewrite (proj2 (Z.eqb_neq o 0)) by lia. simpl negb. cbv iota.
  wstep. apply (wp_readidx s o _ r); [eapply frame_repr; eassumption|done|by left|].
  assert (Hf2 : frame d (loaded o r d1)) by framed.
  wstep. wstep. change (idxbuf (loaded o r d1)) with (ir_key r).
  case_bool_decide as Hk.
  - wsteps. split; [done|]. split; [done|]. split; [done|]. right.
    rewrite (proj2 (Z.eqb_neq o 0)) by lia. split; [done|].
    exists l1, o, l2, r. split_and!; [done..|apply loaded_at|done].
  - wsteps. exists (length l2). simpl. split; [|lia]. split; [framed|]. split; [done|]. split; [done|].
    exists (l1 ++ [o]), l2. rewrite <-(assoc_L (++)). split_and!; [done..| | |].
    + exact Hnext.
    + by rewrite prev_snoc.
    + intros o' off len [Hin|Hin]%elem_of_app; [by apply Hno|].
      apply list_elem_of_singleton in Hin as ->. rewrite (inf_find s o r Hfo). congruence.
Qed.

(** The search of the free list for a record of the right size. *)
Lemma wp_free_walk keylen dlen d : repr s d -> (Z.to_nat (Zlen (idx d)) < fuel)%nat ->
  wp (loop fuel (fun '(saveoffset, offset) =>
        if negb (offset =? 0) then
          nextoffset <- _db_readidx offset ;;
          buf <- gets idxbuf ;; n <- gets datlen ;;
          if (Zlen buf =? keylen) && (n =? dlen) then ret (inr (saveoffset, offset))
          else ret (inl (offset, nextoffset))
        else ret (inr (saveoffset, offset))) (FREE_OFF, head0 (ch 0)))
    (fun '(saveoffset, offset) d' => frame d d' /\ locks d' = locks d /\ chainoff d' = chainoff d /\
       (offset = 0 \/ exists l1 l2 rec, ch 0 = l1 ++ offset :: l2 /\ find_i s offset = Some rec /\
          saveoffset = prev 0 l1 /\ BASE <= offset /\ Zlen (ir_key rec) = keylen /\
          ir_len rec = dlen /\ at_rec d' offset rec)) noexit d.
Proof.
  intros Hr Hfuel. assert (H0 : inr_ 0) by (unfold inr_, NHASH_DEF; lia).
  apply wp_loop_idx with (n := length (ch 0)) (I := fun n '(sv, p) d' =>
    frame d d' /\ locks d' = locks d /\ chainoff d' = chainoff d /\
    exists l1 l2, ch 0 = l1 ++ l2 /\ n = length l2 /\ p = head0 l2 /\ sv = prev 0 l1).
  { split; [done|]. split; [done|]. split; [done|]. exists [], (ch 0). done. }
  { pose proof (chain_length s ch d 0 Hr Hg H0). lia. }
  intros n [sv p] d1 (Hf1 & Hl1 & Hc1 & l1 & l2 & E & -> & -> & ->).
  destruct l2 as [|o l2].
  { simpl. wsteps. split_and!; [done..|]. by left. }
  destruct (chain_next 0 l1 o l2 H0 E) as (r & Hfo & Hnext & Ho). simpl head0.
  rewrite (proj2 (Z.eqb_neq o 0)) by (unfold BASE in Ho; lia). simpl negb. cbv iota.
  wstep. apply (wp_readidx s o _ r); [eapply frame_repr; eassumption|done|by left|].
  assert (Hf2 : frame d (loaded o r d1)) by framed.
  wstep. wstep. wstep. wstep. change (idxbuf (loaded o r d1)) with (ir_key r).
  change (datlen (loaded o r d1)) with (ir_len r). wstep; wstep.
  - split; [done|]. split; [done|]. split; [done|]. right.
    exists l1, l2, r. split_and!; try done; lia.
  - exists (length l2). simpl. split; [|lia]. split; [done|]. split; [done|]. split; [done|].
    exists (l1 ++ [o]), l2. rewrite <-(assoc_L (++)). split_and!; [done..|exact Hnext|].
    by rewrite prev_snoc.
Qed.
End walk.

(** ** Moving a record between chains *)

Section set_record.
Context (s : store) (o : Z) (r r' : irec) (Hf : find_i s o = Some r).
Hypothesis Hlen : Zlen (enc_irec r') = Zlen (enc_irec r).

Lemma inf_set_irec_eq : inf (set_irec s o r') o = Some (ir_key r', ir_off r', ir_len r').
Proof. apply inf_find. by eapply find_set_irec_eq. Qed.

Lemma inf_set_irec_ne x : x <> o -> inf (set_irec s o r') x = inf s x.
Proof. intros. unfold inf. by erewrite find_set_irec_ne. Qed.

Lemma pget_set_irec_eq : pget (set_irec s o r') o = Some (ir_ptr r').
Proof.
  rewrite pget_rec by (eapply find_i_base; exact Hf). by erewrite find_set_irec_eq.
Qed.

Lemma pget_set_irec_ne x : x <> o -> pget (set_irec s o r') x = pget s x.
Proof.
  intros. unfold pget. destruct (x <? BASE); [done|]. by erewrite find_set_irec_ne.
Qed.

Lemma addr_set_irec x : addr (set_irec s o r') x <-> addr s x.
Proof.
  unfold addr. destruct (Z.eq_dec x o) as [->|Hne].
  - erewrite find_set_irec_eq by done. rewrite Hf. split; intros _; right; eauto.
  - by erewrite find_set_irec_ne.
Qed.
End set_record.

Section set_data.
Context (s : store) (off : Z) (x x' : bytes) (Hf : find_d s off = Some x).
Hypothesis Hlen : length x' = length x.

Lemma find_set_drec_eq : find_d (set_drec s off x') off = Some x'.
Proof. by eapply find_at_upd_eq. Qed.

Lemma find_set_drec_ne y : y <> off -> find_d (set_drec s off x') y = find_d s y.
Proof.
  intros. eapply find_at_upd_ne; [done| |done]. rewrite !enc_drec_len. unfold Zlen. lia.
Qed.
End set_data.

Section move.
Context (s s' : store) (ch : Z -> list Z) (Hg : good s ch).
Context (b1 b2 : Z) (l1 l2 : list Z) (o : Z) (rec : irec) (k' x' : bytes).
Hypothesis Hb1 : inr_ b1.
Hypothesis Hb2 : inr_ b2.
Hypothesis Hne : b1 <> b2.
Hypothesis Hch : ch b1 = l1 ++ o :: l2.
Hypothesis Hf : find_i s o = Some rec.
Hypothesis Hp_prev : pget s' (prev (7 * b1) l1) = Some (ir_ptr rec).
Hypothesis Hp_slot : pget s' (7 * b2) = Some o.
Hypothesis Hp_o : pget s' o = Some (head0 (ch b2)).
Hypothesis Hp : forall x, x <> o -> x <> 7 * b2 -> x <> prev (7 * b1) l1 -> addr s x ->
  pget s' x = pget s x.
Hypothesis Hi_o : inf s' o = Some (k', ir_off rec, ir_len rec).
Hypothesis Hi : forall x, x <> o -> inf s' x = inf s x.
Hypothesis Hd_o : find_d s' (ir_off rec) = Some x'.
Hypothesis Hd : forall y, y <> ir_off rec -> find_d s' y = find_d s y.
Hypothesis Hlen : ir_len rec = Zlen x' + 1.
Hypothesis Hbucket : 1 <= b2 -> bucket k' = b2.
Hypothesis Hkeys : forall o' off' len', 1 <= b2 -> o' ∈ ch b2 -> inf s o' <> Some (k', off', len').
Hypothesis Hfree : b2 = 0 -> Forall (eq SPACE) k'.

Let ch' := upd (upd ch b1 (l1 ++ l2)) b2 (o :: ch b2).

Lemma move_links : links (pget s') ch'.
Proof.
  destruct Hg as [Hl Hc]. apply (links_move (pget s) (pget s') ch Hl b1 b2 l1 l2 o) with
    (v := ir_ptr rec) (h := head0 (ch b2)); try done.
  - rewrite pget_rec by (eapply find_i_base; exact Hf). by rewrite Hf.
  - apply chain_head. by apply (lk_chain _ _ Hl).
  - intros x ? ? ? (c & Hcr & Hx). apply Hp; [done..|]. destruct Hx as [->|Hx].
    + left. by exists c.
    + right. rewrite <-inf_some. by eapply (rc_in _ _ _ Hc).
Qed.

Lemma move_only c : inr_ c -> o ∈ ch c -> c = b1.
Proof.
  intros Hc Ho. apply (lk_disj _ _ (g_links _ _ Hg) c b1 o); [done..|]. rewrite Hch. set_solver.
Qed.

Lemma move_not_in : (o ∉ l1) /\ (o ∉ l2).
Proof.
  pose proof (lk_nodup _ _ (g_links _ _ Hg) b1 Hb1) as Hnd. rewrite Hch in Hnd.
  apply NoDup_app in Hnd as (_ & Hdj & Hnd). apply NoDup_cons in Hnd as [? _].
  split; [|done]. intros Hin. apply (Hdj o Hin). apply elem_of_cons. by left.
Qed.

Lemma move_in c : inr_ c -> o ∈ ch' c <-> c = b2.
Proof.
  intros Hc. unfold ch'. destruct (Z.eq_dec c b2) as [->|Hn2].
  - rewrite upd_eq. split; [done|]. intros _. apply elem_of_cons. by left.
  - rewrite (upd_ne _ b2) by done. split; [|done]. intros Hin. exfalso.
    destruct (Z.eq_dec c b1) as [->|Hn1].
    + rewrite upd_eq in Hin. destruct move_not_in. apply elem_of_app in Hin as [|]; done.
    + rewrite upd_ne in Hin by done. by apply Hn1, move_only.
Qed.

Lemma move_other c x : inr_ c -> x <> o -> x ∈ ch' c <-> x ∈ ch c.
Proof.
  intros Hc Hx. unfold ch'. destruct (Z.eq_dec c b2) as [->|Hn2].
  - rewrite upd_eq, elem_of_cons. naive_solver.
  - rewrite (upd_ne _ b2) by done. destruct (Z.eq_dec c b1) as [->|Hn1].
    + rewrite upd_eq, Hch, !elem_of_app, elem_of_cons. naive_solver.
    + by rewrite upd_ne.
Qed.

Lemma move_off o' k len : inf s o' = Some (k, ir_off rec, len) -> o' = o.
Proof. intros H. eapply (rc_inj _ _ _ (g_recs _ _ Hg)); [exact H|by apply inf_find]. Qed.

Lemma move_fd y : y <> ir_off rec -> is_Some (find_d s y) -> find_d s' y = find_d s y.
Proof. intros ? _. by apply Hd. Qed.

Lemma move_keys o' off' len' : 1 <= b2 -> o' ∈ ch b2 -> inf s o' = Some (k', off', len') -> o' = o.
Proof. intros ? ? H. by destruct (Hkeys o' off' len'). Qed.

Lemma move_good : good s' ch'.
Proof.
  split; [apply move_links|].
  apply (recs_update (inf s) _ (find_d s) _ ch ch' (g_recs _ _ Hg) o b2 (ir_off rec) (ir_len rec)
    k' x'); try assumption.
  - exact move_fd.
  - exact move_off.
  - exact move_in.
  - exact move_other.
  - exact move_keys.
Qed.

Lemma move_holds_delete m : b2 = 0 -> holds (inf s) (find_d s) ch m ->
  holds (inf s') (find_d s') ch' (delete (ir_key rec) m).
Proof.
  intros Hb Hm. destruct (rc_data _ _ _ (g_recs _ _ Hg) o _ _ _ (inf_find s o rec Hf)) as (y & Hy & _).
  apply (holds_delete (inf s) _ (find_d s) _ ch ch' (g_recs _ _ Hg) o b2 (ir_off rec))
    with (y := y); try assumption.
  { exact move_fd. } { exact move_off. } { exact move_in. } { exact move_other. }
  assert (Hin : o ∈ ch b1) by (rewrite Hch; set_solver).
  split; [|exists (ir_off rec), (ir_len rec); by rewrite (inf_find s o rec Hf)].
  rewrite (rc_bucket _ _ _ (g_recs _ _ Hg) b1 o _ _ _ ltac:(unfold inr_ in *; lia) Hin
    (inf_find s o rec Hf)). done.
Qed.

Lemma move_holds_insert m : 1 <= b2 -> b1 = 0 -> holds (inf s) (find_d s) ch m ->
  holds (inf s') (find_d s') ch' (<[k' := x']> m).
Proof.
  intros Hb Hb0 Hm.
  apply (holds_insert (inf s) _ (find_d s) _ ch ch' (g_recs _ _ Hg) o b2 (ir_off rec) (ir_len rec)
    k' x'); try assumption.
  { exact move_fd. } { exact move_off. } { exact move_in. } { exact move_other. }
  { exact move_keys. }
  intros k y (Hin & _). pose proof (bucket_range k). apply move_only in Hin; [lia|unfold inr_; lia].
Qed.
End move.

Lemma find_i_pset s a v x : wf_store s -> wf_ptr v -> x <> a -> find_i (pset s a v) x = find_i s x.
Proof.
  intros Hs Hv Hx. unfold pset. destruct (a <? BASE); [done|].
  destruct (find_i s a) as [r|] eqn:E; [|done]. destruct (find_i_wf s a r Hs E) as [Hr _].
  eapply find_set_irec_ne; [done|by apply enc_irec_ptr|done].
Qed.

(** *** The writes that move a record *)

Section moving.
Context (s : store) (ch : Z -> list Z) (Hs : wf_store s) (Hg : good s ch).
Context (b1 b2 : Z) (l1 l2 : list Z) (o : Z) (rec : irec).
Hypothesis Hb1 : inr_ b1.
Hypothesis Hb2 : inr_ b2.
Hypothesis Hne : b1 <> b2.
Hypothesis Hch : ch b1 = l1 ++ o :: l2.
Hypothesis Hf : find_i s o = Some rec.
Notation p := (prev (7 * b1) l1).

Lemma prev_case : p = 7 * b1 \/ BASE <= p /\ p ∈ l1 /\ is_Some (find_i s p).
Proof.
  destruct (prev_in (7 * b1) l1) as [E|E]; [by left|right].
  assert (E' : p ∈ ch b1) by (rewrite Hch; set_solver).
  split; [by apply (links_base _ _ b1 _ (g_links _ _ Hg) Hb1 E')|]. split; [done|].
  rewrite <-inf_some. by apply (rc_in _ _ _ (g_recs _ _ Hg) b1).
Qed.

Lemma prev_addr : addr s p.
Proof. destruct prev_case as [->|(_ & _ & E)]; [left; by exists b1|by right]. Qed.

Lemma prev_ne_slot : p <> 7 * b2.
Proof. pose proof (slot_below b2 Hb2). destruct prev_case as [->|(? & _)]; lia. Qed.

Lemma prev_ne_o : p <> o.
Proof.
  destruct (find_i_wf s o rec Hs Hf) as [_ Ho]. pose proof (slot_below b1 Hb1).
  destruct prev_case as [->|(_ & Hin & _)]; [lia|]. intros E. rewrite E in Hin.
  by destruct (move_not_in s ch Hg b1 l1 l2 o Hb1 Hch).
Qed.

Lemma moved_wf_ptr : wf_ptr o.
Proof.
  pose proof (lk_chain _ _ (g_links _ _ Hg) b1 Hb1) as Hc. rewrite Hch in Hc. apply chain_split in Hc as (Hc & _).
  destruct prev_case as [E|(Hbase & _ & q & Hq)].
  - rewrite E, pget_slot in Hc by done. injection Hc as <-. by apply wf_slot.
  - rewrite pget_rec, Hq in Hc by done. injection Hc as <-. by destruct (find_i_wf s _ q Hs Hq) as [[? _] _].
Qed.

(** The record gets the key [key] and the data [data], of the lengths of the old ones. *)
Context (x key data : bytes).
Hypothesis Hx : find_d s (ir_off rec) = Some x.
Hypothesis Hlx : length data = length x.
Let rec' := IRec (head0 (ch b2)) key (ir_off rec) (ir_len rec).
Hypothesis Henc : Zlen (enc_irec rec') = Zlen (enc_irec rec).

(** What makes the record a member of the other chain. *)
Record moved (s' : store) : Prop := {
  mo_prev : pget s' p = Some (ir_ptr rec);
  mo_slot : pget s' (7 * b2) = Some o;
  mo_o : pget s' o = Some (head0 (ch b2));
  mo_ptr : forall y, y <> o -> y <> 7 * b2 -> y <> p -> addr s y -> pget s' y = pget s y;
  mo_rec : inf s' o = Some (key, ir_off rec, ir_len rec);
  mo_recs : forall y, y <> o -> inf s' y = inf s y;
  mo_data : find_d s' (ir_off rec) = Some data;
  mo_datas : forall y, y <> ir_off rec -> find_d s' y = find_d s y;
}.

Lemma o_addr : addr s o.
Proof. right. by exists rec. Qed.

Lemma slot_addr : addr s (7 * b2).
Proof. left. by exists b2. Qed.

Lemma o_ne_slot : o <> 7 * b2.
Proof. destruct (find_i_wf s o rec Hs Hf) as [_ Ho]. pose proof (slot_below b2 Hb2). lia. Qed.

(** The pointer to the record is changed first, as in [_db_findfree], ... *)
Lemma moved_unlink_first : let s1 := pset s p (ir_ptr rec) in let s3 := set_irec (set_drec s1 (ir_off rec) data) o rec' in
  wf_store s3 -> moved (pset s3 (7 * b2) o).
Proof.
  intros s1 s3 Hs3. destruct (find_i_wf s o rec Hs Hf) as [Hw _].
  pose proof prev_addr as Hpa. pose proof prev_ne_o. pose proof prev_ne_slot. pose proof moved_wf_ptr as Hop. pose proof o_ne_slot.
  assert (Hf1 : find_i (set_drec s1 (ir_off rec) data) o = Some rec) by (change (find_i s1 o = Some rec); unfold s1; by rewrite find_i_pset by (done || apply Hw || auto)).
  assert (Ha3 : forall y, addr s3 y <-> addr s y).
  { intros. unfold s3. rewrite (addr_set_irec _ o rec) by done. by apply (pset_addr s), Hw. }
  assert (Hab : addr s3 (7 * b2)) by by apply Ha3, slot_addr.
  assert (Hget : forall y, y <> 7 * b2 -> addr s y -> pget (pset s3 (7 * b2) o) y = pget s3 y)
    by (intros; by apply (pget_pset_ne s3 _ _ Hs3 Hab Hop); [|apply Ha3]).
  assert (Hget3 : forall y, y <> o -> pget s3 y = pget s1 y) by (intros; by apply (pget_set_irec_ne (set_drec s1 (ir_off rec) data) o rec)).
  assert (Hx1 : find_d s1 (ir_off rec) = Some x) by (unfold s1; by rewrite pset_find_d).
  split.
  - rewrite Hget, Hget3 by done. by apply pget_pset_eq.
  - by apply pget_pset_eq.
  - rewrite Hget by (done || apply o_addr). exact (pget_set_irec_eq _ o rec rec' Hf1).
  - intros y ? ? ? Hy. rewrite Hget, Hget3 by done. by apply (pget_pset_ne s _ _ Hs Hpa (proj1 Hw)).
  - rewrite pset_inf by done. exact (inf_set_irec_eq _ o rec rec' Hf1).
  - intros y Hy. rewrite pset_inf by done. etransitivity; [by apply (inf_set_irec_ne _ o rec)|].
    unfold inf. change (find_i (set_drec s1 (ir_off rec) data) y) with (find_i s1 y).
    fold (inf s1 y). by apply pset_inf, Hw.
  - rewrite pset_find_d. by eapply find_set_drec_eq.
  - intros y Hy. rewrite pset_find_d. etransitivity; [by eapply find_set_drec_ne|]. apply pset_find_d.
Qed.

(** ... or last, as in [_db_dodelete]. *)
Lemma moved_unlink_last : let s3 := set_irec (set_drec s (ir_off rec) data) o rec' in let s4 := pset s3 (7 * b2) o in
  wf_store s3 -> wf_store s4 -> moved (pset s4 p (ir_ptr rec)).
Proof.
  intros s3 s4 Hs3 Hs4. destruct (find_i_wf s o rec Hs Hf) as [Hw _].
  pose proof prev_ne_o. pose proof prev_ne_slot. pose proof moved_wf_ptr as Hop. pose proof o_ne_slot.
  assert (Hf2 : find_i (set_drec s (ir_off rec) data) o = Some rec) by exact Hf.
  assert (Ha3 : forall y, addr s3 y <-> addr s y) by (intros; by apply (addr_set_irec (set_drec s (ir_off rec) data) o rec)).
  assert (Hab : addr s3 (7 * b2)) by by apply Ha3, slot_addr.
  assert (Ha4 : forall y, addr s4 y <-> addr s y) by (intros; rewrite <-Ha3; by apply pset_addr).
  assert (Hpa : addr s4 p) by by apply Ha4, prev_addr.
  assert (Hget : forall y, y <> p -> y <> 7 * b2 -> addr s y -> pget (pset s4 p (ir_ptr rec)) y = pget s3 y).
  { intros y ? ? Hy. rewrite (pget_pset_ne s4 _ _ Hs4 Hpa (proj1 Hw)) by (done || by apply Ha4).
    by apply (pget_pset_ne s3 _ _ Hs3 Hab Hop); [|apply Ha3]. }
  split.
  - apply pget_pset_eq; done || apply Hw.
  - rewrite (pget_pset_ne s4 _ _ Hs4 Hpa (proj1 Hw)); [by apply pget_pset_eq|done|apply Ha4, slot_addr].
  - rewrite Hget by (done || apply o_addr). exact (pget_set_irec_eq _ o rec rec' Hf2).
  - intros y ? ? ? Hy. rewrite Hget by done. by apply (pget_set_irec_ne (set_drec s (ir_off rec) data) o rec).
  - rewrite pset_inf by (done || apply Hw). unfold s4. rewrite pset_inf by done. exact (inf_set_irec_eq _ o rec rec' Hf2).
  - intros y Hy. rewrite pset_inf by (done || apply Hw). unfold s4. rewrite pset_inf by done. by apply (inf_set_irec_ne (set_drec s (ir_off rec) data) o rec).
  - rewrite pset_find_d. unfold s4. rewrite pset_find_d. by eapply find_set_drec_eq.
  - intros y Hy. rewrite pset_find_d. unfold s4. rewrite pset_find_d. by eapply find_set_drec_ne.
Qed.
End moving.

(** ** The operations *)

Lemma end_i_pset s a v : wf_store s -> wf_ptr v -> end_i (pset s a v) = end_i s.
Proof.
  intros Hs Hv. unfold pset. destruct (a <? BASE); [done|].
  destruct (find_i s a) as [r|] eqn:E; [|done]. destruct (find_i_wf s a r Hs E) as [Hr _].
  unfold end_i, set_irec. simpl. by erewrite layout_upd_len by (done || by apply enc_irec_ptr).
Qed.

Lemma end_d_pset s a v : end_d (pset s a v) = end_d s.
Proof. unfold pset. destruct (a <? BASE); [done|]. by destruct (find_i s a). Qed.

(** A record rewritten under another key of the same length keeps its size. *)
Lemma rekey_wf r k' p : wf_irec r -> length k' = length (ir_key r) -> no_nul k' -> (SEP ∉ k') ->
  wf_ptr p -> let r' := IRec p k' (ir_off r) (ir_len r) in
  wf_irec r' /\ Zlen (ir_line r') = Zlen (ir_line r) /\ Zlen (enc_irec r') = Zlen (enc_irec r).
Proof.
  intros Hr Hk Hn Hsep Hp r'.
  assert (Hl : Zlen (ir_line r') = Zlen (ir_line r)).
  { unfold ir_line, record_line, Zlen. simpl. rewrite !length_app. lia. }
  assert (Hr' : wf_irec r').
  { destruct Hr as (_ & _ & _ & ? & ? & ?). unfold wf_irec. rewrite Hl. done. }
  split; [done|]. split; [done|]. rewrite !enc_irec_len by done. lia.
Qed.

Lemma no_nul_spaces n : no_nul (replicate n SPACE).
Proof. intros Hin. by apply elem_of_replicate in Hin as [? _]. Qed.

Lemma no_sep_spaces n : SEP ∉ replicate n SPACE.
Proof. intros Hin. by apply elem_of_replicate in Hin as [? _]. Qed.

(** What the rest of a call relies on. *)
Record kept (s s' : store) (d d' : DB) : Prop := {
  kp_chainoff : chainoff d' = chainoff d; kp_cnt : cnt d' = cnt d; kp_errno : errno d' = errno d;
  kp_locks : locks d' = unlocked IDX FREE_OFF 1 (locks d);
  kp_endi : end_i s' = end_i s; kp_endd : end_d s' = end_d s;
}.

Lemma wp_dodelete s ch b l1 o l2 rec d : repr s d -> good s ch -> 1 <= b <= NHASH_DEF ->
  ch b = l1 ++ o :: l2 -> find_i s o = Some rec -> at_rec d o rec -> ptroff d = prev (7 * b) l1 ->
  wp _db_dodelete (fun _ d' => exists s' ch', repr s' d' /\ good s' ch' /\ kept s s' d d' /\
    (forall o', o' ∈ ch' b -> o' ∈ ch b /\ o' <> o) /\ (forall x, x <> o -> inf s' x = inf s x) /\
    forall m, holds (inf s) (find_d s) ch m ->
      holds (inf s') (find_d s') ch' (delete (ir_key rec) m)) noexit d.
Proof.
  intros Hr Hg Hb1 Hch Hf [Hio Hpv Hbuf Hoff Hlen] Hptr.
  assert (Hb : inr_ b) by (unfold inr_; lia). assert (H0 : inr_ 0) by (unfold inr_, NHASH_DEF; lia).
  pose proof (repr_wf s d Hr) as Hs. destruct (find_i_wf s o rec Hs Hf) as [Hw Ho].
  destruct (rc_data _ _ _ (g_recs _ _ Hg) o _ _ _ (inf_find s o rec Hf)) as (x & Hx & Hxl).
  pose proof (Zlen_nonneg x).
  set (data := replicate (Z.to_nat (ir_len rec - 1)) SPACE).
  assert (Hdl : length data = length x).
  { unfold data. rewrite length_replicate, Hxl. unfold Zlen. lia. }
  set (key := replicate (length (ir_key rec)) SPACE).
  unfold _db_dodelete, writew_lock. wsteps.
  set (d1 := set_locks _ _). change (datbuf d1) with (replicate (Z.to_nat (datlen d - 1)) SPACE).
  rewrite Hlen. fold data.
  assert (Hr1 : repr s d1) by (eapply frame_repr; [|exact Hr]; done).
  apply (wp_writedat_set s data x); [done|by change (datoff d1) with (datoff d); rewrite Hoff|done
    |apply no_nul_spaces|]. intros p1 w1 d2 Hr2.
  change (datoff d1) with (datoff d) in Hr2. rewrite Hoff in Hr2.
  set (s2 := set_drec s (ir_off rec) data) in *.
  wsteps. apply (wp_readptr s2 0); [done|done|]. change (s_slots s2) with (s_slots s).
  rewrite (head0_slot s ch Hg 0 H0).
  assert (Hh : wf_ptr (head0 (ch 0))) by (rewrite <-(head0_slot s ch Hg 0 H0); by apply wf_slot).
  set (d3 := set_idxpos _ d2). assert (Hr3 : repr s2 d3) by (eapply frame_repr; [|exact Hr2]; done).
  wsteps.
  change (ptrval d3) with (ptrval d). change (idxoff d3) with (idxoff d).
  change (idxbuf d3) with (replicate (length (idxbuf d)) SPACE). rewrite Hpv, Hio, Hbuf. fold key.
  assert (Hf2 : find_i s2 o = Some rec) by exact Hf.
  destruct (rekey_wf rec key (head0 (ch 0)) Hw (length_replicate _ _) (no_nul_spaces _)
    (no_sep_spaces _) Hh) as (Hw' & Hline & Henc).
  set (rec' := IRec (head0 (ch 0)) key (ir_off rec) (ir_len rec)) in *.
  assert (Hrd : IRec (head0 (ch 0)) key (datoff d3) (datlen d3) = rec').
  { unfold rec'. f_equal; [exact Hoff|]. change (datlen d3) with (Zlen data + 1).
    rewrite Hxl. unfold Zlen. lia. }
  apply (wp_writeidx_set s2 o rec key (head0 (ch 0))); [done|done|by rewrite Hrd|by rewrite Hrd|].
  rewrite Hrd. intros p2 w2 d4 Hr4. set (s3 := set_irec s2 o rec') in *.
  wsteps. change (idxoff d4) with o.
  assert (Hn : b <> 0) by lia.
  pose proof (moved_wf_ptr s ch Hs Hg b 0 l1 l2 o rec Hb H0 Hn Hch Hf) as Hop.
  assert (Ha3 : forall y, addr s3 y <-> addr s y) by (intros; by apply (addr_set_irec s2 o rec)).
  apply (wp_writeptr s3 0); [done|apply Ha3; left; by exists 0|done|]. intros w3 p3 Hr5.
  set (s4 := pset s3 0 o) in *. set (d5 := set_idxpos p3 _) in *.
  wsteps. change (ptroff d5) with (ptroff d). rewrite Hptr.
  assert (Hpa : addr s4 (prev (7 * b) l1)) by (apply (pset_addr s3); [by eapply repr_wf|done|]; by apply Ha3, (prev_addr s ch Hs Hg b 0 l1 l2 o rec)).
  apply (wp_writeptr s4 (prev (7 * b) l1)); [done|done|apply Hw|]. intros w5 p5 Hr6.
  apply wp_un_lock.
  pose proof (moved_unlink_last s ch Hs Hg b 0 l1 l2 o rec Hb H0 Hn Hch Hf x key data Hx Hdl Henc
    (repr_wf s3 d4 Hr4) (repr_wf s4 d5 Hr5)) as HM.
  change (7 * 0) with 0 in HM. fold s2 rec' s3 s4 in HM.
  set (s5 := pset s4 (prev (7 * b) l1) (ir_ptr rec)) in *. destruct HM as [Hp_prev Hp_0 Hp_o Hp_x Hi_o Hi_x Hd_o Hd_x].
  assert (Hkey : Forall (eq SPACE) key) by (apply Forall_forall; intros c Hc; by apply elem_of_replicate in Hc as [-> _]).
  assert (Hlen' : ir_len rec = Zlen data + 1) by (unfold Zlen in *; lia).
  exists s5, (upd (upd ch b (l1 ++ l2)) 0 (o :: ch 0)). split; [|split; [|split; [|split; [|split]]]].
  - eapply repr_ext; [exact Hr6|done..].
  - apply (move_good s s5 ch Hg b 0 l1 l2 o rec key data); try done; lia.
  - split; try done.
    + unfold s5, s4. rewrite !end_i_pset by (done || apply Hw || by eapply repr_wf).
      unfold s3, end_i. simpl. by erewrite layout_upd_len by done.
    + unfold s5, s4. rewrite !end_d_pset. unfold s3, s2, end_d. simpl.
      erewrite layout_upd_len; [done|exact Hx|]. rewrite !enc_drec_len. unfold Zlen. lia.
  - intros o' Ho'. rewrite upd_ne, upd_eq in Ho' by lia.
    destruct (move_not_in s ch Hg b l1 l2 o Hb Hch). rewrite Hch. set_solver.
  - exact Hi_x.
  - intros m Hm. apply (move_holds_delete s s5 ch Hg b 0 l1 l2 o rec key data); try done; lia.
Qed.

(** *** Appending a record *)

(** What [db_store] may be given. *)
Record storable (key data : bytes) : Prop := {
  st_key : no_nul key; st_sep : SEP ∉ key; st_keylen : 1 <= Zlen key <= 998;
  st_data : no_nul data; st_datalen : 1 <= Zlen data <= 1023;
}.

(** There is room for another record: the files can still grow. *)
Definition room (s : store) : Prop := end_i s <= PTR_MAX /\ end_d s < 2 ^ 63.

Lemma new_rec_wf key data off p : storable key data -> 0 <= off < 2 ^ 63 -> wf_ptr p ->
  wf_irec (IRec p key off (Zlen data + 1)).
Proof.
  intros [Hk Hs Hkl Hd Hdl] Hoff Hp.
  assert (Hl : 6 <= Zlen (record_line key off (Zlen data + 1)) <= 1024).
  { unfold record_line. rewrite !Zlen_app.
    pose proof (dec_length_pos off ltac:(lia)). pose proof (dec_length 19 off ltac:(lia) ltac:(lia)).
    pose proof (dec_length_pos (Zlen data + 1) ltac:(lia)).
    pose proof (dec_length 4 (Zlen data + 1) ltac:(simpl; lia) ltac:(lia)).
    unfold Zlen in *. simpl (length [_]). lia. }
  split; [done|]. split; [done|]. split; [done|]. split; [done|].
  unfold DATLEN_MIN, DATLEN_MAX, IDXLEN_MIN, IDXLEN_MAX, ir_line. simpl. lia.
Qed.

Lemma irecs_pos s : wf_store s -> Forall (fun r => 0 < Zlen (enc_irec r)) (s_irecs s).
Proof.
  intros Hs. eapply Forall_impl; [apply (wf_irecs s Hs)|]. intros r Hr. simpl.
  rewrite enc_irec_len by done. pose proof (Zlen_nonneg (ir_line r)). lia.
Qed.

Lemma drecs_pos s : Forall (fun x => 0 < Zlen (enc_drec x)) (s_drecs s).
Proof. apply Forall_forall. intros x _. rewrite enc_drec_len. pose proof (Zlen_nonneg x). lia. Qed.

Section append.
Context (s : store) (ch : Z -> list Z) (Hg : good s ch) (Hs : wf_store s).
Context (b : Z) (key data : bytes) (Hst : storable key data) (Hroom : room s).
Hypothesis Hb : b = bucket key.
Hypothesis Hfresh : forall o off len, o ∈ ch b -> inf s o <> Some (key, off, len).

Let o := end_i s.
Let r := IRec (head0 (ch b)) key (end_d s) (Zlen data + 1).
Let s2 := add_irec (add_drec s data) r.
Let s3 := pset s2 (7 * b) o.

Lemma app_b : inr_ b /\ 1 <= b.
Proof. pose proof (bucket_range key). unfold inr_. lia. Qed.

Lemma app_head : wf_ptr (head0 (ch b)).
Proof. rewrite <-(head0_slot s ch Hg b (proj1 app_b)). by apply wf_slot, app_b. Qed.

Lemma app_o : BASE <= o /\ wf_ptr o.
Proof.
  destruct Hroom. unfold o, end_i, wf_ptr, BASE in *.
  pose proof (layout_len_nonneg enc_irec (s_irecs s)). lia.
Qed.

Lemma app_wf : wf_irec r.
Proof.
  apply new_rec_wf; [done| |apply app_head]. destruct Hroom.
  pose proof (layout_len_nonneg enc_drec (s_drecs s)). unfold end_d in *. lia.
Qed.

Lemma app_find_o : find_i s2 o = Some r.
Proof. apply find_at_end. by apply irecs_pos. Qed.

Lemma app_find x : x <> o -> find_i s2 x = find_i s x.
Proof. apply find_at_app_ne. Qed.

Lemma app_none x : find_i s x <> None -> x < o.
Proof.
  destruct (find_i s x) as [q|] eqn:E; [|done]. intros _. pose proof (find_at_range _ _ _ _ _ E).
  destruct (find_i_wf s x q Hs E) as [Hq _]. pose proof (enc_irec_len q Hq).
  pose proof (Zlen_nonneg (ir_line q)). unfold o, end_i. lia.
Qed.

Lemma app_inf x : x <> o -> inf s3 x = inf s x.
Proof.
  intros Hx. unfold s3. rewrite pset_inf.
  - unfold inf. by rewrite app_find.
  - apply wf_add_irec; [|apply app_wf]. apply wf_add_drec; [done|apply Hst].
  - apply app_o.
Qed.

Lemma app_s2_wf : wf_store s2.
Proof. apply wf_add_irec; [|apply app_wf]. apply wf_add_drec; [done|apply Hst]. Qed.

Lemma app_inf_o : inf s3 o = Some (key, end_d s, Zlen data + 1).
Proof.
  unfold s3. rewrite pset_inf; [|apply app_s2_wf|apply app_o]. by rewrite (inf_find s2 o r app_find_o).
Qed.

Lemma app_fd_o : find_d s3 (end_d s) = Some data.
Proof. unfold s3. rewrite pset_find_d. apply (find_at_end enc_drec 0), drecs_pos. Qed.

Lemma app_fd x : x <> end_d s -> find_d s3 x = find_d s x.
Proof. intros. unfold s3. rewrite pset_find_d. by apply (find_at_app_ne enc_drec 0). Qed.

Lemma app_addr x : addr s x -> addr s2 x.
Proof.
  intros [?|[q Hq]]; [by left|right]. exists q. by apply find_at_app.
Qed.

Lemma app_pget x : addr s x -> x <> 7 * b -> pget s3 x = pget s x.
Proof.
  intros Hx Hne. unfold s3. rewrite pget_pset_ne; [|apply app_s2_wf|left; exists b; split; [apply app_b|done]
    |apply app_o|done|by apply app_addr].
  unfold pget. destruct (x <? BASE) eqn:E; [done|]. rewrite app_find; [done|].
  destruct Hx as [(c & Hc & ->)|[q Hq]]; [pose proof (slot_below c Hc); lia|].
  pose proof (app_none x ltac:(by rewrite Hq)). lia.
Qed.

Let ch' := upd ch b (o :: ch b).

Lemma app_fresh c : inr_ c -> o ∉ ch c.
Proof.
  intros Hc Ho. destruct (rc_in _ _ _ (g_recs _ _ Hg) c o Hc Ho) as [i Hi].
  assert (is_Some (find_i s o)) as [q Hq] by (rewrite <-inf_some; eauto).
  pose proof (app_none o ltac:(by rewrite Hq)). lia.
Qed.

Lemma app_links : links (pget s3) ch'.
Proof.
  destruct app_b as [Hb' Hb1]. pose proof (slot_below b Hb').
  assert (Hab : addr s2 (7 * b)) by (left; by exists b). destruct app_o as [Ho Hop].
  apply (links_push (pget s) (pget s3) ch (g_links _ _ Hg) b o (head0 (ch b))); try done.
  - apply app_fresh.
  - by apply chain_head, (lk_chain _ _ (g_links _ _ Hg)).
  - apply pget_pset_eq; [apply app_s2_wf|done].
  - unfold s3. rewrite pget_pset_ne; [|apply app_s2_wf|done|done|lia|right; rewrite app_find_o; by eexists].
    rewrite pget_rec by done. by rewrite app_find_o.
  - intros x ? ? (c & Hc & Hx). apply app_pget; [|done]. destruct Hx as [->|Hx]; [left; by exists c|right].
    rewrite <-inf_some. by eapply (rc_in _ _ _ (g_recs _ _ Hg)).
Qed.

Lemma app_conditions :
  (forall o', o' <> end_d s -> is_Some (find_d s o') -> find_d s3 o' = find_d s o') /\
  (forall o' k' len', inf s o' = Some (k', end_d s, len') -> o' = o) /\
  (forall c, inr_ c -> o ∈ ch' c <-> c = b) /\
  (forall c o', inr_ c -> o' <> o -> o' ∈ ch' c <-> o' ∈ ch c).
Proof.
  split_and!.
  - intros o' ? _. by apply app_fd.
  - intros o' k' len' Hi. destruct (rc_data _ _ _ (g_recs _ _ Hg) _ _ _ _ Hi) as (y & Hy & _).
    pose proof (find_at_range _ _ _ _ _ Hy). rewrite enc_drec_len in *.
    pose proof (Zlen_nonneg y). unfold end_d in *. lia.
  - intros c Hc. unfold ch', upd. destruct (Z.eqb_spec c b) as [->|].
    + split; [done|]. intros _. apply elem_of_cons. by left.
    + split; [|done]. intros Ho. by apply app_fresh in Ho.
  - intros c o' Hc Ho'. unfold ch', upd. destruct (Z.eqb_spec c b) as [->|]; [|done].
    rewrite elem_of_cons. naive_solver.
Qed.

Lemma app_good : good s3 ch'.
Proof.
  split; [apply app_links|]. destruct app_conditions as (H1 & H2 & H3 & H4), app_b as [Hb' Hb1].
  apply (recs_update (inf s) (inf s3) (find_d s) (find_d s3) ch ch' (g_recs _ _ Hg) o b (end_d s)
    (Zlen data + 1) key data); try done.
  - apply app_inf_o.
  - apply app_fd_o.
  - apply app_inf.
  - intros o' off' len' _ Hin Hi. by destruct (Hfresh o' off' len').
  - lia.
Qed.

Lemma app_holds m : holds (inf s) (find_d s) ch m -> holds (inf s3) (find_d s3) ch' (<[key := data]> m).
Proof.
  destruct app_conditions as (H1 & H2 & H3 & H4), app_b as [Hb' Hb1].
  apply (holds_insert (inf s) (inf s3) (find_d s) (find_d s3) ch ch' (g_recs _ _ Hg) o b (end_d s)
    (Zlen data + 1) key data); try done.
  - apply app_inf_o.
  - apply app_fd_o.
  - apply app_inf.
  - intros o' off' len' _ Hin Hi. by destruct (Hfresh o' off' len').
  - intros k' y (Hin & _). pose proof (bucket_range k'). exfalso. eapply app_fresh, Hin.
    unfold inr_. lia.
Qed.
End append.

(** Append a data record and an index record, and link the latter in. *)
Lemma wp_append s ch key data b d (k : M DB unit) (Q : unit -> DB -> Prop) :
  repr s d -> good s ch -> storable key data -> room s -> b = bucket key ->
  (forall o off len, o ∈ ch b -> inf s o <> Some (key, off, len)) -> chainoff d = 7 * b ->
  (forall d' s' ch', repr s' d' -> good s' ch' ->
     (forall m, holds (inf s) (find_d s) ch m -> holds (inf s') (find_d s') ch' (<[key := data]> m)) ->
     chainoff d' = chainoff d -> cnt d' = cnt d -> errno d' = errno d ->
     locks d' = unlocked IDX BASE 0 (unlocked DAT 0 0 (locks d)) -> wp k Q noexit d') ->
  wp (_db_writedat data 0 SEEK_END ;; _db_writeidx key 0 SEEK_END (head0 (ch b)) ;;
      off <- gets chainoff ;; ioff <- gets idxoff ;; _db_writeptr off ioff ;; k) Q noexit d.
Proof.
  intros Hr Hg Hst Hroom Hb Hfresh Hco HQ. pose proof (repr_wf s d Hr) as Hs.
  wstep. apply (wp_writedat_end s); [done|apply Hst|]. intros p1 w1 d1 Hr1.
  wstep. pose proof (app_wf s ch Hg Hs b key data Hst Hroom Hb) as Hw.
  apply (wp_writeidx_end (add_drec s data)); [done|exact Hw|]. intros p2 w2 d2 Hr2.
  wsteps. change (chainoff d2) with (chainoff d). rewrite Hco.
  change (idxoff d2) with (end_i s).
  apply (wp_writeptr (add_irec (add_drec s data) (IRec (head0 (ch b)) key (end_d s) (Zlen data + 1)))).
  - exact Hr2.
  - left. exists b. split; [|done]. pose proof (bucket_range key). unfold inr_. lia.
  - by apply (app_o s).
  - intros y p Hr3. eapply HQ; [exact Hr3| |..|reflexivity|reflexivity|reflexivity|reflexivity].
    + by apply (app_good s ch Hg Hs b key data).
    + by apply (app_holds s ch Hg Hs b key data).
Qed.

(** Overwrite the data of a live record by data of the same length. *)
Lemma wp_overwrite s ch b key data o rec d (k : M DB unit) (Q : unit -> DB -> Prop) :
  repr s d -> good s ch -> b = bucket key -> o ∈ ch b -> find_i s o = Some rec -> ir_key rec = key ->
  at_rec d o rec -> ir_len rec = Zlen data + 1 -> no_nul data ->
  (forall d' s', repr s' d' -> good s' ch ->
     (forall m, holds (inf s) (find_d s) ch m -> holds (inf s') (find_d s') ch (<[key := data]> m)) ->
     chainoff d' = chainoff d -> cnt d' = cnt d -> errno d' = errno d -> locks d' = locks d ->
     wp k Q noexit d') ->
  wp (doff <- gets datoff ;; _db_writedat data doff SEEK_SET ;; k) Q noexit d.
Proof.
  intros Hr Hg Hb Hin Hf Hkey [_ _ _ Hoff Hlen] Hl Hnul HQ. pose proof (bucket_range key).
  destruct (rc_data _ _ _ (g_recs _ _ Hg) o _ _ _ (inf_find s o rec Hf)) as (x & Hx & Hxl).
  assert (Hdl : length data = length x) by (unfold Zlen in *; lia).
  wsteps. apply (wp_writedat_set s data x); [done|by rewrite Hoff|done|done|].
  intros p w d' Hr'. rewrite Hoff in Hr'. set (s' := set_drec s (ir_off rec) data) in *.
  assert (Hi : forall y, inf s' y = inf s y) by done.
  assert (Hfo : find_d s' (ir_off rec) = Some data) by by eapply find_set_drec_eq.
  assert (Hfn : forall y, y <> ir_off rec -> find_d s' y = find_d s y)
    by (intros; by eapply find_set_drec_ne).
  assert (Hio : inf s o = Some (key, ir_off rec, ir_len rec)) by (by rewrite (inf_find s o rec Hf), Hkey).
  assert (Hon : forall o' k' len', inf s o' = Some (k', ir_off rec, len') -> o' = o).
  { intros o' k' len' H'. by eapply (rc_inj _ _ _ (g_recs _ _ Hg)). }
  assert (Hib : forall c, inr_ c -> o ∈ ch c <-> c = b).
  { intros c Hc. split; [|by intros ->]. intros Ho.
    apply (lk_disj _ _ (g_links _ _ Hg) c b o); try done. unfold inr_. lia. }
  assert (Hkeys : forall o' off' len', 1 <= b -> o' ∈ ch b -> inf s o' = Some (key, off', len') -> o' = o).
  { intros o' off' len' _ Ho' Hi'. eapply (rc_keys _ _ _ (g_recs _ _ Hg) b); try done. lia. }
  apply HQ with s'; try done.
  - destruct Hg as [Hlk Hrc]. split; [exact Hlk|].
    apply (recs_update (inf s) (inf s') (find_d s) (find_d s') ch ch Hrc o b (ir_off rec) (ir_len rec)
      key data); try done; unfold inr_; try lia. intros; by apply Hfn.
  - intros m. apply (holds_insert (inf s) (inf s') (find_d s) (find_d s') ch ch (g_recs _ _ Hg) o b
      (ir_off rec) (ir_len rec) key data); try done; unfold inr_; try lia.
    + intros; by apply Hfn.
    + intros k' y (_ & off' & len' & Hi' & _). rewrite Hio in Hi'. by injection Hi'.
Qed.

(** Reuse a free record that has been unlinked from the free list. *)
Lemma wp_reuse s ch key data b l1 l2 o rec d (k : M DB unit) (Q : unit -> DB -> Prop) :
  let s1 := pset s (prev 0 l1) (ir_ptr rec) in
  repr s1 d -> wf_store s -> good s ch -> storable key data -> b = bucket key ->
  (forall o off len, o ∈ ch b -> inf s o <> Some (key, off, len)) -> chainoff d = 7 * b ->
  ch 0 = l1 ++ o :: l2 -> find_i s o = Some rec -> Zlen (ir_key rec) = Zlen key ->
  ir_len rec = Zlen data + 1 -> datoff d = ir_off rec -> idxoff d = o ->
  (forall d' s' ch', repr s' d' -> good s' ch' ->
     (forall m, holds (inf s) (find_d s) ch m -> holds (inf s') (find_d s') ch' (<[key := data]> m)) ->
     chainoff d' = chainoff d -> cnt d' = cnt d -> errno d' = errno d -> locks d' = locks d ->
     wp k Q noexit d') ->
  wp (doff <- gets datoff ;; _db_writedat data doff SEEK_SET ;;
      ioff <- gets idxoff ;; _db_writeidx key ioff SEEK_SET (head0 (ch b)) ;;
      off <- gets chainoff ;; ioff <- gets idxoff ;; _db_writeptr off ioff ;; k) Q noexit d.
Proof.
  intros s1 Hr Hs Hg Hst Hb Hfresh Hco Hch Hf Hkl Hdl Hoff Hio HQ.
  assert (Hb1 : 1 <= b <= NHASH_DEF) by (subst b; apply bucket_range).
  assert (Hbr : inr_ b) by (unfold inr_; lia). assert (H0 : inr_ 0) by (unfold inr_, NHASH_DEF; lia).
  assert (Hn : 0 <> b) by lia. destruct (find_i_wf s o rec Hs Hf) as [Hw Ho].
  pose proof (prev_ne_o s ch Hs Hg 0 b l1 l2 o rec H0 Hbr Hn Hch Hf) as Hpo.
  pose proof (moved_wf_ptr s ch Hs Hg 0 b l1 l2 o rec H0 Hbr Hn Hch Hf) as Hop. change (7 * 0) with 0 in *.
  assert (Hf1 : find_i s1 o = Some rec) by (unfold s1; by rewrite find_i_pset by (done || apply Hw || auto)).
  destruct (rc_data _ _ _ (g_recs _ _ Hg) o _ _ _ (inf_find s o rec Hf)) as (x & Hx & Hxl).
  assert (Hx1 : find_d s1 (ir_off rec) = Some x) by (unfold s1; by rewrite pset_find_d).
  assert (Hlx : length x = length data) by (unfold Zlen in *; lia).
  wsteps. apply (wp_writedat_set s1 data x); [done|by rewrite Hoff|done|apply Hst|].
  intros p1 w1 d2 Hr2. rewrite Hoff in Hr2. set (s2 := set_drec s1 (ir_off rec) data) in *.
  wsteps. change (idxoff d2) with (idxoff d). rewrite Hio.
  assert (Hf2 : find_i s2 o = Some rec) by exact Hf1.
  assert (Hh : wf_ptr (head0 (ch b))) by (by rewrite <-(head0_slot s ch Hg b Hbr); apply wf_slot).
  destruct (rekey_wf rec key (head0 (ch b)) Hw ltac:(unfold Zlen in *; lia) (st_key _ _ Hst)
    (st_sep _ _ Hst) Hh) as (Hw' & Hline & Henc).
  set (rec' := IRec (head0 (ch b)) key (ir_off rec) (ir_len rec)) in *.
  assert (Hrd : IRec (head0 (ch b)) key (datoff d2) (datlen d2) = rec').
  { unfold rec'. f_equal; [exact Hoff|]. by rewrite Hdl. }
  apply (wp_writeidx_set s2 o rec key (head0 (ch b))); [done|done|by rewrite Hrd|by rewrite Hrd|].
  rewrite Hrd. intros p2 w2 d3 Hr3. set (s3 := set_irec s2 o rec') in *.
  wsteps. change (chainoff d3) with (chainoff d). rewrite Hco. change (idxoff d3) with o.
  assert (Hab : addr s3 (7 * b)).
  { apply (addr_set_irec s2 o rec); [done..|]. apply (pset_addr s); [done|apply Hw|by apply slot_addr]. }
  apply (wp_writeptr s3 (7 * b) o); [done|done|done|]. intros w4 p4 Hr4.
  pose proof (moved_unlink_first s ch Hs Hg 0 b l1 l2 o rec H0 Hbr Hn Hch Hf x key data Hx (eq_sym Hlx) Henc
    (repr_wf s3 d3 Hr3)) as HM.
  change (7 * 0) with 0 in HM. fold s1 s2 rec' s3 in HM.
  set (s4 := pset s3 (7 * b) o) in *. destruct HM as [Hp_prev Hp_b Hp_o Hp_x Hi_o Hi_x Hd_o Hd_x].
  apply HQ with (s' := s4) (ch' := upd (upd ch 0 (l1 ++ l2)) b (o :: ch b)); [exact Hr4|..|reflexivity|reflexivity|reflexivity|reflexivity].
  - apply (move_good s s4 ch Hg 0 b l1 l2 o rec key data); try done; intros; lia || by apply Hfresh.
  - intros m Hm. apply (move_holds_insert s s4 ch Hg 0 b l1 l2 o rec key data); try done;
      intros; lia || by apply Hfresh.
Qed.
