(* ===== verification/DbTheorems.v ===== *)
(** DbTheorems: the database of db.c is a finite map. The relation [implements]
    between a handle and a map is established by [db_open] and kept by every
    call, whose result is that of the map operation. *)
From stdpp Require Import sets gmap list.
From S2P Require Import Prelude Arrays Bytes Db DbBytes DbLinks DbProofs.

Definition implements (d : DB) (m : gmap bytes bytes) : Prop :=
  exists s ch, repr s d /\ good s ch /\ holds (inf s) (find_d s) ch m.

(** The specification of [db_store]: its result and the map afterwards. *)
Definition store_spec (m : gmap bytes bytes) (key data : bytes) (flag : Z) : Z * gmap bytes bytes :=
  match m !! key with
  | Some _ => if flag =? DB_INSERT then (1, m) else (0, <[key := data]> m)
  | None => if flag =? DB_REPLACE then (-1, m) else (0, <[key := data]> m)
  end.

Section calls.
Variable fuel : nat.
Implicit Types (d : DB) (m : gmap bytes bytes) (key data : bytes).

Lemma frame_implements d d' m : frame d d' -> implements d m -> implements d' m.
Proof. intros Hf (s & ch & Hr & H). exists s, ch. split; [by eapply frame_repr|done]. Qed.

Lemma implements_ext d d' m : implements d m -> idx d' = idx d -> dat d' = dat d ->
  nhash d' = nhash d -> hashoff d' = hashoff d -> implements d' m.
Proof. intros (s & ch & Hr & H) ? ? ? ?. exists s, ch. split; [by eapply repr_ext|done]. Qed.

(** The outcome of the search in terms of the map. *)
Lemma found_lookup s ch m key l1 o l2 rec : good s ch -> holds (inf s) (find_d s) ch m ->
  ch (bucket key) = l1 ++ o :: l2 -> find_i s o = Some rec -> ir_key rec = key ->
  exists x, m !! key = Some x /\ find_d s (ir_off rec) = Some x /\ ir_len rec = Zlen x + 1.
Proof.
  intros Hg Hm Hch Hf Hk. pose proof (inf_find s o rec Hf) as Hi. rewrite Hk in Hi.
  destruct (rc_data _ _ _ (g_recs _ _ Hg) o _ _ _ Hi) as (x & Hx & Hl).
  exists x. split; [|done]. apply Hm. exists o. split; [rewrite Hch; set_solver|].
  by exists (ir_off rec), (ir_len rec).
Qed.

Lemma absent_lookup s ch m key : holds (inf s) (find_d s) ch m ->
  (forall o off len, o ∈ ch (bucket key) -> inf s o <> Some (key, off, len)) -> m !! key = None.
Proof.
  intros Hm Hno. destruct (m !! key) as [x|] eqn:E; [|done].
  apply Hm in E as (o & Hin & off & len & Hi & _). by destruct (Hno o off len).
Qed.

Lemma unlock_chain w b : unlocked IDX (7 * b) 1 [Lock IDX w (7 * b) 1] = [].
Proof. by rewrite unlocked_cons. Qed.

Lemma wp_fetch d m key : implements d m -> locks d = [] -> (Z.to_nat (Zlen (idx d)) < fuel)%nat ->
  wp (db_fetch fuel key) (fun r d' => r = m !! key /\ implements d' m /\ idx d' = idx d /\
    dat d' = dat d /\ locks d' = [] /\
    cnt d' = incr (if m !! key is Some _ then FETCHOK else FETCHERR) (cnt d)) noexit d.
Proof.
  intros (s & ch & Hr & Hg & Hm) Hl Hfuel. unfold db_fetch. wstep.
  eapply wp_conseq; [by eapply (wp_find_and_lock fuel s ch)|].
  intros r d1 (Hf & Hl1 & Hc & Hres). rewrite Hl in Hl1.
  assert (Hr1 : repr s d1) by (eapply frame_repr; eassumption).
  destruct Hres as [[-> Hno]|(-> & l1 & o & l2 & rec & Hch & Hfo & Hk & Hat & _)].
  - rewrite (absent_lookup s ch m key Hm Hno). wsteps; [|done]. apply wp_un_lock. wsteps.
    split; [done|]. simpl. rewrite Hc, Hl1. split_and!; try apply Hf.
    + apply implements_ext with (d := d1); try done. by exists s, ch.
    + apply unlock_chain.
    + by rewrite (fr_cnt _ _ Hf).
  - destruct (found_lookup s ch m key l1 o l2 rec Hg Hm Hch Hfo Hk) as (x & -> & Hx & Hlen).
    wsteps; [done|]. destruct Hat.
    apply (wp_readdat s x); [done|congruence|congruence|]. wsteps. apply wp_un_lock. wsteps.
    split; [done|]. simpl. rewrite Hc, Hl1. split_and!; try apply Hf.
    + apply implements_ext with (d := d1); try done. by exists s, ch.
    + apply unlock_chain.
    + by rewrite (fr_cnt _ _ Hf).
Qed.

Lemma wp_delete d m key : implements d m -> locks d = [] -> (Z.to_nat (Zlen (idx d)) < fuel)%nat ->
  wp (db_delete fuel key) (fun r d' => r = (if m !! key is Some _ then 0 else -1) /\
    implements d' (delete key m) /\ locks d' = [] /\
    cnt d' = incr (if m !! key is Some _ then DELOK else DELERR) (cnt d)) noexit d.
Proof.
  intros (s & ch & Hr & Hg & Hm) Hl Hfuel. unfold db_delete. wstep.
  eapply wp_conseq; [by eapply (wp_find_and_lock fuel s ch)|].
  intros r d1 (Hf & Hl1 & Hc & Hres). rewrite Hl in Hl1. pose proof (bucket_range key).
  assert (Hr1 : repr s d1) by (eapply frame_repr; eassumption).
  destruct Hres as [[-> Hno]|(-> & l1 & o & l2 & rec & Hch & Hfo & Hk & Hat & Hptr)].
  - pose proof (absent_lookup s ch m key Hm Hno) as Hnone. rewrite Hnone. wsteps; [done|].
    apply wp_un_lock. wsteps.
    split; [done|]. simpl. rewrite Hc, Hl1, delete_id by done. split_and!.
    + apply implements_ext with (d := d1); try done. by exists s, ch.
    + apply unlock_chain.
    + by rewrite (fr_cnt _ _ Hf).
  - destruct (found_lookup s ch m key l1 o l2 rec Hg Hm Hch Hfo Hk) as (x & -> & Hx & Hlen).
    wsteps; [|done]. eapply wp_conseq; [by eapply (wp_dodelete s ch (bucket key) l1 o l2 rec)|].
    intros [] d2 (s' & ch' & Hr2 & Hg2 & [] & _ & _ & Hm2). wsteps. apply wp_un_lock. wsteps.
    split; [done|]. simpl. split_and!.
    + apply implements_ext with (d := d2); try done. exists s', ch'. split_and!; [done..|].
      rewrite <-Hk. by apply Hm2.
    + rewrite kp_locks, Hl1, kp_chainoff, Hc. unfold unlocked, FREE_OFF.
      rewrite filter_cons_True by (simpl; lia). rewrite filter_nil. apply unlock_chain.
    + by rewrite kp_cnt, (fr_cnt _ _ Hf).
Qed.

Lemma wp_findfree s ch keylen dlen d : repr s d -> good s ch ->
  (Z.to_nat (Zlen (idx d)) < fuel)%nat ->
  wp (_db_findfree fuel keylen dlen) (fun r d' => chainoff d' = chainoff d /\ cnt d' = cnt d /\
    errno d' = errno d /\ locks d' = unlocked IDX FREE_OFF 1 (locks d) /\
    (r = -1 /\ repr s d' \/
     r = 0 /\ exists l1 o l2 rec, ch 0 = l1 ++ o :: l2 /\ find_i s o = Some rec /\
       Zlen (ir_key rec) = keylen /\ ir_len rec = dlen /\
       repr (pset s (prev 0 l1) (ir_ptr rec)) d' /\ datoff d' = ir_off rec /\ idxoff d' = o))
    noexit d.
Proof.
  intros Hr Hg Hfuel. assert (H0 : inr_ 0) by (unfold inr_, NHASH_DEF; lia).
  pose proof (repr_wf s d Hr) as Hs. unfold _db_findfree, writew_lock. wsteps.
  set (d1 := set_locks _ d). apply (wp_readptr s 0); [by eapply repr_ext|done|].
  rewrite (head0_slot s ch Hg 0 H0). set (d2 := set_idxpos _ d1). wstep.
  eapply wp_conseq; [apply (wp_free_walk fuel s ch Hg keylen dlen d2); [by eapply repr_ext|done]|].
  intros [sv o] d3 (Hf & Hl & Hc & Hres).
  assert (Hr3 : repr s d3) by (eapply frame_repr; [exact Hf|by eapply repr_ext]).
  assert (Hl3 : unlocked IDX FREE_OFF 1 (locks d3) = unlocked IDX FREE_OFF 1 (locks d))
    by (rewrite Hl; apply unlocked_cons).
  destruct Hres as [->|(l1 & l2 & rec & Hch & Hfo & -> & Ho & Hk & Hd & [])].
  - wsteps; [|done]. apply wp_un_lock. wsteps. simpl. rewrite Hc, Hl3.
    split_and!; [done|apply Hf..|done|]. left. split; [done|]. by eapply repr_ext.
  - wsteps; [unfold BASE in Ho; lia|]. rewrite ar_ptrval.
    apply (wp_writeptr s); [done| |by apply (find_i_wf s o rec)|].
    { destruct (prev_in 0 l1) as [->|E]; [left; by exists 0|right].
      rewrite <-inf_some. apply (rc_in _ _ _ (g_recs _ _ Hg) 0); [done|]. rewrite Hch. set_solver. }
    intros y p Hr4. wsteps. apply wp_un_lock. wsteps. simpl. rewrite Hc, Hl3.
    split_and!; [done|apply Hf..|done|]. right. split; [done|].
    exists l1, o, l2, rec. split_and!; try done. by eapply repr_ext.
Qed.

Lemma unlocked_keep f b w b' : 7 * b <> b' -> unlocked f b' 1 [Lock IDX w (7 * b) 1] = [Lock IDX w (7 * b) 1].
Proof. intros. unfold unlocked. rewrite filter_cons_True by (simpl; lia). by rewrite filter_nil. Qed.

Lemma unlocked_keep_len f b w off len : len <> 1 ->
  unlocked f off len [Lock IDX w (7 * b) 1] = [Lock IDX w (7 * b) 1].
Proof. intros. unfold unlocked. rewrite filter_cons_True by (simpl; lia). by rewrite filter_nil. Qed.

(** The counter of a store: appended, reused, moved, overwritten, refused. *)
Definition is_store_counter (w : counter) : Prop :=
  w = STOR1 \/ w = STOR2 \/ w = STOR3 \/ w = STOR4 \/ w = STORERR.

(** The two arms of [db_store], after the key has been looked for. *)
Section store.
Context (s : store) (ch : Z -> list Z) (m : gmap bytes bytes) (key data : bytes) (flag : Z) (d : DB).
Notation b := (bucket key).
Hypothesis Hr : repr s d.
Hypothesis Hg : good s ch.
Hypothesis Hm : holds (inf s) (find_d s) ch m.
Hypothesis Hst : storable key data.
Hypothesis Hroom : room s.
Hypothesis Hfuel : (Z.to_nat (Zlen (idx d)) < fuel)%nat.
Hypothesis Hc : chainoff d = 7 * b.
Hypothesis Hl : locks d = [Lock IDX true (7 * b) 1].

Definition store_result (rc : Z) (d' : DB) : Prop :=
  rc = (store_spec m key data flag).1 /\ implements d' (store_spec m key data flag).2 /\
  chainoff d' = 7 * b /\ locks d' = [Lock IDX true (7 * b) 1] /\
  exists w, is_store_counter w /\ cnt d' = incr w (cnt d).

Lemma store_refused rc d' : store_spec m key data flag = (rc, m) -> idx d' = idx d -> dat d' = dat d ->
  nhash d' = nhash d -> hashoff d' = hashoff d -> chainoff d' = chainoff d -> locks d' = locks d ->
  cnt d' = incr STORERR (cnt d) -> store_result rc d'.
Proof.
  intros E ? ? ? ? Hc' Hl' Hcn. unfold store_result. rewrite E, Hc', Hl'. split_and!; try done.
  - by apply implements_ext with (d := d); [exists s, ch|..].
  - exists STORERR. split; [|done]. unfold is_store_counter. tauto.
Qed.

Lemma store_done w d' s' ch' : store_spec m key data flag = (0, <[key := data]> m) -> repr s' d' -> good s' ch' ->
  holds (inf s') (find_d s') ch' (<[key := data]> m) -> chainoff d' = chainoff d -> cnt d' = cnt d ->
  locks d' = locks d -> is_store_counter w -> store_result 0 (set_cnt (incr w (cnt d')) d').
Proof.
  intros E Hr' Hg' Hm' Hc' Hcn Hl' Hw. unfold store_result. rewrite E. simpl. rewrite Hc', Hl'. split_and!; try done.
  - apply implements_ext with (d := d'); try done. by exists s', ch'.
  - exists w. by rewrite Hcn.
Qed.

Lemma wp_store_new : (forall o off len, o ∈ ch b -> inf s o <> Some (key, off, len)) ->
  wp (if flag =? DB_REPLACE then
        modify (fun d => set_cnt (incr STORERR (cnt d)) d) ;; modify (set_errno ENOENT) ;; ret (-1)
      else
        off <- gets chainoff ;; ptr <- _db_readptr off ;; f <- _db_findfree fuel (Zlen key) (Zlen data + 1) ;;
        (if f <? 0 then
           _db_writedat data 0 SEEK_END ;; _db_writeidx key 0 SEEK_END ptr ;;
           off <- gets chainoff ;; ioff <- gets idxoff ;; _db_writeptr off ioff ;;
           modify (fun d => set_cnt (incr STOR1 (cnt d)) d)
         else
           doff <- gets datoff ;; _db_writedat data doff SEEK_SET ;;
           ioff <- gets idxoff ;; _db_writeidx key ioff SEEK_SET ptr ;;
           off <- gets chainoff ;; ioff <- gets idxoff ;; _db_writeptr off ioff ;;
           modify (fun d => set_cnt (incr STOR2 (cnt d)) d)) ;;
        ret 0) store_result noexit d.
Proof.
  intros Hno. pose proof (bucket_range key) as Hbk. assert (Hb : inr_ b) by (unfold inr_; lia).
  pose proof (absent_lookup s ch m key Hm Hno) as Em.
  destruct (Z.eqb_spec flag DB_REPLACE) as [Ef|Hnr].
  { wsteps. apply store_refused; try done. unfold store_spec. by rewrite Em, Ef. }
  assert (Es : store_spec m key data flag = (0, <[key := data]> m)).
  { unfold store_spec. by rewrite Em, (proj2 (Z.eqb_neq _ _) Hnr). }
  wsteps. rewrite Hc. apply (wp_readptr s b); [done|done|]. rewrite (head0_slot s ch Hg b Hb).
  set (d2 := set_idxpos _ d). wstep.
  eapply wp_conseq; [apply (wp_findfree s ch (Zlen key) (Zlen data + 1) d2); [by eapply repr_ext|done..]|].
  intros f d3 (Hc3 & Hcn3 & He3 & Hl3 & Hres3). simpl in Hc3, Hcn3, Hl3.
  rewrite Hl, unlocked_keep in Hl3 by (unfold FREE_OFF; lia). rewrite Hc in Hc3.
  destruct Hres3 as [[-> Hr3]|(-> & l1 & o & l2 & rec & Hch & Hfo & Hk & Hd & Hr3 & Hdo & Hio)].
  - wstep. rewrite (proj2 (Z.ltb_lt _ _)) by lia.
    apply (wp_append s ch key data b); try done. intros d4 s' ch' Hr4 Hg4 Hm4 Hc4 Hcn4 He4 Hl4.
    wsteps. apply (store_done STOR1 d4 s' ch'); try done; [by apply Hm4|congruence..| |unfold is_store_counter; tauto].
    by rewrite Hl4, Hl3, Hl, !unlocked_keep_len.
  - wstep. rewrite (proj2 (Z.ltb_ge 0 0)) by lia.
    apply (wp_reuse s ch key data b l1 l2 o rec); try done; [by eapply repr_wf|].
    intros d4 s' ch' Hr4 Hg4 Hm4 Hc4 Hcn4 He4 Hl4.
    wsteps. apply (store_done STOR2 d4 s' ch'); try done; [by apply Hm4|congruence..|unfold is_store_counter; tauto].
Qed.

Lemma wp_store_old l1 o l2 rec : ch b = l1 ++ o :: l2 -> find_i s o = Some rec -> ir_key rec = key ->
  at_rec d o rec -> ptroff d = prev (7 * b) l1 ->
  wp (if flag =? DB_INSERT then modify (fun d => set_cnt (incr STORERR (cnt d)) d) ;; ret 1
      else
        n <- gets datlen ;;
        (if negb (Zlen data + 1 =? n) then
           _db_dodelete ;; off <- gets chainoff ;; ptr <- _db_readptr off ;;
           _db_writedat data 0 SEEK_END ;; _db_writeidx key 0 SEEK_END ptr ;;
           off <- gets chainoff ;; ioff <- gets idxoff ;; _db_writeptr off ioff ;;
           modify (fun d => set_cnt (incr STOR3 (cnt d)) d)
         else
           doff <- gets datoff ;; _db_writedat data doff SEEK_SET ;;
           modify (fun d => set_cnt (incr STOR4 (cnt d)) d)) ;;
        ret 0) store_result noexit d.
Proof.
  intros Hch Hfo Hk Hat Hptr. pose proof (bucket_range key) as Hbk. assert (Hb : inr_ b) by (unfold inr_; lia).
  destruct (found_lookup s ch m key l1 o l2 rec Hg Hm Hch Hfo Hk) as (x & Em & Hx & Hlen).
  destruct (Z.eqb_spec flag DB_INSERT) as [Ef|Hni].
  { wsteps. apply store_refused; try done. unfold store_spec. by rewrite Em, Ef. }
  assert (Es : store_spec m key data flag = (0, <[key := data]> m)).
  { unfold store_spec. by rewrite Em, (proj2 (Z.eqb_neq _ _) Hni). }
  assert (Hin : o ∈ ch b) by (rewrite Hch; set_solver).
  pose proof Hat as []. wstep. wstep. wstep. rewrite ar_datlen.
  destruct (Z.eqb_spec (Zlen data + 1) (ir_len rec)) as [Hsame|Hdiff]; simpl negb; cbv iota; wstep.
  - apply (wp_overwrite s ch b key data o rec); try done; [apply Hst|].
    intros d4 s' Hr4 Hg4 Hm4 Hc4 Hcn4 He4 Hl4. wsteps.
    apply (store_done STOR4 d4 s' ch); try done; [by apply Hm4|unfold is_store_counter; tauto].
  - eapply wp_conseq; [by eapply (wp_dodelete s ch b l1 o l2 rec)|].
    intros [] d2 (s2 & ch2 & Hr2 & Hg2 & [] & Hch2 & Hi2 & Hm2).
    assert (Hroom2 : room s2) by (unfold room; rewrite kp_endi, kp_endd; done).
    assert (Hno2 : forall o' off len, o' ∈ ch2 b -> inf s2 o' <> Some (key, off, len)).
    { intros o' off len Ho' Hi'. apply Hch2 in Ho' as [Ho' Hne]. rewrite Hi2 in Hi' by done.
      apply Hne. eapply (rc_keys _ _ _ (g_recs _ _ Hg) b); [done|done|done|exact Hi'|].
      rewrite (inf_find s o rec Hfo). by rewrite Hk. }
    wsteps. rewrite kp_chainoff, Hc. apply (wp_readptr s2 b); [done|done|].
    rewrite (head0_slot s2 ch2 Hg2 b Hb). cbn beta.
    apply (wp_append s2 ch2 key data b); try done; [by eapply repr_ext|simpl; congruence|].
    intros d4 s' ch' Hr4 Hg4 Hm4 Hc4 Hcn4 He4 Hl4. wsteps. simpl in Hc4, Hcn4, Hl4.
    apply (store_done STOR3 d4 s' ch'); try done; [|congruence..| |unfold is_store_counter; tauto].
    + rewrite <-(insert_delete_eq m key data). apply Hm4. rewrite <-Hk. by apply Hm2.
    + rewrite Hl4, kp_locks, Hl, unlocked_keep by (unfold FREE_OFF; lia). by rewrite !unlocked_keep_len.
Qed.
End store.

Lemma wp_store d m key data flag : implements d m -> locks d = [] ->
  (Z.to_nat (Zlen (idx d)) < fuel)%nat -> storable key data ->
  Zlen (idx d) <= PTR_MAX -> Zlen (dat d) < 2 ^ 63 ->
  flag = DB_INSERT \/ flag = DB_REPLACE \/ flag = DB_STORE ->
  wp (db_store fuel key data flag) (fun r d' => r = (store_spec m key data flag).1 /\
    implements d' (store_spec m key data flag).2 /\ locks d' = [] /\
    exists w, is_store_counter w /\ cnt d' = incr w (cnt d)) noexit d.
Proof.
  intros (s & ch & Hr & Hg & Hm) Hl Hfuel Hst Hri Hrd Hflag. pose proof (st_datalen _ _ Hst) as Hdl.
  rewrite (repr_idx_len s d Hr) in Hri. rewrite (repr_dat_len s d Hr) in Hrd.
  unfold db_store. cbv zeta.
  replace (negb (flag =? DB_INSERT) && negb (flag =? DB_REPLACE) && negb (flag =? DB_STORE)) with false
    by (destruct Hflag as [-> | [-> | ->]]; done).
  unfold DATLEN_MIN, DATLEN_MAX. wstep. apply wp_unless; [lia|]. wstep.
  eapply wp_conseq; [by eapply (wp_find_and_lock fuel s ch)|].
  intros r d1 (Hf & Hl1 & Hc & Hres). rewrite Hl in Hl1.
  assert (Hr1 : repr s d1) by (eapply frame_repr; eassumption).
  assert (Hfuel1 : (Z.to_nat (Zlen (idx d1)) < fuel)%nat) by by rewrite (fr_idx _ _ Hf).
  wstep. apply wp_conseq with (Q := store_result m key data flag d1).
  - destruct Hres as [[-> Hno]|(-> & l1 & o & l2 & rec & Hch & Hfo & Hk & Hat & Hptr)].
    + rewrite (proj2 (Z.ltb_lt _ _)) by lia. by apply (wp_store_new s ch).
    + rewrite (proj2 (Z.ltb_ge 0 0)) by lia. by apply (wp_store_old s ch m key data flag d1) with (l1 := l1) (o := o) (l2 := l2) (rec := rec).
  - intros rc d2 (-> & Him & Hc2 & Hl2 & w & Hw & Hcn). wsteps. apply wp_un_lock. wsteps. split; [done|].
    simpl. rewrite Hc2, Hl2. split_and!; [by eapply implements_ext|apply unlock_chain|].
    exists w. by rewrite Hcn, (fr_cnt _ _ Hf).
Qed.
End calls.

(** ** Opening *)

Definition empty_store : store := Store (replicate (Z.to_nat (NHASH_DEF + 1)) 0) [] [].

Lemma open_init d : idx d = init_hash -> dat d = [] -> nhash d = NHASH_DEF -> hashoff d = HASH_OFF ->
  implements d ∅.
Proof.
  intros Hi Hd Hn Hh. exists empty_store, (fun _ => []).
  assert (Hslot : forall b, inr_ b -> aget (s_slots empty_store) b = 0).
  { intros b Hb. unfold aget, empty_store, s_slots. apply lookup_total_replicate_2.
    unfold inr_, NHASH_DEF in *. lia. }
  split_and!; [split|split|].
  - split; [done| |constructor|constructor].
    apply Forall_forall. intros p Hp. apply elem_of_replicate in Hp as [-> _].
    unfold wf_ptr, PTR_MAX. lia.
  - rewrite Hi. vm_compute. reflexivity.
  - by rewrite Hd.
  - done.
  - done.
  - split.
    + intros b Hb. simpl. rewrite pget_slot by done. by rewrite Hslot.
    + intros. constructor.
    + intros b b' o _ _ Ho. set_solver.
  - split; unfold inf, find_i; simpl; try done.
    + intros b o _ Ho. set_solver.
  - intros k x. rewrite lookup_empty. split; [done|]. intros (o & Hin & _). set_solver.
Qed.

(** ** Scanning *)

Definition blank (k : bytes) : bool := forallb (fun c => c =? SPACE) k.

Lemma blank_spaces k : blank k = true <-> Forall (eq SPACE) k.
Proof.
  unfold blank. rewrite forallb_forall, Forall_forall. setoid_rewrite Z.eqb_eq.
  setoid_rewrite list_elem_of_In. naive_solver.
Qed.

(** The records that a scan of [l] returns. *)
Definition live (l : list irec) : list irec := filter (fun r => blank (ir_key r) = false) l.

Fixpoint scan (fuel n : nat) : M DB (list (bytes * bytes)) :=
  match n with
  | O => fun _ => Diverge
  | S n => r <- db_nextrec fuel ;;
           match r with
           | None => ret []
           | Some kv => rest <- scan fuel n ;; ret (kv :: rest)
           end
  end.

Section scanning.
Variable fuel : nat.
Context (s : store) (ch : Z -> list Z) (Hg : good s ch) (Hs : wf_store s).

(** The file offset is between the records [pre] and the rest. *)
Definition cursor (d : DB) (pre : list irec) : Prop := idxpos d = BASE + Zlen (layout enc_irec pre).

Lemma find_at_cursor pre r post : s_irecs s = pre ++ r :: post ->
  find_i s (BASE + Zlen (layout enc_irec pre)) = Some r.
Proof.
  intros E. unfold find_i. rewrite E, cons_middle, (assoc_L (++)). apply find_at_app, find_at_end.
  pose proof (irecs_pos s Hs) as Hp. rewrite E in Hp. by apply Forall_app in Hp as [? _].
Qed.

Lemma cursor_next pre r d d' : cursor d pre ->
  idxpos d' = BASE + Zlen (layout enc_irec pre) + Zlen (enc_irec r) -> cursor d' (pre ++ [r]).
Proof. intros _ Hd. unfold cursor. rewrite layout_app, layout_one, Zlen_app. lia. Qed.

Lemma wp_nextrec pre l d : repr s d -> s_irecs s = pre ++ l -> cursor d pre ->
  (length l < fuel)%nat -> locks d = [] ->
  wp (db_nextrec fuel) (fun res d' => idx d' = idx d /\ dat d' = dat d /\ repr s d' /\ locks d' = [] /\
    match res with
    | None => live l = []
    | Some (k, x) => exists skip r l', l = skip ++ r :: l' /\ live skip = [] /\
        blank (ir_key r) = false /\ k = ir_key r /\ find_d s (ir_off r) = Some x /\
        cursor d' (pre ++ skip ++ [r])
    end) noexit d.
Proof.
  intros Hr E Hcur Hfuel Hl. unfold db_nextrec, readw_lock. wsteps. set (d1 := set_locks _ d).
  apply wp_loop_idx with (n := length l) (I := fun n _ d' => frame d1 d' /\ locks d' = locks d1 /\
    exists skip rest, l = skip ++ rest /\ live skip = [] /\ n = length rest /\ cursor d' (pre ++ skip)).
  { split; [done|]. split; [done|]. exists [], l. rewrite app_nil_r. done. }
  { done. }
  intros n [] d2 (Hf & Hl2 & skip & rest & El & Hskip & -> & Hc2).
  assert (Hr2 : repr s d2) by (eapply frame_repr; [exact Hf|eapply repr_ext; [exact Hr|done..]]).
  assert (Hlk : unlocked IDX FREE_OFF 1 (locks d2) = [])
    by (rewrite Hl2; unfold d1; simpl; rewrite unlocked_cons, Hl; done).
  wstep. destruct rest as [|r rest].
  - apply (wp_readidx_eof s); [done|rewrite (repr_idx_len s d2 Hr2), Hc2; unfold end_i; by rewrite E, El, app_nil_r|].
    cbn beta. rewrite (proj2 (Z.ltb_lt (-1) 0)) by lia. wsteps. apply wp_un_lock. wsteps. simpl. rewrite Hlk.
    split_and!; try apply Hf; [by eapply repr_ext|done|]. by rewrite El, app_nil_r.
  - set (o := BASE + Zlen (layout enc_irec (pre ++ skip))).
    assert (Hfo : find_i s o = Some r)
      by (apply (find_at_cursor (pre ++ skip) r rest); rewrite E, El; by rewrite (assoc_L (++))).
    apply (wp_readidx s o _ r); [done|done|right; by split|].
    destruct (find_i_wf s o r Hs Hfo) as [Hw _].
    assert (Hnext : forall d', idxpos d' = o + Zlen (enc_irec r) -> cursor d' (pre ++ skip ++ [r])).
    { intros d' Hd'. rewrite (assoc_L (++)). by apply (cursor_next (pre ++ skip) r d2). }
    cbn beta. rewrite (proj2 (Z.ltb_ge _ _)) by apply Hw. wstep. wstep.
    change (forallb _ (idxbuf (loaded o r d2))) with (blank (ir_key r)).
    destruct (blank (ir_key r)) eqn:Hbl; wsteps.
    + exists (length rest). simpl. split; [|lia]. split; [framed|]. split; [done|].
      exists (skip ++ [r]), rest. rewrite <-(assoc_L (++)). split_and!; [done| |done|by apply Hnext].
      unfold live in *. rewrite filter_app, Hskip. by rewrite filter_cons_False by congruence.
    + destruct (rc_data _ _ _ (g_recs _ _ Hg) o _ _ _ (inf_find s o r Hfo)) as (x & Hx & Hlen).
      set (d3 := loaded o r d2) in *.
      assert (Hr3 : repr s d3) by (eapply repr_ext; [exact Hr2|done..]).
      apply (wp_readdat s x); [done|done|done|]. wsteps. apply wp_un_lock. wsteps. simpl.
      rewrite Hlk. split_and!; try apply Hf; [by eapply repr_ext|done|].
      exists skip, r, rest. split_and!; try done. by apply Hnext.
Qed.

Lemma wp_scan n : forall pre l d, repr s d -> s_irecs s = pre ++ l -> cursor d pre ->
  (length l < fuel)%nat -> (length l < n)%nat -> locks d = [] ->
  wp (scan fuel n) (fun res d' => repr s d' /\ idx d' = idx d /\ dat d' = dat d /\ locks d' = [] /\
    Forall2 (fun kx r => kx.1 = ir_key r /\ find_d s (ir_off r) = Some kx.2) res (live l)) noexit d.
Proof.
  induction n as [|n IH]; intros pre l d Hr E Hc Hfuel Hn Hl; [lia|]. cbn [scan]. wstep.
  eapply wp_conseq; [by apply (wp_nextrec pre l)|].
  intros [[k x]|] d1 (Hi & Hd & Hr1 & Hl1 & Hres).
  - destruct Hres as (skip & r & l' & -> & Hskip & Hbl & -> & Hx & Hc1). rewrite length_app in *. simpl in *.
    assert (E' : s_irecs s = (pre ++ skip ++ [r]) ++ l') by (rewrite E; by rewrite <-!(assoc_L (++))).
    wstep. eapply wp_conseq; [apply (IH (pre ++ skip ++ [r]) l' d1); done || lia|].
    intros res d2 (Hr2 & Hi2 & Hd2 & Hl2 & HF). wsteps. split_and!; try congruence.
    unfold live in *. rewrite filter_app, Hskip. rewrite filter_cons_True by done. constructor; [done|exact HF].
  - wsteps. rewrite Hres. split_and!; [done..|constructor].
Qed.

(** Every record that is not blank is the entry of its key. *)
Lemma live_entry pre r post x : s_irecs s = pre ++ r :: post -> blank (ir_key r) = false ->
  find_d s (ir_off r) = Some x ->
  entry (inf s) (find_d s) ch (ir_key r) x (BASE + Zlen (layout enc_irec pre)).
Proof.
  intros E Hbl Hx. pose proof (find_at_cursor pre r post E) as Hf. set (o := BASE + _) in *.
  pose proof (inf_find s o r Hf) as Hi.
  destruct (rc_cover _ _ _ (g_recs _ _ Hg) o ltac:(by rewrite Hi)) as (b & Hb & Ho).
  split; [|by exists (ir_off r), (ir_len r)]. destruct (Z.eq_dec b 0) as [->|Hne].
  - exfalso. pose proof (rc_free _ _ _ (g_recs _ _ Hg) o _ _ _ Ho Hi) as Hfr.
    apply blank_spaces in Hfr. congruence.
  - rewrite (rc_bucket _ _ _ (g_recs _ _ Hg) b o _ _ _ ltac:(unfold inr_ in Hb; lia) Ho Hi). done.
Qed.

Lemma live_lookup m k x : holds (inf s) (find_d s) ch m -> blank k = false ->
  m !! k = Some x <-> exists r, r ∈ live (s_irecs s) /\ ir_key r = k /\ find_d s (ir_off r) = Some x.
Proof.
  intros Hm Hbl. rewrite (Hm k x). unfold live. split.
  - intros (o & _ & off & len & Hi & Hx). unfold inf in Hi.
    destruct (find_i s o) as [r|] eqn:Hf; [|done]. injection Hi as <- <- <-.
    exists r. split; [|done]. apply list_elem_of_filter. split; [done|]. by eapply find_at_elem.
  - intros (r & Hin & <- & Hx). apply list_elem_of_filter in Hin as [_ Hin].
    apply list_elem_of_split in Hin as (pre & post & E). eexists. by eapply live_entry.
Qed.

Lemma live_nodup pre l : s_irecs s = pre ++ l -> NoDup (map ir_key (live l)).
Proof.
  revert pre. induction l as [|r l IH]; intros pre E; [constructor|].
  specialize (IH (pre ++ [r]) ltac:(by rewrite <-(assoc_L (++)))). unfold live in *.
  rewrite filter_cons. destruct (decide _) as [Hbl|Hbl]; [|done]. simpl. apply NoDup_cons. split; [|done].
  intros Hin. apply list_elem_of_In, in_map_iff in Hin as (r' & Hk & Hin).
  apply list_elem_of_In, list_elem_of_filter in Hin as [Hbl' Hin].
  apply list_elem_of_split in Hin as (mid & post & ->).
  pose proof (find_at_cursor pre r _ E) as H1.
  assert (E' : s_irecs s = (pre ++ r :: mid) ++ r' :: post) by (rewrite E, <-(assoc_L (++)); done).
  pose proof (find_at_cursor _ r' _ E') as H2.
  set (o1 := BASE + _) in H1. set (o2 := BASE + _) in H2.
  destruct (find_i_wf s o1 r Hs H1) as [Hw _]. pose proof (enc_irec_len r Hw).
  pose proof (Zlen_nonneg (ir_line r)). pose proof (layout_len_nonneg enc_irec mid).
  assert (o1 < o2) by (unfold o1, o2; rewrite layout_app, layout_cons, !Zlen_app; lia).
  destruct (rc_data _ _ _ (g_recs _ _ Hg) o1 _ _ _ (inf_find s o1 r H1)) as (x1 & Hx1 & _).
  destruct (rc_data _ _ _ (g_recs _ _ Hg) o2 _ _ _ (inf_find s o2 r' H2)) as (x2 & Hx2 & _).
  destruct (live_entry pre r _ x1 E Hbl Hx1) as (Hi1 & off1 & len1 & Hf1 & _).
  destruct (live_entry _ r' _ x2 E' Hbl' Hx2) as (Hi2 & off2 & len2 & Hf2 & _).
  rewrite Hk in Hi2, Hf2. pose proof (bucket_range (ir_key r)).
  pose proof (rc_keys _ _ _ (g_recs _ _ Hg) _ o1 o2 _ _ _ _ _ ltac:(done) Hi1 Hi2 Hf1 Hf2). lia.
Qed.
End scanning.

(** ** Concrete handles *)

(** A database just created, and one with an entry. *)
Definition fresh : DB :=
  MkDB init_hash 967 [] 0 [] [] 967 0 0 0 0 0 0 HASH_OFF NHASH_DEF
    (Counts 0 0 0 0 0 0 0 0 0 0) [] 0.

Lemma fresh_implements : implements fresh ∅.
Proof. by apply open_init. Qed.

Lemma storable_alpha : storable (B "alpha") (B "data1").
Proof.
  split; try (vm_compute; split; discriminate); unfold no_nul;
    apply (bool_decide_unpack _); vm_compute; exact I.
Qed.

Definition stored : DB :=
  match db_store 1000 (B "alpha") (B "data1") DB_INSERT fresh with Ret _ d => d | _ => fresh end.

Lemma stored_implements : implements stored {[B "alpha" := B "data1"]} /\ locks stored = [].
Proof.
  unfold stored.
  destruct (wp_run _ _ _ (wp_store 1000 fresh ∅ (B "alpha") (B "data1") DB_INSERT fresh_implements
    eq_refl ltac:(vm_compute; lia) storable_alpha ltac:(vm_compute; discriminate)
    ltac:(vm_compute; reflexivity) ltac:(by left))) as (r & d' & -> & _ & H & Hl & _).
  done.
Qed.

(** ** The theorems *)

(** C1: [db_store] implements the insertion of a finite map in all its modes: new
    keys are appended or put into a free record of the same size, existing ones
    overwritten in place or moved; a refused insertion or replacement returns 1 or
    -1 and leaves the map as it was. All locks are given back. *)
Theorem db_store_correct fuel d m key data flag : implements d m -> locks d = [] ->
  (Z.to_nat (Zlen (idx d)) < fuel)%nat -> storable key data ->
  Zlen (idx d) <= PTR_MAX -> Zlen (dat d) < 2 ^ 63 ->
  flag = DB_INSERT \/ flag = DB_REPLACE \/ flag = DB_STORE ->
  exists d', db_store fuel key data flag d = Ret (store_spec m key data flag).1 d' /\
    implements d' (store_spec m key data flag).2 /\ locks d' = [] /\
    exists w, is_store_counter w /\ cnt d' = incr w (cnt d).
Proof.
  intros. destruct (wp_run _ _ _ (wp_store fuel d m key data flag ltac:(done) ltac:(done) ltac:(done)
    ltac:(done) ltac:(done) ltac:(done) ltac:(done))) as (r & d' & -> & -> & H'). by exists d'.
Qed.

Lemma db_store_correct_witness :
  exists d', db_store 2000 (B "alpha") (B "data1") DB_REPLACE stored = Ret 0 d' /\
    implements d' (<[B "alpha" := B "data1"]> {[B "alpha" := B "data1"]}) /\ locks d' = [] /\
    exists w, is_store_counter w /\ cnt d' = incr w (cnt stored).
Proof.
  destruct stored_implements as [H1 H2].
  apply (db_store_correct 2000 stored {[B "alpha" := B "data1"]} (B "alpha") (B "data1") DB_REPLACE H1 H2).
  - apply Nat.ltb_lt. vm_compute. reflexivity.
  - exact storable_alpha.
  - vm_compute. discriminate.
  - vm_compute. reflexivity.
  - right. left. reflexivity.
Defined.

(** C2: [db_fetch] returns what the map holds for the key, or NULL, and changes
    neither file. *)
Theorem db_fetch_correct fuel d m key : implements d m -> locks d = [] ->
  (Z.to_nat (Zlen (idx d)) < fuel)%nat ->
  exists d', db_fetch fuel key d = Ret (m !! key) d' /\ implements d' m /\
    idx d' = idx d /\ dat d' = dat d /\ locks d' = [] /\
    cnt d' = incr (if m !! key is Some _ then FETCHOK else FETCHERR) (cnt d).
Proof.
  intros. destruct (wp_run _ _ _ (wp_fetch fuel d m key ltac:(done) ltac:(done) ltac:(done)))
    as (r & d' & -> & -> & H'). by exists d'.
Qed.

Lemma db_fetch_correct_witness :
  exists d', db_fetch 2000 (B "alpha") stored = Ret (Some (B "data1")) d' /\
    implements d' {[B "alpha" := B "data1"]} /\ idx d' = idx stored /\ dat d' = dat stored /\
    locks d' = [] /\ cnt d' = incr FETCHOK (cnt stored).
Proof.
  destruct stored_implements as [H1 H2].
  apply (db_fetch_correct 2000 stored {[B "alpha" := B "data1"]} (B "alpha") H1 H2).
  apply Nat.ltb_lt. vm_compute. reflexivity.
Defined.

(** C3: [db_delete] removes the key from the map, returning 0, or -1 when it is
    not there; the record freed goes to the free list for [db_store] to reuse. *)
Theorem db_delete_correct fuel d m key : implements d m -> locks d = [] ->
  (Z.to_nat (Zlen (idx d)) < fuel)%nat ->
  exists d', db_delete fuel key d = Ret (if m !! key is Some _ then 0 else -1) d' /\
    implements d' (delete key m) /\ locks d' = [] /\
    cnt d' = incr (if m !! key is Some _ then DELOK else DELERR) (cnt d).
Proof.
  intros. destruct (wp_run _ _ _ (wp_delete fuel d m key ltac:(done) ltac:(done) ltac:(done)))
    as (r & d' & -> & -> & H'). by exists d'.
Qed.

Lemma db_delete_correct_witness :
  exists d', db_delete 2000 (B "alpha") stored = Ret 0 d' /\
    implements d' (delete (B "alpha") {[B "alpha" := B "data1"]}) /\
    locks d' = [] /\ cnt d' = incr DELOK (cnt stored).
Proof.
  destruct stored_implements as [H1 H2].
  apply (db_delete_correct 2000 stored {[B "alpha" := B "data1"]} (B "alpha") H1 H2).
  apply Nat.ltb_lt. vm_compute. reflexivity.
Defined.

(** C4: creating a database gives the empty map, and opening again the files
    that a handle leaves behind gives the map it had. *)
Theorem db_open_correct mem fs d m : (forall i, mem i = true) -> implements d m ->
  (exists d0 fs', db_open mem true true fs = Ret (Some d0) fs' /\ implements d0 ∅ /\ locks d0 = []) /\
  (exists d1, db_open mem false false (db_close d) = Ret (Some d1) (db_close d) /\
     implements d1 m /\ locks d1 = []).
Proof.
  intros Hmem (s & ch & Hr & Hg & Hm). unfold db_open, _db_alloc. rewrite !Hmem. simpl andb. cbv iota.
  assert (He : forall f, open_file f true true = Some []) by by intros [].
  split.
  - rewrite !He. eexists _, _. split; [vm_compute; reflexivity|]. split; [|done].
    by apply open_init.
  - eexists. split; [reflexivity|]. split; [|done]. exists s, ch. split; [|done].
    destruct Hr. by split.
Qed.

Lemma db_open_correct_witness :
  (exists d0 fs', db_open (fun _ => true) true true (Files None None) = Ret (Some d0) fs' /\
     implements d0 ∅ /\ locks d0 = []) /\
  (exists d1, db_open (fun _ => true) false false (db_close stored) = Ret (Some d1) (db_close stored) /\
     implements d1 {[B "alpha" := B "data1"]} /\ locks d1 = []).
Proof.
  apply (db_open_correct (fun _ => true) (Files None None) stored {[B "alpha" := B "data1"]}).
  - intros i. reflexivity.
  - exact (proj1 stored_implements).
Defined.

(** C5: after [db_rewind], calling [db_nextrec] until it returns NULL gives every
    entry of the map whose key is not blank, once each, and nothing else. *)
Theorem db_scan_correct fuel d m : implements d m -> locks d = [] ->
  (Z.to_nat (Zlen (idx d)) < fuel)%nat ->
  exists L d', (db_rewind ;; scan fuel fuel) d = Ret L d' /\ NoDup (map fst L) /\
    (forall k x, (k, x) ∈ L <-> m !! k = Some x /\ blank k = false) /\
    implements d' m /\ locks d' = [].
Proof.
  intros Him Hl Hfuel. apply wp_run.
  destruct Him as (s & ch & Hr & Hg & Hm). pose proof (repr_wf s d Hr) as Hs.
  assert (Hn : (length (s_irecs s) <= Z.to_nat (Zlen (idx d)))%nat).
  { rewrite (repr_idx_len s d Hr). unfold end_i. pose proof (irecs_pos s Hs) as Hp.
    assert (H : Z.of_nat (length (s_irecs s)) <= Zlen (layout enc_irec (s_irecs s))); [|unfold BASE; lia].
    induction Hp as [|r l Hr' Hp IH]; [done|]. rewrite layout_cons, Zlen_app. simpl. lia. }
  wstep. unfold db_rewind. wsteps. rewrite (repr_nhash s d Hr). apply lseek_set; [done|]. wstep. wstep.
  apply wp_unless; [done|]. set (d1 := set_idxoff _ _).
  eapply wp_conseq; [apply (wp_scan fuel s ch Hg Hs fuel [] (s_irecs s) d1); try done|].
  - eapply repr_ext; [exact Hr|done..].
  - lia.
  - lia.
  - intros L d' (Hr' & _ & _ & Hl' & HF). split; [|split; [|split; [by exists s, ch|done]]].
    + assert (E : map fst L = map ir_key (live (s_irecs s))).
      { clear -HF. induction HF as [|kx r L l [H _] HF IH]; simpl; congruence. }
      rewrite E. by apply (live_nodup s ch Hg Hs []).
    + intros k x. split.
      * intros Hin. apply list_elem_of_lookup in Hin as [i Hi].
        destruct (Forall2_lookup_l _ _ _ _ _ HF Hi) as (r & Hri & Hk & Hx). simpl in *. subst k.
        apply list_elem_of_lookup_2 in Hri. pose proof Hri as Hri'.
        apply list_elem_of_filter in Hri' as [Hbl _]. split; [|done].
        apply (live_lookup s ch Hg Hs); [done|done|]. by exists r.
      * intros [Hk Hbl]. apply (live_lookup s ch Hg Hs) in Hk as (r & Hri & <- & Hx); [|done..].
        apply list_elem_of_lookup in Hri as [i Hi].
        destruct (Forall2_lookup_r _ _ _ _ _ HF Hi) as ([k' x'] & Hri & Hk & Hx'). simpl in *.
        apply list_elem_of_lookup_2 in Hri. congruence.
Qed.

Lemma db_scan_correct_witness :
  exists L d', (db_rewind ;; scan 2000 2000) stored = Ret L d' /\ NoDup (map fst L) /\
    (forall k x, (k, x) ∈ L <-> ({[B "alpha" := B "data1"]} : gmap bytes bytes) !! k = Some x /\ blank k = false) /\
    implements d' {[B "alpha" := B "data1"]} /\ locks d' = [].
Proof.
  destruct stored_implements as [H1 H2].
  apply (db_scan_correct 2000 stored {[B "alpha" := B "data1"]} H1 H2).
  apply Nat.ltb_lt. vm_compute. reflexivity.
Defined.

(** The length of an index record is only checked after it was printed into
    the buffer: a key that makes the line longer than the buffer of
    [IDXLEN_MAX + 2] bytes overruns it. *)
Theorem db_writeidx_overrun key off whence ptr d : 0 <= ptr <= PTR_MAX ->
  IDXLEN_MAX + 2 <= Zlen (record_line key (datoff d) (datlen d)) ->
  _db_writeidx key off whence ptr d = UB.
Proof.
  intros Hp Hlen. unfold _db_writeidx, bind at 1, modify at 1.
  unfold bind at 1. rewrite (proj2 (orb_false_iff _ _)) by lia.
  unfold ret at 1, bind at 1, gets at 1, bind at 1, gets at 1.
  change (datoff (set_ptrval ptr d)) with (datoff d). change (datlen (set_ptrval ptr d)) with (datlen d).
  cbv zeta. unfold bind at 1, guard_ok. by rewrite (proj2 (Z.leb_gt _ _)) by lia.
Qed.

Lemma db_writeidx_overrun_witness :
  _db_writeidx (replicate 1030 SPACE) 0 SEEK_END 0 fresh = UB.
Proof.
  apply (db_writeidx_overrun (replicate 1030 SPACE) 0 SEEK_END 0 fresh).
  - vm_compute. split; discriminate.
  - vm_compute. discriminate.
Defined.

(** Creating a database without O_TRUNC leaves an index without its table of
    pointers, on which every search aborts the process. *)
Theorem db_open_creat_only fuel mem key : (forall i, mem i = true) ->
  exists d fs d', db_open mem true false (Files None None) = Ret (Some d) fs /\
    db_fetch fuel key d = Exit 134 d'.
Proof.
  intros Hmem. unfold db_open, _db_alloc. rewrite !Hmem. eexists _, _, _. split; [vm_compute; reflexivity|].
  unfold db_fetch, _db_find_and_lock, _db_hash, _db_readptr, readw_lock.
  unfold bind, gets, modify, ret, lseek, err_dump, exit_. simpl.
  pose proof (Z.mod_pos_bound (hash_loop key 1 0) 137 ltac:(lia)).
  unfold PTR_SZ. rewrite (proj2 (Z.ltb_ge _ 0)) by lia. rewrite (proj2 (Z.eqb_neq _ (-1))) by lia.
  unfold read, slice, seg. simpl. rewrite drop_nil, take_nil. simpl. reflexivity.
Qed.

Lemma db_open_creat_only_witness :
  exists d fs d', db_open (fun _ => true) true false (Files None None) = Ret (Some d) fs /\
    db_fetch 10 (B "alpha") d = Exit 134 d'.
Proof. apply (db_open_creat_only 10 (fun _ => true) (B "alpha")). intros i. reflexivity. Defined.
