(* ===== verification/MaxSubarray.v ===== *)
(** MaxSubarray: clrs/exercises/04.1.3maxsubarray.c, the maximum subarray by
    brute force, by divide and conquer and in one pass, and the program that
    compares the three on random arrays. *)
From stdpp Require Import list strings pretty.
From S2P Require Import Prelude Arrays ClrsSorting DsSorting.

(** ** The program *)

Record subarr := Subarr { s_left : Z; s_right : Z; s_max : Z }.

Section maxsubarray.
Variable fuel : nat.
(** What an uninitialised [subarr] on the stack holds. *)
Variable indet : subarr.

Definition bmaxsubarray (n : Z) : M (list Z) subarr :=
  x <- rd arr 0 ;;
  let! (_, sub) := while_ fuel (fun '(i, _) => ret (i <? n)) (fun '(i, sub) =>
    let! (_, _, sub) := while_ fuel (fun '(j, _, _) => ret (j <? n)) (fun '(j, tmp, sub) =>
      x <- rd arr j ;;
      tmp <- int32 (tmp + x) ;;
      ret (j + 1, tmp, if s_max sub <? tmp then Subarr i j tmp else sub)) (i, 0, sub) in
    ret (i + 1, sub)) (0, Subarr (s_left indet) (s_right indet) x) in
  ret sub.

Definition max (left right middle : subarr) : subarr :=
  let max := left in
  let max := if s_max max <? s_max right then right else max in
  if s_max max <? s_max middle then middle else max.

Definition maxcross (beg mid end_ : Z) : M (list Z) subarr :=
  maxleft <- rd arr (mid - 1) ;;
  let! (_, _, maxleft, cleft) := while_ fuel (fun '(i, _, _, _) => ret (0 <=? i))
    (fun '(i, tmp, maxleft, cleft) =>
       x <- rd arr i ;;
       tmp <- int32 (tmp + x) ;;
       ret (if maxleft <? tmp then (i - 1, tmp, tmp, i) else (i - 1, tmp, maxleft, cleft)))
    (mid - 1, 0, maxleft, mid - 1) in
  maxright <- rd arr mid ;;
  let! (_, _, maxright, cright) := while_ fuel (fun '(j, _, _, _) => ret (j <? end_))
    (fun '(j, tmp, maxright, cright) =>
       x <- rd arr j ;;
       tmp <- int32 (tmp + x) ;;
       ret (if maxright <? tmp then (j + 1, tmp, tmp, j) else (j + 1, tmp, maxright, cright)))
    (mid, 0, maxright, mid) in
  m <- int32 (maxright + maxleft) ;;
  ret (Subarr cleft cright m).

Fixpoint maxsubarr (depth : nat) (beg end_ : Z) : M (list Z) subarr :=
  match depth with
  | O => fun _ => Diverge
  | S depth =>
      if beg + 1 <? end_ then
        sum <- int32 (beg + end_) ;;
        let mid := Z.quot sum 2 in
        left <- maxsubarr depth beg mid ;;
        right <- maxsubarr depth mid end_ ;;
        middle <- maxcross beg mid end_ ;;
        ret (max left right middle)
      else x <- rd arr beg ;; ret (Subarr beg (end_ - 1) x)
  end.

Definition dmaxsubarray (len : Z) : M (list Z) subarr := maxsubarr fuel 0 len.

(** The first loop: the largest element so far, and whether one is positive. *)
Definition all_negative (n : Z) (sub : subarr) : M (list Z) (bool * subarr) :=
  loop fuel (fun '(i, sub) =>
    if i <? n then
      x <- rd arr i ;;
      if 0 <? x then ret (inr (false, sub))
      else ret (inl (i + 1, if s_max sub <=? x then Subarr i i x else sub))
    else ret (inr (true, sub))) (0, sub).

Definition lmaxsubarray (n : Z) : M (list Z) subarr :=
  x <- rd arr 0 ;;
  let! (negative, sub) := all_negative n (Subarr (s_left indet) (s_right indet) x) in
  if negative : bool then ret sub
  else
    x <- rd arr 0 ;;
    let! (_, sub) := while_ fuel (fun '(tmp, _) => ret (s_right tmp <? n)) (fun '(tmp, sub) =>
      x <- rd arr (s_right tmp) ;;
      m <- int32 (s_max tmp + x) ;;
      let tmp := Subarr (s_left tmp) (s_right tmp) m in
      if 0 <? m then
        let sub := if s_max sub <=? m then tmp else sub in
        ret (Subarr (s_left tmp) (s_right tmp + 1) m, sub)
      else ret (Subarr (s_right tmp + 1) (s_right tmp + 1) 0, sub))
      (Subarr 0 0 0, Subarr 0 0 x) in
    ret sub.

Definition print_arr (n : Z) : M prog unit := print_array fuel n.

Definition report (sub : subarr) : M prog unit :=
  printf ("maxarr is from " +:+ pretty (s_left sub) +:+ " to " +:+ pretty (s_right sub)
          +:+ ":" +:+ pretty (s_max sub) +:+ nl).

(** The errno that a failed [malloc] leaves. *)
Definition ENOMEM : Z := 12.

(** [rand k] is the [k]-th random number of the run, [malloc i len] the block
    that the [i]-th allocation returns, [None] for a failure. *)
Variable rand : Z -> Z.
Variable malloc : Z -> Z -> option (list Z).

Definition fill (len seed : Z) : M prog Z :=
  let! (_, seed) := while_ fuel (fun '(i, _) => ret (i <? len)) (fun '(i, seed) =>
    sign <- ret (if Z.rem (rand seed) 2 =? 0 then -1 else 1) ;;
    wr lpa i (Z.rem (rand (seed + 1)) 100 * sign) ;;
    ret (i + 1, seed + 2)) (0, seed) in
  ret seed.

Definition main (count : Z) : M prog Z :=
  printf ("please input the count:" +:+ nl) ;;
  while_ fuel (fun '(i, _) => ret (i <? count)) (fun '(i, seed) =>
    let len := Z.rem (rand seed) 100 + 1 in
    match malloc i len with
    | None => exit_ ENOMEM
    | Some block =>
        modify (over lpa block) ;;
        seed <- fill len (seed + 1) ;;
        dsub <- zoom lpa (dmaxsubarray len) ;;
        lsub <- zoom lpa (lmaxsubarray len) ;;
        bsub <- zoom lpa (bmaxsubarray len) ;;
        (if (s_max dsub =? s_max lsub) && (s_max lsub =? s_max bsub) then ret tt
         else printf ("This is something wrong!" +:+ nl) ;;
              printf ("The " +:+ pretty i +:+ " time" +:+ nl) ;;
              printf ("The origin array is:" +:+ nl) ;;
              print_arr len ;;
              report dsub ;; report lsub ;; report bsub ;;
              exit_ 0) ;;
        ret (i + 1, seed)
    end) (0, 0) ;;
  printf ("The algorithm is nearly correct!" +:+ nl) ;;
  ret 0.
End maxsubarray.

(** ** Sums of subarrays *)

Definition psum (a : list Z) (k : Z) : Z := foldr Z.add 0 (take (Z.to_nat k) a).
(** The sum of [a[i..j]], [j] included. *)
Definition total (a : list Z) (i j : Z) : Z := psum a (j + 1) - psum a i.

(** [sub] is a subarray of [a[0..n)] with its sum. *)
Definition attained (a : list Z) (n : Z) (sub : subarr) : Prop :=
  0 <= s_left sub <= s_right sub /\ s_right sub < n /\
  s_max sub = total a (s_left sub) (s_right sub).

(** No subarray of [a[lo..n)] has a larger sum than [m]. *)
Definition largest (a : list Z) (lo n m : Z) : Prop :=
  forall i j, lo <= i <= j -> j < n -> total a i j <= m.

(** Elements so small that no sum of [n] of them leaves the range of [int]. *)
Definition summable (a : list Z) (n : Z) : Prop :=
  exists B, (forall k, 0 <= k < n -> - B <= aget a k <= B) /\ n * B <= INT_MAX.

Section sums.
Implicit Types (a : list Z).

Lemma psum_0 a : psum a 0 = 0.
Proof. done. Qed.

Lemma foldr_add_app (l1 l2 : list Z) :
  foldr Z.add 0 (l1 ++ l2) = foldr Z.add 0 l1 + foldr Z.add 0 l2.
Proof. induction l1; simpl; lia. Qed.

Lemma psum_succ a k : 0 <= k < Zlen a -> psum a (k + 1) = psum a k + aget a k.
Proof.
  intros Hk. unfold psum. replace (Z.to_nat (k + 1)) with (S (Z.to_nat k)) by lia.
  rewrite (take_S_r _ _ (aget a k)) by (by apply aget_lookup).
  rewrite foldr_add_app. simpl. lia.
Qed.

Lemma total_one a k : 0 <= k < Zlen a -> total a k k = aget a k.
Proof. intros. unfold total. rewrite psum_succ; lia. Qed.

Lemma total_snoc a i j : 0 <= j + 1 < Zlen a -> total a i (j + 1) = total a i j + aget a (j + 1).
Proof. intros. unfold total. rewrite (psum_succ _ (j + 1)); lia. Qed.

Lemma total_cons a i j : 0 < i <= Zlen a -> total a (i - 1) j = total a i j + aget a (i - 1).
Proof.
  intros. unfold total. pose proof (psum_succ a (i - 1)) as H1.
  replace (i - 1 + 1) with i in H1 by lia. lia.
Qed.

Lemma total_empty a j : total a (j + 1) j = 0.
Proof. unfold total. lia. Qed.

Lemma total_app a i mid j : total a i j = total a i (mid - 1) + total a mid j.
Proof. unfold total. replace (mid - 1 + 1) with mid by lia. lia. Qed.

Lemma psum_bound a n B : 0 <= B -> n <= Zlen a -> (forall k, 0 <= k < n -> - B <= aget a k <= B) ->
  forall i d, 0 <= i -> 0 <= d -> i + d <= n -> - (d * B) <= psum a (i + d) - psum a i <= d * B.
Proof.
  intros HB Hn Hall i d Hi. revert d. refine (natlike_ind _ _ _).
  - intros. rewrite Z.add_0_r. lia.
  - intros d Hd IH Hle. replace (i + Z.succ d) with (i + d + 1) by lia.
    rewrite psum_succ by lia. specialize (Hall (i + d)). lia.
Qed.

Lemma total_in_int a n i j : n <= Zlen a -> summable a n -> 0 <= i <= j + 1 -> j < n ->
  INT_MIN < total a i j <= INT_MAX.
Proof.
  intros Hn (B & Hall & HB) Hi Hj. unfold total.
  destruct (decide (i = j + 1)) as [->|]; [unfold INT_MIN, INT_MAX; lia|].
  assert (0 <= B) by (specialize (Hall i); lia).
  pose proof (psum_bound a n B ltac:(done) Hn Hall i (j + 1 - i)) as H1.
  replace (i + (j + 1 - i)) with (j + 1) in H1 by lia.
  assert ((j + 1 - i) * B <= n * B) by nia. unfold INT_MIN, INT_MAX in *. lia.
Qed.
End sums.

(** ** The three algorithms *)

Section proofs.
Variable fuel : nat.
Variable indet : subarr.
Variables (a : list Z) (n : Z).
Hypothesis Hn : 1 <= n <= Zlen a.
Hypothesis Hsum : summable a n.
Hypothesis Hfuel : (Z.to_nat n < fuel)%nat.

Lemma in_range i j : 0 <= i <= j + 1 -> j < n -> INT_MIN <= total a i j <= INT_MAX.
Proof. intros. pose proof (total_in_int a n i j ltac:(lia) Hsum). lia. Qed.

Lemma step_left i j : 0 <= i < n -> total a i j = total a (i + 1) j + aget a i.
Proof.
  intros. pose proof (total_cons a (i + 1) j) as Ht. rewrite Z.add_simpl_r in Ht. apply Ht. lia.
Qed.

Lemma step_right i j : 0 <= j < n -> total a i j = total a i (j - 1) + aget a j.
Proof. intros. pose proof (total_snoc a i (j - 1)) as Ht. rewrite Z.sub_add in Ht. lia. Qed.

Lemma wp_maxcross beg mid e : 0 < mid < e -> e <= n ->
  wp (maxcross fuel beg mid e) (fun sub a' => a' = a /\
    0 <= s_left sub < mid /\ mid <= s_right sub < e /\
    s_max sub = total a (s_left sub) (s_right sub) /\
    forall i j, 0 <= i < mid -> mid <= j < e -> total a i j <= s_max sub) noexit a.
Proof.
  intros Hmid He. unfold maxcross. wsteps.
  apply (wp_while (fun '(i, tmp, ml, cl) a' => a' = a /\ -1 <= i < mid /\
      tmp = total a (i + 1) (mid - 1) /\ 0 <= cl < mid /\ ml = total a cl (mid - 1) /\
      forall k, i < k < mid -> total a k (mid - 1) <= ml)
    (fun '(i, _, _, _) _ => Z.to_nat (i + 1))); [|lia|].
  { rewrite total_one by lia. split_and!; try done; try lia. unfold total.
    replace (mid - 1 + 1) with mid by lia. lia. }
  intros [[[i tmp] ml] cl] a' (-> & Hi & -> & Hcl & Hml & Hmax). wsteps; try lia.
  - rewrite <-step_left by lia. apply in_range; lia.
  - rewrite <-step_left by lia. destruct (ml <? _) eqn:Hlt; (split; [|lia]).
    + split_and!; try done; try lia; [by replace (i - 1 + 1) with i by lia|].
      intros k Hk. destruct (decide (k = i)) as [->|]; [lia|]. specialize (Hmax k). lia.
    + split_and!; try done; try lia; [by replace (i - 1 + 1) with i by lia|].
      intros k Hk. destruct (decide (k = i)) as [->|]; [lia|]. apply Hmax. lia.
  - apply (wp_while (fun '(j, tmp, mr, cr) a' => a' = a /\ mid <= j <= e /\
        tmp = total a mid (j - 1) /\ mid <= cr < e /\ mr = total a mid cr /\
        forall k, mid <= k < j -> total a mid k <= mr)
      (fun '(j, _, _, _) _ => Z.to_nat (e - j))); [|lia|].
    { rewrite <-total_one by lia. split_and!; try done; try lia. unfold total.
      replace (mid - 1 + 1) with mid by lia. lia. }
    intros [[[j tmp] mr] cr] a' (-> & Hj & -> & Hcr & Hmr & Hmax'). wsteps; try lia.
    + rewrite <-step_right by lia. apply in_range; lia.
    + rewrite <-step_right by lia. destruct (mr <? _) eqn:Hlt; (split; [|lia]).
      * split_and!; try done; try lia; [by replace (j + 1 - 1) with j by lia|].
        intros k Hk. destruct (decide (k = j)) as [->|]; [lia|]. specialize (Hmax' k). lia.
      * split_and!; try done; try lia; [by replace (j + 1 - 1) with j by lia|].
        intros k Hk. destruct (decide (k = j)) as [->|]; [lia|]. apply Hmax'. lia.
    + pose proof (total_app a cl mid cr).
      replace (mr + ml) with (total a cl cr) by lia. apply in_range; lia.
    + pose proof (total_app a cl mid cr).
      split_and!; simpl; try done; try lia.
      intros i' j' ? ?. rewrite (total_app a i' mid j').
      specialize (Hmax i'). specialize (Hmax' j'). lia.
Qed.

Lemma max_spec l r m : max l r m ∈ [l; r; m] /\
  s_max l <= s_max (max l r m) /\ s_max r <= s_max (max l r m) /\ s_max m <= s_max (max l r m).
Proof.
  unfold max. destruct (s_max l <? s_max r) eqn:H1;
    [destruct (s_max r <? s_max m) eqn:H2|destruct (s_max l <? s_max m) eqn:H2];
    (split; [rewrite !elem_of_cons; tauto|lia]).
Qed.

Lemma wp_maxsubarr depth : forall beg e, 0 <= beg < e -> e <= n -> 2 * n <= INT_MAX ->
  (Z.to_nat (e - beg) <= depth)%nat ->
  wp (maxsubarr fuel depth beg e) (fun sub a' => a' = a /\
    attained a e sub /\ largest a beg e (s_max sub)) noexit a.
Proof.
  induction depth as [|depth IH]; intros beg e Hbeg He Hmax Hd; [lia|].
  unfold maxsubarr; fold maxsubarr. unfold INT_MAX in *.
  wsteps; [unfold INT_MIN, INT_MAX; lia| |].
  - set (mid := Z.quot (beg + e) 2). assert (beg < mid < e) by (unfold mid; zlia).
    eapply wp_conseq; [apply (IH beg mid); lia|]. intros l a1 (-> & Hl & Hl'). wsteps.
    eapply wp_conseq; [apply (IH mid e); lia|]. intros r a1 (-> & Hr & Hr'). wsteps.
    eapply wp_conseq; [apply (wp_maxcross beg mid e); lia|].
    intros m a1 (-> & Hm1 & Hm2 & Hm3 & Hm4). wsteps. split; [done|].
    pose proof (max_spec l r m) as (Hin & ? & ? & ?). split.
    + unfold attained in *. rewrite !elem_of_cons, elem_of_nil in Hin.
      destruct Hin as [-> |[-> |[-> |[]]]]; split_and!; lia.
    + intros i j Hi Hj. destruct (decide (j < mid)); [specialize (Hl' i j); lia|].
      destruct (decide (mid <= i)); [specialize (Hr' i j); lia|].
      specialize (Hm4 i j). lia.
  - split; [done|]. replace e with (beg + 1) by lia. split.
    + unfold attained. simpl. rewrite Z.add_simpl_r, total_one by lia. lia.
    + intros i j ? ?. simpl. replace i with beg by lia. replace j with beg by lia.
      by rewrite total_one by lia.
Qed.

Lemma wp_bmaxsubarray :
  wp (bmaxsubarray fuel indet n) (fun sub a' => a' = a /\ largest a 0 n (s_max sub) /\
    (attained a n sub /\ aget a 0 < s_max sub \/
     s_left sub = s_left indet /\ s_right sub = s_right indet /\ s_max sub = aget a 0)) noexit a.
Proof.
  unfold bmaxsubarray. wsteps.
  set (ok (sub : subarr) := aget a 0 <= s_max sub /\ (attained a n sub /\ aget a 0 < s_max sub \/
     s_left sub = s_left indet /\ s_right sub = s_right indet /\ s_max sub = aget a 0)).
  apply (wp_while (fun '(i, sub) a' => a' = a /\ 0 <= i <= n /\ ok sub /\
      forall i' j, 0 <= i' <= j -> i' < i -> j < n -> total a i' j <= s_max sub)
    (fun '(i, _) _ => Z.to_nat (n - i))); [|lia|].
  { split_and!; try done; try lia. split; [simpl; lia|]. by right. }
  intros [i sub] a' (-> & Hi & Hok & Hmax). wsteps.
  - apply (wp_while (fun '(j, tmp, sub) a' => a' = a /\ i <= j <= n /\ ok sub /\
        tmp = total a i (j - 1) /\
        forall i' j', 0 <= i' <= j' -> i' < i \/ i' = i /\ j' < j -> j' < n -> total a i' j' <= s_max sub)
      (fun '(j, _, _) _ => Z.to_nat (n - j))); [|lia|].
    { split_and!; try done; try lia.
      - unfold total. replace (i - 1 + 1) with i by lia. lia.
      - intros i' j' ? ? ?. apply Hmax; lia. }
    intros [[j tmp] sub'] a' (-> & Hj & Hok' & -> & Hmax'). wsteps; try lia.
    + rewrite <-step_right by lia. apply in_range; lia.
    + rewrite <-step_right by lia.
      assert (Heq : total a i j = total a i (j + 1 - 1)) by (f_equal; lia).
      split; [|lia]. destruct (s_max sub' <? total a i j) eqn:Hlt; split_and!; try done; try lia.
      * destruct Hok'. split; [simpl; lia|]. left. split; [split_and!|]; simpl; done || lia.
      * intros i' j' ? Hor ?. simpl. destruct (decide (i' = i /\ j' = j)) as [[-> ->]|]; [lia|].
        specialize (Hmax' i' j'). lia.
      * intros i' j' ? Hor ?. destruct (decide (i' = i /\ j' = j)) as [[-> ->]|]; [lia|].
        apply Hmax'; lia.
    + split; [|lia]. split_and!; try done; try lia. intros i' j' ? ? ?. apply Hmax'; lia.
  - split; [done|]. split; [|apply Hok]. intros i' j' ? ?. apply Hmax; lia.
Qed.
(** When no element is positive, an element bounds each sum that ends in it. *)
Lemma total_nonpos i j : (forall k, 0 <= k < n -> aget a k <= 0) -> 0 <= i <= j -> j < n ->
  total a i j <= aget a j.
Proof.
  intros Hneg Hi Hj. rewrite step_right by lia.
  assert (forall d, 0 <= d -> i + d <= n -> psum a (i + d) <= psum a i) as Hd.
  { refine (natlike_ind _ _ _); [intros; rewrite Z.add_0_r; lia|].
    intros d Hd IH Hle. replace (i + Z.succ d) with (i + d + 1) by lia.
    rewrite psum_succ by lia. specialize (Hneg (i + d)). lia. }
  specialize (Hd (j - i)). unfold total. rewrite Z.sub_add.
  replace (i + (j - i)) with j in Hd by lia. lia.
Qed.

Lemma wp_all_negative sub : s_max sub = aget a 0 ->
  wp (all_negative fuel n sub) (fun '(neg, sub') a' => a' = a /\
    if neg : bool then (forall k, 0 <= k < n -> aget a k <= 0 /\ aget a k <= s_max sub') /\
                       attained a n sub'
    else exists k, 0 <= k < n /\ 0 < aget a k) noexit a.
Proof.
  intros H0. unfold all_negative.
  apply (wp_loop (fun '(i, sub') a' => a' = a /\ 0 <= i <= n /\
      (forall k, 0 <= k < i -> aget a k <= 0 /\ aget a k <= s_max sub') /\
      (i = 0 /\ s_max sub' = aget a 0 \/ attained a n sub'))
    (fun '(i, _) _ => Z.to_nat (n - i))); [|lia|].
  { split_and!; try done; try lia. }
  intros [i sub'] a' (-> & Hi & Hall & Hat). wsteps.
  - split; [done|]. exists i. lia.
  - split; [|lia]. split_and!; try done; try lia.
    + intros k Hk. destruct (s_max sub' <=? aget a i) eqn:Hle; simpl;
        (destruct (decide (k = i)) as [->|]; [lia|specialize (Hall k); lia]).
    + right. destruct (s_max sub' <=? aget a i) eqn:Hle.
      * unfold attained. simpl. rewrite total_one; lia.
      * destruct Hat as [[-> Heq]|]; [lia|done].
  - split; [done|]. destruct Hat as [[-> ?]|Hat]; [lia|]. split; [|done].
    intros k Hk. apply Hall. lia.
Qed.

Lemma wp_lmaxsubarray :
  wp (lmaxsubarray fuel indet n) (fun sub a' => a' = a /\
    attained a n sub /\ largest a 0 n (s_max sub)) noexit a.
Proof.
  unfold lmaxsubarray. wsteps. eapply wp_conseq; [by apply wp_all_negative|].
  intros [[] sub] a' [-> Hneg]; wsteps.
  { split; [done|]. destruct Hneg as [Hneg Hat]. split; [done|]. intros i j Hi Hj.
    pose proof (total_nonpos i j ltac:(intros; by apply Hneg) Hi Hj).
    specialize (Hneg j). lia. }
  apply (wp_while (fun '(tmp, sub) a' => a' = a /\ 0 <= s_left tmp <= s_right tmp /\
      s_right tmp <= n /\ s_max tmp = total a (s_left tmp) (s_right tmp - 1) /\
      (forall i, 0 <= i <= s_right tmp -> total a i (s_right tmp - 1) <= s_max tmp) /\
      attained a n sub /\ largest a 0 (s_right tmp) (Z.max 0 (s_max sub)))
    (fun '(tmp, _) _ => Z.to_nat (n - s_right tmp))); [|simpl; lia|].
  { simpl. split_and!; try done; try lia.
    - intros i Hi. by replace i with 0 by lia.
    - unfold attained. simpl. rewrite total_one; lia.
    - intros i j ? ?. lia. }
  intros [[L R m] s1] a' (-> & HL & HR & Hm & Hsuf & Hat & Hmax). simpl in *. wsteps.
  - subst m. rewrite <-step_right by lia. apply in_range; lia.
  - subst m. rewrite <-step_right in * by lia. split; [|simpl; lia]. simpl.
    assert (forall i, 0 <= i <= R -> total a i R <= total a L R) as Hsuf'.
    { intros i Hi. rewrite (step_right i), (step_right L) by lia. specialize (Hsuf i). lia. }
    rewrite Z.add_simpl_r. split_and!; try done; try lia.
    + intros i Hi. destruct (decide (i = R + 1)) as [->|]; [rewrite total_empty; lia|].
      apply Hsuf'. lia.
    + destruct (_ <=? _); [|done]. unfold attained. simpl. lia.
    + intros i j Hi Hj. destruct (decide (j = R)) as [->|].
      * specialize (Hsuf' i). destruct (_ <=? _) eqn:Hle; simpl; lia.
      * specialize (Hmax i j). destruct (_ <=? _) eqn:Hle; simpl; lia.
  - subst m. rewrite <-step_right in * by lia. split; [|simpl; lia]. simpl.
    assert (forall i, 0 <= i <= R -> total a i R <= 0) as Hsuf'.
    { intros i Hi. rewrite (step_right i) by lia. rewrite (step_right L) in Hb0 by lia.
      specialize (Hsuf i). lia. }
    rewrite Z.add_simpl_r. split_and!; try done; try lia.
    + unfold total. replace (R + 1 + 0) with (R + 1) by lia. lia.
    + intros i Hi. destruct (decide (i = R + 1)) as [->|]; [rewrite total_empty; lia|].
      apply Hsuf'. lia.
    + intros i j Hi Hj. destruct (decide (j = R)) as [->|]; [specialize (Hsuf' i); lia|].
      apply Hmax; lia.
  - split; [done|]. split; [done|]. destruct Hneg as (k & Hk & Hpos).
    replace R with n in Hmax by lia. intros i j Hi Hj.
    pose proof (Hmax k k ltac:(lia) ltac:(lia)) as H1. rewrite total_one in H1 by lia.
    specialize (Hmax i j Hi Hj). lia.
Qed.
End proofs.

Lemma largest_unique a n s1 s2 : attained a n s1 -> attained a n s2 ->
  largest a 0 n (s_max s1) -> largest a 0 n (s_max s2) -> s_max s1 = s_max s2.
Proof.
  intros (? & ? & Ht1) (? & ? & Ht2) Hm1 Hm2.
  specialize (Hm1 (s_left s2) (s_right s2)). specialize (Hm2 (s_left s1) (s_right s1)). lia.
Qed.

Lemma largest_max a n sub m : 1 <= n <= Zlen a -> largest a 0 n m -> largest a 0 n (s_max sub) ->
  attained a n sub -> m = aget a 0 -> m = s_max sub.
Proof.
  intros Hn Hm1 Hm2 (? & ? & Ht) Hm. specialize (Hm1 (s_left sub) (s_right sub)).
  specialize (Hm2 0 0). rewrite total_one in Hm2 by lia. lia.
Qed.

(** ** The comparison on random arrays *)

Ltac lens_hook ::= cbn [lpa view over pa out].

Section main_proof.
Variable fuel : nat.
Variable indet : subarr.
Variable rand : Z -> Z.
Variable malloc : Z -> Z -> option (list Z).
Hypothesis rand_nonneg : forall k, 0 <= rand k.
Hypothesis malloc_len : forall i len b, 0 <= len -> malloc i len = Some b -> Zlen b = len.

Lemma wp_fill len seed s : 0 <= len <= Zlen (pa s) -> (Z.to_nat len < fuel)%nat ->
  wp (fill fuel rand len seed) (fun _ s' => out s' = out s /\ Zlen (pa s') = Zlen (pa s) /\
    forall k, 0 <= k < len -> -99 <= aget (pa s') k <= 99) noexit s.
Proof.
  intros Hlen Hf. unfold fill. wstep.
  apply (wp_while (fun '(i, _) s' => 0 <= i <= len /\ out s' = out s /\
      Zlen (pa s') = Zlen (pa s) /\ forall k, 0 <= k < i -> -99 <= aget (pa s') k <= 99)
    (fun '(i, _) _ => Z.to_nat (len - i))); [|lia|].
  { split_and!; try done; lia. }
  intros [i sd] s' (Hi & Ho & Hl & Hall). wsteps;
    [|by split_and!; try done; intros; apply Hall; lia]. split; [|lia].
  split_and!; try done; try lia; [by rewrite Zlen_aset|].
  intros k Hk. rewrite aget_aset by lia. destruct (Z.eqb_spec i k) as [->|]; [|apply Hall; lia].
  pose proof (rand_nonneg (sd + 1)). destruct (Z.rem (rand sd) 2 =? 0); zlia.
Qed.

Lemma wp_main count s : out s = "" -> (Z.to_nat count < fuel)%nat -> (100 < fuel)%nat ->
  wp (main fuel indet rand malloc count)
    (fun r s' => r = 0 /\ out s' = "please input the count:" +:+ nl +:+
                                   "The algorithm is nearly correct!" +:+ nl)
    (fun c s' => c = ENOMEM /\ out s' = "please input the count:" +:+ nl /\
                 exists i len, 0 <= i < count /\ 1 <= len <= 100 /\ malloc i len = None) s.
Proof.
  intros Hout Hf1 Hf2. unfold main, printf. wsteps.
  apply (wp_while (fun '(i, _) s' => 0 <= i /\ out s' = "please input the count:" +:+ nl)
    (fun '(i, _) _ => Z.to_nat (count - i))); [|lia|].
  { simpl. rewrite Hout. by split; [lia|]. }
  intros [i seed] s' (Hi & Ho). wsteps; [| |by simpl; rewrite Ho].
  2: { apply wp_exit. split_and!; [done..|]. eexists i, _. split; [lia|]. split; [|eassumption].
       pose proof (rand_nonneg seed). zlia. }
  apply malloc_len in Hm; [|pose proof (rand_nonneg seed); zlia].
  set (len := Z.rem (rand seed) 100 + 1). pose proof (rand_nonneg seed).
  assert (1 <= len <= 100) by (unfold len; zlia). fold len in Hm. clearbody len.
  eapply wp_mono; [apply wp_fill; simpl; lia| |done]. simpl.
  intros sd s2 (Ho2 & Hl2 & Hall). wsteps.
  assert (summable (pa s2) len) as Hsum by (exists 99; split; [done|unfold INT_MAX; lia]).
  apply wp_zoom. simpl. unfold dmaxsubarray. eapply wp_mono; [apply (wp_maxsubarr fuel (pa s2) len);
    try done; unfold INT_MAX; lia| |done]. intros d a' (-> & Hd & Hd'). wsteps.
  apply wp_zoom. simpl. eapply wp_mono; [apply (wp_lmaxsubarray fuel indet (pa s2) len);
    try done; lia| |done]. intros ls a' (-> & Hl & Hl'). wsteps.
  apply wp_zoom. simpl. eapply wp_mono; [apply (wp_bmaxsubarray fuel indet (pa s2) len);
    try done; lia| |done]. intros bs a' (-> & Hbs & Hbs'). simpl.
  assert (s_max d = s_max ls) as -> by (by eapply largest_unique).
  assert (s_max ls = s_max bs) as ->.
  { destruct Hbs' as [[? _]|(_ & _ & ?)]; [by eapply largest_unique|].
    symmetry. eapply (largest_max _ len); try done. lia. }
  rewrite Z.eqb_refl. simpl. wsteps. split; [|lia]. split; [lia|]. simpl. by rewrite Ho2.
Qed.
End main_proof.

(** C39: on [n >= 1] cells whose sums fit an [int], the divide-and-conquer and the
    one-pass search each return a subarray with its sum, no subarray has a larger
    one, and brute force returns the same maximum; the array is only read. *)
Theorem maxsubarray_correct fuel indet a n : 1 <= n <= Zlen a -> summable a n ->
  2 * n <= INT_MAX -> (Z.to_nat n < fuel)%nat ->
  exists d l b,
    dmaxsubarray fuel n a = Ret d a /\ lmaxsubarray fuel indet n a = Ret l a /\
    bmaxsubarray fuel indet n a = Ret b a /\
    attained a n d /\ attained a n l /\ largest a 0 n (s_max d) /\
    s_max l = s_max d /\ s_max b = s_max d /\
    (attained a n b \/ s_left b = s_left indet /\ s_right b = s_right indet).
Proof.
  intros Hn Hsum Hmax Hf.
  destruct (wp_run _ _ _ (wp_maxsubarr fuel a n Hn Hsum Hf fuel 0 n ltac:(lia) ltac:(lia) Hmax
    ltac:(lia))) as (d & a1 & Ed & -> & Hd & Hd').
  destruct (wp_run _ _ _ (wp_lmaxsubarray fuel indet a n Hn Hsum Hf)) as (l & a1 & El & -> & Hl & Hl').
  destruct (wp_run _ _ _ (wp_bmaxsubarray fuel indet a n Hn Hsum Hf)) as (b & a1 & Eb & -> & Hb & Hb').
  exists d, l, b. split_and!; try done.
  - by eapply largest_unique.
  - destruct Hb' as [[? _]|(_ & _ & ?)]; [by eapply largest_unique|]. by eapply (largest_max _ n).
  - destruct Hb' as [[? _]|(? & ? & _)]; [by left|by right].
Qed.

Lemma maxsubarray_correct_witness : let a := [-2; 4; -1; 3; -5; 2] in
  exists d l b, dmaxsubarray 10 6 a = Ret d a /\ lmaxsubarray 10 (Subarr 7 7 7) 6 a = Ret l a /\
    bmaxsubarray 10 (Subarr 7 7 7) 6 a = Ret b a /\ d = Subarr 1 3 6 /\ l = d /\ b = d.
Proof.
  simpl. destruct (maxsubarray_correct 10 (Subarr 7 7 7) [-2; 4; -1; 3; -5; 2] 6)
    as (d & l & b & Ed & El & Eb & _);
    [vm_compute; split; discriminate| |unfold INT_MAX; lia|lia|].
  - exists 5. split; [|unfold INT_MAX; lia]. intros k Hk.
    assert (k = 0 \/ k = 1 \/ k = 2 \/ k = 3 \/ k = 4 \/ k = 5) as Hc by lia.
    repeat destruct Hc as [-> |Hc]; [vm_compute; split; discriminate..|subst k].
    vm_compute; split; discriminate.
  - exists d, l, b. split; [exact Ed|]. split; [exact El|]. split; [exact Eb|].
    vm_compute in Ed, El, Eb. injection Ed as <-. injection El as <-. injection Eb as <-.
    repeat split.
Defined.

(** The program prints that the algorithms agree, for every sequence of random
    numbers, unless an allocation fails; it never reports a difference. *)
Theorem maxsubarray_main_agrees fuel indet rand malloc count s :
  (forall k, 0 <= rand k) -> (forall i len b, 0 <= len -> malloc i len = Some b -> Zlen b = len) ->
  out s = "" -> (Z.to_nat count < fuel)%nat -> (100 < fuel)%nat ->
  (exists s', main fuel indet rand malloc count s = Ret 0 s' /\
     out s' = "please input the count:" +:+ nl +:+ "The algorithm is nearly correct!" +:+ nl) \/
  (exists s', main fuel indet rand malloc count s = Exit ENOMEM s' /\
     out s' = "please input the count:" +:+ nl /\
     exists i len, 0 <= i < count /\ 1 <= len <= 100 /\ malloc i len = None).
Proof.
  intros Hr Hm Hout Hf1 Hf2. pose proof (wp_main fuel indet rand malloc Hr Hm count s Hout Hf1 Hf2) as H.
  unfold wp in H. destruct (main fuel indet rand malloc count s) as [r s'|c s'| |]; try done.
  - left. exists s'. destruct H as [-> ?]. by split.
  - right. exists s'. destruct H as (-> & ? & ?). by split_and!.
Qed.

Lemma maxsubarray_main_agrees_witness :
  let malloc (_ len : Z) := Some (replicate (Z.to_nat len) 0) in
  exists s', main 101 (Subarr 0 0 0) (fun k => k * k) malloc 3 (Prog [] "") = Ret 0 s' /\
    out s' = "please input the count:" +:+ nl +:+ "The algorithm is nearly correct!" +:+ nl.
Proof.
  intros malloc.
  assert (forall k, 0 <= k * k) as Hr by (intros; apply Z.square_nonneg).
  assert (forall i len b, 0 <= len -> malloc i len = Some b -> Zlen b = len) as Hm.
  { intros i len b Hlen Hb. injection Hb as <-. unfold Zlen. rewrite length_replicate. lia. }
  assert ((Z.to_nat 3 < 101)%nat /\ (100 < 101)%nat) as [H1 H2] by lia.
  pose proof (maxsubarray_main_agrees 101 (Subarr 0 0 0) (fun k => k * k) malloc 3 (Prog [] "")
    Hr Hm eq_refl H1 H2) as H. clear -H. destruct H as [H|H]; [exact H|].
  exfalso. destruct H as (s' & _ & _ & i & len & _ & _ & H). discriminate H.
Defined.

(** When no subarray sums to more than the first element, brute force never
    assigns [left] and [right]: the result carries the indeterminate values of
    the uninitialised struct. *)
Theorem bmaxsubarray_indeterminate fuel indet a n : 1 <= n <= Zlen a -> summable a n ->
  (Z.to_nat n < fuel)%nat -> largest a 0 n (aget a 0) ->
  bmaxsubarray fuel indet n a = Ret (Subarr (s_left indet) (s_right indet) (aget a 0)) a.
Proof.
  intros Hn Hsum Hf Hmax.
  destruct (wp_run _ _ _ (wp_bmaxsubarray fuel indet a n Hn Hsum Hf))
    as ([l r m] & a1 & Eb & -> & Hb & [[(Hl & Hr & Ht) ?]|(Hl & Hr & Hm)]); simpl in *.
  - specialize (Hmax l r). lia.
  - rewrite Eb. congruence.
Qed.

Lemma bmaxsubarray_indeterminate_witness :
  bmaxsubarray 9 (Subarr 77 78 79) 2 [5; -3] = Ret (Subarr 77 78 5) [5; -3].
Proof.
  apply (bmaxsubarray_indeterminate 9 (Subarr 77 78 79) [5; -3] 2);
    [vm_compute; split; discriminate| |lia|].
  - exists 5. split; [|unfold INT_MAX; lia]. intros k Hk.
    assert (k = 0 \/ k = 1) as [-> | ->] by lia; vm_compute; split; discriminate.
  - intros i j Hi Hj. assert (i = 0 /\ j = 0 \/ i = 0 /\ j = 1 \/ i = 1 /\ j = 1)
      as [[-> ->]|[[-> ->]|[-> ->]]] by lia; vm_compute; discriminate.
Defined.
