(* ===== verification/ClrsExercises.v ===== *)
(** ClrsExercises: the smaller programs of clrs/exercises and clrs/problems, a
    Module each: counting inversions by merge sort, binary search, two elements
    of a given sum, and a random number of a range from a biased coin. *)
From stdpp Require Import list strings pretty.
From S2P Require Import Prelude Arrays SortLemmas ClrsSorting DsSorting.

(** ** clrs/problems/02.4inversions.c *)

Module Inversions.
(** The array, the counter [*num] and the block [tmparr]. *)
Record imem := IMem { i_a : list Z; i_num : Z; i_tmp : list Z }.
Definition ia : lens imem (list Z) := Lens i_a (fun x m => IMem x (i_num m) (i_tmp m)).
Definition itmp : lens imem (list Z) := Lens i_tmp (fun x m => IMem (i_a m) (i_num m) x).
Definition set_num (v : Z) : imem -> imem := fun m => IMem (i_a m) v (i_tmp m).

Section inversions.
Variable fuel : nat.

Definition merge (beg mid end_ : Z) : M imem unit :=
  let! (i, j, index, _) := while_ fuel (fun '(i, j, _, _) => ret ((i <? mid) && (j <? end_)))
    (fun '(i, j, index, tmp) =>
       x <- rd ia i ;; y <- rd ia j ;;
       if x <=? y then x <- rd ia i ;; wr itmp index x ;; ret (i + 1, j, index + 1, tmp)
       else
         num <- gets i_num ;;
         num <- int32 (num + (j - i - tmp)) ;;
         modify (set_num num) ;;
         y <- rd ia j ;; wr itmp index y ;; ret (i, j + 1, index + 1, tmp + 1))
    (beg, mid, 0, 0) in
  let! (_, index) := while_ fuel (fun '(i, _) => ret (i <? mid))
    (fun '(i, index) => x <- rd ia i ;; wr itmp index x ;; ret (i + 1, index + 1)) (i, index) in
  while_ fuel (fun '(j, _) => ret (j <? end_))
    (fun '(j, index) => y <- rd ia j ;; wr itmp index y ;; ret (j + 1, index + 1)) (j, index) ;;
  while_ fuel (fun '(i, _) => ret (i <? end_))
    (fun '(i, index) => x <- rd itmp index ;; wr ia i x ;; ret (i + 1, index + 1)) (beg, 0) ;;
  ret tt.

(** The result, which no [return] gives, is not used. *)
Fixpoint inversions (depth : nat) (beg end_ : Z) : M imem unit :=
  match depth with
  | O => fun _ => Diverge
  | S depth =>
      sum <- int32 (beg + end_) ;;
      let mid := Z.quot sum 2 in
      when beg + 1 <? end_ do
        (inversions depth beg mid ;; inversions depth mid end_ ;; merge beg mid end_)
  end.

(** [tmparr] is what [malloc] returned; through a null pointer every access is
    undefined, as in an empty block. The comparison with 0 is never true. *)
Definition inverse_pairs (tmparr : option (list Z)) (n num : Z) : M (list Z) Z := fun a =>
  match inversions fuel 0 n (IMem a num (default [] tmparr)) with
  | Ret _ m => Ret (i_num m) (i_a m)
  | Exit c m => Exit c (i_a m)
  | UB => UB
  | Diverge => Diverge
  end.

Definition main (tmparr : option (list Z)) : M prog Z :=
  modify (over lpa [3; 2; 8; 6; 1; 5; 7; 10; 5]) ;;
  n <- gets (fun s => Zlen (pa s)) ;;
  num <- zoom lpa (inverse_pairs tmparr n 0) ;;
  printf ("num = " +:+ pretty num +:+ nl) ;;
  ret 0.
End inversions.
End Inversions.

(** ** clrs/exercises/02.3.5binary_search.c *)

Module BinarySearch.
(** The value of the [return] statement that ends the recursion, and whether the
    call itself executes it: a call that recurses falls off its end, and using
    its value is undefined. *)
Fixpoint binary_search (depth : nat) (beg end_ value : Z) : M (list Z) (Z * bool) :=
  match depth with
  | O => fun _ => Diverge
  | S depth =>
      sum <- int32 (beg + end_) ;;
      let mid := Z.quot sum 2 in
      x <- rd arr mid ;;
      if value =? x then ret (mid, true)
      else if end_ <=? beg + 1 then ret (-1, true)
      else
        x <- rd arr mid ;;
        if x <? value then r <- binary_search depth mid end_ value ;; ret (r.1, false)
        else x <- rd arr mid ;;
             if value <? x then r <- binary_search depth beg mid value ;; ret (r.1, false)
             else ret (-1, false)
  end.

Definition bsearch (fuel : nat) (n value : Z) : M (list Z) (Z * bool) :=
  r <- binary_search fuel 0 n value ;; ret (r.1, false).

(** The value of a call, where it is used. *)
Definition use {S} (r : Z * bool) : M S Z := if r.2 then ret r.1 else ub.

Definition main (fuel : nat) : M prog Z :=
  modify (over lpa [5; 20; 21; 45; 56; 100]) ;;
  i <- zoom lpa (bsearch fuel 6 33) ;; i <- use i ;;
  j <- zoom lpa (bsearch fuel 6 56) ;; j <- use j ;;
  printf ("i = " +:+ pretty i +:+ ", j = " +:+ pretty j +:+ nl) ;;
  ret 0.
End BinarySearch.

(** ** clrs/exercises/02.3.7.c *)

Module FindSum.
(** [print_arr] of clrs/sorting.c, which the program includes. *)
Definition print_arr (fuel : nat) (n : Z) : M prog unit :=
  while_ fuel (fun i => ret (i <? n)) (fun i =>
    x <- rd lpa i ;; printf (" " +:+ pretty x) ;; ret (i + 1)) 0 ;;
  printf nl.

(** [None] when the function ends without a [return]; its only caller ignores
    the value. *)
Definition find_sum (fuel : nat) (n x : Z) : M prog (option Z) :=
  loop fuel (fun '(i, j) =>
    if i <=? j then
      u <- rd lpa i ;; v <- rd lpa j ;; s <- int32 (u + v) ;;
      if s =? x then
        printf ("a[i] = " +:+ pretty u +:+ ", a[j] = " +:+ pretty v +:+ ", x = "
                +:+ pretty x +:+ nl) ;;
        ret (inr (Some 1))
      else if x <? s then ret (inl (i, j - 1))
      else if s <? x then ret (inl (i + 1, j))
      else ret (inl (i, j))
    else ret (inr None)) (0, n - 1).

(** [block] is what [mergesort] gets from [malloc], [x] the number read. *)
Definition main (fuel : nat) (block : option (list Z)) (x : Z) : M prog Z :=
  modify (over lpa [20; 5; 13; 3; 7; 23; 40; 33; 50]) ;;
  n <- gets (fun s => Zlen (pa s)) ;;
  print_arr fuel n ;;
  printf "请输入一个数字：" ;;
  zoom lpa (ClrsSorting.mergesort fuel block n) ;;
  find_sum fuel n x ;;
  ret 0.
End FindSum.

(** ** clrs/exercises/05.1.2random_ab.c *)

Module RandomAB.
(** The state is the number of calls of [rand] so far; [rand k] is the value of
    the [k]-th. *)
Section random.
Variable fuel : nat.
Variable rand : Z -> Z.

Definition biase_random : M Z Z := fun c => Ret (Z.rem (rand c) 2) (c + 1).

Definition random01 : M Z Z :=
  loop fuel (fun _ : unit =>
    x <- biase_random ;; y <- biase_random ;;
    if negb (x =? y) then ret (inr x) else ret (inl tt)) tt.

Definition crandom (a b : Z) : M Z Z :=
  (when b <? a do exit_ (-1)) ;;
  loop fuel (fun '(cur, _) =>
    let! (cur, tmp) := loop fuel (fun '(cur, _) =>
      let tmp := cur in
      cur <- int32 (Z.shiftl cur 1) ;;
      bit <- random01 ;;
      cur <- int32 (cur + bit) ;;
      if cur <? b then ret (inl (cur, tmp)) else ret (inr (cur, tmp))) (cur, 0) in
    if a <? tmp then ret (inr tmp) else ret (inl (cur, tmp))) (0, 0).
End random.
End RandomAB.

(** ** Counting inversions *)

(** The elements of [l] below, and above, a value. *)
Definition below (x : Z) (l : list Z) : Z := Zlen (filter (fun y => y < x) l).
Definition above (y : Z) (l : list Z) : Z := Zlen (filter (fun x => y < x) l).
Fixpoint cross (l1 l2 : list Z) : Z :=
  match l1 with [] => 0 | x :: l1 => below x l2 + cross l1 l2 end.
(** The number of pairs of positions that are out of order. *)
Fixpoint inv_count (l : list Z) : Z :=
  match l with [] => 0 | x :: l => below x l + inv_count l end.

Section counting.
Implicit Types (l : list Z) (x y : Z).

Lemma below_app x l1 l2 : below x (l1 ++ l2) = below x l1 + below x l2.
Proof. unfold below. by rewrite filter_app, Zlen_app. Qed.

Lemma above_app y l1 l2 : above y (l1 ++ l2) = above y l1 + above y l2.
Proof. unfold above. by rewrite filter_app, Zlen_app. Qed.

Lemma below_one x y : below x [y] = if decide (y < x) then 1 else 0.
Proof. unfold below. by rewrite filter_cons; case_decide. Qed.

Lemma above_cons y x l : above y (x :: l) = (if decide (y < x) then 1 else 0) + above y l.
Proof. unfold above. rewrite filter_cons. case_decide; unfold Zlen; simpl; lia. Qed.

Lemma below_nonneg x l : 0 <= below x l <= Zlen l.
Proof.
  unfold below, Zlen. pose proof (length_filter (fun y => y < x) l). lia.
Qed.

Lemma cross_nonneg l1 l2 : 0 <= cross l1 l2.
Proof. induction l1 as [|x l1 IH]; simpl; [done|]. pose proof (below_nonneg x l2). lia. Qed.

Lemma inv_nonneg l : 0 <= inv_count l.
Proof. induction l as [|x l IH]; simpl; [done|]. pose proof (below_nonneg x l). lia. Qed.

Lemma cross_nil_r l : cross l [] = 0.
Proof. by induction l. Qed.

Lemma cross_app_l l1 l1' l2 : cross (l1 ++ l1') l2 = cross l1 l2 + cross l1' l2.
Proof. induction l1 as [|x l1 IH]; simpl; lia. Qed.

Lemma cross_app_r l1 l2 l2' : cross l1 (l2 ++ l2') = cross l1 l2 + cross l1 l2'.
Proof. induction l1 as [|x l1 IH]; simpl; [done|]. rewrite below_app. lia. Qed.

Lemma cross_snoc l1 l2 y : cross l1 (l2 ++ [y]) = cross l1 l2 + above y l1.
Proof.
  rewrite cross_app_r. f_equal. induction l1 as [|x l1 IH]; simpl; [done|].
  rewrite below_one, above_cons, IH. lia.
Qed.

Lemma inv_app l1 l2 : inv_count (l1 ++ l2) = inv_count l1 + inv_count l2 + cross l1 l2.
Proof. induction l1 as [|x l1 IH]; simpl; [lia|]. rewrite below_app. lia. Qed.

#[global] Instance below_perm x : Proper (Permutation ==> eq) (below x).
Proof. intros l l' HP. unfold below, Zlen. by rewrite HP. Qed.

#[global] Instance cross_perm : Proper (Permutation ==> Permutation ==> eq) cross.
Proof.
  intros l1 l1' HP1 l2 l2' HP2. induction HP1 as [|x k k' _ IH|x y k|k1 k2 k3 _ IH1 _ IH2]; simpl.
  - done.
  - rewrite IH. f_equal. by rewrite HP2.
  - assert (forall z, below z l2 = below z l2') as E by (intros z; by rewrite HP2). rewrite !E.
    assert (cross k l2 = cross k l2') as ->; [|lia].
    induction k as [|z k IHk]; simpl; [done|]. by rewrite E, IHk.
  - rewrite IH1. rewrite <-IH2.
    assert (forall z, below z l2 = below z l2') as E by (intros z; by rewrite HP2).
    clear -E. induction k2 as [|z k IHk]; simpl; [done|]. by rewrite E, IHk.
Qed.

Lemma inv_bound l : 2 * inv_count l <= Zlen l * (Zlen l - 1).
Proof.
  induction l as [|x l IH]; [done|]. simpl. pose proof (below_nonneg x l).
  unfold Zlen in *. simpl. nia.
Qed.

Lemma above_none y l : Forall (fun x => x <= y) l -> above y l = 0.
Proof.
  induction 1 as [|x l Hx _ IH]; [done|]. rewrite above_cons. case_decide; lia.
Qed.

Lemma above_all y l : Forall (fun x => y < x) l -> above y l = Zlen l.
Proof.
  induction 1 as [|x l Hx _ IH]; [done|]. rewrite above_cons, decide_True by done.
  unfold Zlen in *. simpl. lia.
Qed.

(** A value that separates a segment at [i]: what lies above it is the right part. *)
Lemma above_split a b i mid y : 0 <= b <= i -> i <= mid -> mid <= Zlen a ->
  (forall k, b <= k < i -> aget a k <= y) -> (forall k, i <= k < mid -> y < aget a k) ->
  above y (seg a b mid) = mid - i.
Proof.
  intros Hb Hi Hmid Hlo Hhi. rewrite (seg_app a b i mid), above_app by lia.
  rewrite above_none, above_all, seg_length by
    (try (apply Forall_forall; intros x Hx; apply elem_of_seg in Hx as (k & Hk & <-));
     auto with lia; lia). lia.
Qed.
End counting.

Lemma below_none x l : Forall (fun y => x <= y) l -> below x l = 0.
Proof.
  induction 1 as [|y l Hy _ IH]; [done|]. unfold below in *. rewrite filter_cons.
  case_decide; [lia|done].
Qed.

(** Nothing is out of order between two parts when the left is below the right. *)
Lemma cross_ordered a b mid j e : 0 <= b -> mid <= Zlen a -> 0 <= j -> e <= Zlen a ->
  (forall x y, b <= x < mid -> j <= y < e -> aget a x <= aget a y) ->
  cross (seg a b mid) (seg a j e) = 0.
Proof.
  intros Hb Hmid Hj He Hle.
  assert (Hall : Forall (fun x => below x (seg a j e) = 0) (seg a b mid)).
  { apply Forall_forall. intros x Hx. apply elem_of_seg in Hx as (k & Hk & <-); [|lia..].
    apply below_none, Forall_forall. intros y Hy. apply elem_of_seg in Hy as (k' & Hk' & <-); [|lia..].
    by apply Hle. }
  induction Hall as [|x l Hx _ IH]; simpl; lia.
Qed.

Ltac lens_hook ::= cbn [Inversions.ia Inversions.itmp view over Inversions.i_a Inversions.i_tmp
  Inversions.i_num Inversions.set_num lpa pa out].

Section inversions_proofs.
Variable fuel : nat.
Import Inversions.
Context (a tmp : list Z) (b mid e num0 : Z).
Hypothesis Hb : 0 <= b <= mid.
Hypothesis Hmid : mid <= e.
Hypothesis He : e <= Zlen a.
Hypothesis Htmp : e - b <= Zlen tmp.
Hypothesis Hfuel : (Z.to_nat (e - b) < fuel)%nat.
Hypothesis Hl : sorted_in a b mid.
Hypothesis Hr : sorted_in a mid e.
Hypothesis Hnum : 0 <= num0 /\ num0 + cross (seg a b mid) (seg a mid e) <= INT_MAX.

Let I (m : imem) (i j ti : Z) : Prop :=
  i_a m = a /\ Zlen (i_tmp m) = Zlen tmp /\ merge_inv a (i_tmp m) b mid e i j 0 ti.

(** Taking [a[j]] counts the elements of the left run that remain. *)
Lemma cross_take i j : b <= i < mid -> mid <= j < e -> aget a j < aget a i ->
  (forall x y, b <= x < i -> j <= y < e -> aget a x <= aget a y) ->
  cross (seg a b mid) (seg a mid (j + 1)) = cross (seg a b mid) (seg a mid j) + (mid - i).
Proof.
  intros Hi Hj Hlt Hsep. rewrite (seg_snoc a mid j), cross_snoc by lia. f_equal.
  apply above_split; [lia..|intros; apply Hsep; lia|].
  intros k Hk. specialize (Hl i k). lia.
Qed.

Lemma cross_upto j : mid <= j <= e ->
  cross (seg a b mid) (seg a mid j) <= cross (seg a b mid) (seg a mid e).
Proof.
  intros Hj. rewrite (seg_app a mid j e), cross_app_r by lia.
  pose proof (cross_nonneg (seg a b mid) (seg a j e)). lia.
Qed.

Lemma wp_inv_merge :
  wp (merge fuel b mid e)
    (fun _ m => sorts a (i_a m) b e /\ Zlen (i_tmp m) = Zlen tmp /\
       i_num m = num0 + cross (seg a b mid) (seg a mid e)) noexit (IMem a num0 tmp).
Proof.
  unfold merge. wstep.
  apply (wp_while (fun '(i, j, ti, t) m => I m i j ti /\ t = j - mid /\
      i_num m = num0 + cross (seg a b mid) (seg a mid j) /\
      (forall x y, b <= x < i -> j <= y < e -> aget a x <= aget a y))
    (fun '(i, j, _, _) _ => Z.to_nat ((mid - i) + (e - j)))); [|lia|].
  { unfold I; simpl. split_and!; [done..|apply merge_start; lia|lia| |lia].
    rewrite (seg_nil a mid mid), cross_nil_r by lia. lia. }
  intros [[[i j] ti] t] [a1 num1 t1] ((Ha & Hlen & Hm) & -> & Hn & Hsep). simpl in *. subst a1.
  pose proof Hm as (? & ? & ? & _).
  pose proof (cross_nonneg (seg a b mid) (seg a mid j)) as Hpos.
  wstep. destruct ((i <? mid) && (j <? e)) eqn:Hc.
  - pose proof (cross_upto (j + 1) ltac:(lia)) as Hup. wsteps; try lia.
    + split; [|lia]. unfold I; simpl. split_and!; try done; try lia; [by rewrite Zlen_aset|..].
      * apply merge_left; try done; lia.
      * intros x y Hx Hy. destruct (decide (x = i)) as [->|]; [|apply Hsep; lia].
        specialize (Hr j y). lia.
    + assert (Hlt : aget a j < aget a i) by lia.
      rewrite (cross_take i j) in Hup by (done || lia). unfold INT_MIN, INT_MAX in *. lia.
    + split; [|lia]. unfold I; simpl. split_and!; try done; try lia; [by rewrite Zlen_aset|..].
      * apply merge_right; try done; lia.
      * rewrite (cross_take i j) by (done || lia). lia.
      * intros x y Hx Hy. apply Hsep; lia.
  - assert (Hn' : num1 = num0 + cross (seg a b mid) (seg a mid e)).
    { rewrite Hn. f_equal. destruct (decide (j = e)) as [->|]; [done|].
      rewrite (seg_app a mid j e), cross_app_r by lia.
      rewrite (cross_ordered a b mid j e); [lia..|]. intros; apply Hsep; lia. }
    clear Hn Hsep. wstep.
    apply (wp_while (fun '(i, ti) m => I m i j ti /\ i_num m = num1 /\ (i < mid -> e <= j))
      (fun '(i, _) _ => Z.to_nat (mid - i))); [split; [done|split; [done|lia]]|lia|].
    intros [i' ti'] [a1 n1 t2] ((Ha' & Hlen' & Hm') & Hn1 & Hij). simpl in *. subst a1 n1.
    pose proof Hm' as (? & ? & ? & _). wsteps; try lia.
    { split; [|lia]. split; [|split; [done|lia]]. unfold I; simpl. split_and!; [done|by rewrite Zlen_aset|].
      apply merge_left; try done; lia. }
    apply (wp_while (fun '(j, ti) m => I m mid j ti /\ i_num m = num1) (fun '(j, _) _ => Z.to_nat (e - j)));
      [by replace mid with i' by lia|lia|].
    intros [j' ti''] [a1 n1 t3] ((Ha'' & Hlen'' & Hm'') & Hn2). simpl in *. subst a1 n1.
    pose proof Hm'' as (? & ? & ? & _). wsteps; try lia.
    { split; [|lia]. split; [|done]. unfold I; simpl. split_and!; [done|by rewrite Zlen_aset|].
      apply merge_right; try done; lia. }
    apply (wp_while (fun '(i, ti) m => ti = i - b /\ b <= i <= e /\ i_tmp m = t3 /\ i_num m = num1 /\
        same_out a (i_a m) b e /\
        forall k, b <= k < i -> aget (i_a m) k = aget t3 (k - b + 0))
      (fun '(i, _) _ => Z.to_nat (e - i))); [|lia|].
    { split_and!; try done; lia. }
    intros [i0 ti0] [a4 n4 t4] (-> & Hi0 & Ht0 & Hn4 & Hout & Hk). simpl in *. subst t4 n4.
    pose proof (proj1 Hout). wsteps; try lia.
    + split; [|lia]. split_and!; try done; try lia.
      * eapply same_out_trans; [done|apply same_out_aset; lia].
      * intros k Hk'. rewrite aget_aset by lia. destruct (Z.eqb_spec i0 k) as [->|].
        -- f_equal. lia.
        -- apply Hk. lia.
    + split; [|split; [lia|done]]. replace j' with e in Hm'' by lia.
      eapply (merge_copied a b mid e 0); [lia..|exact Hm''|lia|done|].
      intros k ?. apply Hk. lia.
Qed.
End inversions_proofs.

Section inversions_rec.
Variable fuel : nat.
Import Inversions.

Lemma wp_inversions depth : forall a num0 tmp b e,
  0 <= b <= e -> e <= Zlen a -> 2 * e <= INT_MAX -> e - b <= Zlen tmp ->
  0 <= num0 -> num0 + inv_count (seg a b e) <= INT_MAX ->
  (Z.to_nat (e - b) < fuel)%nat -> (Z.to_nat (e - b) < depth)%nat ->
  wp (inversions fuel depth b e)
     (fun _ m => sorts a (i_a m) b e /\ Zlen (i_tmp m) = Zlen tmp /\
                 i_num m = num0 + inv_count (seg a b e)) noexit (IMem a num0 tmp).
Proof.
  induction depth as [|depth IH]; intros a num0 tmp b e Hb He Hmax Htmp Hn0 Hn Hfuel Hdepth; [lia|].
  unfold inversions; fold inversions. unfold INT_MAX in Hmax.
  wstep. apply wp_int32; [unfold INT_MIN, INT_MAX; lia|]. cbv zeta.
  set (mid := Z.quot (b + e) 2). destruct (b + 1 <? e) eqn:Hbe; wsteps.
  2: { split; [split; [apply perm_in_refl|apply sorted_in_small; lia]|]. split; [done|].
       destruct (decide (b = e)) as [->|]; [rewrite seg_nil by lia; simpl; lia|].
       rewrite seg_cons, seg_nil by lia. simpl. unfold below, Zlen. simpl. lia. }
  assert (b < mid < e) by (unfold mid; zlia). clearbody mid.
  rewrite (seg_app a b mid e), inv_app in * by lia.
  pose proof (inv_nonneg (seg a b mid)). pose proof (inv_nonneg (seg a mid e)).
  pose proof (cross_nonneg (seg a b mid) (seg a mid e)).
  eapply wp_conseq; [apply IH; unfold INT_MAX in *; lia|].
  intros _ [a1 n1 t1] ([HP1 Hs1] & Ht1 & Hn1). simpl in *.
  pose proof (perm_in_len _ _ _ _ HP1). wsteps.
  pose proof (same_out_seg _ _ _ _ mid e (proj2 HP1) ltac:(lia) ltac:(lia) ltac:(lia)) as Hseg.
  eapply wp_conseq; [apply IH; rewrite ?Hseg; unfold INT_MAX in *; lia|]. rewrite Hseg.
  intros _ [a2 n2 t2] ([HP2 Hs2] & Ht2 & Hn2). simpl in *.
  pose proof (perm_in_len _ _ _ _ HP2).
  assert (cross (seg a2 b mid) (seg a2 mid e) = cross (seg a b mid) (seg a mid e)) as Hcross.
  { rewrite (same_out_seg _ _ _ _ b mid (proj2 HP2)) by lia. apply cross_perm.
    - symmetry. by apply perm_in_seg; [lia..|].
    - rewrite <-Hseg. symmetry. by apply perm_in_seg; [lia..|]. }
  eapply wp_conseq; [apply wp_inv_merge; try lia|].
  - eapply sorted_in_same; [exact Hs1|apply HP2|lia..].
  - done.
  - intros _ [a3 n3 t3] ([HP3 Hs3] & Ht3 & Hn3). simpl in *.
    split; [split; [|done]|split; [lia|rewrite Hn3, Hcross; lia]].
    eapply perm_in_trans; [eapply perm_in_weaken; [exact HP1|lia..]|].
    eapply perm_in_trans; [eapply perm_in_weaken; [exact HP2|lia..]|done].
Qed.
End inversions_rec.

(** [inverse_pairs], given its buffer and a count of zero, counts the pairs of
    positions of [a[0..n)] that are out of order, leaves the array sorted, and
    the counter cannot overflow up to 65536 elements. *)
Theorem inverse_pairs_correct fuel t n a : 0 <= n <= Zlen a -> n <= 65536 -> n <= Zlen t ->
  (Z.to_nat n < fuel)%nat ->
  exists a', Inversions.inverse_pairs fuel (Some t) n 0 a = Ret (inv_count (seg a 0 n)) a' /\
             sorts a a' 0 n.
Proof.
  intros Hn Hmax Ht Hf. pose proof (inv_bound (seg a 0 n)) as Hb. rewrite seg_length in Hb by lia.
  assert (n * (n - 1) <= 65536 * 65535) by nia.
  destruct (wp_run _ _ _ (wp_inversions fuel fuel a 0 t 0 n ltac:(lia) ltac:(lia)
    ltac:(unfold INT_MAX; lia) ltac:(lia) ltac:(lia) ltac:(unfold INT_MAX; lia) ltac:(lia) ltac:(lia)))
    as ([] & [a' n' t'] & E & Hs & _ & Hnum). simpl in *. subst n'.
  exists a'. split; [|done]. unfold Inversions.inverse_pairs. simpl. by rewrite E.
Qed.

Lemma inverse_pairs_correct_witness : let a := [3; 2; 8; 6; 1; 5; 7; 10; 5] in
  exists a', Inversions.inverse_pairs 20 (Some (replicate 9 0)) 9 0 a = Ret 13 a' /\
             sorts a a' 0 9.
Proof.
  intros a.
  destruct (inverse_pairs_correct 20 (replicate 9 0) 9 a) as (a' & E & Hs);
    [vm_compute; split; discriminate|lia|vm_compute; discriminate|lia|].
  exists a'. split; [exact E|exact Hs].
Defined.

(** ** Binary search *)

Lemma wp_binary_search depth value : forall a beg e, 0 <= beg < e -> e <= Zlen a ->
  2 * e <= INT_MAX -> sorted_in a beg e -> (Z.to_nat (e - beg) <= depth)%nat ->
  wp (BinarySearch.binary_search depth beg e value) (fun '(v, own) a' => a' = a /\
    (beg <= v < e /\ aget a v = value \/ v = -1 /\ forall k, beg <= k < e -> aget a k <> value) /\
    (own = true <-> value = aget a (Z.quot (beg + e) 2) \/ e <= beg + 1)) noexit a.
Proof.
  induction depth as [|depth IH]; intros a beg e Hb He Hmax Hs Hd; [lia|].
  unfold BinarySearch.binary_search; fold BinarySearch.binary_search. unfold INT_MAX in *.
  wstep. apply wp_int32; [unfold INT_MIN, INT_MAX; lia|]. cbv zeta.
  set (mid := Z.quot (beg + e) 2).
  assert (beg <= mid < e /\ (beg + 1 < e -> beg < mid)) as [Hmid Hmid'] by (unfold mid; zlia).
  clearbody mid. wsteps; try lia.
  - split; [done|]. split; [left; lia|]. split; [left; lia|done].
  - split; [done|]. split; [right; split; [done|]|split; [right; lia|done]].
    intros k Hk. replace k with mid by lia. lia.
  - eapply wp_conseq; [apply (IH a mid e); try lia; eapply sorted_in_weaken; [done|lia..]|].
    intros [v own] a' (-> & Hv & _). wsteps. split; [done|]. split; [|simpl; split; [done|lia]].
    simpl. destruct Hv as [[? ?]|[-> Hno]]; [left; split; [lia|done]|right; split; [done|]].
    intros k Hk. destruct (decide (mid <= k)); [apply Hno; lia|]. specialize (Hs k mid). lia.
  - eapply wp_conseq; [apply (IH a beg mid); try lia; eapply sorted_in_weaken; [done|lia..]|].
    intros [v own] a' (-> & Hv & _). wsteps. split; [done|]. split; [|simpl; split; [done|lia]].
    simpl. destruct Hv as [[? ?]|[-> Hno]]; [left; split; [lia|done]|right; split; [done|]].
    intros k Hk. destruct (decide (k < mid)); [apply Hno; lia|]. specialize (Hs mid k). lia.
Qed.

(** On a nonempty sorted array [binary_search] ends at a [return] whose value is
    an index of [value], or -1 when it is absent, but a call that recursed, and
    every call of [bsearch], ends without a value of its own. *)
Theorem binary_search_correct fuel n value a : 1 <= n <= Zlen a -> 2 * n <= INT_MAX ->
  sorted_in a 0 n -> (Z.to_nat n <= fuel)%nat ->
  exists v own, BinarySearch.binary_search fuel 0 n value a = Ret (v, own) a /\
    BinarySearch.bsearch fuel n value a = Ret (v, false) a /\
    (0 <= v < n /\ aget a v = value \/ v = -1 /\ forall k, 0 <= k < n -> aget a k <> value) /\
    (own = true <-> value = aget a (Z.quot n 2) \/ n = 1).
Proof.
  intros Hn Hmax Hs Hf.
  destruct (wp_run _ _ _ (wp_binary_search fuel value a 0 n ltac:(lia) ltac:(lia) Hmax Hs ltac:(lia)))
    as ([v own] & a' & E & -> & Hv & Hown).
  exists v, own. split_and!; [done| |done|].
  - unfold BinarySearch.bsearch, bind. by rewrite E.
  - rewrite Hown. rewrite Z.add_0_l. split; (intros [?|?]; [by left|right; lia]).
Qed.

Lemma binary_search_correct_witness : let a := [5; 20; 21; 45; 56; 100] in
  BinarySearch.bsearch 6 6 56 a = Ret (4, false) a /\ BinarySearch.main 6 (Prog [] "") = UB.
Proof.
  intros a.
  destruct (binary_search_correct 6 6 56 a) as (v & own & _ & E & Hv & _);
    [vm_compute; split; discriminate|unfold INT_MAX; lia| |lia|].
  - intros i j Hi Hij Hj. unfold a.
    assert (i = 0 \/ i = 1 \/ i = 2 \/ i = 3 \/ i = 4 \/ i = 5) as Hc by lia.
    assert (j = 0 \/ j = 1 \/ j = 2 \/ j = 3 \/ j = 4 \/ j = 5) as Hd by lia.
    repeat destruct Hc as [Hc|Hc]; repeat destruct Hd as [Hd|Hd]; subst i j;
      vm_compute; try discriminate; exfalso; lia.
  - split; [|vm_compute; reflexivity]. vm_compute in E. injection E as <- . vm_compute. reflexivity.
Defined.

(** ** Two elements of a given sum *)

(** On a sorted array whose sums fit an [int], [find_sum] ends, returns 1 and
    prints a line exactly when two elements (possibly one element taken twice)
    add up to [x], and otherwise prints nothing and ends without a value. *)
Theorem find_sum_correct fuel n x s : 0 <= n <= Zlen (pa s) -> sorted_in (pa s) 0 n ->
  (forall i j, 0 <= i < n -> 0 <= j < n -> in_int (aget (pa s) i + aget (pa s) j) = true) ->
  (Z.to_nat n < fuel)%nat ->
  (exists i j, 0 <= i <= j /\ j < n /\ aget (pa s) i + aget (pa s) j = x /\
     FindSum.find_sum fuel n x s = Ret (Some 1) (Prog (pa s) (out s +:+
       ("a[i] = " +:+ pretty (aget (pa s) i) +:+ ", a[j] = " +:+ pretty (aget (pa s) j)
        +:+ ", x = " +:+ pretty x +:+ nl)))) \/
  ((forall i j, 0 <= i <= j -> j < n -> aget (pa s) i + aget (pa s) j <> x) /\
   FindSum.find_sum fuel n x s = Ret None s).
Proof.
  intros Hn Hs Hint Hf.
  assert (wp (FindSum.find_sum fuel n x) (fun r s' =>
    (exists i j, 0 <= i <= j /\ j < n /\ aget (pa s) i + aget (pa s) j = x /\ r = Some 1 /\
       s' = Prog (pa s) (out s +:+
       ("a[i] = " +:+ pretty (aget (pa s) i) +:+ ", a[j] = " +:+ pretty (aget (pa s) j)
        +:+ ", x = " +:+ pretty x +:+ nl))) \/
    (forall i j, 0 <= i <= j -> j < n -> aget (pa s) i + aget (pa s) j <> x) /\ r = None /\ s' = s)
    noexit s) as H.
  { unfold FindSum.find_sum.
    apply (wp_loop (fun '(i, j) s' => s' = s /\ 0 <= i /\ j < n /\ i <= j + 1 /\
        forall p q, 0 <= p <= q -> q < n -> aget (pa s) p + aget (pa s) q = x -> i <= p /\ q <= j)
      (fun '(i, j) _ => Z.to_nat (j + 1 - i))); [split_and!; try done; lia|lia|].
    intros [i j] s' (-> & Hi & Hj & Hij & Hpq). unfold printf. wsteps; try lia.
    - apply in_int_spec, Hint; lia.
    - left. exists i, j. split_and!; try done; lia.
    - split; [|lia]. split_and!; try done; try lia. intros p q Hp Hq Hsum.
      specialize (Hpq p q Hp Hq Hsum). destruct (decide (q = j)) as [->|]; [|lia].
      specialize (Hs i p). lia.
    - split; [|lia]. split_and!; try done; try lia. intros p q Hp Hq Hsum.
      specialize (Hpq p q Hp Hq Hsum). destruct (decide (p = i)) as [->|]; [|lia].
      specialize (Hs q j). lia.
    - right. split_and!; try done. intros p q Hp Hq Hsum. specialize (Hpq p q Hp Hq Hsum). lia. }
  destruct (wp_run _ _ _ H) as (r & s' & E & [(i & j & Hi & Hj & Hsum & -> & ->)|(Hno & -> & ->)]).
  - left. exists i, j. do 3 (split; [done|]). exact E.
  - by right.
Qed.

Lemma find_sum_correct_witness :
  FindSum.find_sum 4 3 4 (Prog [1; 2; 7] "") =
    Ret (Some 1) (Prog [1; 2; 7] ("a[i] = 2, a[j] = 2, x = 4" +:+ nl)).
Proof.
  destruct (find_sum_correct 4 3 4 (Prog [1; 2; 7] "")) as [(i & j & _ & _ & _ & E)|[_ E]].
  - vm_compute. split; discriminate.
  - intros i j Hi Hij Hj. assert (i = 0 \/ i = 1 \/ i = 2) as Hc by lia.
    assert (j = 0 \/ j = 1 \/ j = 2) as Hd by lia.
    repeat destruct Hc as [Hc|Hc]; repeat destruct Hd as [Hd|Hd]; subst i j;
      vm_compute; try discriminate; exfalso; lia.
  - intros i j Hi Hj. assert (i = 0 \/ i = 1 \/ i = 2) as Hc by lia.
    assert (j = 0 \/ j = 1 \/ j = 2) as Hd by lia.
    repeat destruct Hc as [-> |Hc]; repeat destruct Hd as [-> |Hd]; subst; reflexivity.
  - lia.
  - vm_compute. reflexivity.
  - exfalso. vm_compute in E. discriminate E.
Defined.

(** ** Random numbers from a coin *)

Section random_proofs.
Import RandomAB.
Variable fuel : nat.
Variable rand : Z -> Z.
(** The [k]-th toss of the coin. *)
Definition coin (k : Z) : Z := Z.rem (rand k) 2.

(** The bits that [n] pairs of tosses give, from the [p]-th pair on: the first toss of
    each pair whose tosses differ. *)
Fixpoint unbiased (p : Z) (n : nat) : list Z :=
  match n with
  | O => []
  | S n => (if coin (2 * p) =? coin (2 * p + 1) then [] else [coin (2 * p)]) ++ unbiased (p + 1) n
  end.

(** What a number read from the bits is: the first above [a] to which the next bit
    would bring [b]; a number that is too small goes on with its bits. *)
Fixpoint first_above (a b cur : Z) (bits : list Z) : option Z :=
  match bits with
  | [] => None
  | x :: bits =>
      if (b <=? 2 * cur + x) && (a <? cur) then Some cur else first_above a b (2 * cur + x) bits
  end.

Lemma wp_random01 p n x bits (Q : Z -> Z -> Prop) X : (n < fuel)%nat -> unbiased p n = x :: bits ->
  (forall p' n', (n' < n)%nat -> unbiased p' n' = bits -> Q x (2 * p')) -> wp (random01 fuel rand) Q X (2 * p).
Proof.
  intros Hn E HQ. unfold random01.
  apply (wp_loop_idx (fun m (_ : unit) c => exists q, c = 2 * q /\ (m <= n)%nat /\ unbiased q m = x :: bits) _ _ _ _ n);
    [by exists p|done|].
  intros m [] c (q & -> & Hm & Eq). destruct m as [|m]; [done|]. simpl in Eq.
  apply wp_bind. unfold wp at 1, biase_random. apply wp_bind. unfold wp at 1. fold (coin (2 * q)). fold (coin (2 * q + 1)).
  replace (2 * q + 1 + 1) with (2 * (q + 1)) by lia.
  destruct (Z.eqb_spec (coin (2 * q)) (coin (2 * q + 1))); simpl; apply wp_ret.
  - exists m. split; [|lia]. exists (q + 1). split_and!; [done|lia|done].
  - injection Eq as <- Eq. apply (HQ _ m); [lia|done].
Qed.

Hypothesis rand_nonneg : forall k, 0 <= rand k.

Lemma unbiased_bits p n : Forall (fun x => 0 <= x <= 1) (unbiased p n).
Proof.
  revert p. induction n as [|n IH]; intros p; simpl; [constructor|]. apply Forall_app. split; [|apply IH].
  case_match; [constructor|]. constructor; [|constructor]. unfold coin. pose proof (rand_nonneg (2 * p)). zlia.
Qed.

Variables a b : Z.
Hypothesis Hb : 1 <= b < 2 ^ 29.
Hypothesis Hab : a <= b.

(** The numbers on the way: below [b], or not far above a rejected one. *)
Definition on_way (cur : Z) : Prop := 0 <= cur /\ (cur < b \/ cur <= 2 * a + 1).

Lemma on_way_step cur x : on_way cur -> 0 <= x <= 1 -> (b <=? 2 * cur + x) && (a <? cur) = false -> on_way (2 * cur + x).
Proof. unfold on_way. lia. Qed.

Lemma first_above_range cur bits r : Forall (fun x => 0 <= x <= 1) bits -> on_way cur -> first_above a b cur bits = Some r ->
  a < r /\ 0 <= r /\ (r < b \/ b <= r <= 2 * a + 1).
Proof.
  intros Hbits. revert cur. induction Hbits as [|x bits Hx _ IH]; intros cur Hc E; [done|]. simpl in E.
  destruct (_ && _) eqn:Et; [|by apply (IH (2 * cur + x)), E; apply on_way_step].
  injection E as <-. unfold on_way in Hc. lia.
Qed.

(** Enough bits give a number: a 1 and thirty more. *)
Lemma first_above_grows m cur bits : Forall (fun x => 0 <= x <= 1) bits -> 1 <= cur -> b < cur * 2 ^ Z.of_nat m ->
  (m < length bits)%nat -> is_Some (first_above a b cur bits).
Proof.
  intros Hbits. revert m cur. induction Hbits as [|x bits Hx _ IH]; intros m cur Hc Hm Hl; simpl in *; [lia|].
  destruct (_ && _) eqn:Et; [by eexists|]. destruct m as [|m]; [rewrite Z.mul_1_r in Hm; lia|].
  rewrite Nat2Z.inj_succ, Z.pow_succ_r in Hm by lia. apply (IH m); [lia|nia|lia].
Qed.

Lemma first_above_ends l1 l2 cur : Forall (fun x => 0 <= x <= 1) (l1 ++ 1 :: l2) -> (30 <= length l2)%nat -> 0 <= cur ->
  is_Some (first_above a b cur (l1 ++ 1 :: l2)).
Proof.
  intros Hbits Hl. revert cur. induction l1 as [|x l1 IH]; intros cur Hc; simpl in *; apply Forall_cons in Hbits as [Hx Hbits];
    (destruct (_ && _) eqn:Et; [by eexists|]).
  - apply (first_above_grows 29); [done|lia| |lia]. change (2 ^ Z.of_nat 29) with (2 ^ 29). nia.
  - apply IH; [done|lia].
Qed.

(** The inner loop, with [n] pairs of tosses left. *)
Lemma wp_toss n p cur tmp0 r (Q : Z * Z -> Z -> Prop) X : (n < fuel)%nat -> on_way cur -> first_above a b cur (unbiased p n) = Some r ->
  (forall cur' tmp p' n', (n' < n)%nat -> b <= cur' -> (a < tmp -> tmp = r) ->
     (tmp <= a -> on_way cur' /\ first_above a b cur' (unbiased p' n') = Some r) -> Q (cur', tmp) (2 * p')) ->
  wp (loop fuel (fun '(cur, _) =>
      let tmp := cur in
      cur <- int32 (Z.shiftl cur 1) ;;
      bit <- random01 fuel rand ;;
      cur <- int32 (cur + bit) ;;
      if cur <? b then ret (inl (cur, tmp)) else ret (inr (cur, tmp))) (cur, tmp0)) Q X (2 * p).
Proof.
  intros Hn Hc E HQ. change (2 ^ 29) with 536870912 in Hb.
  apply (wp_loop_idx (fun m '(c, _) s => exists q, s = 2 * q /\ (m <= n)%nat /\ on_way c /\ first_above a b c (unbiased q m) = Some r) _ _ _ _ n);
    [by exists p|done|].
  intros m [c tmp] s (q & -> & Hm & Hway & Eq). pose proof Hway as [Hc0 Hc1]. cbv zeta.
  destruct (unbiased q m) as [|x bits] eqn:Eu; [done|]. pose proof (unbiased_bits q m) as Hx. rewrite Eu in Hx.
  apply Forall_cons in Hx as [Hx _].
  rewrite Z.shiftl_mul_pow2 by lia. change (2 ^ 1) with 2. rewrite (Z.mul_comm c 2).
  wstep. apply wp_int32; [unfold INT_MIN, INT_MAX; lia|]. wstep.
  eapply wp_random01; [|exact Eu|]; [lia|]. intros q' m' Hm' Eu'. wstep. apply wp_int32; [unfold INT_MIN, INT_MAX; lia|].
  simpl in Eq. pose proof (on_way_step c x Hway Hx) as Hstep. rewrite <-Eu' in Eq. wsteps.
  - rewrite (proj2 (Z.leb_gt b _)) in Eq, Hstep by lia. exists m'. split; [|lia]. exists q'. split_and!; [done|lia|auto|done].
  - rewrite (proj2 (Z.leb_le b _)) in Eq, Hstep by lia. simpl in Eq, Hstep. apply (HQ _ _ q' m'); [lia|lia| |].
    + intros Ha. rewrite (proj2 (Z.ltb_lt a c)) in Eq by lia. congruence.
    + intros Ha. rewrite (proj2 (Z.ltb_ge a c)) in Eq, Hstep by lia. auto.
Qed.

Lemma wp_crandom n r : (n < fuel)%nat -> first_above a b 0 (unbiased 0 n) = Some r ->
  wp (crandom fuel rand a b) (fun r' _ => r' = r) noexit 0.
Proof.
  intros Hn E. unfold crandom. wstep. apply wp_unless; [lia|].
  apply (wp_loop_idx (fun m '(cur, _) s => exists p, s = 2 * p /\ (m <= n)%nat /\ on_way cur /\
      first_above a b cur (unbiased p m) = Some r) _ _ _ _ n); [|done|].
  { exists 0. split_and!; [done|done|split; lia|done]. }
  intros m [cur tmp0] s (p & -> & Hm & Hc & Eq). wstep. eapply (wp_toss m); [lia|done|done|].
  intros cur' tmp p' m' Hm' Hcur' Hr Hgo. destruct (Z.ltb_spec a tmp); wstep; [auto|].
  exists m'. split; [|lia]. exists p'. destruct (Hgo ltac:(lia)). split_and!; [done|lia|done..].
Qed.
End random_proofs.

(** C40: [crandom] is the number that the bits of the coin give. The bits are the first
    tosses of the pairs whose tosses differ; the number is the first above [a] to which
    the next bit would bring [b]. When the bits of the first [n] pairs contain a 1 that
    thirty more follow, it is found without overflow, for [1 <= b < 2^29]; it is above [a]
    and below [b] or, out of the range asked for, between [b] and [2a + 1]. A range that
    is empty ends the program. *)
Theorem crandom_range fuel rand a b n : (forall i, 0 <= rand i) -> 1 <= b < 2 ^ 29 -> (n < fuel)%nat ->
  (b < a -> RandomAB.crandom fuel rand a b 0 = Exit (-1) 0) /\
  (a <= b -> forall bits bits', unbiased rand 0 n = bits ++ 1 :: bits' -> (30 <= length bits')%nat ->
   exists r c, RandomAB.crandom fuel rand a b 0 = Ret r c /\ first_above a b 0 (bits ++ 1 :: bits') = Some r /\
     a < r /\ 0 <= r /\ (r < b \/ b <= r <= 2 * a + 1)).
Proof.
  intros Hr Hb Hf. split.
  { intros Hlt. unfold RandomAB.crandom. by rewrite (proj2 (Z.ltb_lt b a)). }
  intros Hab bits bits' Eu Hl. pose proof (unbiased_bits rand Hr 0 n) as Hbits. rewrite Eu in Hbits.
  destruct (first_above_ends a b Hb Hab bits bits' 0 Hbits Hl) as [r E]; [done|].
  pose proof E as E'. rewrite <-Eu in E'.
  destruct (wp_run _ _ _ (wp_crandom fuel rand Hr a b Hb Hab n r Hf E')) as (r' & c & Er & ->).
  exists r, c. split; [done|]. split; [done|]. apply (first_above_range a b 0 (bits ++ 1 :: bits')); [done|split; lia|done].
Qed.

(** Asked for a number from 5 to 6, a coin gives 7; every other pair of its tosses is equal. *)
Lemma crandom_range_witness : let rand (i : Z) := if i mod 4 =? 3 then 0 else 1 in
  exists r c, RandomAB.crandom 80 rand 5 6 0 = Ret r c /\ r = 7.
Proof.
  intros rand. destruct (crandom_range 80 rand 5 6 62) as [_ Hc].
  - intros i. unfold rand. by case_match.
  - lia.
  - lia.
  - destruct (Hc ltac:(lia) [] (replicate 30 1)) as (r & c & E & _); [vm_compute; reflexivity|done|].
    exists r, c. split; [exact E|]. vm_compute in E. injection E as <- <-. reflexivity.
Defined.
