(* ===== verification/Heap.v ===== *)
(** Heap: C memory as a finite map from addresses to structs, the operations on
    it, and a separation logic for the computations of Prelude. Assertions are
    sets of resources (cells of the heap, and the text on the standard output);
    they form a linear BI, so the Iris proof mode works on them, and a
    specification says which cells a function consumes, gives back or leaks. *)
From stdpp Require Import gmap strings.
From iris.bi Require Import interface.
From iris.proofmode Require Import proofmode.
From S2P Require Import Prelude.
#[export] Set Warnings "-rewrite-rw".

(** ** The memory *)

Definition NULL : Z := 0.

Section memory.
Context {V : Type}.

(** Each address holds one struct of the program; standard output is a text. *)
Record state := St { heap : gmap Z V; stdout : string }.

(** [malloc]: where the next block is placed, [None] for a failure, and what the
    block holds before it is written. *)
Class Malloc := {
  malloc_at : state -> option Z;
  junk : state -> V;
  malloc_fresh s l : malloc_at s = Some l -> l <> NULL /\ heap s !! l = None;
}.

Definition load (p : Z) : M state V := fun s =>
  match heap s !! p with Some v => Ret v s | None => UB end.

Definition store (p : Z) (v : V) : M state unit := fun s =>
  match heap s !! p with
  | Some _ => Ret tt (St (<[p := v]> (heap s)) (stdout s))
  | None => UB
  end.

Definition malloc `{Malloc} : M state Z := fun s =>
  match malloc_at s with
  | Some l => Ret l (St (<[l := junk s]> (heap s)) (stdout s))
  | None => Ret NULL s
  end.

Definition free (p : Z) : M state unit := fun s =>
  if p =? NULL then Ret tt s
  else match heap s !! p with
       | Some _ => Ret tt (St (delete p (heap s)) (stdout s))
       | None => UB
       end.

Definition printf (t : string) : M state unit :=
  modify (fun s => St (heap s) (stdout s +:+ t)).

(** [p->f] and [p->f = x]. *)
Definition get {A} (p : Z) (f : V -> A) : M state A := v <- load p ;; ret (f v).
Definition put (p : Z) (f : V -> V) : M state unit := v <- load p ;; store p (f v).
End memory.
Arguments state : clear implicits.
Arguments Malloc : clear implicits.

(** ** Assertions *)

(** The resources: cells at [Some l], the standard output at [None]. *)
Notation resources V := (gmap (option Z) (V + string)).

Section heapprop.
Context {V : Type}.
Notation res := (resources V).

Structure heapProp := HeapProp { holds :> res -> Prop }.

Record hp_entails (P Q : heapProp) : Prop := { in_entails : forall r, P r -> Q r }.
Record hp_equiv_def (P Q : heapProp) : Prop := { in_equiv : forall r, P r <-> Q r }.
#[local] Instance hp_equiv : Equiv heapProp := hp_equiv_def.

#[local] Instance hp_equivalence : Equivalence (≡@{heapProp}).
Proof.
  split.
  - by constructor.
  - intros P Q [H]. constructor. intros r. by rewrite (H r).
  - intros P Q R [H1] [H2]. constructor. intros r. by rewrite (H1 r) (H2 r).
Qed.

(** The discrete structure: all step indices agree. *)
#[local] Instance hp_dist : Dist heapProp := discrete_dist.
Definition hp_ofe_mixin : OfeMixin heapProp := discrete_ofe_mixin hp_equivalence.
Canonical Structure heapPropO := Ofe heapProp hp_ofe_mixin.
#[local] Instance hp_cofe : Cofe heapPropO := discrete_cofe hp_equivalence.

Definition hp_emp : heapProp := HeapProp (fun r => r = ∅).
Definition hp_pure (p : Prop) : heapProp := HeapProp (fun _ => p).
Definition hp_and (P Q : heapProp) := HeapProp (fun r => P r /\ Q r).
Definition hp_or (P Q : heapProp) := HeapProp (fun r => P r \/ Q r).
Definition hp_impl (P Q : heapProp) := HeapProp (fun r => P r -> Q r).
Definition hp_forall A (P : A -> heapProp) := HeapProp (fun r => forall a, P a r).
Definition hp_exist A (P : A -> heapProp) := HeapProp (fun r => exists a, P a r).
Definition hp_sep (P Q : heapProp) := HeapProp (fun r =>
  exists r1 r2, r = r1 ∪ r2 /\ r1 ##ₘ r2 /\ P r1 /\ Q r2).
Definition hp_wand (P Q : heapProp) := HeapProp (fun r =>
  forall r', r ##ₘ r' -> P r' -> Q (r ∪ r')).
Definition hp_persistently (P : heapProp) : heapProp := hp_pure (hp_entails hp_emp P).
Definition hp_later (P : heapProp) : heapProp := P.

Lemma hp_bi_mixin : BiMixin hp_entails hp_emp hp_pure hp_and hp_or hp_impl
  hp_forall hp_exist hp_sep hp_wand.
Proof.
  split; try (repeat intro; unfold dist, hp_dist, discrete_dist, equiv, hp_equiv in *;
    try constructor; repeat match goal with
      | H : hp_entails _ _ |- _ => destruct H as [H]
      | H : hp_equiv_def _ _ |- _ => destruct H as [H]
      end;
    simpl in *; naive_solver).
  - split; [by intros P; constructor|]. intros P Q R [H1] [H2]. constructor. eauto.
  - intros P Q. split.
    + intros [H]. by split; constructor; intros r; apply (H r).
    + intros [[H1] [H2]]. constructor. intros r. split; auto.
  - intros A n P P' HP. constructor. intros r. simpl. split; intros H a; by apply (HP a).
  - intros A n P P' HP. constructor. intros r. simpl. split; intros [a H]; exists a; by apply (HP a).
  - intros φ P H. constructor. intros r Hφ. by apply (H Hφ).
  - intros P. constructor. intros r HP. exists ∅, r.
    split_and!; [by rewrite (left_id_L ∅ _)|apply map_disjoint_empty_l|done|done].
  - intros P. constructor. intros r (r1 & r2 & -> & _ & -> & HP). by rewrite (left_id_L ∅ _).
  - intros P Q. constructor. intros r (r1 & r2 & -> & Hd & ? & ?). exists r2, r1.
    split_and!; [by apply map_union_comm|done|done|done].
  - intros P Q R. constructor. intros r (r1 & r3 & -> & Hd & (r1' & r2 & -> & Hd' & ? & ?) & ?).
    apply map_disjoint_union_l in Hd as [Hd1 Hd2]. exists r1', (r2 ∪ r3). split_and!.
    + by rewrite (assoc_L _).
    + by apply map_disjoint_union_r_2.
    + done.
    + by exists r2, r3.
Qed.

Lemma hp_persistently_mixin :
  BiPersistentlyMixin hp_entails hp_emp hp_and hp_exist hp_sep hp_persistently.
Proof.
  eapply bi_persistently_mixin_discrete, hp_bi_mixin; [done| |done].
  intros A Φ [H]. destruct (H ∅ eq_refl) as [x Hx]. exists x. constructor. by intros r ->.
Qed.

Lemma hp_later_mixin : BiLaterMixin hp_entails hp_pure hp_or hp_impl
  hp_forall hp_exist hp_sep hp_persistently hp_later.
Proof. eapply bi_later_mixin_id, hp_bi_mixin. done. Qed.

Canonical Structure hpropI : bi := {|
  bi_ofe_mixin := hp_ofe_mixin; bi_bi_mixin := hp_bi_mixin;
  bi_bi_persistently_mixin := hp_persistently_mixin; bi_bi_later_mixin := hp_later_mixin |}.

#[global] Instance hp_pure_forall : BiPureForall hpropI.
Proof. intros A φ. constructor. intros r H a. apply (H a). Qed.
End heapprop.
Arguments heapProp : clear implicits.
Arguments hpropI : clear implicits.

(** ** The assertions of the program logic *)

Section logic.
Context {V : Type}.
Implicit Types (p l : Z) (v : V) (s : state V) (r : resources V).

(** [l] holds the struct [v], and is not the null pointer. *)
Definition points_to l v : heapProp V :=
  HeapProp (fun r => l <> NULL /\ r = {[Some l := inl v]}).
(** The text printed so far. *)
Definition stdout_is (t : string) : heapProp V := HeapProp (fun r => r = {[None := inr t]}).

(** What a state consists of. *)
Definition res_of s : resources V :=
  <[None := inr (stdout s)]> (kmap Some (inl <$> heap s)).

(** [WP m Q]: from any state that contains the resources, [m] terminates without
    undefined behaviour, leaves the rest of the state alone and ends with
    resources that satisfy [Q]. *)
Definition WP {A} (m : M (state V) A) (Q : A -> heapProp V) : heapProp V :=
  HeapProp (fun r => forall s rf, r ##ₘ rf -> res_of s = r ∪ rf ->
    wp m (fun a s' => exists r', r' ##ₘ rf /\ res_of s' = r' ∪ rf /\ Q a r') noexit s).

Lemma res_of_heap s l : res_of s !! Some l = inl <$> heap s !! l.
Proof.
  unfold res_of. rewrite lookup_insert_ne //.
  by rewrite (lookup_kmap Some) lookup_fmap.
Qed.

Lemma res_of_stdout s : res_of s !! None = Some (inr (stdout s)).
Proof. unfold res_of. by rewrite lookup_insert_eq. Qed.

Lemma res_of_update s l v : res_of (St (<[l := v]> (heap s)) (stdout s)) =
  <[Some l := inl v]> (res_of s).
Proof.
  unfold res_of. simpl. rewrite fmap_insert kmap_insert. by rewrite insert_insert_ne.
Qed.

Lemma res_of_delete s l : res_of (St (delete l (heap s)) (stdout s)) = delete (Some l) (res_of s).
Proof.
  unfold res_of. simpl. rewrite fmap_delete kmap_delete. by rewrite delete_insert_ne.
Qed.

Lemma res_of_print s t : res_of (St (heap s) t) = <[None := inr t]> (res_of s).
Proof. unfold res_of. simpl. by rewrite insert_insert_eq. Qed.

(** *** Rules *)

Lemma WP_ret {A} (a : A) (Q : A -> heapProp V) : Q a ⊢ WP (ret a) Q.
Proof. constructor. intros r HQ s rf Hd Hs. by exists r. Qed.

Lemma WP_bind {A B} (m : M (state V) A) (f : A -> M (state V) B) (Q : B -> heapProp V) :
  WP m (fun a => WP (f a) Q) ⊢ WP (bind m f) Q.
Proof.
  constructor. intros r H s rf Hd Hs. apply wp_bind. eapply wp_conseq; [by apply H|].
  intros a s' (r' & Hd' & Hs' & H'). by apply H'.
Qed.

Lemma WP_wand {A} (m : M (state V) A) (P Q : A -> heapProp V) :
  WP m P ∗ (∀ a, P a -∗ Q a) ⊢ WP m Q.
Proof.
  constructor. intros r (r1 & r2 & -> & Hd12 & H1 & H2) s rf Hd Hs.
  apply map_disjoint_union_l in Hd as [Hd1 Hd2].
  eapply wp_conseq; [apply (H1 s (r2 ∪ rf))|].
  - by apply map_disjoint_union_r_2.
  - by rewrite (assoc_L _).
  - intros a s' (r' & Hd' & Hs' & HP). apply map_disjoint_union_r in Hd' as [Hd' Hd''].
    exists (r' ∪ r2). split_and!.
    + by apply map_disjoint_union_l_2.
    + by rewrite <-(assoc_L _).
    + rewrite (map_union_comm r' r2) //. by apply H2.
Qed.

Lemma WP_eq {A} (m m' : M (state V) A) (Q : A -> heapProp V) :
  (forall s, m s = m' s) -> WP m' Q ⊢ WP m Q.
Proof. intros E. constructor. intros r H s rf Hd Hs. eapply wp_eq; [apply E|by apply H]. Qed.

(** What a state holds of a cell that is owned. *)
Lemma owned_lookup s p v rf : res_of s = {[Some p := inl v]} ∪ rf -> heap s !! p = Some v.
Proof.
  intros Hs. pose proof (res_of_heap s p) as E.
  rewrite Hs lookup_union lookup_singleton_eq union_Some_l in E.
  destruct (heap s !! p); naive_solver.
Qed.

Lemma WP_load p v (Q : V -> heapProp V) :
  points_to p v ∗ (points_to p v -∗ Q v) ⊢ WP (load p) Q.
Proof.
  constructor. intros r (r1 & r2 & -> & Hd12 & [Hp ->] & HQ) s rf Hd Hs. unfold wp, load.
  rewrite (owned_lookup s p v (r2 ∪ rf)); [|by rewrite Hs (assoc_L (∪))].
  rewrite (map_union_comm {[_ := _]} r2) // in Hs, Hd.
  exists (r2 ∪ {[Some p := inl v]}). split_and!; [done|done|].
  apply HQ; [by apply map_disjoint_sym|done].
Qed.

Lemma WP_store p v v' (Q : unit -> heapProp V) :
  points_to p v ∗ (points_to p v' -∗ Q tt) ⊢ WP (store p v') Q.
Proof.
  constructor. intros r (r1 & r2 & -> & Hd12 & [Hp ->] & HQ) s rf Hd Hs. unfold wp, store.
  rewrite (owned_lookup s p v (r2 ∪ rf)); [|by rewrite Hs (assoc_L (∪))].
  apply map_disjoint_union_l in Hd as [Hd1 Hd2].
  apply map_disjoint_singleton_l in Hd12 as Hn, Hd1 as Hn'.
  exists (r2 ∪ {[Some p := inl v']}). split_and!.
  - apply map_disjoint_union_l_2; [done|by apply map_disjoint_singleton_l].
  - rewrite res_of_update Hs. rewrite (map_union_comm {[_ := inl v]} r2) //.
    rewrite insert_union_l. rewrite insert_union_r //. by rewrite insert_singleton_eq.
  - apply HQ; [by apply map_disjoint_singleton_r|done].
Qed.

Lemma WP_get {A} p v (f : V -> A) (Q : A -> heapProp V) :
  points_to p v ∗ (points_to p v -∗ Q (f v)) ⊢ WP (get p f) Q.
Proof.
  iIntros "[Hp HQ]". iApply WP_bind. iApply WP_load. iFrame "Hp". iIntros "Hp".
  iApply WP_ret. by iApply "HQ".
Qed.

Lemma WP_put p v (f : V -> V) (Q : unit -> heapProp V) :
  points_to p v ∗ (points_to p (f v) -∗ Q tt) ⊢ WP (put p f) Q.
Proof.
  iIntros "[Hp HQ]". iApply WP_bind. iApply WP_load. iFrame "Hp". iIntros "Hp".
  iApply WP_store. iFrame "Hp". done.
Qed.

(** An allocation either gives a cell of unknown contents or the null pointer. *)
Lemma WP_malloc `{Malloc V} (Q : Z -> heapProp V) :
  (∀ l v, points_to l v -∗ Q l) ∧ Q NULL ⊢ WP malloc Q.
Proof.
  constructor. intros r [Hok Hnull] s rf Hd Hs. unfold wp, malloc.
  destruct (malloc_at s) as [l|] eqn:E; [|by exists r].
  apply malloc_fresh in E as [Hl Hfresh].
  assert (res_of s !! Some l = None) as Hf by (by rewrite res_of_heap Hfresh).
  rewrite Hs in Hf. apply lookup_union_None in Hf as [Hr Hrf].
  exists (r ∪ {[Some l := inl (junk s)]}). split_and!.
  - apply map_disjoint_union_l_2; [done|by apply map_disjoint_singleton_l].
  - rewrite res_of_update Hs. by rewrite insert_union_l insert_union_singleton_r.
  - apply (Hok l (junk s)); [by apply map_disjoint_singleton_r|done].
Qed.

Lemma WP_free p v (Q : unit -> heapProp V) : points_to p v ∗ Q tt ⊢ WP (free p) Q.
Proof.
  constructor. intros r (r1 & r2 & -> & Hd12 & [Hp ->] & HQ) s rf Hd Hs. unfold wp, free.
  destruct (Z.eqb_spec p NULL); [done|].
  rewrite (owned_lookup s p v (r2 ∪ rf)); [|by rewrite Hs (assoc_L (∪))].
  apply map_disjoint_union_l in Hd as [Hd1 Hd2].
  apply map_disjoint_singleton_l in Hd12 as Hn, Hd1 as Hn'.
  exists r2. split_and!; [done| |done].
  rewrite res_of_delete Hs -(assoc_L _) delete_union delete_singleton_eq (left_id_L ∅ _).
  rewrite delete_id //. by apply lookup_union_None.
Qed.

Lemma WP_printf t u (Q : unit -> heapProp V) :
  stdout_is t ∗ (stdout_is (t +:+ u) -∗ Q tt) ⊢ WP (printf u) Q.
Proof.
  constructor. intros r (r1 & r2 & -> & Hd12 & -> & HQ) s rf Hd Hs. unfold wp, printf, modify.
  assert (stdout s = t) as ->.
  { pose proof (res_of_stdout s) as E. rewrite Hs -(assoc_L _) lookup_union lookup_singleton_eq in E.
    rewrite union_Some_l in E. naive_solver. }
  apply map_disjoint_union_l in Hd as [Hd1 Hd2].
  apply map_disjoint_singleton_l in Hd12 as Hn, Hd1 as Hn'.
  exists (r2 ∪ {[None := inr (t +:+ u)]}). split_and!.
  - apply map_disjoint_union_l_2; [done|by apply map_disjoint_singleton_l].
  - rewrite res_of_print Hs. rewrite (map_union_comm {[_ := inr t]} r2) //.
    rewrite insert_union_l insert_union_r //.
  - apply HQ; [by apply map_disjoint_singleton_r|done].
Qed.

(** Some text has been printed. *)
Definition printed : heapProp V := (∃ t, stdout_is t)%I.

Lemma WP_print u (Q : unit -> heapProp V) : printed ∗ (printed -∗ Q tt) ⊢ WP (printf u) Q.
Proof.
  iIntros "[(%t & Ht) HQ]". iApply WP_printf. iFrame "Ht". iIntros "Ht".
  iApply "HQ". iExists _. iExact "Ht".
Qed.

Lemma WP_int32 z (Q : Z -> heapProp V) : INT_MIN <= z <= INT_MAX -> Q z ⊢ WP (int32 z) Q.
Proof. intros Hz. unfold int32. apply in_int_spec in Hz as ->. iApply WP_ret. Qed.

(** An allocation that succeeds. *)
Lemma WP_malloc_ok `{Malloc V} (Q : Z -> heapProp V) : (forall s, malloc_at s <> None) ->
  (∀ l v, points_to l v -∗ Q l) ⊢ WP malloc Q.
Proof.
  intros Hok. constructor. intros r HQ s rf Hd Hs. unfold wp, malloc.
  destruct (malloc_at s) as [l|] eqn:E; [|by destruct (Hok s)].
  apply malloc_fresh in E as [Hl Hfresh].
  assert (res_of s !! Some l = None) as Hf by (by rewrite res_of_heap Hfresh).
  rewrite Hs in Hf. apply lookup_union_None in Hf as [Hr Hrf].
  exists (r ∪ {[Some l := inl (junk s)]}). split_and!.
  - apply map_disjoint_union_l_2; [done|by apply map_disjoint_singleton_l].
  - rewrite res_of_update Hs. by rewrite insert_union_l insert_union_singleton_r.
  - apply (HQ l (junk s)); [by apply map_disjoint_singleton_r|done].
Qed.

(** The address of a cell is not the null pointer. *)
Lemma points_to_ne l v (Q : heapProp V) :
  (<affine> ⌜l <> NULL⌝ -∗ points_to l v -∗ Q) ⊢ points_to l v -∗ Q.
Proof.
  constructor. intros r HQ r' Hd [Hl ->].
  specialize (HQ ∅ (map_disjoint_empty_r _) (conj eq_refl Hl)). rewrite (right_id_L ∅ (∪)) in HQ.
  by apply HQ.
Qed.

(** Loops: an invariant indexed by a bound on the rounds that remain. *)
Lemma WP_loop {L R} (I : nat -> L -> heapProp V) (body : L -> M (state V) (L + R))
    (Q : R -> heapProp V) fuel n (l : L) : (n < fuel)%nat ->
  (forall n (l : L), I n l ⊢ WP (body l) (fun o => match o with
                                   | inl l' => ∃ n', <affine> ⌜(n' < n)%nat⌝ ∗ I n' l'
                                   | inr x => Q x
                                   end)) ->
  I n l ⊢ WP (loop fuel body l) Q.
Proof.
  intros Hn Hbody. revert n l Hn. induction fuel as [|fuel IH]; intros n l Hn; [lia|].
  iIntros "HI". simpl. iApply WP_bind. iApply WP_wand. iSplitL "HI"; [by iApply Hbody|].
  iIntros ([l'|r]).
  - iIntros "(%n' & %Hlt & HI)". iApply (IH n'); [lia|done].
  - iIntros "HQ". by iApply WP_ret.
Qed.

(** *** From the logic back to runs *)

Lemma WP_adequate {A} (m : M (state V) A) (P : heapProp V) (Q : A -> heapProp V) s r rf :
  (P ⊢ WP m Q) -> P r -> r ##ₘ rf -> res_of s = r ∪ rf ->
  exists a s' r', m s = Ret a s' /\ r' ##ₘ rf /\ res_of s' = r' ∪ rf /\ Q a r'.
Proof.
  intros [HP] Hr Hd Hs. apply HP in Hr. specialize (Hr s rf Hd Hs).
  apply wp_run in Hr as (a & s' & E & r' & ? & ? & ?). by exists a, s', r'.
Qed.

(** The state consists of resources that satisfy [P], and of other cells [f]. *)
Definition cells (f : gmap Z V) : resources V := kmap Some (inl <$> f).
Definition framed (P : heapProp V) (f : gmap Z V) (s : state V) : Prop :=
  exists r, P r /\ r ##ₘ cells f /\ res_of s = r ∪ cells f.

Lemma framed_run {A} (m : M (state V) A) (P : heapProp V) (Q : A -> heapProp V) s f :
  (P ⊢ WP m Q) -> framed P f s -> exists a s', m s = Ret a s' /\ framed (Q a) f s'.
Proof.
  intros HP (r & Hr & Hd & Hs).
  destruct (WP_adequate m P Q s r (cells f) HP Hr Hd Hs) as (a & s' & r' & E & Hd' & Hs' & HQ).
  exists a, s'. split; [done|]. by exists r'.
Qed.

Lemma framed_mono (P Q : heapProp V) f s : (P ⊢ Q) -> framed P f s -> framed Q f s.
Proof. intros [HPQ] (r & Hr & ? & ?). exists r. auto. Qed.

#[global] Instance framed_proper : Proper ((≡) ==> (=) ==> (=) ==> iff) framed.
Proof.
  intros P Q HPQ f ? <- s ? <-. apply bi.equiv_entails in HPQ as [H1 H2].
  split; by apply framed_mono.
Qed.

Lemma framed_pure (φ : Prop) (P : heapProp V) f s :
  framed (<affine> ⌜φ⌝ ∗ P)%I f s -> φ /\ framed P f s.
Proof.
  intros (r & (r1 & r2 & -> & _ & [-> Hφ] & HP) & Hd & Hs). split; [done|].
  exists r2. by rewrite (left_id_L ∅ (∪)) in Hd Hs.
Qed.

Lemma framed_exist {A} (P : A -> heapProp V) f s :
  framed (∃ a, P a)%I f s -> exists a, framed (P a) f s.
Proof. intros (r & [a Ha] & ? & ?). exists a, r. auto. Qed.

Lemma cells_lookup f l : cells f !! Some l = inl <$> f !! l.
Proof. unfold cells. by rewrite (lookup_kmap Some) lookup_fmap. Qed.

Lemma cells_none f : cells f !! None = None.
Proof. apply (lookup_kmap_None Some). by intros. Qed.

Lemma cells_insert f l v : cells (<[l := v]> f) = <[Some l := inl v]> (cells f).
Proof. unfold cells. by rewrite fmap_insert kmap_insert. Qed.

(** A cell that the resources own can be counted as another cell. *)
Lemma framed_cell l v (P : heapProp V) f s : framed (points_to l v ∗ P)%I f s ->
  f !! l = None /\ framed P (<[l := v]> f) s.
Proof.
  intros (r & (r1 & r2 & -> & Hd12 & [_ ->] & HP) & Hd & Hs).
  apply map_disjoint_union_l in Hd as [Hd1 Hd2].
  apply map_disjoint_singleton_l in Hd12 as Hn, Hd1 as Hn'.
  split. { rewrite cells_lookup in Hn'. by destruct (f !! l). }
  exists r2. split; [done|]. rewrite cells_insert. split; [by apply map_disjoint_insert_r|].
  rewrite Hs -insert_union_r // insert_union_singleton_l. by rewrite (assoc_L (∪)).
Qed.

Lemma framed_lookup l v (P : heapProp V) f s :
  framed (points_to l v ∗ P)%I f s -> heap s !! l = Some v.
Proof.
  intros (r & (r1 & r2 & -> & _ & [_ ->] & _) & _ & Hs).
  apply (owned_lookup s l v (r2 ∪ cells f)). by rewrite Hs (assoc_L (∪)).
Qed.

Lemma framed_output t (P : heapProp V) f s : framed (P ∗ stdout_is t)%I f s -> stdout s = t.
Proof.
  intros (r & (r1 & r2 & -> & Hd & HP & ->) & _ & Hs). pose proof (res_of_stdout s) as E.
  rewrite Hs (map_union_comm r1) // -(assoc_L (∪)) lookup_union lookup_singleton_eq union_Some_l in E.
  congruence.
Qed.

(** Nothing but the output is left. *)
Lemma framed_stdout t f s : framed (stdout_is t) f s <-> s = St f t.
Proof.
  split.
  - intros (r & -> & Hd & Hs). destruct s as [h o]. f_equal.
    + apply map_eq. intros l. pose proof (res_of_heap (St h o) l) as E. rewrite Hs in E.
      rewrite lookup_union_r ?cells_lookup // in E; [|by apply lookup_singleton_ne].
      simpl in E. by destruct (f !! l), (h !! l); simplify_eq/=.
    + pose proof (res_of_stdout (St h o)) as E.
      rewrite Hs lookup_union lookup_singleton_eq union_Some_l in E. simpl in E. congruence.
  - intros ->. exists {[None := inr t]}. split; [done|]. split.
    + apply map_disjoint_singleton_l, cells_none.
    + unfold res_of. by rewrite insert_union_singleton_l.
Qed.

(** When the resources are the whole state. *)
Lemma WP_run {A} (m : M (state V) A) (P : heapProp V) (Q : A -> heapProp V) s :
  (P ⊢ WP m Q) -> P (res_of s) -> exists a s', m s = Ret a s' /\ Q a (res_of s').
Proof.
  intros HP Hs. destruct (WP_adequate m P Q s (res_of s) ∅ HP Hs) as (a & s' & r' & E & _ & Hr & HQ).
  - apply map_disjoint_empty_r.
  - by rewrite (right_id_L ∅ (∪)).
  - rewrite (right_id_L ∅ (∪)) in Hr. subst r'. by exists a, s'.
Qed.
End logic.

(** ** A concrete allocator *)

(** Blocks at increasing addresses, never reused while they are allocated. *)
Section bump.
Context {V : Type} `{Inhabited V}.

Definition next_free (h : gmap Z V) : Z := map_fold (fun k _ m => Z.max k m) 0 h + 1.

Lemma next_free_spec (h : gmap Z V) : 0 < next_free h /\ forall k v, h !! k = Some v -> k < next_free h.
Proof.
  unfold next_free.
  apply (map_fold_weak_ind (fun m h => 0 < m + 1 /\ forall k v, h !! k = Some v -> k < m + 1)).
  - split; [lia|]. intros k v. by rewrite lookup_empty.
  - intros i x m r Hi [H1 H2]. split; [lia|]. intros k v.
    destruct (decide (i = k)) as [->|]; [rewrite lookup_insert_eq; lia|].
    rewrite lookup_insert_ne //. intros Hk. apply H2 in Hk. lia.
Qed.

Definition bump_malloc : Malloc V.
Proof.
  refine {| malloc_at s := Some (next_free (heap s)); junk _ := inhabitant |}.
  intros s l [= <-]. destruct (next_free_spec (heap s)) as [H1 H2]. split; [unfold NULL; lia|].
  destruct (heap s !! _) eqn:E; [|done]. apply H2 in E. lia.
Defined.

(** An allocator without memory. *)
Definition null_malloc : Malloc V.
Proof. by refine {| malloc_at s := None; junk _ := inhabitant |}. Defined.
End bump.

Notation "l ↦ v" := (points_to l v) (at level 20, format "l  ↦  v") : bi_scope.

(** Steps of a symbolic execution: each takes the names of the hypotheses that
    own the cell. *)
Ltac wp_bind_ := repeat lazymatch goal with
  | |- environments.envs_entails _ (WP (bind _ _) _) => iApply WP_bind
  end.
Tactic Notation "wp_get" constr(H) :=
  wp_bind_; iApply WP_get; iFrame H; iIntros H; cbn beta.
Tactic Notation "wp_put" constr(H) :=
  wp_bind_; iApply WP_put; iFrame H; iIntros H; cbn beta.
Tactic Notation "wp_free" constr(H) := wp_bind_; iApply WP_free; iFrame H.
Tactic Notation "wp_print" constr(H) := wp_bind_; iApply WP_print; iFrame H; iIntros H.
Tactic Notation "wp_ret" := wp_bind_; iApply WP_ret.
Tactic Notation "wp_int" := wp_bind_; iApply WP_int32; [unfold INT_MIN, INT_MAX; try lia|].
Tactic Notation "wp_call" open_constr(lem) "with" constr(pat) :=
  wp_bind_; iApply WP_wand; iSplitL pat; [iApply lem|].
