(* ===== verification/Avl.v ===== *)
(** Avl: data_structure_and_algorithm/avl/avltree.c, the AVL tree on a heap of
    nodes. Functional trees say what each operation computes; the operations are
    proved to implement them in the separation logic of Heap, and the functional
    insertion keeps the tree ordered and balanced. *)
From stdpp Require Import gmap list strings pretty sorting.
From iris.proofmode Require Import proofmode.
From S2P Require Import Prelude Heap.

(** ** The program *)

Record avlnode := Node { element : Z; left : Z; right : Z; n_height : Z }.
Definition set_element (v : Z) (n : avlnode) := Node v (left n) (right n) (n_height n).
Definition set_left (v : Z) (n : avlnode) := Node (element n) v (right n) (n_height n).
Definition set_right (v : Z) (n : avlnode) := Node (element n) (left n) v (n_height n).
Definition set_height (v : Z) (n : avlnode) := Node (element n) (left n) (right n) v.

Notation avl_state := (state avlnode).
#[global] Instance avlnode_inhabited : Inhabited avlnode := populate (Node 0 0 0 0).

Section program.
Context `{Malloc avlnode}.
Notation M := (M avl_state).

(** Null is address 0; a node's fields are read and written through its address. *)
Definition height (p : Z) : M Z := if p =? NULL then ret 0 else get p n_height.

Fixpoint preorder_avltree (depth : nat) (tree : Z) : M unit :=
  match depth with
  | O => fun _ => Diverge
  | S depth =>
      when negb (tree =? NULL) do
        (x <- get tree element ;; printf (pretty x +:+ " ") ;;
         l <- get tree left ;; preorder_avltree depth l ;;
         r <- get tree right ;; preorder_avltree depth r)
  end.

Fixpoint inorder_avltree (depth : nat) (tree : Z) : M unit :=
  match depth with
  | O => fun _ => Diverge
  | S depth =>
      when negb (tree =? NULL) do
        (l <- get tree left ;; inorder_avltree depth l ;;
         x <- get tree element ;; printf (pretty x +:+ " ") ;;
         r <- get tree right ;; inorder_avltree depth r)
  end.

Fixpoint postorder_avltree (depth : nat) (tree : Z) : M unit :=
  match depth with
  | O => fun _ => Diverge
  | S depth =>
      when negb (tree =? NULL) do
        (l <- get tree left ;; postorder_avltree depth l ;;
         r <- get tree right ;; postorder_avltree depth r ;;
         x <- get tree element ;; printf (pretty x +:+ " "))
  end.

Fixpoint findmin (depth : nat) (tree : Z) : M Z :=
  match depth with
  | O => fun _ => Diverge
  | S depth =>
      if tree =? NULL then ret NULL
      else l <- get tree left ;;
           if l =? NULL then ret tree
           else l <- get tree left ;; findmin depth l
  end.

Definition findmax (fuel : nat) (tree : Z) : M Z :=
  if negb (tree =? NULL) then
    while_ fuel (fun tree => r <- get tree right ;; ret (negb (r =? NULL)))
      (fun tree => get tree right) tree
  else ret tree.

(** [p->height = max(height(p->left), height(p->right)) + 1]. *)
Definition update_height (p : Z) : M unit :=
  l <- get p left ;; hl <- height l ;;
  r <- get p right ;; hr <- height r ;;
  h <- int32 ((if hr <? hl then hl else hr) + 1) ;;
  put p (set_height h).

Definition left_left_rotate (k2 : Z) : M Z :=
  printf ("left_left_rotate" +:+ nl) ;;
  k1 <- get k2 left ;;
  x <- get k1 right ;; put k2 (set_left x) ;;
  put k1 (set_right k2) ;;
  update_height k2 ;;
  update_height k1 ;;
  ret k1.

Definition right_right_rotate (k2 : Z) : M Z :=
  printf ("right_right_rotate" +:+ nl) ;;
  k1 <- get k2 right ;;
  x <- get k1 left ;; put k2 (set_right x) ;;
  put k1 (set_left k2) ;;
  update_height k2 ;;
  update_height k1 ;;
  ret k1.

Definition left_right_rotate (k3 : Z) : M Z :=
  printf ("left_right_rotate" +:+ nl) ;;
  l <- get k3 left ;; k <- right_right_rotate l ;; put k3 (set_left k) ;;
  left_left_rotate k3.

Definition right_left_rotate (k3 : Z) : M Z :=
  printf ("right_left_rotate" +:+ nl) ;;
  r <- get k3 right ;; k <- left_left_rotate r ;; put k3 (set_right k) ;;
  right_right_rotate k3.

(** [height(p->a) - height(p->b) == 2]. *)
Definition taller_by_2 (p : Z) (a b : avlnode -> Z) : M bool :=
  x <- get p a ;; hx <- height x ;;
  y <- get p b ;; hy <- height y ;;
  d <- int32 (hx - hy) ;; ret (d =? 2).

Fixpoint insert_node (depth : nat) (t x : Z) : M Z :=
  match depth with
  | O => fun _ => Diverge
  | S depth =>
      t <- (if t =? NULL then
              printf ("key = " +:+ pretty x +:+ nl) ;;
              t <- malloc ;;
              if negb (t =? NULL) then
                printf ("insert_malloc" +:+ nl) ;;
                put t (set_element x) ;;
                put t (set_right NULL) ;; put t (set_left NULL) ;;
                ret t
              else printf "out of space!!!" ;; ret t
            else
              e <- get t element ;;
              if x <? e then
                printf "x < t->element" ;;
                l <- get t left ;; l <- insert_node depth l x ;; put t (set_left l) ;;
                printf ("after insert left" +:+ nl) ;;
                b <- taller_by_2 t left right ;;
                if b : bool then
                  l <- get t left ;; le <- get l element ;;
                  if x <? le then left_left_rotate t else left_right_rotate t
                else ret t
              else
                e <- get t element ;;
                if e <? x then
                  printf "x > t->element" ;;
                  r <- get t right ;; r <- insert_node depth r x ;; put t (set_right r) ;;
                  b <- taller_by_2 t right left ;;
                  if b : bool then
                    r <- get t right ;; re <- get r element ;;
                    if re <? x then right_right_rotate t else right_left_rotate t
                  else ret t
                else ret t) ;;
      update_height t ;;
      ret t
  end.

Fixpoint find (depth : nat) (t x : Z) : M Z :=
  match depth with
  | O => fun _ => Diverge
  | S depth =>
      if t =? NULL then ret NULL
      else e <- get t element ;;
           if x <? e then l <- get t left ;; find depth l x
           else e <- get t element ;;
                if e <? x then r <- get t right ;; find depth r x
                else ret t
  end.

Fixpoint delete_node (fuel depth : nat) (t x : Z) : M Z :=
  match depth with
  | O => fun _ => Diverge
  | S depth =>
      node <- find fuel t x ;;
      if (t =? NULL) || (node =? NULL) then ret t
      else
        e <- get t element ;;
        t <- (if x <? e then
                l <- get t left ;; l <- delete_node fuel depth l x ;; put t (set_left l) ;;
                b <- taller_by_2 t right left ;;
                if b : bool then
                  r <- get t right ;; re <- get r element ;;
                  if x <? re then right_left_rotate t else right_right_rotate t
                else ret t
              else
                e <- get t element ;;
                if e <? x then
                  r <- get t right ;; r <- delete_node fuel depth r x ;; put t (set_right r) ;;
                  b <- taller_by_2 t left right ;;
                  if b : bool then
                    l <- get t left ;; le <- get l element ;;
                    if x <? le then left_left_rotate t else left_right_rotate t
                  else ret t
                else
                  l <- get t left ;;
                  both <- (if negb (l =? NULL) then r <- get t right ;; ret (negb (r =? NULL))
                           else ret false) ;;
                  if both : bool then
                    r <- get t right ;; min_node <- findmin fuel r ;;
                    m <- get min_node element ;; put t (set_element m) ;;
                    r <- get t right ;; m <- get min_node element ;;
                    r <- delete_node fuel depth r m ;; put t (set_right r) ;;
                    ret t
                  else
                    l <- get t left ;;
                    if negb (l =? NULL) then get t left else get t right) ;;
        (when negb (t =? NULL) do update_height t) ;;
        ret t
  end.

Fixpoint destroy_avltree (depth : nat) (tree : Z) : M unit :=
  match depth with
  | O => fun _ => Diverge
  | S depth =>
      if tree =? NULL then ret tt
      else
        l <- get tree left ;;
        (when negb (l =? NULL) do (l <- get tree left ;; destroy_avltree depth l)) ;;
        r <- get tree right ;;
        (when negb (r =? NULL) do (r <- get tree right ;; destroy_avltree depth r)) ;;
        free tree
  end.
End program.

(** ** Functional trees *)

Inductive tree := E | T (l : tree) (x h : Z) (r : tree).

(** The stored height. *)
Definition ht (t : tree) : Z := match t with E => 0 | T _ _ h _ => h end.
Definition node (l : tree) (x : Z) (r : tree) : tree := T l x (Z.max (ht l) (ht r) + 1) r.
Definition fix_height (t : tree) : tree :=
  match t with E => E | T l x _ r => node l x r end.

Fixpoint elements (t : tree) : list Z :=
  match t with E => [] | T l x _ r => elements l ++ x :: elements r end.
Fixpoint preorder (t : tree) : list Z :=
  match t with E => [] | T l x _ r => x :: preorder l ++ preorder r end.
Fixpoint postorder (t : tree) : list Z :=
  match t with E => [] | T l x _ r => postorder l ++ postorder r ++ [x] end.
Fixpoint depth_of (t : tree) : nat :=
  match t with E => 0 | T l _ _ r => S (Nat.max (depth_of l) (depth_of r)) end.

(** The rotations; [None] where the program dereferences a null pointer. *)
Definition rot_ll (t : tree) : option tree :=
  match t with T (T a x _ b) y _ c => Some (node a x (node b y c)) | _ => None end.
Definition rot_rr (t : tree) : option tree :=
  match t with T a x _ (T b y _ c) => Some (node (node a x b) y c) | _ => None end.
Definition rot_lr (t : tree) : option tree :=
  match t with T l y h r => l' ← rot_rr l; rot_ll (T l' y h r) | E => None end.
Definition rot_rl (t : tree) : option tree :=
  match t with T l y h r => r' ← rot_ll r; rot_rr (T l y h r') | E => None end.

Definition root_lt (x : Z) (t : tree) : bool :=
  match t with T _ y _ _ => x <? y | E => false end.
Definition root_gt (x : Z) (t : tree) : bool :=
  match t with T _ y _ _ => y <? x | E => false end.

Fixpoint ins (x : Z) (t : tree) : option tree :=
  match t with
  | E => Some (node E x E)
  | T l y h r =>
      t' ← (if x <? y then
              l' ← ins x l;
              let t1 := T l' y h r in
              if ht l' - ht r =? 2 then (if root_lt x l' then rot_ll t1 else rot_lr t1)
              else Some t1
            else if y <? x then
              r' ← ins x r;
              let t1 := T l y h r' in
              if ht r' - ht l =? 2 then (if root_gt x r' then rot_rr t1 else rot_rl t1)
              else Some t1
            else Some t);
      Some (fix_height t')
  end.

Fixpoint mem (x : Z) (t : tree) : bool :=
  match t with
  | E => false
  | T l y _ r => if x <? y then mem x l else if y <? x then mem x r else true
  end.

Fixpoint min_of (t : tree) : Z :=
  match t with E => 0 | T E x _ _ => x | T l _ _ _ => min_of l end.

Fixpoint del (x : Z) (t : tree) : option tree :=
  match t with
  | E => Some E
  | T l y h r =>
      if negb (mem x t) then Some t
      else
        t' ← (if x <? y then
                l' ← del x l;
                let t1 := T l' y h r in
                if ht r - ht l' =? 2 then (if root_lt x r then rot_rl t1 else rot_rr t1)
                else Some t1
              else if y <? x then
                r' ← del x r;
                let t1 := T l y h r' in
                if ht l - ht r' =? 2 then (if root_lt x l then rot_ll t1 else rot_lr t1)
                else Some t1
              else
                match l, r with
                | T _ _ _ _, T _ _ _ _ => r' ← del (min_of r) r; Some (T l (min_of r) h r')
                | E, _ => Some r
                | _, E => Some l
                end);
        Some (fix_height t')
  end.

(** Stored heights are the real ones; sibling heights differ by at most one. *)
Fixpoint wf (t : tree) : Prop :=
  match t with E => True | T l _ h r => h = Z.max (ht l) (ht r) + 1 /\ wf l /\ wf r end.
Fixpoint balanced (t : tree) : Prop :=
  match t with
  | E => True
  | T l _ _ r => -1 <= ht l - ht r <= 1 /\ balanced l /\ balanced r
  end.
Definition bst (t : tree) : Prop := StronglySorted Z.lt (elements t).
Definition avl (t : tree) : Prop := wf t /\ balanced t.

Lemma wf_ht t : wf t -> 0 <= ht t.
Proof.
  induction t as [|l IHl x h r IHr]; simpl; [lia|]. intros (-> & Hl & Hr).
  specialize (IHl Hl). lia.
Qed.

Lemma wf_depth t : wf t -> ht t = Z.of_nat (depth_of t).
Proof.
  induction t as [|l IHl x h r IHr]; simpl; [lia|]. intros (-> & Hl & Hr).
  rewrite IHl // IHr //. lia.
Qed.

Lemma wf_node l x r : wf l -> wf r -> wf (node l x r).
Proof. done. Qed.

(** *** Rotations keep the elements, and the heights right *)

Lemma rot_ll_spec t t' : rot_ll t = Some t' -> elements t' = elements t.
Proof.
  destruct t as [|[|a x hx b] y hy c]; intros [= <-]. simpl. by rewrite -(assoc_L (++)).
Qed.

Lemma rot_rr_spec t t' : rot_rr t = Some t' -> elements t' = elements t.
Proof.
  destruct t as [|a x hx [|b y hy c]]; intros [= <-]. simpl. by rewrite -(assoc_L (++)).
Qed.

Lemma rot_lr_spec t t' : rot_lr t = Some t' -> elements t' = elements t.
Proof.
  destruct t as [|l y h r]; [done|]. intros (l' & Hl & Hr)%bind_Some.
  apply rot_rr_spec in Hl. apply rot_ll_spec in Hr. rewrite Hr. simpl. by rewrite Hl.
Qed.

Lemma rot_rl_spec t t' : rot_rl t = Some t' -> elements t' = elements t.
Proof.
  destruct t as [|l y h r]; [done|]. intros (r' & Hl & Hr)%bind_Some.
  apply rot_ll_spec in Hl. apply rot_rr_spec in Hr. rewrite Hr. simpl. by rewrite Hl.
Qed.

(** Children with the right heights, below a bound. *)
Definition kids (B : Z) (t : tree) : Prop :=
  match t with E => True | T l _ _ r => wf l /\ wf r /\ ht l <= B /\ ht r <= B end.

Lemma kids_mono B B' t : kids B t -> B <= B' -> kids B' t.
Proof. destruct t; simpl; [done|]. intros (? & ? & ? & ?) ?. split_and!; done || lia. Qed.

Lemma wf_kids t B : wf t -> ht t <= B + 1 -> kids B t.
Proof. destruct t; simpl; [done|]. intros (-> & ? & ?) ?. split_and!; done || lia. Qed.

Lemma kids_fix B t : kids B t -> 0 <= B -> wf (fix_height t) /\ ht (fix_height t) <= B + 1.
Proof. destruct t; simpl; [lia|]. intros (? & ? & ? & ?) ?. split; [done|lia]. Qed.

Lemma rot_ll_wf B t t' : rot_ll t = Some t' -> kids B t -> wf t' /\ ht t' <= B + 2.
Proof.
  destruct t as [|[|a x hx b] y hy c]; simpl; [done..|]. intros [= <-] ((-> & ? & ?) & ? & ? & ?).
  split; [done|]. pose proof (wf_ht a). pose proof (wf_ht b). simpl. lia.
Qed.

Lemma rot_rr_wf B t t' : rot_rr t = Some t' -> kids B t -> wf t' /\ ht t' <= B + 2.
Proof.
  destruct t as [|a x hx [|b y hy c]]; simpl; [done..|]. intros [= <-] (? & (-> & ? & ?) & ? & ?).
  split; [done|]. pose proof (wf_ht b). pose proof (wf_ht c). simpl. lia.
Qed.

Lemma fix_height_node l x r : fix_height (node l x r) = node l x r.
Proof. done. Qed.

Lemma elements_fix t : elements (fix_height t) = elements t.
Proof. by destruct t. Qed.

(** A tree that grew by inserting [x] leans towards [x]. *)
Definition leans (x : Z) (t' : tree) : Prop :=
  match t' with
  | E => False
  | T l y _ r => x < y /\ ht l = ht r + 1 \/ y < x /\ ht r = ht l + 1
  end.

(** Rebalancing after the left, or the right, subtree has grown too tall. *)
Lemma rebalance_left x l y h r : avl l -> avl r -> leans x l -> ht l = ht r + 2 ->
  exists t', (if root_lt x l then rot_ll (T l y h r) else rot_lr (T l y h r)) = Some t' /\
    avl (fix_height t') /\ ht (fix_height t') = ht r + 2.
Proof.
  intros [Wl Bl] [Wr Br] Hlean Hht. pose proof (wf_ht r Wr) as Hr0.
  destruct l as [|a z hl b]; [done|]. simpl in *.
  destruct Wl as (-> & Wa & Wb), Bl as (Hab & Ba & Bb).
  pose proof (wf_ht a Wa). pose proof (wf_ht b Wb).
  destruct Hlean as [[Hx Ha]|[Hx Hb]].
  - rewrite (proj2 (Z.ltb_lt _ _) Hx). eexists. split; [done|]. simpl. unfold avl. simpl.
    split_and!; try done; lia.
  - rewrite (proj2 (Z.ltb_ge _ _)); [|lia].
    destruct b as [|b1 w hb b2]; simpl in *; [lia|].
    destruct Wb as (-> & Wb1 & Wb2), Bb as (Hb12 & Bb1 & Bb2).
    pose proof (wf_ht b1 Wb1). pose proof (wf_ht b2 Wb2).
    eexists. split; [done|]. simpl. unfold avl. simpl. split_and!; try done; lia.
Qed.

Lemma rebalance_right x l y h r : avl l -> avl r -> leans x r -> ht r = ht l + 2 ->
  exists t', (if root_gt x r then rot_rr (T l y h r) else rot_rl (T l y h r)) = Some t' /\
    avl (fix_height t') /\ ht (fix_height t') = ht l + 2.
Proof.
  intros [Wl Bl] [Wr Br] Hlean Hht. pose proof (wf_ht l Wl) as Hl0.
  destruct r as [|a z hr b]; [done|]. simpl in *.
  destruct Wr as (-> & Wa & Wb), Br as (Hab & Ba & Bb).
  pose proof (wf_ht a Wa). pose proof (wf_ht b Wb).
  destruct Hlean as [[Hx Ha]|[Hx Hb]].
  - rewrite (proj2 (Z.ltb_ge _ _)); [|lia].
    destruct a as [|a1 w ha a2]; simpl in *; [lia|].
    destruct Wa as (-> & Wa1 & Wa2), Ba as (Ha12 & Ba1 & Ba2).
    pose proof (wf_ht a1 Wa1). pose proof (wf_ht a2 Wa2).
    eexists. split; [done|]. simpl. unfold avl. simpl. split_and!; try done; lia.
  - rewrite (proj2 (Z.ltb_lt _ _) Hx). eexists. split; [done|]. simpl. unfold avl. simpl.
    split_and!; try done; lia.
Qed.

Lemma ins_avl x t : avl t -> exists t', ins x t = Some t' /\ avl t' /\
  ht t <= ht t' <= ht t + 1 /\ (ht t' = ht t + 1 -> t = E \/ leans x t').
Proof.
  induction t as [|l IHl y h r IHr]; intros [W B].
  { eexists. split; [done|]. unfold avl. simpl. split_and!; try done; try lia. by left. }
  simpl in W, B. destruct W as (-> & Wl & Wr), B as (Hlr & Bl & Br).
  pose proof (wf_ht l Wl). pose proof (wf_ht r Wr). cbn [ins].
  destruct (Z.ltb_spec x y); [|destruct (Z.ltb_spec y x)].
  - destruct IHl as (l' & -> & Al' & Hl' & Hlean); [done|]. cbn [mbind option_bind].
    destruct (Z.eqb_spec (ht l' - ht r) 2) as [Htwo|Htwo].
    + destruct Hlean as [->|Hlean]; [simpl in *; lia|simpl in *; lia|].
      destruct (rebalance_left x l' y (Z.max (ht l) (ht r) + 1) r) as (t' & -> & At' & Ht');
        [done|done|done|lia|].
      simpl. eexists. split; [done|]. split; [done|]. rewrite Ht'. split; lia.
    + simpl. eexists. split; [done|]. destruct Al'. unfold avl. simpl.
      split_and!; try done; lia.
  - destruct IHr as (r' & -> & Ar' & Hr' & Hlean); [done|]. cbn [mbind option_bind].
    destruct (Z.eqb_spec (ht r' - ht l) 2) as [Htwo|Htwo].
    + destruct Hlean as [->|Hlean]; [simpl in *; lia|simpl in *; lia|].
      destruct (rebalance_right x l y (Z.max (ht l) (ht r) + 1) r') as (t' & -> & At' & Ht');
        [done|done|done|lia|].
      simpl. eexists. split; [done|]. split; [done|]. rewrite Ht'. split; lia.
    + simpl. eexists. split; [done|]. destruct Ar'. unfold avl. simpl.
      split_and!; try done; lia.
  - eexists. split; [done|]. unfold avl. simpl. split_and!; try done; lia.
Qed.

(** *** The elements of a search tree *)

Fixpoint insert_sorted (x : Z) (l : list Z) : list Z :=
  match l with
  | [] => [x]
  | y :: l' => if x <? y then x :: l else if y <? x then y :: insert_sorted x l' else l
  end.

Lemma insert_sorted_left x y l1 l2 : x < y ->
  insert_sorted x (l1 ++ y :: l2) = insert_sorted x l1 ++ y :: l2.
Proof.
  intros Hx. induction l1 as [|z l1 IH]; simpl.
  - by rewrite (proj2 (Z.ltb_lt _ _) Hx).
  - rewrite IH. repeat case_match; done.
Qed.

Lemma insert_sorted_right x y l1 l2 : y < x -> Forall (fun z => z < x) l1 ->
  insert_sorted x (l1 ++ y :: l2) = l1 ++ y :: insert_sorted x l2.
Proof.
  intros Hx Hall. induction Hall as [|z l1 Hz _ IH]; simpl.
  - rewrite (proj2 (Z.ltb_ge _ _)); [|lia]. by rewrite (proj2 (Z.ltb_lt _ _) Hx).
  - rewrite (proj2 (Z.ltb_ge _ _)); [|lia]. rewrite (proj2 (Z.ltb_lt _ _) Hz). by rewrite IH.
Qed.

Lemma insert_sorted_same x l1 l2 : Forall (fun z => z < x) l1 ->
  insert_sorted x (l1 ++ x :: l2) = l1 ++ x :: l2.
Proof.
  intros Hall. induction Hall as [|z l1 Hz _ IH]; simpl.
  - by rewrite Z.ltb_irrefl.
  - rewrite (proj2 (Z.ltb_ge _ _)); [|lia]. rewrite (proj2 (Z.ltb_lt _ _) Hz). by rewrite IH.
Qed.

Lemma elem_of_insert_sorted x z l : z ∈ insert_sorted x l <-> z = x \/ z ∈ l.
Proof.
  induction l as [|y l IH]; simpl; [by rewrite !elem_of_cons|].
  destruct (Z.ltb_spec x y); [by rewrite !elem_of_cons|].
  destruct (Z.ltb_spec y x); [rewrite !elem_of_cons IH; tauto|].
  replace y with x by lia. rewrite !elem_of_cons. tauto.
Qed.

Lemma insert_sorted_sorted x l : StronglySorted Z.lt l -> StronglySorted Z.lt (insert_sorted x l).
Proof.
  induction 1 as [|y l Hs IH Hall]; simpl; [repeat constructor|].
  destruct (Z.ltb_spec x y); [|destruct (Z.ltb_spec y x)].
  - constructor; [by constructor|]. constructor; [done|].
    eapply Forall_impl; [exact Hall|]. simpl. lia.
  - constructor; [done|]. apply Forall_forall. intros z. rewrite elem_of_insert_sorted.
    intros [->|Hz]; [done|]. rewrite Forall_forall in Hall. by apply Hall.
  - by constructor.
Qed.

Lemma bst_node l y h r : bst (T l y h r) <-> bst l /\ bst r /\
  Forall (fun z => z < y) (elements l) /\ Forall (fun z => y < z) (elements r).
Proof.
  unfold bst. simpl. rewrite StronglySorted_app. split.
  - intros (Hlr & Hl & Hr). inversion Hr; subst. split_and!; try done.
    apply Forall_forall. intros z Hz. apply Hlr; [done|]. by left.
  - intros (Hl & Hr & Hly & Hry). split_and!; [|done|by constructor].
    intros z w Hz Hw. rewrite Forall_forall in Hly. specialize (Hly z Hz).
    apply elem_of_cons in Hw as [->|Hw]; [done|].
    rewrite Forall_forall in Hry. specialize (Hry w Hw). lia.
Qed.

Lemma ins_elements x t t' : bst t -> ins x t = Some t' ->
  elements t' = insert_sorted x (elements t).
Proof.
  revert t'. induction t as [|l IHl y h r IHr]; intros t' Hb.
  { by intros [= <-]. }
  apply bst_node in Hb as (Hl & Hr & Hly & Hry). cbn [ins].
  intros (t1 & Ht1 & [= <-])%bind_Some. rewrite elements_fix. cbn [elements].
  destruct (Z.ltb_spec x y); [|destruct (Z.ltb_spec y x)].
  - apply bind_Some in Ht1 as (l' & Hl' & Ht1). cbv zeta in Ht1.
    rewrite insert_sorted_left // -(IHl l') //.
    destruct (_ =? 2); [|by injection Ht1 as <-].
    destruct (root_lt x l'); [by apply rot_ll_spec in Ht1|by apply rot_lr_spec in Ht1].
  - apply bind_Some in Ht1 as (r' & Hr' & Ht1). cbv zeta in Ht1.
    rewrite insert_sorted_right // -?(IHr r') //.
    + destruct (_ =? 2); [|by injection Ht1 as <-].
      destruct (root_gt x r'); [by apply rot_rr_spec in Ht1|by apply rot_rl_spec in Ht1].
    + eapply Forall_impl; [exact Hly|]. simpl. lia.
  - injection Ht1 as <-. replace y with x in * by lia. by rewrite insert_sorted_same.
Qed.

Lemma mem_elements x t : bst t -> mem x t = true <-> x ∈ elements t.
Proof.
  induction t as [|l IHl y h r IHr]; intros Hb; [by split; [|rewrite elem_of_nil]|].
  apply bst_node in Hb as (Hl & Hr & Hly & Hry). simpl. rewrite elem_of_app elem_of_cons.
  rewrite !Forall_forall in Hly Hry.
  destruct (Z.ltb_spec x y); [|destruct (Z.ltb_spec y x)].
  - rewrite IHl //. split; [by left|]. intros [?|[->|Hx]]; [done|lia|]. specialize (Hry x Hx). lia.
  - rewrite IHr //. split; [by right; right|]. intros [Hx|[->|?]]; [|lia|done]. specialize (Hly x Hx). lia.
  - split; [|done]. intros _. right; left. lia.
Qed.

(** ** The program implements the functional operations *)

Fixpoint is_tree (t : tree) (p : Z) : heapProp avlnode :=
  match t with
  | E => ⌜p = NULL⌝ ∧ emp
  | T l x h r => ∃ pl pr, p ↦ Node x pl pr h ∗ is_tree l pl ∗ is_tree r pr
  end%I.

Section proofs.
Context `{Malloc avlnode}.
Implicit Types (t l r : tree) (p q x y : Z) (Q : Z -> heapProp avlnode).

Lemma is_tree_E p : is_tree E p ⊣⊢ <affine> ⌜p = NULL⌝.
Proof. simpl. by rewrite bi.and_comm. Qed.

Lemma is_tree_null : ⊢ is_tree E NULL.
Proof. rewrite is_tree_E. by iPureIntro. Qed.

(** The test for null tells the two kinds of trees apart. *)
Lemma is_tree_cases t p (P : heapProp avlnode) :
  (<affine> ⌜p = NULL /\ t = E⌝ -∗ is_tree t p -∗ P) ∧ (<affine> ⌜p <> NULL /\ t <> E⌝ -∗ is_tree t p -∗ P) ⊢
  is_tree t p -∗ P.
Proof.
  iIntros "H Ht". destruct t as [|l x h r].
  - iDestruct (is_tree_E with "Ht") as %->. iDestruct "H" as "[H _]".
    iApply "H"; [done|]. iApply is_tree_null.
  - simpl. iDestruct "Ht" as (pl pr) "(Hp & Hl & Hr)". iApply (points_to_ne with "[-Hp] Hp").
    iIntros (Hne) "Hp". iDestruct "H" as "[_ H]". iApply "H"; [done|].
    iExists pl, pr. iFrame.
Qed.

Lemma WP_height t p Q : is_tree t p ∗ (is_tree t p -∗ Q (ht t)) ⊢ WP (height p) Q.
Proof.
  iIntros "[Ht HQ]". iApply (is_tree_cases with "[HQ] Ht"). unfold height. iSplit.
  - iIntros ([-> ->]) "Ht". simpl. iApply WP_ret. by iApply "HQ".
  - iIntros ([Hp Ht]) "Ht". destruct t as [|l x h r]; [done|].
    rewrite (proj2 (Z.eqb_neq _ _) Hp). simpl. iDestruct "Ht" as (pl pr) "(Hp & Hl & Hr)".
    wp_get "Hp". iApply "HQ". iExists pl, pr. iFrame.
Qed.

Lemma WP_update_height l r p n (Q : unit -> heapProp avlnode) :
  0 <= ht l < INT_MAX -> 0 <= ht r < INT_MAX ->
  p ↦ n ∗ is_tree l (left n) ∗ is_tree r (right n) ∗
  (p ↦ set_height (Z.max (ht l) (ht r) + 1) n -∗ is_tree l (left n) -∗ is_tree r (right n) -∗ Q tt)
  ⊢ WP (update_height p) Q.
Proof.
  iIntros (Hl Hr) "(Hp & Hl & Hr & HQ)". unfold update_height.
  wp_get "Hp". wp_bind_. iApply WP_height. iFrame "Hl". iIntros "Hl".
  wp_get "Hp". wp_bind_. iApply WP_height. iFrame "Hr". iIntros "Hr".
  assert ((if ht r <? ht l then ht l else ht r) = Z.max (ht l) (ht r)) as ->.
  { destruct (Z.ltb_spec (ht r) (ht l)); lia. }
  unfold INT_MAX in *. wp_int. wp_put "Hp". iApply ("HQ" with "Hp Hl Hr").
Qed.

(** The same, on a whole node. *)
Lemma WP_fix_height l x h r p (Q : unit -> heapProp avlnode) :
  0 <= ht l < INT_MAX -> 0 <= ht r < INT_MAX ->
  is_tree (T l x h r) p ∗ (is_tree (node l x r) p -∗ Q tt) ⊢ WP (update_height p) Q.
Proof.
  iIntros (Hl Hr) "[Ht HQ]". simpl. iDestruct "Ht" as (pl pr) "(Hp & Hl & Hr)".
  iApply (WP_update_height l r p (Node x pl pr h)); [done|done|]. iFrame "Hp Hl Hr". iIntros "Hp Hl Hr".
  iApply "HQ". iExists pl, pr. iFrame.
Qed.

Lemma WP_left_left_rotate B t t' p Q : rot_ll t = Some t' -> kids B t -> B + 2 <= INT_MAX ->
  is_tree t p ∗ printed ∗ (∀ q, is_tree t' q -∗ printed -∗ Q q) ⊢ WP (left_left_rotate p) Q.
Proof.
  destruct t as [|[|a x hx b] y hy c]; [done..|]. intros [= <-] ((-> & Wa & Wb) & Wc & Hl & Hc) HB.
  simpl in Hl. pose proof (wf_ht a Wa). pose proof (wf_ht b Wb). pose proof (wf_ht c Wc).
  iIntros "(Ht & Hout & HQ)". unfold left_left_rotate. wp_print "Hout". simpl.
  iDestruct "Ht" as (p1 pc) "(Hp & (%pa & %pb & Hp1 & Ha & Hb) & Hc)".
  wp_get "Hp". simpl. wp_get "Hp1". simpl. wp_put "Hp". wp_put "Hp1".
  wp_bind_. iApply (WP_update_height b c); [lia|lia|]. iFrame "Hp". simpl. iFrame "Hb Hc".
  iIntros "Hp Hb Hc".
  wp_bind_. iApply (WP_update_height a (node b y c)); [lia|simpl; lia|]. iFrame "Hp1". simpl.
  iFrame "Ha". iSplitL "Hp Hb Hc"; [iExists pb, pc; iFrame|]. iIntros "Hp1 Ha Hnode".
  wp_ret. iApply ("HQ" with "[Hp1 Ha Hnode] Hout"). iExists pa, p. iFrame.
Qed.

Lemma WP_right_right_rotate B t t' p Q : rot_rr t = Some t' -> kids B t -> B + 2 <= INT_MAX ->
  is_tree t p ∗ printed ∗ (∀ q, is_tree t' q -∗ printed -∗ Q q) ⊢ WP (right_right_rotate p) Q.
Proof.
  destruct t as [|a x hx [|b y hy c]]; [done..|]. intros [= <-] (Wa & (-> & Wb & Wc) & Ha & Hr) HB.
  simpl in Hr. pose proof (wf_ht a Wa). pose proof (wf_ht b Wb). pose proof (wf_ht c Wc).
  iIntros "(Ht & Hout & HQ)". unfold right_right_rotate. wp_print "Hout". simpl.
  iDestruct "Ht" as (pa p1) "(Hp & Ha & (%pb & %pc & Hp1 & Hb & Hc))".
  wp_get "Hp". simpl. wp_get "Hp1". simpl. wp_put "Hp". wp_put "Hp1".
  wp_bind_. iApply (WP_update_height a b); [lia|lia|]. iFrame "Hp". simpl. iFrame "Ha Hb".
  iIntros "Hp Ha Hb".
  wp_bind_. iApply (WP_update_height (node a x b) c); [simpl; lia|lia|]. iFrame "Hp1". simpl.
  iFrame "Hc". iSplitL "Hp Ha Hb"; [iExists pa, pb; iFrame|]. iIntros "Hp1 Hnode Hc".
  wp_ret. iApply ("HQ" with "[Hp1 Hc Hnode] Hout"). iExists p, pc. iFrame.
Qed.

Lemma WP_left_right_rotate B t t' p Q : rot_lr t = Some t' -> kids B t -> 0 <= B ->
  B + 4 <= INT_MAX ->
  is_tree t p ∗ printed ∗ (∀ q, is_tree t' q -∗ printed -∗ Q q) ⊢ WP (left_right_rotate p) Q.
Proof.
  destruct t as [|l y h r]; [done|]. intros (l' & Hrr & Hll)%bind_Some (Wl & Wr & Hl & Hr) HB HB'.
  assert (kids B l) as Kl by (eapply kids_mono; [by apply (wf_kids l (ht l - 1)); [|lia]|lia]).
  destruct (rot_rr_wf _ _ _ Hrr Kl) as [Wl' Hl'].
  iIntros "(Ht & Hout & HQ)". unfold left_right_rotate. wp_print "Hout". simpl.
  iDestruct "Ht" as (pl pr) "(Hp & Hl & Hr)". wp_get "Hp". simpl.
  wp_bind_. iApply (WP_right_right_rotate B l l'); [done|done|lia|]. iFrame "Hl Hout".
  iIntros (q) "Hl Hout". wp_put "Hp".
  iApply (WP_left_left_rotate (B + 2) _ _ _ _ Hll); [simpl; split_and!; done || lia|lia|].
  iFrame "Hout HQ". simpl. iExists q, pr. iFrame.
Qed.

Lemma WP_right_left_rotate B t t' p Q : rot_rl t = Some t' -> kids B t -> 0 <= B ->
  B + 4 <= INT_MAX ->
  is_tree t p ∗ printed ∗ (∀ q, is_tree t' q -∗ printed -∗ Q q) ⊢ WP (right_left_rotate p) Q.
Proof.
  destruct t as [|l y h r]; [done|]. intros (r' & Hll & Hrr)%bind_Some (Wl & Wr & Hl & Hr) HB HB'.
  assert (kids B r) as Kr by (eapply kids_mono; [by apply (wf_kids r (ht r - 1)); [|lia]|lia]).
  destruct (rot_ll_wf _ _ _ Hll Kr) as [Wr' Hr'].
  iIntros "(Ht & Hout & HQ)". unfold right_left_rotate. wp_print "Hout". simpl.
  iDestruct "Ht" as (pl pr) "(Hp & Hl & Hr)". wp_get "Hp". simpl.
  wp_bind_. iApply (WP_left_left_rotate B r r'); [done|done|lia|]. iFrame "Hr Hout".
  iIntros (q) "Hr Hout". wp_put "Hp".
  iApply (WP_right_right_rotate (B + 2) _ _ _ _ Hrr); [simpl; split_and!; done || lia|lia|].
  iFrame "Hout HQ". simpl. iExists pl, q. iFrame.
Qed.
Lemma WP_taller a b (fa fb : avlnode -> Z) p n (Q : bool -> heapProp avlnode) :
  0 <= ht a < INT_MAX -> 0 <= ht b < INT_MAX ->
  p ↦ n ∗ is_tree a (fa n) ∗ is_tree b (fb n) ∗
  (p ↦ n -∗ is_tree a (fa n) -∗ is_tree b (fb n) -∗ Q (ht a - ht b =? 2))
  ⊢ WP (taller_by_2 p fa fb) Q.
Proof.
  iIntros (Ha Hb) "(Hp & Ha & Hb & HQ)". unfold taller_by_2. unfold INT_MAX in *.
  wp_get "Hp". wp_bind_. iApply WP_height. iFrame "Ha". iIntros "Ha".
  wp_get "Hp". wp_bind_. iApply WP_height. iFrame "Hb". iIntros "Hb".
  wp_int. wp_ret. iApply ("HQ" with "Hp Ha Hb").
Qed.

Lemma WP_final B t p (Q : unit -> heapProp avlnode) : t <> E -> kids B t -> B < INT_MAX ->
  is_tree t p ∗ (is_tree (fix_height t) p -∗ Q tt) ⊢ WP (update_height p) Q.
Proof.
  destruct t as [|l x h r]; [done|]. intros _ (Wl & Wr & ? & ?) HB.
  pose proof (wf_ht l Wl). pose proof (wf_ht r Wr). apply WP_fix_height; lia.
Qed.

Lemma rot_lr_wf B t t' : rot_lr t = Some t' -> kids B t -> wf t' /\ ht t' <= B + 4 /\ t' <> E.
Proof.
  destruct t as [|l y h r]; [done|]. intros (l' & Hrr & Hll)%bind_Some (Wl & Wr & Hl & Hr).
  assert (kids B l) as Kl by (eapply kids_mono; [by apply (wf_kids l (ht l - 1)); [|lia]|lia]).
  destruct (rot_rr_wf _ _ _ Hrr Kl) as [Wl' Hl'].
  destruct (rot_ll_wf (B + 2) _ _ Hll) as [Wt Ht]; [simpl; split_and!; done || lia|].
  split_and!; [done|lia|]. by destruct l'; [|injection Hll as <-].
Qed.

Lemma rot_rl_wf B t t' : rot_rl t = Some t' -> kids B t -> wf t' /\ ht t' <= B + 4 /\ t' <> E.
Proof.
  destruct t as [|l y h r]; [done|]. intros (r' & Hll & Hrr)%bind_Some (Wl & Wr & Hl & Hr).
  assert (kids B r) as Kr by (eapply kids_mono; [by apply (wf_kids r (ht r - 1)); [|lia]|lia]).
  destruct (rot_ll_wf _ _ _ Hll Kr) as [Wr' Hr'].
  destruct (rot_rr_wf (B + 2) _ _ Hrr) as [Wt Ht]; [simpl; split_and!; done || lia|].
  split_and!; [done|lia|]. by destruct r'; [|injection Hrr as <-].
Qed.

Lemma rot_not_E t t' : rot_ll t = Some t' \/ rot_rr t = Some t' -> t' <> E.
Proof.
  intros [Ht|Ht].
  - destruct t as [|[|? ? ? ?] ? ? ?]; simpl in Ht; [done..|by injection Ht as <-].
  - destruct t as [|? ? ? [|? ? ? ?]]; simpl in Ht; [done..|by injection Ht as <-].
Qed.

(** The rotation that follows an insertion on the left, or a deletion on the right. *)
Lemma WP_rotate_left B x l y h r p t' Q : kids B (T l y h r) -> 0 <= B -> B + 4 <= INT_MAX ->
  l <> E ->
  (if root_lt x l then rot_ll (T l y h r) else rot_lr (T l y h r)) = Some t' ->
  is_tree (T l y h r) p ∗ printed ∗ (∀ q, is_tree t' q -∗ printed -∗ Q q) ⊢
  WP (l <- get p left ;; le <- get l element ;;
      if x <? le then left_left_rotate p else left_right_rotate p) Q.
Proof.
  iIntros (HK HB HB' Hl Hrot) "(Ht & Hout & HQ)". destruct l as [|a z hl b]; [done|].
  simpl. iDestruct "Ht" as (pl pr) "(Hp & (%pa & %pb & Hl & Ha & Hb) & Hr)".
  wp_get "Hp". simpl. wp_get "Hl". simpl. cbn [root_lt root_gt] in Hrot.
  iAssert (is_tree (T (T a z hl b) y h r) p) with "[Hp Hl Ha Hb Hr]" as "Ht".
  { simpl. iExists pl, pr. iFrame. }
  destruct (x <? z).
  - iApply (WP_left_left_rotate B _ _ _ _ Hrot); [done|lia|]. iFrame.
  - iApply (WP_left_right_rotate B _ _ _ _ Hrot); [done|lia|lia|]. iFrame.
Qed.

Lemma WP_rotate_right B x l y h r p t' Q : kids B (T l y h r) -> 0 <= B -> B + 4 <= INT_MAX ->
  r <> E ->
  (if root_gt x r then rot_rr (T l y h r) else rot_rl (T l y h r)) = Some t' ->
  is_tree (T l y h r) p ∗ printed ∗ (∀ q, is_tree t' q -∗ printed -∗ Q q) ⊢
  WP (r <- get p right ;; re <- get r element ;;
      if re <? x then right_right_rotate p else right_left_rotate p) Q.
Proof.
  iIntros (HK HB HB' Hr Hrot) "(Ht & Hout & HQ)". destruct r as [|a z hr b]; [done|].
  simpl. iDestruct "Ht" as (pl pr) "(Hp & Hl & (%pa & %pb & Hr & Ha & Hb))".
  wp_get "Hp". simpl. wp_get "Hr". simpl. cbn [root_lt root_gt] in Hrot.
  iAssert (is_tree (T l y h (T a z hr b)) p) with "[Hp Hl Ha Hb Hr]" as "Ht".
  { simpl. iExists pl, pr. iFrame. }
  destruct (z <? x).
  - iApply (WP_right_right_rotate B _ _ _ _ Hrot); [done|lia|]. iFrame.
  - iApply (WP_right_left_rotate B _ _ _ _ Hrot); [done|lia|lia|]. iFrame.
Qed.

(** What the rotation leaves for the last update of the height. *)
Lemma rotate_left_kids B x t t' l : kids B t ->
  (if root_lt x l then rot_ll t else rot_lr t) = Some t' -> kids (B + 3) t' /\ t' <> E.
Proof.
  intros HK. destruct (root_lt x l); intros Ht.
  - destruct (rot_ll_wf _ _ _ Ht HK). split; [apply wf_kids; [done|lia]|eauto using rot_not_E].
  - destruct (rot_lr_wf _ _ _ Ht HK) as (? & ? & ?). split; [apply wf_kids; [done|lia]|done].
Qed.

Lemma rotate_right_kids B x t t' r : kids B t ->
  (if root_gt x r then rot_rr t else rot_rl t) = Some t' -> kids (B + 3) t' /\ t' <> E.
Proof.
  intros HK. destruct (root_gt x r); intros Ht.
  - destruct (rot_rr_wf _ _ _ Ht HK). split; [apply wf_kids; [done|lia]|eauto using rot_not_E].
  - destruct (rot_rl_wf _ _ _ Ht HK) as (? & ? & ?). split; [apply wf_kids; [done|lia]|done].
Qed.
Lemma kids_T B l y h r : wf l -> wf r -> ht l <= B -> ht r <= B -> kids B (T l y h r).
Proof. by simpl. Qed.

(** The last two lines of [insert_node] and [delete_node]. *)
Lemma WP_finish B t p Q : t <> E -> kids B t -> B < INT_MAX ->
  is_tree t p ∗ printed ∗ (∀ q, is_tree (fix_height t) q -∗ printed -∗ Q q) ⊢
  WP (update_height p ;; ret p) Q.
Proof.
  iIntros (Ht HK HB) "(Ht & Hout & HQ)". wp_bind_. iApply (WP_final B); [done..|].
  iFrame "Ht". iIntros "Ht". wp_ret. iApply ("HQ" with "Ht Hout").
Qed.

Hypothesis malloc_ok : forall s : avl_state, malloc_at s <> None.

Lemma WP_insert_node x depth : forall t t' p Q, avl t -> ins x t = Some t' ->
  ht t + 8 <= INT_MAX -> (depth_of t < depth)%nat ->
  is_tree t p ∗ printed ∗ (∀ q, is_tree t' q -∗ printed -∗ Q q) ⊢ WP (insert_node depth p x) Q.
Proof.
  induction depth as [|depth IH]; intros t t' p Q Ht Hins Hmax Hd; [lia|].
  iIntros "(Ht & Hout & HQ)". iApply (is_tree_cases with "[Hout HQ] Ht"). cbn [insert_node].
  iSplit; iIntros ([Hp HtE]) "Ht".
  { subst. injection Hins as <-. iDestruct (is_tree_E with "Ht") as "_". rewrite Z.eqb_refl. cbv iota.
    wp_print "Hout". wp_bind_. iApply WP_malloc_ok; [done|]. iIntros (q n) "Hq".
    iApply (points_to_ne with "[-Hq] Hq"). iIntros (Hq) "Hq".
    rewrite (proj2 (Z.eqb_neq _ _) Hq). simpl negb. cbv iota. wp_print "Hout".
    wp_put "Hq". wp_put "Hq". wp_put "Hq". wp_ret.
    iApply (WP_finish 0 (T E x (n_height n) E)); [done|done|done|]. iFrame "Hout". iSplitL "Hq".
    - simpl. iExists NULL, NULL. iFrame "Hq". iSplit; by iPureIntro.
    - iIntros (q') "Ht Hout". iApply ("HQ" with "Ht Hout"). }
  destruct t as [|l y h r]; [done|]. destruct Ht as [(-> & Wl & Wr) (Hlr & Bl & Br)].
  pose proof (wf_ht l Wl). pose proof (wf_ht r Wr). simpl in Hmax, Hd.
  rewrite (proj2 (Z.eqb_neq _ _) Hp). cbv iota. cbn [ins] in Hins.
  apply bind_Some in Hins as (t1 & Ht1 & [= <-]). cbv zeta in Ht1.
  iDestruct "Ht" as (pl pr) "(Hp & Hl & Hr)". wp_get "Hp". simpl.
  destruct (x <? y).
  - wp_print "Hout". wp_get "Hp". simpl. apply bind_Some in Ht1 as (l' & Hl' & Ht1).
    destruct (ins_avl x l (conj Wl Bl)) as (l'' & E & [Wl' Bl'] & Hl'' & _).
    rewrite E in Hl'. injection Hl' as ->.
    wp_bind_. iApply (IH l l'); [done|done|lia|lia|]. iFrame "Hl Hout". iIntros (q) "Hl Hout".
    wp_put "Hp". wp_print "Hout". wp_bind_.
    iApply (WP_taller l' r); [unfold INT_MAX in *; lia..|]. simpl. iFrame "Hp Hl Hr".
    iIntros "Hp Hl Hr".
    iAssert (is_tree (T l' y (Z.max (ht l) (ht r) + 1) r) p) with "[Hp Hl Hr]" as "Ht".
    { simpl. iExists q, pr. iFrame. }
    assert (kids (Z.max (ht l) (ht r) + 1) (T l' y (Z.max (ht l) (ht r) + 1) r)) as HK
      by (apply kids_T; done || lia).
    destruct (Z.eqb_spec (ht l' - ht r) 2).
    + destruct (rotate_left_kids _ _ _ _ _ HK Ht1) as [HK1 HE1].
      iApply (WP_rotate_left _ _ _ _ _ _ _ _ _ HK); [lia|lia|by destruct l'; simpl in *; [lia|]|done|].
      iFrame "Ht Hout". iIntros (q') "Ht Hout".
      iApply (WP_finish _ _ _ _ HE1 HK1); [lia|]. iFrame.
    + injection Ht1 as <-. wp_ret. iApply (WP_finish _ (T _ _ _ _) _ _ ltac:(discriminate) HK); [lia|]. iFrame.
  - wp_get "Hp". simpl. destruct (y <? x).
    + wp_print "Hout". wp_get "Hp". simpl. apply bind_Some in Ht1 as (r' & Hr' & Ht1).
      destruct (ins_avl x r (conj Wr Br)) as (r'' & E & [Wr' Br'] & Hr'' & _).
      rewrite E in Hr'. injection Hr' as ->.
      wp_bind_. iApply (IH r r'); [done|done|lia|lia|]. iFrame "Hr Hout". iIntros (q) "Hr Hout".
      wp_put "Hp". wp_bind_.
      iApply (WP_taller r' l); [unfold INT_MAX in *; lia..|]. simpl. iFrame "Hp Hl Hr".
      iIntros "Hp Hr Hl".
      iAssert (is_tree (T l y (Z.max (ht l) (ht r) + 1) r') p) with "[Hp Hl Hr]" as "Ht".
      { simpl. iExists pl, q. iFrame. }
      assert (kids (Z.max (ht l) (ht r) + 1) (T l y (Z.max (ht l) (ht r) + 1) r')) as HK
        by (apply kids_T; done || lia).
      destruct (Z.eqb_spec (ht r' - ht l) 2).
      * destruct (rotate_right_kids _ _ _ _ _ HK Ht1) as [HK1 HE1].
        iApply (WP_rotate_right _ _ _ _ _ _ _ _ _ HK); [lia|lia|by destruct r'; simpl in *; [lia|]|done|].
        iFrame "Ht Hout". iIntros (q') "Ht Hout".
        iApply (WP_finish _ _ _ _ HE1 HK1); [lia|]. iFrame.
      * injection Ht1 as <-. wp_ret. iApply (WP_finish _ (T _ _ _ _) _ _ ltac:(discriminate) HK); [lia|]. iFrame.
    + injection Ht1 as <-. wp_ret.
      iApply (WP_finish (Z.max (ht l) (ht r)) (T l y (Z.max (ht l) (ht r) + 1) r));
        [done|apply kids_T; done || lia|lia|].
      iFrame "Hout HQ". simpl. iExists pl, pr. iFrame.
Qed.
(** *** Searching *)

(** A node that was found, and what to give back for the tree. *)
Definition borrowed (t : tree) (p q x : Z) : heapProp avlnode :=
  (∃ n, <affine> ⌜element n = x⌝ ∗ q ↦ n ∗ (q ↦ n -∗ is_tree t p))%I.

Definition found (x : Z) (t : tree) (p q : Z) : heapProp avlnode :=
  (if mem x t then borrowed t p q x else <affine> ⌜q = NULL⌝ ∗ is_tree t p)%I.

Lemma borrowed_left l y h r p q x pl pr :
  borrowed l pl q x -∗ p ↦ Node y pl pr h -∗ is_tree r pr -∗ borrowed (T l y h r) p q x.
Proof.
  iIntros "(%n & Hn & Hq & Hl) Hp Hr". iExists n. iFrame "Hn Hq". iIntros "Hq". simpl.
  iExists pl, pr. iFrame "Hp Hr". by iApply "Hl".
Qed.

Lemma borrowed_right l y h r p q x pl pr :
  borrowed r pr q x -∗ p ↦ Node y pl pr h -∗ is_tree l pl -∗ borrowed (T l y h r) p q x.
Proof.
  iIntros "(%n & Hn & Hq & Hr) Hp Hl". iExists n. iFrame "Hn Hq". iIntros "Hq". simpl.
  iExists pl, pr. iFrame "Hp Hl". by iApply "Hr".
Qed.

Lemma borrowed_root l y h r p pl pr :
  p ↦ Node y pl pr h -∗ is_tree l pl -∗ is_tree r pr -∗ borrowed (T l y h r) p p y.
Proof.
  iIntros "Hp Hl Hr". iExists (Node y pl pr h). iSplit; [done|]. iFrame "Hp". iIntros "Hp".
  simpl. iExists pl, pr. iFrame.
Qed.

Lemma WP_find x depth : forall t p Q, (depth_of t < depth)%nat ->
  is_tree t p ∗ (∀ q, found x t p q -∗ Q q) ⊢ WP (find depth p x) Q.
Proof.
  induction depth as [|depth IH]; intros t p Q Hd; [lia|].
  iIntros "[Ht HQ]". iApply (is_tree_cases with "[HQ] Ht"). cbn [find].
  iSplit; iIntros ([Hp HtE]) "Ht".
  { subst. rewrite Z.eqb_refl. wp_ret. iApply "HQ". unfold found. simpl. by iFrame. }
  destruct t as [|l y h r]; [done|]. rewrite (proj2 (Z.eqb_neq _ _) Hp).
  iDestruct "Ht" as (pl pr) "(Hp & Hl & Hr)". simpl in Hd. unfold found at 1. cbn [mem].
  wp_get "Hp". simpl. destruct (Z.ltb_spec x y) as [Hxy|Hxy].
  - wp_get "Hp". simpl. iApply (IH l); [lia|]. iFrame "Hl". iIntros (q) "Hf". iApply "HQ".
    unfold found. destruct (mem x l); [iApply (borrowed_left with "Hf Hp Hr")|].
    iDestruct "Hf" as "[$ Hl]". simpl. iExists pl, pr. iFrame.
  - wp_get "Hp". simpl. destruct (Z.ltb_spec y x) as [Hyx|Hyx].
    + wp_get "Hp". simpl. iApply (IH r); [lia|]. iFrame "Hr". iIntros (q) "Hf". iApply "HQ".
      unfold found. destruct (mem x r); [iApply (borrowed_right with "Hf Hp Hl")|].
      iDestruct "Hf" as "[$ Hr]". simpl. iExists pl, pr. iFrame.
    + wp_ret. iApply "HQ". replace x with y by lia. iApply (borrowed_root with "Hp Hl Hr").
Qed.

(** [findmin] and [findmax] return the first and the last node in order. *)
Lemma WP_findmin depth : forall t p Q, (depth_of t < depth)%nat -> t <> E ->
  is_tree t p ∗ (∀ q, borrowed t p q (min_of t) -∗ Q q) ⊢ WP (findmin depth p) Q.
Proof.
  induction depth as [|depth IH]; intros t p Q Hd HtE; [lia|].
  iIntros "[Ht HQ]". iApply (is_tree_cases with "[HQ] Ht"). cbn [findmin].
  iSplit; iIntros ([Hp ?]) "Ht"; [done|].
  destruct t as [|l y h r]; [done|]. rewrite (proj2 (Z.eqb_neq _ _) Hp).
  iDestruct "Ht" as (pl pr) "(Hp & Hl & Hr)". simpl in Hd. wp_get "Hp". simpl.
  iApply (is_tree_cases with "[Hp Hr HQ] Hl"). iSplit; iIntros ([Hpl HlE]) "Hl".
  - subst. rewrite Z.eqb_refl. wp_ret. iApply "HQ". iApply (borrowed_root with "Hp Hl Hr").
  - rewrite (proj2 (Z.eqb_neq _ _) Hpl). wp_get "Hp". simpl. iApply (IH l); [lia|done|].
    iFrame "Hl". iIntros (q) "Hf". iApply "HQ".
    destruct l as [|ll z hl lr]; [done|].
    iApply (borrowed_left with "Hf Hp Hr").
Qed.

Fixpoint max_of (t : tree) : Z :=
  match t with E => 0 | T _ x _ E => x | T _ _ _ r => max_of r end.

Lemma WP_findmax fuel t p Q : (depth_of t < fuel)%nat -> t <> E ->
  is_tree t p ∗ (∀ q, borrowed t p q (max_of t) -∗ Q q) ⊢ WP (findmax fuel p) Q.
Proof.
  iIntros (Hd HtE) "[Ht HQ]". iApply (is_tree_cases with "[HQ] Ht"). unfold findmax.
  iSplit; iIntros ([Hp ?]) "Ht"; [done|]. rewrite (proj2 (Z.eqb_neq _ _) Hp). simpl negb. cbv iota.
  iApply (WP_loop (fun n q => ∃ t', <affine> ⌜depth_of t' = n /\ t' <> E⌝ ∗ is_tree t' q ∗
    (∀ q', borrowed t' q q' (max_of t') -∗ Q q'))%I _ _ _ (depth_of t) with "[Ht HQ]");
    [done| |iExists t; iFrame; done].
  iIntros (n q) "(%t' & [%Hn %HE] & Ht & HQ)". iApply (is_tree_cases with "[HQ] Ht").
  iSplit; iIntros ([Hq ?]) "Ht"; [done|]. destruct t' as [|l y h r]; [done|].
  iDestruct "Ht" as (pl pr) "(Hp & Hl & Hr)". simpl in Hn. wp_get "Hp". wp_ret. simpl.
  iApply (is_tree_cases with "[Hp Hl HQ] Hr"). iSplit; iIntros ([Hpr HrE]) "Hr".
  - subst. rewrite Z.eqb_refl. wp_ret. iApply "HQ". iApply (borrowed_root with "Hp Hl Hr").
  - rewrite (proj2 (Z.eqb_neq _ _) Hpr). simpl. wp_get "Hp". wp_ret. simpl.
    iExists (depth_of r). iSplit; [iPureIntro; lia|]. iExists r. iSplit; [done|]. iFrame "Hr".
    iIntros (q') "Hf". iApply "HQ".
    destruct r as [|rl z hr rr]; [done|].
    iApply (borrowed_right with "Hf Hp Hl").
Qed.
(** *** Traversals and destruction *)

(** What printing a list of elements adds to the output. *)
Definition show (l : list Z) : string := foldr (fun x s => pretty x +:+ " " +:+ s) "" l.

Lemma show_cons x (l : list Z) : show (x :: l) = (pretty x +:+ " ") +:+ show l.
Proof. unfold show at 1. cbn [foldr]. fold (show l). by rewrite string_app_assoc. Qed.

Lemma show_app (l1 l2 : list Z) : show (l1 ++ l2) = show l1 +:+ show l2.
Proof.
  induction l1 as [|x l1 IH]; [done|]. rewrite -app_comm_cons !show_cons IH.
  by rewrite !string_app_assoc.
Qed.

(** A traversal that visits the nodes in the order [f]. *)
Definition traverses (go : Z -> M avl_state unit) (f : tree -> list Z) (t : tree) : Prop :=
  forall p s (Q : unit -> heapProp avlnode),
  is_tree t p ∗ stdout_is s ∗ (is_tree t p -∗ stdout_is (s +:+ show (f t)) -∗ Q tt) ⊢ WP (go p) Q.

Tactic Notation "wp_out" constr(H) := wp_bind_; iApply WP_printf; iFrame H; iIntros H.

(** The test for null that the three traversals start with. *)
Lemma traverses_null (go : Z -> M avl_state unit) f t (body : Z -> M avl_state unit) :
  (forall p, go p = when negb (p =? NULL) do body p) -> f E = [] ->
  (t <> E -> traverses body f t) -> traverses go f t.
Proof.
  intros Hgo Hf Hbody p s Q. rewrite Hgo. iIntros "(Ht & Hout & HQ)".
  iApply (is_tree_cases with "[Hout HQ] Ht"). iSplit; iIntros ([Hp HE]) "Ht".
  - subst. rewrite Z.eqb_refl. iApply WP_ret. rewrite Hf /= string_app_nil.
    iApply ("HQ" with "Ht Hout").
  - rewrite (proj2 (Z.eqb_neq _ _) Hp). iApply (Hbody HE). iFrame.
Qed.

Lemma WP_preorder depth : forall t, (depth_of t < depth)%nat ->
  traverses (preorder_avltree depth) preorder t.
Proof.
  induction depth as [|depth IH]; intros t Hd; [lia|].
  eapply traverses_null; [done|done|]. intros HE p s Q. destruct t as [|l x h r]; [done|].
  iIntros "(Ht & Hout & HQ)". iDestruct "Ht" as (pl pr) "(Hp & Hl & Hr)". simpl in Hd.
  wp_get "Hp". wp_out "Hout". wp_get "Hp". wp_bind_. iApply (IH l); [lia|]. iFrame "Hl Hout".
  iIntros "Hl Hout". wp_get "Hp". iApply (IH r); [lia|]. iFrame "Hr Hout". iIntros "Hr Hout".
  cbn [preorder]. rewrite show_cons show_app -!string_app_assoc.
  iApply ("HQ" with "[Hp Hl Hr] Hout"). iExists pl, pr. iFrame.
Qed.

Lemma WP_inorder depth : forall t, (depth_of t < depth)%nat ->
  traverses (inorder_avltree depth) elements t.
Proof.
  induction depth as [|depth IH]; intros t Hd; [lia|].
  eapply traverses_null; [done|done|]. intros HE p s Q. destruct t as [|l x h r]; [done|].
  iIntros "(Ht & Hout & HQ)". iDestruct "Ht" as (pl pr) "(Hp & Hl & Hr)". simpl in Hd.
  wp_get "Hp". wp_bind_. iApply (IH l); [lia|]. iFrame "Hl Hout". iIntros "Hl Hout".
  wp_get "Hp". wp_out "Hout". wp_get "Hp". iApply (IH r); [lia|]. iFrame "Hr Hout".
  iIntros "Hr Hout". cbn [elements]. rewrite show_app show_cons -!string_app_assoc.
  iApply ("HQ" with "[Hp Hl Hr] Hout"). iExists pl, pr. iFrame.
Qed.

Lemma WP_postorder depth : forall t, (depth_of t < depth)%nat ->
  traverses (postorder_avltree depth) postorder t.
Proof.
  induction depth as [|depth IH]; intros t Hd; [lia|].
  eapply traverses_null; [done|done|]. intros HE p s Q. destruct t as [|l x h r]; [done|].
  iIntros "(Ht & Hout & HQ)". iDestruct "Ht" as (pl pr) "(Hp & Hl & Hr)". simpl in Hd.
  wp_get "Hp". wp_bind_. iApply (IH l); [lia|]. iFrame "Hl Hout". iIntros "Hl Hout".
  wp_get "Hp". wp_bind_. iApply (IH r); [lia|]. iFrame "Hr Hout". iIntros "Hr Hout".
  wp_get "Hp". iApply WP_printf. iFrame "Hout". iIntros "Hout".
  cbn [postorder]. rewrite !show_app show_cons string_app_nil -!string_app_assoc.
  iApply ("HQ" with "[Hp Hl Hr] Hout"). iExists pl, pr. iFrame.
Qed.

(** Destroying a tree frees each of its nodes, and nothing else. *)
Lemma WP_destroy depth : forall t p (Q : unit -> heapProp avlnode), (depth_of t < depth)%nat ->
  is_tree t p ∗ Q tt ⊢ WP (destroy_avltree depth p) Q.
Proof.
  induction depth as [|depth IH]; intros t p Q Hd; [lia|].
  assert (Hkid : forall t' q (f : avlnode -> Z) n (R : unit -> heapProp avlnode),
    (depth_of t' < depth)%nat -> f n = q -> is_tree t' q ∗ p ↦ n ∗ (p ↦ n -∗ R tt) ⊢
    WP (when negb (q =? NULL) do (l <- get p f ;; destroy_avltree depth l)) R).
  { iIntros (t' q f n R Hd' <-) "(Ht & Hp & HR)". iApply (is_tree_cases with "[Hp HR] Ht").
    iSplit; iIntros ([Hq HE]) "Ht".
    - rewrite Hq Z.eqb_refl. subst t'. iDestruct (is_tree_E with "Ht") as "_". wp_ret. by iApply "HR".
    - rewrite (proj2 (Z.eqb_neq _ _) Hq). simpl. wp_get "Hp". iApply (IH t'); [done|]. iFrame "Ht".
      by iApply "HR". }
  iIntros "[Ht HQ]". iApply (is_tree_cases with "[HQ] Ht"). cbn [destroy_avltree].
  iSplit; iIntros ([Hp HE]) "Ht".
  { subst. iDestruct (is_tree_E with "Ht") as "_". rewrite Z.eqb_refl. by wp_ret. }
  destruct t as [|l x h r]; [done|]. rewrite (proj2 (Z.eqb_neq _ _) Hp).
  iDestruct "Ht" as (pl pr) "(Hp & Hl & Hr)". simpl in Hd.
  wp_get "Hp". wp_bind_. iApply (Hkid l pl left (Node x pl pr h)); [lia|done|]. iFrame "Hl Hp". iIntros "Hp".
  wp_get "Hp". wp_bind_. iApply (Hkid r pr right (Node x pl pr h)); [lia|done|]. iFrame "Hr Hp". iIntros "Hp".
  wp_free "Hp". done.
Qed.
End proofs.

(** ** Deletion *)

(** A double rotation puts nothing deeper than the taller side required. *)
Lemma rot_rl_height l y h r t' : wf r -> rot_rl (T l y h r) = Some t' ->
  ht t' <= Z.max (ht l + 2) (ht r + 1).
Proof.
  intros Wr (r' & Hll & Hrr)%bind_Some.
  destruct r as [|[|a x hx b] z hz c]; [done..|]. injection Hll as <-. injection Hrr as <-.
  destruct Wr as (-> & (-> & Wa & Wb) & Wc). pose proof (wf_ht c Wc). simpl. lia.
Qed.

Lemma rot_lr_height l y h r t' : wf l -> rot_lr (T l y h r) = Some t' ->
  ht t' <= Z.max (ht r + 2) (ht l + 1).
Proof.
  intros Wl (l' & Hrr & Hll)%bind_Some.
  destruct l as [|a z hz [|b x hx c]]; [done..|]. injection Hrr as <-. injection Hll as <-.
  destruct Wl as (-> & Wa & (-> & Wb & Wc)). pose proof (wf_ht a Wa). simpl. lia.
Qed.

Lemma rot_rr_height l y h r t' : wf r -> rot_rr (T l y h r) = Some t' ->
  ht t' <= Z.max (ht l + 2) (ht r + 1).
Proof. destruct r as [|a z hz b]; [done|]. intros (-> & ? & ?) [= <-]. simpl. lia. Qed.

Lemma rot_ll_height l y h r t' : wf l -> rot_ll (T l y h r) = Some t' ->
  ht t' <= Z.max (ht r + 2) (ht l + 1).
Proof. destruct l as [|a z hz b]; [done|]. intros (-> & ? & ?) [= <-]. simpl. lia. Qed.

Lemma wf_fix t : wf t -> fix_height t = t.
Proof. destruct t; [done|]. intros (-> & _ & _). done. Qed.

Lemma del_wf x t t' : wf t -> del x t = Some t' -> wf t' /\ ht t' <= ht t.
Proof.
  revert x t'. induction t as [|l IHl y h r IHr]; intros x t' Wt Hdel; [by injection Hdel as <-|].
  cbn [del] in Hdel. destruct (mem x (T l y h r)); cbn [negb] in Hdel; [|by injection Hdel as <-].
  destruct Wt as (-> & Wl & Wr). pose proof (wf_ht l Wl). pose proof (wf_ht r Wr).
  apply bind_Some in Hdel as (t1 & Ht1 & [= <-]). cbv zeta in Ht1.
  destruct (x <? y); [|destruct (y <? x)].
  - apply bind_Some in Ht1 as (l' & Hl' & Ht1). destruct (IHl _ _ Wl Hl') as [Wl' Hh].
    destruct (Z.eqb_spec (ht r - ht l') 2).
    + assert (kids (ht r) (T l' y (Z.max (ht l) (ht r) + 1) r)) as HK by (apply kids_T; done || lia).
      assert (wf t1 /\ ht t1 <= Z.max (ht l' + 2) (ht r + 1)) as [Wt1 Ht1'].
      { destruct (root_lt x r); split.
        - by apply (rot_rl_wf _ _ _ Ht1 HK).
        - by eapply rot_rl_height.
        - by apply (rot_rr_wf _ _ _ Ht1 HK).
        - by eapply rot_rr_height. }
      rewrite wf_fix //. split; [done|]. simpl. lia.
    + injection Ht1 as <-. simpl. split; [done|lia].
  - apply bind_Some in Ht1 as (r' & Hr' & Ht1). destruct (IHr _ _ Wr Hr') as [Wr' Hh].
    destruct (Z.eqb_spec (ht l - ht r') 2).
    + assert (kids (ht l) (T l y (Z.max (ht l) (ht r) + 1) r')) as HK by (apply kids_T; done || lia).
      assert (wf t1 /\ ht t1 <= Z.max (ht r' + 2) (ht l + 1)) as [Wt1 Ht1'].
      { destruct (root_lt x l); split.
        - by apply (rot_ll_wf _ _ _ Ht1 HK).
        - by eapply rot_ll_height.
        - by apply (rot_lr_wf _ _ _ Ht1 HK).
        - by eapply rot_lr_height. }
      rewrite wf_fix //. split; [done|]. simpl. lia.
    + injection Ht1 as <-. simpl. split; [done|lia].
  - destruct l as [|ll lx lh lr], r as [|rl rx rh rr].
    + by injection Ht1 as <-.
    + injection Ht1 as <-. rewrite wf_fix //. split; [done|]. simpl in *. lia.
    + injection Ht1 as <-. rewrite wf_fix //. split; [done|]. simpl in *. lia.
    + apply bind_Some in Ht1 as (r' & Hr' & [= <-]). destruct (IHr _ _ Wr Hr') as [Wr' Hh].
      cbn [fix_height node ht] in *. split; [by split|lia].
Qed.

Definition remove (x : Z) (l : list Z) : list Z := filter (fun z => z <> x) l.

Lemma remove_id x l : x ∉ l -> remove x l = l.
Proof.
  induction l as [|y l IH]; [done|]. rewrite not_elem_of_cons. intros [Hy Hx].
  unfold remove in *. rewrite filter_cons decide_True; [|done]. by rewrite IH.
Qed.

Lemma remove_app x l1 l2 : remove x (l1 ++ l2) = remove x l1 ++ remove x l2.
Proof. apply filter_app. Qed.

Lemma remove_node x l y r : remove x (elements l ++ y :: elements r) =
  remove x (elements l) ++ (if decide (y = x) then [] else [y]) ++ remove x (elements r).
Proof.
  rewrite remove_app. f_equal. unfold remove. rewrite filter_cons.
  destruct (decide (y = x)); [rewrite decide_False|rewrite decide_True]; naive_solver.
Qed.

Lemma min_of_head t : t <> E -> exists l, elements t = min_of t :: l.
Proof.
  induction t as [|l IHl y h r _]; [done|]. intros _. destruct l as [|ll z hl lr]; [by eexists|].
  destruct IHl as [k Hk]; [done|]. cbn [elements min_of] in *. rewrite Hk. by eexists.
Qed.

Lemma remove_lt x l : Forall (fun z => z < x) l -> remove x l = l.
Proof. intros H. apply remove_id. intros Hx. rewrite Forall_forall in H. specialize (H x Hx). lia. Qed.
Lemma remove_gt x l : Forall (fun z => x < z) l -> remove x l = l.
Proof. intros H. apply remove_id. intros Hx. rewrite Forall_forall in H. specialize (H x Hx). lia. Qed.

Lemma del_elements x t t' : bst t -> del x t = Some t' -> elements t' = remove x (elements t).
Proof.
  revert x t'. induction t as [|l IHl y h r IHr]; intros x t' Hb Hdel; [by injection Hdel as <-|].
  cbn [del] in Hdel. destruct (mem x (T l y h r)) eqn:Hmem; cbn [negb] in Hdel.
  2: { injection Hdel as <-. symmetry. apply remove_id. rewrite <-mem_elements; [|done].
       by rewrite Hmem. }
  apply bst_node in Hb as (Hl & Hr & Hly & Hry).
  apply bind_Some in Hdel as (t1 & Ht1 & [= <-]). rewrite elements_fix. cbv zeta in Ht1.
  cbn [elements]. rewrite remove_node.
  destruct (Z.ltb_spec x y); [|destruct (Z.ltb_spec y x)].
  - apply bind_Some in Ht1 as (l' & Hl' & Ht1). rewrite -(IHl _ _ Hl Hl').
    rewrite decide_False; [|lia]. rewrite (remove_gt x (elements r)).
    2: { eapply Forall_impl; [exact Hry|]. simpl. lia. }
    destruct (_ =? 2); [|by injection Ht1 as <-].
    destruct (root_lt x r); [by apply rot_rl_spec in Ht1|by apply rot_rr_spec in Ht1].
  - apply bind_Some in Ht1 as (r' & Hr' & Ht1). rewrite -(IHr _ _ Hr Hr').
    rewrite decide_False; [|lia]. rewrite (remove_lt x (elements l)).
    2: { eapply Forall_impl; [exact Hly|]. simpl. lia. }
    destruct (_ =? 2); [|by injection Ht1 as <-].
    destruct (root_lt x l); [by apply rot_ll_spec in Ht1|by apply rot_lr_spec in Ht1].
  - assert (y = x) as -> by lia. rewrite decide_True // remove_lt // remove_gt //. cbn [app].
    destruct l as [|ll lx lh lr], r as [|rl rx rh rr].
    + by injection Ht1 as <-.
    + by injection Ht1 as <-.
    + injection Ht1 as <-. by rewrite app_nil_r.
    + set (rt := T rl rx rh rr) in *. apply bind_Some in Ht1 as (r' & Hr' & [= <-]).
      destruct (min_of_head rt) as [k Hk]; [done|].
      assert (remove (min_of rt) (elements rt) = k) as Hrm.
      { unfold bst in Hr. rewrite Hk in Hr |- *. inversion Hr; subst. unfold remove.
        rewrite filter_cons decide_False; [|naive_solver]. by apply remove_gt. }
      cbn [elements]. by rewrite (IHr _ _ Hr Hr') Hrm Hk.
Qed.

Section deletion.
Context `{Malloc avlnode}.
Implicit Types (t l r : tree) (p q x y : Z) (Q : Z -> heapProp avlnode).

(** The node that a deletion unlinks is not freed. *)
Definition leaked (x : Z) (t : tree) : heapProp avlnode :=
  (if mem x t then ∃ q n, q ↦ n else emp)%I.

Lemma mem_min r : bst r -> r <> E -> mem (min_of r) r = true.
Proof.
  intros Hr HE. destruct (min_of_head r HE) as [k Hk]. rewrite mem_elements // Hk. by left.
Qed.

(** The last two lines when the tree may have become empty. *)
Lemma WP_finish_opt B t p Q : kids B t -> B < INT_MAX ->
  is_tree t p ∗ printed ∗ (∀ q, is_tree (fix_height t) q -∗ printed -∗ Q q) ⊢
  WP ((when negb (p =? NULL) do update_height p) ;; ret p) Q.
Proof.
  iIntros (HK HB) "(Ht & Hout & HQ)". iApply (is_tree_cases with "[Hout HQ] Ht").
  iSplit; iIntros ([Hp HE]) "Ht".
  - subst. rewrite Z.eqb_refl. wp_ret. wp_ret. iApply ("HQ" with "Ht Hout").
  - rewrite (proj2 (Z.eqb_neq _ _) Hp). iApply (WP_finish B); [done..|]. iFrame.
Qed.

(** The rotation that follows a deletion on the left. *)
Lemma WP_rotate_deleted B x l y h r p t' Q : kids B (T l y h r) -> 0 <= B -> B + 4 <= INT_MAX ->
  r <> E ->
  (if root_lt x r then rot_rl (T l y h r) else rot_rr (T l y h r)) = Some t' ->
  is_tree (T l y h r) p ∗ printed ∗ (∀ q, is_tree t' q -∗ printed -∗ Q q) ⊢
  WP (r <- get p right ;; re <- get r element ;;
      if x <? re then right_left_rotate p else right_right_rotate p) Q.
Proof.
  iIntros (HK HB HB' Hr Hrot) "(Ht & Hout & HQ)". destruct r as [|a z hr b]; [done|].
  simpl. iDestruct "Ht" as (pl pr) "(Hp & Hl & (%pa & %pb & Hr & Ha & Hb))".
  wp_get "Hp". simpl. wp_get "Hr". simpl. cbn [root_lt] in Hrot.
  iAssert (is_tree (T l y h (T a z hr b)) p) with "[Hp Hl Ha Hb Hr]" as "Ht".
  { simpl. iExists pl, pr. iFrame. }
  destruct (x <? z).
  - iApply (WP_right_left_rotate B _ _ _ _ Hrot); [done|lia|lia|]. iFrame.
  - iApply (WP_right_right_rotate B _ _ _ _ Hrot); [done|lia|]. iFrame.
Qed.

Lemma rotate_deleted_kids B x t t' r : kids B t ->
  (if root_lt x r then rot_rl t else rot_rr t) = Some t' -> kids (B + 3) t'.
Proof.
  intros HK. destruct (root_lt x r); intros Ht.
  - destruct (rot_rl_wf _ _ _ Ht HK) as (? & ? & ?). apply wf_kids; [done|lia].
  - destruct (rot_rr_wf _ _ _ Ht HK). apply wf_kids; [done|lia].
Qed.

(** What is known of the recursive calls, by induction. *)
Definition deletes (go : Z -> Z -> M avl_state Z) (t : tree) : Prop :=
  forall x t' p Q, bst t -> wf t -> del x t = Some t' -> ht t + 8 <= INT_MAX ->
  is_tree t p ∗ printed ∗ (∀ q, is_tree t' q -∗ leaked x t -∗ printed -∗ Q q) ⊢ WP (go p x) Q.

Section node.
Variable go : Z -> Z -> M avl_state Z.
Variables (l r : tree) (y x p : Z).
Hypothesis Hl : deletes go l.
Hypothesis Hr : deletes go r.
Hypothesis Hbl : bst l.
Hypothesis Hbr : bst r.
Hypothesis Wl : wf l.
Hypothesis Wr : wf r.
Notation h := (Z.max (ht l) (ht r) + 1).
Hypothesis Hmax : h + 8 <= INT_MAX.

Lemma WP_delete_left l' t1 Q : del x l = Some l' ->
  (let t2 := T l' y h r in
   if ht r - ht l' =? 2 then (if root_lt x r then rot_rl t2 else rot_rr t2) else Some t2) = Some t1 ->
  is_tree (T l y h r) p ∗ printed ∗
  (∀ q, ⌜kids (h + 4) t1⌝ → is_tree t1 q -∗ leaked x l -∗ printed -∗ Q q) ⊢
  WP (l <- get p left ;; l <- go l x ;; put p (set_left l) ;;
      b <- taller_by_2 p right left ;;
      if b : bool then
        r <- get p right ;; re <- get r element ;;
        if x <? re then right_left_rotate p else right_right_rotate p
      else ret p) Q.
Proof.
  cbv zeta. iIntros (Hl' Ht1) "(Ht & Hout & HQ)". destruct (del_wf _ _ _ Wl Hl') as [Wl' Hh].
  pose proof (wf_ht l Wl). pose proof (wf_ht r Wr). pose proof (wf_ht l' Wl').
  iDestruct "Ht" as (pl pr) "(Hp & Hl & Hr)". wp_get "Hp". simpl. wp_bind_.
  iApply (Hl x l'); [done|done|done|lia|]. iFrame "Hl Hout". iIntros (q) "Hl Hleak Hout".
  wp_put "Hp". wp_bind_. iApply (WP_taller r l'); [unfold INT_MAX in *; lia..|].
  iFrame "Hp". simpl. iFrame "Hl Hr". iIntros "Hp Hr Hl".
  iAssert (is_tree (T l' y h r) p) with "[Hp Hl Hr]" as "Ht".
  { simpl. iExists q, pr. iFrame. }
  assert (kids (h - 1) (T l' y h r)) as HK by (apply kids_T; done || lia).
  destruct (Z.eqb_spec (ht r - ht l') 2).
  - iApply (WP_rotate_deleted _ _ _ _ _ _ _ _ _ HK);
      [lia|lia|by destruct r; simpl in *; [lia|]|done|].
    iFrame "Ht Hout". iIntros (q2) "Ht Hout". iApply ("HQ" with "[%] Ht Hleak Hout").
    eapply kids_mono; [by eapply rotate_deleted_kids|lia].
  - injection Ht1 as <-. wp_ret. iApply ("HQ" with "[%] Ht Hleak Hout").
    eapply kids_mono; [exact HK|lia].
Qed.

Lemma WP_delete_right r' t1 Q : del x r = Some r' ->
  (let t2 := T l y h r' in
   if ht l - ht r' =? 2 then (if root_lt x l then rot_ll t2 else rot_lr t2) else Some t2) = Some t1 ->
  is_tree (T l y h r) p ∗ printed ∗
  (∀ q, ⌜kids (h + 4) t1⌝ → is_tree t1 q -∗ leaked x r -∗ printed -∗ Q q) ⊢
  WP (r <- get p right ;; r <- go r x ;; put p (set_right r) ;;
      b <- taller_by_2 p left right ;;
      if b : bool then
        l <- get p left ;; le <- get l element ;;
        if x <? le then left_left_rotate p else left_right_rotate p
      else ret p) Q.
Proof.
  cbv zeta. iIntros (Hr' Ht1) "(Ht & Hout & HQ)". destruct (del_wf _ _ _ Wr Hr') as [Wr' Hh].
  pose proof (wf_ht l Wl). pose proof (wf_ht r Wr). pose proof (wf_ht r' Wr').
  iDestruct "Ht" as (pl pr) "(Hp & Hl & Hr)". wp_get "Hp". simpl. wp_bind_.
  iApply (Hr x r'); [done|done|done|lia|]. iFrame "Hr Hout". iIntros (q) "Hr Hleak Hout".
  wp_put "Hp". wp_bind_. iApply (WP_taller l r'); [unfold INT_MAX in *; lia..|].
  iFrame "Hp". simpl. iFrame "Hl Hr". iIntros "Hp Hl Hr".
  iAssert (is_tree (T l y h r') p) with "[Hp Hl Hr]" as "Ht".
  { simpl. iExists pl, q. iFrame. }
  assert (kids (h - 1) (T l y h r')) as HK by (apply kids_T; done || lia).
  destruct (Z.eqb_spec (ht l - ht r') 2).
  - iApply (WP_rotate_left _ _ _ _ _ _ _ _ _ HK);
      [lia|lia|by destruct l; simpl in *; [lia|]|done|].
    iFrame "Ht Hout". iIntros (q2) "Ht Hout". iApply ("HQ" with "[%] Ht Hleak Hout").
    eapply kids_mono; [by apply (rotate_left_kids _ _ _ _ _ HK Ht1)|lia].
  - injection Ht1 as <-. wp_ret. iApply ("HQ" with "[%] Ht Hleak Hout").
    eapply kids_mono; [exact HK|lia].
Qed.

(** The node itself goes: its value is replaced by the least of the right
    subtree, or its only child takes its place. *)
Lemma WP_delete_root fuel t1 Q : (depth_of r < fuel)%nat ->
  match l, r with
  | T _ _ _ _, T _ _ _ _ => r' ← del (min_of r) r; Some (T l (min_of r) h r')
  | E, _ => Some r
  | _, E => Some l
  end = Some t1 ->
  is_tree (T l y h r) p ∗ printed ∗
  (∀ q, ⌜kids (h + 4) t1⌝ → is_tree t1 q -∗ (∃ q n, q ↦ n) -∗ printed -∗ Q q) ⊢
  WP (l <- get p left ;;
      both <- (if negb (l =? NULL) then r <- get p right ;; ret (negb (r =? NULL)) else ret false) ;;
      if both : bool then
        r <- get p right ;; min_node <- findmin fuel r ;;
        m <- get min_node element ;; put p (set_element m) ;;
        r <- get p right ;; m <- get min_node element ;;
        r <- go r m ;; put p (set_right r) ;;
        ret p
      else
        l <- get p left ;;
        if negb (l =? NULL) then get p left else get p right) Q.
Proof.
  iIntros (Hf Ht1) "(Ht & Hout & HQ)". pose proof (wf_ht l Wl). pose proof (wf_ht r Wr).
  iDestruct "Ht" as (pl pr) "(Hp & Hl & Hr)". wp_get "Hp". simpl.
  iApply (is_tree_cases with "[-Hl] Hl"). iSplit; iIntros ([Hpl HlE]) "Hl".
  - iDestruct (is_tree_E NULL with "[Hl]") as "_"; [by rewrite Hpl HlE|].
    rewrite Hpl Z.eqb_refl. wp_ret. simpl. wp_get "Hp". simpl. wp_get "Hp". simpl.
    assert (t1 = r) as -> by (by rewrite HlE in Ht1; injection Ht1).
    iApply ("HQ" with "[%] Hr [Hp] Hout"); [apply wf_kids; [done|lia]|].
    iExists p, _. iExact "Hp".
  - rewrite (proj2 (Z.eqb_neq _ _) Hpl). simpl. wp_get "Hp". wp_ret. simpl.
    iApply (is_tree_cases with "[-Hr] Hr"). iSplit; iIntros ([Hpr HrE]) "Hr".
    + iDestruct (is_tree_E NULL with "[Hr]") as "_"; [by rewrite Hpr HrE|].
      rewrite Hpr Z.eqb_refl. simpl. wp_get "Hp". simpl. rewrite (proj2 (Z.eqb_neq _ _) Hpl). simpl.
      wp_get "Hp". simpl.
      assert (t1 = l) as -> by (rewrite HrE in Ht1; destruct l; [done|by injection Ht1]).
      iApply ("HQ" with "[%] Hl [Hp] Hout"); [apply wf_kids; [done|lia]|].
      iExists p, _. iExact "Hp".
    + rewrite (proj2 (Z.eqb_neq _ _) Hpr). simpl.
      assert (exists r', del (min_of r) r = Some r' /\ t1 = T l (min_of r) h r') as (r' & Hr' & ->).
      { destruct l; [done|]. destruct r; [done|]. apply bind_Some in Ht1 as (r' & Hr' & [= <-]).
        by exists r'. }
      destruct (del_wf _ _ _ Wr Hr') as [Wr' Hh]. pose proof (wf_ht r' Wr').
      wp_get "Hp". simpl. wp_bind_. iApply (WP_findmin fuel r); [done|done|]. iFrame "Hr".
      iIntros (q') "(%n & %Hn & Hq' & Hback)". wp_get "Hq'". wp_put "Hp". wp_get "Hp". simpl.
      wp_get "Hq'". iDestruct ("Hback" with "Hq'") as "Hr". wp_bind_. rewrite Hn.
      iApply (Hr (min_of r) r'); [done|done|done|lia|]. iFrame "Hr Hout".
      unfold leaked. rewrite mem_min //. iIntros (q2) "Hr Hleak Hout". wp_put "Hp". wp_ret.
      iApply ("HQ" with "[%] [Hp Hl Hr] Hleak Hout"); [apply kids_T; done || lia|].
      simpl. iExists pl, q2. iFrame.
Qed.
End node.

Lemma WP_delete_node fuel depth : forall t, (depth_of t < depth)%nat -> (depth_of t < fuel)%nat ->
  deletes (delete_node fuel depth) t.
Proof.
  induction depth as [|depth IH]; intros t Hd Hf x t' p Q Hb Wt Hdel Hmax; [lia|].
  iIntros "(Ht & Hout & HQ)". cbn [delete_node]. wp_bind_.
  iApply (WP_find x fuel t); [done|]. iFrame "Ht". iIntros (q) "Hfound". unfold found, leaked.
  destruct (mem x t) eqn:Hmem.
  2: { iDestruct "Hfound" as "[-> Ht]". rewrite Z.eqb_refl orb_true_r. wp_ret.
       assert (t' = t) as ->.
       { destruct t; cbn [del] in Hdel; [|rewrite Hmem in Hdel]; by injection Hdel as <-. }
       iApply ("HQ" with "Ht [//] Hout"). }
  iDestruct "Hfound" as (n0) "(_ & Hq & Hback)". iApply (points_to_ne with "[-Hq] Hq").
  iIntros (Hq) "Hq". iDestruct ("Hback" with "Hq") as "Ht".
  iApply (is_tree_cases with "[Hout HQ] Ht"). iSplit; iIntros ([Hp HE]) "Ht"; [by subst|].
  rewrite (proj2 (Z.eqb_neq _ _) Hp) (proj2 (Z.eqb_neq _ _) Hq). simpl orb. cbv iota.
  destruct t as [|l y h r]; [done|]. destruct Wt as (-> & Wl & Wr).
  apply bst_node in Hb as (Hbl & Hbr & _ & _).
  cbn [ht depth_of] in Hmax, Hd, Hf. cbn [del] in Hdel. rewrite Hmem in Hdel.
  apply bind_Some in Hdel as (t1 & Ht1 & [= <-]). cbv zeta in Ht1. cbn [mem] in Hmem.
  assert (deletes (delete_node fuel depth) l) as Dl by (apply IH; lia).
  assert (deletes (delete_node fuel depth) r) as Dr by (apply IH; lia).
  iDestruct "Ht" as (pl pr) "(Hp & Hl & Hr)". wp_get "Hp".
  iAssert (is_tree (T l y (Z.max (ht l) (ht r) + 1) r) p) with "[Hp Hl Hr]" as "Ht".
  { iExists pl, pr. iFrame. }
  iAssert (∀ q, ⌜kids (Z.max (ht l) (ht r) + 1 + 4) t1⌝ → is_tree t1 q -∗ (∃ q n, q ↦ n) -∗ printed -∗
    WP ((when negb (q =? NULL) do update_height q) ;; ret q) Q)%I with "[HQ]" as "HQ".
  { iIntros (q1 HK) "Ht Hleak Hout". iApply (WP_finish_opt _ _ _ _ HK); [lia|].
    iFrame "Ht Hout". iIntros (q3) "Ht Hout". iApply ("HQ" with "Ht Hleak Hout"). }
  cbn [element]. wp_bind_. destruct (x <? y).
  - apply bind_Some in Ht1 as (l' & Hl' & Ht1).
    iApply (WP_delete_left _ l r y x p Dl Dr Hbl Hbr Wl Wr Hmax l' t1); [done|done|]. iFrame "Ht Hout".
    unfold leaked. by rewrite Hmem.
  - iDestruct "Ht" as (pl' pr') "(Hp & Hl & Hr)". wp_get "Hp".
    iAssert (is_tree (T l y (Z.max (ht l) (ht r) + 1) r) p) with "[Hp Hl Hr]" as "Ht".
    { iExists pl', pr'. iFrame. }
    cbn [element]. destruct (y <? x).
    + apply bind_Some in Ht1 as (r' & Hr' & Ht1).
      iApply (WP_delete_right _ l r y x p Dl Dr Hbl Hbr Wl Wr Hmax r' t1); [done|done|]. iFrame "Ht Hout".
      unfold leaked. by rewrite Hmem.
    + iApply (WP_delete_root _ l r y p Dl Dr Hbl Hbr Wl Wr Hmax fuel t1); [lia|done|]. iFrame.
Qed.
End deletion.

(** ** The operations on states *)

(** The state holds the tree [t] at [p], the cells [f], and nothing else. *)
Definition tree_at (t : tree) (p : Z) (f : gmap Z avlnode) (s : avl_state) : Prop :=
  framed (is_tree t p ∗ printed)%I f s.

Lemma tree_at_empty f out : tree_at E NULL f (St f out).
Proof.
  eapply framed_mono, (proj2 (framed_stdout out f _)); [|done].
  iIntros "Hout". iSplitR; [iApply is_tree_null|iExists out; iExact "Hout"].
Qed.

Lemma tree_run {A} (m : M avl_state A) (Q : A -> heapProp avlnode) t p f s :
  (is_tree t p ∗ printed ⊢ WP m Q) -> tree_at t p f s ->
  exists a s', m s = Ret a s' /\ framed (Q a) f s'.
Proof. apply framed_run. Qed.

(** C36: with an allocator that succeeds, inserting [x] into an ordered, balanced tree
    returns a tree, again ordered and balanced, whose elements are those of the old
    one and [x], at most one level higher; it dereferences no null pointer and
    leaves the other cells alone. *)
Theorem avl_insert_correct `{Malloc avlnode} x t p f s depth :
  (forall s : avl_state, malloc_at s <> None) -> avl t -> bst t -> ht t + 8 <= INT_MAX ->
  ht t < Z.of_nat depth -> tree_at t p f s ->
  exists q s' t', insert_node depth p x s = Ret q s' /\ tree_at t' q f s' /\
    avl t' /\ bst t' /\ elements t' = insert_sorted x (elements t) /\
    ht t <= ht t' <= ht t + 1.
Proof.
  intros Hm Ht Hb Hmax Hd Hs. destruct (ins_avl x t Ht) as (t' & Hins & Ht' & Hht & _).
  rewrite (wf_depth t (proj1 Ht)) in Hd.
  destruct (tree_run (insert_node depth p x) (fun q => is_tree t' q ∗ printed)%I t p f s)
    as (q & s' & E & Hs'); [|done|].
  { iIntros "[Ht Hout]". iApply (WP_insert_node Hm x depth t t'); [done|done|lia|lia|]. iFrame.
    iIntros (q) "$ $". }
  pose proof (ins_elements _ _ _ Hb Hins) as Hel.
  exists q, s', t'. split_and!; try done; [|lia|lia].
  unfold bst. rewrite Hel. by apply insert_sorted_sorted.
Qed.

Lemma avl_insert_correct_witness : let _ := bump_malloc (V := avlnode) in
  exists q s t, (p <- insert_node 5 NULL 3 ;; p <- insert_node 5 p 2 ;; insert_node 5 p 1) (St ∅ "")
    = Ret q s /\ tree_at t q ∅ s /\ avl t /\ elements t = [1; 2; 3].
Proof.
  intros m.
  assert (forall s : avl_state, malloc_at s <> None) as Hm by (intros s; discriminate).
  destruct (avl_insert_correct 3 E NULL ∅ (St ∅ "") 5 Hm) as (p1 & s1 & t1 & E1 & H1 & A1 & B1 & L1 & D1);
    [by split|by constructor|unfold INT_MAX; simpl; lia|simpl; lia|apply tree_at_empty|].
  simpl in D1, L1.
  destruct (avl_insert_correct 2 t1 p1 ∅ s1 5 Hm A1 B1) as (p2 & s2 & t2 & E2 & H2 & A2 & B2 & L2 & D2);
    [unfold INT_MAX; lia|lia|exact H1|].
  destruct (avl_insert_correct 1 t2 p2 ∅ s2 5 Hm A2 B2) as (p3 & s3 & t3 & E3 & H3 & A3 & B3 & L3 & D3);
    [unfold INT_MAX; lia|lia|exact H2|].
  exists p3, s3, t3. rewrite L1 in L2. rewrite L2 in L3. split; [|split; [exact H3|split; [exact A3|exact L3]]].
  unfold bind. rewrite E1. rewrite E2. exact E3.
Defined.

(** When no memory is left, [insert_node] prints its message and then sets the
    height of a null pointer: the run is undefined. *)
Theorem avl_insert_no_memory `{Malloc avlnode} x depth s :
  (forall s : avl_state, malloc_at s = None) -> heap s !! NULL = None ->
  insert_node (S depth) NULL x s = UB.
Proof.
  intros Hm Hnull. cbn [insert_node]. rewrite Z.eqb_refl.
  unfold bind at 1 2, printf at 1, modify. unfold bind at 1, malloc. rewrite Hm Z.eqb_refl. simpl.
  unfold bind, printf, modify, ret, update_height, get, bind, load. simpl. by rewrite Hnull.
Qed.

Lemma avl_insert_no_memory_witness : let _ := null_malloc (V := avlnode) in
  insert_node 1 NULL 5 (St ∅ "") = UB.
Proof. intros m. apply (avl_insert_no_memory 5 0 (St ∅ "")); reflexivity. Defined.

Lemma max_of_last t : t <> E -> List.last (elements t) 0 = max_of t.
Proof.
  induction t as [|l _ y h r IHr]; [done|]. intros _. cbn [elements].
  destruct r as [|rl z hr rr]; [by rewrite last_last|].
  transitivity (List.last (elements (T rl z hr rr)) 0); [|by apply IHr].
  change (y :: elements (T rl z hr rr)) with ([y] ++ elements (T rl z hr rr)).
  rewrite (assoc_L (++)). remember (elements (T rl z hr rr)) as k eqn:Hk.
  assert (k <> []) as Hne by (subst k; simpl; by destruct (elements rl)). clear -Hne.
  induction (elements l ++ [y]) as [|w m IH]; [done|]. simpl. rewrite IH.
  by destruct m, k.
Qed.

(** A node that was found can be read. *)
Lemma framed_borrowed t p q x f s : framed (borrowed t p q x ∗ printed)%I f s ->
  (exists n, heap s !! q = Some n /\ element n = x) /\ tree_at t p f s.
Proof.
  intros Hs. split.
  - eapply (framed_mono _ (∃ n, <affine> ⌜element n = x⌝ ∗ q ↦ n ∗
      ((q ↦ n -∗ is_tree t p) ∗ printed))%I) in Hs.
    + apply framed_exist in Hs as [n Hs]. apply framed_pure in Hs as [Hn Hs].
      apply framed_lookup in Hs. by exists n.
    + iIntros "[(%n & %Hn & Hq & Hback) Hout]". iExists n. by iFrame.
  - eapply framed_mono, Hs. iIntros "[(%n & %Hn & Hq & Hback) Hout]". iFrame "Hout".
    by iApply "Hback".
Qed.

(** [find] returns a node that holds [x], or null exactly when [x] is not in the
    ordered tree; [findmin] and [findmax] of a nonempty tree return nodes with the
    ends of the sorted list of elements. All end without error and leave the tree
    as it is. *)
Theorem avl_search_correct x t p f s depth : bst t -> t <> E -> (depth_of t < depth)%nat ->
  tree_at t p f s ->
  (exists q s', find depth p x s = Ret q s' /\ tree_at t p f s' /\
     if decide (x ∈ elements t) then exists n, heap s' !! q = Some n /\ element n = x else q = NULL) /\
  (exists q s', findmin depth p s = Ret q s' /\ tree_at t p f s' /\
     exists n, heap s' !! q = Some n /\ element n = hd 0 (elements t)) /\
  (exists q s', findmax depth p s = Ret q s' /\ tree_at t p f s' /\
     exists n, heap s' !! q = Some n /\ element n = List.last (elements t) 0).
Proof.
  intros Hb HE Hd Hs. split_and!.
  - destruct (tree_run (find depth p x) (fun q => found x t p q ∗ printed)%I t p f s)
      as (q & s' & E & Hs'); [|done|].
    { iIntros "[Ht Hout]". iApply WP_find; [done|]. iFrame. by iIntros (q) "$". }
    exists q, s'. split; [done|]. unfold found in Hs'. pose proof (mem_elements x t Hb) as Hmem.
    destruct (mem x t); case_decide; try naive_solver.
    + apply framed_borrowed in Hs' as [? ?]. by split.
    + rewrite -bi.sep_assoc in Hs'. apply framed_pure in Hs' as [-> ?]. by split.
  - destruct (tree_run (findmin depth p) (fun q => borrowed t p q (min_of t) ∗ printed)%I t p f s)
      as (q & s' & E & Hs'); [|done|].
    { iIntros "[Ht Hout]". iApply WP_findmin; [done|done|]. iFrame. by iIntros (q) "$". }
    exists q, s'. apply framed_borrowed in Hs' as [? ?]. destruct (min_of_head t HE) as [k ->].
    by split_and!.
  - destruct (tree_run (findmax depth p) (fun q => borrowed t p q (max_of t) ∗ printed)%I t p f s)
      as (q & s' & E & Hs'); [|done|].
    { iIntros "[Ht Hout]". iApply WP_findmax; [done|done|]. iFrame. by iIntros (q) "$". }
    exists q, s'. apply framed_borrowed in Hs' as [? ?]. rewrite max_of_last //.
Qed.

(** The three traversals print the elements in their order and keep the tree,
    in-order printing an ordered tree's elements sorted; [destroy_avltree] frees
    exactly the nodes of the tree. *)
Theorem avl_traversals_correct t p f s depth : (depth_of t < depth)%nat ->
  framed (is_tree t p ∗ stdout_is (stdout s))%I f s ->
  (exists s', preorder_avltree depth p s = Ret tt s' /\ tree_at t p f s' /\
     stdout s' = stdout s +:+ show (preorder t)) /\
  (exists s', inorder_avltree depth p s = Ret tt s' /\ tree_at t p f s' /\
     stdout s' = stdout s +:+ show (elements t)) /\
  (exists s', postorder_avltree depth p s = Ret tt s' /\ tree_at t p f s' /\
     stdout s' = stdout s +:+ show (postorder t)) /\
  destroy_avltree depth p s = Ret tt (St f (stdout s)).
Proof.
  intros Hd Hs.
  assert (forall go g, traverses go g t -> exists s', go p s = Ret tt s' /\ tree_at t p f s' /\
    stdout s' = stdout s +:+ show (g t)) as Hgo.
  { intros go g Hg.
    destruct (framed_run (go p) (is_tree t p ∗ stdout_is (stdout s))%I
      (fun _ => is_tree t p ∗ stdout_is (stdout s +:+ show (g t)))%I s f) as ([] & s' & E & Hs'); [|done|].
    { iIntros "[Ht Hout]". iApply Hg. iFrame. iIntros "$ $". }
    exists s'. split_and!; [done| |by apply framed_output in Hs'].
    eapply framed_mono, Hs'. iIntros "[$ Hout]". iExists _. iExact "Hout". }
  split_and!; [by apply Hgo, WP_preorder|by apply Hgo, WP_inorder|by apply Hgo, WP_postorder|].
  destruct (framed_run (destroy_avltree depth p) (is_tree t p ∗ stdout_is (stdout s))%I
    (fun _ => stdout_is (stdout s)) s f) as ([] & s' & E & Hs'); [|done|].
  { iIntros "[Ht Hout]". iApply (WP_destroy depth t); [done|]. iFrame. }
  by apply framed_stdout in Hs' as ->.
Qed.

(** A state with two nodes, for examples. *)
Definition two : tree := T (T E 1 1 E) 2 2 E.
Definition two_nodes : avl_state :=
  St {[ 7 := Node 2 8 NULL 2; 8 := Node 1 NULL NULL 1 ]} "".

Lemma two_at : tree_at two 7 ∅ two_nodes.
Proof.
  assert (framed (7 ↦ Node 2 8 NULL 2 ∗ 8 ↦ Node 1 NULL NULL 1 ∗ stdout_is "")%I ∅ two_nodes) as H.
  { exists (res_of two_nodes).
    split; [|split; [apply map_disjoint_empty_r|by rewrite (right_id_L ∅ (∪))]].
    exists {[Some 7 := inl (Node 2 8 NULL 2)]}, {[Some 8 := inl (Node 1 NULL NULL 1); None := inr ""]}.
    split_and!; [vm_compute; reflexivity|apply map_disjoint_singleton_l; reflexivity|done|].
    exists {[Some 8 := inl (Node 1 NULL NULL 1)]}, {[None := inr ""]}.
    split_and!; [vm_compute; reflexivity|apply map_disjoint_singleton_l; reflexivity|done|done]. }
  eapply framed_mono, H. iIntros "(H7 & H8 & Hout)". iSplitL "H7 H8"; [|iExists _; iExact "Hout"].
  unfold two. iExists 8, NULL. iFrame "H7". iSplitL; [|iApply is_tree_null].
  iExists NULL, NULL. iFrame "H8". iSplitL; iApply is_tree_null.
Qed.

Lemma avl_search_correct_witness :
  exists s' n, find 3 7 1 two_nodes = Ret 8 s' /\ heap s' !! 8 = Some n /\ element n = 1.
Proof.
  destruct (avl_search_correct 1 two 7 ∅ two_nodes 3) as [(q & s' & E & _ & H) _];
    [|discriminate|simpl; lia|exact two_at|].
  - unfold bst. simpl. repeat constructor.
  - vm_compute in E. injection E as <- <-.
    exists two_nodes, (Node 1 NULL NULL 1).
    split; [vm_compute; reflexivity|]. split; vm_compute; reflexivity.
Defined.

Lemma avl_traversals_correct_witness :
  inorder_avltree 3 NULL (St ∅ "> ") = Ret tt (St ∅ "> ") /\
  destroy_avltree 3 NULL (St (∅ : gmap Z avlnode) "> ") = Ret tt (St ∅ "> ").
Proof.
  destruct (avl_traversals_correct E NULL ∅ (St ∅ "> ") 3) as (_ & (s' & E1 & _ & _) & _ & E2).
  - simpl. lia.
  - eapply framed_mono, (proj2 (framed_stdout "> " ∅ _)); [|reflexivity].
    iIntros "Hout". iSplitR; [iApply is_tree_null|iExact "Hout"].
  - split; [|exact E2]. vm_compute in E1. injection E1 as <-. vm_compute. reflexivity.
Defined.

(** C37: where the rotations that [delete_node] picks find the nodes they need (the
    functional [del] is defined), deleting [x] from an ordered tree with the right
    heights returns an ordered tree with the right heights whose elements are the
    old ones without [x]; a node that was unlinked is not freed: it is left over
    as one more cell, in no tree. *)
Theorem avl_delete_correct x t t' p f s depth : bst t -> wf t -> del x t = Some t' ->
  ht t + 8 <= INT_MAX -> (depth_of t < depth)%nat -> tree_at t p f s ->
  exists q s', delete_node depth depth p x s = Ret q s' /\
    bst t' /\ wf t' /\ ht t' <= ht t /\ elements t' = remove x (elements t) /\
    if decide (x ∈ elements t) then exists l n, f !! l = None /\ tree_at t' q (<[l := n]> f) s'
    else tree_at t' q f s'.
Proof.
  intros Hb Hw Hdel Hmax Hd Hs.
  destruct (tree_run (delete_node depth depth p x) (fun q => leaked x t ∗ is_tree t' q ∗ printed)%I t p f s)
    as (q & s' & E & Hs'); [|done|].
  { iIntros "[Ht Hout]". iApply (WP_delete_node depth depth t); [done..|]. iFrame. iIntros (q) "$ $ $". }
  pose proof (del_elements x t t' Hb Hdel) as Hel. destruct (del_wf x t t' Hw Hdel) as [Hw' Hh].
  exists q, s'. split_and!; [done| |done|done|done|].
  - unfold bst. rewrite Hel. unfold remove. clear -Hb. unfold bst in Hb.
    induction Hb as [|y k Hk IH Hy]; [constructor|]. rewrite filter_cons. case_decide; [|done].
    constructor; [done|]. apply Forall_forall. intros z [_ Hz]%list_elem_of_filter.
    rewrite Forall_forall in Hy. by apply Hy.
  - unfold leaked in Hs'. pose proof (mem_elements x t Hb) as Hmem.
    destruct (mem x t); case_decide; try naive_solver.
    + rewrite bi.sep_exist_r in Hs'. apply framed_exist in Hs' as [l Hs'].
      rewrite bi.sep_exist_r in Hs'. apply framed_exist in Hs' as [n Hs'].
      apply framed_cell in Hs' as [Hl Hs']. by exists l, n.
    + by rewrite bi.emp_sep in Hs'.
Qed.

Lemma avl_delete_correct_witness :
  exists q s', delete_node 3 3 7 1 two_nodes = Ret q s' /\
    exists l n, tree_at (T E 2 1 E) q {[ l := n ]} s'.
Proof.
  destruct (avl_delete_correct 1 two (T E 2 1 E) 7 ∅ two_nodes 3)
    as (q & s' & E & _ & _ & _ & _ & H);
    [unfold bst; simpl; repeat constructor|by split_and!|reflexivity|unfold INT_MAX; simpl; lia
    |simpl; lia|exact two_at|].
  exists q, s'. split; [exact E|]. revert H. case_decide as Hc.
  - intros (l & n & _ & H). exists l, n. exact H.
  - destruct Hc. left.
Defined.

(** After 2, 1, 3 and 4 have been inserted, deleting 1 makes the right side too
    tall on the right; [delete_node] compares 1 with its root instead of looking at
    the heights, picks the double rotation and dereferences the null left child. *)
Theorem avl_delete_crash : let _ := bump_malloc (V := avlnode) in
  exists t s, (t <- insert_node 9 NULL 2 ;; t <- insert_node 9 t 1 ;; t <- insert_node 9 t 3 ;;
               insert_node 9 t 4) (St ∅ "") = Ret t s /\
    delete_node 9 9 t 1 s = UB.
Proof.
  intros m.
  destruct ((t <- insert_node 9 NULL 2 ;; t <- insert_node 9 t 1 ;; t <- insert_node 9 t 3 ;;
             insert_node 9 t 4) (St ∅ "")) as [t s| | |] eqn:E; vm_compute in E; [|discriminate..].
  exists t, s. split; [done|]. injection E as <- <-. vm_compute. reflexivity.
Qed.
