(* ===== verification/Sys.v ===== *)
(** Sys: programs that talk to the operating system. Every system call is an
    event; its answer comes from a script, the next answers of the environment,
    so a theorem for every script speaks of every behaviour of the environment
    and, since the script may end at any call, of every moment of the run. What
    the kernel may answer is a parameter; the answers that POSIX documents are
    named predicates on it. The history records calls, answers and output. *)
From stdpp Require Import sets list strings.
From S2P Require Import Prelude Arrays Bytes.

(** An internet address, in host byte order. *)
Record sockaddr := Addr { s_addr : Z; s_port : Z }.
Definition INADDR_ANY : Z := 0.

Inductive call :=
| Socket
| Setsockopt (fd : Z)
| Bind (fd : Z) (a : sockaddr)
| Listen (fd backlog : Z)
| Accept (fd : Z)
| Connect (fd : Z) (a : sockaddr)
| Getpeername (fd : Z)
| Gethostbyname (name : bytes)
| Read (fd n : Z)
| Write (fd : Z) (data : bytes)
| Close (fd : Z)
| Select (nfds : Z) (rd wr : list Z) (timeout : Z)
| Fork
| Signal (sig : Z)
| Fopen (path mode : bytes)
| Fclose (fd : Z)
| Malloc (n : Z)
| Sendmsg (fd : Z) (data : bytes) (rights : list Z) (creds : option Z)
| Recvmsg (fd n : Z)
| Writev (fd : Z) (parts : list bytes)
| Fgets (n : Z)
| Open (path : bytes) (flags : Z)
| Dup (fd : Z)
| Dup2 (fd fd' : Z)
| Socketpair
| Execl (path arg : bytes)
| BindPath (fd : Z) (path : bytes)
| ConnectPath (fd : Z) (path : bytes)
| Unlink (path : bytes)
| Chmod (path : bytes) (mode : Z)
| Chdir (path : bytes)
| Stat (path : bytes)
| Time
| Getpid
| Geteuid
| Getegid
| Umask (mode : Z)
| Getrlimit
| Setsid
| Sigaction (sig : Z)
| Getopt
| Fstat (fd : Z)
| AioRead (slot fd off n : Z)
| AioWrite (slot fd off : Z) (data : bytes)
| AioError (slot : Z)
| AioReturn (slot : Z)
| AioSuspend (slots : list Z)
| AioFsync (slot fd : Z)
| Lstat (path : bytes)
| Opendir (path : bytes)
| Readdir (dir : Z)
| Closedir (dir : Z)
| Ioctl_arp (fd ip : Z) (dev : bytes)
| Sendto (fd ip port : Z)
| Sleep (seconds : Z)
| Pcap_lookupdev
| Libnet_init (dev : bytes)
| Libnet_name2addr (name : bytes)
| Libnet_get_hwaddr
| Libnet_arp (op : Z) (sha : bytes) (spa : Z) (tha : bytes) (tpa : Z)
| Libnet_ethernet (dst src : bytes) (type : Z)
| Libnet_write
| Libnet_clear
| Openpt
| Grantpt (fd : Z)
| Unlockpt (fd : Z)
| Ptsname (fd : Z)
| Isatty (fd : Z)
| Tcgetattr (fd : Z)
| Tcsetattr (fd : Z) (flags : list Z)
| Getwinsz (fd : Z)
| Setwinsz (fd : Z) (size : list Z)
| Tty_raw (fd : Z)
| Atexit
| Execvp (argv : list bytes)
| Kill (pid sig : Z)
| Getppid
| SocketIn (family type protocol : Z)
| Getaddrinfo (host service : bytes) (type : Z)
| Sysconf
| Gethostname (n : Z)
| Set_cloexec (fd : Z)
| Recv (fd n : Z)
| Send (fd : Z) (data : bytes)
| Recvfrom (fd n : Z)
| Send_to (fd : Z) (data : bytes) (to : sockaddr)
| Popen (command mode : bytes)
| Fgets_from (fp n : Z)
| Pclose (fp : Z)
| Waitpid (pid : Z)
| Alarm (seconds : Z)
| Clock_gettime
| Clock_nanosleep (sec nsec : Z)
| Pthread_attr_init
| Pthread_attr_setdetachstate
| Pthread_attr_destroy
| Pthread_create (fn arg : Z)
| Pthread_mutexattr_init
| Pthread_mutexattr_settype (kind : Z)
| Pthread_mutex_init
| Pthread_mutex_lock
| Pthread_mutex_unlock
| Poll (fds : list Z)
| Getcwd (n : Z)
| Scanf
| Ssl_init
| Ssl_ctx_new (server : bool)
| Ssl_load_verify (path : bytes)
| Ssl_set_verify (mode : Z)
| Ssl_use_certificate (path : bytes)
| Ssl_passwd (text : bytes)
| Ssl_use_key (path : bytes)
| Ssl_check_key
| Ssl_new
| Ssl_set_fd (ssl fd : Z)
| Ssl_accept (ssl : Z)
| Ssl_connect (ssl : Z)
| Ssl_get_cipher (ssl : Z)
| Ssl_peer_certificate (ssl : Z)
| X509_subject (cert : Z)
| X509_issuer (cert : Z)
| X509_free (cert : Z)
| Ssl_verify_result (ssl : Z)
| Ssl_read (ssl n : Z)
| Ssl_write (ssl : Z) (data : bytes)
| Ssl_shutdown (ssl : Z)
| Ssl_free (ssl : Z)
| Ssl_ctx_free.

(** The fields of [struct stat] that the programs look at. *)
Record stat := St { st_mode : Z; st_uid : Z; st_atime : Z; st_ctime : Z; st_mtime : Z }.

(** What a call gives back: its result, [errno] when it failed, the bytes, the
    address and the file status it stored, the descriptors [select] reports
    (or [socketpair] makes, or [recvmsg] receives), and a number: the time left, a limit. *)
Record answer := Ans {
  a_ret : Z; a_errno : Z; a_data : bytes; a_addr : sockaddr;
  a_rd : list Z; a_wr : list Z; a_num : Z; a_stat : stat;
}.

Definition EINTR : Z := 4.
Definition ENOSPC : Z := 28.
Definition FD_SETSIZE : Z := 1024.
Definition STDIN_FILENO : Z := 0.
Definition STDOUT_FILENO : Z := 1.
Definition STDERR_FILENO : Z := 2.

(** A short form for the answers that are a number. *)
Definition no_stat : stat := St 0 0 0 0 0.
Definition number (n : Z) : answer := Ans n 0 [] (Addr 0 0) [] [] 0 no_stat.

Inductive event :=
| Called (c : call) (a : answer)
| Waiting (c : call) (* the script ended in this call *)
| Printed (text : bytes) (* on the standard output *)
| Perror (text : bytes) (* on the standard error, with the error's name *)
| Stderr (text : bytes)
| Openlog (ident : bytes)
| Syslog (priority : Z) (text : bytes).

Record proc (V : Type) := Proc {
  script : list answer;
  history : list event;
  errno : Z;
  vars : V; (* the program's own variables *)
}.
Arguments Proc {V} script history errno vars.
Arguments script {V} p.
Arguments history {V} p.
Arguments errno {V} p.
Arguments vars {V} p.

(** The status of a run that waits in a system call; exit statuses are bytes. *)
Definition WAITING : Z := -1.

(** The status of a process whose image [exec] has replaced. *)
Definition REPLACED : Z := -2.

(** Which answers the kernel may give to a call after a history. *)
Class Kernel := may : list event -> call -> answer -> bool.
Definition allowed `{Kernel} (c : call) (a : answer) : Prop := exists h, may h c a = true.

Section calls.
Context `{Kernel} {V : Type}.
Implicit Types s : proc V.

Definition record_event (e : event) (s : proc V) : proc V :=
  Proc (script s) (history s ++ [e]) (errno s) (vars s).
Definition answered (c : call) (a : answer) (rest : list answer) (s : proc V) : proc V :=
  Proc rest (history s ++ [Called c a])
    (if a_ret a <? 0 then a_errno a else errno s) (vars s).

Definition sys (c : call) : M (proc V) answer := fun s =>
  match script s with
  | a :: rest => if may (history s) c a then Ret a (answered c a rest s)
                 else Exit WAITING (record_event (Waiting c) s)
  | [] => Exit WAITING (record_event (Waiting c) s)
  end.

(** A call of which the program only looks at the result. *)
Definition sysret (c : call) : M (proc V) Z := a <- sys c ;; ret (a_ret a).
(** A call whose result is ignored. *)
Definition sys_ (c : call) : M (proc V) unit := _ <- sys c ;; ret tt.

Definition printf (text : bytes) : M (proc V) unit := modify (record_event (Printed text)).
Definition perror (text : bytes) : M (proc V) unit := modify (record_event (Perror text)).

Definition fputs_stderr (text : bytes) : M (proc V) unit := modify (record_event (Stderr text)).
Definition syslog (priority : Z) (text : bytes) : M (proc V) unit :=
  modify (record_event (Syslog priority text)).

Definition openlog (ident : bytes) : M (proc V) unit := modify (record_event (Openlog ident)).
Definition set_errno (e : Z) : M (proc V) unit :=
  modify (fun s => Proc (script s) (history s) e (vars s)).

Definition getvar {A} (f : V -> A) : M (proc V) A := gets (fun s => f (vars s)).
Definition setvars (f : V -> V) : M (proc V) unit :=
  modify (fun s => Proc (script s) (history s) (errno s) (f (vars s))).

(** [while (1)] around a body that makes a system call in every round: the
    script bounds the rounds that the environment's answers allow. *)
Definition forever {L R} (body : L -> M (proc V) (L + R)) (l : L) : M (proc V) R :=
  fun s => loop (S (length (script s))) body l s.

(** *** Rules *)

Lemma wp_sys_at c (Q : answer -> proc V -> Prop) X s :
  (forall a rest, script s = a :: rest -> may (history s) c a = true -> Q a (answered c a rest s)) ->
  X WAITING (record_event (Waiting c) s) ->
  wp (sys c) Q X s.
Proof.
  intros HQ HX. unfold wp, sys. destruct (script s) as [|a rest] eqn:E; [done|].
  destruct (may (history s) c a) eqn:Em; [by apply HQ|done].
Qed.

(** Where the history does not matter. *)
Lemma wp_sys c (Q : answer -> proc V -> Prop) X s :
  (forall a rest, script s = a :: rest -> allowed c a -> Q a (answered c a rest s)) ->
  X WAITING (record_event (Waiting c) s) ->
  wp (sys c) Q X s.
Proof.
  intros HQ HX. apply wp_sys_at; [|done]. intros a rest E Ha. apply HQ; [done|]. by exists (history s).
Qed.

(** A loop without end that keeps an invariant, every round of which consumes
    an answer. *)
Lemma wp_forever {L R} (I : L -> proc V -> Prop) (body : L -> M (proc V) (L + R))
  (Q : R -> proc V -> Prop) X l s :
  I l s ->
  (forall l s, I l s ->
     wp (body l) (fun r s' => match r with
                              | inl l' => I l' s' /\ (length (script s') < length (script s))%nat
                              | inr r => Q r s'
                              end) X s) ->
  wp (forever body l) Q X s.
Proof.
  intros HI Hbody. apply (wp_loop I (fun _ s => length (script s))); [done|lia|done].
Qed.
End calls.

(** ** Histories that grow by events of a kind *)

Section grows.
Context `{Kernel} {V : Type} (P : event -> Prop).
Implicit Types s : proc V.

Record grows s0 s : Prop := {
  gr_history : exists h, history s = history s0 ++ h /\ Forall P h;
  gr_script : (length (script s) <= length (script s0))%nat;
}.

#[export] Instance grows_preorder : PreOrder grows.
Proof.
  split; [intros s; split; [exists []; by rewrite app_nil_r|done]|].
  intros s1 s2 s3 [(h & E & F) L] [(h' & E' & F') L']. split; [|lia].
  exists (h ++ h'). rewrite E', E, app_assoc. split; [done|by apply Forall_app].
Qed.

Lemma grows_event s0 s e : grows s0 s -> P e -> grows s0 (record_event e s).
Proof.
  intros [(h & E & F) L] He. split; [|done]. exists (h ++ [e]). simpl. rewrite E, app_assoc. split; [done|].
  apply Forall_app. by split; [|constructor].
Qed.

(** Variables and [errno] do not matter. *)
Lemma grows_same s0 s s' : grows s0 s -> script s' = script s -> history s' = history s -> grows s0 s'.
Proof. intros [(h & E & F) L] Es Eh. split; [exists h; by rewrite Eh|by rewrite Es]. Qed.

Lemma grows_elem s0 s e : grows s0 s -> e ∈ history s0 -> e ∈ history s.
Proof. intros [(h & E & _) _] He. rewrite E. apply elem_of_app. by left. Qed.

Lemma wp_sys_grows s0 c (Q : answer -> proc V -> Prop) X s : grows s0 s ->
  (forall a, allowed c a -> P (Called c a)) -> P (Waiting c) ->
  (forall a s', allowed c a -> grows s0 s' -> vars s' = vars s -> Called c a ∈ history s' ->
     (length (script s') < length (script s))%nat -> Q a s') ->
  (forall s', grows s0 s' -> X WAITING s') ->
  wp (sys c) Q X s.
Proof.
  intros Hs Hc Hw HQ HX. apply wp_sys.
  - intros a rest E Ha. apply HQ; [done| |done|simpl; set_solver|simpl; rewrite E; simpl; lia].
    apply (grows_same _ (record_event (Called c a) (Proc rest (history s) (errno s) (vars s)))); [|done|done].
    apply grows_event; [|by apply Hc]. destruct Hs as [Hh L]. split; [done|]. rewrite E in L. simpl in *. lia.
  - apply HX. by apply grows_event.
Qed.

Lemma wp_sysret_grows s0 c (Q : Z -> proc V -> Prop) X s : grows s0 s ->
  (forall a, allowed c a -> P (Called c a)) -> P (Waiting c) ->
  (forall a s', allowed c a -> grows s0 s' -> vars s' = vars s -> Called c a ∈ history s' -> Q (a_ret a) s') ->
  (forall s', grows s0 s' -> X WAITING s') ->
  wp (sysret c) Q X s.
Proof. intros. apply wp_bind, (wp_sys_grows s0); [done..| |done]. intros. apply wp_ret. eauto. Qed.

Lemma wp_sys__grows s0 c (Q : unit -> proc V -> Prop) X s : grows s0 s ->
  (forall a, allowed c a -> P (Called c a)) -> P (Waiting c) ->
  (forall s', grows s0 s' -> vars s' = vars s -> Q tt s') ->
  (forall s', grows s0 s' -> X WAITING s') ->
  wp (sys_ c) Q X s.
Proof. intros. apply wp_bind, (wp_sys_grows s0); [done..| |done]. intros. apply wp_ret. eauto. Qed.
End grows.

(** ** What a history says *)

(** The bytes read from a descriptor, and written to it. *)
Definition read_by (fd : Z) (e : event) : bytes :=
  match e with
  | Called (Read fd' _) a => if (fd' =? fd) && (0 <? a_ret a) then a_data a else []
  | _ => []
  end.
Definition written_by (fd : Z) (e : event) : bytes :=
  match e with
  | Called (Write fd' data) a =>
      if (fd' =? fd) && (0 <? a_ret a) then take (Z.to_nat (a_ret a)) data else []
  | _ => []
  end.
Definition bytes_read (fd : Z) (h : list event) : bytes := concat (map (read_by fd) h).
Definition bytes_written (fd : Z) (h : list event) : bytes := concat (map (written_by fd) h).

(** The descriptors open after a history: those that [socket], [accept],
    [open] and [dup] returned, less those closed. *)
Definition fd_step (open : list Z) (e : event) : list Z :=
  match e with
  | Called (Socket | Accept _ | Open _ _ | Dup _) a => if a_ret a <? 0 then open else a_ret a :: open
  | Called (Close fd) _ => filter (fun x => x <> fd) open
  | _ => open
  end.
Definition open_fds (h : list event) : list Z := fold_left fd_step h [].

(** The calls that were made. *)
Definition calls (h : list event) : list call :=
  omap (fun e => match e with Called c _ => Some c | _ => None end) h.

Lemma calls_app h h' : calls (h ++ h') = calls h ++ calls h'.
Proof. apply omap_app. Qed.

(** What was printed on the standard output. *)
Definition printed_by (e : event) : bytes :=
  match e with Printed t => t | _ => [] end.
Definition output (h : list event) : bytes := concat (map printed_by h).

Lemma bytes_read_app fd h h' : bytes_read fd (h ++ h') = bytes_read fd h ++ bytes_read fd h'.
Proof. unfold bytes_read. by rewrite map_app, concat_app. Qed.

Lemma bytes_written_app fd h h' :
  bytes_written fd (h ++ h') = bytes_written fd h ++ bytes_written fd h'.
Proof. unfold bytes_written. by rewrite map_app, concat_app. Qed.

Lemma bytes_read_snoc fd h e : bytes_read fd (h ++ [e]) = bytes_read fd h ++ read_by fd e.
Proof. rewrite bytes_read_app. unfold bytes_read at 2. simpl. by rewrite app_nil_r. Qed.

Lemma bytes_written_snoc fd h e :
  bytes_written fd (h ++ [e]) = bytes_written fd h ++ written_by fd e.
Proof. rewrite bytes_written_app. unfold bytes_written at 2. simpl. by rewrite app_nil_r. Qed.

Lemma filter_not_in (x : Z) (l : list Z) : x ∉ l -> filter (fun y => y <> x) l = l.
Proof.
  induction l as [|y l IH]; intros Hx; [done|]. rewrite filter_cons_True by set_solver.
  f_equal. apply IH. set_solver.
Qed.

Lemma open_fds_snoc h e : open_fds (h ++ [e]) = fd_step (open_fds h) e.
Proof. unfold open_fds. by rewrite fold_left_app. Qed.

Lemma output_snoc h e : output (h ++ [e]) = output h ++ printed_by e.
Proof. unfold output. rewrite map_app, concat_app. simpl. by rewrite app_nil_r. Qed.

(** ** What POSIX documents *)

Section posix.
Context `{Kernel}.

(** [read] fails, reports the end of the file or stores at most [n] bytes. *)
Definition posix_read : Prop := forall fd n a, allowed (Read fd n) a ->
  a_ret a = -1 \/ 0 <= a_ret a <= n /\ Zlen (a_data a) = a_ret a.
(** [write] fails or takes a part of the data, not empty when the data is not. *)
Definition posix_write : Prop := forall fd data a, allowed (Write fd data) a ->
  a_ret a = -1 \/ (0 < Zlen data -> 0 < a_ret a) /\ 0 <= a_ret a <= Zlen data.
(** No call is interrupted by a signal handler that returns. *)
Definition no_eintr : Prop := forall c a, allowed c a -> a_ret a < 0 -> a_errno a <> EINTR.
(** [select] reports only descriptors it was asked about, below [nfds]. *)
Definition posix_select : Prop := forall nfds rd wr t a,
  allowed (Select nfds rd wr t) a ->
  Forall (fun x => x ∈ rd /\ x < nfds) (a_rd a) /\ Forall (fun x => x ∈ wr /\ x < nfds) (a_wr a).
(** [socket] and [accept] fail with -1 or give a descriptor that is none of the
    three standard streams. *)
Definition posix_fd : Prop := forall c a, allowed c a ->
  (c = Socket \/ exists fd, c = Accept fd) -> a_ret a = -1 \/ 3 <= a_ret a < FD_SETSIZE.
(** Their descriptors are new. *)
Definition creates (c : call) : bool :=
  match c with Socket | Accept _ | Open _ _ => true | _ => false end.
Definition posix_fresh : Prop := forall h c a, may h c a = true ->
  creates c = true -> 0 <= a_ret a -> a_ret a ∉ open_fds h.

(** The same of messages. *)
Definition posix_sendmsg : Prop := forall fd d r c a, allowed (Sendmsg fd d r c) a ->
  a_ret a = -1 \/ 0 <= a_ret a <= Zlen d.
Definition posix_recvmsg : Prop := forall fd n a, allowed (Recvmsg fd n) a ->
  a_ret a = -1 \/ 0 <= a_ret a <= n /\ Zlen (a_data a) = a_ret a.
End posix.

(** A kernel that gives every answer that these allow. *)
Definition linux : Kernel := fun h c a =>
  ((0 <=? a_ret a) || negb (a_errno a =? EINTR)) &&
  match c with
  | Read _ n | Recvmsg _ n => (a_ret a =? -1) || ((0 <=? a_ret a) && (a_ret a <=? n) && (Zlen (a_data a) =? a_ret a))
  | Write _ data => (a_ret a =? -1) || ((Zlen data =? 0) && (a_ret a =? 0))
                    || ((0 <? a_ret a) && (a_ret a <=? Zlen data))
  | Sendmsg _ data _ _ => (a_ret a =? -1) || ((0 <=? a_ret a) && (a_ret a <=? Zlen data))
  | Select nfds rd wr _ =>
      forallb (fun x => bool_decide (x ∈ rd) && (x <? nfds)) (a_rd a) &&
      forallb (fun x => bool_decide (x ∈ wr) && (x <? nfds)) (a_wr a)
  | Socket | Accept _ => (a_ret a =? -1) || ((3 <=? a_ret a) && (a_ret a <? FD_SETSIZE) && bool_decide (a_ret a ∉ open_fds h))
  | Open _ _ => (a_ret a =? -1) || ((0 <=? a_ret a) && bool_decide (a_ret a ∉ open_fds h))
  | _ => true
  end.

Section linux_laws.
#[local] Existing Instance linux.

Lemma linux_read : posix_read.
Proof.
  intros fd n a [h Ha]. unfold may, linux in Ha. pose proof (Zlen_nonneg (a_data a)). lia.
Qed.

Lemma linux_write : posix_write.
Proof. intros fd d a [h Ha]. unfold may, linux in Ha. pose proof (Zlen_nonneg d). lia. Qed.

Lemma linux_fresh : posix_fresh.
Proof.
  intros h c a Ha Hc Hr. unfold may, linux in Ha.
  destruct (bool_decide_reflect (a_ret a ∉ open_fds h)); [done|].
  destruct c; try done; rewrite ?andb_false_r, ?orb_false_r in Ha; lia.
Qed.

Lemma linux_sendmsg : posix_sendmsg.
Proof. intros fd d r c a [h Ha]. unfold may, linux in Ha. lia. Qed.

Lemma linux_recvmsg : posix_recvmsg.
Proof. intros fd n a [h Ha]. unfold may, linux in Ha. pose proof (Zlen_nonneg (a_data a)). lia. Qed.

Lemma linux_no_eintr : no_eintr.
Proof. intros c a [h Ha] Hr. unfold may, linux in Ha. lia. Qed.

Lemma linux_select : posix_select.
Proof.
  intros nfds rd wr t a [h Ha]. unfold may, linux in Ha.
  apply andb_prop in Ha as [_ [Hrd Hwr]%andb_prop]. rewrite forallb_forall in Hrd, Hwr.
  split; apply Forall_forall; intros x Hx; apply list_elem_of_In in Hx.
  - specialize (Hrd x Hx). rewrite andb_true_iff, bool_decide_eq_true in Hrd.
    destruct Hrd. split; [done|lia].
  - specialize (Hwr x Hx). rewrite andb_true_iff, bool_decide_eq_true in Hwr.
    destruct Hwr. split; [done|lia].
Qed.

Lemma linux_fd : posix_fd.
Proof. intros c a [h Ha] [->|[fd ->]]; unfold may, linux in Ha; lia. Qed.
End linux_laws.
