(* ===== verification/Lcx.v ===== *)
(** Lcx: the port forwarder network/lcx/lcx.c. [main] reads the command line and
    calls one of three drivers that pair up connections and fork a child for
    each pair; [transdata] relays the data of a pair in both directions. The
    only global variable is the log file. The text that [usage] prints is kept,
    the output of the DEBUG build is not. *)
From stdpp Require Import sets list strings.
From S2P Require Import Prelude Arrays Bytes Sys.

Definition VERSION : bytes := B "2.2".
Definition TIMEOUT : Z := 300.
Definition MAXSIZE : Z := 10240.
Definition HOSTLEN : Z := 40.
Definition CONNECT_NUMBER : Z := 5.
Inductive method := NOMETHOD | LISTEN | SLAVE | TRAN.

(** The ends of the lines: newline, and carriage return and newline. *)
Definition LF : bytes := [10].
Definition CRLF : bytes := [13; 10].

(** [fp]: the descriptor of the log file, if there is one. *)
Notation st := (proc (option Z)).

Section lcx.
Context `{Kernel} (strerror : Z -> bytes).

(** ** Buffers *)

Definition zeros (n : Z) : bytes := replicate (Z.to_nat n) 0.

(** [memcpy (dst + off, src, n)]: the converted size must fit both arrays. *)
Definition memcpy (dst : bytes) (off : Z) (src : bytes) (n : Z) : M st bytes :=
  guard_ok ((0 <=? n) && (n <=? Zlen src) && (0 <=? off) && (off + n <=? Zlen dst)) ;;
  ret (seg dst 0 off ++ seg src 0 n ++ seg dst (off + n) (Zlen dst)).

(** [strcpy]: the text and its terminator must fit an array of [size]. *)
Definition strcpy (size : Z) (text : bytes) : M st bytes :=
  guard_ok (Zlen text <? size) ;; ret text.

(** ** The log and the sockets *)

(** [write] reads [length] bytes of the buffer. *)
Definition makelog (buffer : bytes) (length : Z) : M st unit :=
  fp <- getvar (fun fp => fp) ;;
  match fp with
  | Some f => guard_ok ((0 <=? length) && (length <=? Zlen buffer)) ;;
              sys_ (Write f (seg buffer 0 length))
  | None => ret tt
  end.

Definition closeallfd {A} (n : Z) : M st A :=
  printf (B "Let me exit...") ;;
  loop 254 (fun i => if i <? 256 then sys_ (Close i) ;; ret (inl (i + 1)) else ret (inr tt)) 3 ;;
  fp <- getvar (fun fp => fp) ;;
  match fp with
  | Some f => sys_ (Write f (B "exited" ++ CRLF)) ;; sys_ (Fclose f)
  | None => ret tt
  end ;;
  printf (B "all overd" ++ CRLF) ;;
  exit_ 0.

Definition create_socket : M st Z :=
  sockfd <- sysret Socket ;;
  if sockfd <? 0 then perror (B "create socket error") ;; ret 0 else ret sockfd.

(** [htons] takes the port modulo 2^16. *)
Definition create_serv (sockfd port : Z) : M st Z :=
  let srvaddr := Addr INADDR_ANY (port mod 2 ^ 16) in
  sys_ (Setsockopt sockfd) ;;
  r <- sysret (Bind sockfd srvaddr) ;;
  if r <? 0 then perror (B "error") ;; ret 0
  else r <- sysret (Sys.Listen sockfd CONNECT_NUMBER) ;;
       if r <? 0 then perror (B "listen error" ++ LF) ;; ret 0 else ret 1.

(** The answer to [gethostbyname] is 0 for a null pointer. *)
Definition client_connect (sockfd : Z) (server : bytes) (port : Z) : M st Z :=
  host <- sys (Gethostbyname server) ;;
  if a_ret host =? 0 then
    e <- gets errno ;;
    printf (B "gethostbyname(" ++ server ++ B ") error:" ++ strerror e ++ LF) ;; ret 0
  else let cliaddr := Addr (s_addr (a_addr host)) (port mod 2 ^ 16) in
       r <- sysret (Connect sockfd cliaddr) ;;
       if r <? 0 then perror (B "error") ;; ret 0 else ret 1.

(** [inet_ntoa]: dotted decimal. *)
Definition inet_ntoa (a : Z) : bytes :=
  dec (a / 2 ^ 24 mod 2 ^ 8) ++ B "." ++ dec (a / 2 ^ 16 mod 2 ^ 8) ++ B "." ++
  dec (a / 2 ^ 8 mod 2 ^ 8) ++ B "." ++ dec (a mod 2 ^ 8).

(** ** transdata *)

(** One direction: [read_in1], [send_out1] and [totalread1], or their
    counterparts for the other. *)
Record half := Half { read_in : bytes; send_out : bytes; totalread : Z }.

(** The first half of a round for a readable [fd]; [None] leaves the loop. *)
Definition take_in (fd : Z) (tmpbuf : bytes) (h : half) : M st (option half) :=
  if totalread h <? MAXSIZE then
    a <- sys (Read fd (MAXSIZE - totalread h)) ;;
    let n := a_ret a in
    e <- gets errno ;;
    if n =? 0 then ret None
    else if (n <? 0) && negb (e =? EINTR) then perror (B "read data error") ;; ret None
    else
      rd <- memcpy (read_in h) 0 (a_data a) (Z.max n 0) ;;
      out <- memcpy (send_out h) (totalread h) rd n ;;
      makelog tmpbuf (Zlen tmpbuf) ;;
      makelog rd n ;;
      ret (Some (Half (zeros MAXSIZE) out (totalread h + n)))
  else ret (Some h).

(** The inner loop writes until nothing is left; the locals are [sendcount] and
    [totalread], the result also tells an error. *)
Definition send_all (fd : Z) (buf : bytes) (total : Z) : M st (Z * Z * bool) :=
  forever (fun '(sendcount, total) =>
    if 0 <? total then
      guard_ok ((0 <=? sendcount) && (sendcount + total <=? Zlen buf)) ;;
      n <- sysret (Write fd (seg buf sendcount (sendcount + total))) ;;
      e <- gets errno ;;
      if n =? 0 then ret (inr (sendcount, total, false))
      else if (n <? 0) && negb (e =? EINTR) then
        perror (B "unknow error") ;; ret (inr (sendcount, total, true))
      else if (n <? 0) && (e =? ENOSPC) then ret (inr (sendcount, total, false))
      else ret (inl (sendcount + n, total - n))
    else ret (inr (sendcount, total, false))) (0, total).

(** The second half of a round for a writable [fd]. [memcpy] is only defined
    when the two regions do not overlap. *)
Definition send_out_ (fd : Z) (h : half) : M st (option half) :=
  let! (sendcount, total, err) := send_all fd (send_out h) (totalread h) in
  if err then ret None
  else if (0 <? total) && (0 <? sendcount) then
    guard_ok (total <=? sendcount) ;;
    out <- memcpy (send_out h) 0 (seg (send_out h) sendcount (sendcount + total)) total ;;
    out <- memcpy out total (zeros MAXSIZE) (MAXSIZE - total) ;;
    ret (Some (Half (read_in h) out total))
  else ret (Some (Half (read_in h) (zeros MAXSIZE) total)).

(** The address of a peer for the log: its name and its port. *)
Definition peer (fd : Z) (fallback : bytes) : M st (bytes * Z) :=
  a <- sys (Getpeername fd) ;;
  if a_ret a <? 0 then ret (fallback, 0)
  else
    printf (B "got, ip:" ++ inet_ntoa (s_addr (a_addr a)) ++ B ", port:"
              ++ dec (s_port (a_addr a) mod 2 ^ 16) ++ CRLF) ;;
    host <- strcpy 20 (inet_ntoa (s_addr (a_addr a))) ;;
    ret (host, s_port (a_addr a) mod 2 ^ 16).

Definition banner (what host : bytes) (port : Z) : M st bytes :=
  strcpy 100 (CRLF ++ B "########### " ++ what ++ B " from " ++ host ++ B ":" ++ dec port
                ++ B " ####################" ++ CRLF).

Definition transdata_names (fd1 fd2 : Z) : M st (bytes * bytes) :=
  fp <- getvar (fun fp => fp) ;;
  match fp with
  | Some _ =>
      let! (host1, port1) := peer fd1 (B "fd1") in
      let! (host2, port2) := peer fd2 (B "fd2") in
      tmpbuf1 <- banner (B "read") host1 port1 ;;
      tmpbuf2 <- banner (B "reply") host2 port2 ;;
      ret (tmpbuf1, tmpbuf2)
  | None => ret ([], [])
  end.

(** The macro [max(a,b)] is not parenthesised: [max(fd1, fd2) + 1] adds only to
    its last branch. *)
Definition maxfd (fd1 fd2 : Z) : Z := if fd1 >? fd2 then fd1 else fd2 + 1.

(** The descriptors that [FD_ISSET] finds: [select] leaves the sets alone when
    it fails. [FD_SET] is only defined below [FD_SETSIZE]. *)
Definition fd_isset (fd : Z) (asked reported : list Z) (result : Z) : bool :=
  bool_decide (fd ∈ if result <? 0 then asked else reported).

(** Run a half when its descriptor is ready. *)
Definition if_set (ready : bool) (m : half -> M st (option half)) (h : half) : M st (option half) :=
  if ready then m h else ret (Some h).

(** One round of the loop; the locals are the two directions and the timeout,
    which [select] counts down. *)
Definition transdata_round (fd1 fd2 : Z) (tmpbuf1 tmpbuf2 : bytes) (l : half * half * Z)
  : M st (half * half * Z + unit) :=
  let '(h1, h2, timeset) := l in
  guard_ok ((0 <=? fd1) && (fd1 <? FD_SETSIZE) && (0 <=? fd2) && (fd2 <? FD_SETSIZE)) ;;
  a <- sys (Select (maxfd fd1 fd2) [fd1; fd2] [fd1; fd2] timeset) ;;
  e <- gets errno ;;
  if (a_ret a <? 0) && negb (e =? EINTR) then perror (B "select error") ;; ret (inr tt)
  else if a_ret a =? 0 then printf (B "time out" ++ LF) ;; ret (inr tt)
  else
    let rd fd := fd_isset fd [fd1; fd2] (a_rd a) (a_ret a) in
    let wr fd := fd_isset fd [fd1; fd2] (a_wr a) (a_ret a) in
    r <- if_set (rd fd1) (take_in fd1 tmpbuf1) h1 ;;
    match r with None => ret (inr tt) | Some h1 =>
    r <- if_set (wr fd2) (send_out_ fd2) h1 ;;
    match r with None => ret (inr tt) | Some h1 =>
    r <- if_set (rd fd2) (take_in fd2 tmpbuf2) h2 ;;
    match r with None => ret (inr tt) | Some h2 =>
    r <- if_set (wr fd1) (send_out_ fd1) h2 ;;
    match r with None => ret (inr tt) | Some h2 =>
    ret (inl (h1, h2, a_num a))
    end end end end.

Definition empty_half : half := Half (zeros MAXSIZE) (zeros MAXSIZE) 0.

(** It never returns: the child that runs it ends here. *)
Definition transdata {A} (fd1 fd2 : Z) : M st A :=
  let! (tmpbuf1, tmpbuf2) := transdata_names fd1 fd2 in
  forever (transdata_round fd1 fd2 tmpbuf1 tmpbuf2) (empty_half, empty_half, TIMEOUT) ;;
  sys_ (Close fd1) ;;
  sys_ (Close fd2) ;;
  printf (B "ok, I have closed the two fd" ++ CRLF) ;;
  exit_ 0.

(** ** The drivers *)

Definition text_port (host : bytes) (port : Z) : bytes := host ++ B ":" ++ dec port.

(** -tran: accept a client and connect it to the other host. *)
Definition bind2conn_round (sockfd : Z) (host : bytes) (port2 : Z) : M st unit :=
  printf (B "waiting for response........." ++ LF) ;;
  a <- sys (Accept sockfd) ;;
  let sockfd1 := a_ret a in
  let remote := a_addr a in
  if sockfd1 <? 0 then perror (B "accept error" ++ LF)
  else
    printf (B "accept a client from " ++ text_port (inet_ntoa (s_addr remote)) (s_port remote mod 2 ^ 16) ++ LF) ;;
    sockfd2 <- create_socket ;;
    if sockfd2 =? 0 then sys_ (Close sockfd1)
    else
      printf (B "make a connection to " ++ text_port host port2 ++ B "....") ;;
      r <- client_connect sockfd2 host port2 ;;
      if r =? 0 then
        sys_ (Close sockfd2) ;;
        buffer <- strcpy 1024 (B "[SERVER]connection to " ++ text_port host port2 ++ B " error" ++ CRLF) ;;
        sys_ (Write sockfd1 buffer) ;;
        sys_ (Close sockfd1)
      else
        printf (B "ok" ++ CRLF) ;;
        pid <- sysret Fork ;;
        (when pid =? 0 do transdata sockfd1 sockfd2) ;;
        sys_ (Close sockfd1) ;;
        sys_ (Close sockfd2).

Definition bind2conn (port1 : Z) (host : bytes) (port2 : Z) : M st unit :=
  sockfd <- create_socket ;;
  if sockfd =? 0 then exit_ 0
  else
    r <- create_serv sockfd port1 ;;
    if r =? 0 then sys_ (Close sockfd) ;; exit_ 0
    else forever (fun _ => bind2conn_round sockfd host port2 ;; ret (inl tt)) tt.

(** -listen: accept a client on each of two ports. *)
Definition bind2bind_round (fd1 fd2 port1 port2 : Z) : M st unit :=
  printf (B "waiting for response on port " ++ dec port1 ++ B "........." ++ LF) ;;
  a1 <- sys (Accept fd1) ;;
  let sockfd1 := a_ret a1 in
  if sockfd1 <? 0 then perror (B "accept1 error")
  else
    printf (B "accept a client on port " ++ dec port1 ++ B " from " ++ inet_ntoa (s_addr (a_addr a1))
            ++ B ",waiting another on port " ++ dec port2 ++ B "...." ++ LF) ;;
    a2 <- sys (Accept fd2) ;;
    let sockfd2 := a_ret a2 in
    if sockfd2 <? 0 then perror (B "accept2 error") ;; sys_ (Close sockfd1)
    else
      printf (B "accept a client on port " ++ dec port2 ++ B " from " ++ inet_ntoa (s_addr (a_addr a2)) ++ LF) ;;
      pid <- sysret Fork ;;
      (when pid =? 0 do transdata sockfd1 sockfd2) ;;
      sys_ (Close sockfd1) ;;
      sys_ (Close sockfd2).

Definition bind2bind (port1 port2 : Z) : M st unit :=
  fd1 <- create_socket ;;
  if fd1 =? 0 then exit_ 0 else
  fd2 <- create_socket ;;
  if fd2 =? 0 then exit_ 0 else
  printf (B "binding port " ++ dec port1 ++ B "......") ;;
  r <- create_serv fd1 port1 ;;
  if r =? 0 then sys_ (Close fd1) ;; exit_ 0 else
  printf (B "ok" ++ CRLF) ;;
  printf (B "binding port " ++ dec port2 ++ B "......") ;;
  r <- create_serv fd2 port2 ;;
  if r =? 0 then sys_ (Close fd2) ;; exit_ 0 else
  printf (B "ok" ++ CRLF) ;;
  forever (fun _ => bind2bind_round fd1 fd2 port1 port2 ;; ret (inl tt)) tt.

(** -slave: connect to two hosts, again and again; [inr] is the [break]. *)
Definition conn2conn_round (host1 : bytes) (port1 : Z) (host2 : bytes) (port2 : Z) : M st (unit + unit) :=
  sockfd1 <- create_socket ;;
  if sockfd1 =? 0 then exit_ 0 else
  sockfd2 <- create_socket ;;
  if sockfd2 =? 0 then exit_ 0 else
  printf (B "make a connection to " ++ text_port host1 port1 ++ B "....") ;;
  r <- client_connect sockfd1 host1 port1 ;;
  if r =? 0 then sys_ (Close sockfd1) ;; sys_ (Close sockfd2) ;; ret (inr tt) else
  printf (B "ok" ++ CRLF) ;;
  printf (B "make a connection to " ++ text_port host2 port2 ++ B "....") ;;
  r <- client_connect sockfd2 host2 port2 ;;
  if r =? 0 then sys_ (Close sockfd1) ;; sys_ (Close sockfd2) ;; ret (inr tt) else
  printf (B "ok" ++ CRLF) ;;
  pid <- sysret Fork ;;
  (when pid =? 0 do transdata sockfd1 sockfd2) ;;
  sys_ (Close sockfd1) ;;
  sys_ (Close sockfd2) ;;
  ret (inl tt).

Definition conn2conn (host1 : bytes) (port1 : Z) (host2 : bytes) (port2 : Z) : M st unit :=
  forever (fun _ => conn2conn_round host1 port1 host2 port2) tt.

(** ** The command line *)

(** [argv[i]]: the strings, a null pointer after them and nothing beyond. *)
Definition arg (argv : list bytes) (i : Z) : M st (option bytes) :=
  if (0 <=? i) && (i <? Zlen argv) then ret (Some (aget argv i))
  else if i =? Zlen argv then ret None else ub.
Definition string_at (argv : list bytes) (i : Z) : M st bytes :=
  a <- arg argv i ;; match a with Some s => ret s | None => ub end.

Definition testifisvalue (str : option bytes) : Z :=
  match str with
  | None => 0
  | Some (45 :: _) => 0
  | Some _ => 1
  end.

(** The locals of [main]; a host is its array of [HOSTLEN] bytes. *)
Record args := Args {
  host1 : bytes; host2 : bytes; port1 : Z; port2 : Z; meth : method; logfile : option bytes;
}.
Definition no_args : args := Args (zeros HOSTLEN) (zeros HOSTLEN) 0 0 NOMETHOD None.
Definition set_host1 v a := Args v (host2 a) (port1 a) (port2 a) (meth a) (logfile a).
Definition set_host2 v a := Args (host1 a) v (port1 a) (port2 a) (meth a) (logfile a).
Definition set_port1 v a := Args (host1 a) (host2 a) v (port2 a) (meth a) (logfile a).
Definition set_port2 v a := Args (host1 a) (host2 a) (port1 a) v (meth a) (logfile a).
Definition set_meth v a := Args (host1 a) (host2 a) (port1 a) (port2 a) v (logfile a).
Definition set_logfile v a := Args (host1 a) (host2 a) (port1 a) (port2 a) (meth a) (Some v).

(** When the argument [k] places on is a value, take the next one as a port. *)
Definition port_arg (argv : list bytes) (k : Z) (set : Z -> args -> args) (pa : Z * args)
  : M st (Z * args) :=
  let '(p, a) := pa in
  v <- arg argv (p + k) ;;
  if testifisvalue v =? 1 then
    s <- string_at argv (p + 1) ;; n <- int32 (atol s) ;; ret (p + 1, set n a)
  else ret pa.

(** The same for a host: [strncpy] of at most [HOSTLEN - 1] bytes, without a
    terminator, over what the array holds. *)
Definition host_arg (argv : list bytes) (k : Z) (get : args -> bytes) (set : bytes -> args -> args)
  (pa : Z * args) : M st (Z * args) :=
  let '(p, a) := pa in
  v <- arg argv (p + k) ;;
  if testifisvalue v =? 1 then
    s <- string_at argv (p + 1) ;;
    let length := if Zlen s >? HOSTLEN - 1 then HOSTLEN - 1 else Zlen s in
    h <- memcpy (get a) 0 s length ;;
    ret (p + 1, set h a)
  else ret pa.

(** One round over the arguments; [None]: [-v] returns from [main]. *)
Definition parse_step (argv : list bytes) (pa : Z * args) : M st (Z * args + option args) :=
  let '(p, a) := pa in
  v <- arg argv p ;;
  match v with
  | None => ret (inr (Some a))
  | Some s =>
    if decide (s = B "-v") then
      printf (B "Socket data transport tool." ++ CRLF ++ B "Version:" ++ VERSION ++ CRLF) ;;
      ret (inr None)
    else if decide (s = B "-listen") then
      pa <- port_arg argv 1 set_port1 (p, set_meth LISTEN a) ;;
      let! (p, a) := port_arg argv 1 set_port2 pa in
      ret (inl (p + 1, a))
    else if decide (s = B "-slave") then
      pa <- host_arg argv 1 host1 set_host1 (p, set_meth SLAVE a) ;;
      pa <- port_arg argv 1 set_port1 pa ;;
      pa <- host_arg argv 1 host2 set_host2 pa ;;
      let! (p, a) := port_arg argv 1 set_port2 pa in
      ret (inl (p + 1, a))
    else if decide (s = B "-tran") then
      pa <- port_arg argv 1 set_port1 (p, set_meth TRAN a) ;;
      pa <- host_arg argv 2 host2 set_host2 pa ;;
      let! (p, a) := port_arg argv 3 set_port2 pa in
      ret (inl (p + 1, a))
    else if decide (s = B "-log") then
      v <- arg argv (p + 1) ;;
      if testifisvalue v =? 1 then
        f <- string_at argv (p + 1) ;; ret (inl (p + 2, set_logfile f a))
      else printf (B "[ERROR]:must supply logfile name" ++ CRLF) ;; exit_ 0
    else ret (inl (p + 1, a))
  end.

Definition parse (argv : list bytes) : M st (option args) :=
  loop (S (length argv)) (parse_step argv) (0, no_args).

Definition usage {A} (s : bytes) : M st A :=
  printf (B "Socket data transport tool" ++ CRLF) ;;
  printf (B "by bkbll(bkbll@cnhonker.net)" ++ CRLF ++ CRLF) ;;
  printf (B " -slave: connect to HOST1:PORT1 and HOST2:PORT2" ++ CRLF) ;;
  printf (B " -listen: listen on PORT1 and PORT2" ++ CRLF) ;;
  printf (B " -tran: listen on PORT1 and connect to HOST2:PORT2" ++ CRLF) ;;
  printf (B " -v: version" ++ CRLF) ;;
  printf (B " -log: log the data" ++ CRLF) ;;
  let tab := [32; 9] in
  printf (tab ++ B "Usage:" ++ s ++ B " -slave host1 port1 host2 port2 [-log filename]" ++ CRLF) ;;
  printf (tab ++ B "Usage:" ++ s ++ B " -listen port1 port2 [-log filename]" ++ CRLF) ;;
  printf (tab ++ B "Usage:" ++ s ++ B " -tran port1 host2 port2 [-log filename]" ++ CRLF) ;;
  printf (tab ++ B "Usage:" ++ s ++ B " -v" ++ CRLF) ;;
  closeallfd 0.

Definition must_supply (what : bytes) : M st unit :=
  printf (B "[ERROR]:must supply " ++ what ++ B "." ++ CRLF).

(** The [switch] over the method. *)
Definition dispatch (argv : list bytes) (a : args) : M st unit :=
  let no_port := (port1 a =? 0) || (port2 a =? 0) in
  match meth a with
  | LISTEN =>
      if no_port then must_supply (B "PORT1 and PORT2") else bind2bind (port1 a) (port2 a)
  | SLAVE =>
      if no_port then must_supply (B "PORT1 and PORT2")
      else if Zlen (cstr (host1 a)) =? 0 then must_supply (B "HOST1")
      else if Zlen (cstr (host2 a)) =? 0 then must_supply (B "HOST2")
      else conn2conn (cstr (host1 a)) (port1 a) (cstr (host2 a)) (port2 a)
  | TRAN =>
      if no_port then must_supply (B "PORT1 and PORT2")
      else if Zlen (cstr (host2 a)) =? 0 then must_supply (B "HOST2")
      else bind2conn (port1 a) (cstr (host2 a)) (port2 a)
  | NOMETHOD => s <- string_at argv 0 ;; usage s
  end.

Definition SIGCLD : Z := 17.
Definition SIGINT : Z := 2.

Definition main (argv : list bytes) : M st Z :=
  r <- parse argv ;;
  match r with
  | None => ret 0
  | Some a =>
      sys_ (Signal SIGCLD) ;;
      sys_ (Signal SIGINT) ;;
      match logfile a with
      | Some f => fd <- sysret (Fopen f (B "a")) ;;
                  if fd <? 0 then perror (B "open logfile") ;; exit_ 0
                  else setvars (fun _ => Some fd)
      | None => ret tt
      end ;;
      makelog (B "######################## start ################" ++ CRLF ++ [NUL]) 49 ;;
      dispatch argv a ;;
      closeallfd 0
  end.

End lcx.
