(* ===== verification/LcxRelay.v ===== *)
(** LcxRelay: the relay of network/lcx/lcx.c carries the bytes of each peer to
    the other, whatever the sizes of the reads and writes. *)
From stdpp Require Import sets list strings.
From S2P Require Import Prelude Arrays Bytes Sys Lcx.

(** ** Relaying *)

Section relay.
Context `{Kernel} (fp : option Z) (h0 : list event).
Hypothesis Hread : posix_read.
Hypothesis Hwrite : posix_write.
Hypothesis Heintr : no_eintr.

(** Since [h0], what was read from [r] is what was written to [w] and then
    [pending]. *)
Definition flow (r w : Z) (pending : bytes) (h : list event) : Prop :=
  exists h', h = h0 ++ h' /\ bytes_read r h' = bytes_written w h' ++ pending.

Definition relaying (n : nat) (fd1 fd2 : Z) (p1 p2 : bytes) (s : st) : Prop :=
  (length (script s) <= n)%nat /\ vars s = fp /\
  flow fd1 fd2 p1 (history s) /\ flow fd2 fd1 p2 (history s).

Definition half_ok (h : half) : Prop :=
  Zlen (read_in h) = MAXSIZE /\ Zlen (send_out h) = MAXSIZE /\ 0 <= totalread h <= MAXSIZE.
Definition pending (h : half) : bytes := seg (send_out h) 0 (totalread h).

Lemma flow_event r w p p' h e :
  flow r w p h -> p ++ read_by r e = written_by w e ++ p' -> flow r w p' (h ++ [e]).
Proof.
  intros (h' & -> & Hp) He. exists (h' ++ [e]). split; [by rewrite app_assoc|].
  rewrite bytes_read_snoc, bytes_written_snoc, Hp, <-!app_assoc. by rewrite He.
Qed.

(** Events that neither read nor write the pair. *)
Definition silent (fd1 fd2 : Z) (e : event) : Prop :=
  read_by fd1 e = [] /\ read_by fd2 e = [] /\ written_by fd1 e = [] /\ written_by fd2 e = [].

Lemma relaying_event n fd1 fd2 p1 p2 s e :
  relaying n fd1 fd2 p1 p2 s -> silent fd1 fd2 e ->
  relaying n fd1 fd2 p1 p2 (record_event e s).
Proof.
  intros (Hn & Hv & H1 & H2) (E1 & E2 & E3 & E4). repeat split; [done|done|..]; simpl.
  - apply (flow_event _ _ _ _ _ _ H1). by rewrite E1, E4, app_nil_r.
  - apply (flow_event _ _ _ _ _ _ H2). by rewrite E2, E3, app_nil_r.
Qed.

Lemma relaying_answer n fd1 fd2 p1 p2 p1' p2' s c a rest :
  relaying n fd1 fd2 p1 p2 s -> script s = a :: rest ->
  p1 ++ read_by fd1 (Called c a) = written_by fd2 (Called c a) ++ p1' ->
  p2 ++ read_by fd2 (Called c a) = written_by fd1 (Called c a) ++ p2' ->
  relaying (pred n) fd1 fd2 p1' p2' (answered c a rest s).
Proof.
  intros (Hn & Hv & H1 & H2) Hs E1 E2. rewrite Hs in Hn. simpl in Hn.
  repeat split; simpl; [lia|done|..]; by eapply flow_event.
Qed.

Lemma relaying_weaken n m fd1 fd2 p1 p2 s : (n <= m)%nat ->
  relaying n fd1 fd2 p1 p2 s -> relaying m fd1 fd2 p1 p2 s.
Proof. intros Hm (Hn & Hr). split; [lia|done]. Qed.

Lemma relaying_answer_le n fd1 fd2 p1 p2 p1' p2' s c a rest :
  relaying n fd1 fd2 p1 p2 s -> script s = a :: rest ->
  p1 ++ read_by fd1 (Called c a) = written_by fd2 (Called c a) ++ p1' ->
  p2 ++ read_by fd2 (Called c a) = written_by fd1 (Called c a) ++ p2' ->
  relaying n fd1 fd2 p1' p2' (answered c a rest s).
Proof.
  intros Hr Hs E1 E2. apply (relaying_weaken (pred n)); [lia|]. by eapply relaying_answer.
Qed.

Lemma relaying_sym n fd1 fd2 p1 p2 s :
  relaying n fd1 fd2 p1 p2 s -> relaying n fd2 fd1 p2 p1 s.
Proof. by intros (Hn & Hv & H1 & H2). Qed.

(** Where a run may end: the relay is intact; what [X] adds is for the calls of
    [select]. *)
Definition intact (fd1 fd2 : Z) (s : st) : Prop :=
  exists n p1 p2, relaying n fd1 fd2 p1 p2 s.

Lemma intact_sym fd1 fd2 s : intact fd1 fd2 s -> intact fd2 fd1 s.
Proof. intros (n & p1 & p2 & Hr). exists n, p2, p1. by apply relaying_sym. Qed.

Lemma silent_waiting fd1 fd2 c : silent fd1 fd2 (Waiting c).
Proof. done. Qed.

Definition log_apart (fd1 fd2 : Z) : Prop :=
  match fp with Some f => f <> fd1 /\ f <> fd2 | None => True end.

(** A call that leaves the pair alone. *)
Definition quiet (fd1 fd2 : Z) (c : call) : Prop :=
  match c with Read fd _ | Write fd _ => fd <> fd1 /\ fd <> fd2 | _ => True end.

Lemma quiet_silent fd1 fd2 c a : quiet fd1 fd2 c -> silent fd1 fd2 (Called c a).
Proof.
  unfold silent. destruct c; try done; simpl;
    intros [? ?]; repeat case_match; try done; lia.
Qed.

Lemma wp_quiet n fd1 fd2 p1 p2 c (Q : answer -> st -> Prop) X s :
  quiet fd1 fd2 c -> relaying n fd1 fd2 p1 p2 s ->
  (forall a s', allowed c a -> relaying (pred n) fd1 fd2 p1 p2 s' ->
     errno s' = (if a_ret a <? 0 then a_errno a else errno s) -> Q a s') ->
  (forall s', relaying n fd1 fd2 p1 p2 s' -> last (history s') = Some (Waiting c) -> X WAITING s') ->
  wp (sys c) Q X s.
Proof.
  intros Hc Hr HQ HX. apply wp_sys.
  - intros a rest Hs Ha. apply HQ; [done| |done].
    destruct (quiet_silent fd1 fd2 c a Hc) as (E1 & E2 & E3 & E4).
    eapply relaying_answer; [done..| |]; by rewrite ?E1, ?E2, ?E3, ?E4, app_nil_r.
  - apply HX; [by apply relaying_event|]. simpl. by rewrite last_snoc.
Qed.

Definition is_select (c : call) : bool := match c with Select _ _ _ _ => true | _ => false end.

(** What [X] must accept: the relay waiting in a call other than [select]. *)
Definition accepts (X : Z -> st -> Prop) (fd1 fd2 : Z) : Prop :=
  forall n p1 p2 c s, relaying n fd1 fd2 p1 p2 s -> last (history s) = Some (Waiting c) ->
    is_select c = false -> X WAITING s.

Lemma accepts_sym X fd1 fd2 : accepts X fd1 fd2 -> accepts X fd2 fd1.
Proof. intros HX n p1 p2 c s Hr. apply (HX n p2 p1 c s). by apply relaying_sym. Qed.

Lemma accepts_waiting X n fd1 fd2 p1 p2 c s :
  accepts X fd1 fd2 -> relaying n fd1 fd2 p1 p2 s -> is_select c = false ->
  X WAITING (record_event (Waiting c) s).
Proof.
  intros HX Hr Hc. apply (HX n p1 p2 c); [by apply relaying_event| |done].
  simpl. by rewrite last_snoc.
Qed.

Lemma wp_perror n fd1 fd2 p1 p2 t (Q : unit -> st -> Prop) X s :
  relaying n fd1 fd2 p1 p2 s ->
  (forall s', relaying n fd1 fd2 p1 p2 s' -> errno s' = errno s -> Q tt s') ->
  wp (perror t) Q X s.
Proof. intros Hr HQ. apply wp_modify, HQ; [by apply relaying_event|done]. Qed.

Lemma wp_printf n fd1 fd2 p1 p2 t (Q : unit -> st -> Prop) X s :
  relaying n fd1 fd2 p1 p2 s ->
  (forall s', relaying n fd1 fd2 p1 p2 s' -> errno s' = errno s -> Q tt s') ->
  wp (printf t) Q X s.
Proof. intros Hr HQ. apply wp_modify, HQ; [by apply relaying_event|done]. Qed.

Lemma wp_memcpy_n dst off src n (Q : bytes -> st -> Prop) X s :
  0 <= n <= Zlen src -> 0 <= off -> off + n <= Zlen dst ->
  (forall d, d = seg dst 0 off ++ seg src 0 n ++ seg dst (off + n) (Zlen dst) ->
     Zlen d = Zlen dst -> seg d 0 (off + n) = seg dst 0 off ++ seg src 0 n -> Q d s) ->
  wp (memcpy dst off src n) Q X s.
Proof.
  intros Hn Hoff Hd HQ. unfold memcpy. wsteps.
  assert (El : Zlen (seg dst 0 off ++ seg src 0 n) = off + n).
  { rewrite Zlen_app, !seg_length by lia. lia. }
  apply HQ; [done| |].
  - rewrite app_assoc, Zlen_app, El, seg_length by lia. lia.
  - rewrite app_assoc. unfold seg at 1. rewrite drop_0, Z.sub_0_r, take_app_length'; [done|].
    unfold Zlen in El. lia.
Qed.

Lemma wp_makelog n fd1 fd2 p1 p2 b len (Q : unit -> st -> Prop) X s :
  accepts X fd1 fd2 -> log_apart fd1 fd2 -> relaying n fd1 fd2 p1 p2 s ->
  0 <= len <= Zlen b ->
  (forall s', relaying n fd1 fd2 p1 p2 s' -> Q tt s') ->
  wp (makelog b len) Q X s.
Proof.
  intros HX Hlog Hr Hlen HQ. unfold makelog, getvar.
  apply wp_bind, wp_gets. rewrite (proj1 (proj2 Hr)). destruct fp as [f|] eqn:Efp.
  - apply wp_bind, wp_guard; [lia|]. unfold sys_. apply wp_bind.
    apply (wp_quiet n fd1 fd2 p1 p2); [|done|..].
    + red in Hlog. rewrite Efp in Hlog. exact Hlog.
    + intros a s' _ Hr' _. apply wp_ret, HQ. eapply relaying_weaken; [|done]. lia.
    + intros s' Hr' El. eapply HX; [done..|done].
  - by apply wp_ret, HQ.
Qed.

Lemma Zlen_zeros n : 0 <= n -> Zlen (zeros n) = n.
Proof. intros. unfold Zlen, zeros. rewrite length_replicate. lia. Qed.

Lemma wp_take_in n r w p tmp h X s :
  accepts X r w -> log_apart r w -> r <> w -> half_ok h ->
  relaying n r w (pending h) p s ->
  wp (take_in r tmp h) (fun res s' => match res with
    | None => exists p', relaying n r w p' p s'
    | Some h' => half_ok h' /\ relaying n r w (pending h') p s'
    end) X s.
Proof.
  intros HX Hlog Hne Hok Hr. pose proof Hok as (Hri & Hso & Htot). unfold take_in.
  destruct (Z.ltb_spec (totalread h) MAXSIZE) as [Hlt|Hge]; [|apply wp_ret; by split].
  apply wp_bind, wp_sys; [|by eapply accepts_waiting].
  intros a rest Hs Ha. pose proof (Hread _ _ _ Ha) as Hposix.
  destruct Hposix as [Hm|[Hb Hl]].
  - assert (He : a_errno a <> EINTR) by (apply (Heintr _ _ Ha); lia).
    apply wp_bind, wp_gets. simpl. rewrite Hm. simpl.
    apply Z.eqb_neq in He. rewrite He. simpl.
    apply wp_bind, (wp_perror n r w (pending h) p).
    + eapply relaying_answer_le; [done..| |]; simpl.
      * by rewrite Hm, andb_false_r, app_nil_r.
      * destruct (Z.eqb_spec r w); [done|]. by rewrite app_nil_r.
    + intros s' Hr' _. apply wp_ret. eauto.
  - assert (Hr' : relaying n r w (pending h ++ a_data a) p
                  (answered (Read r (MAXSIZE - totalread h)) a rest s)).
    { eapply relaying_answer_le; [done..| |]; simpl.
      - rewrite Z.eqb_refl. destruct (Z.ltb_spec 0 (a_ret a)); [done|].
        destruct (a_data a) eqn:E; [done|]. unfold Zlen in Hl. simpl in Hl. lia.
      - destruct (Z.eqb_spec r w); [done|]. by rewrite app_nil_r. }
    revert Hr'. generalize (answered (Read r (MAXSIZE - totalread h)) a rest s) as s1.
    intros s1 Hr1. apply wp_bind, wp_gets.
    destruct (Z.eqb_spec (a_ret a) 0) as [E0|E0]; [apply wp_ret; eauto|].
    destruct (Z.ltb_spec (a_ret a) 0); [lia|]. rewrite andb_false_l.
    rewrite Z.max_l by lia. apply wp_bind, wp_memcpy_n; [lia..|].
    intros rd _ Hrd Hrd0. apply wp_bind, wp_memcpy_n; [lia..|].
    intros out _ Hout Hout0.
    apply wp_bind, (wp_makelog n r w (pending h ++ a_data a) p); [done..|pose proof (Zlen_nonneg tmp); lia|].
    intros s2 Hr2. apply wp_bind, (wp_makelog n r w (pending h ++ a_data a) p); [done..|lia|].
    intros s3 Hr3. apply wp_ret. split.
    + split_and!; simpl; [by apply Zlen_zeros|lia..].
    + replace (pending _) with (pending h ++ a_data a); [done|]. unfold pending at 2. simpl.
      rewrite Hout0. unfold pending. f_equal.
      rewrite Z.add_0_l, (seg_nil (read_in h) 0 0), app_nil_l in Hrd0 by lia.
      rewrite Hrd0, <-Hl. by rewrite seg_full.
Qed.


(** Writing delivers a prefix of what is pending, and all of it when no write
    fails. *)
Lemma wp_send_all n r w buf total p X s :
  accepts X r w -> r <> w -> 0 <= total <= Zlen buf ->
  relaying n r w (seg buf 0 total) p s ->
  wp (send_all w buf total) (fun res s' => let '(sendcount, total', err) := res in
    exists p', relaying n r w p' p s' /\ (err = false -> total' = 0 /\ p' = [])) X s.
Proof.
  intros HX Hne Htot Hr. unfold send_all.
  apply (wp_forever (fun '(sc, t) s' => 0 <= sc /\ 0 <= t /\ sc + t = total /\
           relaying n r w (seg buf sc (sc + t)) p s')).
  { split_and!; [lia..|]. by rewrite Z.add_0_l. }
  clear s Hr. intros [sc t] s (Hsc & Ht & Hsum & Hr).
  destruct (Z.ltb_spec 0 t) as [Hpos|Hz]; [|].
  2: { apply wp_ret. exists []. rewrite seg_nil in Hr by lia. split; [done|]. split; [lia|done]. }
  apply wp_bind, wp_guard; [lia|]. unfold sysret. apply wp_bind, wp_bind, wp_sys.
  2: { by eapply accepts_waiting. }
  intros a rest Hs Ha. apply wp_ret, wp_bind, wp_gets.
  assert (Hlen : Zlen (seg buf sc (sc + t)) = t) by (rewrite seg_length; lia).
  pose proof (Hwrite _ _ _ Ha) as Hposix. rewrite Hlen in Hposix.
  destruct Hposix as [Hm|[Hb Hb']].
  - assert (He : a_errno a <> EINTR) by (apply (Heintr _ _ Ha); lia).
    simpl. rewrite Hm. simpl. apply Z.eqb_neq in He. rewrite He. simpl.
    apply wp_bind, (wp_perror n r w (seg buf sc (sc + t)) p).
    + eapply relaying_answer_le; [done..| |]; simpl; by rewrite Hm, andb_false_r, ?app_nil_r.
    + intros s' Hr' _. apply wp_ret. exists (seg buf sc (sc + t)). by split.
  - specialize (Hb Hpos).
    destruct (Z.eqb_spec (a_ret a) 0); [lia|]. destruct (Z.ltb_spec (a_ret a) 0); [lia|].
    rewrite !andb_false_l. apply wp_ret. split.
    + split_and!; [lia..|]. eapply relaying_answer_le; [done..| |]; simpl.
      * rewrite app_nil_r, Z.eqb_refl. destruct (Z.ltb_spec 0 (a_ret a)); [|lia]. simpl.
        replace (sc + a_ret a + (t - a_ret a)) with (sc + t) by lia.
        rewrite (seg_app buf sc (sc + a_ret a)) by lia. f_equal.
        rewrite take_app_length'; [done|].
        assert (El : Zlen (seg buf sc (sc + a_ret a)) = a_ret a) by (rewrite seg_length; lia).
        unfold Zlen in El. lia.
      * destruct (Z.eqb_spec w r); [done|]. by rewrite app_nil_r.
    + simpl. rewrite Hs. simpl. lia.
Qed.

Lemma wp_send_out n r w p h X s :
  accepts X r w -> r <> w -> half_ok h ->
  relaying n r w (pending h) p s ->
  wp (send_out_ w h) (fun res s' => match res with
    | None => exists p', relaying n r w p' p s'
    | Some h' => half_ok h' /\ totalread h' = 0 /\ relaying n r w (pending h') p s'
    end) X s.
Proof.
  intros HX Hne Hok Hr. pose proof Hok as (Hri & Hso & Htot). unfold send_out_.
  apply wp_bind. eapply wp_conseq; [by apply (wp_send_all n r w _ _ p); [..|lia|]|].
  intros [[sc t] err] s' (p' & Hr' & Hd). destruct err; [apply wp_ret; eauto|].
  destruct Hd as [-> ->]; [done|]. simpl. apply wp_ret. split_and!.
  - split_and!; simpl; [done|by apply Zlen_zeros|lia..].
  - done.
  - unfold pending. simpl. by rewrite seg_nil by lia.
Qed.

(** *** A round, and the whole run *)

Section pair.
Context (fd1 fd2 : Z) (tmpbuf1 tmpbuf2 : bytes).
Hypothesis Hne : fd1 <> fd2.
Hypothesis Hlog : log_apart fd1 fd2.
Hypothesis Hfd1 : 0 <= fd1 < FD_SETSIZE.
Hypothesis Hfd2 : 0 <= fd2 < FD_SETSIZE.

(** [select] always finds both descriptors writable. *)
Definition always_writable : Prop := forall nfds rd wr t a,
  allowed (Select nfds rd wr t) a -> 0 < a_ret a -> a_wr a = wr.

Definition in_select (s : st) : Prop :=
  exists c, last (history s) = Some (Waiting c) /\ is_select c = true.

(** The run ends or waits with the relay intact, and, if both descriptors are
    always writable, nothing is pending in [select]. *)
Definition relay_end (c : Z) (s : st) : Prop :=
  (c = 0 \/ c = WAITING) /\
  exists n p1 p2, relaying n fd1 fd2 p1 p2 s /\
    (c = WAITING -> in_select s -> always_writable -> p1 = [] /\ p2 = []).

Lemma relay_end_accepts : accepts relay_end fd1 fd2.
Proof.
  intros n p1 p2 c s Hr El Hc. split; [by right|]. exists n, p1, p2. split; [done|].
  intros _ (c' & El' & Hc'). rewrite El in El'. congruence.
Qed.

Definition round_inv (n : nat) (h1 h2 : half) (s : st) : Prop :=
  half_ok h1 /\ half_ok h2 /\ relaying n fd1 fd2 (pending h1) (pending h2) s.

(** Half a round of either kind, in either direction. *)
Lemma wp_if_take1 ready n h1 h2 s : round_inv n h1 h2 s ->
  wp (if_set ready (take_in fd1 tmpbuf1) h1) (fun r s' => match r with
    | None => exists p1 p2, relaying n fd1 fd2 p1 p2 s'
    | Some h1' => round_inv n h1' h2 s' end) relay_end s.
Proof.
  intros (Hk1 & Hk2 & Hr). destruct ready; [|by apply wp_ret].
  eapply wp_conseq; [apply wp_take_in; [exact relay_end_accepts|done..]|].
  intros [h1'|] s'; [intros [? ?]; by split|]. intros [p' ?]. eauto.
Qed.

Lemma wp_if_send1 ready n h1 h2 s : round_inv n h1 h2 s ->
  wp (if_set ready (send_out_ fd2) h1) (fun r s' => match r with
    | None => exists p1 p2, relaying n fd1 fd2 p1 p2 s'
    | Some h1' => round_inv n h1' h2 s' /\ (ready = true -> totalread h1' = 0) end) relay_end s.
Proof.
  intros (Hk1 & Hk2 & Hr). destruct ready; [|apply wp_ret; by split].
  eapply wp_conseq; [apply (wp_send_out n fd1); [exact relay_end_accepts|done..]|].
  intros [h1'|] s'; [intros (? & ? & ?); by split|]. intros [p' ?]. eauto.
Qed.

Lemma wp_if_take2 ready n h1 h2 s : round_inv n h1 h2 s ->
  wp (if_set ready (take_in fd2 tmpbuf2) h2) (fun r s' => match r with
    | None => exists p1 p2, relaying n fd1 fd2 p1 p2 s'
    | Some h2' => round_inv n h1 h2' s' end) relay_end s.
Proof.
  intros (Hk1 & Hk2 & Hr%relaying_sym). destruct ready; [|apply wp_ret; by apply relaying_sym in Hr].
  eapply wp_conseq; [apply wp_take_in; [apply accepts_sym, relay_end_accepts| |done..]|].
  { red in Hlog |- *. by destruct fp; [destruct Hlog|]. }
  intros [h2'|] s'; [intros [? ?%relaying_sym]; by split|]. intros [p' ?%relaying_sym]. eauto.
Qed.

Lemma wp_if_send2 ready n h1 h2 s : round_inv n h1 h2 s ->
  wp (if_set ready (send_out_ fd1) h2) (fun r s' => match r with
    | None => exists p1 p2, relaying n fd1 fd2 p1 p2 s'
    | Some h2' => round_inv n h1 h2' s' /\ (ready = true -> totalread h2' = 0) end) relay_end s.
Proof.
  intros (Hk1 & Hk2 & Hr%relaying_sym). destruct ready; [|apply wp_ret; apply relaying_sym in Hr; by split].
  eapply wp_conseq; [apply (wp_send_out n fd2); [apply accepts_sym, relay_end_accepts|done..]|].
  intros [h2'|] s'; [intros (? & ? & ?%relaying_sym); by split|].
  intros [p' ?%relaying_sym]. eauto.
Qed.

Definition loop_inv (l : half * half * Z) (s : st) : Prop :=
  round_inv (length (script s)) l.1.1 l.1.2 s /\
  (always_writable -> totalread l.1.1 = 0 /\ totalread l.1.2 = 0).

Lemma relaying_exact n s p1 p2 : relaying n fd1 fd2 p1 p2 s ->
  relaying (length (script s)) fd1 fd2 p1 p2 s.
Proof. intros (_ & Hr). by split. Qed.

Lemma pending_0 h : totalread h = 0 -> pending h = [].
Proof. intros E. unfold pending. rewrite E. by apply seg_nil. Qed.

(** The same for any list, so that no proof computes with the sets. *)
Lemma fd_isset_in fd asked reported result :
  (0 < result -> reported = asked) -> fd ∈ asked -> result <> 0 ->
  fd_isset fd asked reported result = true.
Proof.
  intros Hrep Hin Hne0. unfold fd_isset. apply bool_decide_eq_true.
  destruct (Z.ltb_spec result 0); [done|]. rewrite Hrep; [done|lia].
Qed.

Lemma wp_round l s : loop_inv l s ->
  wp (transdata_round fd1 fd2 tmpbuf1 tmpbuf2 l) (fun r s' => match r with
    | inl l' => loop_inv l' s' /\ (length (script s') < length (script s))%nat
    | inr _ => exists n p1 p2, relaying n fd1 fd2 p1 p2 s'
    end) relay_end s.
Proof.
  destruct l as [[h1 h2] t]. intros [(Hk1 & Hk2 & Hr) Hw]. unfold transdata_round.
  apply wp_bind, wp_guard; [lia|]. apply wp_bind, wp_sys.
  2: { split; [by right|]. exists (length (script s)), (pending h1), (pending h2).
       split; [by apply relaying_event|]. intros _ _ [? ?]%Hw. split; by apply pending_0. }
  intros a rest Hs Ha. apply wp_bind, wp_gets.
  assert (Hr' : relaying (pred (length (script s))) fd1 fd2 (pending h1) (pending h2)
            (answered (Select (maxfd fd1 fd2) [fd1; fd2] [fd1; fd2] t) a rest s)).
  { eapply relaying_answer; [done..| |]; simpl; by rewrite app_nil_r. }
  revert Hr'. generalize (answered (Select (maxfd fd1 fd2) [fd1; fd2] [fd1; fd2] t) a rest s) as s1.
  assert (Hsub : (pred (length (script s)) < length (script s))%nat) by (rewrite Hs; simpl; lia).
  revert Hsub. generalize (pred (length (script s))) as n. clear Hr Hw Hs. intros n Hlt s1 Hr.
  case_match.
  { apply wp_bind, (wp_perror n fd1 fd2 (pending h1) (pending h2)); [done|].
    intros s2 Hr2 _. apply wp_ret. eauto. }
  destruct (Z.eqb_spec (a_ret a) 0) as [E0|E0].
  { apply wp_bind, (wp_printf n fd1 fd2 (pending h1) (pending h2)); [done|].
    intros s2 Hr2 _. apply wp_ret. eauto. }
  set (wr fd := fd_isset fd [fd1; fd2] (a_wr a) (a_ret a)).
  assert (Hwr : always_writable -> forall fd, fd ∈ [fd1; fd2] -> wr fd = true).
  { intros Hall fd Hfd. apply fd_isset_in; [|done..]. intros Hpos. by apply (Hall _ _ _ _ _ Ha). }
  cbv zeta. change (fd_isset fd2 [fd1; fd2] (a_wr a) (a_ret a)) with (wr fd2).
  change (fd_isset fd1 [fd1; fd2] (a_wr a) (a_ret a)) with (wr fd1).
  apply wp_bind. eapply wp_conseq; [by apply (wp_if_take1 _ n h1 h2)|].
  intros [h1a|] s2 H2; [|apply wp_ret; eauto].
  apply wp_bind. eapply wp_conseq; [by apply (wp_if_send1 _ n h1a h2)|].
  intros [h1b|] s3 H3; [|apply wp_ret; eauto]. destruct H3 as [H3 Hz1].
  apply wp_bind. eapply wp_conseq; [by apply (wp_if_take2 _ n h1b h2)|].
  intros [h2a|] s4 H4; [|apply wp_ret; eauto].
  apply wp_bind. eapply wp_conseq; [by apply (wp_if_send2 _ n h1b h2a)|].
  intros [h2b|] s5 H5; [|apply wp_ret; eauto]. destruct H5 as [(Hk1' & Hk2' & Hr5) Hz2].
  apply wp_ret. split; [split|].
  - split; [exact Hk1'|]. split; [exact Hk2'|]. by apply (relaying_exact n).
  - intros Hall. split; [apply Hz1|apply Hz2]; apply (Hwr Hall); set_solver.
  - destruct Hr5 as [Hle _]. lia.
Qed.

Lemma wp_tail {A} n p1 p2 s : relaying n fd1 fd2 p1 p2 s ->
  wp (sys_ (Close fd1) ;; sys_ (Close fd2) ;;
      printf (B "ok, I have closed the two fd" ++ CRLF) ;; @exit_ st A 0) (fun _ _ => False) relay_end s.
Proof.
  intros Hr. unfold sys_. do 2 apply wp_bind.
  apply (wp_quiet n fd1 fd2 p1 p2); [done..| |]; [|intros s' ? ?; by eapply relay_end_accepts].
  intros _ s1 _ Hr1 _. apply wp_ret. do 2 apply wp_bind.
  apply (wp_quiet (pred n) fd1 fd2 p1 p2); [done..| |]; [|intros s' ? ?; by eapply relay_end_accepts].
  intros _ s2 _ Hr2 _. apply wp_ret.
  apply wp_bind, (wp_printf (pred (pred n)) fd1 fd2 p1 p2); [done|]. intros s3 Hr3 _.
  apply wp_exit. split; [by left|]. exists (pred (pred n)), p1, p2. split; [done|].
  intros Hc. discriminate Hc.
Qed.
End pair.

(** The texts for the log fit their arrays. *)
Lemma dec_len_le (k : nat) n : 0 <= n < 10 ^ Z.of_nat k -> (0 < k)%nat -> Zlen (dec n) <= Z.of_nat k.
Proof. intros Hn Hk. pose proof (dec_length k n Hn Hk). unfold Zlen. lia. Qed.

Lemma octet_len a : Zlen (dec (a mod 2 ^ 8)) <= 3.
Proof. apply (dec_len_le 3); [|lia]. pose proof (Z.mod_pos_bound a (2 ^ 8)). lia. Qed.

Lemma inet_ntoa_len a : Zlen (inet_ntoa a) <= 15.
Proof.
  unfold inet_ntoa. rewrite !Zlen_app.
  pose proof (octet_len (a / 2 ^ 24)). pose proof (octet_len (a / 2 ^ 16)).
  pose proof (octet_len (a / 2 ^ 8)). pose proof (octet_len a).
  change (Zlen (B ".")) with 1. lia.
Qed.

Lemma port_len p : Zlen (dec (p mod 2 ^ 16)) <= 5.
Proof. apply (dec_len_le 5); [|lia]. pose proof (Z.mod_pos_bound p (2 ^ 16)). lia. Qed.

Lemma wp_peer n fd1 fd2 p1 p2 fd name X s :
  accepts X fd1 fd2 -> relaying n fd1 fd2 p1 p2 s -> Zlen name <= 15 ->
  wp (peer fd name) (fun hp s' => Zlen hp.1 <= 15 /\ Zlen (dec hp.2) <= 5 /\
    relaying n fd1 fd2 p1 p2 s') X s.
Proof.
  intros HX Hr Hname. unfold peer. apply wp_bind, (wp_quiet n fd1 fd2 p1 p2); [done..| |].
  2: { intros s' Hr' El. by eapply HX. }
  intros a s1 _ Hr1 _. apply (relaying_weaken _ n) in Hr1; [|lia].
  destruct (_ <? _); [by apply wp_ret|].
  apply wp_bind, (wp_printf n fd1 fd2 p1 p2); [done|]. intros s2 Hr2 _.
  apply wp_bind. unfold strcpy. apply wp_bind.
  pose proof (inet_ntoa_len (s_addr (a_addr a))).
  apply wp_guard; [lia|]. do 2 apply wp_ret. split; [done|]. split; [apply port_len|done].
Qed.

Lemma banner_fits what host port (Q : bytes -> st -> Prop) X s :
  Zlen what <= 5 -> Zlen host <= 15 -> Zlen (dec port) <= 5 ->
  (forall t, Q t s) -> wp (banner what host port) Q X s.
Proof.
  intros Hw Hh Hp HQ. unfold banner, strcpy. apply wp_bind, wp_guard; [|apply wp_ret, HQ].
  rewrite !Zlen_app. change (Zlen CRLF) with 2. change (Zlen (B "########### ")) with 12.
  change (Zlen (B " from ")) with 6. change (Zlen (B ":")) with 1.
  change (Zlen (B " ####################")) with 21. lia.
Qed.

Lemma wp_names n fd1 fd2 p1 p2 X s :
  accepts X fd1 fd2 -> relaying n fd1 fd2 p1 p2 s ->
  wp (transdata_names fd1 fd2) (fun _ s' => relaying n fd1 fd2 p1 p2 s') X s.
Proof.
  intros HX Hr. unfold transdata_names, getvar. apply wp_bind, wp_gets.
  rewrite (proj1 (proj2 Hr)). destruct fp; [|by apply wp_ret].
  apply wp_bind. eapply wp_conseq; [by apply (wp_peer n fd1 fd2 p1 p2)|].
  intros [host1 port1] s1 (Hh1 & Hp1 & Hr1).
  apply wp_bind. eapply wp_conseq; [by apply (wp_peer n fd1 fd2 p1 p2)|].
  intros [host2 port2] s2 (Hh2 & Hp2 & Hr2).
  apply wp_bind, banner_fits; [done..|]. intros t1.
  apply wp_bind, banner_fits; [done..|]. intros t2. by apply wp_ret.
Qed.
End relay.

(** C6: [transdata] relays faithfully in both directions. Whatever the peers
    send and however [select], [read] and [write] split it (as POSIX documents
    and without interrupted calls), and at every moment of the run, what was
    written to each descriptor is a prefix of what was read from the other, in
    order and unchanged; no buffer is overrun; the function never returns, and
    it ends by [exit(0)]. When [select] always finds both descriptors writable,
    everything read has been delivered whenever the process waits in it. *)
Theorem transdata_relays `{Kernel} (A : Type) (fd1 fd2 : Z) (s : st)
  (Kread : posix_read) (Kwrite : posix_write) (Kintr : no_eintr)
  (Hfd1 : 0 <= fd1 < FD_SETSIZE) (Hfd2 : 0 <= fd2 < FD_SETSIZE) (Hne : fd1 <> fd2)
  (Hlog : forall f, vars s = Some f -> f <> fd1 /\ f <> fd2) :
  wp (@transdata _ A fd1 fd2) (fun _ _ => False)
    (fun c s' => (c = 0 \/ c = WAITING) /\
       exists h, history s' = history s ++ h /\
         bytes_written fd2 h `prefix_of` bytes_read fd1 h /\
         bytes_written fd1 h `prefix_of` bytes_read fd2 h /\
         (c = WAITING -> in_select s' -> always_writable ->
            bytes_written fd2 h = bytes_read fd1 h /\ bytes_written fd1 h = bytes_read fd2 h)) s.
Proof.
  set (X := relay_end (vars s) (history s) fd1 fd2).
  apply wp_mono with (Q := fun _ _ => False) (X := X); [|done|].
  2: { intros c s' (Hc & n & p1 & p2 & (_ & _ & (h & Eh & E1) & (h' & Eh' & E2)) & Hall).
       split; [done|]. exists h. split; [done|]. rewrite Eh in Eh'. apply app_inv_head in Eh' as <-.
       rewrite E1, E2. split; [by eexists|]. split; [by eexists|].
       intros H1 H2 H3. destruct (Hall H1 H2 H3) as [-> ->]. by rewrite !app_nil_r. }
  assert (Hap : log_apart (vars s) fd1 fd2) by (red; destruct (vars s); [by apply Hlog|done]).
  pose proof (relay_end_accepts (vars s) (history s) fd1 fd2) as HX.
  unfold transdata. apply wp_bind. eapply wp_conseq.
  { apply (wp_names (vars s) (history s) (length (script s)) fd1 fd2 [] []); [exact HX|].
    repeat split; try done; exists []; by rewrite app_nil_r. }
  intros [tmp1 tmp2] s1 Hr. apply wp_bind.
  eapply wp_conseq; [apply (wp_forever (loop_inv (vars s) (history s) fd1 fd2))|].
  - split; [|done]. split; [|split]; [done..|]. by apply (relaying_exact _ _ _ _ (length (script s))).
  - intros l s2 Hl. by apply (wp_round (vars s) (history s)).
  - intros [] s2 (n & p1 & p2 & Hr2). by apply (wp_tail (vars s) (history s) fd1 fd2 n p1 p2).
Qed.

Lemma transdata_relays_witness :
  let s := Proc [Ans 2 0 [] (Addr 0 0) [3] [4] 299 no_stat; Ans 5 0 (B "hello") (Addr 0 0) [] [] 0 no_stat;
                 number 2; number 3] [] 0 None in
  wp (@transdata linux unit 3 4 ) (fun _ _ => False)
    (fun c s' => (c = 0 \/ c = WAITING) /\
       exists h, history s' = history s ++ h /\
         bytes_written 4 h `prefix_of` bytes_read 3 h /\
         bytes_written 3 h `prefix_of` bytes_read 4 h /\
         (c = WAITING -> in_select s' -> @always_writable linux ->
            bytes_written 4 h = bytes_read 3 h /\ bytes_written 3 h = bytes_read 4 h)) s.
Proof.
  intros s. apply (@transdata_relays linux unit 3 4 s).
  - exact linux_read.
  - exact linux_write.
  - exact linux_no_eintr.
  - unfold FD_SETSIZE. lia.
  - unfold FD_SETSIZE. lia.
  - lia.
  - intros f Hf. discriminate Hf.
Defined.
