(* ===== verification/LcxMain.v ===== *)
(** LcxMain: the drivers of network/lcx/lcx.c never hold more descriptors than
    one pair and its listeners, and the command line. *)
From stdpp Require Import sets list strings.
From S2P Require Import Prelude Arrays Bytes Sys Lcx.

(** ** Descriptors *)

Section descriptors.
Context `{Kernel} (strerror : Z -> bytes) (base : list Z).
Hypothesis Hfd : posix_fd.
Hypothesis Hparent : forall a, allowed Fork a -> a_ret a <> 0.

(** At most [l] is open beyond what was open before. *)
Definition holds (l : list Z) (s : st) : Prop :=
  (length l <= 4)%nat /\ open_fds (history s) ⊆ l ++ base.
Definition few_fds (c : Z) (s : st) : Prop := exists l, holds l s.

(** A step that opens nothing and does not lengthen the script. *)
Definition later (s s' : st) : Prop := (length (script s') <= length (script s))%nat.

Lemma holds_silent l s e : holds l s -> fd_step (open_fds (history s)) e = open_fds (history s) ->
  holds l (record_event e s).
Proof. intros [Hl Ho] He. split; [done|]. simpl. by rewrite open_fds_snoc, He. Qed.

Lemma holds_answered l s c a rest :
  holds l s -> fd_step (open_fds (history s)) (Called c a) = open_fds (history s) ->
  holds l (answered c a rest s).
Proof. intros [Hl Ho] He. split; [done|]. simpl. by rewrite open_fds_snoc, He. Qed.

Definition opens_nothing (c : call) : bool :=
  match c with Socket | Accept _ | Open _ _ | Dup _ | Close _ => false | _ => true end.

Lemma wp_call l c (Q : answer -> st -> Prop) s :
  holds l s -> opens_nothing c = true ->
  (forall a s', allowed c a -> holds l s' -> (length (script s') < length (script s))%nat -> Q a s') ->
  wp (sys c) Q few_fds s.
Proof.
  intros Hs Hc HQ. apply wp_sys.
  - intros a rest E Ha. apply HQ; [done| |].
    + apply holds_answered; [done|]. by destruct c.
    + simpl. rewrite E. simpl. lia.
  - exists l. by apply holds_silent.
Qed.

Lemma wp_open l c (Q : answer -> st -> Prop) s :
  holds l s -> (length l < 4)%nat -> (c = Socket \/ exists fd, c = Accept fd) ->
  (forall a s', a_ret a = -1 -> holds l s' -> (length (script s') < length (script s))%nat -> Q a s') ->
  (forall a s', 3 <= a_ret a -> holds (a_ret a :: l) s' ->
     (length (script s') < length (script s))%nat -> Q a s') ->
  wp (sys c) Q few_fds s.
Proof.
  intros [Hl Ho] Hlt Hc HQ1 HQ2. apply wp_sys.
  - intros a rest E Ha. destruct (Hfd c a Ha Hc) as [Em|Hb].
    + apply HQ1; [done| |simpl; rewrite E; simpl; lia].
      apply holds_answered; [done|]. destruct Hc as [->|[fd ->]]; simpl; by rewrite Em.
    + apply HQ2; [lia| |simpl; rewrite E; simpl; lia].
      split; [simpl; lia|]. simpl. rewrite open_fds_snoc.
      destruct Hc as [->|[fd ->]]; simpl; (destruct (Z.ltb_spec (a_ret a) 0); [lia|]); set_solver.
  - exists l. apply holds_silent; [done|]. destruct Hc as [->|[fd ->]]; done.
Qed.

Lemma wp_close l l' fd (Q : unit -> st -> Prop) s :
  holds l s -> (length l' <= 4)%nat -> l ⊆ fd :: l' ->
  (forall s', holds l' s' -> (length (script s') < length (script s))%nat -> Q tt s') ->
  wp (sys_ (Close fd)) Q few_fds s.
Proof.
  intros [Hl Ho] Hl' Hsub HQ. unfold sys_. apply wp_bind, wp_sys.
  - intros a rest E Ha. apply wp_ret, HQ; [|simpl; rewrite E; simpl; lia].
    split; [done|]. simpl. rewrite open_fds_snoc. simpl. intros x.
    rewrite list_elem_of_filter. intros [Hx Hin%Ho]. set_solver.
  - exists l. by apply holds_silent.
Qed.

Lemma wp_say l t (Q : unit -> st -> Prop) s :
  holds l s -> (forall s', holds l s' -> script s' = script s -> Q tt s') ->
  wp (printf t) Q few_fds s.
Proof. intros Hs HQ. apply wp_modify, HQ; [by apply holds_silent|done]. Qed.

Lemma wp_say_error l t (Q : unit -> st -> Prop) s :
  holds l s -> (forall s', holds l s' -> script s' = script s -> Q tt s') ->
  wp (perror t) Q few_fds s.
Proof. intros Hs HQ. apply wp_modify, HQ; [by apply holds_silent|done]. Qed.

Lemma wp_quit {A} l c (Q : A -> st -> Prop) s : holds l s -> wp (exit_ c) Q few_fds s.
Proof. intros Hs. apply wp_exit. by exists l. Qed.

Lemma wp_create_socket l (Q : Z -> st -> Prop) s :
  holds l s -> (length l < 4)%nat ->
  (forall s', holds l s' -> (length (script s') < length (script s))%nat -> Q 0 s') ->
  (forall fd s', fd <> 0 -> holds (fd :: l) s' -> (length (script s') < length (script s))%nat -> Q fd s') ->
  wp create_socket Q few_fds s.
Proof.
  intros Hs Hl HQ0 HQ. unfold create_socket, sysret. do 2 apply wp_bind.
  apply (wp_open l); [done..|by left| |].
  - intros a s1 -> Hs1 Hlt. apply wp_ret. simpl. apply wp_bind, (wp_say_error l); [done|].
    intros s2 Hs2 E. apply wp_ret, HQ0; [done|]. by rewrite E.
  - intros a s1 Ha Hs1 Hlt. apply wp_ret. destruct (Z.ltb_spec (a_ret a) 0); [lia|].
    apply wp_ret, HQ; [lia|done..].
Qed.

(** A call of which only the result counts, and one that fails with a message. *)
Lemma wp_result l c (Q : Z -> st -> Prop) s :
  holds l s -> opens_nothing c = true ->
  (forall a s', allowed c a -> holds l s' -> (length (script s') < length (script s))%nat -> Q (a_ret a) s') ->
  wp (sysret c) Q few_fds s.
Proof.
  intros Hs Hc HQ. unfold sysret. apply wp_bind, (wp_call l); [done..|].
  intros a s1 Ha Hs1 Hlt. by apply wp_ret, HQ.
Qed.

Lemma wp_result_or l c t (Q : Z -> st -> Prop) s :
  holds l s -> opens_nothing c = true ->
  (forall n s', holds l s' -> (length (script s') < length (script s))%nat -> Q n s') ->
  wp (r <- sysret c ;; if r <? 0 then perror t ;; ret 0 else ret 1) Q few_fds s.
Proof.
  intros Hs Hc HQ. apply wp_bind, (wp_result l); [done..|]. intros a s1 _ Hs1 Hlt.
  destruct (_ <? _); [|by apply wp_ret, HQ].
  apply wp_bind, (wp_say_error l); [done|]. intros s2 Hs2 E. apply wp_ret, HQ; [done|]. by rewrite E.
Qed.

Lemma wp_create_serv l fd port (Q : Z -> st -> Prop) s :
  holds l s -> (forall n s', holds l s' -> later s s' -> Q n s') ->
  wp (create_serv fd port) Q few_fds s.
Proof.
  intros Hs HQ. unfold create_serv, sys_. do 2 apply wp_bind. apply (wp_call l); [done..|].
  intros _ s1 _ Hs1 Hl1. apply wp_ret. apply wp_bind, (wp_result l); [done..|].
  intros a s2 _ Hs2 Hl2. destruct (_ <? _).
  - apply wp_bind, (wp_say_error l); [done|]. intros s3 Hs3 E.
    apply wp_ret, HQ; [done|]. unfold later. rewrite E. lia.
  - apply (wp_result_or l); [done..|]. intros n s3 Hs3 Hl3. apply HQ; [done|]. unfold later. lia.
Qed.

Lemma wp_client_connect l fd server port (Q : Z -> st -> Prop) s :
  holds l s -> (forall n s', holds l s' -> later s s' -> Q n s') ->
  wp (client_connect strerror fd server port) Q few_fds s.
Proof.
  intros Hs HQ. unfold client_connect. apply wp_bind, (wp_call l); [done..|].
  intros a s1 _ Hs1 Hl1. destruct (_ =? _).
  - apply wp_bind, wp_gets. apply wp_bind, (wp_say l); [done|]. intros s2 Hs2 E.
    apply wp_ret, HQ; [done|]. unfold later. rewrite E. lia.
  - apply (wp_result_or l); [done..|]. intros n s2 Hs2 Hl2. apply HQ; [done|]. unfold later. lia.
Qed.

(** The common end of a round: fork, which makes this the parent, and close the
    pair. *)
Lemma wp_fork_close l a b (Q : unit -> st -> Prop) s :
  holds (b :: a :: l) s -> (length l <= 2)%nat ->
  (forall s', holds l s' -> (length (script s') < length (script s))%nat -> Q tt s') ->
  wp (pid <- sysret Fork ;; (when pid =? 0 do transdata a b) ;; sys_ (Close a) ;; sys_ (Close b))
     Q few_fds s.
Proof.
  intros Hs Hl HQ. apply wp_bind, (wp_result (b :: a :: l)); [done..|].
  intros an s1 Ha Hs1 Hl1. apply Hparent in Ha. apply Z.eqb_neq in Ha.
  apply wp_bind, wp_unless; [exact Ha|].
  apply wp_bind, (wp_close (b :: a :: l) (b :: l)); [done|simpl; lia|set_solver|].
  intros s2 Hs2 Hl2. apply (wp_close (b :: l) l); [done|lia|set_solver|].
  intros s3 Hs3 Hl3. apply HQ; [done|lia].
Qed.

Lemma wp_bind2conn_round sockfd host port2 s : holds [sockfd] s ->
  Zlen host < HOSTLEN -> Zlen (dec port2) <= 11 ->
  wp (bind2conn_round strerror sockfd host port2)
    (fun _ s' => holds [sockfd] s' /\ (length (script s') < length (script s))%nat) few_fds s.
Proof.
  intros Hs Hhost Hport. unfold bind2conn_round.
  apply wp_bind, (wp_say [sockfd]); [done|]. intros s1 Hs1 E1. rewrite <-E1. clear E1 Hs s.
  apply wp_bind, (wp_open [sockfd]); [done|simpl; lia|eauto|..].
  { intros a s2 -> Hs2 Hl2. simpl. apply (wp_say_error [sockfd]); [done|].
    intros s3 Hs3 E. split; [done|by rewrite E]. }
  intros a s2 Ha Hs2 Hl2. destruct (Z.ltb_spec (a_ret a) 0); [lia|].
  apply wp_bind, (wp_say [a_ret a; sockfd]); [done|]. intros s3 Hs3 E3. rewrite <-E3 in Hl2.
  apply wp_bind, (wp_create_socket [a_ret a; sockfd]); [done|simpl; lia|..].
  { intros s4 Hs4 Hl4. simpl. apply (wp_close [a_ret a; sockfd] [sockfd]); [done|simpl; lia|set_solver|].
    intros s5 Hs5 Hl5. split; [done|lia]. }
  intros sockfd2 s4 Hne Hs4 Hl4. apply Z.eqb_neq in Hne. rewrite Hne.
  apply wp_bind, (wp_say [sockfd2; a_ret a; sockfd]); [done|]. intros s5 Hs5 E5. rewrite <-E5 in Hl4.
  apply wp_bind, (wp_client_connect [sockfd2; a_ret a; sockfd]); [done|].
  intros r s6 Hs6 Hl6. unfold later in Hl6. destruct (Z.eqb_spec r 0).
  - apply wp_bind, (wp_close [sockfd2; a_ret a; sockfd] [a_ret a; sockfd]); [done|simpl; lia|set_solver|].
    intros s7 Hs7 Hl7. unfold strcpy, text_port. do 2 apply wp_bind.
    apply wp_guard; [unfold HOSTLEN in Hhost; rewrite !Zlen_app;
      change (Zlen (B "[SERVER]connection to ")) with 22; change (Zlen (B ":")) with 1;
      change (Zlen (B " error")) with 6; change (Zlen CRLF) with 2; lia|].
    apply wp_ret. unfold sys_ at 1. do 2 apply wp_bind.
    apply (wp_call [a_ret a; sockfd]); [done..|]. intros _ s8 _ Hs8 Hl8. apply wp_ret.
    apply (wp_close [a_ret a; sockfd] [sockfd]); [done|simpl; lia|set_solver|].
    intros s9 Hs9 Hl9. split; [done|lia].
  - apply wp_bind, (wp_say [sockfd2; a_ret a; sockfd]); [done|]. intros s7 Hs7 E7. rewrite <-E7 in Hl6.
    apply (wp_fork_close [sockfd]); [done|simpl; lia|].
    intros s8 Hs8 Hl8. split; [done|lia].
Qed.

Lemma wp_bind2bind_round fd1 fd2 port1 port2 s : holds [fd2; fd1] s ->
  wp (bind2bind_round fd1 fd2 port1 port2)
    (fun _ s' => holds [fd2; fd1] s' /\ (length (script s') < length (script s))%nat) few_fds s.
Proof.
  intros Hs. unfold bind2bind_round.
  apply wp_bind, (wp_say [fd2; fd1]); [done|]. intros s1 Hs1 E1. rewrite <-E1. clear E1 Hs s.
  apply wp_bind, (wp_open [fd2; fd1]); [done|simpl; lia|eauto|..].
  { intros a s2 -> Hs2 Hl2. simpl. apply (wp_say_error [fd2; fd1]); [done|].
    intros s3 Hs3 E. split; [done|by rewrite E]. }
  intros a s2 Ha Hs2 Hl2. destruct (Z.ltb_spec (a_ret a) 0); [lia|].
  apply wp_bind, (wp_say [a_ret a; fd2; fd1]); [done|]. intros s3 Hs3 E3. rewrite <-E3 in Hl2.
  apply wp_bind, (wp_open [a_ret a; fd2; fd1]); [done|simpl; lia|eauto|..].
  { intros b s4 -> Hs4 Hl4. simpl. apply wp_bind, (wp_say_error [a_ret a; fd2; fd1]); [done|].
    intros s5 Hs5 E. rewrite <-E in Hl4.
    apply (wp_close [a_ret a; fd2; fd1] [fd2; fd1]); [done|simpl; lia|set_solver|].
    intros s6 Hs6 Hl6. split; [done|lia]. }
  intros b s4 Hb Hs4 Hl4. destruct (Z.ltb_spec (a_ret b) 0); [lia|].
  apply wp_bind, (wp_say [a_ret b; a_ret a; fd2; fd1]); [done|]. intros s5 Hs5 E5. rewrite <-E5 in Hl4.
  apply (wp_fork_close [fd2; fd1]); [done|simpl; lia|].
  intros s6 Hs6 Hl6. split; [done|lia].
Qed.

Lemma wp_conn2conn_round host1 port1 host2 port2 s : holds [] s ->
  wp (conn2conn_round strerror host1 port1 host2 port2)
    (fun _ s' => holds [] s' /\ (length (script s') < length (script s))%nat) few_fds s.
Proof.
  intros Hs. unfold conn2conn_round.
  apply wp_bind, (wp_create_socket []); [done|simpl; lia|..].
  { intros s1 Hs1 _. simpl. by apply (wp_quit []). }
  intros a s1 Ha Hs1 Hl1. apply Z.eqb_neq in Ha. rewrite Ha.
  apply wp_bind, (wp_create_socket [a]); [done|simpl; lia|..].
  { intros s2 Hs2 _. simpl. by apply (wp_quit [a]). }
  intros b s2 Hb Hs2 Hl2. apply Z.eqb_neq in Hb. rewrite Hb.
  apply wp_bind, (wp_say [b; a]); [done|]. intros s3 Hs3 E3. rewrite <-E3 in Hl2.
  assert (Hclose : forall s4, holds [b; a] s4 -> (length (script s4) <= length (script s3))%nat ->
    wp (sys_ (Close a) ;; sys_ (Close b) ;; ret (inr tt : unit + unit))
      (fun _ s' => holds [] s' /\ (length (script s') < length (script s))%nat) few_fds s4).
  { intros s4 Hs4 Hl4. apply wp_bind, (wp_close [b; a] [b]); [done|simpl; lia|set_solver|].
    intros s5 Hs5 Hl5. apply wp_bind, (wp_close [b] []); [done|simpl; lia|set_solver|].
    intros s6 Hs6 Hl6. apply wp_ret. split; [done|lia]. }
  apply wp_bind, (wp_client_connect [b; a]); [done|]. intros r s4 Hs4 Hl4. unfold later in Hl4.
  destruct (Z.eqb_spec r 0); [by apply Hclose; [|lia]|].
  apply wp_bind, (wp_say [b; a]); [done|]. intros s5 Hs5 E5. rewrite <-E5 in Hl4.
  apply wp_bind, (wp_say [b; a]); [done|]. intros s6 Hs6 E6. rewrite <-E6 in Hl4.
  apply wp_bind, (wp_client_connect [b; a]); [done|]. intros r' s7 Hs7 Hl7. unfold later in Hl7.
  destruct (Z.eqb_spec r' 0); [apply Hclose; [done|lia]|].
  apply wp_bind, (wp_say [b; a]); [done|]. intros s8 Hs8 E8. rewrite <-E8 in Hl7.
  apply wp_bind, (wp_result [b; a]); [done..|]. intros an s9 Hn Hs9 Hl9.
  apply Hparent, Z.eqb_neq in Hn.
  apply wp_bind, wp_unless; [exact Hn|].
  apply wp_bind, (wp_close [b; a] [b]); [done|simpl; lia|set_solver|].
  intros s10 Hs10 Hl10. apply wp_bind, (wp_close [b] []); [done|simpl; lia|set_solver|].
  intros s11 Hs11 Hl11. apply wp_ret. split; [done|lia].
Qed.

(** A driver's endless loop keeps what its round keeps. *)
Lemma wp_rounds {R} l (m : M st unit) (Q : R -> st -> Prop) s :
  holds l s ->
  (forall s, holds l s ->
     wp m (fun _ s' => holds l s' /\ (length (script s') < length (script s))%nat) few_fds s) ->
  wp (forever (fun _ : unit => m ;; ret (inl tt)) tt) Q few_fds s.
Proof.
  intros Hs Hm. apply (wp_forever (fun _ => holds l)); [done|].
  intros [] s1 Hs1. apply wp_bind. eapply wp_conseq; [by apply Hm|].
  intros [] s2 H2. by apply wp_ret.
Qed.

Lemma wp_bind2conn port1 host port2 s : holds [] s ->
  Zlen host < HOSTLEN -> Zlen (dec port2) <= 11 ->
  wp (bind2conn strerror port1 host port2) (fun _ _ => False) few_fds s.
Proof.
  intros Hs Hhost Hport. unfold bind2conn.
  apply wp_bind, (wp_create_socket []); [done|simpl; lia|intros s1 Hs1 _; by apply (wp_quit [])|].
  intros fd s1 Hne Hs1 _. apply Z.eqb_neq in Hne. rewrite Hne.
  apply wp_bind, (wp_create_serv [fd]); [done|]. intros r s2 Hs2 _.
  destruct (Z.eqb_spec r 0).
  - apply wp_bind, (wp_close [fd] []); [done|simpl; lia|set_solver|].
    intros s3 Hs3 _. by apply (wp_quit []).
  - apply (wp_rounds [fd]); [done|]. intros s3 Hs3. by apply wp_bind2conn_round.
Qed.

Lemma wp_bind2bind port1 port2 s : holds [] s ->
  wp (bind2bind port1 port2) (fun _ _ => False) few_fds s.
Proof.
  intros Hs. unfold bind2bind.
  apply wp_bind, (wp_create_socket []); [done|simpl; lia|intros s1 Hs1 _; by apply (wp_quit [])|].
  intros a s1 Ha Hs1 _. apply Z.eqb_neq in Ha. rewrite Ha.
  apply wp_bind, (wp_create_socket [a]); [done|simpl; lia|intros s2 Hs2 _; by apply (wp_quit [a])|].
  intros b s2 Hb Hs2 _. apply Z.eqb_neq in Hb. rewrite Hb.
  apply wp_bind, (wp_say [b; a]); [done|]. intros s3 Hs3 _.
  apply wp_bind, (wp_create_serv [b; a]); [done|]. intros r s4 Hs4 _.
  destruct (Z.eqb_spec r 0).
  { apply wp_bind, (wp_close [b; a] [b; a]); [done|simpl; lia|set_solver|].
    intros s5 Hs5 _. by apply (wp_quit [b; a]). }
  do 2 (apply wp_bind, (wp_say [b; a]); [done|]; intros ? ? _).
  apply wp_bind, (wp_create_serv [b; a]); [done|]. intros r' s5 Hs5 _.
  destruct (Z.eqb_spec r' 0).
  { apply wp_bind, (wp_close [b; a] [b; a]); [done|simpl; lia|set_solver|].
    intros s6 Hs6 _. by apply (wp_quit [b; a]). }
  apply wp_bind, (wp_say [b; a]); [done|]. intros s6 Hs6 _.
  apply (wp_rounds [b; a]); [done|]. intros s7 Hs7. by apply wp_bind2bind_round.
Qed.

Lemma wp_conn2conn host1 port1 host2 port2 s : holds [] s ->
  wp (conn2conn strerror host1 port1 host2 port2) (fun _ s' => holds [] s') few_fds s.
Proof.
  intros Hs. apply (wp_forever (fun _ => holds [])); [done|].
  intros [] s1 Hs1. eapply wp_conseq; [by apply wp_conn2conn_round|].
  intros [[]|[]] s2 [H2 H3]; [by split|done].
Qed.
End descriptors.

(** The printed form of an [int] has at most eleven characters. *)
Lemma dec_int_len z : INT_MIN <= z <= INT_MAX -> Zlen (dec z) <= 11.
Proof.
  unfold INT_MIN, INT_MAX. intros Hz. destruct (Z.lt_ge_cases z 0).
  - rewrite dec_neg by done. pose proof (dec_length 10 (- z)). unfold Zlen. simpl in *. lia.
  - pose proof (dec_length 10 z). unfold Zlen. simpl in *. lia.
Qed.

(** C7: the drivers do not leak descriptors. However many connections come and
    whichever calls fail (none returns a standard stream), at every moment the
    process that accepts and forks has at most four descriptors open more than
    at its start, and -slave ends with none; bind2conn and bind2bind never
    return. *)
Theorem lcx_descriptors `{Kernel} (strerror : Z -> bytes) (s : st) (host1 host2 : bytes)
  (port1 port2 : Z) (Kfd : posix_fd) (Kparent : forall a, allowed Fork a -> a_ret a <> 0)
  (Hhost : Zlen host2 < HOSTLEN) (Hport : INT_MIN <= port2 <= INT_MAX) :
  let few := few_fds (open_fds (history s)) in
  wp (bind2conn strerror port1 host2 port2) (fun _ _ => False) few s /\
  wp (bind2bind port1 port2) (fun _ _ => False) few s /\
  wp (conn2conn strerror host1 port1 host2 port2)
    (fun _ s' => open_fds (history s') ⊆ open_fds (history s)) few s.
Proof.
  assert (Hs : holds (open_fds (history s)) [] s) by (split; [simpl; lia|done]).
  split_and!.
  - apply wp_bind2conn; [done..|]. by apply dec_int_len.
  - by apply wp_bind2bind.
  - eapply wp_conseq; [by apply wp_conn2conn|]. by intros _ s' [_ ?].
Qed.

(** ** The command line *)

Section command_line.
Context (s : st).
Implicit Types (argv : list bytes) (p : Z) (a : args) (t : bytes).

(** An argument that is not an option. *)
Definition value t : Prop := testifisvalue (Some t) = 1.

Definition fits t : Prop := INT_MIN <= atol t <= INT_MAX.

Lemma value_not_option t c o : value t -> t <> 45 :: c :: o.
Proof. intros Hv ->. discriminate Hv. Qed.

Lemma arg_at argv i : 0 <= i < Zlen argv -> arg argv i s = Ret (Some (aget argv i)) s.
Proof. intros Hi. unfold arg. by destruct (_ && _) eqn:E; [|lia]. Qed.

Lemma arg_end argv : arg argv (Zlen argv) s = Ret None s.
Proof.
  unfold arg. destruct (_ && _) eqn:E; [lia|]. by rewrite Z.eqb_refl.
Qed.

Lemma arg_beyond argv i : Zlen argv < i -> arg argv i s = UB.
Proof.
  intros Hi. unfold arg. destruct (_ && _) eqn:E; [lia|]. by destruct (Z.eqb_spec i (Zlen argv)); [lia|].
Qed.

Lemma string_at_at argv i : 0 <= i < Zlen argv -> string_at argv i s = Ret (aget argv i) s.
Proof. intros Hi. unfold string_at, bind. by rewrite arg_at. Qed.

Lemma step_value argv p a : 0 <= p < Zlen argv -> value (aget argv p) ->
  parse_step argv (p, a) s = Ret (inl (p + 1, a)) s.
Proof.
  intros Hp Hv. unfold parse_step, bind. rewrite arg_at by done.
  repeat (rewrite decide_False by (by apply value_not_option)). done.
Qed.

Lemma step_end argv a : parse_step argv (Zlen argv, a) s = Ret (inr (Some a)) s.
Proof. unfold parse_step, bind. by rewrite arg_end. Qed.

Lemma port_arg_value argv k set p a q r t : q = p + k -> r = p + 1 -> 0 <= p -> 1 <= k ->
  q < Zlen argv -> value (aget argv q) -> aget argv r = t -> fits t ->
  port_arg argv k set (p, a) s = Ret (r, set (atol t) a) s.
Proof.
  intros -> -> Hp Hk Hlen Hv Ht Hi. unfold port_arg, bind. rewrite arg_at by lia. rewrite Hv. simpl.
  rewrite string_at_at, Ht by lia. unfold int32. red in Hi. apply in_int_spec in Hi. by rewrite Hi.
Qed.

(** What [strncpy] leaves in the array. *)
Definition host_copy (old t : bytes) : bytes :=
  let n := Z.min (Zlen t) (HOSTLEN - 1) in seg t 0 n ++ seg old n (Zlen old).

Lemma host_arg_value argv k get set p a q r t : q = p + k -> r = p + 1 -> 0 <= p -> 1 <= k ->
  q < Zlen argv -> value (aget argv q) -> aget argv r = t -> Zlen (get a) = HOSTLEN ->
  host_arg argv k get set (p, a) s = Ret (r, set (host_copy (get a) t) a) s.
Proof.
  intros -> -> Hp Hk Hlen Hv Ht Hg. unfold host_arg, bind. rewrite arg_at by lia. rewrite Hv. simpl.
  rewrite string_at_at, Ht by lia. pose proof (Zlen_nonneg t).
  replace (if Zlen t >? HOSTLEN - 1 then HOSTLEN - 1 else Zlen t) with (Z.min (Zlen t) (HOSTLEN - 1)).
  2: { destruct (Z.gtb_spec (Zlen t) (HOSTLEN - 1)); lia. }
  unfold memcpy, bind, guard_ok. rewrite Hg.
  unfold HOSTLEN in *. destruct (_ && _) eqn:E; [|lia]. simpl. unfold host_copy. rewrite Hg.
  by rewrite Z.add_0_l.
Qed.

Lemma value_nth argv i t : argv !! i = Some t -> aget argv (Z.of_nat i) = t.
Proof. intros Hi. unfold aget. rewrite Nat2Z.id. by apply list_lookup_total_correct. Qed.

Lemma host_copy_cstr t : no_nul t -> cstr (host_copy (zeros HOSTLEN) t) = take 39 t.
Proof.
  intros Hn. unfold host_copy. pose proof (Zlen_nonneg t).
  replace (seg t 0 (Z.min (Zlen t) (HOSTLEN - 1))) with (take 39 t).
  2: { unfold seg, HOSTLEN, Zlen in *. rewrite drop_0. destruct (decide (length t <= 39)%nat).
       - rewrite !take_ge by lia. done.
       - f_equal. lia. }
  set (n := Z.min (Zlen t) (HOSTLEN - 1)).
  assert (Hz : exists k, seg (zeros HOSTLEN) n (Zlen (zeros HOSTLEN)) = NUL :: k).
  { exists (seg (zeros HOSTLEN) (n + 1) (Zlen (zeros HOSTLEN))).
    rewrite seg_cons; [|subst n; change (Zlen (zeros HOSTLEN)) with 40; unfold HOSTLEN; lia..].
    f_equal. unfold aget, zeros. rewrite list_lookup_total_alt, lookup_replicate_2; [done|].
    subst n. unfold HOSTLEN. lia. }
  destruct Hz as [k ->]. apply cstr_app. intros Hin. apply Hn.
  rewrite <-(take_drop 39 t). set_solver.
Qed.

(** The whole run: the rounds that consume one option each. *)
Lemma loop_step {L R} n (body : L -> M st (L + R)) l l' s' :
  body l s = Ret (inl l') s -> loop n body l' s = s' -> loop (S n) body l s = s'.
Proof. intros Hb Hl. simpl. unfold bind. by rewrite Hb. Qed.

Lemma loop_stop {L R} n (body : L -> M st (L + R)) l r s' :
  body l s = Ret (inr r) s' -> loop (S n) body l s = Ret r s'.
Proof. intros Hb. simpl. unfold bind. by rewrite Hb. Qed.

(** *** One option each *)

Ltac values := first [assumption | lia
  | match goal with E : aget _ _ = _ |- value (aget _ _) => rewrite E; assumption end].

(** Select the branch of a known option. *)
Ltac option_branch :=
  unfold parse_step; unfold bind at 1; rewrite arg_at by lia;
  match goal with E : aget _ _ = B _ |- _ => rewrite E end;
  repeat (rewrite decide_False by (vm_compute; discriminate)); rewrite decide_True by reflexivity.

Lemma step_listen argv p a t1 t2 : 0 <= p -> p + 2 < Zlen argv ->
  aget argv p = B "-listen" -> aget argv (p + 1) = t1 -> aget argv (p + 2) = t2 ->
  value t1 -> value t2 -> fits t1 -> fits t2 ->
  parse_step argv (p, a) s =
    Ret (inl (p + 3, set_port2 (atol t2) (set_port1 (atol t1) (set_meth LISTEN a)))) s.
Proof.
  intros Hp Hl E E1 E2 V1 V2 F1 F2. option_branch. unfold bind.
  rewrite (port_arg_value argv 1 _ p _ (p + 1) (p + 1) t1) by values.
  rewrite (port_arg_value argv 1 _ (p + 1) _ (p + 2) (p + 2) t2) by values.
  unfold ret. do 3 f_equal. lia.
Qed.

Lemma step_slave argv p a t1 t2 t3 t4 : 0 <= p -> p + 4 < Zlen argv ->
  aget argv p = B "-slave" -> aget argv (p + 1) = t1 -> aget argv (p + 2) = t2 ->
  aget argv (p + 3) = t3 -> aget argv (p + 4) = t4 ->
  value t1 -> value t2 -> value t3 -> value t4 -> fits t2 -> fits t4 ->
  Zlen (host1 a) = HOSTLEN -> Zlen (host2 a) = HOSTLEN ->
  parse_step argv (p, a) s =
    Ret (inl (p + 5, Args (host_copy (host1 a) t1) (host_copy (host2 a) t3) (atol t2) (atol t4)
                       SLAVE (logfile a))) s.
Proof.
  intros Hp Hl E E1 E2 E3 E4 V1 V2 V3 V4 F2 F4 H1 H2. option_branch. unfold bind.
  rewrite (host_arg_value argv 1 _ _ p _ (p + 1) (p + 1) t1) by values.
  rewrite (port_arg_value argv 1 _ (p + 1) _ (p + 2) (p + 2) t2) by values.
  rewrite (host_arg_value argv 1 _ _ (p + 2) _ (p + 3) (p + 3) t3) by values.
  rewrite (port_arg_value argv 1 _ (p + 3) _ (p + 4) (p + 4) t4) by values.
  unfold ret. do 3 f_equal. lia.
Qed.

(** [-tran] looks two places beyond its own arguments. *)
Lemma step_tran argv p a t1 t2 t3 : 0 <= p -> p + 5 < Zlen argv ->
  aget argv p = B "-tran" -> aget argv (p + 1) = t1 -> aget argv (p + 2) = t2 ->
  aget argv (p + 3) = t3 -> value t1 -> value t3 -> value (aget argv (p + 5)) ->
  fits t1 -> fits t3 -> Zlen (host2 a) = HOSTLEN ->
  parse_step argv (p, a) s =
    Ret (inl (p + 4, Args (host1 a) (host_copy (host2 a) t2) (atol t1) (atol t3) TRAN (logfile a))) s.
Proof.
  intros Hp Hl E E1 E2 E3 V1 V3 V5 F1 F3 H2. option_branch. unfold bind.
  rewrite (port_arg_value argv 1 _ p _ (p + 1) (p + 1) t1) by values.
  rewrite (host_arg_value argv 2 _ _ (p + 1) _ (p + 3) (p + 2) t2) by values.
  rewrite (port_arg_value argv 3 _ (p + 2) _ (p + 5) (p + 3) t3) by values.
  unfold ret. do 3 f_equal. lia.
Qed.

Lemma step_tran_over argv p a t1 t2 t3 : 0 <= p -> Zlen argv = p + 4 ->
  aget argv p = B "-tran" -> aget argv (p + 1) = t1 -> aget argv (p + 2) = t2 ->
  aget argv (p + 3) = t3 -> value t1 -> value t3 -> fits t1 -> Zlen (host2 a) = HOSTLEN ->
  parse_step argv (p, a) s = UB.
Proof.
  intros Hp Hl E E1 E2 E3 V1 V3 F1 H2. option_branch. unfold bind.
  rewrite (port_arg_value argv 1 _ p _ (p + 1) (p + 1) t1) by values.
  rewrite (host_arg_value argv 2 _ _ (p + 1) _ (p + 3) (p + 2) t2) by values.
  unfold port_arg, bind. by rewrite arg_beyond by lia.
Qed.

Lemma step_log argv p a t : 0 <= p -> p + 1 < Zlen argv ->
  aget argv p = B "-log" -> aget argv (p + 1) = t -> value t ->
  parse_step argv (p, a) s = Ret (inl (p + 2, set_logfile t a)) s.
Proof.
  intros Hp Hl E E1 V1. option_branch. unfold bind. rewrite arg_at, E1 by lia. rewrite V1. simpl.
  by rewrite string_at_at, E1 by lia.
Qed.
End command_line.

(** ** Commands *)

(** What the usage text offers, and the command line that asks for it. *)
Inductive command :=
| CListen (p1 p2 : Z)
| CSlave (h1 : bytes) (p1 : Z) (h2 : bytes) (p2 : Z)
| CTran (p1 : Z) (h2 : bytes) (p2 : Z).

Definition render (prog : bytes) (c : command) (log : option bytes) : list bytes :=
  prog :: match c with
          | CListen p1 p2 => [B "-listen"; dec p1; dec p2]
          | CSlave h1 p1 h2 p2 => [B "-slave"; h1; dec p1; h2; dec p2]
          | CTran p1 h2 p2 => [B "-tran"; dec p1; h2; dec p2]
          end ++ match log with Some f => [B "-log"; f] | None => [] end.

(** What the locals of [main] say to its [switch]. *)
Definition denotes (a : args) : option command :=
  match meth a with
  | LISTEN => Some (CListen (port1 a) (port2 a))
  | SLAVE => Some (CSlave (cstr (host1 a)) (port1 a) (cstr (host2 a)) (port2 a))
  | TRAN => Some (CTran (port1 a) (cstr (host2 a)) (port2 a))
  | NOMETHOD => None
  end.

(** Hosts fit their arrays and are no options, ports are not negative. *)
Definition host_fits (h : bytes) : Prop := value h /\ no_nul h /\ (length h <= 39)%nat.
Definition port_fits (n : Z) : Prop := 0 <= n <= INT_MAX.
Definition command_fits (c : command) : Prop :=
  match c with
  | CListen p1 p2 => port_fits p1 /\ port_fits p2
  | CSlave h1 p1 h2 p2 => host_fits h1 /\ port_fits p1 /\ host_fits h2 /\ port_fits p2
  | CTran p1 h2 p2 => port_fits p1 /\ host_fits h2 /\ port_fits p2
  end.
Definition is_tran (c : command) : bool := match c with CTran _ _ _ => true | _ => false end.

Lemma value_dec n : 0 <= n -> value (dec n).
Proof.
  intros Hn. unfold value. pose proof (dec_isdigit n Hn) as Hd. pose proof (dec_length_pos n Hn).
  destruct (dec n) as [|c l]; [simpl in *; lia|]. apply Forall_cons in Hd as [Hc _].
  simpl. unfold isdigit in Hc.
  destruct (decide (c = 45)) as [->|Hne]; [done|].
  repeat (destruct c as [|c|c]; try done).
Qed.

Lemma atol_dec n : 0 <= n -> atol (dec n) = n.
Proof. intros Hn. rewrite <-(app_nil_r (dec n)). by apply atol_digits. Qed.

Lemma fits_dec n : port_fits n -> fits (dec n).
Proof.
  unfold port_fits, fits, INT_MIN. intros. rewrite atol_dec; lia.
Qed.

Lemma host_back h : host_fits h -> cstr (host_copy (zeros HOSTLEN) h) = h.
Proof. intros (_ & Hn & Hl). rewrite host_copy_cstr by done. by apply take_ge. Qed.

(** The rounds of [parse]: the program's name, the option with its values, the
    log file, the end. *)
Lemma parse_rounds (s : st) prog rest log p a :
  let argv := prog :: rest ++ match log with Some f => [B "-log"; f] | None => [] end in
  value prog -> (forall f, log = Some f -> value f) -> rest <> [] -> p = 1 + Zlen rest ->
  parse_step argv (1, no_args) s = Ret (inl (p, a)) s ->
  parse argv s = Ret (Some (match log with Some f => set_logfile f a | None => a end)) s.
Proof.
  intros argv Hprog Hlog Hrest Hp Hstep. unfold parse.
  destruct rest as [|x rest]; [done|].
  assert (H0 : parse_step argv (0, no_args) s = Ret (inl (1, no_args)) s) by by apply (step_value s argv 0).
  assert (Hlen : Zlen argv = p + match log with Some _ => 2 | None => 0 end).
  { subst argv p. rewrite app_comm_cons. rewrite Zlen_app. unfold Zlen. destruct log; simpl; lia. }
  assert (Hat : forall f, log = Some f -> aget argv p = B "-log" /\ aget argv (p + 1) = f).
  { intros f ->. subst argv. rewrite app_comm_cons. unfold aget, Zlen in *.
    split; (rewrite list_lookup_total_alt, lookup_app_r by (simpl length in *; lia)).
    - replace (_ - _)%nat with 0%nat by (simpl length in *; lia). done.
    - replace (_ - _)%nat with 1%nat by (simpl length in *; lia). done. }
  pose proof (Zlen_nonneg (x :: rest)). clearbody argv. destruct (length argv) as [|[|n]] eqn:El.
  { unfold Zlen in Hlen. rewrite El in Hlen. simpl in *. destruct log; unfold Zlen in *; simpl in *; lia. }
  { unfold Zlen in Hlen. rewrite El in Hlen. simpl in *. destruct log; unfold Zlen in *; simpl in *; lia. }
  eapply loop_step; [exact H0|]. eapply loop_step; [exact Hstep|].
  destruct log as [f|].
  - destruct (Hat f eq_refl) as [E1 E2]. destruct n as [|n].
    { unfold Zlen in Hlen. simpl in *. unfold Zlen in *. simpl in *. lia. }
    eapply loop_step; [apply (step_log s argv p a f); [lia|lia|done|done|by apply Hlog]|].
    rewrite <-Hlen. apply loop_stop, step_end.
  - rewrite Z.add_0_r in Hlen. rewrite <-Hlen. apply loop_stop, step_end.
Qed.

(** The command line. For every command of the usage text, with or without
    a log file, whose hosts fit and whose ports are numbers, [main] reads back
    exactly that command; except [-tran], for which this only holds when [-log]
    follows. *)
Theorem lcx_command_roundtrip (s : st) (prog : bytes) (c : command) (log : option bytes)
  (Hprog : value prog) (Hc : command_fits c) (Hl : forall f, log = Some f -> value f)
  (Htran : is_tran c = true -> log <> None) :
  exists a, parse (render prog c log) s = Ret (Some a) s /\ denotes a = Some c /\ logfile a = log.
Proof.
  destruct c as [p1 p2|h1 p1 h2 p2|p1 h2 p2]; unfold render; simpl in Hc.
  - destruct Hc as [F1 F2].
    pose proof (proj1 F1). pose proof (proj1 F2).
    eexists. split; [|split].
    + eapply (parse_rounds s prog [B "-listen"; dec p1; dec p2] log 4); [done..|].
      apply (step_listen s _ 1 _ (dec p1) (dec p2)); try done; try (by apply value_dec); try (by apply fits_dec).
      rewrite app_comm_cons, Zlen_app. unfold Zlen; simpl; lia.
    + destruct log; unfold denotes; simpl; by rewrite !atol_dec.
    + by destruct log.
  - destruct Hc as (G1 & F1 & G2 & F2).
    pose proof (proj1 F1). pose proof (proj1 F2).
    eexists. split; [|split].
    + eapply (parse_rounds s prog [B "-slave"; h1; dec p1; h2; dec p2] log 6); [done..|].
      apply (step_slave s _ 1 _ h1 (dec p1) h2 (dec p2)); try done;
        try (by apply value_dec); try (by apply fits_dec); try (by apply G1); try (by apply G2).
      rewrite app_comm_cons, Zlen_app. unfold Zlen; simpl; lia.
    + destruct log; unfold denotes; simpl; rewrite !atol_dec, !host_back; done.
    + by destruct log.
  - destruct Hc as (F1 & G2 & F2).
    pose proof (proj1 F1). pose proof (proj1 F2).
    destruct log as [f|]; [|by destruct Htran]. exists (Args (zeros HOSTLEN) (host_copy (zeros HOSTLEN) h2) p1 p2 TRAN (Some f)).
    split; [|split].
    + rewrite (parse_rounds s prog [B "-tran"; dec p1; h2; dec p2] (Some f) 5
        (Args (zeros HOSTLEN) (host_copy (zeros HOSTLEN) h2) p1 p2 TRAN None)); [done..|].
      rewrite <-(atol_dec p1) at 2 by done. rewrite <-(atol_dec p2) at 2 by done.
      apply (step_tran s _ 1 no_args (dec p1) h2 (dec p2)); try done;
        try (by apply value_dec); try (by apply fits_dec). by apply Hl.
    + unfold denotes. simpl. by rewrite host_back.
    + done.
Qed.

(** [-tran] as the usage text gives it, [-tran port1 host2 port2], reads the
    argument vector beyond its terminating null pointer: the offsets 2 and 3 are
    added to a pointer that has already moved. *)
Theorem lcx_tran_overread (s : st) (prog h2 : bytes) (p1 p2 : Z)
  (Hprog : value prog) (Hp1 : port_fits p1) (Hp2 : port_fits p2) :
  parse (render prog (CTran p1 h2 p2) None) s = UB.
Proof.
  pose proof (proj1 Hp1). pose proof (proj1 Hp2). unfold render, parse. simpl length.
  eapply loop_step; [by apply (step_value s _ 0)|]. unfold loop, bind.
  rewrite (step_tran_over s _ 1 no_args (dec p1) h2 (dec p2)); try done;
    try (by apply value_dec); by apply fits_dec.
Qed.

(** The kernel as the process that forks sees it. *)
Definition parent_linux : Kernel := fun h c a =>
  @may linux h c a && match c with Fork => negb (a_ret a =? 0) | _ => true end.

Lemma parent_linux_fd : @posix_fd parent_linux.
Proof. intros c a [h Ha]. apply andb_prop in Ha as [Ha _]. apply linux_fd. by exists h. Qed.

Lemma lcx_descriptors_witness :
  let s := Proc [number 3; number 0; number 0; number 0; number 4; number 5] [] 0 None in
  let few := few_fds (open_fds (history s)) in
  wp (@bind2conn parent_linux (fun _ => []) 8080 (B "example.org") 80) (fun _ _ => False) few s /\
  wp (@bind2bind parent_linux 8080 80) (fun _ _ => False) few s /\
  wp (@conn2conn parent_linux (fun _ => []) (B "a.org") 8080 (B "example.org") 80)
    (fun _ s' => open_fds (history s') ⊆ open_fds (history s)) few s.
Proof.
  intros s few. apply (@lcx_descriptors parent_linux (fun _ => []) s (B "a.org") (B "example.org")).
  - exact parent_linux_fd.
  - intros a [h Ha]. apply andb_prop in Ha as [_ Ha]. intros E. rewrite E in Ha. discriminate Ha.
  - reflexivity.
  - unfold INT_MIN, INT_MAX. lia.
Defined.

Lemma lcx_command_roundtrip_witness :
  exists a, parse (render (B "lcx") (CTran 8080 (B "example.org") 80) (Some (B "f.log")))
    (Proc [] [] 0 None) = Ret (Some a) (Proc [] [] 0 None) /\
    denotes a = Some (CTran 8080 (B "example.org") 80) /\ logfile a = Some (B "f.log").
Proof.
  apply lcx_command_roundtrip.
  - reflexivity.
  - unfold command_fits, port_fits, host_fits, no_nul, INT_MAX. split; [lia|]. split; [|lia].
    split; [reflexivity|]. split; [|simpl; lia]. vm_compute. set_solver.
  - intros f [= <-]. reflexivity.
  - discriminate.
Defined.

Lemma lcx_tran_overread_witness :
  parse (render (B "lcx") (CTran 8080 (B "example.org") 80) None) (Proc [] [] 0 None) = UB.
Proof.
  apply lcx_tran_overread; [reflexivity|unfold port_fits, INT_MAX; lia..].
Defined.
