(* ===== verification/ErrorLog.v ===== *)
(** ErrorLog: the error routines of apue.3e/lib/error.c and, for programs that
    may run as daemons, apue/errorlog.c. The text an argument list formats to is
    an argument; [strerror] is a parameter. *)
From stdpp Require Import list strings.
From S2P Require Import Prelude Arrays Bytes Sys.

Definition MAXLINE : Z := 4096.
Definition LOG_ERR : Z := 3.

(** The status of [abort]. *)
Definition ABORTED : Z := 134.

Section errors.
Context (strerror : Z -> bytes) {V : Type}.

(** The first [n - 1] bytes: what [snprintf] stores in [n] bytes. *)
Definition snprintf (n : Z) (text : bytes) : bytes := take (Z.to_nat (n - 1)) text.

(** The line both [doit] functions build in [buf]; [strcat] must fit. *)
Definition message_line (errnoflag : bool) (error : Z) (text : bytes) : M (proc V) bytes :=
  let buf := snprintf (MAXLINE - 1) text in
  let buf := if errnoflag
             then buf ++ snprintf (MAXLINE - Zlen buf - 1) (B ": " ++ strerror error)
             else buf in
  guard_ok (Zlen buf + 2 <=? MAXLINE) ;;
  ret (buf ++ [NEWLINE]).

Definition err_doit (errnoflag : bool) (error : Z) (text : bytes) : M (proc V) unit :=
  buf <- message_line errnoflag error text ;; fputs_stderr buf.

Definition err_ret (text : bytes) : M (proc V) unit :=
  e <- gets errno ;; err_doit true e text.
Definition err_sys {A} (text : bytes) : M (proc V) A :=
  e <- gets errno ;; err_doit true e text ;; exit_ 1.
Definition err_cont (error : Z) (text : bytes) : M (proc V) unit := err_doit true error text.
Definition err_exit {A} (error : Z) (text : bytes) : M (proc V) A :=
  err_doit true error text ;; exit_ 1.
Definition err_dump {A} (text : bytes) : M (proc V) A :=
  e <- gets errno ;; err_doit true e text ;; exit_ ABORTED.
Definition err_msg (text : bytes) : M (proc V) unit := err_doit false 0 text.
Definition err_quit {A} (text : bytes) : M (proc V) A := err_doit false 0 text ;; exit_ 1.

(** *** errorlog.c *)

(** The caller's variable [log_to_stderr]. *)
Context (log_to_stderr : V -> Z).

Definition log_open (openlog : M (proc V) unit) : M (proc V) unit :=
  l <- getvar log_to_stderr ;; when l =? 0 do openlog.

Definition log_doit (errnoflag : bool) (error priority : Z) (text : bytes) : M (proc V) unit :=
  buf <- message_line errnoflag error text ;;
  l <- getvar log_to_stderr ;;
  if negb (l =? 0) then fputs_stderr buf else syslog priority buf.

Definition log_ret (text : bytes) : M (proc V) unit :=
  e <- gets errno ;; log_doit true e LOG_ERR text.
Definition log_sys {A} (text : bytes) : M (proc V) A :=
  e <- gets errno ;; log_doit true e LOG_ERR text ;; exit_ 2.
Definition log_msg (text : bytes) : M (proc V) unit := log_doit false 0 LOG_ERR text.
Definition log_quit {A} (text : bytes) : M (proc V) A := log_doit false 0 LOG_ERR text ;; exit_ 2.
Definition log_exit {A} (error : Z) (text : bytes) : M (proc V) A :=
  log_doit true error LOG_ERR text ;; exit_ 2.

(** *** No message overruns its buffer *)

Lemma Zlen_snprintf n t : 1 <= n -> Zlen (snprintf n t) <= n - 1.
Proof. intros Hn. unfold snprintf, Zlen. rewrite length_take. lia. Qed.

Lemma message_line_ok f e t s : exists b,
  message_line f e t s = Ret (b ++ [NEWLINE]) s /\ Zlen b + 2 <= MAXLINE.
Proof.
  unfold message_line, MAXLINE, bind, guard_ok.
  pose proof (Zlen_snprintf (4096 - 1) t) as H1. destruct f.
  - set (b := snprintf (4096 - 1) t) in *.
    pose proof (Zlen_snprintf (4096 - Zlen b - 1) (B ": " ++ strerror e)) as H2.
    rewrite Zlen_app. destruct (Z.leb_spec (Zlen b + Zlen (snprintf (4096 - Zlen b - 1) (B ": " ++ strerror e)) + 2) 4096); [|lia].
    eexists. split; [done|]. rewrite Zlen_app. lia.
  - destruct (Z.leb_spec (Zlen (snprintf (4096 - 1) t) + 2) 4096); [|lia].
    eexists. split; [done|]. lia.
Qed.

(** Every routine prints one line and goes on or ends the process. *)
Lemma wp_err_doit f e t (Q : unit -> proc V -> Prop) X s :
  (forall b, Q tt (record_event (Stderr b) s)) -> wp (err_doit f e t) Q X s.
Proof.
  intros HQ. unfold err_doit. apply wp_bind.
  destruct (message_line_ok f e t s) as (b & Eb & _). eapply wp_of_run; [exact Eb|].
  apply wp_modify, HQ.
Qed.

Lemma wp_log_doit f e p t (Q : unit -> proc V -> Prop) X s :
  (forall ev, (exists b, ev = Stderr b \/ ev = Syslog p b) -> Q tt (record_event ev s)) ->
  wp (log_doit f e p t) Q X s.
Proof.
  intros HQ. unfold log_doit. apply wp_bind.
  destruct (message_line_ok f e t s) as (b & Eb & _). eapply wp_of_run; [exact Eb|].
  unfold getvar. apply wp_bind, wp_gets. destruct (negb _); apply wp_modify, HQ; eauto.
Qed.
End errors.
