(* ===== verification/FdPass.v ===== *)
(** FdPass: the functions of apue/14.7, 17.2, 17.3, 17.4 and 13.3 that the open
    servers are made of: complete reads and writes, passing of descriptors and
    error messages over a socket, connections by path name, daemons. The
    static control buffers ([cmptr]) are flags: allocated or not. *)
From stdpp Require Import list strings.
From S2P Require Import Prelude Arrays Bytes Sys ErrorLog.

Section io.
Context `{Kernel} {V : Type}.
Notation M' := (M (proc V)).

(** ** 14.7: readn, writen *)

(** The locals are [nleft] and what has been stored; [size_t] wraps around. The
    result is the return value and the bytes stored. *)
Definition readn (fd n : Z) : M' (Z * bytes) :=
  forever (fun '(nleft, got) =>
    if 0 <? nleft then
      a <- sys (Read fd nleft) ;;
      let nread := a_ret a in
      if nread <? 0 then
        if nleft =? n then ret (inr (-1, got)) else ret (inr (n - nleft, got))
      else if nread =? 0 then ret (inr (n - nleft, got))
      else ret (inl (u64 (nleft - nread), got ++ a_data a))
    else ret (inr (n - nleft, got))) (n, []).

Definition writen (fd : Z) (data : bytes) (n : Z) : M' Z :=
  guard_ok (n <=? Zlen data) ;;
  forever (fun nleft =>
    if 0 <? nleft then
      nwriten <- sysret (Write fd (seg data (n - nleft) n)) ;;
      if nwriten <? 0 then
        if nleft =? n then ret (inr (-1)) else ret (inr (n - nleft))
      else if nwriten =? 0 then ret (inr (n - nleft))
      else ret (inl (u64 (nleft - nwriten)))
    else ret (inr (n - nleft))) n.

(** ** 17.2: fd_pipe *)

Definition fd_pipe : M' (Z * Z * Z) :=
  a <- sys Socketpair ;; ret (a_ret a, aget (a_rd a) 0, aget (a_rd a) 1).

(** ** 17.4: descriptors over a socket *)

(** [CMSG_ALIGN], [CMSG_LEN], where a word has [word] bytes (4 or 8) and the
    header of a control message is a [size_t] and two [int]s. *)
Context (word : Z).
Definition CMSG_ALIGN (n : Z) : Z := (n + word - 1) / word * word.
Definition CMSG_LEN (n : Z) : Z := CMSG_ALIGN (word + 8) + n.
Definition CONTROLLEN : Z := CMSG_LEN 4.
Definition RIGHTSLEN : Z := CMSG_LEN 4.
Definition CREDSLEN : Z := CMSG_LEN 12.
Definition CONTROLLEN_cert : Z := RIGHTSLEN + CREDSLEN.

(** [cmptr != NULL || (cmptr = malloc(len)) != NULL]. *)
Definition have_cmptr (cmptr : lens V bool) (len : Z) : M' bool :=
  c <- getvar (view cmptr) ;;
  if c : bool then ret true
  else p <- sysret (Malloc len) ;;
       if p =? 0 then ret false else setvars (over cmptr true) ;; ret true.

(** The second byte of the message: the status of an error, never 0. *)
Definition status_byte (fd_to_send : Z) : Z :=
  let b := u8 (- fd_to_send) in if b =? 0 then 1 else b.

Definition send_fd (cmptr : lens V bool) (fd fd_to_send : Z) : M' Z :=
  if fd_to_send <? 0 then
    n <- sysret (Sendmsg fd [0; status_byte fd_to_send] [] None) ;;
    if negb (n =? 2) then ret (-1) else ret 0
  else
    ok <- have_cmptr cmptr CONTROLLEN ;;
    if negb ok then ret (-1)
    else
      n <- sysret (Sendmsg fd [0; 0] [fd_to_send] None) ;;
      if negb (n =? 2) then ret (-1) else ret 0.

(** [strlen] is taken of a C string. *)
Definition send_err (cmptr : lens V bool) (fd errcode : Z) (msg : bytes) : M' Z :=
  let n := Zlen msg in
  w <- (if 0 <? n then writen fd msg n else ret n) ;;
  if negb (w =? n) then ret (-1)
  else
    let errcode := if 0 <=? errcode then -1 else errcode in
    r <- send_fd cmptr fd errcode ;;
    if r <? 0 then ret (-1) else ret 0.

Context (strerror : Z -> bytes).

(** The scan of a chunk; [res] is what a status has set: [newfd], for the
    version below with the owner. [on_zero] and [on_error] are the branches. *)
Definition recv_scan {A} (on_zero : M' A) (on_error : Z -> A) (buf : bytes) (nr : Z) (res : option A)
  : M' (Z * option A) :=
  loop (S (Z.to_nat nr)) (fun '(ptr, nr, res) =>
    if ptr <? nr then
      if aget buf ptr =? 0 then
        if negb (ptr + 1 =? nr - 1) then err_dump strerror (B "message format error")
        else
          let status := aget buf (ptr + 1) in
          v <- (if status =? 0 then on_zero else ret (on_error status)) ;;
          ret (inl (ptr + 1, nr - 2, Some v))
      else ret (inl (ptr + 1, nr, res))
    else ret (inr (nr, res))) (0, nr, res).

(** What follows the scan: hand over the text; [failed] when that fails, and
    leave the loop when there is a result. *)
Definition recv_finish {A} (userfunc : Z -> bytes -> M' Z) (failed : A) (buf : bytes) (nr : Z)
  (res : option A) : M' (option A + A) :=
  w <- (if 0 <? nr then userfunc 2 (take (Z.to_nat nr) buf) else ret nr) ;;
  if (0 <? nr) && negb (w =? nr) then ret (inr failed)
  else match res with Some v => ret (inr v) | None => ret (inl None) end.

Definition recv_fd (cmptr : lens V bool) (fd : Z) (userfunc : Z -> bytes -> M' Z) : M' Z :=
  forever (fun res =>
    ok <- have_cmptr cmptr CONTROLLEN ;;
    if negb ok then ret (inr (-1))
    else
      a <- sys (Recvmsg fd MAXLINE) ;;
      let nr := a_ret a in
      if nr <? 0 then err_ret strerror (B "recvmsg error") ;; ret (inr (-1))
      else if nr =? 0 then err_ret strerror (B "connection closed by server") ;; ret (inr (-1))
      else
        let on_zero :=
          match a_rd a with
          | [] => err_dump strerror (B "status = 0 but no fd")
          | newfd :: _ => ret newfd
          end in
        let! (nr, res) := recv_scan on_zero Z.opp (a_data a) nr res in
        recv_finish userfunc (-1) (a_data a) nr res) None.

(** *** The versions with credentials *)

(** The second header starts at an aligned offset, and all of both messages
    must fit the control buffer. *)
Definition send_fd_cert (cmptr : lens V bool) (fd fd_to_send : Z) : M' Z :=
  if fd_to_send <? 0 then
    n <- sysret (Sendmsg fd [0; status_byte fd_to_send] [] None) ;;
    if negb (n =? 2) then ret (-1) else ret 0
  else
    ok <- have_cmptr cmptr CONTROLLEN_cert ;;
    if negb ok then ret (-1)
    else
      guard_ok (CMSG_ALIGN RIGHTSLEN + CREDSLEN <=? CONTROLLEN_cert) ;;
      uid <- sysret Geteuid ;;
      sys_ Getegid ;;
      sys_ Getpid ;;
      n <- sysret (Sendmsg fd [0; 0] [fd_to_send] (Some uid)) ;;
      if negb (n =? 2) then ret (-1) else ret 0.

(** The answer to [recvmsg] has the length of the control data as its number and
    the credentials as the owner in [a_stat]. The result carries what is stored
    in [uidptr]. *)
Definition recv_ufd (cmptr : lens V bool) (fd uid : Z) (userfunc : Z -> bytes -> M' Z)
  : M' (Z * Z) :=
  r <- sysret (Setsockopt fd) ;;
  if r <? 0 then err_ret strerror (B "setsockopt error") ;; ret (-1, uid)
  else
    forever (fun res =>
      ok <- have_cmptr cmptr CONTROLLEN_cert ;;
      if negb ok then ret (inr (-1, uid))
      else
        a <- sys (Recvmsg fd MAXLINE) ;;
        let nr := a_ret a in
        if nr <? 0 then err_ret strerror (B "recvmsg error") ;; ret (inr (-1, uid))
        else if nr =? 0 then err_ret strerror (B "connection closed by server") ;; ret (inr (-1, uid))
        else
          let on_zero :=
            if negb (a_num a =? CONTROLLEN_cert) then err_dump strerror (B "status = 0 but no fd")
            else ret (match a_rd a with newfd :: _ => newfd | [] => -1 end, st_uid (a_stat a)) in
          let! (nr, res) := recv_scan on_zero (fun status => (- status, uid)) (a_data a) nr res in
          recv_finish userfunc (-1, match res with Some v => snd v | None => uid end)
            (a_data a) nr res) None.

(** ** 17.3: connections by path name *)

(** The size of [sun_path]. *)
Definition SUN_PATH : Z := 108.
Definition ENAMETOOLONG : Z := 36.
Definition QLEN : Z := 10.
Definition STALE : Z := 30.
Definition CLI_PATH : bytes := B "/var/tmp/".
Definition S_IFMT : Z := 61440.
Definition S_IFSOCK : Z := 49152.
Definition S_IRWXU : Z := 448.
Definition S_IRWXG : Z := 56.
Definition S_IRWXO : Z := 7.
Definition CLI_PERM : Z := S_IRWXU.

(** [errout]: close, and keep the [errno] of the failure. *)
Definition errout (fd rval : Z) (cleanup : M' unit) : M' Z :=
  err <- gets errno ;;
  sys_ (Close fd) ;;
  cleanup ;;
  set_errno err ;;
  ret rval.

Definition serv_listen (name : bytes) : M' Z :=
  if SUN_PATH <=? Zlen name then set_errno ENAMETOOLONG ;; ret (-1)
  else
    fd <- sysret Socket ;;
    if fd <? 0 then ret (-2)
    else
      sys_ (Unlink name) ;;
      r <- sysret (BindPath fd name) ;;
      if r <? 0 then errout fd (-3) (ret tt)
      else
        r <- sysret (Listen fd QLEN) ;;
        if r <? 0 then errout fd (-4) (ret tt) else ret fd.

(** The path name of the client is the data of the answer to [accept]; the
    result is the descriptor and the owner of that name. *)
Definition serv_accept (listenfd : Z) : M' (Z * Z) :=
  name <- sysret (Malloc (SUN_PATH + 1)) ;;
  if name =? 0 then ret (-1, 0)
  else
    a <- sys (Accept listenfd) ;;
    let clifd := a_ret a in
    if clifd <? 0 then ret (-2, 0)
    else
      guard_ok (Zlen (a_data a) <=? SUN_PATH) ;;
      let name := cstr (a_data a) in
      st <- sys (Stat name) ;;
      let statbuf := a_stat st in
      let fail rval := v <- errout clifd rval (ret tt) ;; ret (v, 0) in
      if a_ret st <? 0 then fail (-3)
      else if negb (Z.land (st_mode statbuf) S_IFMT =? S_IFSOCK) then fail (-4)
      else if negb (Z.land (st_mode statbuf) (Z.lor S_IRWXG S_IRWXO) =? 0)
              || negb (Z.land (st_mode statbuf) S_IRWXU =? S_IRWXU) then fail (-5)
      else
        now <- sysret Time ;;
        let staletime := now - STALE in
        if (st_atime statbuf <? staletime) || (st_ctime statbuf <? staletime)
           || (st_mtime statbuf <? staletime) then fail (-6)
        else sys_ (Unlink name) ;; ret (clifd, st_uid statbuf).

(** "%05ld". *)
Definition pad5 (n : Z) : bytes := replicate (5 - length (dec n)) 48 ++ dec n.

Definition cli_conn (name : bytes) : M' Z :=
  if SUN_PATH <=? Zlen name then set_errno ENAMETOOLONG ;; ret (-1)
  else
    fd <- sysret Socket ;;
    if fd <? 0 then ret (-1)
    else
      pid <- sysret Getpid ;;
      let un := CLI_PATH ++ pad5 pid in
      guard_ok (Zlen un <? SUN_PATH) ;;
      sys_ (Unlink un) ;;
      r <- sysret (BindPath fd un) ;;
      if r <? 0 then errout fd (-2) (ret tt)
      else
        r <- sysret (Chmod un CLI_PERM) ;;
        if r <? 0 then errout fd (-3) (sys_ (Unlink un))
        else
          r <- sysret (ConnectPath fd name) ;;
          if r <? 0 then errout fd (-4) (sys_ (Unlink un)) else ret fd.

(** ** 13.3: daemonize *)

Definition SIGHUP : Z := 1.
Definition RLIM_INFINITY : Z := 2 ^ 64 - 1.
Definition O_RDWR : Z := 2.

Definition daemonize (cmd : bytes) : M' unit :=
  printf (B "into daemonize" ++ [NEWLINE]) ;;
  sys_ (Umask 0) ;;
  rl <- sys Getrlimit ;;
  if a_ret rl <? 0 then err_quit strerror (cmd ++ B ": can't get file limit") else
  pid <- sysret Fork ;;
  if pid <? 0 then err_quit strerror (cmd ++ B ": can't fork") else
  if negb (pid =? 0) then exit_ 0 else
  sys_ Setsid ;;
  r <- sysret (Sigaction SIGHUP) ;;
  if r <? 0 then err_quit strerror (cmd ++ B ": can't ignore SIGHUP") else
  pid <- sysret Fork ;;
  if pid <? 0 then err_quit strerror (cmd ++ B ": can't fork") else
  if negb (pid =? 0) then exit_ 0 else
  r <- sysret (Chdir (B "/")) ;;
  if r <? 0 then err_quit strerror (cmd ++ B ": can't change directory to /") else
  let rlim_max := if a_num rl =? RLIM_INFINITY then 1024 else a_num rl in
  forever (fun i => if i <? rlim_max then sys_ (Close i) ;; i <- int32 (i + 1) ;; ret (inl i)
                    else ret (inr tt)) 0 ;;
  fd0 <- sysret (Open (B "/dev/null") O_RDWR) ;;
  fd1 <- sysret (Dup 0) ;;
  fd2 <- sysret (Dup 0) ;;
  openlog cmd ;;
  if negb (fd0 =? 0) || negb (fd1 =? 1) || negb (fd2 =? 2) then
    syslog LOG_ERR (B "unexpected file descriptors " ++ dec fd0 ++ B " " ++ dec fd1 ++ B " " ++ dec fd2) ;;
    exit_ 1
  else ret tt.

End io.
