(* ===== verification/FdPassProofs.v ===== *)
(** FdPassProofs: complete reads and writes, and the round trip of descriptors
    and error messages over a socket (apue/14.7 and 17.4). *)
From stdpp Require Import sets list strings.
From S2P Require Import Prelude Arrays Bytes Sys ErrorLog FdPass.

(** ** What goes over a socket *)

Definition sent_by (fd : Z) (e : event) : bytes :=
  match e with
  | Called (Write fd' data) a | Called (Sendmsg fd' data _ _) a =>
      if (fd' =? fd) && (0 <? a_ret a) then take (Z.to_nat (a_ret a)) data else []
  | _ => []
  end.
Definition rights_by (fd : Z) (e : event) : list Z :=
  match e with
  | Called (Sendmsg fd' _ r _) a => if (fd' =? fd) && (0 <? a_ret a) then r else []
  | _ => []
  end.
Definition received_by (fd : Z) (e : event) : bytes :=
  match e with
  | Called (Recvmsg fd' _) a => if (fd' =? fd) && (0 <? a_ret a) then a_data a else []
  | _ => []
  end.
Definition arrived_by (fd : Z) (e : event) : list Z :=
  match e with
  | Called (Recvmsg fd' _) a => if (fd' =? fd) && (0 <? a_ret a) then a_rd a else []
  | _ => []
  end.

(** The concatenation over a history. *)
Definition all_by {A} (f : event -> list A) (h : list event) : list A := concat (map f h).
Notation sent fd := (all_by (sent_by fd)).
Notation rights fd := (all_by (rights_by fd)).
Notation received fd := (all_by (received_by fd)).
Notation arrived fd := (all_by (arrived_by fd)).
Notation written fd := (all_by (written_by fd)).

Lemma all_by_app {A} (f : event -> list A) h h' : all_by f (h ++ h') = all_by f h ++ all_by f h'.
Proof. unfold all_by. by rewrite map_app, concat_app. Qed.

Lemma all_by_one {A} (f : event -> list A) e : all_by f [e] = f e.
Proof. unfold all_by. simpl. by rewrite app_nil_r. Qed.

(** The calls whose failure makes [send_fd] and [recv_fd] give up. *)
Definition failure (e : event) : bool :=
  match e with
  | Called (Malloc _) a => a_ret a =? 0
  | Called (Recvmsg _ _) a => a_ret a <=? 0
  | Called (Sendmsg _ d _ _) a | Called (Write _ d) a => negb (a_ret a =? Zlen d)
  | _ => false
  end.
Definition failed (h : list event) : Prop := existsb failure h = true.

Lemma failed_app h h' : failed h' -> failed (h ++ h').
Proof. unfold failed. rewrite existsb_app. intros ->. by rewrite orb_true_r. Qed.

Lemma failed_app_l h h' : failed h -> failed (h ++ h').
Proof. unfold failed. rewrite existsb_app. by intros ->. Qed.

(** ** Runs and what they add to the history *)

Section runs.
Context `{Kernel} {V : Type} (same : V -> V -> Prop) `{!PreOrder same}.
Implicit Types (s : proc V) (h : list event).

(** Events that neither open nor close descriptors and do not wait for them. *)
Definition minor_call (c : call) : bool :=
  match c with
  | Socket | Accept _ | Open _ _ | Dup _ | Close _ | Select _ _ _ _ | Poll _ => false
  | _ => true
  end.
Definition minor (e : event) : bool :=
  match e with Called c _ | Waiting c => minor_call c | _ => true end.

(** From [s] to [s'] with the minor events [h]; the variables may have changed as
    [same] says. *)
Definition ran s s' h : Prop :=
  history s' = history s ++ h /\ (length (script s') <= length (script s))%nat /\
  same (vars s) (vars s') /\ Forall (fun e => minor e = true) h.

Lemma ran_refl s : ran s s [].
Proof. split; [by rewrite app_nil_r|]. by repeat split. Qed.

Lemma ran_trans s1 s2 s3 h h' : ran s1 s2 h -> ran s2 s3 h' -> ran s1 s3 (h ++ h').
Proof.
  intros (E1 & L1 & V1 & F1) (E2 & L2 & V2 & F2). split; [by rewrite E2, E1, app_assoc|].
  split; [lia|]. split; [by transitivity (vars s2)|]. by apply Forall_app.
Qed.

Lemma ran_event s e : minor e = true -> ran s (record_event e s) [e].
Proof. intros He. split; [done|]. split; [done|]. simpl. split; [reflexivity|by repeat constructor]. Qed.

Lemma ran_answer s c a rest : minor_call c = true -> script s = a :: rest -> ran s (answered c a rest s) [Called c a].
Proof.
  intros Hc E. split; [done|]. split; [simpl; rewrite E; simpl; lia|]. simpl.
  split; [reflexivity|by repeat constructor].
Qed.

(** The run waits in a minor call. *)
Definition waits s : Prop := exists c, last (history s) = Some (Waiting c) /\ minor_call c = true.

Lemma ran_waits s s' h c : ran s s' (h ++ [Waiting c]) -> waits s'.
Proof.
  intros (E & _ & _ & F). exists c. split; [by rewrite E, app_assoc, last_snoc|].
  apply Forall_app in F as [_ F]. by inversion F.
Qed.

(** A call, from the point of view of the state [s0] where the run began. *)
Lemma wp_sys_from s0 h c (Q : answer -> proc V -> Prop) X s : ran s0 s h -> minor_call c = true ->
  (forall a s', allowed c a -> ran s0 s' (h ++ [Called c a]) ->
     (length (script s') < length (script s))%nat -> vars s' = vars s ->
     errno s' = (if a_ret a <? 0 then a_errno a else errno s) -> Q a s') ->
  (forall s', ran s0 s' (h ++ [Waiting c]) -> X WAITING s') ->
  wp (sys c) Q X s.
Proof.
  intros Hr Hc HQ HX. apply wp_sys.
  - intros a rest E Ha. apply HQ; [done| |simpl; rewrite E; simpl; lia|done|done].
    by eapply ran_trans, ran_answer.
  - apply HX. by eapply ran_trans, ran_event.
Qed.

Lemma wp_sysret_from s0 h c (Q : Z -> proc V -> Prop) X s : ran s0 s h -> minor_call c = true ->
  (forall a s', allowed c a -> ran s0 s' (h ++ [Called c a]) ->
     (length (script s') < length (script s))%nat -> vars s' = vars s -> Q (a_ret a) s') ->
  (forall s', ran s0 s' (h ++ [Waiting c]) -> X WAITING s') ->
  wp (sysret c) Q X s.
Proof.
  intros Hr Hc HQ HX. unfold sysret. apply wp_bind, (wp_sys_from s0 h); [done|done| |done].
  intros a s' Ha Hs Hl Hv _. by apply wp_ret, HQ.
Qed.
End runs.
#[export] Hint Resolve ran_refl : core.

(** ** 14.7 *)

Section transfers.
Context `{Kernel} {V : Type} (same : V -> V -> Prop) `{!PreOrder same}.
Hypothesis Kwrite : posix_write.
Hypothesis Kread : posix_read.

(** Nothing but writes to one descriptor. *)
Definition writes_to (fd : Z) (e : event) : Prop :=
  match e with Called (Write fd' _) _ => fd' = fd | Waiting _ => True | _ => False end.

Lemma writes_rights fd h : Forall (writes_to fd) h -> rights fd h = [].
Proof.
  induction 1 as [|e h He Hh IH]; [done|]. change (e :: h) with ([e] ++ h). rewrite all_by_app, IH.
  by destruct e as [[]| | | | | |].
Qed.

(** [writen] writes a prefix of the data at every moment; it returns how much,
    and -1 only when nothing was written. *)
Lemma wp_writen fd data (Q : Z -> proc V -> Prop) X s :
  Zlen data < 2 ^ 63 ->
  (forall r s' h, ran same s s' h -> Forall (writes_to fd) h ->
     (0 <= r <= Zlen data /\ sent fd h = seg data 0 r \/ r = -1 /\ sent fd h = []) ->
     (r <> Zlen data -> failed h) -> Q r s') ->
  (forall k s' h, ran same s s' h -> Forall (writes_to fd) h -> 0 <= k <= Zlen data ->
     sent fd h = seg data 0 k -> waits s' -> X WAITING s') ->
  wp (writen fd data (Zlen data)) Q X s.
Proof.
  intros Hn HQ HX. unfold writen. apply wp_bind, wp_guard; [lia|].
  apply (wp_forever (fun nleft s' => 0 <= nleft <= Zlen data /\ exists h, ran same s s' h /\
    Forall (writes_to fd) h /\ sent fd h = seg data 0 (Zlen data - nleft))).
  { split; [pose proof (Zlen_nonneg data); lia|]. exists []. split; [by apply ran_refl|].
    split; [done|]. by rewrite seg_nil by lia. }
  intros nleft s1 (Hl & h & Hr & Eri & Ese).
  destruct (Z.ltb_spec 0 nleft) as [Hpos|Hz]; [|].
  2: { apply wp_ret. eapply HQ; [done..| |lia]. left. split; [lia|done]. }
  apply wp_bind, (wp_sysret_from same s h); [done|done| |].
  2: { intros s2 Hr2. apply (HX (Zlen data - nleft) s2 (h ++ [Waiting (Write fd (seg data (Zlen data - nleft) (Zlen data)))])); [done| |lia| |by eapply ran_waits].
       - apply Forall_app. by split; [|constructor].
       - rewrite all_by_app, Ese. simpl. by rewrite app_nil_r. }
  intros a s2 Ha Hr2 Hlt _. pose proof (Kwrite _ _ _ Ha) as Hposix.
  assert (Hsl : Zlen (seg data (Zlen data - nleft) (Zlen data)) = nleft) by (rewrite seg_length; lia).
  rewrite Hsl in Hposix.
  set (e := Called (Write fd (seg data (Zlen data - nleft) (Zlen data))) a) in *.
  assert (Eri2 : Forall (writes_to fd) (h ++ [e])) by (apply Forall_app; by split; [|constructor]).
  assert (Ese2 : sent fd (h ++ [e]) = seg data 0 (Zlen data - nleft) ++
            (if 0 <? a_ret a then take (Z.to_nat (a_ret a)) (seg data (Zlen data - nleft) (Zlen data)) else [])).
  { rewrite all_by_app, Ese, all_by_one. unfold e. simpl. by rewrite Z.eqb_refl. }
  destruct (Z.ltb_spec (a_ret a) 0).
  { destruct (Z.ltb_spec 0 (a_ret a)); [lia|]. rewrite app_nil_r in Ese2.
    assert (Hf : failed (h ++ [e])).
    { apply failed_app. unfold failed, e. simpl. rewrite Hsl. by destruct (Z.eqb_spec (a_ret a) nleft); [lia|]. }
    destruct (Z.eqb_spec nleft (Zlen data)) as [E|]; apply wp_ret; (eapply HQ; [done|done| |done]).
    - right. split; [done|]. by rewrite Ese2, seg_nil by lia.
    - left. split; [lia|done]. }
  destruct (Z.eqb_spec (a_ret a) 0) as [E0|Hne]; [lia|].
  destruct (Z.ltb_spec 0 (a_ret a)); [|lia]. apply wp_ret. split; [|done].
  assert (Eu : u64 (nleft - a_ret a) = nleft - a_ret a) by (unfold u64; apply Z.mod_small; lia).
  rewrite Eu. split; [lia|]. exists (h ++ [e]). split; [done|]. split; [done|].
  rewrite Ese2, (seg_app data 0 (Zlen data - nleft) (Zlen data - (nleft - a_ret a))) by lia.
  f_equal. unfold seg. rewrite take_take. f_equal. lia.
Qed.

(** [readn] returns what it read, all of [n] unless the file ends or fails. *)
Lemma wp_readn fd n (Q : Z * bytes -> proc V -> Prop) X s :
  0 <= n < 2 ^ 63 ->
  (forall r got s' h, ran same s s' h -> bytes_read fd h = got ->
     (0 <= r <= n /\ Zlen got = r \/ r = -1 /\ got = []) -> Q (r, got) s') ->
  (forall s' h, ran same s s' h -> Zlen (bytes_read fd h) <= n -> X WAITING s') ->
  wp (readn fd n) Q X s.
Proof.
  intros Hn HQ HX. unfold readn.
  apply (wp_forever (fun '(nleft, got) s' => 0 <= nleft <= n /\ Zlen got = n - nleft /\
    exists h, ran same s s' h /\ bytes_read fd h = got)).
  { split; [lia|]. split; [by rewrite Z.sub_diag|]. exists []. by split; [apply ran_refl|]. }
  intros [nleft got] s1 (Hl & Hg & h & Hr & Eg).
  destruct (Z.ltb_spec 0 nleft) as [Hpos|Hz].
  2: { apply wp_ret. eapply HQ; [done..|]. left. split; [lia|lia]. }
  apply wp_bind, (wp_sys_from same s h); [done|done| |].
  2: { intros s2 Hr2. eapply HX; [done|]. rewrite bytes_read_snoc, Eg. simpl. rewrite app_nil_r. lia. }
  intros a s2 Ha Hr2 Hlt _ _. pose proof (Kread _ _ _ Ha) as Hposix. cbv zeta.
  assert (Eg2 : bytes_read fd (h ++ [Called (Read fd nleft) a]) = got ++ (if 0 <? a_ret a then a_data a else [])).
  { rewrite bytes_read_snoc, Eg. simpl. by rewrite Z.eqb_refl. }
  destruct (Z.ltb_spec (a_ret a) 0).
  { destruct (Z.ltb_spec 0 (a_ret a)); [lia|]. rewrite app_nil_r in Eg2.
    destruct (Z.eqb_spec nleft n) as [->|]; apply wp_ret; (eapply HQ; [done..|]).
    - right. split; [done|]. rewrite Z.sub_diag in Hg. destruct got; [done|].
      unfold Zlen in Hg. simpl in Hg. lia.
    - left. split; [lia|done]. }
  destruct Hposix as [?|[Hb Hd]]; [lia|].
  destruct (Z.eqb_spec (a_ret a) 0) as [E0|Hne].
  { apply wp_ret. eapply HQ; [done| |left; split; [lia|done]]. rewrite Eg2, E0. simpl. by rewrite app_nil_r. }
  destruct (Z.ltb_spec 0 (a_ret a)); [|lia]. apply wp_ret. split; [|done].
  assert (Eu : u64 (nleft - a_ret a) = nleft - a_ret a) by (unfold u64; apply Z.mod_small; lia).
  rewrite Eu. split; [lia|]. split; [rewrite Zlen_app; lia|]. eauto.
Qed.
End transfers.

(** ** 17.4: sending *)

Section sending.
Context `{Kernel} {V : Type} (same : V -> V -> Prop) `{!PreOrder same}
  (cm : lens V bool) (Hcm : forall b v, same v (over cm b v)) (word : Z).
Hypothesis Kwrite : posix_write.
Hypothesis Ksend : posix_sendmsg.

Lemma wp_have_cmptr s0 h len (Q : bool -> proc V -> Prop) X s : ran same s0 s h ->
  (forall b s' h', ran same s0 s' (h ++ h') ->
     (forall A (f : event -> list A), (forall n a, f (Called (Malloc n) a) = []) -> all_by f h' = []) ->
     (length (script s') <= length (script s))%nat -> (b = false -> failed h') -> Q b s') ->
  (forall s', ran same s0 s' (h ++ [Waiting (Malloc len)]) -> X WAITING s') ->
  wp (have_cmptr cm len) Q X s.
Proof.
  intros Hr HQ HX. unfold have_cmptr, getvar. apply wp_bind, wp_gets.
  destruct (view cm (vars s)).
  { apply wp_ret, (HQ true s []); [by rewrite app_nil_r|done..]. }
  apply wp_bind, (wp_sysret_from same s0 h); [done|done| |done].
  intros a s1 Ha Hr1 Hl Hv.
  assert (Hm : forall A (f : event -> list A), (forall n a, f (Called (Malloc n) a) = []) ->
    all_by f [Called (Malloc len) a] = []) by (intros A f Hf; by rewrite all_by_one).
  destruct (Z.eqb_spec (a_ret a) 0) as [E0|E0].
  { apply wp_ret, (HQ false s1 [Called (Malloc len) a]); [done|done|lia|].
    intros _. unfold failed. simpl. by rewrite E0. }
  apply wp_bind. unfold setvars. apply wp_modify, wp_ret, (HQ true _ [Called (Malloc len) a]); [|done|simpl; lia|done].
  destruct Hr1 as (E1 & L1 & V1 & F1). split; [done|]. split; [done|]. simpl.
  split; [transitivity (vars s1); [done|apply Hcm]|done].
Qed.

(** The two bytes of [send_fd], and the descriptor with them. *)
Definition trailer (fd_to_send : Z) : bytes :=
  if fd_to_send <? 0 then [0; status_byte fd_to_send] else [0; 0].
Definition with_rights (fd_to_send : Z) : list Z :=
  if fd_to_send <? 0 then [] else [fd_to_send].

(** It returns 0 when both bytes, and the descriptor, were accepted. *)
Lemma wp_send_fd fd f (Q : Z -> proc V -> Prop) X s0 s h : ran same s0 s h ->
  (forall s' h', ran same s0 s' (h ++ h') -> sent fd h' = trailer f -> rights fd h' = with_rights f -> Q 0 s') ->
  (forall s' h', ran same s0 s' (h ++ h') -> sent fd h' `prefix_of` trailer f -> failed h' -> Q (-1) s') ->
  (forall s' h', ran same s0 s' (h ++ h') -> sent fd h' = [] -> waits s' -> X WAITING s') ->
  wp (send_fd word cm fd f) Q X s.
Proof.
  intros Hr HQ0 HQ1 HX.
  assert (Hsend : forall d r s1 h1, d = trailer f -> r = with_rights f -> ran same s0 s1 (h ++ h1) ->
    sent fd h1 = [] -> rights fd h1 = [] ->
    wp (n <- sysret (Sendmsg fd d r None) ;; if negb (n =? 2) then ret (-1) else ret 0) Q X s1).
  { intros d r s1 h1 Ed Er Hr1 Es1 Eri1. apply wp_bind, (wp_sysret_from same s0 (h ++ h1)); [done|done| |].
    2: { intros s2 Hr2. apply ran_waits in Hr2 as Hw. rewrite <-app_assoc in Hr2.
         apply (HX _ _ Hr2); [by rewrite all_by_app, Es1|done]. }
    intros a s2 Ha Hr2 _ _. rewrite <-app_assoc in Hr2.
    pose proof (Ksend _ _ _ _ _ Ha) as Hposix.
    assert (El : Zlen d = 2) by (rewrite Ed; unfold trailer; by case_match).
    destruct (Z.eqb_spec (a_ret a) 2) as [E2|Hne]; apply wp_ret.
    - eapply HQ0; [done|..]; rewrite all_by_app, all_by_one; simpl; rewrite Z.eqb_refl, E2, ?Es1, ?Eri1; simpl.
      + rewrite <-Ed. apply take_ge. unfold Zlen in El. lia.
      + done.
    - eapply HQ1; [done| |].
      2: { apply failed_app. unfold failed. simpl. rewrite El. apply Z.eqb_neq in Hne. by rewrite Hne. }
      rewrite all_by_app, all_by_one, Es1. simpl. rewrite Z.eqb_refl. simpl.
      destruct (0 <? a_ret a); [|apply prefix_nil]. rewrite <-Ed. apply prefix_take. }
  unfold send_fd, trailer, with_rights in *. destruct (Z.ltb_spec f 0).
  - apply (Hsend _ _ s []); [done..|by rewrite app_nil_r|done|done].
  - apply wp_bind, (wp_have_cmptr s0 h); [done| |].
    2: { intros s' Hs'. apply ran_waits in Hs' as Hw. by apply (HX _ _ Hs'). }
    intros b s1 h1 Hr1 Hm _ Hfail. destruct b; simpl.
    + apply (Hsend _ _ s1 h1); [done..| |]; by apply Hm.
    + apply wp_ret. eapply HQ1; [done| |by apply Hfail]. rewrite Hm; [apply prefix_nil|done].
Qed.

(** [send_err] sends the message and the status of an error. *)
Lemma wp_send_err fd errcode msg (Q : Z -> proc V -> Prop) X s :
  Zlen msg < 2 ^ 63 ->
  (forall s' h, ran same s s' h -> sent fd h = msg ++ trailer (Z.min errcode (-1)) ->
     rights fd h = [] -> Q 0 s') ->
  (forall s' h, ran same s s' h -> sent fd h `prefix_of` msg ++ trailer (Z.min errcode (-1)) ->
     failed h -> Q (-1) s') ->
  (forall s' h, ran same s s' h -> sent fd h `prefix_of` msg ++ trailer (Z.min errcode (-1)) ->
     waits s' -> X WAITING s') ->
  wp (send_err word cm fd errcode msg) Q X s.
Proof.
  intros Hlen HQ0 HQ1 HX. unfold send_err. cbv zeta. apply wp_bind.
  replace (if 0 <=? errcode then -1 else errcode) with (Z.min errcode (-1))
    by (destruct (Z.leb_spec 0 errcode); lia).
  set (e := Z.min errcode (-1)) in *. pose proof (Zlen_nonneg msg) as Hnn.
  assert (Hseg : forall k, seg msg 0 k `prefix_of` msg ++ trailer e).
  { intros k. unfold seg. rewrite drop_0. apply prefix_app_r, prefix_take. }
  assert (Hrest : forall w s1 h, ran same s s1 h -> rights fd h = [] ->
    (0 <= w <= Zlen msg /\ sent fd h = seg msg 0 w \/ w = -1 /\ sent fd h = []) ->
    (w <> Zlen msg -> failed h) ->
    wp (if negb (w =? Zlen msg) then ret (-1)
        else r <- send_fd word cm fd e ;; if r <? 0 then ret (-1) else ret 0) Q X s1).
  { intros w s1 h Hr Eri Hw Hf. destruct (Z.eqb_spec w (Zlen msg)) as [->|Hne]; simpl.
    - destruct Hw as [[_ Ese]|[? _]]; [|lia]. rewrite seg_full in Ese.
      apply wp_bind, (wp_send_fd fd e _ _ s s1 h); [done|..].
      + intros s2 h2 Hr2 Es2 Er2. apply wp_ret, (HQ0 _ _ Hr2); [by rewrite all_by_app, Ese, Es2|].
        rewrite all_by_app, Eri, Er2. unfold with_rights. destruct (Z.ltb_spec e 0); [done|lia].
      + intros s2 h2 Hr2 Es2 Hf2. apply wp_ret, (HQ1 _ _ Hr2); [|by apply failed_app].
        rewrite all_by_app, Ese. by apply prefix_app.
      + intros s2 h2 Hr2 Es2 Hw2. apply (HX _ _ Hr2); [|done].
        rewrite all_by_app, Ese, Es2. by apply prefix_app, prefix_nil.
    - apply wp_ret, (HQ1 _ _ Hr); [|by apply Hf]. destruct Hw as [[_ ->]|[_ ->]]; [done|apply prefix_nil]. }
  destruct (Z.ltb_spec 0 (Zlen msg)) as [Hpos|Hz].
  - apply (wp_writen same Kwrite fd msg); [done| |].
    + intros r s1 h Hr Eri Hw Hf. by apply (Hrest r s1 h); [|apply writes_rights|..].
    + intros k s1 h Hr Eri Hk Ese Hw. apply (HX _ _ Hr); [by rewrite Ese|done].
  - apply wp_ret, (Hrest (Zlen msg) s []); [by apply ran_refl|done| |done].
    left. split; [lia|]. by rewrite seg_nil by lia.
Qed.
End sending.

(** ** 17.4: receiving *)

(** A chunk that ends a message: text, a null byte and a status. *)
Definition ends_message (d : bytes) (t : bytes) (st : Z) : Prop := d = t ++ [0; st] /\ 0 ∉ t.

Lemma ends_message_inj d t t' st st' : ends_message d t st -> ends_message d t' st' -> t = t' /\ st = st'.
Proof.
  intros [-> _] [E _]. apply app_inj_2 in E as [-> [= ->]]; done.
Qed.

(** The first null byte. *)
Lemma first_nul (d : bytes) : 0 ∉ d \/ exists t r, d = t ++ 0 :: r /\ 0 ∉ t.
Proof.
  induction d as [|c d [IH|(t & r & -> & Ht)]]; [left; set_solver|..].
  - destruct (decide (c = 0)) as [->|Hne]; [right; exists [], d; set_solver|left; set_solver].
  - right. destruct (decide (c = 0)) as [->|Hne]; [exists [], (t ++ 0 :: r); set_solver|].
    exists (c :: t), r. set_solver.
Qed.

Section receiving.
Context `{Kernel} {V : Type} (same : V -> V -> Prop) `{!PreOrder same}
  (cm : lens V bool) (Hcm : forall b v, same v (over cm b v)) (word : Z) (strerror : Z -> bytes).
Hypothesis Kread : posix_recvmsg.
Implicit Types (s : proc V).

(** Scanning a chunk without a null byte changes nothing. *)
Lemma wp_scan_text {A} (on_zero : M (proc V) A) on_error d (res : option A) Q X s :
  0 ∉ d -> Q (Zlen d, res) s -> wp (recv_scan strerror on_zero on_error d (Zlen d) res) Q X s.
Proof.
  intros Hd HQ. unfold recv_scan.
  apply (wp_loop (fun '(ptr, nr, r) s' => 0 <= ptr <= nr /\ nr = Zlen d /\ r = res /\ s' = s)
    (fun '(ptr, nr, _) _ => Z.to_nat (nr - ptr))).
  { pose proof (Zlen_nonneg d). split_and!; [lia..|done|done]. }
  { simpl. lia. }
  intros [[ptr nr] r] s' (Hp & -> & -> & ->). destruct (Z.ltb_spec ptr (Zlen d)).
  - destruct (Z.eqb_spec (aget d ptr) 0) as [E|E].
    { destruct Hd. rewrite <-E. eapply list_elem_of_lookup_2, aget_lookup. lia. }
    apply wp_ret. split_and!; [lia..|done|done|lia].
  - apply wp_ret. by replace (Zlen d) with (Zlen d).
Qed.

(** Scanning up to the first null byte. *)
Lemma wp_scan_nul {A} (on_zero : M (proc V) A) on_error t r (res : option A) Q X s :
  0 ∉ t ->
  (forall st, r = [st] ->
     wp (if st =? 0 then on_zero else ret (on_error st)) (fun v s' => Q (Zlen t, Some v) s') X s) ->
  ((forall st, r <> [st]) -> forall b, X ABORTED (record_event (Stderr b) s)) ->
  wp (recv_scan strerror on_zero on_error (t ++ 0 :: r) (Zlen (t ++ 0 :: r)) res) Q X s.
Proof.
  intros Ht HQ HX. unfold recv_scan. set (d := t ++ 0 :: r). pose proof (Zlen_nonneg t) as Hnn.
  assert (Hlen : Zlen d = Zlen t + 1 + Zlen r).
  { unfold d. rewrite Zlen_app. unfold Zlen. simpl. lia. }
  pose proof (Zlen_nonneg r) as Hnr.
  apply (wp_loop (fun '(ptr, nr, v) s' =>
      0 <= ptr <= Zlen t /\ nr = Zlen d /\ v = res /\ s' = s \/
      exists w, ptr = Zlen t + 1 /\ nr = Zlen t /\ v = Some w /\ Q (Zlen t, Some w) s')
    (fun '(ptr, nr, _) _ => Z.to_nat (nr - ptr))).
  { left. split_and!; [lia..|done|done]. }
  { simpl. lia. }
  intros [[ptr nr] v] s' [(Hp & -> & -> & ->)|(w & -> & -> & -> & Hw)].
  2: { destruct (Z.ltb_spec (Zlen t + 1) (Zlen t)); [lia|]. by apply wp_ret. }
  destruct (Z.ltb_spec ptr (Zlen d)); [|lia].
  destruct (decide (ptr = Zlen t)) as [->|Hlt].
  - assert (E0 : aget d (Zlen t) = 0).
    { unfold aget, Zlen. rewrite Nat2Z.id. apply list_lookup_total_correct.
      unfold d. by rewrite list_lookup_middle. }
    rewrite E0. simpl. destruct (Z.eqb_spec (Zlen t + 1) (Zlen d - 1)) as [E|Hne]; simpl.
    + assert (exists st, r = [st]) as [st ->].
      { unfold Zlen in *. destruct r as [|st [|? ?]]; [simpl in *; lia|by exists st|simpl in *; lia]. }
      assert (Est : aget d (Zlen t + 1) = st).
      { unfold aget, Zlen. replace (Z.to_nat _) with (S (length t)) by lia.
        apply list_lookup_total_correct. unfold d. rewrite lookup_app_r by lia.
        by replace (S (length t) - length t)%nat with 1%nat by lia. }
      cbv zeta. rewrite Est. apply wp_bind. eapply wp_conseq; [by apply HQ|].
      intros w s1 Hw. apply wp_ret. change (Zlen [st]) with 1 in Hlen. split; [|lia]. right. exists w.
      split_and!; [lia|lia|done|done].
    + unfold err_dump. apply wp_bind, wp_gets. apply wp_bind, wp_err_doit. intros b.
      apply wp_exit, HX. intros st ->. change (Zlen [st]) with 1 in Hlen. lia.
  - destruct (Z.eqb_spec (aget d ptr) 0) as [E|E].
    { destruct Ht. unfold aget, d in E. rewrite list_lookup_total_alt, lookup_app_l in E by (unfold Zlen in *; lia).
      destruct (t !! Z.to_nat ptr) eqn:El.
      - simpl in E. subst. by eapply list_elem_of_lookup_2.
      - apply lookup_ge_None in El. unfold Zlen in *. lia. }
    apply wp_ret. split; [|lia]. left. split_and!; [lia..|done|done].
Qed.

(** *** recv_fd with the text written to the standard error *)

Definition to_stderr : Z -> bytes -> M (proc V) Z := fun f b => sysret (Write f b).

(** A complete answer [v]: a text, which is on the standard error, and a status
    or a descriptor. *)
Definition answer_got (fd v : Z) (h : list event) : Prop :=
  exists text st, ends_message (received fd h) text st /\ written 2 h = text /\
    (st = 0 -> v ∈ arrived fd h) /\ (st <> 0 -> v = - st).

(** The last chunk has a null byte, the first of the stream, but is not a text with
    the trailer, or its status is 0 and no descriptor came with it. *)
Definition malformed (fd : Z) (h : list event) : Prop :=
  exists h0 n a b, h = h0 ++ [Called (Recvmsg fd n) a; Stderr b] /\ 0 < a_ret a /\ 0 ∉ received fd h0 /\ 0 ∈ a_data a /\
    ((forall t st, ~ ends_message (a_data a) t st) \/ (exists t, ends_message (a_data a) t 0) /\ a_rd a = []).

Definition recv_end (fd : Z) s (c : Z) s' : Prop :=
  c = WAITING \/ c = ABORTED /\ exists h, ran same s s' h /\ malformed fd h.

(** Between chunks: only text so far, all of it written. *)
Definition text_so_far (fd : Z) s s' : Prop :=
  exists h, ran same s s' h /\ 0 ∉ received fd h /\ written 2 h = received fd h.

Lemma wp_recv_finish fd s0 h d (k : Z) (v : option Z) s (P : list event -> Prop) :
  ran same s0 s h -> 0 <= k <= Zlen d ->
  (forall h', received fd h' = [] -> written 2 h' = take (Z.to_nat k) d -> arrived fd h' = [] -> P (h ++ h')) ->
  wp (recv_finish to_stderr (-1) d k v) (fun r s' => match r with
    | inr w => w = -1 /\ (exists h', ran same s0 s' h' /\ failed h') \/ v = Some w /\ exists h', ran same s0 s' h' /\ P h'
    | inl w => w = None /\ v = None /\ exists h', ran same s0 s' h' /\ P h'
    end /\ (length (script s') <= length (script s))%nat) (fun c _ => c = WAITING) s.
Proof.
  intros Hr Hk HP. unfold recv_finish. apply wp_bind.
  assert (Hend : forall s' h', ran same s0 s' (h ++ h') -> (length (script s') <= length (script s))%nat ->
    P (h ++ h') ->
    wp (match v with Some v => ret (inr v) | None => ret (inl None) end : M (proc V) (option Z + Z)) (fun r s' => match r with
      | inr w => w = -1 /\ (exists h', ran same s0 s' h' /\ failed h') \/ v = Some w /\ exists h', ran same s0 s' h' /\ P h'
      | inl w => w = None /\ v = None /\ exists h', ran same s0 s' h' /\ P h'
      end /\ (length (script s') <= length (script s))%nat) (fun c _ => c = WAITING) s').
  { intros s' h' Hr' Hl Hp. destruct v; apply wp_ret; (split; [|done]); [right|]; eauto 6. }
  destruct (Z.ltb_spec 0 k) as [Hpos|Hz].
  - unfold to_stderr. apply (wp_sysret_from same s0 h); [done|done| |done].
    intros a s1 Ha Hr1 Hlt _. rewrite andb_true_l.
    destruct (Z.eqb_spec (a_ret a) k) as [E|Hne]; simpl.
    + apply (Hend s1 [Called (Write 2 (take (Z.to_nat k) d)) a]); [done|lia|].
      apply HP; rewrite all_by_one; simpl; [done| |done].
      rewrite E. destruct (Z.ltb_spec 0 k); [|lia]. rewrite take_take. f_equal. lia.
    + apply wp_ret. split; [left; split; [done|]|lia]. eexists. split; [done|].
      apply failed_app. unfold failed. simpl.
      assert (El : Zlen (take (Z.to_nat k) d) = k) by (unfold Zlen in *; rewrite length_take; lia).
      rewrite El. apply Z.eqb_neq in Hne. by rewrite Hne.
  - apply wp_ret. simpl. apply (Hend s []); [by rewrite app_nil_r|done|].
    apply HP; [done| |done]. by replace (Z.to_nat k) with 0%nat by lia.
Qed.

(** What is true of the message when [recv_fd] returns [v], ... *)
Definition recv_got (fd : Z) s (v : Z) s' : Prop :=
  exists h, ran same s s' h /\ (v = -1 /\ failed h \/ answer_got fd v h).

(** ... and after a turn of its loop that began with [n] answers left. *)
Definition recv_turn (fd : Z) s (n : nat) (r : option Z + Z) s' : Prop :=
  match r with
  | inl l' => (l' = None /\ text_so_far fd s s') /\ (length (script s') < n)%nat
  | inr v => recv_got fd s v s'
  end.

(** The first null byte is at one place only. *)
Lemma two_first_nuls (t t' r : bytes) st : 0 ∉ t -> ends_message (t ++ 0 :: r) t' st -> t = t' /\ r = [st].
Proof.
  intros Ht [E Ht']. revert t' Ht' E. induction t as [|c t IH]; intros [|c' t'] Ht' E.
  - by injection E.
  - injection E as <- E. set_solver.
  - injection E as -> E. set_solver.
  - injection E as -> E. destruct (IH ltac:(set_solver) t' ltac:(set_solver) E) as [-> ?]. done.
Qed.

(** One chunk, after the events [h0] with the text [before]. *)
Section chunk.
Context (fd : Z) (s0 s : proc V) (h0 : list event) (k : Z) (a : answer) (before : bytes) (n : nat).
Notation h := (h0 ++ [Called (Recvmsg fd k) a]).
Notation d := (a_data a).
Notation rd := (a_rd a).
Hypothesis Hpos : 0 < a_ret a.
Hypothesis Ebefore : received fd h0 = before.
Hypothesis Hran : ran same s0 s h.
Hypothesis Hlt : (length (script s) < n)%nat.
Hypothesis Hbefore : 0 ∉ before.
Hypothesis Erec : received fd h = before ++ d.
Hypothesis Ewr : written 2 h = before.
Hypothesis Earr : forall v, v ∈ rd -> v ∈ arrived fd h.

Lemma malformed_aborts b : 0 ∈ d -> (forall t st, ~ ends_message d t st) \/ (exists t, ends_message d t 0) /\ rd = [] ->
  recv_end fd s0 ABORTED (record_event (Stderr b) s).
Proof.
  intros H0 Hd. right. split; [done|]. exists (h ++ [Stderr b]).
  split; [apply (ran_trans same s0 s); [exact Hran|by apply (ran_event same)]|].
  exists h0, k, a, b. rewrite <-app_assoc, Ebefore. done.
Qed.

Lemma wp_recv_text : 0 ∉ d -> wp (recv_finish to_stderr (-1) d (Zlen d) None) (recv_turn fd s0 n) (recv_end fd s0) s.
Proof.
  intros Ht. eapply wp_mono; [apply (wp_recv_finish fd s0 h d (Zlen d) None s
    (fun h' => 0 ∉ received fd h' /\ written 2 h' = received fd h')); [done|pose proof (Zlen_nonneg d); lia|]| |].
  - intros h' E1 E2 _. rewrite !(all_by_app _ _ h'), E1, E2, Erec, Ewr.
    split; [set_solver|]. rewrite app_nil_r. f_equal. apply take_ge. unfold Zlen. lia.
  - intros [w|w] s4; [intros [(-> & _ & h' & Hh) Hl]|intros [[(-> & h' & Hh)|[? _]] Hl]; [|done]].
    + split; [|lia]. split; [done|]. by exists h'.
    + exists h'. split; [apply Hh|]. left. split; [done|apply Hh].
  - intros c s4 ->. by left.
Qed.

Lemma wp_recv_answer t st w : ends_message d t st -> (st = 0 -> w ∈ rd) -> (st <> 0 -> w = - st) ->
  wp (recv_finish to_stderr (-1) d (Zlen t) (Some w)) (recv_turn fd s0 n) (recv_end fd s0) s.
Proof.
  intros [Ed Ht] Hw0 Hw1. eapply wp_mono; [apply (wp_recv_finish fd s0 h d (Zlen t) (Some w) s
    (answer_got fd w)); [done| |]| |].
  - rewrite Ed, Zlen_app. pose proof (Zlen_nonneg t). pose proof (Zlen_nonneg [0; st]). lia.
  - intros h' E1 E2 E3. exists (before ++ t), st. unfold ends_message.
    rewrite !(all_by_app _ _ h'), E1, E2, E3, Erec, Ewr, !app_nil_r, Ed.
    split; [split; [by rewrite app_assoc|set_solver]|].
    split; [f_equal; apply take_app_length'; unfold Zlen; lia|].
    split; [intros; apply Earr; auto|done].
  - intros [w'|w'] s4; [intros [(? & [=] & _) _]|]. intros [[(-> & h' & Hh)|([= ->] & h' & Hh)] _];
      exists h'; (split; [apply Hh|]); [left; split; [done|apply Hh]|right; apply Hh].
  - intros c s4 ->. by left.
Qed.

Lemma wp_recv_chunk : wp (let! (nr, res) := recv_scan strerror
    (match rd with [] => err_dump strerror (B "status = 0 but no fd") | newfd :: _ => ret newfd end)
    Z.opp d (Zlen d) None in
  recv_finish to_stderr (-1) d nr res) (recv_turn fd s0 n) (recv_end fd s0) s.
Proof.
  destruct (first_nul d) as [Ht|(t & r & Ed & Ht)]; apply wp_bind.
  - apply wp_scan_text; [done|]. by apply wp_recv_text.
  - rewrite Ed. assert (H0 : 0 ∈ d) by (rewrite Ed; set_solver). apply wp_scan_nul; [done| |].
    + intros st ->. rewrite <-Ed. assert (He : ends_message d t st) by done.
      pose proof (fun w => wp_recv_answer t st w He) as Hans. destruct (Z.eqb_spec st 0) as [->|Hst].
      * destruct rd as [|newfd rest] eqn:Erd.
        -- unfold err_dump. apply wp_bind, wp_gets. apply wp_bind, wp_err_doit. intros b. apply wp_exit.
           apply malformed_aborts; [done|right; split; [by exists t|done]].
        -- apply wp_ret. simpl. apply Hans; [intros; set_solver|done].
      * apply wp_ret. simpl. by apply Hans.
    + intros Hno b. apply malformed_aborts; [done|left]. intros t' st He. rewrite Ed in He.
      apply two_first_nuls in He as [_ ->]; [|done]. by apply (Hno st).
Qed.
End chunk.

Lemma wp_recv_fd fd s : fd <> 2 ->
  wp (recv_fd word strerror cm fd to_stderr) (fun v s' =>
    exists h, ran same s s' h /\ (v = -1 /\ failed h \/ answer_got fd v h)) (recv_end fd s) s.
Proof.
  intros Hfd. apply (wp_forever (fun res s' => res = None /\ text_so_far fd s s')).
  { split; [done|]. exists []. split; [by apply ran_refl|]. split; [set_solver|done]. }
  intros res s1 (-> & h & Hr & Hnul & Hw). change (wp ?m _ ?X s1) with (wp m (recv_turn fd s (length (script s1))) X s1).
  apply wp_bind, (wp_have_cmptr same cm Hcm s h); [done| |by left].
  intros b s2 h2 Hr2 Hm Hl2 Hf. destruct b; simpl.
  2: { apply wp_ret. exists (h ++ h2). split; [done|]. left. split; [done|]. by apply failed_app, Hf. }
  assert (Erec : received fd (h ++ h2) = received fd h) by (rewrite all_by_app, Hm, app_nil_r; done).
  assert (Ewr : written 2 (h ++ h2) = written 2 h) by (rewrite all_by_app, Hm, app_nil_r; done).
  apply wp_bind, (wp_sys_from same s (h ++ h2)); [done|done| |by left].
  intros a s3 Ha Hr3 Hl3 _ _. pose proof (Kread _ _ _ Ha) as Hposix.
  assert (Hgive : a_ret a <= 0 -> forall m, wp (err_ret strerror m ;; ret (inr (-1) : option Z + Z))
    (recv_turn fd s (length (script s1))) (recv_end fd s) s3).
  { intros Hle m. unfold err_ret. do 2 apply wp_bind. apply wp_gets. apply wp_err_doit. intros b.
    apply wp_ret. eexists. split; [apply (ran_trans same s s3); [exact Hr3|by apply (ran_event same)]|].
    left. split; [done|]. apply failed_app_l, failed_app. unfold failed. simpl.
    apply Z.leb_le in Hle. by rewrite Hle. }
  destruct (Z.ltb_spec (a_ret a) 0); [apply Hgive; lia|].
  destruct Hposix as [?|[Hb Hd]]; [lia|].
  destruct (Z.eqb_spec (a_ret a) 0) as [E0|Hne]; [apply Hgive; lia|]. clear Hgive.
  cbv zeta. rewrite <-Hd. eapply (wp_recv_chunk fd s s3 (h ++ h2) _ a (received fd h)); [lia|done|exact Hr3|lia|done|..].
  - rewrite all_by_app, Erec, all_by_one. simpl. rewrite Z.eqb_refl.
    destruct (Z.ltb_spec 0 (a_ret a)); [done|lia].
  - by rewrite all_by_app, Ewr, all_by_one, app_nil_r.
  - intros v Hv. rewrite all_by_app, all_by_one. simpl. rewrite Z.eqb_refl.
    destruct (Z.ltb_spec 0 (a_ret a)); [set_solver|lia].
Qed.
End receiving.

(** ** Theorems *)

(** Nothing is said of the variables. *)
Definition any {V} (v v' : V) : Prop := True.
#[export] Instance any_preorder {V} : PreOrder (@any V).
Proof. by split. Qed.

(** Complete transfers. Whatever the sizes in which [read] and [write]
    transfer, [writen] writes the data in order and returns its length unless a
    call failed, and otherwise how much was written before; [readn] returns all
    bytes read and how many, never more than [n]. Neither loops for ever. *)
Theorem complete_transfers `{Kernel} {V : Type} (fd n : Z) (data : bytes) (s : proc V)
  (Kwrite : posix_write) (Kread : posix_read) (Hdata : Zlen data < 2 ^ 63) (Hn : 0 <= n < 2 ^ 63) :
  wp (writen fd data (Zlen data)) (fun r s' => exists h, history s' = history s ++ h /\
      sent fd h = seg data 0 r /\ (r <> Zlen data -> failed h) /\ -1 <= r <= Zlen data)
    (fun c s' => c = WAITING /\ exists h, history s' = history s ++ h /\ sent fd h `prefix_of` data) s /\
  wp (readn fd n) (fun '(r, got) s' => exists h, history s' = history s ++ h /\
      got = bytes_read fd h /\ (r = -1 /\ got = [] \/ 0 <= r <= n /\ Zlen got = r))
    (fun c _ => c = WAITING) s.
Proof.
  split.
  - apply (wp_writen eq Kwrite); [done|..].
    + intros r s' h (E & _) _ Hr Hf. exists h. split; [done|].
      destruct Hr as [[Hr Es]|[-> Es]]; [split; [done|split; [done|lia]]|].
      split; [by rewrite Es, seg_nil by lia|]. split; [done|]. pose proof (Zlen_nonneg data). lia.
    + intros k s' h (E & _) _ _ Es _. split; [done|]. exists h. split; [done|].
      rewrite Es. unfold seg. rewrite drop_0. apply prefix_take.
  - apply (wp_readn eq Kread); [done|..].
    + intros r got s' h (E & _) Eg Hr. exists h. split; [done|]. split; [done|]. naive_solver.
    + done.
Qed.

(** A receiver on [fd'] that gets the bytes [b] ends with [P], unless a call
    fails; where it may end otherwise. *)
Definition receives `{Kernel} {W : Type} (cm' : lens W bool) (word : Z) (strerror : Z -> bytes)
  (fd' : Z) (b : bytes) (P : Z -> list event -> Prop) : Prop :=
  forall s2 : proc W, wp (recv_fd word strerror cm' fd' to_stderr)
    (fun v s3 => exists h2, history s3 = history s2 ++ h2 /\
       (received fd' h2 = b -> v = -1 /\ failed h2 \/ P v h2))
    (recv_end any fd' s2) s2.

(** C35: an error message arrives as it was sent. When [send_err] succeeds and
    the other end receives what was sent, in whatever chunks, [recv_fd] writes
    exactly the message to the standard error and returns minus the status,
    unless a call fails; it only aborts when the last chunk does not hold the two bytes at
    the end, or when their status is 0 and no descriptor came with them. In the same way a
    descriptor that [send_fd] passes is returned. *)
Theorem fd_roundtrip `{Kernel} {V W : Type} (cm : lens V bool) (cm' : lens W bool)
  (word : Z) (strerror : Z -> bytes) (fd fd' errcode f : Z) (msg : bytes) (s : proc V)
  (Kwrite : posix_write) (Ksend : posix_sendmsg) (Krecv : posix_recvmsg)
  (Hlen : Zlen msg < 2 ^ 63) (Hmsg : 0 ∉ msg) (Hfd : fd' <> 2) (Hf : 0 <= f) :
  wp (send_err word cm fd errcode msg) (fun r s1 => exists h1, history s1 = history s ++ h1 /\
      (r = -1 /\ failed h1 \/
       r = 0 /\ receives cm' word strerror fd' (sent fd h1)
                  (fun v h2 => v = - status_byte (Z.min errcode (-1)) /\ written 2 h2 = msg)))
    (fun c _ => c = WAITING) s /\
  wp (send_fd word cm fd f) (fun r s1 => exists h1, history s1 = history s ++ h1 /\
      (r = -1 /\ failed h1 \/
       r = 0 /\ rights fd h1 = [f] /\
       receives cm' word strerror fd' (sent fd h1) (fun v h2 => v ∈ arrived fd' h2 /\ written 2 h2 = [])))
    (fun c _ => c = WAITING) s.
Proof.
  assert (Hrecv : forall h1 t st (P : Z -> list event -> Prop), ends_message (sent fd h1) t st ->
    (forall v h2, written 2 h2 = t -> (st = 0 -> v ∈ arrived fd' h2) -> (st <> 0 -> v = - st) -> P v h2) ->
    receives cm' word strerror fd' (sent fd h1) P).
  { intros h1 t st P Hend HP s2. eapply wp_mono; [by apply (wp_recv_fd any cm' (fun _ _ => I) word strerror Krecv)| |done].
    intros v s3 (h2 & (E & _) & Hv). exists h2. split; [done|]. intros Erec.
    destruct Hv as [Hv|(text & st' & Hm & Hw & Hz0 & Hz1)]; [by left|right].
    rewrite Erec in Hm. destruct (ends_message_inj _ _ _ _ _ Hend Hm) as [-> ->]. by apply HP. }
  split.
  - apply (wp_send_err any cm (fun _ _ => I) word Kwrite Ksend); [done|..].
    + intros s' h (E & _) Es _. exists h. split; [done|]. right. split; [done|].
      apply (Hrecv _ msg (status_byte (Z.min errcode (-1)))).
      * rewrite Es. unfold trailer. by destruct (Z.ltb_spec (Z.min errcode (-1)) 0); [|lia].
      * intros v h2 Hw _ Hst. split; [|done]. apply Hst. unfold status_byte.
        by destruct (Z.eqb_spec (u8 (- Z.min errcode (-1))) 0).
    + intros s' h (E & _) _ Hfail. exists h. split; [done|]. by left.
    + done.
  - apply (wp_send_fd any cm (fun _ _ => I) word Ksend fd f _ _ s s []); [by apply ran_refl|..].
    + intros s' h (E & _) Es Er. simpl in E. exists h. split; [done|]. right. split; [done|].
      unfold with_rights, trailer in *. destruct (Z.ltb_spec f 0); [lia|].
      split; [done|]. apply (Hrecv _ [] 0); [rewrite Es; split; [done|set_solver]|].
      intros v h2 Hw Hz0 _. split; [by apply Hz0|done].
    + intros s' h (E & _) _ Hfail. exists h. split; [done|]. by left.
    + done.
Qed.

(** On a 64-bit machine [send_fd] with credentials writes past the control
    buffer that it allocates: the second message must start at an aligned
    offset, which the sum of the two lengths does not allow for. With 4-byte
    words the lengths are aligned and both messages fit. *)
Theorem send_fd_cert_overrun `{Kernel} {V : Type} (cm : lens V bool) (fd f : Z) (s : proc V)
  (Hf : 0 <= f) (Hcm : view cm (vars s) = true) :
  send_fd_cert 8 cm fd f s = UB /\
  CMSG_ALIGN 4 (RIGHTSLEN 4) + CREDSLEN 4 <= CONTROLLEN_cert 4.
Proof.
  split; [|by vm_compute]. unfold send_fd_cert. destruct (Z.ltb_spec f 0); [lia|].
  unfold bind at 1. unfold have_cmptr, getvar, bind at 1, gets. rewrite Hcm. reflexivity.
Qed.

Lemma complete_transfers_witness :
  let s := Proc [number 2; number 3] [] 0 tt in
  wp (@writen linux unit 1 (B "hello") 5) (fun r s' => exists h, history s' = history s ++ h /\
      sent 1 h = seg (B "hello") 0 r /\ (r <> 5 -> failed h) /\ -1 <= r <= 5)
    (fun c s' => c = WAITING /\ exists h, history s' = history s ++ h /\ sent 1 h `prefix_of` B "hello") s /\
  wp (@readn linux unit 0 10) (fun '(r, got) s' => exists h, history s' = history s ++ h /\
      got = bytes_read 0 h /\ (r = -1 /\ got = [] \/ 0 <= r <= 10 /\ Zlen got = r))
    (fun c _ => c = WAITING) s.
Proof.
  intros s. apply (@complete_transfers linux unit 1 10 (B "hello") s linux_write linux_read).
  - reflexivity.
  - lia.
Defined.

(** A program with nothing but its control buffer. *)
Definition only_cm : lens bool bool := Lens (fun b => b) (fun b _ => b).

Lemma fd_roundtrip_witness :
  let s := Proc [number 4; number 2] [] 0 false in
  wp (@send_err linux bool 8 only_cm 5 (-1) (B "oops")) (fun r s1 => exists h1, history s1 = history s ++ h1 /\
      (r = -1 /\ failed h1 \/
       r = 0 /\ @receives linux bool only_cm 8 (fun _ => []) 6 (sent 5 h1)
                  (fun v h2 => v = - status_byte (Z.min (-1) (-1)) /\ written 2 h2 = B "oops")))
    (fun c _ => c = WAITING) s /\
  wp (@send_fd linux bool 8 only_cm 5 7) (fun r s1 => exists h1, history s1 = history s ++ h1 /\
      (r = -1 /\ failed h1 \/
       r = 0 /\ rights 5 h1 = [7] /\ @receives linux bool only_cm 8 (fun _ => []) 6 (sent 5 h1) (fun v h2 => v ∈ arrived 6 h2 /\ written 2 h2 = [])))
    (fun c _ => c = WAITING) s.
Proof.
  intros s. apply (@fd_roundtrip linux bool bool only_cm only_cm 8 (fun _ => []) 5 6 (-1) 7 (B "oops") s
    linux_write linux_sendmsg linux_recvmsg).
  - reflexivity.
  - vm_compute. set_solver.
  - lia.
  - lia.
Defined.

Lemma send_fd_cert_overrun_witness :
  @send_fd_cert linux bool 8 only_cm 5 7 (Proc [] [] 0 true) = UB /\
  CMSG_ALIGN 4 (RIGHTSLEN 4) + CREDSLEN 4 <= CONTROLLEN_cert 4.
Proof. apply (@send_fd_cert_overrun linux bool only_cm 5 7); [lia|reflexivity]. Defined.
