(* ===== verification/Opend.v ===== *)
(** Opend: the servers that open files for others and pass the descriptors back,
    apue/17.5open_serv_1 (a child on a pipe) and apue/17.6open_serv_2 (a daemon
    with many clients), and their clients. Where both directories hold the same
    file it is modelled once. The version of [loop] with [poll] is in OpendPoll. *)
From stdpp Require Import list strings.
From S2P Require Import Prelude Arrays Bytes Sys ErrorLog FdPass.

Definition MAXARGC : Z := 50.
Definition NALLOC : Z := 10.
Definition BUFFSIZE : Z := 8192.
Definition CL_OPEN : bytes := B "open".
Definition CS_OPEN : bytes := B "/tmp/opend.socket".
Definition O_RDONLY : Z := 0.
Definition LF : bytes := [NEWLINE].

(** Where a client can make the servers do what the language leaves undefined, a run
    ends with this status, so that it is known what has led to it. *)
Definition UNDEFINED : Z := -3.

Record Client := Cl { fd : Z; uid : Z }.
#[export] Instance client_inhabited : Inhabited Client := populate (Cl 0 0).

(** The server's global variables, and the static [cmptr] of send_fd. [client]
    is a null pointer or the array. *)
Record server := Server {
  errmsg : bytes; oflag : Z; pathname : bytes;
  client : option (list Client); client_size : Z;
  debug : Z; log_to_stderr : Z; srv_cmptr : bool;
}.
Definition set_errmsg v s := Server v (oflag s) (pathname s) (client s) (client_size s) (debug s) (log_to_stderr s) (srv_cmptr s).
Definition set_request p o s := Server (errmsg s) o p (client s) (client_size s) (debug s) (log_to_stderr s) (srv_cmptr s).
Definition set_client c n s := Server (errmsg s) (oflag s) (pathname s) c n (debug s) (log_to_stderr s) (srv_cmptr s).
Definition set_debug v s := Server (errmsg s) (oflag s) (pathname s) (client s) (client_size s) v v (srv_cmptr s).
Definition set_srv_cmptr v s := Server (errmsg s) (oflag s) (pathname s) (client s) (client_size s) (debug s) (log_to_stderr s) v.
Definition srv_cm : lens server bool := Lens srv_cmptr set_srv_cmptr.

Section opend.
Context `{Kernel} (strerror : Z -> bytes) (word : Z).
Notation srv := (M (proc server)).

(** ** Requests *)

Definition is_white (c : Z) : bool := (c =? 32) || (c =? 9) || (c =? 10).

(** [strtok] with WHITE: the white space skipped, the token, and what is left
    after the delimiter that ends it; [None] for a null pointer. *)
Fixpoint skip_white (b : bytes) : bytes * bytes :=
  match b with
  | c :: b' => if is_white c then let '(w, r) := skip_white b' in (c :: w, r) else ([], b)
  | [] => ([], [])
  end.
Fixpoint token (b : bytes) : bytes * bytes :=
  match b with
  | c :: b' => if is_white c then ([], b') else let '(t, r) := token b' in (c :: t, r)
  | [] => ([], [])
  end.
Definition strtok (b : bytes) : option (bytes * bytes * bytes) :=
  let '(w, r) := skip_white b in
  match r with [] => None | _ => let '(t, r) := token r in Some (w, t, r) end.

(** [argv[0]] is the buffer itself, with the white space before its first
    token. *)
Definition buf_args (buf : bytes) (optfunc : list bytes -> srv Z) : srv Z :=
  match strtok buf with
  | None => ret (-1)
  | Some (w, t, rest) =>
      r <- loop (S (length rest)) (fun '(argv, rest) =>
             match strtok rest with
             | None => ret (inr (Some argv))
             | Some (_, t, rest) =>
                 if MAXARGC - 1 <=? Zlen argv then ret (inr None)
                 else ret (inl (argv ++ [t], rest))
             end) ([w ++ t], rest) ;;
      match r with Some argv => optfunc argv | None => ret (-1) end
  end.

(** [atoi] is undefined for a number that an [int] does not hold. *)
Definition cli_args (argv : list bytes) : srv Z :=
  if negb (Zlen argv =? 3) || negb (bool_decide (aget argv 0 = CL_OPEN)) then
    setvars (set_errmsg (B "usage: <pathname> <oflag>" ++ LF)) ;; ret (-1)
  else
    let n := atol (aget argv 2) in
    if in_int n then setvars (set_request (aget argv 1) n) ;; ret 0 else exit_ UNDEFINED.

(** "%*.*s" with [n] twice. *)
Definition field (n : Z) (b : bytes) : bytes :=
  let t := cstr (take (Z.to_nat n) b) in replicate (Z.to_nat n - length t) SPACE ++ t.

Definition send_error (sock : Z) : srv unit :=
  msg <- getvar errmsg ;; send_err word srv_cm sock (-1) msg ;; ret tt.

(** [snprintf(errmsg, MAXLINE-1, ...)]. *)
Definition put_errmsg (text : bytes) : srv unit :=
  setvars (set_errmsg (snprintf (MAXLINE - 1) text)).

Definition not_opened (path : bytes) (e : Z) : bytes :=
  B "can't open " ++ path ++ B ": " ++ strerror e.

(** *** 17.5 *)

Definition handle_request_1 (buf : bytes) (nread sock : Z) : srv unit :=
  openlog (B "myopend") ;;
  if negb (aget buf (nread - 1) =? 0) then
    syslog LOG_ERR (B "request not null terminated: " ++ field nread buf) ;;
    put_errmsg (B "request not null terminated: " ++ field nread buf ++ LF) ;;
    send_error sock
  else
    r <- buf_args (cstr buf) cli_args ;;
    if r <? 0 then syslog LOG_ERR (B "buf_args error") ;; send_error sock
    else
      path <- getvar pathname ;;
      flags <- getvar oflag ;;
      syslog LOG_ERR (B "pathname = " ++ path) ;;
      newfd <- sysret (Open path flags) ;;
      if newfd <? 0 then
        e <- gets errno ;;
        syslog LOG_ERR (not_opened path e) ;;
        put_errmsg (not_opened path e ++ LF) ;;
        send_error sock
      else
        syslog LOG_ERR (B "send_fd(fd = " ++ dec sock ++ B ", newfd = " ++ dec newfd ++ B ")") ;;
        r <- send_fd word srv_cm sock newfd ;;
        (when r <? 0 do err_sys strerror (B "send_fd error")) ;;
        sys_ (Close newfd).

Definition main_server_1 : srv Z :=
  forever (fun _ =>
    a <- sys (Read STDIN_FILENO MAXLINE) ;;
    let nread := a_ret a in
    if nread <? 0 then err_sys strerror (B "read error on stream pipe")
    else if nread =? 0 then ret (inr tt)
    else handle_request_1 (a_data a) nread STDOUT_FILENO ;; ret (inl tt)) tt ;;
  exit_ 0.

(** *** 17.6 *)

Definition say := log_msg (V := server) strerror log_to_stderr.

(** A text given as a format without arguments: only %% is defined. *)
Fixpoint format_plain (b : bytes) : option bytes :=
  match b with
  | [] => Some []
  | 37 :: 37 :: b => cons 37 <$> format_plain b
  | 37 :: _ => None
  | c :: b => cons c <$> format_plain b
  end.

(** "%d" of an unsigned [uid_t]. *)
Definition show_uid (u : Z) : bytes := dec (signed 32 u).

Definition handle_request (buf : bytes) (nread clifd u : Z) : srv unit :=
  openlog (B "myopend") ;;
  if negb (aget buf (nread - 1) =? 0) then
    syslog LOG_ERR (B "request not null terminated: " ++ field nread buf) ;;
    put_errmsg (B "request from uid " ++ show_uid u ++ B " not null terminated: " ++ field nread buf ++ LF) ;;
    send_error clifd
  else
    say (B "request: " ++ cstr buf ++ B ", from uid " ++ show_uid u) ;;
    r <- buf_args (cstr buf) cli_args ;;
    if r <? 0 then syslog LOG_ERR (B "buf_args error") ;; send_error clifd
    else
      path <- getvar pathname ;;
      flags <- getvar oflag ;;
      syslog LOG_ERR (B "pathname = " ++ path) ;;
      newfd <- sysret (Open path flags) ;;
      if newfd <? 0 then
        e <- gets errno ;;
        syslog LOG_ERR (not_opened path e) ;;
        put_errmsg (not_opened path e ++ LF) ;;
        send_error clifd ;;
        msg <- getvar errmsg ;;
        match format_plain msg with Some t => say t | None => exit_ UNDEFINED end
      else
        syslog LOG_ERR (B "send_fd(fd = " ++ dec clifd ++ B ", newfd = " ++ dec newfd ++ B ")") ;;
        r <- send_fd word srv_cm clifd newfd ;;
        (when r <? 0 do err_sys strerror (B "send_fd error")) ;;
        say (B "sent fd " ++ dec newfd ++ B " over fd " ++ dec clifd ++ B " for " ++ path) ;;
        sys_ (Close newfd).

(** ** The table of clients *)

(** What [malloc] and [realloc] leave in the new entries. *)
Context (junk : Z).

(** A null pointer is an empty array here, since its size is 0. *)
Definition table : srv (list Client) := c <- getvar client ;; ret (default [] c).

Definition client_alloc : srv unit :=
  c <- table ;;
  n <- getvar client_size ;;
  p <- sysret (Malloc ((n + NALLOC) * 8)) ;;
  if p =? 0 then err_sys strerror (B "can't alloc for client array")
  else setvars (set_client (Some (c ++ replicate (Z.to_nat NALLOC) (Cl (-1) junk))) (n + NALLOC)).

(** The first entry with this descriptor, as the [for] loops look for it. *)
Definition client_find (f : Z) : srv (option Z) :=
  n <- getvar client_size ;;
  loop (S (Z.to_nat n)) (fun i =>
    if i <? n then
      c <- table ;;
      guard_ok (in_bounds c i) ;;
      if fd (aget c i) =? f then ret (inr (Some i)) else ret (inl (i + 1))
    else ret (inr None)) 0.

Definition client_put (i : Z) (e : Client) : srv unit :=
  c <- table ;; n <- getvar client_size ;;
  guard_ok (in_bounds c i) ;; setvars (set_client (Some (aset c i e)) n).

(** [while (1)]: after one [client_alloc] there is a free entry. *)
Definition client_add (f u : Z) : srv Z :=
  c <- getvar client ;;
  (match c with None => client_alloc | Some _ => ret tt end) ;;
  loop 2 (fun _ =>
    i <- client_find (-1) ;;
    match i with
    | Some i => client_put i (Cl f u) ;; ret (inr i)
    | None => client_alloc ;; ret (inl tt)
    end) tt.

Definition client_del (f : Z) : srv unit :=
  i <- client_find f ;;
  match i with
  | Some i => c <- table ;; client_put i (Cl (-1) (uid (aget c i)))
  | None => log_quit strerror log_to_stderr (B "can't find client entry for fd " ++ dec f)
  end.

(** ** The loop with select *)

(** [FD_SET], defined for descriptors below [FD_SETSIZE]. *)
Definition FD_SET (f : Z) (set : list Z) : srv (list Z) :=
  guard_ok ((0 <=? f) && (f <? FD_SETSIZE)) ;; ret (f :: set).
Definition FD_CLR (f : Z) (set : list Z) : list Z := filter (fun x => x <> f) set.

(** The locals that live through the rounds. *)
Record selects := Selects { allset : list Z; maxfd : Z; maxi : Z }.

(** A new connection. *)
Definition new_connection (listenfd : Z) (l : selects) : srv selects :=
  let! (clifd, u) := serv_accept listenfd in
  if clifd <? 0 then log_sys strerror log_to_stderr (B "serv_accept error: " ++ dec clifd)
  else
    i <- client_add clifd u ;;
    set <- FD_SET clifd (allset l) ;;
    say (B "new connection: uid " ++ show_uid u ++ B ", fd " ++ dec clifd) ;;
    ret (Selects set (if clifd >? maxfd l then clifd else maxfd l) (if i >? maxi l then i else maxi l)).

(** The requests of one round: entry after entry of the table. *)
Definition serve_clients (rset : list Z) (l : selects) : srv selects :=
  loop (Z.to_nat (maxi l + 2)) (fun '(i, set) =>
    if i <=? maxi l then
      c <- table ;;
      guard_ok (in_bounds c i) ;;
      let clifd := fd (aget c i) in
      let u := uid (aget c i) in
      if clifd <? 0 then ret (inl (i + 1, set))
      else if bool_decide (clifd ∈ rset) then
        a <- sys (Read clifd MAXLINE) ;;
        let nread := a_ret a in
        if nread <? 0 then log_sys strerror log_to_stderr (B "read error on fd " ++ dec clifd)
        else if nread =? 0 then
          say (B "closed: uid " ++ show_uid u ++ B ", fd " ++ dec clifd) ;;
          client_del clifd ;;
          sys_ (Close clifd) ;;
          ret (inl (i + 1, FD_CLR clifd set))
        else handle_request (a_data a) nread clifd u ;; ret (inl (i + 1, set))
      else ret (inl (i + 1, set))
    else ret (inr (Selects set (maxfd l) (maxi l)))) (0, allset l).

Definition loop_round (listenfd : Z) (l : selects) : srv selects :=
  a <- sys (Select (maxfd l + 1) (allset l) [] (-1)) ;;
  if a_ret a <? 0 then log_sys strerror log_to_stderr (B "select error")
  else if bool_decide (listenfd ∈ a_rd a) then new_connection listenfd l
  else serve_clients (a_rd a) l.

Definition loop_select {A} : srv A :=
  listenfd <- serv_listen CS_OPEN ;;
  (when listenfd <? 0 do log_sys strerror log_to_stderr (B "serv_listen error")) ;;
  set <- FD_SET listenfd [] ;;
  forever (fun l => l <- loop_round listenfd l ;; ret (inl l)) (Selects set listenfd (-1)).

(** [getopt] answers -1 at the end, 'd' or '?'; the option it rejects is the
    number of the answer. *)
Definition main_server : srv Z :=
  log_open log_to_stderr (openlog (B "open.serv")) ;;
  forever (fun _ =>
    a <- sys Getopt ;;
    let c := a_ret a in
    if c =? -1 then ret (inr tt)
    else if c =? 100 then setvars (set_debug 1) ;; ret (inl tt)
    else if c =? 63 then err_quit strerror (B "unrecognized option: -" ++ [a_num a])
    else ret (inl tt)) tt ;;
  d <- getvar debug ;;
  (when d =? 0 do daemonize strerror (B "opend")) ;;
  loop_select.

End opend.

(** ** The clients *)

(** The static variables: the pipe of 17.5, [csfd] of 17.6, [cmptr] of recv_fd. *)
Record opener := Opener { fd0 : Z; fd1 : Z; csfd : Z; cli_cmptr : bool }.
Definition set_pipe a b o := Opener a b (csfd o) (cli_cmptr o).
Definition set_csfd v o := Opener (fd0 o) (fd1 o) v (cli_cmptr o).
Definition set_cli_cmptr v o := Opener (fd0 o) (fd1 o) (csfd o) v.
Definition cli_cm : lens opener bool := Lens cli_cmptr set_cli_cmptr.
Definition opener0 : opener := Opener (-1) (-1) (-1) false.

Section open.
Context `{Kernel} (strerror : Z -> bytes) (word : Z).
Notation cli := (M (proc opener)).

(** The three parts of a request. *)
Definition request (name : bytes) (flags : Z) : list bytes :=
  [CL_OPEN ++ B " "; name; (B " " ++ dec flags) ++ [NUL]].

(** Send the request and wait for the answer; [size] is that of [buf]. *)
Definition cs_request (size sock : Z) (name : bytes) (flags : Z) : cli Z :=
  guard_ok (Zlen (B " " ++ dec flags) <? size) ;;
  n <- sysret (Writev sock (request name flags)) ;;
  if negb (n =? Zlen (concat (request name flags))) then err_ret strerror (B "writev error") ;; ret (-1)
  else recv_fd word strerror cli_cm sock (fun f b => sysret (Write f b)).

(** *** 17.5 *)

(** The child: its end of the pipe becomes both standard streams. *)
Definition become_server (a b : Z) : cli unit :=
  sys_ (Close a) ;;
  (when negb (b =? STDIN_FILENO) do
     (r <- sysret (Dup2 b STDIN_FILENO) ;;
      when negb (r =? STDIN_FILENO) do err_sys strerror (B "dup2 error to stdin"))) ;;
  (when negb (b =? STDOUT_FILENO) do
     (r <- sysret (Dup2 b STDOUT_FILENO) ;;
      when negb (r =? STDOUT_FILENO) do err_sys strerror (B "dup2 error to stdout"))) ;;
  r <- sysret (Execl (B "./opend") (B "opend")) ;;
  if r <? 0 then err_sys strerror (B "execl error") else exit_ REPLACED.

Definition csopen_1 (name : bytes) (flags : Z) : cli Z :=
  f <- getvar fd0 ;;
  ok <- (if f <? 0 then
           let! (r, a, b) := fd_pipe in
           if r <? 0 then err_ret strerror (B "fd_pipe error") ;; ret false
           else
             setvars (set_pipe a b) ;;
             pid <- sysret Fork ;;
             if pid <? 0 then err_ret strerror (B "fork error") ;; ret false
             else (when pid =? 0 do become_server a b) ;; sys_ (Close b) ;; ret true
         else ret true) ;;
  if negb ok then ret (-1)
  else sock <- getvar fd0 ;; cs_request 10 sock name flags.

(** *** 17.6 *)

Definition csopen (name : bytes) (flags : Z) : cli Z :=
  f <- getvar csfd ;;
  ok <- (if f <? 0 then
           f <- cli_conn CS_OPEN ;;
           setvars (set_csfd f) ;;
           if f <? 0 then err_ret strerror (B "cli_conn error") ;; ret false else ret true
         else ret true) ;;
  if negb ok then ret (-1)
  else sock <- getvar csfd ;; cs_request 12 sock name flags.

(** The program of both: open the files named on the standard input and copy
    them to the standard output. *)
Definition main_client (csopen : bytes -> Z -> cli Z) : cli Z :=
  openlog (B "myopen") ;;
  forever (fun _ =>
    a <- sys (Fgets MAXLINE) ;;
    if a_ret a =? 0 then ret (inr tt)
    else
      let line := cstr (a_data a) in
      let n := Zlen line in
      guard_ok (0 <? n) ;;
      let line := if aget line (n - 1) =? NEWLINE then take (Z.to_nat (n - 1)) line else line in
      f <- csopen line O_RDONLY ;;
      if f <? 0 then ret (inl tt)
      else
        syslog LOG_ERR (B "received fd is " ++ dec f) ;;
        forever (fun _ =>
          a <- sys (Read f BUFFSIZE) ;;
          if 0 <? a_ret a then
            w <- sysret (Write STDOUT_FILENO (a_data a)) ;;
            (when negb (w =? a_ret a) do err_sys strerror (B "write error")) ;;
            ret (inl tt)
          else if a_ret a <? 0 then err_sys strerror (B "read error")
          else ret (inr tt)) tt ;;
        sys_ (Close f) ;;
        ret (inl tt)) tt ;;
  ret 0.
End open.
