(* ===== verification/OpendProofs.v ===== *)
(** OpendProofs: requests are parsed as they are sent, and the searches and
    changes of the table of clients. *)
From stdpp Require Import sets list strings.
From S2P Require Import Prelude Arrays Bytes Sys ErrorLog FdPass FdPassProofs Opend.

(** ** Words *)

(** The specification of [strtok] loops: the fields between white space that are
    not empty. *)
Fixpoint fields (b : bytes) : list bytes :=
  match b with
  | [] => [[]]
  | c :: b => if is_white c then [] :: fields b
              else match fields b with t :: l => (c :: t) :: l | [] => [[c]] end
  end.
Definition words (b : bytes) : list bytes := filter (fun t => t <> []) (fields b).

(** A text without white space. *)
Definition solid (t : bytes) : Prop := Forall (fun c => is_white c = false) t.

Lemma fields_white c b : is_white c = true -> fields (c :: b) = [] :: fields b.
Proof. intros Hc. simpl. by rewrite Hc. Qed.

Lemma fields_not_nil b : fields b <> [].
Proof. destruct b as [|c b]; simpl; [done|]. destruct (is_white c); [done|]. by destruct (fields b). Qed.

Lemma fields_solid t : solid t -> fields t = [t].
Proof.
  induction 1 as [|c t Hc Ht IH]; [done|]. simpl. by rewrite Hc, IH.
Qed.

Lemma fields_app t c b : solid t -> is_white c = true -> fields (t ++ c :: b) = t :: fields b.
Proof.
  intros Ht Hc. induction Ht as [|x t Hx Ht IH]; simpl; [by rewrite Hc|]. by rewrite Hx, IH.
Qed.

Lemma words_white c b : is_white c = true -> words (c :: b) = words b.
Proof. intros Hc. unfold words. rewrite fields_white by done. by rewrite filter_cons_False by naive_solver. Qed.

Lemma words_app t c b : solid t -> t <> [] -> is_white c = true -> words (t ++ c :: b) = t :: words b.
Proof. intros Ht Hne Hc. unfold words. rewrite fields_app by done. by rewrite filter_cons_True. Qed.

Lemma words_solid t : solid t -> t <> [] -> words t = [t].
Proof. intros Ht Hne. unfold words. rewrite fields_solid by done. by rewrite filter_cons_True. Qed.

(** [token] takes a word off a buffer that starts with one. *)
Lemma token_words c b : is_white c = false ->
  words (c :: b) = (token (c :: b)).1 :: words (token (c :: b)).2 /\
  (length (token (c :: b)).2 <= length b)%nat.
Proof.
  intros Hc. assert (Hspec : forall b, exists t r, token b = (t, r) /\ solid t /\
    (b = t /\ r = [] \/ exists d, is_white d = true /\ b = t ++ d :: r)).
  { clear. induction b as [|x b (t & r & E & Ht & Hb)]; simpl.
    - exists [], []. split; [done|]. split; [by constructor|by left].
    - destruct (is_white x) eqn:Ex.
      + exists [], b. split; [done|]. split; [by constructor|]. right. by exists x.
      + rewrite E. exists (x :: t), r. split; [done|]. split; [by constructor|].
        destruct Hb as [[-> ->]|(d & Hd & ->)]; [by left|right; by exists d]. }
  destruct (Hspec (c :: b)) as (t & r & E & Ht & Hb). rewrite E. simpl.
  assert (Hne : t <> []).
  { intros ->. destruct Hb as [[? _]|(d & Hd & [= -> _])]; [done|congruence]. }
  destruct Hb as [[Eb ->]|(d & Hd & Eb)]; rewrite Eb.
  - split; [by apply words_solid|simpl; lia].
  - split; [by apply words_app|]. apply (f_equal length) in Eb. rewrite length_app in Eb. simpl in Eb.
    destruct t; [done|]. simpl in Eb. lia.
Qed.

Lemma skip_white_spec b : exists w r, skip_white b = (w, r) /\ b = w ++ r /\ words b = words r /\
  (r = [] \/ exists c r', r = c :: r' /\ is_white c = false).
Proof.
  induction b as [|c b (w & r & E & -> & Ew & Hr)]; simpl; [exists [], []; auto|].
  destruct (is_white c) eqn:Ec.
  - rewrite E. exists (c :: w), r. split; [done|]. split; [done|]. by rewrite words_white.
  - exists [], (c :: w ++ r). split; [done|]. split; [done|]. split; [done|]. right. by exists c, (w ++ r).
Qed.

Lemma strtok_spec b :
  match strtok b with
  | None => words b = []
  | Some (w, t, r) => words b = t :: words r /\ (length r < length b)%nat /\
      (forall c b', b = c :: b' -> is_white c = false -> w = [])
  end.
Proof.
  unfold strtok. destruct (skip_white_spec b) as (w & r & E & -> & Ew & [->|(c & r' & -> & Hc)]); rewrite E.
  - by rewrite Ew.
  - destruct (token_words c r' Hc) as [Et Hl]. destruct (token (c :: r')) as [t r'']. simpl in Et, Hl.
    rewrite Ew, Et. split; [done|]. split; [rewrite length_app; simpl; lia|].
    intros x b' Eb Hx. destruct w as [|y w]; [done|]. injection Eb as -> _.
    simpl in E. rewrite Hx in E. by injection E.
Qed.

Section requests.
Implicit Types (s : proc server).

(** [buf_args] passes the words on, the first with the white space before it,
    or fails when there are none or more than 49. *)
Lemma buf_args_eq buf f s :
  buf_args buf f s = match strtok buf with
    | None => Ret (-1) s
    | Some (w, t, rest) =>
        if Zlen (t :: words rest) <=? 49 then f ((w ++ t) :: words rest) s else Ret (-1) s
    end.
Proof.
  unfold buf_args. destruct (strtok buf) as [[[w t] rest]|]; [|done].
  set (body := fun _ => _).
  assert (Hloop : forall n argv rest, (length rest < n)%nat -> Zlen argv <= 49 ->
    loop n body (argv, rest) s =
      Ret (if Zlen (argv ++ words rest) <=? 49 then Some (argv ++ words rest) else None) s).
  { clear -body. induction n as [|n IH]; intros argv rest Hn Ha; [lia|].
    simpl. unfold bind at 1. unfold body at 1. pose proof (strtok_spec rest) as Hs.
    destruct (strtok rest) as [[[w t] r]|].
    - destruct Hs as (Ew & Hl & _). rewrite Ew. destruct (Z.leb_spec (MAXARGC - 1) (Zlen argv)) as [Hm|Hm].
      + unfold MAXARGC in Hm. rewrite Zlen_app.
        destruct (Z.leb_spec (Zlen argv + Zlen (t :: words r)) 49); [|done].
        unfold Zlen in *. simpl in *. lia.
      + unfold MAXARGC in Hm. simpl. rewrite IH; [by rewrite <-app_assoc|lia|].
        rewrite Zlen_app. unfold Zlen at 2. simpl. lia.
    - rewrite Hs, app_nil_r. simpl. by destruct (Z.leb_spec (Zlen argv) 49); [|lia]. }
  unfold bind. rewrite Hloop by (unfold Zlen; simpl; lia). simpl ([w ++ t] ++ words rest).
  change (Zlen ((w ++ t) :: words rest)) with (Zlen (t :: words rest)).
  by destruct (Z.leb_spec (Zlen (t :: words rest)) 49).
Qed.

Lemma buf_args_run buf f s c b : buf = c :: b -> is_white c = false ->
  buf_args buf f s = if Zlen (words buf) <=? 49 then f (words buf) s else Ret (-1) s.
Proof.
  intros Eb Hc. rewrite buf_args_eq. pose proof (strtok_spec buf) as Hs.
  destruct (strtok buf) as [[[w t] rest]|].
  - destruct Hs as (Ew & _ & Hw). by rewrite (Hw c b Eb Hc), Ew.
  - destruct (token_words c b Hc) as [Ew _]. rewrite Eb, Ew in Hs. done.
Qed.
End requests.

(** *** What the client sends is what the server opens *)

Lemma solid_dec n : 0 <= n -> solid (dec n).
Proof.
  intros Hn. eapply Forall_impl; [by apply dec_isdigit|]. intros c. unfold isdigit, is_white. lia.
Qed.

Lemma dec_no_nul n : 0 <= n -> no_nul (dec n).
Proof. intros Hn. by apply dec_no. Qed.

Lemma request_text name flags : no_nul name -> 0 <= flags ->
  cstr (concat (request name flags)) = CL_OPEN ++ 32 :: name ++ 32 :: dec flags.
Proof.
  intros Hn Hf. unfold request. cbn [concat].
  replace ((CL_OPEN ++ B " ") ++ name ++ ((B " " ++ dec flags) ++ [NUL]) ++ [])
    with ((CL_OPEN ++ 32 :: name ++ 32 :: dec flags) ++ NUL :: []).
  2: { rewrite app_nil_r. change (B " ") with [32].
       change (32 :: name ++ 32 :: dec flags) with ([32] ++ name ++ [32] ++ dec flags).
       by rewrite <-!app_assoc. }
  apply cstr_app. pose proof (dec_no_nul flags Hf). unfold no_nul in *.
  assert (Ho : NUL ∉ CL_OPEN) by (vm_compute; set_solver). assert (Hs : NUL <> 32) by done. set_solver.
Qed.

Lemma words_request name flags : solid name -> name <> [] -> 0 <= flags ->
  words (CL_OPEN ++ 32 :: name ++ 32 :: dec flags) = [CL_OPEN; name; dec flags].
Proof.
  intros Hs Hne Hf. rewrite words_app; [|repeat constructor|done|done].
  rewrite words_app by done. rewrite words_solid; [done|by apply solid_dec|].
  pose proof (dec_length_pos flags Hf). by destruct (dec flags); [simpl in *; lia|].
Qed.

Definition usage_text : bytes := B "usage: <pathname> <oflag>" ++ LF.

Definition with_vars (v : server) (s : proc server) : proc server :=
  Proc (script s) (history s) (errno s) v.

Lemma run_request s line ws : line = CL_OPEN ++ 32 :: ws -> 
  buf_args line cli_args s =
    if Zlen (words line) <=? 49 then cli_args (words line) s else Ret (-1) s.
Proof. intros ->. by eapply buf_args_run. Qed.

(** Requests survive the way to the server: what [csopen] sends for a path
    name without white space and a flag word, [buf_args] and [cli_args] take
    apart into exactly that name and those flags; a name of two words is
    refused with the usage message and changes nothing else. *)
Theorem request_roundtrip (s : proc server) (name a b : bytes) (flags : Z)
  (Hname : solid name /\ no_nul name /\ name <> []) (Hflags : 0 <= flags <= INT_MAX)
  (Hwords : solid a /\ solid b /\ a <> [] /\ b <> [] /\ no_nul (a ++ b)) :
  buf_args (cstr (concat (request name flags))) cli_args s =
    Ret 0 (with_vars (set_request name flags (vars s)) s) /\
  buf_args (cstr (concat (request (a ++ [32] ++ b) flags))) cli_args s =
    Ret (-1) (with_vars (set_errmsg usage_text (vars s)) s).
Proof.
  destruct Hname as (Hs & Hn & Hne). destruct Hwords as (Ha & Hb & Hna & Hnb & Hnab). split.
  - rewrite request_text by (done || lia). erewrite run_request by done.
    rewrite words_request by (done || lia). unfold cli_args. simpl (Zlen _).
    rewrite bool_decide_eq_true_2 by done. simpl.
    unfold bind. change (aget [CL_OPEN; name; dec flags] 2) with (dec flags).
    assert (Ea : atol (dec flags) = flags) by (rewrite <-(app_nil_r (dec flags)); by apply atol_digits; [lia|]).
    rewrite Ea. assert (Hi : in_int flags = true) by (apply in_int_spec; unfold INT_MIN; lia).
    by rewrite Hi.
  - rewrite request_text; [|unfold no_nul in *; assert (NUL <> 32) by done; set_solver|lia].
    erewrite run_request by done.
    assert (Ew : words (CL_OPEN ++ 32 :: (a ++ [32] ++ b) ++ 32 :: dec flags) = [CL_OPEN; a; b; dec flags]).
    { rewrite words_app; [|repeat constructor|done|done]. rewrite <-!app_assoc. simpl.
      rewrite words_app by done. rewrite words_app by done.
      rewrite words_solid; [done|apply solid_dec; lia|].
      pose proof (dec_length_pos flags ltac:(lia)). by destruct (dec flags); [simpl in *; lia|]. }
    rewrite Ew. reflexivity.
Qed.

Lemma request_roundtrip_witness :
  let s := Proc [] [] 0 (Server [] 0 [] None 0 0 0 false) in
  buf_args (cstr (concat (request (B "/etc/passwd") 0))) cli_args s =
    Ret 0 (with_vars (set_request (B "/etc/passwd") 0 (vars s)) s) /\
  buf_args (cstr (concat (request (B "/my" ++ [32] ++ B "file") 0))) cli_args s =
    Ret (-1) (with_vars (set_errmsg usage_text (vars s)) s).
Proof.
  intros s. apply (request_roundtrip s (B "/etc/passwd") (B "/my") (B "file") 0).
  - split; [repeat constructor|]. split; [|discriminate]. vm_compute. set_solver.
  - unfold INT_MAX. lia.
  - split; [repeat constructor|]. split; [repeat constructor|]. split; [discriminate|].
    split; [discriminate|]. vm_compute. set_solver.
Defined.

(** ** The table of clients *)

Section table.
Context `{Kernel} (strerror : Z -> bytes) (junk : Z).
Implicit Types (v : server) (c : list Client).

Definition tbl v : list Client := default [] (client v).

(** [client_size] is the size of the array. *)
Definition table_ok v : Prop := client_size v = Zlen (tbl v).

(** The entries in use. *)
Definition active c : list Client := filter (fun e => fd e <> -1) c.
Definition connected v : list Client := active (tbl v).

(** Everything but the table is as before. *)
Definition table_only v v' : Prop :=
  errmsg v' = errmsg v /\ oflag v' = oflag v /\ pathname v' = pathname v /\
  debug v' = debug v /\ log_to_stderr v' = log_to_stderr v /\ srv_cmptr v' = srv_cmptr v.

#[local] Instance table_only_preorder : PreOrder table_only.
Proof. split; [by repeat split|]. intros v1 v2 v3 H1 H2. unfold table_only in *. intuition congruence. Qed.

Lemma wp_table (Q : list Client -> proc server -> Prop) X s :
  Q (tbl (vars s)) s -> wp table Q X s.
Proof. intros HQ. exact HQ. Qed.

Lemma wp_client_find f (Q : option Z -> proc server -> Prop) X s : table_ok (vars s) ->
  (forall i, 0 <= i < Zlen (tbl (vars s)) -> fd (aget (tbl (vars s)) i) = f -> Q (Some i) s) ->
  ((forall e, e ∈ tbl (vars s) -> fd e <> f) -> Q None s) ->
  wp (client_find f) Q X s.
Proof.
  intros Hok HQ1 HQ2. unfold client_find, getvar. apply wp_bind, wp_gets. cbv beta. red in Hok. rewrite !Hok.
  set (c := tbl (vars s)) in *.
  apply (wp_loop (fun i s' => s' = s /\ 0 <= i <= Zlen c /\ forall k, 0 <= k < i -> fd (aget c k) <> f)
           (fun i _ => Z.to_nat (Zlen c - i))).
  { split; [done|]. pose proof (Zlen_nonneg c). split; [lia|]. lia. }
  { lia. }
  intros i s' (-> & Hi & Hbelow). rewrite ?Hok. fold c. destruct (Z.ltb_spec i (Zlen c)) as [Hlt|Hge].
  - apply wp_bind, wp_table. fold c. apply wp_bind, wp_guard; [unfold in_bounds; lia|].
    destruct (Z.eqb_spec (fd (aget c i)) f) as [E|Hne].
    + apply wp_ret, HQ1; [lia|done].
    + apply wp_ret. split; [|lia]. split; [done|]. split; [lia|].
      intros k Hk. destruct (decide (k = i)) as [->|]; [done|]. apply Hbelow. lia.
  - apply wp_ret, HQ2. intros e He. apply list_elem_of_lookup in He as [k Hk].
    pose proof (lookup_lt_Some _ _ _ Hk).
    assert (Ee : aget c (Z.of_nat k) = e) by (unfold aget; rewrite Nat2Z.id; by apply list_lookup_total_correct).
    rewrite <-Ee. apply Hbelow. unfold Zlen in *. lia.
Qed.

(** Replacing an entry. *)
Lemma active_aset c i e : 0 <= i < Zlen c ->
  active c ≡ₚ active [aget c i] ++ active (take (Z.to_nat i) c ++ drop (S (Z.to_nat i)) c) /\
  active (aset c i e) ≡ₚ active [e] ++ active (take (Z.to_nat i) c ++ drop (S (Z.to_nat i)) c).
Proof.
  intros Hi. apply aget_lookup in Hi as El. unfold Zlen in Hi.
  assert (Hs : forall x, active (take (Z.to_nat i) c ++ x :: drop (S (Z.to_nat i)) c) ≡ₚ
     active [x] ++ active (take (Z.to_nat i) c ++ drop (S (Z.to_nat i)) c)).
  { intros x. unfold active. rewrite !filter_app. change (x :: drop (S (Z.to_nat i)) c) with ([x] ++ drop (S (Z.to_nat i)) c).
    rewrite filter_app. rewrite !app_assoc. by rewrite (Permutation_app_comm (filter _ (take _ _)) (filter _ [x])). }
  split.
  - rewrite <-(take_drop_middle c _ _ El) at 1. apply Hs.
  - unfold aset. rewrite insert_take_drop by lia. apply Hs.
Qed.

Lemma active_fill c i f u : 0 <= i < Zlen c -> fd (aget c i) = -1 -> f <> -1 ->
  active (aset c i (Cl f u)) ≡ₚ Cl f u :: active c.
Proof.
  intros Hi E Hf. destruct (active_aset c i (Cl f u) Hi) as [-> ->].
  unfold active at 1 3. rewrite filter_cons_True by done. rewrite filter_cons_False by naive_solver. done.
Qed.

Lemma active_free c i u : 0 <= i < Zlen c -> fd (aget c i) <> -1 ->
  active c ≡ₚ aget c i :: active (aset c i (Cl (-1) u)).
Proof.
  intros Hi E. destruct (active_aset c i (Cl (-1) u) Hi) as [-> ->].
  unfold active at 1 3. rewrite filter_cons_True by done. rewrite filter_cons_False by naive_solver. done.
Qed.

Lemma active_grow c n : active (c ++ replicate n (Cl (-1) junk)) = active c.
Proof.
  unfold active. rewrite filter_app. replace (filter _ (replicate n _)) with (@nil Client); [by rewrite app_nil_r|].
  induction n as [|n IH]; [done|]. simpl. rewrite filter_cons_False by naive_solver. done.
Qed.
End table.
