(* ===== verification/OpendServer.v ===== *)
(** OpendServer: the open server with [select] (17.6/loop_select.c): what its
    handlers keep, the invariant of its loop, and that it watches exactly the
    connections that it has. *)
From stdpp Require Import sets list strings.
From S2P Require Import Prelude Arrays Bytes Sys ErrorLog FdPass FdPassProofs Opend OpendProofs.

(** ** The server *)

(** Variables but the control buffer are the same. *)
Definition cm_only (v v' : server) : Prop :=
  client v' = client v /\ client_size v' = client_size v /\ errmsg v' = errmsg v.
#[export] Instance cm_only_preorder : PreOrder cm_only.
Proof. split; [by repeat split|]. intros v1 v2 v3 H1 H2. unfold cm_only in *. intuition congruence. Qed.

(** The table is the same, and [errmsg] fits its array. *)
Definition errmsg_ok (v : server) : Prop := Zlen (errmsg v) <= MAXLINE.
Definition kept (v v' : server) : Prop :=
  client v' = client v /\ client_size v' = client_size v /\ (errmsg_ok v -> errmsg_ok v').
#[export] Instance kept_preorder : PreOrder kept.
Proof. split; [by repeat split|]. intros v1 v2 v3 H1 H2. unfold kept in *. intuition congruence. Qed.

Lemma cm_only_kept v v' : cm_only v v' -> kept v v'.
Proof. intros (E1 & E2 & E3). unfold kept, errmsg_ok. by rewrite E3. Qed.

(** A number that an [int] holds. *)
Definition fits_int (z : Z) : Prop := INT_MIN <= z <= INT_MAX.

(** [accept] cuts the address that it stores to the size of [sun_path]. *)
Definition posix_accept `{Kernel} : Prop := forall l a, allowed (Accept l) a -> Zlen (a_data a) <= SUN_PATH.

(** The third word of a request is a number that fits. *)
Definition sane (buf : bytes) : Prop := fits_int (atol (aget (words (cstr buf)) 2)).

(** What leads to undefined behaviour: a request whose third word is no such number,
    and a file that cannot be opened, when its path or the text of the error has a
    percent sign. *)
Definition provokes (strerror : Z -> bytes) (e : event) : Prop :=
  match e with
  | Called (Read _ _) a => ~ sane (a_data a)
  | Called (Open p _) a => a_ret a < 0 /\ (37 ∈ p \/ 37 ∈ strerror (a_errno a))
  | _ => False
  end.
Definition provoked (strerror : Z -> bytes) (h : list event) : Prop := exists e, e ∈ h /\ provokes strerror e.

Section server.
Context `{Kernel} (strerror : Z -> bytes) (word junk : Z) (base : list Z).
Hypothesis Kread : posix_read.
Hypothesis Kwrite : posix_write.
Hypothesis Ksend : posix_sendmsg.
Hypothesis Kfd : posix_fd.
Hypothesis Kfresh : posix_fresh.
Implicit Types (s : proc server) (v : server).

(** What [select] is asked to watch is exactly what is open besides [base]. *)
Definition watched (n : Z) (rd : list Z) s : Prop :=
  (forall f, f ∈ open_fds (history s) <-> f ∈ rd \/ f ∈ base) /\ Forall (fun f => f < n) rd.

(** In [select] and in [poll] a server watches its connections. *)
Definition watching (c : call) s : Prop :=
  match c with
  | Select n rd _ _ => watched n rd s
  | Poll fds => (forall f, f ∈ open_fds (history s) <-> f ∈ fds \/ f ∈ base) /\ NoDup fds
  | _ => True
  end.

(** The server ends by its error routines, or it waits, or a client has provoked
    undefined behaviour. *)
Definition server_end (c : Z) s : Prop :=
  (c = 1 \/ c = 2 \/ c = WAITING \/ c = UNDEFINED /\ provoked strerror (history s)) /\
  (c = WAITING -> forall k, last (history s) = Some (Waiting k) -> watching k s).

(** From [s] to [s'] nothing was opened or closed in the end. *)
Definition stays (same : server -> server -> Prop) s s' : Prop :=
  (length (script s') <= length (script s))%nat /\ same (vars s) (vars s') /\
  open_fds (history s') = open_fds (history s) /\ history s `prefix_of` history s'.

Lemma stays_refl s : stays kept s s.
Proof. by repeat split. Qed.

Lemma stays_trans s1 s2 s3 : stays kept s1 s2 -> stays kept s2 s3 -> stays kept s1 s3.
Proof.
  intros (L1 & V1 & O1 & P1) (L2 & V2 & O2 & P2). split; [lia|]. split; [by transitivity (vars s2)|].
  split; [congruence|]. by transitivity (history s2).
Qed.

Lemma provoked_stays same s s' : stays same s s' -> provoked strerror (history s) -> provoked strerror (history s').
Proof. intros (_ & _ & _ & [h ->]) (e & He & Hp). exists e. split; [set_solver|done]. Qed.

Lemma minor_fds h o : Forall (fun e => minor e = true) h -> fold_left fd_step h o = o.
Proof.
  intros Hh. revert o. induction Hh as [|e h He _ IH]; intros o; [done|]. simpl.
  replace (fd_step o e) with o; [by apply IH|]. destruct e as [c a|c|t|t|t|t|p t]; try done.
  by destruct c.
Qed.

Lemma ran_stays same s s' h : ran same s s' h -> stays same s s'.
Proof.
  intros (E & L & V & F). split; [done|]. split; [done|]. unfold open_fds. rewrite E, fold_left_app.
  split; [by apply minor_fds|by apply prefix_app_r].
Qed.

Lemma server_end_waits s : waits s -> server_end WAITING s.
Proof.
  intros (c & E & Hc). split; [by right; right; left|]. intros _ k El. rewrite E in El.
  injection El as <-. by destruct c.
Qed.

(** Minor calls and messages. *)
Lemma wp_minor s0 s c (Q : answer -> proc server -> Prop) : stays kept s0 s -> minor_call c = true ->
  (forall a s', Called c a ∈ history s' -> stays kept s0 s' -> (length (script s') < length (script s))%nat -> Q a s') ->
  wp (sys c) Q server_end s.
Proof.
  intros Hs Hc HQ. apply (wp_sys_from eq s []); [exact (ran_refl eq s)|exact Hc| |].
  - intros a s' _ Hr Hl Hv _. apply HQ; [destruct Hr as [-> _]; apply elem_of_app; right; by left| |done].
    apply ran_stays in Hr as (L & V & O & P). apply (stays_trans _ s); [done|].
    split; [done|]. split; [by rewrite V|done].
  - intros s' Hr. by apply server_end_waits, (ran_waits eq s s' [] c).
Qed.

Lemma stays_event s0 s e : stays kept s0 s -> minor e = true -> stays kept s0 (record_event e s).
Proof.
  intros Hs He. apply (stays_trans _ s); [done|]. split; [done|]. split; [done|]. simpl.
  split; [|by apply prefix_app_r]. rewrite open_fds_snoc. destruct e as [c a|c|t|t|t|t|p t]; try done. by destruct c.
Qed.

Lemma wp_event s0 s e (Q : unit -> proc server -> Prop) X : stays kept s0 s -> minor e = true ->
  (forall s', stays kept s0 s' -> vars s' = vars s -> script s' = script s -> Q tt s') ->
  wp (modify (record_event e)) Q X s.
Proof. intros Hs He HQ. apply wp_modify, HQ; [by apply stays_event|done..]. Qed.

Lemma wp_log_msg s0 s t (Q : unit -> proc server -> Prop) X : stays kept s0 s ->
  (forall s', stays kept s0 s' -> vars s' = vars s -> script s' = script s -> Q tt s') ->
  wp (say strerror t) Q X s.
Proof.
  intros Hs HQ. unfold say, log_msg. apply wp_log_doit. intros ev [b [->| ->]];
    (apply HQ; [by apply stays_event|done..]).
Qed.

Lemma end_exit c s : c = 1 \/ c = 2 -> server_end c s.
Proof. intros Hc. split; [tauto|]. intros ->. destruct Hc; discriminate. Qed.

Lemma wp_err_sys_end {A} t (Q : A -> proc server -> Prop) s : wp (err_sys strerror t) Q server_end s.
Proof.
  unfold err_sys. apply wp_bind, wp_gets. apply wp_bind, wp_err_doit. intros b.
  apply wp_exit, end_exit. by left.
Qed.

Lemma wp_log_sys_end {A} t (Q : A -> proc server -> Prop) s :
  wp (log_sys strerror log_to_stderr t) Q server_end s.
Proof.
  unfold log_sys. apply wp_bind, wp_gets. apply wp_bind, wp_log_doit. intros ev _.
  apply wp_exit, end_exit. by right.
Qed.

(** *** Requests *)

Lemma cm_only_over b v : cm_only v (over srv_cm b v).
Proof. by repeat split. Qed.

Lemma kept_cm s0 s s' : stays kept s0 s -> stays cm_only s s' -> stays kept s0 s'.
Proof.
  intros Hs (L & V & O). apply (stays_trans _ s); [done|]. split; [done|].
  split; [by apply cm_only_kept|done].
Qed.

Lemma wp_send_error s0 s sock (Q : unit -> proc server -> Prop) : stays kept s0 s ->
  errmsg_ok (vars s) ->
  (forall s', stays kept s0 s' -> errmsg (vars s') = errmsg (vars s) -> Q tt s') ->
  wp (send_error word sock) Q server_end s.
Proof.
  intros Hs Hok HQ. unfold send_error, getvar. apply wp_bind, wp_gets. apply wp_bind.
  assert (Hfin : forall s' h, ran cm_only s s' h -> wp (ret tt) Q server_end s').
  { intros s' h Hr%ran_stays. pose proof Hr as (_ & (_ & _ & E) & _).
    apply wp_ret, HQ; [by eapply kept_cm|done]. }
  apply (wp_send_err cm_only srv_cm cm_only_over word Kwrite Ksend).
  - unfold errmsg_ok, MAXLINE in Hok. lia.
  - intros s' h Hr _ _. by eapply Hfin.
  - intros s' h Hr _ _. by eapply Hfin.
  - intros s' h Hr _ Hw. by apply server_end_waits.
Qed.

Lemma wp_send_fd_stays s sock f (Q : Z -> proc server -> Prop) :
  (forall r s', stays cm_only s s' -> Q r s') ->
  wp (send_fd word srv_cm sock f) Q server_end s.
Proof.
  intros HQ.
  apply (wp_send_fd cm_only srv_cm cm_only_over word Ksend sock f _ _ s s []); [exact (ran_refl cm_only s)|..].
  - intros s' h Hr _ _. by eapply HQ, ran_stays.
  - intros s' h Hr _ _. by eapply HQ, ran_stays.
  - intros s' h Hr _ Hw. by apply server_end_waits.
Qed.

Lemma stays_vars s v : kept (vars s) v -> stays kept s (with_vars v s).
Proof. intros Hv. split; [done|]. by split. Qed.

Lemma wp_undefined {A} (Q : A -> proc server -> Prop) s : provoked strerror (history s) ->
  wp (exit_ UNDEFINED) Q server_end s.
Proof. intros Hp. apply wp_exit. split; [by right; right; right|done]. Qed.

(** A number that does not fit has been read. *)
Lemma wp_args buf (Q : Z -> proc server -> Prop) s : sane buf \/ provoked strerror (history s) ->
  (forall r v, kept (vars s) v -> Q r (with_vars v s)) ->
  wp (buf_args (cstr buf) cli_args) Q server_end s.
Proof.
  intros Hsane HQ. unfold sane in Hsane. pose proof (strtok_spec (cstr buf)) as Hs.
  assert (Hsame : Q (-1) s).
  { replace s with (with_vars (vars s) s) by (by destruct s). apply HQ. reflexivity. }
  unfold wp. rewrite buf_args_eq. destruct (strtok (cstr buf)) as [[[w t] rest]|].
  2: { exact Hsame. }
  destruct Hs as (Ew & _ & _). rewrite Ew in Hsane.
  destruct (Zlen (t :: words rest) <=? 49); [|exact Hsame].
  enough (wp (cli_args ((w ++ t) :: words rest)) Q server_end s) as Hw by exact Hw.
  unfold cli_args.
  destruct (_ || _) eqn:Eb.
  - apply wp_bind, wp_modify, wp_ret, HQ. split; [done|]. split; [done|]. intros _. by vm_compute.
  - change (aget ((w ++ t) :: words rest) 2) with (aget (t :: words rest) 2).
    destruct (in_int _) eqn:Ei; [apply wp_bind, wp_modify, wp_ret, HQ; by repeat split|].
    apply wp_undefined. destruct Hsane as [Hsane|]; [|done]. apply in_int_spec in Hsane. congruence.
Qed.

Lemma format_plain_id b : 37 ∉ b -> format_plain b = Some b.
Proof.
  induction b as [|c b IH]; intros Hb; [done|]. simpl.
  assert (c <> 37) by set_solver. rewrite IH by set_solver.
  do 6 (destruct c as [|c|c]; try done; try (destruct c; try done)).
Qed.

Lemma wp_not_opened p e clifd s0 s (Q : unit -> proc server -> Prop) : stays kept s0 s ->
  37 ∉ p /\ 37 ∉ strerror e \/ provoked strerror (history s) -> (forall s', stays kept s0 s' -> Q tt s') ->
  wp (put_errmsg (not_opened strerror p e ++ LF) ;; send_error word clifd ;;
      msg <- getvar errmsg ;;
      match format_plain msg with Some t => say strerror t | None => exit_ UNDEFINED end) Q server_end s.
Proof.
  intros Hs Hp HQ. set (msg := snprintf (MAXLINE - 1) (not_opened strerror p e ++ LF)).
  assert (Hlen : Zlen msg <= MAXLINE).
  { etransitivity; [apply Zlen_snprintf|]; unfold MAXLINE; lia. }
  apply wp_bind. unfold put_errmsg at 1, setvars. apply wp_modify. fold msg.
  match goal with |- wp _ _ _ ?st => set (s1 := st) end.
  assert (Hs1 : stays kept s s1) by (split; [done|split; [split; [done|by split]|by split]]).
  apply wp_bind, (wp_send_error s s1); [done|exact Hlen|]. intros s2 Hs2 Emsg.
  unfold getvar. apply wp_bind, wp_gets. rewrite Emsg. change (errmsg (vars s1)) with msg.
  assert (Hs02 : stays kept s0 s2) by by eapply stays_trans.
  assert (Hsay : forall t, wp (say strerror t) Q server_end s2).
  { intros t. apply (wp_log_msg s0 s2); [done|]. intros s3 Hs3 _ _. by apply HQ. }
  destruct Hp as [[Hp Hpercent]|Hp].
  - rewrite format_plain_id; [apply Hsay|]. intros Hin. unfold msg, snprintf, not_opened in Hin.
    assert (Hsub : forall (l : bytes) n, 37 ∈ take n l -> 37 ∈ l).
    { intros l n Hl. rewrite <-(take_drop n l). set_solver. }
    apply Hsub in Hin.
    assert (H1 : 37 ∉ B "can't open ") by (vm_compute; set_solver).
    assert (H2 : 37 ∉ B ": ") by (vm_compute; set_solver).
    assert (H3 : 37 ∉ LF) by (vm_compute; set_solver). set_solver.
  - destruct (format_plain msg); [apply Hsay|]. apply wp_undefined. by apply (provoked_stays kept s).
Qed.

(** What follows an [open] that succeeded. *)
Lemma wp_pass_opened s s4 s5 (path : bytes) (clifd newfd : Z) (Q : unit -> proc server -> Prop) :
  stays kept s s4 -> newfd ∉ open_fds (history s4) ->
  (length (script s5) <= length (script s4))%nat -> kept (vars s4) (vars s5) ->
  open_fds (history s5) = newfd :: open_fds (history s4) -> history s4 `prefix_of` history s5 ->
  (forall s', stays kept s s' -> Q tt s') ->
  wp (syslog LOG_ERR (B "send_fd(fd = " ++ dec clifd ++ B ", newfd = " ++ dec newfd ++ B ")") ;;
      r <- send_fd word srv_cm clifd newfd ;;
      (when r <? 0 do err_sys strerror (B "send_fd error")) ;;
      say strerror (B "sent fd " ++ dec newfd ++ B " over fd " ++ dec clifd ++ B " for " ++ path) ;;
      sys_ (Close newfd)) Q server_end s5.
Proof.
  intros Hs4 Hnew L5 V5 O5 P5 HQ. unfold syslog.
  apply wp_bind, (wp_event s5 s5); [apply stays_refl|done|]. intros s6 Hs6 _ _.
  apply wp_bind, wp_send_fd_stays. intros r' s7 Hs7.
  assert (Hs7' : stays kept s5 s7) by (by apply (kept_cm s5 s6)).
  apply wp_bind. destruct (r' <? 0); [apply wp_err_sys_end|]. apply wp_ret.
  apply wp_bind, (wp_log_msg s5 s7); [done|]. intros s8 Hs8 _ _.
  unfold sys_. apply wp_bind, wp_sys.
  2: { split; [by right; right; left|]. intros _ k El. simpl in El. rewrite last_snoc in El. by injection El as <-. }
  intros b rest' Es' _. apply wp_ret, HQ. destruct Hs8 as (L8 & V8 & O8 & P8).
  apply (stays_trans _ s4); [done|]. split; [|split].
  - apply (f_equal length) in Es'. simpl in Es' |- *. lia.
  - simpl. by transitivity (vars s5).
  - simpl. split; [|by apply prefix_app_r; transitivity (history s5)].
    rewrite open_fds_snoc, O8, O5. simpl. rewrite filter_cons_False by naive_solver.
    by apply filter_not_in.
Qed.

(** A request changes nothing but the text of the last error. *)
Lemma wp_handle_request buf nread clifd u (Q : unit -> proc server -> Prop) s :
  errmsg_ok (vars s) -> sane buf \/ provoked strerror (history s) -> (forall s', stays kept s s' -> Q tt s') ->
  wp (handle_request strerror word buf nread clifd u) Q server_end s.
Proof.
  intros Hok Hsane HQ. pose proof (stays_refl s) as Hs. unfold handle_request, openlog, syslog.
  apply wp_bind, (wp_event s s); [done..|]. intros s1 Hs1 E1 _.
  destruct (negb (aget buf (nread - 1) =? 0)).
  { apply wp_bind, (wp_event s s1); [done..|]. intros s2 Hs2 E2 _.
    apply wp_bind. unfold put_errmsg, setvars. apply wp_modify.
    set (t := _ ++ _). match goal with |- wp _ _ _ ?st => set (s3 := st) end.
    assert (Hlen : errmsg_ok (vars s3)).
    { unfold errmsg_ok. change (errmsg (vars s3)) with (snprintf (MAXLINE - 1) t). etransitivity; [apply Zlen_snprintf|]; unfold MAXLINE; lia. }
    apply (wp_send_error s s3); [|done|].
    - apply (stays_trans _ s2); [done|]. split; [done|]. split; [|done]. by repeat split.
    - intros s4 Hs4 _. by apply HQ. }
  apply wp_bind, (wp_log_msg s s1); [done|]. intros s2 Hs2 E2 _.
  apply wp_bind, wp_args; [destruct Hsane; [by left|right; by apply (provoked_stays kept s)]|]. intros r v Hv.
  assert (Hs3 : stays kept s (with_vars v s2)) by (eapply stays_trans; [exact Hs2|by apply stays_vars]).
  revert Hs3. generalize (with_vars v s2) as s3. clear Hv v. intros s3 Hs3.
  assert (Hok3 : errmsg_ok (vars s3)) by (apply Hs3, Hok).
  destruct (r <? 0).
  { apply wp_bind, (wp_event s s3); [done..|]. intros s4 Hs4 E4 _.
    apply (wp_send_error s s4); [done|by rewrite E4|]. intros s5 Hs5 _. by apply HQ. }
  unfold getvar. apply wp_bind, wp_gets. apply wp_bind, wp_gets.
  set (path := pathname (vars s3)). set (fl := oflag (vars s3)).
  apply wp_bind, (wp_event s s3); [done..|]. intros s4 Hs4 E4 _.
  unfold sysret. apply wp_bind, wp_bind, wp_sys_at.
  2: { split; [by right; right; left|]. intros _ k El. simpl in El. rewrite last_snoc in El. by injection El as <-. }
  intros a rest Es Ha. apply wp_ret.
  assert (Hfresh : 0 <= a_ret a -> a_ret a ∉ open_fds (history s4)) by (by apply (Kfresh _ _ _ Ha)).
  destruct (Z.ltb_spec (a_ret a) 0) as [Hneg|Hpos].
  - assert (Hs5 : stays kept s (answered (Open path fl) a rest s4)).
    { apply (stays_trans _ s4); [done|]. split; [simpl; rewrite Es; simpl; lia|]. split; [by repeat split|].
      simpl. split; [|by apply prefix_app_r]. rewrite open_fds_snoc. simpl. by destruct (Z.ltb_spec (a_ret a) 0); [|lia]. }
    set (s5 := answered _ _ _ _) in *.
    apply wp_bind, wp_gets. apply wp_bind, (wp_event s5 s5); [apply stays_refl|done|].
    intros s6 Hs6 _ _. apply (wp_not_opened path _ clifd s s6); [by apply (stays_trans _ s5)| |done].
    destruct (decide (37 ∈ path \/ 37 ∈ strerror (a_errno a))) as [Hbad|Hgood].
    + right. apply (provoked_stays kept s5); [done|].
      exists (Called (Open path fl) a). split; [simpl; set_solver|done].
    + left. simpl. destruct (Z.ltb_spec (a_ret a) 0); [|lia]. split; intros ?; apply Hgood; auto.
  - apply (wp_pass_opened s s4); [done|by apply Hfresh|simpl; rewrite Es; simpl; lia|by repeat split| |by apply prefix_app_r|done].
    simpl. rewrite open_fds_snoc. simpl. by destruct (Z.ltb_spec (a_ret a) 0); [lia|].
Qed.

(** *** The table, with the server's ends *)

Definition grown v v' : Prop :=
  table_ok v' /\ errmsg v' = errmsg v /\ exists n, tbl v' = tbl v ++ replicate n (Cl (-1) junk).

(** [client_add] has put [f] in the free entry [i], perhaps after growing. *)
Definition added (f u i : Z) v v' : Prop :=
  table_ok v' /\ errmsg v' = errmsg v /\
  0 <= i < Zlen (tbl v') /\ Zlen (tbl v) <= Zlen (tbl v') /\
  connected v' ≡ₚ Cl f u :: connected v /\
  (forall k, 0 <= k < Zlen (tbl v') -> k <> i -> fd (aget (tbl v') k) <> -1 ->
     k < Zlen (tbl v) /\ fd (aget (tbl v) k) <> -1).

Lemma grown_refl v : table_ok v -> grown v v.
Proof. intros Hok. split; [done|]. split; [done|]. exists 0%nat. by rewrite app_nil_r. Qed.

Lemma grown_more v v' : grown v v' ->
  grown v (set_client (Some (tbl v' ++ replicate (Z.to_nat NALLOC) (Cl (-1) junk)))
             (client_size v' + NALLOC) v').
Proof.
  intros (Hok & He & n & En). split; [|split; [done|]].
  - unfold table_ok. change (client_size v' + NALLOC =
      Zlen (tbl v' ++ replicate (Z.to_nat NALLOC) (Cl (-1) junk))). rewrite Zlen_app, Hok. done.
  - exists (n + Z.to_nat NALLOC)%nat.
    change (tbl v' ++ replicate (Z.to_nat NALLOC) (Cl (-1) junk) =
      tbl v ++ replicate (n + Z.to_nat NALLOC) (Cl (-1) junk)).
    by rewrite En, <-app_assoc, replicate_add.
Qed.

Lemma grown_added v v' i f u : grown v v' -> 0 <= i < Zlen (tbl v') -> fd (aget (tbl v') i) = -1 ->
  f <> -1 -> added f u i v (set_client (Some (aset (tbl v') i (Cl f u))) (client_size v') v').
Proof.
  intros (Hok & He & n & En) Hi Ei Hf. unfold added, table_ok, connected, tbl. simpl.
  fold (tbl v'). fold (tbl v). rewrite Zlen_aset. split; [done|]. split; [done|]. split; [done|].
  split; [rewrite En, Zlen_app; pose proof (Zlen_nonneg (replicate n (Cl (-1) junk))); lia|]. split.
  - rewrite active_fill by done. rewrite En. by rewrite active_grow.
  - intros k Hk Hne. rewrite aget_aset_ne by lia. rewrite En in Hk |- *. rewrite Zlen_app in Hk.
    destruct (Z.ltb_spec k (Zlen (tbl v))).
    + unfold aget. rewrite !list_lookup_total_alt, lookup_app_l by (unfold Zlen in *; lia). done.
    + unfold aget. rewrite list_lookup_total_alt, lookup_app_r by (unfold Zlen in *; lia).
      rewrite lookup_replicate_2 by (unfold Zlen in *; rewrite length_replicate in Hk; lia). done.
Qed.

(** From [s] to [s'] only the table may have changed. *)
Definition calm s s' : Prop :=
  (length (script s') <= length (script s))%nat /\ open_fds (history s') = open_fds (history s).

Lemma wp_client_alloc s0 s (Q : unit -> proc server -> Prop) : calm s0 s ->
  (forall s', calm s0 s' -> vars s' = set_client
      (Some (tbl (vars s) ++ replicate (Z.to_nat NALLOC) (Cl (-1) junk)))
      (client_size (vars s) + NALLOC) (vars s) -> Q tt s') ->
  wp (client_alloc strerror junk) Q server_end s.
Proof.
  intros [L O] HQ. unfold client_alloc, getvar. apply wp_bind, wp_table. apply wp_bind, wp_gets.
  unfold sysret. apply wp_bind, wp_bind, (wp_sys_from eq s []); [exact (ran_refl eq s)|done| |].
  2: { intros s' Hr. by eapply server_end_waits, ran_waits, Hr. }
  intros a s1 _ Hr _ Hv _. apply wp_ret. destruct (_ =? _); [apply wp_err_sys_end|].
  unfold setvars. apply wp_modify, HQ.
  - apply ran_stays in Hr as (L1 & _ & O1 & _). split; simpl; [lia|congruence].
  - simpl. by rewrite Hv.
Qed.

Lemma wp_put i e (Q : unit -> proc server -> Prop) X s : 0 <= i < Zlen (tbl (vars s)) ->
  Q tt (with_vars (set_client (Some (aset (tbl (vars s)) i e)) (client_size (vars s)) (vars s)) s) ->
  wp (client_put i e) Q X s.
Proof.
  intros Hi HQ. unfold client_put, getvar. apply wp_bind, wp_table. apply wp_bind, wp_gets.
  apply wp_bind, wp_guard; [unfold in_bounds; lia|]. by apply wp_modify.
Qed.

Lemma wp_client_add f u (Q : Z -> proc server -> Prop) s : table_ok (vars s) -> f <> -1 ->
  (forall i s', calm s s' -> added f u i (vars s) (vars s') -> Q i s') ->
  wp (client_add strerror junk f u) Q server_end s.
Proof.
  intros Hok Hf HQ. unfold client_add, getvar. apply wp_bind, wp_gets. apply wp_bind.
  assert (Hput : forall s1 i, calm s s1 -> grown (vars s) (vars s1) -> 0 <= i < Zlen (tbl (vars s1)) ->
    fd (aget (tbl (vars s1)) i) = -1 ->
    wp (client_put i (Cl f u) ;; ret (inr i : unit + Z)) (fun r s2 =>
        match r with inr i => Q i s2 | inl _ => False end) server_end s1).
  { intros s1 i Hc Hg Hi Ei. apply wp_bind, wp_put; [done|]. apply wp_ret, HQ; [done|].
    by apply grown_added. }
  assert (Hloop : forall s1, calm s s1 -> grown (vars s) (vars s1) ->
    wp (loop 2 (fun _ : unit => i <- client_find (-1) ;;
      match i with
      | Some i => client_put i (Cl f u) ;; ret (inr i)
      | None => client_alloc strerror junk ;; ret (inl tt)
      end) tt) Q server_end s1).
  { intros s1 Hc Hg. simpl. apply wp_bind, wp_bind, wp_client_find; [apply Hg|..].
    - intros i Hi Ei. eapply wp_conseq; [by apply Hput|]. intros [[]|j] s2 H2; [done|]. by apply wp_ret.
    - intros _. apply wp_bind, (wp_client_alloc s); [done|]. intros s2 Hc2 Ev. apply wp_ret.
      pose proof (grown_more _ _ Hg) as Hg2. rewrite <-Ev in Hg2.
      apply wp_bind, wp_bind, wp_client_find; [apply Hg2|..].
      + intros i Hi Ei. eapply wp_conseq; [by apply Hput|]. intros [[]|j] s3 H3; [done|]. by apply wp_ret.
      + intros Hno. destruct (Hno (Cl (-1) junk)); [|done]. rewrite Ev. unfold tbl. simpl.
        apply elem_of_app. right. by left. }
  destruct (client (vars s)) eqn:Ec.
  - apply wp_ret, Hloop; [done|by apply grown_refl].
  - apply (wp_client_alloc s); [done|]. intros s1 Hc Ev. apply Hloop; [done|]. rewrite Ev.
    by apply grown_more, grown_refl.
Qed.

(** [client_del] of a descriptor in the table. *)
Definition deleted (f : Z) v v' : Prop :=
  table_ok v' /\ errmsg v' = errmsg v /\ Zlen (tbl v') = Zlen (tbl v) /\
  (exists u, connected v ≡ₚ Cl f u :: connected v') /\
  (forall k, 0 <= k < Zlen (tbl v') -> fd (aget (tbl v') k) <> -1 -> fd (aget (tbl v) k) <> -1).

Lemma wp_client_del f (Q : unit -> proc server -> Prop) s : table_ok (vars s) -> f <> -1 ->
  f ∈ map fd (connected (vars s)) ->
  (forall s', calm s s' -> deleted f (vars s) (vars s') -> Q tt s') ->
  wp (client_del strerror f) Q server_end s.
Proof.
  intros Hok Hf Hin HQ. unfold client_del. apply wp_bind, wp_client_find; [done|..].
  - intros i Hi Ei. apply wp_bind, wp_table. apply wp_put; [done|]. apply HQ; [done|].
    unfold deleted, table_ok, connected, tbl. simpl. fold (tbl (vars s)). rewrite Zlen_aset.
    split; [done|]. split; [done|]. split; [done|]. split.
    + exists (uid (aget (tbl (vars s)) i)). rewrite (active_free strerror _ i (uid (aget (tbl (vars s)) i))) by (done || congruence).
      rewrite <-Ei. by destruct (aget (tbl (vars s)) i).
    + intros k Hk. destruct (decide (k = i)) as [->|Hne]; [by rewrite aget_aset_eq|].
      by rewrite aget_aset_ne by lia.
  - intros Hno. apply list_elem_of_In, in_map_iff in Hin as (e & <- & He%list_elem_of_In).
    unfold connected, active in He. apply list_elem_of_filter in He as [_ He]. by destruct (Hno e).
Qed.

(** *** Connections *)

Hypothesis Kaccept : posix_accept.

Definition no_watch (c : call) : bool := match c with Select _ _ _ _ | Poll _ => false | _ => true end.

Lemma wp_sys_end c (Q : answer -> proc server -> Prop) s : no_watch c = true ->
  (forall a rest, script s = a :: rest -> may (history s) c a = true -> Q a (answered c a rest s)) ->
  wp (sys c) Q server_end s.
Proof.
  intros Hc HQ. apply wp_sys_at; [done|]. split; [by right; right; left|].
  intros _ k El. simpl in El. rewrite last_snoc in El. injection El as <-. by destruct c.
Qed.

Lemma wp_errout_end f r (Q : Z -> proc server -> Prop) s : (forall s', Q r s') ->
  wp (errout f r (ret tt)) Q server_end s.
Proof.
  intros HQ. unfold errout, sys_, set_errno. apply wp_bind, wp_gets. apply wp_bind, wp_bind, wp_sys_end; [done|].
  intros a rest _ _. apply wp_ret. apply wp_bind, wp_ret. apply wp_bind, wp_modify. by apply wp_ret.
Qed.

(** A new descriptor [f] is open in [s'], and nothing else changed. *)
Definition opened (f : Z) s s' : Prop :=
  3 <= f < FD_SETSIZE /\ f ∉ open_fds (history s) /\ vars s' = vars s /\
  (length (script s') <= length (script s))%nat /\
  open_fds (history s') = f :: open_fds (history s).

Lemma opened_ran f s s1 s2 h : opened f s s1 -> ran eq s1 s2 h -> opened f s s2.
Proof.
  intros (Hf & Hn & V & L & O) Hr%ran_stays. destruct Hr as (L2 & V2 & O2 & _).
  split; [done|]. split; [done|]. split; [congruence|]. split; [lia|congruence].
Qed.

Lemma opened_new c a rest s : (c = Socket \/ exists l, c = Accept l) -> script s = a :: rest ->
  may (history s) c a = true -> 0 <= a_ret a -> opened (a_ret a) s (answered c a rest s).
Proof.
  intros Hc Es Ha Hpos. split; [|split; [|split; [|split]]].
  - destruct (Kfd c a) as [E|]; [by eexists|done|lia|done].
  - apply (Kfresh _ c); [done| |done]. destruct Hc as [->|[l ->]]; done.
  - done.
  - simpl. rewrite Es. simpl. lia.
  - simpl. rewrite open_fds_snoc. destruct Hc as [->|[l ->]]; simpl; by destruct (Z.ltb_spec (a_ret a) 0); [lia|].
Qed.

Lemma wp_minor_end s0 s1 h c (Q : answer -> proc server -> Prop) : ran eq s0 s1 h ->
  minor_call c = true -> (forall a s2, ran eq s0 s2 (h ++ [Called c a]) -> Q a s2) ->
  wp (sys c) Q server_end s1.
Proof.
  intros Hr Hc HQ. apply (wp_sys_from eq s0 h); [done|done| |].
  - intros a s2 _ Hr2 _ _ _. by eapply HQ.
  - intros s2 Hr2. by eapply server_end_waits, ran_waits.
Qed.

Lemma wp_serv_accept l (Q : Z * Z -> proc server -> Prop) s :
  (forall r s', r < 0 -> Q (r, 0) s') ->
  (forall f u s', opened f s s' -> Q (f, u) s') ->
  wp (serv_accept l) Q server_end s.
Proof.
  intros HF HQ. unfold serv_accept.
  unfold sysret at 1. apply wp_bind, wp_bind, (wp_minor_end s s []); [exact (ran_refl eq s)|done|].
  intros m s1 Hr1. apply wp_ret. destruct (_ =? _); [by apply wp_ret, HF|].
  apply wp_bind, wp_sys_end; [done|]. intros a rest Es Ha.
  destruct (Z.ltb_spec (a_ret a) 0) as [|Hpos]; [by apply wp_ret, HF|].
  pose proof (opened_new (Accept l) a rest s1 (or_intror (ex_intro _ l eq_refl)) Es Ha Hpos) as Ho.
  assert (Ho2 : opened (a_ret a) s (answered (Accept l) a rest s1)).
  { apply ran_stays in Hr1 as (L1 & V1 & O1 & _). destruct Ho as (B1 & B2 & B3 & B4 & B5).
    rewrite O1 in B2, B5. split; [done|]. split; [done|]. split; [congruence|]. split; [lia|done]. }
  apply wp_bind, wp_guard. { pose proof (Kaccept l a (ex_intro _ _ Ha)). lia. }
  assert (Hfail : forall r s', r < 0 ->
    wp (v <- errout (a_ret a) r (ret tt) ;; ret (v, 0)) Q server_end s').
  { intros r s' Hr. apply wp_bind, wp_errout_end. intros s2. by apply wp_ret, HF. }
  set (s2 := answered _ _ _ _) in *.
  apply wp_bind, (wp_minor_end s2 s2 []); [exact (ran_refl eq s2)|done|]. intros st s3 Hr3.
  destruct (_ <? _); [by apply Hfail|]. destruct (negb _); [by apply Hfail|].
  destruct (_ || _); [by apply Hfail|].
  unfold sysret. apply wp_bind, wp_bind, (wp_minor_end s2 s3 _ _ _ Hr3); [done|]. intros now s4 Hr4. apply wp_ret.
  destruct (_ || _); [by apply Hfail|].
  unfold sys_. apply wp_bind, wp_bind, (wp_minor_end s2 s4 _ _ _ Hr4); [done|]. intros b s5 Hr5. apply wp_ret, wp_ret, HQ.
  by apply (opened_ran _ s s2 s5 _ Ho2 Hr5).
Qed.

Lemma wp_serv_listen name (Q : Z -> proc server -> Prop) s :
  (forall r s', r < 0 -> Q r s') -> (forall f s', opened f s s' -> Q f s') ->
  wp (serv_listen name) Q server_end s.
Proof.
  intros HF HQ. unfold serv_listen, set_errno. destruct (_ <=? _).
  { apply wp_bind, wp_modify. by apply wp_ret, HF. }
  unfold sysret at 1. apply wp_bind, wp_bind, wp_sys_end; [done|]. intros a rest Es Ha. apply wp_ret.
  destruct (Z.ltb_spec (a_ret a) 0) as [|Hpos]; [by apply wp_ret, HF|].
  pose proof (opened_new Socket a rest s (or_introl eq_refl) Es Ha Hpos) as Ho.
  set (s2 := answered _ _ _ _) in *.
  unfold sys_, sysret. apply wp_bind, wp_bind, (wp_minor_end s2 s2 []); [exact (ran_refl eq s2)|done|].
  intros u s3 Hr3. apply wp_ret. apply wp_bind, wp_bind, (wp_minor_end s2 s3 _ _ _ Hr3); [done|]. intros b s4 Hr4. apply wp_ret.
  destruct (_ <? _); [by apply wp_errout_end; intros s'; apply HF|].
  apply wp_bind, wp_bind, (wp_minor_end s2 s4 _ _ _ Hr4); [done|]. intros b' s5 Hr5. apply wp_ret.
  destruct (_ <? _); [by apply wp_errout_end; intros s'; apply HF|].
  apply wp_ret, HQ. by apply (opened_ran _ s s2 s5 _ Ho Hr5).
Qed.

(** *** The invariant of the loop *)

Record served (listenfd : Z) (l : selects) s : Prop := Served {
  sv_table : table_ok (vars s);
  sv_errmsg : errmsg_ok (vars s);
  sv_nodup : NoDup (listenfd :: map fd (connected (vars s)));
  sv_set : forall f, f ∈ allset l <-> f ∈ listenfd :: map fd (connected (vars s));
  sv_open : forall f, f ∈ open_fds (history s) <-> f ∈ allset l \/ f ∈ base;
  sv_base : forall f, f ∈ base -> f ∉ allset l;
  sv_maxfd : forall f, f ∈ allset l -> 0 <= f <= maxfd l;
  sv_maxi : -1 <= maxi l < Zlen (tbl (vars s));
  sv_active : forall k, 0 <= k < Zlen (tbl (vars s)) -> fd (aget (tbl (vars s)) k) <> -1 -> k <= maxi l }.

Lemma stays_tbl s s' : stays kept s s' -> tbl (vars s') = tbl (vars s).
Proof. intros (_ & (E & _) & _). unfold tbl. by rewrite E. Qed.

Lemma served_stays lfd l s s' : served lfd l s -> stays kept s s' -> served lfd l s'.
Proof.
  intros [] Hs. pose proof (stays_tbl _ _ Hs) as Et. destruct Hs as (L & (E1 & E2 & E3) & O & _).
  split; unfold table_ok, connected in *; rewrite ?Et, ?E2, ?O; auto.
Qed.

Lemma active_fd c k : 0 <= k < Zlen c -> fd (aget c k) <> -1 -> fd (aget c k) ∈ map fd (active c).
Proof.
  intros Hk Hf. apply list_elem_of_In, in_map, list_elem_of_In, list_elem_of_filter. split; [done|].
  apply aget_lookup in Hk. by eapply list_elem_of_lookup_2.
Qed.

Lemma served_add lfd l s s1 s2 f u i : served lfd l s -> opened f s s1 -> calm s1 s2 ->
  added f u i (vars s1) (vars s2) ->
  served lfd (Selects (f :: allset l) (Z.max (maxfd l) f) (Z.max (maxi l) i)) s2.
Proof.
  intros [Ht He Hd Hset Ho Hb Hm Hi Ha] (Hf & Hn & V & L & O) [_ O2] (At & Ae & Ai & Ag & Ap & Ak).
  rewrite V in Ae, Ap, Ak. rewrite Ho in Hn.
  assert (Ep : map fd (connected (vars s2)) ≡ₚ f :: map fd (connected (vars s))) by (by rewrite Ap).
  split; simpl.
  - done.
  - unfold errmsg_ok. by rewrite Ae.
  - rewrite Ep, Permutation_swap. apply NoDup_cons. split; [|done]. rewrite <-Hset. tauto.
  - intros x. rewrite Ep, Permutation_swap, !(elem_of_cons _ x f), Hset. done.
  - intros x. rewrite O2, O, !(elem_of_cons _ x f), Ho. tauto.
  - intros x Hx. rewrite elem_of_cons. intros [->|Hx2]; [tauto|]. by eapply Hb.
  - intros x [->|Hx]%elem_of_cons; [lia|]. specialize (Hm x Hx). lia.
  - rewrite V in Ag. lia.
  - intros k Hk Hfk. destruct (decide (k = i)) as [->|Hne]; [lia|].
    destruct (Ak k Hk Hne Hfk) as [Hk1 Hk2]. specialize (Ha k ltac:(lia) Hk2). lia.
Qed.

Lemma served_del lfd l s s1 s2 f : served lfd l s -> f ∈ map fd (connected (vars s)) ->
  deleted f (vars s) (vars s1) -> calm s s1 -> vars s2 = vars s1 ->
  open_fds (history s2) = filter (fun x => x <> f) (open_fds (history s1)) ->
  served lfd (Selects (FD_CLR f (allset l)) (maxfd l) (maxi l)) s2.
Proof.
  intros [Ht He Hd Hset Ho Hb Hm Hi Ha] Hf (Dt & De & Dl & [u Dp] & Dk) [_ O1] V O2.
  assert (Ep : map fd (connected (vars s)) ≡ₚ f :: map fd (connected (vars s1))) by (by rewrite Dp).
  rewrite Ep in Hd. rewrite Permutation_swap in Hd. apply NoDup_cons in Hd as [Hfn Hd].
  assert (Hclr : forall x, x ∈ FD_CLR f (allset l) <-> x <> f /\ x ∈ allset l)
    by (intros x; unfold FD_CLR; by rewrite list_elem_of_filter).
  split; simpl; rewrite ?V.
  - done.
  - unfold errmsg_ok. by rewrite De.
  - done.
  - intros x. rewrite Hclr, Hset, Ep, Permutation_swap, (elem_of_cons _ x f).
    split; [tauto|]. intros Hx. split; [|tauto]. by intros ->.
  - intros x. rewrite O2, O1, list_elem_of_filter, Ho, Hclr. split; [tauto|].
    intros [?|Hx]; [tauto|]. split; [|tauto]. intros ->. apply (Hb f Hx), Hset.
    by apply elem_of_cons; right.
  - intros x Hx. rewrite Hclr. intros [_ Hx2]. by eapply Hb.
  - intros x [_ Hx]%Hclr. by apply Hm.
  - by rewrite Dl.
  - intros k Hk Hfk. apply Ha; [lia|by apply Dk].
Qed.

(** *** The rounds *)

Lemma read_provokes buf s f n a : Called (Read f n) a ∈ history s -> buf = a_data a ->
  sane buf \/ provoked strerror (history s).
Proof.
  intros Hin ->. destruct (decide (in_int (atol (aget (words (cstr (a_data a))) 2)) = true)) as [Hi|Hi].
  - left. by apply in_int_spec.
  - right. exists (Called (Read f n) a). split; [done|]. intros Hs%in_int_spec. done.
Qed.

Lemma if_max a b : (if a >? b then a else b) = Z.max b a.
Proof. destruct (Z.gtb_spec a b); lia. Qed.

Lemma wp_new_connection lfd l (Q : selects -> proc server -> Prop) s : served lfd l s ->
  (forall l' s', served lfd l' s' -> (length (script s') <= length (script s))%nat -> Q l' s') ->
  wp (new_connection strerror junk lfd l) Q server_end s.
Proof.
  intros Hs HQ. unfold new_connection. apply wp_bind, wp_serv_accept.
  { intros r s1 Hr. destruct (Z.ltb_spec r 0); [apply wp_log_sys_end|lia]. }
  intros f u s1 Ho. pose proof Ho as (Hf & _ & V & L & _). destruct (Z.ltb_spec f 0); [lia|].
  apply wp_bind, wp_client_add; [rewrite V; apply Hs|lia|]. intros i s2 Hc Ha.
  pose proof (served_add _ _ _ _ _ _ _ _ Hs Ho Hc Ha) as Hs2.
  unfold FD_SET. apply wp_bind, wp_bind, wp_guard; [lia|]. apply wp_ret.
  apply wp_bind, (wp_log_msg s2 s2); [apply stays_refl|]. intros s3 Hs3 _ E3. apply wp_ret. rewrite !if_max.
  apply HQ; [by eapply served_stays|]. rewrite E3. destruct Hc as [L2 _]. lia.
Qed.

(** A connection that the client closed. *)
Lemma wp_hang_up lfd l u f (Q : Z * list Z + selects -> proc server -> Prop) i s : served lfd l s ->
  f <> -1 -> f ∈ map fd (connected (vars s)) ->
  (forall s', served lfd (Selects (FD_CLR f (allset l)) (maxfd l) (maxi l)) s' ->
     (length (script s') <= length (script s))%nat -> Q (inl (i, FD_CLR f (allset l))) s') ->
  wp (say strerror (B "closed: uid " ++ show_uid u ++ B ", fd " ++ dec f) ;;
      client_del strerror f ;; sys_ (Close f) ;; ret (inl (i, FD_CLR f (allset l)))) Q server_end s.
Proof.
  intros Hs Hf Hin HQ. apply wp_bind, (wp_log_msg s s); [apply stays_refl|]. intros s1 Hs1 V1 E1.
  assert (Hs' : served lfd l s1) by (by eapply served_stays).
  apply wp_bind, wp_client_del; [apply Hs'|done|by rewrite V1|]. intros s2 Hc Hd.
  unfold sys_. apply wp_bind, wp_bind, wp_sys_end; [done|]. intros a rest Es _. apply wp_ret, wp_ret.
  apply HQ.
  - eapply (served_del lfd l s1 s2); [done|by rewrite V1|done|done|done|]. simpl. by rewrite open_fds_snoc.
  - destruct Hc as [L2 _]. rewrite <-E1. simpl. rewrite Es in L2. simpl in L2. lia.
Qed.

Lemma wp_serve_clients lfd rset l (Q : selects -> proc server -> Prop) s : served lfd l s ->
  (forall l' s', served lfd l' s' -> (length (script s') <= length (script s))%nat -> Q l' s') ->
  wp (serve_clients strerror word rset l) Q server_end s.
Proof.
  intros Hs HQ. unfold serve_clients. pose proof (sv_maxi _ _ _ Hs) as Hmaxi.
  apply (wp_loop (fun '(i, set) s' => 0 <= i <= maxi l + 1 /\
      served lfd (Selects set (maxfd l) (maxi l)) s' /\ (length (script s') <= length (script s))%nat)
    (fun '(i, _) _ => Z.to_nat (maxi l + 1 - i))).
  { split; [lia|]. by destruct l. }
  { lia. }
  intros [i set] s1 (Hi & Hs1 & L1). pose proof (sv_maxi _ _ _ Hs1) as Hm1. simpl in Hm1.
  destruct (Z.leb_spec i (maxi l)); [|by apply wp_ret, HQ].
  apply wp_bind, wp_table. apply wp_bind, wp_guard; [unfold in_bounds; lia|].
  set (f := fd (aget (tbl (vars s1)) i)). set (u := uid _).
  assert (Hnext : forall s2, served lfd (Selects set (maxfd l) (maxi l)) s2 ->
    (length (script s2) <= length (script s1))%nat ->
    wp (ret (inl (i + 1, set))) (fun r s2 => match r with
      | inl (i', set') => (0 <= i' <= maxi l + 1 /\ served lfd (Selects set' (maxfd l) (maxi l)) s2 /\
          (length (script s2) <= length (script s))%nat) /\
          (Z.to_nat (maxi l + 1 - i') < Z.to_nat (maxi l + 1 - i))%nat
      | inr b => Q b s2 end) server_end s2).
  { intros s2 Hs2 L2. apply wp_ret. split; [|lia]. split; [lia|]. split; [done|lia]. }
  destruct (Z.ltb_spec f 0) as [|Hf]; [eapply wp_conseq; [by apply Hnext|]; by intros [[? ?]|]|].
  destruct (bool_decide (f ∈ rset)); [|eapply wp_conseq; [by apply Hnext|]; by intros [[? ?]|]].
  assert (Hin : f ∈ map fd (connected (vars s1))) by (apply active_fd; [lia|fold f; lia]).
  apply wp_bind, (wp_minor s1 s1); [apply stays_refl|done|]. intros a s2 Ha Hst L2.
  assert (Hs2 : served lfd (Selects set (maxfd l) (maxi l)) s2) by (by eapply served_stays).
  destruct (Z.ltb_spec (a_ret a) 0); [apply wp_log_sys_end|].
  destruct (Z.eqb_spec (a_ret a) 0).
  - apply (wp_hang_up lfd (Selects set (maxfd l) (maxi l)) u f); [done|lia| |].
    + unfold connected. by rewrite (stays_tbl _ _ Hst).
    + intros s3 Hs3 L3. split; [|lia]. split; [lia|]. split; [done|lia].
  - apply wp_bind, wp_handle_request; [apply Hs2|by eapply read_provokes|]. intros s3 Hs3.
    eapply wp_conseq; [apply Hnext|by intros [[? ?]|]].
    + by eapply served_stays.
    + destruct Hs3 as (L3 & _). lia.
Qed.

Lemma wp_loop_round lfd l (Q : selects -> proc server -> Prop) s : served lfd l s ->
  (forall l' s', served lfd l' s' -> (length (script s') < length (script s))%nat -> Q l' s') ->
  wp (loop_round strerror word junk lfd l) Q server_end s.
Proof.
  intros Hs HQ. unfold loop_round. apply wp_bind, wp_sys_at.
  2: { split; [by right; right; left|]. intros _ k El. simpl in El. rewrite last_snoc in El.
    injection El as <-. split.
    - intros f. simpl. rewrite open_fds_snoc. apply (sv_open _ _ _ Hs).
    - apply Forall_forall. intros f Hf. pose proof (sv_maxfd _ _ _ Hs f Hf). lia. }
  intros a rest Es Ha. set (s1 := answered _ _ _ _).
  assert (Hst : stays kept s s1).
  { split; [simpl; rewrite Es; simpl; lia|]. split; [done|]. simpl.
    split; [by rewrite open_fds_snoc|by apply prefix_app_r]. }
  assert (Hlt : (length (script s1) < length (script s))%nat) by (simpl; rewrite Es; simpl; lia).
  assert (Hs1 : served lfd l s1) by (by eapply served_stays).
  destruct (_ <? _); [apply wp_log_sys_end|].
  destruct (bool_decide _); [apply (wp_new_connection lfd)|apply (wp_serve_clients lfd)]; try done;
    intros l' s' Hs' L; apply HQ; (done || lia).
Qed.

(** The server from an empty table. *)
Lemma wp_loop_select {A} (Q : A -> proc server -> Prop) s : table_ok (vars s) ->
  connected (vars s) = [] -> errmsg_ok (vars s) -> open_fds (history s) = base ->
  wp (loop_select strerror word junk) Q server_end s.
Proof.
  intros Ht Hc He Hb. unfold loop_select. apply wp_bind, wp_serv_listen.
  { intros r s1 Hr. apply wp_bind. destruct (Z.ltb_spec r 0); [apply wp_log_sys_end|lia]. }
  intros f s1 (Hf & Hn & V & L & O). apply wp_bind. destruct (Z.ltb_spec f 0); [lia|]. apply wp_ret.
  unfold FD_SET. apply wp_bind, wp_bind, wp_guard; [lia|]. apply wp_ret.
  apply (wp_forever (fun l s' => served f l s')).
  - split; simpl; rewrite ?V; try done.
    + rewrite Hc. apply NoDup_singleton.
    + intros x. by rewrite Hc.
    + intros x. rewrite O, Hb, elem_of_cons, list_elem_of_singleton. tauto.
    + intros x Hx. rewrite list_elem_of_singleton. intros ->. by rewrite Hb in Hn.
    + intros x ->%list_elem_of_singleton. lia.
    + pose proof (Zlen_nonneg (tbl (vars s))). lia.
    + intros k Hk Hfk. apply (active_fd _ k Hk) in Hfk. fold (connected (vars s)) in Hfk. rewrite Hc in Hfk. by apply elem_of_nil in Hfk.
  - intros l s2 Hs2. apply wp_bind, (wp_loop_round f l); [done|]. intros l' s3 Hs3 L3. by apply wp_ret.
Qed.
End server.

(** C14: the open server with [select] (17.6), from an empty table of clients and
    whatever its clients send, connect or close. It leaves the loop only through its
    own error routines, and whenever it waits in [select] it watches exactly the
    descriptors that it has opened and not closed since it started, each below the
    limit it gives. It does what the language leaves undefined only when it was
    provoked: by a request whose third word is a number that no [int] holds, for
    [atoi], or by a file that cannot be opened and a percent sign in its path or in
    the text of the error, since the message is used as a format. Of the system
    it asks what POSIX documents: [read] and [accept] store no more than there is room
    for, [write] and [sendmsg] take no more than there is, and new descriptors are
    not in use, none of the standard streams, and below [FD_SETSIZE]. *)
Theorem server_watches_connections `{Kernel} (strerror : Z -> bytes) (word junk : Z) (s : proc server)
  (Kread : posix_read) (Kwrite : posix_write) (Ksend : posix_sendmsg) (Kfd : posix_fd)
  (Kfresh : posix_fresh) (Kaccept : posix_accept)
  (Htable : table_ok (vars s)) (Hempty : connected (vars s) = []) (Herr : errmsg_ok (vars s)) :
  exists c s', loop_select (A := unit) strerror word junk s = Exit c s' /\
    (c = 1 \/ c = 2 \/ c = WAITING \/ c = UNDEFINED /\ provoked strerror (history s')) /\
    forall n rd wr t, last (history s') = Some (Waiting (Select n rd wr t)) -> c = WAITING ->
      (forall f, f ∈ open_fds (history s') <-> f ∈ rd \/ f ∈ open_fds (history s)) /\
      Forall (fun f => f < n) rd.
Proof.
  assert (Hw : wp (loop_select (A := unit) strerror word junk) (fun _ _ => False)
    (server_end strerror (open_fds (history s))) s) by (by apply wp_loop_select).
  unfold wp in Hw. destruct (loop_select _ _ _ s) as [|c s'| |] eqn:E; try done.
  exists c, s'. split; [done|]. destruct Hw as [Hc Hend]. split; [done|].
  intros n rd wr t El Ec. exact (Hend Ec _ El).
Qed.

(** The kernel [linux], with an [accept] as the theorem wants it. *)
Definition unix : Kernel := fun h c a =>
  @may linux h c a && match c with Accept _ => Zlen (a_data a) <=? SUN_PATH | _ => true end.

Lemma unix_linux c a : @allowed unix c a -> @allowed linux c a.
Proof. intros [h Ha]. apply andb_prop in Ha as [Ha _]. by exists h. Qed.

Lemma unix_posix : @posix_read unix /\ @posix_write unix /\ @posix_sendmsg unix /\ @posix_fd unix /\
  @posix_fresh unix /\ @posix_accept unix.
Proof.
  split_and!.
  - intros fd n a Ha%unix_linux. by apply (linux_read fd n).
  - intros fd d a Ha%unix_linux. by apply (linux_write fd d).
  - intros fd d r c a Ha%unix_linux. by apply (linux_sendmsg fd d r c).
  - intros c a Ha%unix_linux. by apply (linux_fd c).
  - intros h c a [Ha _]%andb_prop. by apply (linux_fresh h c).
  - intros l a [h [_ Ha]%andb_prop]. by apply Z.leb_le.
Qed.

(** One client connects, sends a request and closes; the server waits again. *)
Definition a_visit : list answer :=
  let stream f := Ans f 0 [] (Addr 0 0) [] [] 0 no_stat in
  let ready f := Ans 1 0 [] (Addr 0 0) [f] [] 0 no_stat in
  let data b := Ans (Zlen b) 0 b (Addr 0 0) [] [] 0 no_stat in
  [number 3; number 0; number 0; number 0;
   ready 3; number 1; Ans 4 0 (B "/var/tmp/00042") (Addr 0 0) [] [] 0 no_stat;
   Ans 0 0 [] (Addr 0 0) [] [] 0 (St (49152 + 448) 1000 7 7 7); number 8; number 0; number 1;
   ready 4; data (concat (request (B "/etc/passwd") 0)); stream 5; number 1; number 2; number 0;
   ready 3; number 1; Ans 5 0 (B "/var/tmp/00043") (Addr 0 0) [] [] 0 no_stat;
   Ans 0 0 [] (Addr 0 0) [] [] 0 (St (49152 + 448) 1001 7 7 7); number 8; number 0;
   ready 4; number 0; number 0].

(** A visitor that asks for a file that does not exist and whose name, or whose third
    word, is not as it should be. *)
Definition bad_visit (name word : bytes) : list answer :=
  let line := B "open " ++ name ++ B " " ++ word ++ [NUL] in
  take 12 a_visit ++
  [Ans (Zlen line) 0 line (Addr 0 0) [] [] 0 no_stat; Ans (-1) 2 [] (Addr 0 0) [] [] 0 no_stat;
   number 24; number 1; number 2].

Definition visited (answers : list answer) : outcome (proc server) unit :=
  @loop_select unix (fun _ => []) 0 0 unit (Proc answers [] 0 (Server [] 0 [] None 0 0 1 false)).

(** Both make the server do what is undefined. *)
Example a_client_provokes :
  (exists s, visited (bad_visit (B "/tmp/100%n") (B "0")) = Exit UNDEFINED s) /\
  (exists s, visited (bad_visit (B "/tmp/100") (B "2147483648")) = Exit UNDEFINED s).
Proof. split; eexists; vm_compute; reflexivity. Qed.

Lemma server_watches_connections_witness :
  let s := Proc a_visit [] 0 (Server [] 0 [] None 0 0 1 false) in
  exists c s', @loop_select unix (fun _ => []) 0 0 unit s = Exit c s' /\
    (c = 1 \/ c = 2 \/ c = WAITING \/ c = UNDEFINED /\ provoked (fun _ => []) (history s')) /\
    forall n rd wr t, last (history s') = Some (Waiting (Select n rd wr t)) -> c = WAITING ->
      (forall f, f ∈ open_fds (history s') <-> f ∈ rd \/ f ∈ open_fds (history s)) /\
      Forall (fun f => f < n) rd.
Proof.
  intros s. destruct unix_posix as (H1 & H2 & H3 & H4 & H5 & H6).
  apply (@server_watches_connections unix (fun _ => []) 0 0 s H1 H2 H3 H4 H5 H6); [reflexivity|reflexivity|discriminate].
Defined.

Example a_visit_ends :
  match visited a_visit with Exit _ s' => last (history s') | _ => None end = Some (Waiting (Select 6 [5; 3] [] (-1))).
Proof. vm_compute. reflexivity. Qed.
