(* ===== verification/OpendPoll.v ===== *)
(** OpendPoll: the other version of the loop of the open server, with [poll]
    (17.6/loop_poll.c), on the definitions of Opend. The function [ser_accept] that it
    calls does not exist in the repository and is a parameter. *)
From stdpp Require Import sets list strings.
From S2P Require Import Prelude Arrays Bytes Sys ErrorLog FdPass Opend.

Definition POLLIN : Z := 1.

Record pollfd := Pollfd { p_fd : Z; p_events : Z; p_revents : Z }.
#[export] Instance pollfd_inhabited : Inhabited pollfd := populate (Pollfd 0 0 0).

(** The locals that live through the rounds. *)
Record polls := Polls { pfds : list pollfd; numfd : Z; pmaxfd : Z }.

(** An entry that is watched for input; -1 is none. *)
Definition watch (f : Z) : pollfd := Pollfd f POLLIN 0.
Definition has_input (p : pollfd) : bool := negb (Z.land (p_revents p) POLLIN =? 0).

Section poll.
Context `{Kernel} (strerror : Z -> bytes) (word junk : Z).
Notation srv := (M (proc server)).
Context (ser_accept : Z -> srv (Z * Z)).

Definition grow_pollfd (pfd : list pollfd) (maxfd : Z) : srv (list pollfd * Z) :=
  let oldmax := maxfd in
  let newmax := oldmax + NALLOC in
  p <- sysret (Malloc (newmax * 8)) ;;
  if p =? 0 then err_sys strerror (B "realloc error")
  else ret (pfd ++ replicate (Z.to_nat (newmax - oldmax)) (watch (-1)), newmax).

Definition entry (l : list pollfd) (i : Z) : srv pollfd := guard_ok (in_bounds l i) ;; ret (aget l i).
Definition set_entry (l : list pollfd) (i : Z) (p : pollfd) : srv (list pollfd) := guard_ok (in_bounds l i) ;; ret (aset l i p).

(** [poll] with no timeout stores the events of the first [n] entries; the answer has
    the descriptors with input. *)
Definition poll (l : list pollfd) (n : Z) : srv (Z * list pollfd) :=
  guard_ok (n <=? Zlen l) ;;
  let k := Z.to_nat n in
  a <- sys (Poll (map p_fd (take k l))) ;;
  ret (a_ret a, if a_ret a <? 0 then l
                else map (fun p => Pollfd (p_fd p) (p_events p) (if bool_decide (p_fd p ∈ a_rd a) then POLLIN else 0)) (take k l) ++ drop k l).

Definition poll_accept (listenfd : Z) (l : polls) : srv polls :=
  let! (clifd, u) := ser_accept listenfd in
  if clifd <? 0 then log_sys strerror log_to_stderr (B "serv_accept error: " ++ dec clifd)
  else
    client_add strerror junk clifd u ;;
    let! (pfd, maxfd) := if numfd l =? pmaxfd l then grow_pollfd (pfds l) (pmaxfd l) else ret (pfds l, pmaxfd l) in
    pfd <- set_entry pfd (numfd l) (watch clifd) ;;
    say strerror (B "new connection: uid " ++ show_uid u ++ B ", fd " ++ dec clifd) ;;
    ret (Polls pfd (numfd l + 1) maxfd).

(** A client has closed its connection; the last entry takes the place of its own. The
    result is the next [i]. *)
Definition poll_hang_up (i : Z) (l : polls) : srv (Z * polls) :=
  c <- table ;;
  guard_ok (in_bounds c i) ;;
  p <- entry (pfds l) i ;;
  say strerror (B "closed: uid " ++ show_uid (uid (aget c i)) ++ B ", fd " ++ dec (p_fd p)) ;;
  client_del strerror (p_fd p) ;;
  sys_ (Close (p_fd p)) ;;
  let! (i, pfd) := if i <? numfd l - 1 then
                     q <- entry (pfds l) (numfd l - 1) ;;
                     pfd <- set_entry (pfds l) i q ;;
                     ret (i - 1, pfd)
                   else ret (i, pfds l) in
  ret (i + 1, Polls pfd (numfd l - 1) (pmaxfd l)).

Definition poll_clients (l : polls) : srv polls :=
  loop (Z.to_nat (numfd l)) (fun '(i, l) =>
    if i <? numfd l then
      p <- entry (pfds l) i ;;
      if has_input p then
        a <- sys (Read (p_fd p) MAXLINE) ;;
        let nread := a_ret a in
        if nread <? 0 then log_sys strerror log_to_stderr (B "read error on fd " ++ dec (p_fd p))
        else if nread =? 0 then l <- poll_hang_up i l ;; ret (inl l)
        else
          c <- table ;;
          guard_ok (in_bounds c i) ;;
          handle_request strerror word (a_data a) nread (p_fd p) (uid (aget c i)) ;;
          ret (inl (i + 1, l))
      else ret (inl (i + 1, l))
    else ret (inr l)) (1, l).

Definition poll_round (listenfd : Z) (l : polls) : srv polls :=
  let! (r, pfd) := poll (pfds l) (numfd l) in
  (when r <? 0 do log_sys strerror log_to_stderr (B "poll error")) ;;
  p <- entry pfd 0 ;;
  l <- (if has_input p then poll_accept listenfd (Polls pfd (numfd l) (pmaxfd l)) else ret (Polls pfd (numfd l) (pmaxfd l))) ;;
  poll_clients l.

Definition loop_poll {A} : srv A :=
  p <- sysret (Malloc (NALLOC * 8)) ;;
  (when p =? 0 do err_sys strerror (B "malloc error")) ;;
  let pfd := replicate (Z.to_nat NALLOC) (watch (-1)) in
  listenfd <- serv_listen CS_OPEN ;;
  (when listenfd <? 0 do log_sys strerror log_to_stderr (B "serv_listen error")) ;;
  client_add strerror junk listenfd 0 ;;
  pfd <- set_entry pfd 0 (Pollfd listenfd (p_events (aget pfd 0)) (p_revents (aget pfd 0))) ;;
  forever (fun l => l <- poll_round listenfd l ;; ret (inl l)) (Polls pfd 1 NALLOC).
End poll.
