(* ===== verification/OpendPollProofs.v ===== *)
(** OpendPollProofs: the open server with [poll], with [serv_accept] in the place of the
    function that does not exist, watches exactly the connections that it has; the
    user it names in its log can be another than the one of the connection. *)
From stdpp Require Import sets list strings.
From S2P Require Import Prelude Arrays Bytes Sys ErrorLog FdPass FdPassProofs Opend OpendProofs OpendServer OpendPoll.

(** ** The entries in use *)

Definition fds (l : polls) : list Z := map p_fd (take (Z.to_nat (numfd l)) (pfds l)).

(** The last of the first [S m] entries replaces the one at [i], and there are [m]. *)
Lemma swap_last {A} (l : list A) m i x y : l !! i = Some x -> l !! m = Some y -> (i <= m)%nat ->
  take (S m) l ≡ₚ x :: take m (if decide (i < m)%nat then <[i := y]> l else l).
Proof.
  intros Hx Hy Hi. rewrite (take_S_r _ _ _ Hy). destruct (decide (i < m)%nat) as [Hlt|Hge].
  - rewrite take_insert_lt by done. set (k := take m l).
    assert (Hk : k !! i = Some x) by (unfold k; by rewrite lookup_take_lt).
    rewrite <-(take_drop_middle k i x Hk) at 1. rewrite insert_take_drop by (by eapply lookup_lt_Some).
    generalize (take i k) (drop (S i) k). intros a b. rewrite (Permutation_app_comm _ [y]). simpl.
    rewrite <-!Permutation_middle. apply Permutation_swap.
  - assert (i = m) as -> by lia. simplify_eq. by rewrite Permutation_app_comm.
Qed.

Section server.
Context `{Kernel} (strerror : Z -> bytes) (word junk : Z) (base : list Z).
Hypothesis Kread : posix_read.
Hypothesis Kwrite : posix_write.
Hypothesis Ksend : posix_sendmsg.
Hypothesis Kfd : posix_fd.
Hypothesis Kfresh : posix_fresh.
Hypothesis Kaccept : posix_accept.
Implicit Types (s : proc server) (v : server).

Record polled (listenfd : Z) (l : polls) s : Prop := Polled {
  po_table : table_ok (vars s);
  po_errmsg : errmsg_ok (vars s);
  po_size : 1 <= numfd l <= pmaxfd l;
  po_len : Zlen (pfds l) = pmaxfd l;
  po_first : p_fd (aget (pfds l) 0) = listenfd;
  po_clients : map fd (connected (vars s)) ≡ₚ fds l;
  po_nodup : NoDup (fds l);
  po_open : forall f, f ∈ open_fds (history s) <-> f ∈ fds l \/ f ∈ base;
  po_base : forall f, f ∈ base -> f ∉ fds l;
  po_pos : forall f, f ∈ fds l -> 0 <= f }.

Lemma polled_stays lfd l s s' : polled lfd l s -> stays kept s s' -> polled lfd l s'.
Proof.
  intros [] Hs. pose proof (stays_tbl _ _ Hs) as Et. destruct Hs as (L & (E1 & E2 & E3) & O & _).
  split; unfold table_ok, connected in *; rewrite ?Et, ?E2, ?O; auto.
Qed.

(** The events do not matter. *)
Lemma polled_same lfd l l' s : polled lfd l s -> fds l' = fds l -> numfd l' = numfd l -> pmaxfd l' = pmaxfd l ->
  Zlen (pfds l') = Zlen (pfds l) -> p_fd (aget (pfds l') 0) = p_fd (aget (pfds l) 0) -> polled lfd l' s.
Proof. intros [] Ef En Em El E0. split; rewrite ?Ef, ?En, ?Em, ?El, ?E0; done. Qed.

Lemma fds_entry lfd l s i : polled lfd l s -> 0 <= i < numfd l -> p_fd (aget (pfds l) i) ∈ fds l.
Proof.
  intros Hp Hi. unfold fds. apply list_elem_of_In, in_map, list_elem_of_In. apply list_elem_of_lookup_2 with (Z.to_nat i).
  rewrite lookup_take_lt by lia. apply aget_lookup. destruct Hp. lia.
Qed.

Lemma fds_length lfd l s : polled lfd l s -> length (fds l) = Z.to_nat (numfd l).
Proof. intros []. unfold fds. rewrite length_map, length_take. unfold Zlen in *. lia. Qed.

(** Each entry in use has an entry of the table at its index. *)
Lemma polled_table lfd l s : polled lfd l s -> numfd l <= Zlen (tbl (vars s)).
Proof.
  intros Hp. pose proof (fds_length _ _ _ Hp) as El. pose proof (po_size _ _ _ Hp).
  rewrite <-(Permutation_length (po_clients _ _ _ Hp)), length_map in El. unfold connected, active in El.
  pose proof (length_filter (fun e => fd e <> -1) (tbl (vars s))). unfold Zlen. lia.
Qed.

Lemma polled_add lfd l s s1 s2 f u i pfd m : polled lfd l s -> opened f s s1 -> calm s1 s2 -> added f u i (vars s1) (vars s2) ->
  take (Z.to_nat (numfd l)) pfd = take (Z.to_nat (numfd l)) (pfds l) -> Zlen pfd = m -> numfd l < m ->
  polled lfd (Polls (aset pfd (numfd l) (watch f)) (numfd l + 1) m) s2.
Proof.
  intros [Ht He Hsz Hlen H0 Hcl Hd Ho Hb Hpos] (Hf & Hn & V & L & O) [_ O2] (At & Ae & Ai & Ag & Ap & _) Etake Em Hlt.
  assert (Ef : fds (Polls (aset pfd (numfd l) (watch f)) (numfd l + 1) m) = fds l ++ [f]).
  { unfold fds. simpl. replace (Z.to_nat (numfd l + 1)) with (S (Z.to_nat (numfd l))) by lia.
    rewrite (take_S_r _ _ (watch f)) by (unfold aset; apply list_lookup_insert_eq; unfold Zlen in *; lia).
    unfold aset. by rewrite take_insert_ge, Etake, map_app by lia. }
  rewrite V in Ae, Ap. rewrite Ho in Hn. split; rewrite ?Ef; simpl.
  - done.
  - unfold errmsg_ok. by rewrite Ae.
  - lia.
  - by rewrite Zlen_aset.
  - rewrite aget_aset_ne by lia. rewrite <-H0. f_equal. unfold aget. rewrite !list_lookup_total_alt. f_equal.
    rewrite <-(lookup_take_lt pfd (Z.to_nat (numfd l))), <-(lookup_take_lt (pfds l) (Z.to_nat (numfd l))) by lia. by rewrite Etake.
  - rewrite Ap. simpl. rewrite Hcl. by rewrite Permutation_app_comm.
  - apply NoDup_app. split_and!; [done| |apply NoDup_singleton]. intros x Hx ->%list_elem_of_singleton. tauto.
  - intros x. rewrite O2, O, elem_of_cons, Ho, elem_of_app, list_elem_of_singleton. tauto.
  - intros x Hx [Hx2|E%list_elem_of_singleton]%elem_of_app; [by apply (Hb x)|]. subst. tauto.
  - intros x [Hx|E%list_elem_of_singleton]%elem_of_app; [by apply Hpos|]. lia.
Qed.

(** The entry [i] is taken out. *)
Definition without (i : Z) (l : polls) : polls :=
  Polls (if i <? numfd l - 1 then aset (pfds l) i (aget (pfds l) (numfd l - 1)) else pfds l) (numfd l - 1) (pmaxfd l).

Lemma fds_without lfd l s i : polled lfd l s -> 0 <= i < numfd l -> fds l ≡ₚ p_fd (aget (pfds l) i) :: fds (without i l).
Proof.
  intros Hp Hi. pose proof (po_size _ _ _ Hp). pose proof (po_len _ _ _ Hp). unfold fds, without. simpl.
  set (m := Z.to_nat (numfd l - 1)). replace (Z.to_nat (numfd l)) with (S m) by lia.
  rewrite <-(map_cons p_fd). apply Permutation_map.
  rewrite (swap_last (pfds l) m (Z.to_nat i) (aget (pfds l) i) (aget (pfds l) (numfd l - 1))); [|by apply aget_lookup; lia..|lia].
  f_equiv. destruct (decide _), (Z.ltb_spec i (numfd l - 1)); done || lia.
Qed.

Lemma polled_del lfd l s s1 s2 i : polled lfd l s -> 1 <= i < numfd l ->
  deleted (p_fd (aget (pfds l) i)) (vars s) (vars s1) -> calm s s1 -> vars s2 = vars s1 ->
  open_fds (history s2) = filter (fun x => x <> p_fd (aget (pfds l) i)) (open_fds (history s1)) ->
  polled lfd (without i l) s2.
Proof.
  intros Hp Hi (Dt & De & Dl & [u Dp] & _) [_ O1] V O2. pose proof (fds_without lfd l s i Hp ltac:(lia)) as Ef.
  set (f := p_fd (aget (pfds l) i)) in *. destruct Hp as [Ht He Hsz Hlen H0 Hcl Hd Ho Hb Hpos].
  rewrite Ef in Hd. apply NoDup_cons in Hd as [Hfn Hd].
  assert (Hin : forall x, x ∈ fds l <-> x = f \/ x ∈ fds (without i l)) by (intros x; by rewrite Ef, elem_of_cons).
  split; rewrite ?V; unfold without; simpl; fold (without i l).
  - done.
  - unfold errmsg_ok. by rewrite De.
  - lia.
  - destruct (_ <? _); by rewrite ?Zlen_aset.
  - destruct (_ <? _); by rewrite ?aget_aset_ne by lia.
  - apply (Permutation_cons_inv (a := f)). rewrite <-Ef, <-Hcl, Dp. done.
  - done.
  - intros x. rewrite O2, O1, list_elem_of_filter, Ho, Hin. split; [tauto|].
    intros [Hx|Hx]; (split; [|tauto]); intros ->; [done|]. by apply (Hb f Hx), Hin; left.
  - intros x Hx Hx2. apply (Hb x Hx), Hin. by right.
  - intros x Hx. apply Hpos, Hin. by right.
Qed.

(** *** The rounds *)

Lemma wp_entry l i (Q : pollfd -> proc server -> Prop) X s : 0 <= i < Zlen l -> Q (aget l i) s -> wp (entry l i) Q X s.
Proof. intros Hi HQ. apply wp_bind, wp_guard; [unfold in_bounds; lia|]. by apply wp_ret. Qed.

Lemma wp_set_entry l i p (Q : list pollfd -> proc server -> Prop) X s : 0 <= i < Zlen l -> Q (aset l i p) s -> wp (set_entry l i p) Q X s.
Proof. intros Hi HQ. apply wp_bind, wp_guard; [unfold in_bounds; lia|]. by apply wp_ret. Qed.

(** The table of [poll] has room for one more. *)
Lemma wp_room l (Q : list pollfd * Z -> proc server -> Prop) s : 1 <= numfd l <= pmaxfd l -> Zlen (pfds l) = pmaxfd l ->
  (forall pfd m s', stays kept s s' -> take (Z.to_nat (numfd l)) pfd = take (Z.to_nat (numfd l)) (pfds l) ->
     Zlen pfd = m -> numfd l < m -> Q (pfd, m) s') ->
  wp (if numfd l =? pmaxfd l then grow_pollfd strerror (pfds l) (pmaxfd l) else ret (pfds l, pmaxfd l)) Q (server_end strerror base) s.
Proof.
  intros Hsz Hlen HQ. destruct (Z.eqb_spec (numfd l) (pmaxfd l)) as [E|]; [|apply wp_ret, HQ; [apply stays_refl|done|done|lia]].
  unfold grow_pollfd, sysret. cbv zeta. apply wp_bind, wp_bind, (wp_minor strerror base s s); [apply stays_refl|done|]. intros a s1 _ Hs1 _.
  apply wp_ret. destruct (_ =? _); [by apply (wp_err_sys_end strerror word)|]. apply wp_ret, HQ; [done| | |unfold NALLOC; lia].
  - rewrite take_app_le by (unfold Zlen in *; lia). done.
  - rewrite Zlen_app. unfold Zlen at 2. rewrite length_replicate. unfold NALLOC. lia.
Qed.

Lemma wp_poll_accept lfd l (Q : polls -> proc server -> Prop) s : polled lfd l s ->
  (forall l' s', polled lfd l' s' -> (length (script s') <= length (script s))%nat -> Q l' s') ->
  wp (poll_accept strerror junk serv_accept lfd l) Q (server_end strerror base) s.
Proof.
  intros Hs HQ. unfold poll_accept. apply wp_bind, (wp_serv_accept strerror base Kfd Kfresh Kaccept).
  { intros r s1 Hr. destruct (Z.ltb_spec r 0); [apply (wp_log_sys_end strerror word)|lia]. }
  intros f u s1 Ho. pose proof Ho as (Hf & _ & V & L & _). destruct (Z.ltb_spec f 0); [lia|].
  apply wp_bind, (wp_client_add strerror word); [rewrite V; apply Hs|lia|]. intros i s2 Hc Ha.
  apply wp_bind, (wp_room l); [apply Hs..|]. intros pfd m s3 Hst Et Em Hlt.
  pose proof (polled_add _ _ _ _ _ _ _ _ _ _ Hs Ho Hc Ha Et Em Hlt) as Hs2.
  assert (Hs3 : polled lfd (Polls (aset pfd (numfd l) (watch f)) (numfd l + 1) m) s3) by (by eapply polled_stays).
  apply wp_bind, wp_set_entry; [pose proof (po_size _ _ _ Hs); lia|].
  apply wp_bind, (wp_log_msg strerror s3 s3); [apply stays_refl|]. intros s4 Hs4 _ E4. apply wp_ret, HQ; [by eapply polled_stays|].
  rewrite E4. destruct Hc as [L2 _], Hst as [L3 _]. lia.
Qed.

Lemma wp_poll_hang_up lfd l i (Q : Z * polls -> proc server -> Prop) s : polled lfd l s -> 1 <= i < numfd l ->
  (forall j s', j = (if i <? numfd l - 1 then i else i + 1) -> polled lfd (without i l) s' -> (length (script s') <= length (script s))%nat ->
     Q (j, without i l) s') ->
  wp (poll_hang_up strerror i l) Q (server_end strerror base) s.
Proof.
  intros Hs Hi HQ. pose proof (po_size _ _ _ Hs). pose proof (po_len _ _ _ Hs). pose proof (polled_table _ _ _ Hs).
  unfold poll_hang_up. apply wp_bind, wp_table. apply wp_bind, wp_guard; [unfold in_bounds; lia|].
  apply wp_bind, wp_entry; [lia|]. set (f := p_fd (aget (pfds l) i)).
  assert (Hin : f ∈ fds l) by (by apply (fds_entry lfd l s i Hs); lia).
  apply wp_bind, (wp_log_msg strerror s s); [apply stays_refl|]. intros s1 Hs1 V1 E1.
  assert (Hs' : polled lfd l s1) by (by eapply polled_stays).
  apply wp_bind, wp_client_del; [apply Hs'|pose proof (po_pos _ _ _ Hs f Hin); lia|by rewrite (po_clients _ _ _ Hs')|].
  intros s2 Hc Hd. unfold sys_. apply wp_bind, wp_bind, wp_sys_end; [done|]. intros a rest Es _. apply wp_ret.
  set (s3 := answered _ _ _ _).
  assert (Hs3 : polled lfd (without i l) s3).
  { eapply (polled_del lfd l s1 s2 s3 i); [done|done|done|done|done|]. simpl. by rewrite open_fds_snoc. }
  assert (L3 : (length (script s3) <= length (script s))%nat).
  { destruct Hc as [L2 _]. rewrite <-E1. simpl. rewrite Es in L2. simpl in L2. lia. }
  unfold without in HQ, Hs3. apply wp_bind. destruct (i <? numfd l - 1).
  - apply wp_bind, wp_entry; [lia|]. apply wp_bind, wp_set_entry; [lia|]. apply wp_ret, wp_ret. replace (i - 1 + 1) with i by lia. by apply HQ.
  - apply wp_ret, wp_ret. by apply HQ.
Qed.

Lemma wp_poll_clients lfd l (Q : polls -> proc server -> Prop) s : polled lfd l s ->
  (forall l' s', polled lfd l' s' -> (length (script s') <= length (script s))%nat -> Q l' s') ->
  wp (poll_clients strerror word l) Q (server_end strerror base) s.
Proof.
  intros Hs HQ. unfold poll_clients.
  apply (wp_loop (fun '(i, l') s' => 1 <= i <= numfd l' + 1 /\ polled lfd l' s' /\ (length (script s') <= length (script s))%nat)
    (fun '(i, l') _ => Z.to_nat (numfd l' - i))); [pose proof (po_size _ _ _ Hs); done || (split; [lia|done])|pose proof (po_size _ _ _ Hs); lia|].
  intros [i l1] s1 (Hi & Hs1 & L1). destruct (Z.ltb_spec i (numfd l1)); [|by apply wp_ret, HQ].
  pose proof (po_size _ _ _ Hs1). pose proof (po_len _ _ _ Hs1). pose proof (polled_table _ _ _ Hs1).
  apply wp_bind, wp_entry; [lia|]. set (f := p_fd (aget (pfds l1) i)).
  assert (Hnext : forall s2, polled lfd l1 s2 -> (length (script s2) <= length (script s1))%nat ->
    (1 <= i + 1 <= numfd l1 + 1 /\ polled lfd l1 s2 /\ (length (script s2) <= length (script s))%nat) /\
    (Z.to_nat (numfd l1 - (i + 1)) < Z.to_nat (numfd l1 - i))%nat) by (intros; split_and!; try done; lia).
  destruct (has_input _); [|by apply wp_ret, Hnext].
  apply wp_bind, (wp_minor strerror base s1 s1); [apply stays_refl|done|]. intros a s2 Ha Hst L2.
  assert (Hs2 : polled lfd l1 s2) by (by eapply polled_stays).
  destruct (Z.ltb_spec (a_ret a) 0); [apply (wp_log_sys_end strerror word)|]. destruct (Z.eqb_spec (a_ret a) 0).
  - apply wp_bind, (wp_poll_hang_up lfd l1 i); [done|lia|]. intros j s3 -> Hs3 L3. apply wp_ret.
    change (numfd (without i l1)) with (numfd l1 - 1).
    destruct (Z.ltb_spec i (numfd l1 - 1)); split_and!; try done; lia.
  - apply wp_bind, wp_table. apply wp_bind, wp_guard; [unfold in_bounds; pose proof (polled_table _ _ _ Hs2); lia|].
    apply wp_bind, wp_handle_request; try done; [apply Hs2|by eapply read_provokes|]. intros s3 Hs3. apply wp_ret, Hnext; [by eapply polled_stays|].
    destruct Hs3 as (L3 & _). lia.
Qed.

Lemma wp_poll lfd l (Q : Z * list pollfd -> proc server -> Prop) s : polled lfd l s ->
  (forall r s', r < 0 -> Q (r, pfds l) s') ->
  (forall r pfd s', polled lfd (Polls pfd (numfd l) (pmaxfd l)) s' -> (length (script s') < length (script s))%nat -> Q (r, pfd) s') ->
  wp (poll (pfds l) (numfd l)) Q (server_end strerror base) s.
Proof.
  intros Hs HF HQ. pose proof (po_size _ _ _ Hs). pose proof (po_len _ _ _ Hs). unfold poll. cbv zeta.
  apply wp_bind, wp_guard; [lia|]. fold (fds l). apply wp_bind, wp_sys_at.
  2: { split; [by right; right; left|]. intros _ k El. simpl in El. rewrite last_snoc in El. injection El as <-.
    split; [|apply Hs]. intros f. simpl. rewrite open_fds_snoc. apply (po_open _ _ _ Hs). }
  intros a rest Es _. apply wp_ret. destruct (Z.ltb_spec (a_ret a) 0); [by apply HF|]. apply HQ; [|simpl; rewrite Es; simpl; lia].
  apply (polled_stays lfd _ s).
  - apply (polled_same lfd l); try done; simpl.
    + unfold fds. simpl. set (k := Z.to_nat (numfd l)). rewrite take_app_length' by (rewrite length_map, length_take; unfold Zlen in *; lia).
      by rewrite map_map.
    + rewrite Zlen_app. unfold Zlen. rewrite length_map, length_take, length_drop. unfold Zlen in *. lia.
    + unfold aget. rewrite lookup_total_app_l by (rewrite length_map, length_take; unfold Zlen in *; lia).
      destruct (pfds l) as [|p x] eqn:E; [unfold Zlen in *; simpl in *; lia|]. by destruct (Z.to_nat (numfd l)) eqn:Ek; [lia|].
  - split; [simpl; rewrite Es; simpl; lia|]. split; [done|]. simpl. split; [by rewrite open_fds_snoc|by apply prefix_app_r].
Qed.

Lemma wp_poll_round lfd l (Q : polls -> proc server -> Prop) s : polled lfd l s ->
  (forall l' s', polled lfd l' s' -> (length (script s') < length (script s))%nat -> Q l' s') ->
  wp (poll_round strerror word junk serv_accept lfd l) Q (server_end strerror base) s.
Proof.
  intros Hs HQ. unfold poll_round. apply wp_bind, (wp_poll lfd); [done|..].
  { intros r s1 Hr. apply wp_bind. destruct (Z.ltb_spec r 0); [apply (wp_log_sys_end strerror word)|lia]. }
  intros r pfd s1 Hs1 L1. apply wp_bind. destruct (r <? 0); [apply (wp_log_sys_end strerror word)|]. apply wp_ret.
  pose proof (po_size _ _ _ Hs1). pose proof (po_len _ _ _ Hs1). simpl in *. apply wp_bind, wp_entry; [lia|]. apply wp_bind.
  assert (Hgo : forall l2 s2, polled lfd l2 s2 -> (length (script s2) <= length (script s1))%nat ->
    wp (poll_clients strerror word l2) Q (server_end strerror base) s2).
  { intros l2 s2 Hs2 L2. apply (wp_poll_clients lfd); [done|]. intros l3 s3 Hs3 L3. apply HQ; [done|lia]. }
  destruct (has_input _); [|by apply wp_ret, Hgo]. by apply (wp_poll_accept lfd).
Qed.

(** The server from an empty table. *)
Lemma wp_loop_poll {A} (Q : A -> proc server -> Prop) s : table_ok (vars s) ->
  connected (vars s) = [] -> errmsg_ok (vars s) -> open_fds (history s) = base ->
  wp (loop_poll strerror word junk serv_accept) Q (server_end strerror base) s.
Proof.
  intros Ht Hc He Hb. unfold loop_poll. unfold sysret at 1. apply wp_bind, wp_bind, (wp_minor strerror base s s); [apply stays_refl|done|].
  intros a s1 _ Hs1 _. apply wp_ret, wp_bind. destruct (_ =? 0); [apply (wp_err_sys_end strerror word)|]. apply wp_ret. cbv zeta.
  apply wp_bind, (wp_serv_listen strerror base Kfd Kfresh).
  { intros r s2 Hr. apply wp_bind. destruct (Z.ltb_spec r 0); [apply (wp_log_sys_end strerror word)|lia]. }
  intros f s2 (Hf & Hn & V & L & O). apply wp_bind. destruct (Z.ltb_spec f 0); [lia|]. apply wp_ret.
  pose proof (stays_tbl _ _ Hs1) as Et. destruct Hs1 as (_ & (_ & E2 & E3) & O1 & _).
  apply wp_bind, (wp_client_add strerror word); [unfold table_ok in *; rewrite V; congruence|lia|].
  intros i s3 [_ O3] (At & Ae & _ & _ & Ap & _). apply wp_bind, wp_set_entry; [done|].
  apply (wp_forever (fun l s' => polled f l s')).
  - split; simpl; try done.
    + unfold errmsg_ok. rewrite Ae, V. by apply E3.
    + rewrite Ap, V. unfold connected. rewrite Et. fold (connected (vars s)). by rewrite Hc.
    + apply NoDup_singleton.
    + intros x. rewrite O3, O, O1, Hb, elem_of_cons. change (fds _) with [f]. rewrite list_elem_of_singleton. tauto.
    + intros x Hx. change (fds _) with [f]. rewrite list_elem_of_singleton. intros ->. rewrite O1, Hb in Hn. done.
    + intros x. change (fds _) with [f]. intros ->%list_elem_of_singleton. lia.
  - intros l s4 Hs4. apply wp_bind, (wp_poll_round f l); [done|]. intros l' s5 Hs5 L5. by apply wp_ret.
Qed.
End server.

(** C15: the open server with [poll] (17.6), when [serv_accept] stands where the program
    calls a function that does not exist, from an empty table of clients and whatever
    its clients send, connect or close. It leaves the loop only through its own error
    routines, and whenever it waits in [poll] it watches exactly the descriptors that
    it has opened and not closed since it started, each of them once: taking the last
    entry into the place of one that is closed loses nobody. It does what the language
    leaves undefined only when it was provoked, in the two ways of the server with
    [select], and asks the same of the system, which POSIX documents. *)
Theorem poll_server_watches_connections `{Kernel} (strerror : Z -> bytes) (word junk : Z) (s : proc server)
  (Kread : posix_read) (Kwrite : posix_write) (Ksend : posix_sendmsg) (Kfd : posix_fd)
  (Kfresh : posix_fresh) (Kaccept : posix_accept)
  (Htable : table_ok (vars s)) (Hempty : connected (vars s) = []) (Herr : errmsg_ok (vars s)) :
  exists c s', loop_poll (A := unit) strerror word junk serv_accept s = Exit c s' /\
    (c = 1 \/ c = 2 \/ c = WAITING \/ c = UNDEFINED /\ provoked strerror (history s')) /\
    forall fds, last (history s') = Some (Waiting (Poll fds)) -> c = WAITING ->
      (forall f, f ∈ open_fds (history s') <-> f ∈ fds \/ f ∈ open_fds (history s)) /\ NoDup fds.
Proof.
  assert (Hw : wp (loop_poll (A := unit) strerror word junk serv_accept) (fun _ _ => False)
    (server_end strerror (open_fds (history s))) s) by (by apply wp_loop_poll).
  unfold wp in Hw. destruct (loop_poll _ _ _ _ s) as [|c s'| |] eqn:E; try done.
  exists c, s'. split; [done|]. destruct Hw as [Hc Hend]. split; [done|].
  intros fds El Ec. exact (Hend Ec _ El).
Qed.

(** ** Runs *)

Definition ready (f : Z) : answer := Ans 1 0 [] (Addr 0 0) [f] [] 0 no_stat.
Definition data (b : bytes) : answer := Ans (Zlen b) 0 b (Addr 0 0) [] [] 0 no_stat.
Definition visitor (f u : Z) : list answer :=
  [ready 3; number 1; Ans f 0 (B "/var/tmp/00042") (Addr 0 0) [] [] 0 no_stat;
   Ans 0 0 [] (Addr 0 0) [] [] 0 (St (49152 + 448) u 7 7 7); number 8; number 0].
Definition a_server (answers : list answer) : proc server :=
  Proc ([number 1; number 3; number 0; number 0; number 0; number 1] ++ answers) [] 0 (Server [] 0 [] None 0 0 1 false).
Definition run_poll (answers : list answer) := @loop_poll unix (fun _ => []) 0 0 (@serv_accept unix server) unit (a_server answers).

(** Three clients come and the first one leaves: two connections are left. *)
Definition first_leaves : list answer :=
  visitor 4 1000 ++ visitor 5 1001 ++ visitor 6 1002 ++ [ready 4; number 0; number 0].

Example two_are_left :
  match run_poll first_leaves with Exit _ s => last (history s) | _ => None end = Some (Waiting (Poll [3; 6; 5])).
Proof. vm_compute. reflexivity. Qed.

(** Then the third one, whose user is 1002, sends a request: the server writes in its
    log that the user 1000 has sent it, whose entry has the index that the third
    client has now in the other array. *)
Example wrong_user :
  match run_poll (first_leaves ++ [ready 6; data (concat (request (B "/etc/passwd") 0))]) with
  | Exit _ s => last (omap (fun e => match e with Stderr t => Some t | _ => None end) (history s))
  | _ => None
  end = Some (B "request: open /etc/passwd 0, from uid 1000" ++ LF).
Proof. vm_compute. reflexivity. Qed.

Lemma poll_server_watches_connections_witness :
  exists c s', run_poll first_leaves = Exit c s' /\
    (c = 1 \/ c = 2 \/ c = WAITING \/ c = UNDEFINED /\ provoked (fun _ => []) (history s')) /\
    forall fds, last (history s') = Some (Waiting (Poll fds)) -> c = WAITING ->
      (forall f, f ∈ open_fds (history s') <-> f ∈ fds \/ f ∈ open_fds (history (a_server first_leaves))) /\ NoDup fds.
Proof.
  destruct unix_posix as (H1 & H2 & H3 & H4 & H5 & H6).
  apply (@poll_server_watches_connections unix (fun _ => []) 0 0 (a_server first_leaves) H1 H2 H3 H4 H5 H6);
    [reflexivity|reflexivity|discriminate].
Defined.
