(* ===== verification/FooTable.v ===== *)
(** FooTable: the table of reference-counted objects of
    apue/11.6.2avoid_deadlock1.c, shared by threads. Every access to shared
    memory and every call of the thread library is one atomic step; a thread is
    at a program point of one of the four functions, or outside of them. *)
From stdpp Require Import gmap list.
From S2P Require Import Prelude.

(** ** The shared memory *)

Definition NHASH : Z := 29.
(** The conversion of an [int] to [unsigned long], and the remainder. *)
Definition HASH (id : Z) : nat := Z.to_nat ((id mod 2 ^ 64) mod NHASH).

(** A mutex: memory not initialised, free, held by a thread, destroyed. *)
Inductive mutex := Raw | Unlocked | Held (t : nat) | Destroyed.
#[export] Instance mutex_eq_dec : EqDecision mutex.
Proof. solve_decision. Defined.

Record foo := Foo { f_count : Z; f_lock : mutex; f_id : Z; f_next : option nat }.
Definition set_count v f := Foo v (f_lock f) (f_id f) (f_next f).
Definition set_lock v f := Foo (f_count f) v (f_id f) (f_next f).
Definition set_next v f := Foo (f_count f) (f_lock f) (f_id f) v.

(** [hashlock] is initialised statically; [objects] is the memory that [malloc]
    gave out and that was not freed. *)
Record shared := Shared { fh : list (option nat); hashlock : option nat; objects : gmap nat foo }.
Definition set_fh v m := Shared v (hashlock m) (objects m).
Definition set_hashlock v m := Shared (fh m) v (objects m).
Definition set_objects v m := Shared (fh m) (hashlock m) v.
Definition put_foo (p : nat) (f : foo) (m : shared) : shared := set_objects (<[p := f]> (objects m)) m.

Definition shared0 : shared := Shared (replicate (Z.to_nat NHASH) None) None ∅.

(** ** Program points *)

(** Where a thread is: before the access that the comment names. [hold_*] are
    the points of [foo_hold], which the caller calls, or [foo_find] when [found]
    is set; then [id] is what is looked for. *)
Inductive point :=
| alloc_malloc (id : Z)                      (* 23: malloc, then lines 24 and 25 *)
| alloc_init (fp : nat)                      (* 26: pthread_mutex_init *)
| alloc_lock (fp : nat)                      (* 31: lock hashlock *)
| alloc_next (fp : nat)                      (* 32: fp->f_next = fh[idx] *)
| alloc_head (fp : nat)                      (* 33: fh[idx] = fp *)
| alloc_flock (fp : nat)                     (* 34: lock f_lock *)
| alloc_unlock (fp : nat)                    (* 35: unlock hashlock *)
| alloc_funlock (fp : nat)                   (* 36: unlock f_lock *)
| hold_lock (fp : nat) (found : option Z)    (* 43 *)
| hold_count (fp : nat) (found : option Z)   (* 44: f_count++ *)
| hold_unlock (fp : nat) (found : option Z)  (* 45 *)
| find_lock (id : Z)                         (* 52: lock hashlock *)
| find_head (id : Z)                         (* 53: fp = fh[HASH(id)] *)
| find_test (id : Z) (fp : option nat)       (* 53, 54: fp != NULL, fp->f_id == id *)
| find_next (id : Z) (fp : nat)              (* 53: fp = fp->f_next *)
| find_unlock (id : Z) (fp : option nat)     (* 59: unlock hashlock *)
| rele_lock (fp : nat)                       (* 68 *)
| rele_test (fp : nat)                       (* 69: f_count == 1 *)
| rele_again (fp : nat)                      (* 70: unlock f_lock *)
| rele_hash (fp : nat)                       (* 71: lock hashlock *)
| rele_relock (fp : nat)                     (* 72: lock f_lock *)
| rele_retest (fp : nat)                     (* 73: f_count != 1 *)
| rele_less (fp : nat)                       (* 74: f_count-- *)
| rele_funlock (fp : nat)                    (* 75 *)
| rele_unlock (fp : nat)                     (* 76 *)
| rele_head (fp : nat)                       (* 79 to 81: tfp = fh[idx], tfp == fp *)
| rele_sethead (fp : nat)                    (* 82: fh[idx] = fp->f_next *)
| rele_walk (fp tfp : nat)                   (* 84, 85: tfp->f_next != fp *)
| rele_unlink (fp tfp : nat)                 (* 86: tfp->f_next = fp->f_next *)
| rele_unhash (fp : nat)                     (* 88: unlock hashlock *)
| rele_unlast (fp : nat)                     (* 89: unlock f_lock *)
| rele_destroy (fp : nat)                    (* 90 *)
| rele_count (fp : nat)                      (* 92: f_count-- *)
| rele_last (fp : nat).                      (* 93: unlock f_lock *)

(** What a step does: the thread waits for a lock, or for an answer that its
    call can give; the step is undefined; the thread goes on; or the function
    returns, and the caller has a new reference. *)
Inductive outcome :=
| Blocked
| Bad
| Next (pc : point) (m : shared)
| Back (gained : option nat) (m : shared).

Section steps.
Context (t : nat) (m : shared).

Definition access (p : nat) (k : foo -> outcome) : outcome :=
  match objects m !! p with Some f => k f | None => Bad end.

(** [pthread_mutex_lock] and [pthread_mutex_unlock]: locking an object that is
    not a mutex and unlocking a mutex of another thread are undefined; a thread
    that locks a mutex again waits for itself. *)
Definition lock_foo (p : nat) (pc : point) : outcome :=
  access p (fun f => match f_lock f with
    | Unlocked => Next pc (put_foo p (set_lock (Held t) f) m)
    | Held _ => Blocked
    | _ => Bad
    end).
Definition unlock_foo (p : nat) (k : shared -> outcome) : outcome :=
  access p (fun f => if decide (f_lock f = Held t) then k (put_foo p (set_lock Unlocked f) m) else Bad).
Definition lock_hash (pc : point) : outcome :=
  match hashlock m with None => Next pc (set_hashlock (Some t) m) | Some _ => Blocked end.
Definition unlock_hash (k : shared -> outcome) : outcome :=
  if decide (hashlock m = Some t) then k (set_hashlock None m) else Bad.

(** [fh[HASH(id)]]. *)
Definition bucket (id : Z) (k : option nat -> outcome) : outcome :=
  match fh m !! HASH id with Some o => k o | None => Bad end.
Definition put_bucket (id : Z) (o : option nat) : shared := set_fh (<[HASH id := o]> (fh m)) m.

(** Counting, within the range of [int]. *)
Definition add_count (p : nat) (d : Z) (pc : point) : outcome :=
  access p (fun f => if in_int (f_count f + d) then Next pc (put_foo p (set_count (f_count f + d) f) m)
                     else Bad).

(** One step of thread [t]; [a] is what [malloc] and [pthread_mutex_init] answer,
    and nothing means that they fail. *)
Definition step_at (a : option nat) (pc : point) : outcome :=
  match pc with
  | alloc_malloc id =>
      match a with
      | None => Back None m
      | Some p => if decide (objects m !! p = None) then Next (alloc_init p) (put_foo p (Foo 1 Raw id None) m)
                  else Blocked
      end
  | alloc_init p =>
      access p (fun f =>
        match a with
        | None => Back None (set_objects (delete p (objects m)) m)
        | Some _ => Next (alloc_lock p) (put_foo p (set_lock Unlocked f) m)
        end)
  | alloc_lock p => lock_hash (alloc_next p)
  | alloc_next p =>
      access p (fun f => bucket (f_id f) (fun o => Next (alloc_head p) (put_foo p (set_next o f) m)))
  | alloc_head p => access p (fun f => bucket (f_id f) (fun _ => Next (alloc_flock p) (put_bucket (f_id f) (Some p))))
  | alloc_flock p => lock_foo p (alloc_unlock p)
  | alloc_unlock p => unlock_hash (Next (alloc_funlock p))
  | alloc_funlock p => unlock_foo p (Back (Some p))
  | hold_lock p found => lock_foo p (hold_count p found)
  | hold_count p found => add_count p 1 (hold_unlock p found)
  | hold_unlock p found =>
      unlock_foo p (match found with Some id => Next (find_unlock id (Some p)) | None => Back (Some p) end)
  | find_lock id => lock_hash (find_head id)
  | find_head id => bucket id (fun o => Next (find_test id o) m)
  | find_test id None => Next (find_unlock id None) m
  | find_test id (Some p) =>
      access p (fun f => if f_id f =? id then Next (hold_lock p (Some id)) m else Next (find_next id p) m)
  | find_next id p => access p (fun f => Next (find_test id (f_next f)) m)
  | find_unlock id r => unlock_hash (Back r)
  | rele_lock p => lock_foo p (rele_test p)
  | rele_test p => access p (fun f => Next (if f_count f =? 1 then rele_again p else rele_count p) m)
  | rele_again p => unlock_foo p (Next (rele_hash p))
  | rele_hash p => lock_hash (rele_relock p)
  | rele_relock p => lock_foo p (rele_retest p)
  | rele_retest p => access p (fun f => Next (if f_count f =? 1 then rele_head p else rele_less p) m)
  | rele_less p => add_count p (-1) (rele_funlock p)
  | rele_funlock p => unlock_foo p (Next (rele_unlock p))
  | rele_unlock p => unlock_hash (Back None)
  | rele_head p =>
      access p (fun f => bucket (f_id f) (fun o =>
        match o with
        | Some tfp => if decide (tfp = p) then Next (rele_sethead p) m else Next (rele_walk p tfp) m
        | None => Bad
        end))
  | rele_sethead p =>
      access p (fun f => bucket (f_id f) (fun _ => Next (rele_unhash p) (put_bucket (f_id f) (f_next f))))
  | rele_walk p tfp =>
      access tfp (fun f => if decide (f_next f = Some p) then Next (rele_unlink p tfp) m
                           else match f_next f with Some tfp' => Next (rele_walk p tfp') m | None => Bad end)
  | rele_unlink p tfp =>
      access p (fun f => access tfp (fun g => Next (rele_unhash p) (put_foo tfp (set_next (f_next f) g) m)))
  | rele_unhash p => unlock_hash (Next (rele_unlast p))
  | rele_unlast p => unlock_foo p (Next (rele_destroy p))
  | rele_destroy p =>
      access p (fun f => if decide (f_lock f = Unlocked) then Back None (put_foo p (set_lock Destroyed f) m) else Bad)
  | rele_count p => add_count p (-1) (rele_last p)
  | rele_last p => unlock_foo p (Back None)
  end.
End steps.

(** ** Threads *)

Inductive call := Alloc (id : Z) | Hold (fp : nat) | Find (id : Z) | Rele (fp : nat).

(** A thread has the references [refs], and is outside or inside of a call. *)
Record thread := Thread { refs : list nat; here : option point }.
Record sys := Sys { mem : shared; threads : list thread }.
Definition idle : thread := Thread [] None.
Definition start (n : nat) : sys := Sys shared0 (replicate n idle).

Fixpoint remove1 (p : nat) (l : list nat) : list nat :=
  match l with [] => [] | q :: l => if decide (q = p) then l else q :: remove1 p l end.

(** References and calls that may yet give one. *)
Definition load_of (th : thread) : nat := length (refs th) + (match here th with Some _ => 1 | None => 0 end).
Definition load (s : sys) : nat := sum_list_with load_of (threads s).

(** How clients use the functions: [foo_hold] and [foo_rele] get a reference of
    the caller, [foo_rele] takes it away, and the references stay countable. *)
Definition enter (s : sys) (c : call) (r : list nat) : option (list nat * point) :=
  let room := bool_decide (Z.of_nat (load s) < INT_MAX) in
  match c with
  | Alloc id => if room then Some (r, alloc_malloc id) else None
  | Find id => if room then Some (r, find_lock id) else None
  | Hold p => if room && bool_decide (p ∈ r) then Some (r, hold_lock p None) else None
  | Rele p => if bool_decide (p ∈ r) then Some (remove1 p r, rele_lock p) else None
  end.

(** One move of the system: a thread calls, or takes a step. *)
Inductive move := Call (t : nat) (c : call) | Run (t : nat) (a : option nat).

Definition set_thread (t : nat) (th : thread) (m : shared) (s : sys) : sys := Sys m (<[t := th]> (threads s)).

Definition do_move (s : sys) (mv : move) : option sys :=
  match mv with
  | Call t c =>
      th ← threads s !! t;
      match here th with
      | Some _ => None
      | None => '(r, pc) ← enter s c (refs th); Some (set_thread t (Thread r (Some pc)) (mem s) s)
      end
  | Run t a =>
      th ← threads s !! t; pc ← here th;
      match step_at t (mem s) a pc with
      | Next pc' m => Some (set_thread t (Thread (refs th) (Some pc')) m s)
      | Back g m => Some (set_thread t (Thread (option_list g ++ refs th) None) m s)
      | _ => None
      end
  end.

Fixpoint do_moves (s : sys) (mvs : list move) : option sys :=
  match mvs with [] => Some s | mv :: mvs => s' ← do_move s mv; do_moves s' mvs end.

(** ** What a program point holds *)

(** The thread holds [hashlock]. *)
Definition holds_hash (pc : point) : bool :=
  match pc with
  | alloc_next _ | alloc_head _ | alloc_flock _ | alloc_unlock _ | hold_lock _ (Some _)
  | hold_count _ (Some _) | hold_unlock _ (Some _) | find_head _ | find_test _ _ | find_next _ _
  | find_unlock _ _ | rele_relock _ | rele_retest _ | rele_less _ | rele_funlock _ | rele_unlock _
  | rele_head _ | rele_sethead _ | rele_walk _ _ | rele_unlink _ _ | rele_unhash _ => true
  | _ => false
  end.

(** The object whose [f_lock] it holds. *)
Definition holds_foo (pc : point) : option nat :=
  match pc with
  | alloc_unlock p | alloc_funlock p | hold_count p _ | hold_unlock p _ | rele_test p | rele_again p
  | rele_retest p | rele_less p | rele_funlock p | rele_head p | rele_sethead p | rele_walk p _
  | rele_unlink p _ | rele_unhash p | rele_unlast p | rele_count p | rele_last p => Some p
  | _ => None
  end.

(** The reference that the call has: to give to its caller, or to take away. *)
Definition ref_of (pc : point) : option nat :=
  match pc with
  | alloc_init p | alloc_lock p | alloc_next p | alloc_head p | alloc_flock p | alloc_unlock p
  | alloc_funlock p | hold_unlock p _ | find_unlock _ (Some p)
  | rele_lock p | rele_test p | rele_again p | rele_hash p | rele_relock p | rele_retest p
  | rele_less p | rele_head p | rele_sethead p | rele_walk p _ | rele_unlink p _ | rele_unhash p
  | rele_unlast p | rele_destroy p | rele_count p => Some p
  | _ => None
  end.

Definition hh (th : thread) : bool := match here th with Some pc => holds_hash pc | None => false end.
Definition hf (th : thread) : option nat := pc ← here th; holds_foo pc.

Definition tally (p : nat) (l : list nat) : nat := length (filter (fun q => q = p) l).
Definition has (p : nat) (o : option nat) : nat := if decide (o = Some p) then 1 else 0.
Definition claims (p : nat) (th : thread) : nat := tally p (refs th) + has p (pc ← here th; ref_of pc).
(** All references to [p]. *)
Definition references (s : sys) (p : nat) : nat := sum_list_with (claims p) (threads s).
