(* ===== verification/FooTableProofs.v ===== *)
(** FooTableProofs: threads that share the table of FooTable commit no undefined
    behaviour, count references right, find what is there, and never deadlock. *)
From stdpp Require Import gmap list.
From S2P Require Import Prelude FooTable.

Ltac split_ands := repeat match goal with |- _ /\ _ => split end.

(** ** Sums over threads *)

Lemma sum_insert {A} (f : A -> nat) l t x y : l !! t = Some x ->
  (sum_list_with f (<[t := y]> l) + f x = sum_list_with f l + f y)%nat.
Proof.
  revert t. induction l as [|z l IH]; intros [|t] Hx; simplify_eq/=; [lia|]. specialize (IH t Hx). lia.
Qed.

Lemma sum_one {A} (f : A -> nat) l t x : l !! t = Some x -> (f x <= sum_list_with f l)%nat.
Proof.
  revert t. induction l as [|z l IH]; intros [|t] Hx; simplify_eq/=; [lia|]. specialize (IH t Hx). lia.
Qed.

Lemma sum_two {A} (f : A -> nat) l t u x y : t <> u -> l !! t = Some x -> l !! u = Some y ->
  (f x + f y <= sum_list_with f l)%nat.
Proof.
  revert t u. induction l as [|z l IH]; intros [|t] [|u] Hne Hx Hy; simplify_eq/=.
  - pose proof (sum_one f l u y Hy). lia.
  - pose proof (sum_one f l t x Hx). lia.
  - specialize (IH t u ltac:(lia) Hx Hy). lia.
Qed.

Lemma sum_zero {A} (f : A -> nat) l : sum_list_with f l = 0%nat -> forall t x, l !! t = Some x -> f x = 0%nat.
Proof. intros H0 t x Hx. pose proof (sum_one f l t x Hx). lia. Qed.

Lemma sum_le {A} (f g : A -> nat) l : (forall t x, l !! t = Some x -> (f x <= g x)%nat) ->
  (sum_list_with f l <= sum_list_with g l)%nat.
Proof.
  induction l as [|z l IH]; intros Hle; [done|]. simpl. pose proof (Hle 0%nat z eq_refl).
  enough (sum_list_with f l <= sum_list_with g l)%nat by lia. apply IH. intros t x Hx. by apply (Hle (S t)).
Qed.

Lemma tally_in p l : p ∈ l <-> (1 <= tally p l)%nat.
Proof.
  unfold tally. induction l as [|q l IH]; simpl.
  - split; [by intros ?%elem_of_nil|lia].
  - rewrite elem_of_cons, IH. destruct (decide (q = p)) as [->|Hne]; [rewrite filter_cons_True by done|rewrite filter_cons_False by done]; simpl; [split; [lia|by left]|].
    split; [intros [->|?]; [done|done]|by right].
Qed.

Lemma tally_remove1 p q l : p ∈ l -> (tally q (remove1 p l) + (if decide (p = q) then 1 else 0) = tally q l)%nat.
Proof.
  unfold tally. induction l as [|r l IH]; [by intros ?%elem_of_nil|]. intros Hin. simpl.
  destruct (decide (r = p)) as [->|Hne].
  - destruct (decide (p = q)) as [->|]; [rewrite filter_cons_True by done|rewrite filter_cons_False by done]; simpl; lia.
  - apply elem_of_cons in Hin as [->|Hin]; [done|]. specialize (IH Hin).
    destruct (decide (r = q)) as [->|]; [rewrite !filter_cons_True by done|rewrite !filter_cons_False by done]; simpl; lia.
Qed.

Lemma length_remove1 p l : p ∈ l -> S (length (remove1 p l)) = length l.
Proof.
  induction l as [|r l IH]; [by intros ?%elem_of_nil|]. intros Hin. simpl.
  destruct (decide (r = p)); [done|]. apply elem_of_cons in Hin as [->|Hin]; [done|]. simpl. by rewrite IH.
Qed.

Lemma remove1_sub p q l : q ∈ remove1 p l -> q ∈ l.
Proof.
  induction l as [|r l IH]; [done|]. simpl. destruct (decide (r = p)); [by right|].
  rewrite !elem_of_cons. tauto.
Qed.

(** ** The chains *)

(** From [o] the list [l] of objects follows. *)
Inductive chain (o : gmap nat foo) : option nat -> list nat -> Prop :=
| chain_nil : chain o None []
| chain_cons p f l : o !! p = Some f -> chain o (f_next f) l -> chain o (Some p) (p :: l).

Lemma chain_fun o x l1 l2 : chain o x l1 -> chain o x l2 -> l1 = l2.
Proof.
  intros H1. revert l2. induction H1 as [|p f l Hp _ IH]; intros l2 H2; inversion H2; simplify_eq; [done|].
  f_equal. by apply IH.
Qed.

Lemma foo_chain_ext o o' x l : chain o x l ->
  (forall p f, p ∈ l -> o !! p = Some f -> exists f', o' !! p = Some f' /\ f_next f' = f_next f) ->
  chain o' x l.
Proof.
  intros Hc. induction Hc as [|p f l Hp _ IH]; intros Ho; [constructor|].
  destruct (Ho p f) as (f' & Hp' & En); [by left|done|].
  econstructor; [done|]. rewrite En. apply IH. intros q g Hq. apply Ho. by right.
Qed.

Lemma chain_put o p f f' x l : chain o x l -> o !! p = Some f -> f_next f' = f_next f ->
  chain (<[p := f']> o) x l.
Proof.
  intros Hc Hp En. apply (foo_chain_ext o); [done|]. intros q g _ Hq. destruct (decide (q = p)) as [->|Hne].
  - rewrite lookup_insert_eq. simplify_eq. eauto.
  - rewrite lookup_insert_ne by done. eauto.
Qed.

Lemma chain_other o p f' x l : chain o x l -> p ∉ l -> chain (<[p := f']> o) x l.
Proof.
  intros Hc Hp. apply (foo_chain_ext o); [done|]. intros q g Hq Hg. rewrite lookup_insert_ne by (intros ->; done). eauto.
Qed.

Lemma chain_delete o p x l : chain o x l -> p ∉ l -> chain (delete p o) x l.
Proof.
  intros Hc Hp. apply (foo_chain_ext o); [done|]. intros q g Hq Hg. rewrite lookup_delete_ne by (intros ->; done). eauto.
Qed.

Lemma chain_app o x l1 q l2 : chain o x (l1 ++ q :: l2) -> chain o (Some q) (q :: l2).
Proof.
  revert x. induction l1 as [|p l1 IH]; intros x Hc; simpl in Hc.
  - inversion Hc; simplify_eq. done.
  - inversion Hc; simplify_eq. eauto.
Qed.

Lemma chain_dom o x l p : chain o x l -> p ∈ l -> exists f, o !! p = Some f.
Proof.
  intros Hc. induction Hc as [|q f l Hq _ IH]; [by intros ?%elem_of_nil|].
  intros [->|Hp]%elem_of_cons; eauto.
Qed.

(** Taking [p] out, when what precedes it is made to point to what follows it. *)
Lemma foo_chain_unlink o x l1 q g p f l2 : chain o x (l1 ++ q :: p :: l2) -> NoDup (l1 ++ q :: p :: l2) ->
  o !! q = Some g -> o !! p = Some f ->
  chain (<[q := set_next (f_next f) g]> o) x (l1 ++ q :: l2).
Proof.
  intros Hc Hd Hq Hp. revert x Hc. induction l1 as [|r l1 IH]; intros x Hc; simpl in *.
  - inversion Hc as [|? g' ? Hg Hc2]; simplify_eq. inversion Hc2 as [|? f' ? Hf Hc3]; simplify_eq.
    econstructor; [by rewrite lookup_insert_eq|]. simpl. apply chain_other; [done|].
    apply NoDup_cons in Hd as [Hd _]. set_solver.
  - inversion Hc as [|? g' ? Hg Hc2]; simplify_eq. apply NoDup_cons in Hd as [Hr Hd].
    econstructor; [rewrite lookup_insert_ne; [done|set_solver]|]. by apply IH.
Qed.

(** ** The invariant *)

(** The buckets as lists, and the objects in them. *)
Implicit Types (L : list (list nat)) (m : shared) (s : sys) (th : thread) (pc : point).
Definition linked L p : Prop := exists i l, L !! i = Some l /\ p ∈ l.

(** A mutex that can be locked or waited for. *)
Definition usable (f : foo) : Prop := f_lock f = Unlocked \/ exists t, f_lock f = Held t.
Lemma usable_held f t : f_lock f = Held t -> usable f.
Proof. intros E. right. by exists t. Qed.

Definition mem_ok L m : Prop :=
  Forall2 (chain (objects m)) (fh m) L /\ length L = Z.to_nat NHASH /\
  (forall i l p, L !! i = Some l -> p ∈ l ->
     exists f, objects m !! p = Some f /\ HASH (f_id f) = i /\ usable f) /\
  (forall i l, L !! i = Some l -> NoDup l).

(** The object in the table that a thread at [pc] goes on to use. *)
Definition uses pc : option nat :=
  match pc with
  | alloc_flock p | alloc_unlock p | alloc_funlock p | hold_lock p _ | hold_count p _ | hold_unlock p _
  | find_test _ (Some p) | find_next _ p | find_unlock _ (Some p) | rele_lock p | rele_test p
  | rele_again p | rele_hash p | rele_relock p | rele_retest p | rele_less p | rele_funlock p
  | rele_head p | rele_sethead p | rele_walk p _ | rele_unlink p _ | rele_count p | rele_last p => Some p
  | _ => None
  end.
(** The object that is not in the table yet, or not any more. *)
Definition apart pc : option nat :=
  match pc with
  | alloc_init p | alloc_lock p | alloc_next p | alloc_head p
  | rele_unhash p | rele_unlast p | rele_destroy p => Some p
  | _ => None
  end.
Definition raw pc : bool := match pc with alloc_init _ => true | _ => false end.
(** What is known of the count. *)
Definition one pc : option nat :=
  match pc with
  | alloc_init p | alloc_lock p | alloc_next p | alloc_head p
  | rele_head p | rele_sethead p | rele_walk p _ | rele_unlink p _ => Some p
  | _ => None
  end.
Definition many pc : option nat :=
  match pc with rele_less p | rele_count p => Some p | _ => None end.
(** The reference of the caller that [foo_hold] relies on. *)
Definition borrowed pc : option nat :=
  match pc with hold_lock p None | hold_count p None => Some p | _ => None end.

Definition has_id m id p : Prop := exists f, objects m !! p = Some f /\ f_id f = id.
Definition lacks_id m id p : Prop := exists f, objects m !! p = Some f /\ f_id f <> id.

(** How far the walk along a chain is. *)
Definition walk_ok L m pc : Prop :=
  match pc with
  | alloc_head p => exists f, objects m !! p = Some f /\ fh m !! HASH (f_id f) = Some (f_next f)
  | find_test id o => exists l1 l2, L !! HASH id = Some (l1 ++ l2) /\ head l2 = o /\ Forall (lacks_id m id) l1
  | find_next id p => exists l1 l2, L !! HASH id = Some (l1 ++ p :: l2) /\ Forall (lacks_id m id) (l1 ++ [p])
  | hold_lock p (Some id) | hold_count p (Some id) | hold_unlock p (Some id)
  | find_unlock id (Some p) => has_id m id p
  | find_unlock id None => exists l, L !! HASH id = Some l /\ Forall (lacks_id m id) l
  | rele_sethead p => exists f l, objects m !! p = Some f /\ L !! HASH (f_id f) = Some (p :: l)
  | rele_walk p q => exists f l1 l2, objects m !! p = Some f /\ L !! HASH (f_id f) = Some (l1 ++ q :: l2) /\ p ∈ l2
  | rele_unlink p q => exists f l1 l2, objects m !! p = Some f /\ L !! HASH (f_id f) = Some (l1 ++ q :: p :: l2)
  | _ => True
  end.

Record pc_ok L m (r : list nat) pc : Prop := PcOk {
  pk_uses : forall p, uses pc = Some p -> linked L p;
  pk_apart : forall p, apart pc = Some p -> ~ linked L p /\
    exists f, objects m !! p = Some f /\ (if raw pc then f_lock f = Raw else usable f);
  pk_one : forall p, one pc = Some p -> exists f, objects m !! p = Some f /\ f_count f = 1;
  pk_many : forall p, many pc = Some p -> exists f, objects m !! p = Some f /\ f_count f <> 1;
  pk_borrowed : forall p, borrowed pc = Some p -> p ∈ r;
  pk_walk : walk_ok L m pc }.

Definition hash_ok m (ths : list thread) : Prop :=
  forall t, hashlock m = Some t <-> exists th, ths !! t = Some th /\ hh th = true.
Definition foo_lock_ok m (ths : list thread) : Prop :=
  forall p f, objects m !! p = Some f ->
    forall t, f_lock f = Held t <-> exists th, ths !! t = Some th /\ hf th = Some p.

Record inv L s : Prop := Inv {
  i_mem : mem_ok L (mem s);
  i_hash : hash_ok (mem s) (threads s);
  i_flock : foo_lock_ok (mem s) (threads s);
  i_count : forall p f, linked L p -> objects (mem s) !! p = Some f ->
    f_count f = Z.of_nat (references s p) /\ (1 <= references s p)%nat;
  i_apart : forall p, ~ linked L p -> (references s p <= 1)%nat;
  i_none : forall p, objects (mem s) !! p = None -> references s p = 0%nat;
  i_pc : forall t th pc, threads s !! t = Some th -> here th = Some pc -> pc_ok L (mem s) (refs th) pc;
  i_refs : forall t th p, threads s !! t = Some th -> p ∈ refs th -> linked L p;
  i_load : Z.of_nat (load s) <= INT_MAX }.

(** *** Its consequences *)

Lemma linked_foo L m p : mem_ok L m -> linked L p ->
  exists f l, objects m !! p = Some f /\ usable f /\ L !! HASH (f_id f) = Some l /\ p ∈ l /\ NoDup l.
Proof.
  intros (_ & _ & Hb & Hd) (i & l & Hl & Hp). destruct (Hb i l p Hl Hp) as (f & Hf & <- & Hu).
  exists f, l. split_ands; eauto.
Qed.

Lemma bucket_chain L m id : mem_ok L m ->
  exists o l, fh m !! HASH id = Some o /\ L !! HASH id = Some l /\ chain (objects m) o l.
Proof.
  intros (Hc & Hlen & _). destruct (lookup_lt_is_Some_2 L (HASH id)) as [l Hl].
  { rewrite Hlen. unfold HASH, NHASH. pose proof (Z.mod_pos_bound (id mod 2 ^ 64) 29). lia. }
  destruct (Forall2_lookup_r _ _ _ _ _ Hc Hl) as (o & Ho & Hch). eauto.
Qed.

Lemma foo_chain_head o x l : chain o x l -> head l = x.
Proof. by intros []. Qed.

Lemma hf_object L s t th p : inv L s -> threads s !! t = Some th -> hf th = Some p ->
  exists f, objects (mem s) !! p = Some f.
Proof.
  intros Hi Ht Hp. unfold hf in Hp. destruct (here th) as [pc|] eqn:Ep; [|done]. simpl in Hp.
  pose proof (i_pc _ _ Hi t th pc Ht Ep) as Hpc.
  assert (uses pc = Some p \/ apart pc = Some p) as [Hu|Ha] by (destruct pc; simplify_eq/=; auto).
  - apply pk_uses with (p := p) in Hpc; [|done]. destruct (linked_foo _ _ _ (i_mem _ _ Hi) Hpc) as (f & _ & Hf & _). eauto.
  - apply pk_apart with (p := p) in Hpc; [|done]. destruct Hpc as (_ & f & Hf & _). eauto.
Qed.

(** A thread that claims an object is the only one that can be apart with it. *)
Lemma apart_claims pc p : apart pc = Some p -> ref_of pc = Some p.
Proof. by destruct pc. Qed.

Lemma claims_here p th pc : here th = Some pc -> ref_of pc = Some p -> (1 <= claims p th)%nat.
Proof. intros E Er. unfold claims, has. rewrite E. simpl. rewrite Er. rewrite decide_True by done. lia. Qed.

Lemma apart_alone L s t u th thu pc pcu p : inv L s -> t <> u ->
  threads s !! t = Some th -> threads s !! u = Some thu -> here th = Some pc -> here thu = Some pcu ->
  apart pc = Some p -> apart pcu <> Some p.
Proof.
  intros Hi Hne Ht Hu Et Eu Ha Hau.
  pose proof (pk_apart _ _ _ _ (i_pc _ _ Hi t th pc Ht Et) p Ha) as [Hn _].
  pose proof (i_apart _ _ Hi p Hn) as Hle. unfold references in Hle.
  pose proof (sum_two (claims p) _ t u th thu Hne Ht Hu).
  pose proof (claims_here p th pc Et (apart_claims _ _ Ha)).
  pose proof (claims_here p thu pcu Eu (apart_claims _ _ Hau)). lia.
Qed.

Lemma hash_alone L s t u th thu : inv L s -> threads s !! t = Some th -> threads s !! u = Some thu ->
  hh th = true -> hh thu = true -> t = u.
Proof.
  intros Hi Ht Hu Ht2 Hu2.
  assert (H1 : hashlock (mem s) = Some t) by (apply (i_hash _ _ Hi); eauto).
  assert (H2 : hashlock (mem s) = Some u) by (apply (i_hash _ _ Hi); eauto). congruence.
Qed.

Lemma foo_alone L s t u th thu p : inv L s -> threads s !! t = Some th -> threads s !! u = Some thu ->
  hf th = Some p -> hf thu = Some p -> t = u.
Proof.
  intros Hi Ht Hu Ht2 Hu2. destruct (hf_object _ _ _ _ _ Hi Ht Ht2) as [f Hf].
  assert (H1 : f_lock f = Held t) by (apply (i_flock _ _ Hi p f Hf); eauto).
  assert (H2 : f_lock f = Held u) by (apply (i_flock _ _ Hi p f Hf); eauto). congruence.
Qed.

Lemma one_many_holds pc p : one pc = Some p \/ many pc = Some p -> apart pc = Some p \/ holds_foo pc = Some p.
Proof. destruct pc; simpl; naive_solver. Qed.

Lemma hh_here th pc : here th = Some pc -> hh th = holds_hash pc.
Proof. unfold hh. by intros ->. Qed.
Lemma hf_here th pc : here th = Some pc -> hf th = holds_foo pc.
Proof. unfold hf. by intros ->. Qed.

(** *** How the invariant survives a step *)

Lemma hash_update m m' ths t th th' : hash_ok m ths -> ths !! t = Some th ->
  hashlock m' = (if hh th' then Some t else if hh th then None else hashlock m) ->
  (hh th' = true -> hh th = true \/ hashlock m = None) ->
  hash_ok m' (<[t := th']> ths).
Proof.
  intros Hok Ht E Hacq u. assert (Hlt : (t < length ths)%nat) by (by eapply lookup_lt_Some).
  assert (Hold : hh th = true -> hashlock m = Some t) by (intros ?; apply Hok; eauto).
  rewrite E. destruct (decide (u = t)) as [->|Hne].
  - rewrite list_lookup_insert_eq by done. destruct (hh th') eqn:E'; [naive_solver|].
    split; [|intros (? & [= <-] & ?); congruence].
    destruct (hh th) eqn:E2; [done|]. intros (th2 & Ht2 & Hh)%Hok. congruence.
  - rewrite list_lookup_insert_ne by done. rewrite <-(Hok u).
    destruct (hh th') eqn:E'.
    + split; [congruence|]. intros Hu. destruct (Hacq eq_refl) as [Hh|Hn]; [|congruence].
      rewrite Hold in Hu by done. congruence.
    + destruct (hh th) eqn:E2; [|done]. split; [done|]. rewrite Hold by done. congruence.
Qed.

(** What becomes of the lock of an object. *)
Definition lock_change (t : nat) th th' (p : nat) (old : option foo) (f' : foo) : Prop :=
  if decide (hf th' = Some p) then
    f_lock f' = Held t /\ (hf th = Some p \/ exists f, old = Some f /\ forall u, f_lock f <> Held u)
  else if decide (hf th = Some p) then forall u, f_lock f' <> Held u
  else forall u, f_lock f' = Held u <-> exists f, old = Some f /\ f_lock f = Held u.

Lemma flock_update L s m' t th th' : inv L s -> threads s !! t = Some th ->
  (forall p f', objects m' !! p = Some f' -> lock_change t th th' p (objects (mem s) !! p) f') ->
  foo_lock_ok m' (<[t := th']> (threads s)).
Proof.
  intros Hi Ht Hch p f' Hp u. pose proof (Hch p f' Hp) as Hc. unfold lock_change in Hc.
  assert (Hlt : (t < length (threads s))%nat) by (by eapply lookup_lt_Some).
  assert (Hother : forall thu, u <> t -> threads s !! u = Some thu -> hf thu = Some p ->
    exists f, objects (mem s) !! p = Some f /\ f_lock f = Held u).
  { intros thu Hne Hu Hhu. destruct (hf_object _ _ _ _ _ Hi Hu Hhu) as [f Hf]. exists f. split; [done|].
    apply (i_flock _ _ Hi p f Hf). eauto. }
  destruct (decide (u = t)) as [->|Hne].
  - rewrite list_lookup_insert_eq by done. destruct (decide (hf th' = Some p)) as [E'|Hn'].
    { destruct Hc as [-> _]. naive_solver. }
    split; [|intros (? & [= <-] & ?); congruence].
    destruct (decide (hf th = Some p)) as [E|Hn]; [by intros ?%Hc|].
    intros (f & Hf & Hl)%Hc. apply (i_flock _ _ Hi p f Hf) in Hl as (th2 & Ht2 & Hh2). congruence.
  - rewrite list_lookup_insert_ne by done. destruct (decide (hf th' = Some p)) as [E'|Hn'].
    + destruct Hc as [-> Hc]. split; [congruence|]. intros (thu & Hu & Hhu).
      destruct Hc as [Hh|(f & Hf & Hno)].
      * destruct Hne. by apply (foo_alone _ _ _ _ _ _ p Hi Hu Ht).
      * destruct (Hother thu Hne Hu Hhu) as (g & Hg & Hl). destruct (Hno u). congruence.
    + destruct (decide (hf th = Some p)) as [E|Hn].
      * split; [by intros ?%Hc|]. intros (thu & Hu & Hhu). destruct Hne. by apply (foo_alone _ _ _ _ _ _ p Hi Hu Ht).
      * rewrite Hc. split.
        -- intros (f & Hf & Hl). by apply (i_flock _ _ Hi p f Hf).
        -- intros (thu & Hu & Hhu). by apply (Hother thu).
Qed.

Lemma references_update s t th th' m' p : threads s !! t = Some th ->
  (references (set_thread t th' m' s) p + claims p th = references s p + claims p th')%nat.
Proof. intros Ht. unfold references. simpl. by apply sum_insert. Qed.

Lemma inv_update L L' s t th th' m' : inv L s -> threads s !! t = Some th ->
  mem_ok L' m' ->
  hashlock m' = (if hh th' then Some t else if hh th then None else hashlock (mem s)) ->
  (hh th' = true -> hh th = true \/ hashlock (mem s) = None) ->
  (forall p f', objects m' !! p = Some f' -> lock_change t th th' p (objects (mem s) !! p) f') ->
  (forall p w, (w + claims p th = references s p + claims p th')%nat ->
     (linked L' p -> forall f', objects m' !! p = Some f' -> f_count f' = Z.of_nat w /\ (1 <= w)%nat) /\
     (~ linked L' p -> (w <= 1)%nat) /\ (objects m' !! p = None -> w = 0%nat)) ->
  (forall pc', here th' = Some pc' -> pc_ok L' m' (refs th') pc') ->
  (forall u thu pcu, u <> t -> threads s !! u = Some thu -> here thu = Some pcu ->
     pc_ok L' m' (refs thu) pcu) ->
  (forall p, p ∈ refs th' -> linked L' p) ->
  (forall u thu p, u <> t -> threads s !! u = Some thu -> p ∈ refs thu -> linked L' p) ->
  Z.of_nat (load s + load_of th') <= INT_MAX + Z.of_nat (load_of th) ->
  inv L' (set_thread t th' m' s).
Proof.
  intros Hi Ht Hm Hh1 Hh2 Hl Hw Hpc Hother Hr Hro Hload.
  assert (Hlt : (t < length (threads s))%nat) by (by eapply lookup_lt_Some).
  split.
  - done.
  - by eapply hash_update; [apply Hi|..].
  - by eapply flock_update.
  - intros p f Hp Hf. destruct (Hw p _ (references_update s t th th' m' p Ht)) as (H1 & _). by apply H1.
  - intros p Hp. by apply (Hw p _ (references_update s t th th' m' p Ht)).
  - intros p Hp. by apply (Hw p _ (references_update s t th th' m' p Ht)).
  - intros u thu pcu. simpl. destruct (decide (u = t)) as [->|Hne].
    + rewrite list_lookup_insert_eq by done. intros [= <-]. apply Hpc.
    + rewrite list_lookup_insert_ne by done. by apply Hother.
  - intros u thu p. simpl. destruct (decide (u = t)) as [->|Hne].
    + rewrite list_lookup_insert_eq by done. intros [= <-]. apply Hr.
    + rewrite list_lookup_insert_ne by done. by apply Hro.
  - unfold load in *. simpl. pose proof (sum_insert load_of _ _ _ th' Ht). lia.
Qed.

(** *** Steps that change no more than locks and counts *)

(** The objects in the table are the same, with the same names. *)
Definition same_ids L m m' : Prop := forall q g, linked L q -> objects m !! q = Some g ->
  exists g', objects m' !! q = Some g' /\ f_id g' = f_id g.

Lemma lacks_same L m m' id i l l' : same_ids L m m' -> L !! i = Some l' -> l ⊆ l' ->
  Forall (lacks_id m id) l -> Forall (lacks_id m' id) l.
Proof.
  intros Hs Hi Hsub Hl. rewrite !Forall_forall in Hl |- *. intros q Hq.
  destruct (Hl q Hq) as (g & Hg & Hne). destruct (Hs q g) as (g' & Hg' & E); [by exists i, l'; auto|done|].
  exists g'. split; [done|congruence].
Qed.

Lemma has_same L m m' id q : same_ids L m m' -> linked L q -> has_id m id q -> has_id m' id q.
Proof. intros Hs Hq (g & Hg & <-). destruct (Hs q g Hq Hg) as (g' & Hg' & E). by exists g'. Qed.

Lemma walk_ok_ext L m m' pc : same_ids L m m' -> (forall p, uses pc = Some p -> linked L p) ->
  (forall p, pc = alloc_head p -> walk_ok L m pc -> walk_ok L m' pc) -> walk_ok L m pc -> walk_ok L m' pc.
Proof.
  intros Hs Hu Hh. pose proof (has_same L m m') as Hhas. pose proof (lacks_same L m m') as Hlacks.
  destruct pc; try done; try (by eapply Hh); simpl in *.
  all: try (destruct found; [by apply Hhas; auto|done]).
  - intros (l1 & l2 & H1 & H2 & H3). exists l1, l2. split_ands; [done..|]. eapply Hlacks; [done..|set_solver|done].
  - intros (l1 & l2 & H1 & H2). exists l1, l2. split; [done|]. eapply Hlacks; [done..|set_solver|done].
  - destruct fp; [by apply Hhas; auto|]. intros (l & H1 & H2). exists l. split; [done|]. eapply Hlacks; [done..|done].
  - intros (f & l & H1 & H2). destruct (Hs _ _ (Hu _ eq_refl) H1) as (f' & H1' & E). exists f', l. rewrite E. eauto.
  - intros (f & l1 & l2 & H1 & H2). destruct (Hs _ _ (Hu _ eq_refl) H1) as (f' & H1' & E). exists f', l1, l2. rewrite E. eauto.
  - intros (f & l1 & l2 & H1 & H2). destruct (Hs _ _ (Hu _ eq_refl) H1) as (f' & H1' & E). exists f', l1, l2. rewrite E. eauto.
Qed.

Lemma pc_ok_same L m m' r pc : objects m' = objects m -> fh m' = fh m -> pc_ok L m r pc -> pc_ok L m' r pc.
Proof.
  intros Eo Ef []. split; try done; rewrite ?Eo; try done.
  apply (walk_ok_ext L m); [|done|intros p ->; simpl; by rewrite Eo, Ef|done].
  intros q g _. rewrite Eo. eauto.
Qed.

Lemma pc_ok_refs L m r r' pc : (forall p, borrowed pc = Some p -> p ∈ r') -> pc_ok L m r pc -> pc_ok L m r' pc.
Proof. intros Hb []. by split. Qed.

Lemma inv_same L s t th th' m' : inv L s -> threads s !! t = Some th ->
  objects m' = objects (mem s) -> fh m' = fh (mem s) ->
  hashlock m' = (if hh th' then Some t else if hh th then None else hashlock (mem s)) ->
  (hh th' = true -> hh th = true \/ hashlock (mem s) = None) ->
  hf th' = hf th -> (forall p, claims p th' = claims p th) ->
  (forall pc', here th' = Some pc' -> pc_ok L (mem s) (refs th') pc') ->
  (forall p, p ∈ refs th' -> linked L p) ->
  Z.of_nat (load s + load_of th') <= INT_MAX + Z.of_nat (load_of th) ->
  inv L (set_thread t th' m' s).
Proof.
  intros Hi Ht Eo Ef Eh Eh2 Ehf Ew Hpc Hr Hload.
  apply (inv_update L L s t th); try done; rewrite ?Eo.
  - destruct (i_mem _ _ Hi) as (H1 & H2 & H3 & H4). unfold mem_ok. split_ands; rewrite ?Eo, ?Ef; done.
  - intros p f' Hp. unfold lock_change. rewrite Ehf, Hp. destruct (decide (hf th = Some p)) as [E|].
    + split; [|by left]. apply (i_flock _ _ Hi p f' Hp). eauto.
    + naive_solver.
  - intros p w Hw. assert (w = references s p) as -> by (rewrite Ew in Hw; lia).
    split_ands; [intros Hp f' Hf; by apply (i_count _ _ Hi)|apply (i_apart _ _ Hi)|apply (i_none _ _ Hi)].
  - intros pc' E. apply (pc_ok_same L (mem s)); eauto.
  - intros u thu pcu _ Hu Eu. apply (pc_ok_same L (mem s)); [done..|]. by apply (i_pc _ _ Hi u).
  - intros u thu p _ Hu. by apply (i_refs _ _ Hi u).
Qed.

Lemma same_ids_put L m p f f' : objects m !! p = Some f -> f_id f' = f_id f -> same_ids L m (put_foo p f' m).
Proof.
  intros Hp E q g _ Hq. simpl. destruct (decide (q = p)) as [->|Hne].
  - rewrite lookup_insert_eq. simplify_eq. eauto.
  - rewrite lookup_insert_ne by done. eauto.
Qed.

(** The program point of a thread when another one changes lock or count of [p]. *)
Lemma pc_ok_put L m r pc p f f' : pc_ok L m r pc -> objects m !! p = Some f ->
  f_id f' = f_id f -> apart pc <> Some p ->
  (f_count f' = f_count f \/ one pc <> Some p /\ many pc <> Some p) ->
  pc_ok L (put_foo p f' m) r pc.
Proof.
  intros [] Hp Ei Ha Hc. split; try done; simpl.
  - intros q Hq. destruct (pk_apart0 q Hq) as (Hn & g & Hg & Hu). split; [done|]. exists g.
    rewrite lookup_insert_ne by congruence. done.
  - intros q Hq. destruct (pk_one0 q Hq) as (g & Hg & Eg). destruct (decide (q = p)) as [->|Hne].
    + rewrite lookup_insert_eq. exists f'. simplify_eq. split; [done|]. destruct Hc as [->|[? _]]; done.
    + rewrite lookup_insert_ne by done. eauto.
  - intros q Hq. destruct (pk_many0 q Hq) as (g & Hg & Eg). destruct (decide (q = p)) as [->|Hne].
    + rewrite lookup_insert_eq. exists f'. simplify_eq. split; [done|]. destruct Hc as [->|[_ ?]]; done.
    + rewrite lookup_insert_ne by done. eauto.
  - apply (walk_ok_ext L m); [by eapply same_ids_put|done| |done].
    intros q -> (g & Hg & Eg). simpl. destruct (decide (q = p)) as [->|Hne]; [done|].
    exists g. by rewrite lookup_insert_ne.
Qed.

Lemma inv_put L s t th pc th' p f f' : inv L s -> threads s !! t = Some th -> here th = Some pc ->
  objects (mem s) !! p = Some f -> f_next f' = f_next f \/ ~ linked L p -> f_id f' = f_id f ->
  hh th' = hh th -> lock_change t th th' p (Some f) f' ->
  (forall q, q <> p -> hf th' = Some q <-> hf th = Some q) ->
  (forall q, q <> p -> claims q th' = claims q th) ->
  (linked L p -> usable f' /\ f_count f' + Z.of_nat (claims p th) = f_count f + Z.of_nat (claims p th') /\
     (claims p th + 1 <= references s p + claims p th')%nat) ->
  (~ linked L p -> apart pc = Some p /\ (claims p th' <= claims p th)%nat) ->
  (f_count f' = f_count f \/ hf th = Some p) ->
  (forall pc', here th' = Some pc' -> pc_ok L (put_foo p f' (mem s)) (refs th') pc') ->
  (forall q, q ∈ refs th' -> linked L q) ->
  Z.of_nat (load s + load_of th') <= INT_MAX + Z.of_nat (load_of th) ->
  inv L (set_thread t th' (put_foo p f' (mem s)) s).
Proof.
  intros Hi Ht Epc Hp En Ei Ehh Hl Ehf Ew Hlink Hun Hc Hpc Hr Hload.
  assert (Hhash : hh th = true -> hashlock (mem s) = Some t) by (intros ?; apply (i_hash _ _ Hi); eauto).
  apply (inv_update L L s t th); try done.
  - destruct (i_mem _ _ Hi) as (H1 & H2 & H3 & H4). unfold mem_ok. split_ands; [|done| |done].
    + simpl. apply (Forall2_same_length_lookup_2 _ _ _); [by eapply Forall2_length|].
      intros i o l Ho Hli. pose proof (Forall2_lookup_lr _ _ _ _ _ _ H1 Ho Hli) as Hch.
      destruct En as [En|Hnl]; [by eapply chain_put|]. apply chain_other; [done|].
      intros Hpl. apply Hnl. by exists i, l.
    + simpl. intros i l q Hli Hq. destruct (H3 i l q Hli Hq) as (g & Hg & Eg & Ug).
      destruct (decide (q = p)) as [->|Hne].
      * rewrite lookup_insert_eq. exists f'. split; [done|]. split; [simplify_eq; congruence|].
        apply Hlink. by exists i, l.
      * rewrite lookup_insert_ne by done. eauto.
  - simpl. rewrite Ehh. destruct (hh th); [by apply Hhash|done].
  - rewrite Ehh. by left.
  - intros q g Hq. simpl in Hq. destruct (decide (q = p)) as [->|Hne].
    + rewrite lookup_insert_eq in Hq. simplify_eq. by rewrite Hp.
    + rewrite lookup_insert_ne in Hq by done. unfold lock_change. rewrite Hq.
      destruct (decide (hf th' = Some q)) as [E|Hn].
      * apply Ehf in E; [|done]. split; [|by left]. apply (i_flock _ _ Hi q g Hq). eauto.
      * rewrite decide_False by (rewrite <-Ehf by done; done). naive_solver.
  - intros q w Hw. simpl. destruct (decide (q = p)) as [->|Hne].
    + rewrite lookup_insert_eq. split_ands; [|intros Hn; destruct (Hun Hn); pose proof (i_apart _ _ Hi p Hn); lia|done].
      intros Hlp f2 [= <-]. destruct (Hlink Hlp) as (_ & E1 & E2). destruct (i_count _ _ Hi p f Hlp Hp) as [E3 _].
      split; lia.
    + rewrite lookup_insert_ne by done. assert (w = references s q) as -> by (rewrite Ew in Hw by done; lia).
      split_ands; [intros Hq g Hg; by apply (i_count _ _ Hi)|apply (i_apart _ _ Hi)|apply (i_none _ _ Hi)].
  - intros u thu pcu Hne Hu Eu. pose proof (i_pc _ _ Hi u thu pcu Hu Eu) as Hpcu.
    assert (Hapart : apart pcu <> Some p).
    { intros Hau. destruct (pk_apart _ _ _ _ Hpcu p Hau) as [Hnl _]. destruct (Hun Hnl) as [Ha _].
      by apply (apart_alone _ _ t u th thu pc pcu p Hi (not_eq_sym Hne) Ht Hu Epc Eu Ha). }
    eapply pc_ok_put; try done. destruct Hc as [->|Hhf]; [by left|right].
    assert (Hno : holds_foo pcu <> Some p).
    { intros Hh. apply Hne. symmetry. apply (foo_alone _ _ t u th thu p Hi Ht Hu Hhf). by rewrite (hf_here _ _ Eu). }
    split; intros Ho; destruct (one_many_holds pcu p) as [?|?]; auto.
  - intros u thu q _ Hu. by apply (i_refs _ _ Hi u).
Qed.

(** *** Steps that change the memory or the table *)

Lemma walk_ok_nohash L m pc : holds_hash pc = false -> walk_ok L m pc.
Proof. by destruct pc as [| | | | | | | |? []|? []|? []| | | |? []|? []| | | | | | | | | | | | | | | | | |]. Qed.

Lemma other_nohash L s t u th thu pcu : inv L s -> t <> u -> threads s !! t = Some th ->
  threads s !! u = Some thu -> here thu = Some pcu -> hh th = true -> holds_hash pcu = false.
Proof.
  intros Hi Hne Ht Hu Eu Hh. destruct (holds_hash pcu) eqn:E; [|done]. destruct Hne.
  apply (hash_alone _ _ t u th thu Hi Ht Hu Hh). by rewrite (hh_here _ _ Eu).
Qed.

Lemma keep_hash s t th th' : hash_ok (mem s) (threads s) -> threads s !! t = Some th -> hh th' = hh th ->
  hashlock (mem s) = (if hh th' then Some t else if hh th then None else hashlock (mem s)).
Proof. intros Hok Ht E. rewrite E. destruct (hh th) eqn:E2; [|done]. apply Hok. eauto. Qed.

(** [malloc]. *)
Lemma inv_malloc L s t th id p : inv L s -> threads s !! t = Some th ->
  here th = Some (alloc_malloc id) -> objects (mem s) !! p = None ->
  inv L (set_thread t (Thread (refs th) (Some (alloc_init p))) (put_foo p (Foo 1 Raw id None) (mem s)) s).
Proof.
  intros Hi Ht Epc Hp. destruct (i_mem _ _ Hi) as (H1 & H2 & H3 & H4).
  assert (Hnl : ~ linked L p).
  { intros (f & _ & Hf & _)%(linked_foo _ _ _ (i_mem _ _ Hi)). congruence. }
  assert (Hcl : forall q, claims q (Thread (refs th) (Some (alloc_init p))) = (claims q th + has q (Some p))%nat)
    by (intros q; unfold claims; simpl; rewrite Epc; simpl; unfold has at 2; simpl; lia).
  apply (inv_update L L s t th); try done.
  - unfold mem_ok. split_ands; [|done| |done].
    + simpl. apply (Forall2_same_length_lookup_2 _ _ _); [by eapply Forall2_length|].
      intros i o l Ho Hl. pose proof (Forall2_lookup_lr _ _ _ _ _ _ H1 Ho Hl). apply chain_other; [done|].
      intros Hpl. apply Hnl. by exists i, l.
    + simpl. intros i l q Hl Hq. rewrite lookup_insert_ne; [by apply H3 with l|]. intros ->. apply Hnl. by exists i, l.
  - unfold hh at 1 2. simpl. by rewrite Epc.
  - intros q g Hq. unfold lock_change, hf. rewrite Epc. simpl in *.
    destruct (decide (q = p)) as [->|Hne].
    + rewrite lookup_insert_eq in Hq. simplify_eq. rewrite Hp. naive_solver.
    + rewrite lookup_insert_ne in Hq by done. rewrite Hq. naive_solver.
  - intros q w Hw. rewrite Hcl in Hw. simpl. destruct (decide (q = p)) as [->|Hne].
    + rewrite lookup_insert_eq. pose proof (i_none _ _ Hi p Hp) as E0. unfold has in Hw.
      rewrite decide_True in Hw by done. split_ands; [done|lia|done].
    + rewrite lookup_insert_ne by done. unfold has in Hw. rewrite decide_False in Hw by congruence.
      assert (w = references s q) as -> by lia.
      split_ands; [intros Hq g Hg; by apply (i_count _ _ Hi)|apply (i_apart _ _ Hi)|apply (i_none _ _ Hi)].
  - intros pc' [= <-]. split; simpl; try done.
    + intros q [= <-]. split; [done|]. rewrite lookup_insert_eq. eauto.
    + intros q [= <-]. rewrite lookup_insert_eq. eauto.
  - intros u thu pcu Hne Hu Eu. destruct (i_pc _ _ Hi u thu pcu Hu Eu). split; try done; simpl.
    + intros q Hq. destruct (pk_apart0 q Hq) as (Hn & g & Hg & Hu2). split; [done|]. exists g.
      by rewrite lookup_insert_ne by congruence.
    + intros q Hq. destruct (pk_one0 q Hq) as (g & Hg & Eg). exists g. by rewrite lookup_insert_ne by congruence.
    + intros q Hq. destruct (pk_many0 q Hq) as (g & Hg & Eg). exists g. by rewrite lookup_insert_ne by congruence.
    + apply (walk_ok_ext L (mem s)); [|done| |done].
      * intros q g _ Hg. exists g. simpl. by rewrite lookup_insert_ne by congruence.
      * intros q -> (g & Hg & Eg). exists g. simpl. by rewrite lookup_insert_ne by congruence.
  - intros q Hq. by apply (i_refs _ _ Hi t th).
  - intros u thu q _ Hu. by apply (i_refs _ _ Hi u).
  - pose proof (i_load _ _ Hi). unfold load_of. rewrite Epc. simpl. lia.
Qed.

(** [free], when the mutex could not be initialised. *)
Lemma inv_free L s t th p : inv L s -> threads s !! t = Some th -> here th = Some (alloc_init p) ->
  inv L (set_thread t (Thread (refs th) None) (set_objects (delete p (objects (mem s))) (mem s)) s).
Proof.
  intros Hi Ht Epc. destruct (i_mem _ _ Hi) as (H1 & H2 & H3 & H4).
  destruct (pk_apart _ _ _ _ (i_pc _ _ Hi t th _ Ht Epc) p eq_refl) as [Hnl _].
  pose proof (i_apart _ _ Hi p Hnl) as Hle.
  assert (Hcl : forall q, claims q th = (claims q (Thread (refs th) None) + has q (Some p))%nat)
    by (intros q; unfold claims; simpl; rewrite Epc; simpl; unfold has at 2; simpl; lia).
  apply (inv_update L L s t th); try done.
  - unfold mem_ok. split_ands; [|done| |done].
    + simpl. apply (Forall2_same_length_lookup_2 _ _ _); [by eapply Forall2_length|].
      intros i o l Ho Hl. pose proof (Forall2_lookup_lr _ _ _ _ _ _ H1 Ho Hl). apply chain_delete; [done|].
      intros Hpl. apply Hnl. by exists i, l.
    + simpl. intros i l q Hl Hq. rewrite lookup_delete_ne; [by apply H3 with l|]. intros ->. apply Hnl. by exists i, l.
  - unfold hh at 1 2. simpl. by rewrite Epc.
  - intros q g Hq. unfold lock_change, hf. rewrite Epc. simpl in *.
    apply lookup_delete_Some in Hq as [_ Hq]. rewrite Hq. naive_solver.
  - intros q w Hw. rewrite Hcl in Hw. simpl. destruct (decide (q = p)) as [->|Hne].
    + rewrite lookup_delete_eq. unfold has in Hw. rewrite decide_True in Hw by done. split_ands; [done|lia|lia].
    + rewrite lookup_delete_ne by done. unfold has in Hw. rewrite decide_False in Hw by congruence.
      assert (w = references s q) as -> by lia.
      split_ands; [intros Hq g Hg; by apply (i_count _ _ Hi)|apply (i_apart _ _ Hi)|apply (i_none _ _ Hi)].
  - intros u thu pcu Hne Hu Eu. pose proof (i_pc _ _ Hi u thu pcu Hu Eu) as Hpcu.
    assert (Hau : apart pcu <> Some p)
      by (by apply (apart_alone _ _ t u th thu _ pcu p Hi (not_eq_sym Hne) Ht Hu Epc Eu)).
    assert (Hne2 : forall q, linked L q -> q <> p) by (intros q Hq ->; done).
    assert (Hom : forall q, one pcu = Some q \/ many pcu = Some q -> q <> p).
    { intros q [Hq|Hq] ->; destruct (one_many_holds pcu p) as [?|Hh]; auto;
        (destruct (Hne2 p); [|done]; apply (pk_uses _ _ _ _ Hpcu); by destruct pcu). }
    destruct Hpcu. split; try done; simpl.
    + intros q Hq. destruct (pk_apart0 q Hq) as (Hn & g & Hg & Hu2). split; [done|]. exists g.
      by rewrite lookup_delete_ne by congruence.
    + intros q Hq. destruct (pk_one0 q Hq) as (g & Hg & Eg). exists g.
      rewrite lookup_delete_ne; [done|]. apply not_eq_sym, Hom. by left.
    + intros q Hq. destruct (pk_many0 q Hq) as (g & Hg & Eg). exists g.
      rewrite lookup_delete_ne; [done|]. apply not_eq_sym, Hom. by right.
    + apply (walk_ok_ext L (mem s)); [|done| |done].
      * intros q g Hq Hg. exists g. simpl. by rewrite lookup_delete_ne by (intros ->; done).
      * intros q -> (g & Hg & Eg). exists g. simpl in *. by rewrite lookup_delete_ne by congruence.
  - intros q Hq. by apply (i_refs _ _ Hi t th).
  - intros u thu q _ Hu. by apply (i_refs _ _ Hi u).
  - pose proof (i_load _ _ Hi). unfold load_of. rewrite Epc. simpl. lia.
Qed.

Lemma Forall2_insert_both {A B} (P : A -> B -> Prop) l k i x y : Forall2 P l k -> P x y ->
  Forall2 P (<[i := x]> l) (<[i := y]> k).
Proof. intros Hl Hxy. by apply Forall2_insert. Qed.

Lemma linked_insert L h l' p : (h < length L)%nat ->
  linked (<[h := l']> L) p <-> p ∈ l' \/ exists i l, i <> h /\ L !! i = Some l /\ p ∈ l.
Proof.
  intros Hh. split.
  - intros (i & l & Hl & Hp). destruct (decide (i = h)) as [->|Hne].
    + rewrite list_lookup_insert_eq in Hl by done. simplify_eq. by left.
    + rewrite list_lookup_insert_ne in Hl by done. right. eauto.
  - intros [Hp|(i & l & Hne & Hl & Hp)].
    + exists h, l'. by rewrite list_lookup_insert_eq.
    + exists i, l. by rewrite list_lookup_insert_ne.
Qed.

(** An object is in no other bucket than its own. *)
Lemma linked_bucket L m l p f : mem_ok L m -> objects m !! p = Some f -> L !! HASH (f_id f) = Some l ->
  linked L p <-> p ∈ l.
Proof.
  intros (_ & _ & H3 & _) Hf Hl. split; [|intros Hp; by exists (HASH (f_id f)), l].
  intros (i & l2 & Hl2 & Hp). destruct (H3 i l2 p Hl2 Hp) as (g & Hg & <- & _). congruence.
Qed.

(** Line 33: the object enters the table. *)
Lemma inv_link L s t th p f : inv L s -> threads s !! t = Some th -> here th = Some (alloc_head p) ->
  objects (mem s) !! p = Some f ->
  exists L', inv L' (set_thread t (Thread (refs th) (Some (alloc_flock p)))
    (set_fh (<[HASH (f_id f) := Some p]> (fh (mem s))) (mem s)) s).
Proof.
  intros Hi Ht Epc Hp. pose proof (i_mem _ _ Hi) as Hm. destruct Hm as (H1 & H2 & H3 & H4).
  destruct (i_pc _ _ Hi t th _ Ht Epc) as [_ Hap Hone _ _ (f0 & Hf0 & Enext)].
  destruct (Hap p eq_refl) as (Hnl & f1 & Hf1 & Hus). destruct (Hone p eq_refl) as (f2 & Hf2 & E1).
  simplify_eq. simpl in Hus. destruct (bucket_chain _ _ (f_id f) (i_mem _ _ Hi)) as (o & l & Ho & Hl & Hch).
  rewrite Ho in Enext. simplify_eq. exists (<[HASH (f_id f) := p :: l]> L).
  assert (Hlt : (HASH (f_id f) < length L)%nat) by (by eapply lookup_lt_Some).
  assert (Hlink : forall q, linked (<[HASH (f_id f) := p :: l]> L) q <-> q = p \/ linked L q).
  { intros q. rewrite linked_insert by done. rewrite elem_of_cons. unfold linked. split.
    - intros [[->|Hq]|(i & k & _ & Hk & Hq)]; eauto.
    - intros [->|(i & k & Hk & Hq)]; [by left; left|]. destruct (decide (i = HASH (f_id f))) as [->|]; [|eauto 6].
      left. right. congruence. }
  assert (Hcl : forall q, claims q (Thread (refs th) (Some (alloc_flock p))) = claims q th)
    by (intros q; unfold claims; by rewrite Epc).
  assert (Hhash : hashlock (mem s) = Some t)
    by (apply (i_hash _ _ Hi); exists th; by rewrite (hh_here _ _ Epc)).
  apply (inv_update L _ s t th); try done.
  - unfold mem_ok. split_ands; simpl.
    + apply Forall2_insert_both; [done|]. by econstructor.
    + by rewrite length_insert.
    + intros i k q Hk Hq. destruct (decide (i = HASH (f_id f))) as [->|Hne].
      * rewrite list_lookup_insert_eq in Hk by done. simplify_eq. apply elem_of_cons in Hq as [->|Hq]; [eauto|].
        by apply H3 with l.
      * rewrite list_lookup_insert_ne in Hk by done. by apply H3 with k.
    + intros i k Hk. destruct (decide (i = HASH (f_id f))) as [->|Hne].
      * rewrite list_lookup_insert_eq in Hk by done. simplify_eq. apply NoDup_cons. split; [|by eapply H4].
        intros Hpl. apply Hnl. by exists (HASH (f_id f)), l.
      * rewrite list_lookup_insert_ne in Hk by done. by eapply H4.
  - left. by rewrite (hh_here _ _ Epc).
  - intros q g Hq. simpl in Hq. unfold lock_change. rewrite (hf_here _ _ Epc). simpl. rewrite Hq. naive_solver.
  - intros q w Hw. rewrite Hcl in Hw. assert (w = references s q) as -> by lia. rewrite Hlink. split_ands.
    + simpl. intros [->|Hq] g Hg; [|by apply (i_count _ _ Hi)]. simplify_eq. rewrite E1.
      pose proof (i_apart _ _ Hi p Hnl). pose proof (sum_one (claims p) _ t th Ht).
      pose proof (claims_here p th _ Epc eq_refl). unfold references in *. lia.
    + intros Hn. apply (i_apart _ _ Hi). tauto.
    + apply (i_none _ _ Hi).
  - intros pc' [= <-]. split; simpl; try done. intros q [= <-]. apply Hlink. by left.
  - intros u thu pcu Hne Hu Eu. pose proof (i_pc _ _ Hi u thu pcu Hu Eu) as Hpcu.
    assert (Hau : apart pcu <> Some p)
      by (by apply (apart_alone _ _ t u th thu _ pcu p Hi (not_eq_sym Hne) Ht Hu Epc Eu)).
    assert (Hnh : holds_hash pcu = false)
      by (apply (other_nohash _ _ t u th thu pcu Hi (not_eq_sym Hne) Ht Hu Eu); by rewrite (hh_here _ _ Epc)).
    destruct Hpcu. split; try done.
    + intros q Hq. apply Hlink. right. auto.
    + intros q Hq. rewrite Hlink. destruct (pk_apart0 q Hq) as [Hn Hg]. split; [|done]. intros [->|?]; done.
    + by apply walk_ok_nohash.
  - intros q Hq. apply Hlink. right. by apply (i_refs _ _ Hi t th).
  - intros u thu q _ Hu Hq. apply Hlink. right. by apply (i_refs _ _ Hi u thu).
  - pose proof (i_load _ _ Hi). unfold load_of. rewrite Epc. simpl. lia.
Qed.

(** What makes a thread use an object of the table: a reference, the lock of the
    object, or the lock of the table. *)
Lemma uses_why pc p : uses pc = Some p ->
  ref_of pc = Some p \/ holds_foo pc = Some p \/ borrowed pc = Some p \/ holds_hash pc = true.
Proof. destruct pc; simpl; repeat case_match; naive_solver. Qed.

Lemma claims_refs p th : p ∈ refs th -> (1 <= tally p (refs th))%nat.
Proof. apply tally_in. Qed.

(** Lines 82 and 86: the object leaves the table. Nobody else uses it: there is
    one reference, and both locks are held. *)
Section unlink.
Context (L : list (list nat)) (s : sys) (t : nat) (th : thread) (pc : point) (p : nat) (f : foo).
Context (l l' : list nat) (m' : shared).
Hypothesis Hi : inv L s.
Hypothesis Ht : threads s !! t = Some th.
Hypothesis Epc : here th = Some pc.
Hypothesis Hh : holds_hash pc = true.
Hypothesis Hf : holds_foo pc = Some p.
Hypothesis Hr : ref_of pc = Some p.
Hypothesis Ho : one pc = Some p.
Hypothesis Ha : apart pc = None.
Hypothesis Hp : objects (mem s) !! p = Some f.
Hypothesis Hl : L !! HASH (f_id f) = Some l.
Hypothesis Hl' : forall q, q ∈ l' <-> q ∈ l /\ q <> p.
Hypothesis Hd : NoDup l'.
Hypothesis Hch : Forall2 (chain (objects m')) (fh m') (<[HASH (f_id f) := l']> L).
Hypothesis Hobj : forall q, match objects (mem s) !! q, objects m' !! q with
  | Some g, Some g' => f_count g' = f_count g /\ f_lock g' = f_lock g /\ f_id g' = f_id g
  | None, None => True
  | _, _ => False
  end.
Hypothesis Eh : hashlock m' = hashlock (mem s).
Let L' := <[HASH (f_id f) := l']> L.

Lemma unlink_new q g' : objects m' !! q = Some g' -> exists g, objects (mem s) !! q = Some g /\
  f_count g' = f_count g /\ f_lock g' = f_lock g /\ f_id g' = f_id g.
Proof. intros Hg. specialize (Hobj q). rewrite Hg in Hobj. destruct (objects (mem s) !! q); naive_solver. Qed.

Lemma unlink_old q g : objects (mem s) !! q = Some g -> exists g', objects m' !! q = Some g' /\
  f_count g' = f_count g /\ f_lock g' = f_lock g /\ f_id g' = f_id g.
Proof. intros Hg. specialize (Hobj q). rewrite Hg in Hobj. destruct (objects m' !! q); naive_solver. Qed.

Lemma unlink_lt : (HASH (f_id f) < length L)%nat.
Proof. by eapply lookup_lt_Some. Qed.

(** Membership, bucket by bucket and in the table. *)
Lemma unlink_bucket i k q : L' !! i = Some k -> q ∈ k -> q <> p /\ exists k', L !! i = Some k' /\ q ∈ k'.
Proof.
  intros Hk Hq. pose proof (i_mem _ _ Hi) as (_ & _ & H3 & _). unfold L' in Hk.
  destruct (decide (i = HASH (f_id f))) as [->|Hne].
  - rewrite list_lookup_insert_eq in Hk by apply unlink_lt. simplify_eq. apply Hl' in Hq as [? ?]. eauto.
  - rewrite list_lookup_insert_ne in Hk by done. split; [|eauto]. intros ->.
    destruct (H3 i k p Hk Hq) as (g & Hg & <- & _). congruence.
Qed.

Lemma unlink_linked q : linked L' q <-> linked L q /\ q <> p.
Proof.
  split.
  - intros (i & k & Hk & Hq). destruct (unlink_bucket i k q Hk Hq) as (Hne & k' & Hk' & Hq').
    split; [by exists i, k'|done].
  - intros [(i & k & Hk & Hq) Hne]. apply linked_insert; [apply unlink_lt|].
    destruct (decide (i = HASH (f_id f))) as [->|]; [|eauto 6]. left. apply Hl'. split; [congruence|done].
Qed.

Lemma unlink_mem : mem_ok L' m'.
Proof.
  pose proof (i_mem _ _ Hi) as (_ & H2 & H3 & H4). unfold mem_ok. split_ands; [done|by unfold L'; rewrite length_insert| |].
  - intros i k q Hk Hq. destruct (unlink_bucket i k q Hk Hq) as (_ & k' & Hk' & Hq').
    destruct (H3 i k' q Hk' Hq') as (g & Hg & Eg & Ug).
    destruct (unlink_old q g Hg) as (g' & Hg' & _ & El & Ei). exists g'. split; [done|]. unfold usable. by rewrite El, Ei.
  - intros i k Hk. unfold L' in Hk. destruct (decide (i = HASH (f_id f))) as [->|Hne].
    + rewrite list_lookup_insert_eq in Hk by apply unlink_lt. by simplify_eq.
    + rewrite list_lookup_insert_ne in Hk by done. by eapply H4.
Qed.

(** The reference of the thread is the only one. *)
Lemma unlink_references : linked L p /\ references s p = 1%nat.
Proof.
  pose proof (i_pc _ _ Hi t th pc Ht Epc) as Hpc.
  assert (Hpl : linked L p) by (apply Hpc; by destruct pc; simplify_eq/=). split; [done|].
  destruct (i_count _ _ Hi p f Hpl Hp) as [E _]. destruct (pk_one _ _ _ _ Hpc p Ho) as (f2 & Hf2 & E2).
  simplify_eq. lia.
Qed.

Lemma unlink_others u thu : u <> t -> threads s !! u = Some thu -> claims p thu = 0%nat.
Proof.
  intros Hne Hu. destruct unlink_references as [_ Hw]. assert (1 <= claims p th)%nat by (by eapply claims_here).
  pose proof (sum_two (claims p) _ t u th thu (not_eq_sym Hne) Ht Hu). unfold references in Hw. lia.
Qed.

Lemma unlink_mine : p ∉ refs th.
Proof.
  intros Hq. destruct unlink_references as [_ Hw]. pose proof (claims_refs p th Hq).
  pose proof (sum_one (claims p) _ t th Ht). unfold references, claims, has in *.
  rewrite Epc in *. simpl in *. rewrite Hr in *. rewrite decide_True in * by done. lia.
Qed.

(** The other threads are where they may be. *)
Lemma unlink_pc u thu pcu : u <> t -> threads s !! u = Some thu -> here thu = Some pcu ->
  pc_ok L' m' (refs thu) pcu.
Proof.
  intros Hne Hu Eu. pose proof (i_pc _ _ Hi u thu pcu Hu Eu) as Hpcu.
  assert (Hnh : holds_hash pcu = false)
    by (apply (other_nohash _ _ t u th thu pcu Hi (not_eq_sym Hne) Ht Hu Eu); by rewrite (hh_here _ _ Epc)).
  pose proof (unlink_others u thu Hne Hu) as H0. destruct Hpcu. split.
  - intros q Hq. apply unlink_linked. split; [auto|]. intros ->. destruct (uses_why pcu p Hq) as [Hy|[Hy|[Hy|Hy]]].
    + pose proof (claims_here p thu pcu Eu Hy). lia.
    + apply Hne. symmetry. apply (foo_alone _ _ t u th thu p Hi Ht Hu); [by rewrite (hf_here _ _ Epc)|by rewrite (hf_here _ _ Eu)].
    + pose proof (claims_refs p thu (pk_borrowed0 p Hy)). unfold claims in H0. lia.
    + congruence.
  - intros q Hq. rewrite unlink_linked. destruct (pk_apart0 q Hq) as (Hn & g & Hg & Ug). split; [tauto|].
    destruct (unlink_old q g Hg) as (g' & Hg' & _ & El & _). exists g'. unfold usable. by rewrite El.
  - intros q Hq. destruct (pk_one0 q Hq) as (g & Hg & Eg). destruct (unlink_old q g Hg) as (g' & Hg' & Ec & _).
    exists g'. split; [done|congruence].
  - intros q Hq. destruct (pk_many0 q Hq) as (g & Hg & Eg). destruct (unlink_old q g Hg) as (g' & Hg' & Ec & _).
    exists g'. split; [done|congruence].
  - done.
  - by apply walk_ok_nohash.
Qed.

Lemma inv_unlink : inv L' (set_thread t (Thread (refs th) (Some (rele_unhash p))) m' s).
Proof.
  destruct unlink_references as [Hpl Hw1].
  assert (Hcl : forall q, claims q (Thread (refs th) (Some (rele_unhash p))) = claims q th)
    by (intros q; unfold claims; rewrite Epc; simpl; by rewrite Hr).
  assert (Hhash : hashlock (mem s) = Some t)
    by (apply (i_hash _ _ Hi); exists th; by rewrite (hh_here _ _ Epc)).
  apply (inv_update L _ s t th); try done.
  - exact unlink_mem.
  - by rewrite Eh.
  - left. by rewrite (hh_here _ _ Epc).
  - intros q g' Hg'. destruct (unlink_new q g' Hg') as (g & Hg & _ & El & _). rewrite Hg. unfold lock_change.
    rewrite (hf_here _ _ Epc), Hf. unfold hf. simpl. destruct (decide (Some p = Some q)) as [[= <-]|Hne].
    + split; [|by left]. rewrite El. apply (i_flock _ _ Hi p g Hg). exists th. by rewrite (hf_here _ _ Epc).
    + rewrite El. naive_solver.
  - intros q w Hw. rewrite Hcl in Hw. assert (w = references s q) as -> by lia. rewrite unlink_linked. split_ands.
    + intros [Hq _] g' Hg'. destruct (unlink_new q g' Hg') as (g & Hg & -> & _). by apply (i_count _ _ Hi).
    + intros Hn. destruct (decide (q = p)) as [->|Hne]; [lia|]. apply (i_apart _ _ Hi). tauto.
    + intros Hq. apply (i_none _ _ Hi). specialize (Hobj q). rewrite Hq in Hobj. by destruct (objects (mem s) !! q).
  - intros pc' [= <-]. split; simpl; try done. intros q [= <-]. rewrite unlink_linked. split; [tauto|].
    destruct (unlink_old p f Hp) as (f' & Hf' & _ & El & _). exists f'. split; [done|]. unfold usable. rewrite El.
    right. exists t. apply (i_flock _ _ Hi p f Hp). exists th. by rewrite (hf_here _ _ Epc).
  - exact unlink_pc.
  - intros q Hq. apply unlink_linked. split; [by apply (i_refs _ _ Hi t th)|]. intros ->. by apply unlink_mine.
  - intros u thu q Hne Hu Hq. apply unlink_linked. split; [by apply (i_refs _ _ Hi u thu)|]. intros ->.
    pose proof (unlink_others u thu Hne Hu) as H0. pose proof (claims_refs p thu Hq). unfold claims in H0. lia.
  - pose proof (i_load _ _ Hi). unfold load_of. rewrite Epc. simpl. lia.
Qed.
End unlink.

(** *** Every step *)

(** Where a step leads: to a program point, or back with a reference. *)
Definition after (r : list nat) (o : point + option nat) : thread :=
  match o with inl pc => Thread r (Some pc) | inr g => Thread (option_list g ++ r) None end.
Definition hash_after (o : point + option nat) : bool := match o with inl pc => holds_hash pc | inr _ => false end.
Definition foo_after (o : point + option nat) : option nat := match o with inl pc => holds_foo pc | inr _ => None end.
Definition ref_after (o : point + option nat) : option nat := match o with inl pc => ref_of pc | inr g => g end.
Definition ok_after L m (r : list nat) (o : point + option nat) : Prop :=
  match o with inl pc => pc_ok L m r pc | inr g => forall p, g = Some p -> linked L p end.

Lemma hh_after r o : hh (after r o) = hash_after o.
Proof. by destruct o. Qed.
Lemma hf_after r o : hf (after r o) = foo_after o.
Proof. by destruct o. Qed.

Lemma tally_app p l1 l2 : tally p (l1 ++ l2) = (tally p l1 + tally p l2)%nat.
Proof. unfold tally. by rewrite filter_app, length_app. Qed.

Lemma claims_after q r o : claims q (after r o) = (tally q r + has q (ref_after o))%nat.
Proof.
  destruct o as [pc|g]; [done|]. unfold claims. simpl. rewrite tally_app. unfold has at 1. simpl.
  rewrite Nat.add_0_r, Nat.add_comm. f_equal. destruct g as [p|]; [|done]. unfold tally, has. simpl.
  destruct (decide (p = q)) as [->|]; [by rewrite filter_cons_True, decide_True|].
  rewrite filter_cons_False, decide_False by congruence. done.
Qed.

Lemma claims_at q th pc : here th = Some pc -> claims q th = (tally q (refs th) + has q (ref_of pc))%nat.
Proof. intros E. unfold claims. by rewrite E. Qed.

Lemma refs_after L s t th m o : inv L s -> threads s !! t = Some th -> ok_after L m (refs th) o ->
  forall p, p ∈ refs (after (refs th) o) -> linked L p.
Proof.
  intros Hi Ht Ho p. destruct o as [pc|g]; simpl; [by apply (i_refs _ _ Hi t th)|].
  rewrite elem_of_app. intros [Hp|Hp]; [|by apply (i_refs _ _ Hi t th)].
  destruct g; simpl in Hp; [|by apply elem_of_nil in Hp]. apply list_elem_of_singleton in Hp as ->. by apply Ho.
Qed.

Lemma load_after L s th pc o : inv L s -> here th = Some pc ->
  Z.of_nat (load s + load_of (after (refs th) o)) <= INT_MAX + Z.of_nat (load_of th).
Proof.
  intros Hi E. pose proof (i_load _ _ Hi).
  assert (load_of (after (refs th) o) <= load_of th)%nat; [|lia].
  unfold load_of. rewrite E. destruct o as [pc'|[g|]]; simpl; lia.
Qed.

(** Steps that change no object. *)
Lemma inv_after L s t th pc o m' : inv L s -> threads s !! t = Some th -> here th = Some pc ->
  objects m' = objects (mem s) -> fh m' = fh (mem s) ->
  hashlock m' = (if hash_after o then Some t else if holds_hash pc then None else hashlock (mem s)) ->
  (hash_after o = true -> holds_hash pc = true \/ hashlock (mem s) = None) ->
  foo_after o = holds_foo pc -> ref_after o = ref_of pc -> ok_after L (mem s) (refs th) o ->
  inv L (set_thread t (after (refs th) o) m' s).
Proof.
  intros Hi Ht Epc Eo Ef Eh Eh2 Efoo Eref Hok.
  apply (inv_same L s t th); try done; rewrite ?hh_after, ?hf_after, ?(hh_here _ _ Epc), ?(hf_here _ _ Epc); try done.
  - intros p. by rewrite claims_after, (claims_at _ _ _ Epc), Eref.
  - intros pc' E. by destruct o; simplify_eq/=.
  - by eapply refs_after.
  - by eapply load_after.
Qed.

Lemma inv_silent L s t th pc o : inv L s -> threads s !! t = Some th -> here th = Some pc ->
  hash_after o = holds_hash pc -> foo_after o = holds_foo pc -> ref_after o = ref_of pc ->
  ok_after L (mem s) (refs th) o -> inv L (set_thread t (after (refs th) o) (mem s) s).
Proof.
  intros Hi Ht Epc Eh Efoo Eref Hok. apply (inv_after L s t th pc); try done; rewrite Eh; [|tauto].
  destruct (holds_hash pc) eqn:E; [|done]. apply (i_hash _ _ Hi). exists th. by rewrite (hh_here _ _ Epc).
Qed.

(** Steps that lock, unlock or count one object. *)
Lemma inv_object L s t th pc o p f f' : inv L s -> threads s !! t = Some th -> here th = Some pc ->
  objects (mem s) !! p = Some f -> f_next f' = f_next f \/ ~ linked L p -> f_id f' = f_id f ->
  hash_after o = holds_hash pc -> lock_change t th (after (refs th) o) p (Some f) f' ->
  (forall q, q <> p -> foo_after o = Some q <-> holds_foo pc = Some q) ->
  (forall q, q <> p -> ref_after o = Some q <-> ref_of pc = Some q) ->
  (linked L p -> usable f' /\
     f_count f' + Z.of_nat (has p (ref_of pc)) = f_count f + Z.of_nat (has p (ref_after o)) /\
     (ref_of pc = Some p -> ref_after o = Some p \/ f_count f <> 1)) ->
  (~ linked L p -> apart pc = Some p /\ (ref_after o = Some p -> ref_of pc = Some p)) ->
  (f_count f' = f_count f \/ holds_foo pc = Some p) ->
  ok_after L (put_foo p f' (mem s)) (refs th) o ->
  inv L (set_thread t (after (refs th) o) (put_foo p f' (mem s)) s).
Proof.
  intros Hi Ht Epc Hp En Ei Eh Hl Efoo Eref Hlink Hun Hc Hok.
  assert (Hhas : forall q, q <> p -> has q (ref_after o) = has q (ref_of pc)).
  { intros q Hq. unfold has. specialize (Eref q Hq). repeat case_decide; tauto. }
  apply (inv_put L s t th pc _ p f); try done;
    rewrite ?hh_after, ?hf_after, ?(hh_here _ _ Epc), ?(hf_here _ _ Epc); try done.
  - intros q Hq. by rewrite claims_after, (claims_at _ _ _ Epc), Hhas.
  - intros Hlp. destruct (Hlink Hlp) as (Hu & E & Hone). rewrite claims_after, (claims_at _ _ _ Epc).
    split_ands; [done|lia|]. destruct (i_count _ _ Hi p f Hlp Hp) as [Ec Hge].
    pose proof (sum_one (claims p) _ t th Ht) as Hs. rewrite (claims_at _ _ _ Epc) in Hs. unfold references in *.
    unfold has in *. repeat case_decide; try lia.
    destruct Hone as [?|Hne]; [done|done|]. lia.
  - intros Hnl. destruct (Hun Hnl) as [Ha Hr]. split; [done|]. rewrite claims_after, (claims_at _ _ _ Epc).
    unfold has. repeat case_decide; try lia. tauto.
  - intros pc' E. by destruct o; simplify_eq/=.
  - by eapply refs_after.
  - by eapply load_after.
Qed.

Lemma has_some p : has p (Some p) = 1%nat.
Proof. unfold has. by rewrite decide_True. Qed.
Lemma has_none p : has p None = 0%nat.
Proof. done. Qed.

Definition go (o : point + option nat) m : outcome := match o with inl pc => Next pc m | inr g => Back g m end.
Definition good s t th (out : outcome) : Prop :=
  match out with
  | Blocked => True
  | Bad => False
  | Next pc m => exists L, inv L (set_thread t (after (refs th) (inl pc)) m s)
  | Back g m => exists L, inv L (set_thread t (after (refs th) (inr g)) m s)
  end.

Section run.
Context L s t th pc (Hi : inv L s) (Ht : threads s !! t = Some th) (Epc : here th = Some pc).

Lemma good_go o m : inv L (set_thread t (after (refs th) o) m s) -> good s t th (go o m).
Proof. intros H. destruct o; by exists L. Qed.

Lemma here_ok : pc_ok L (mem s) (refs th) pc.
Proof. by apply (i_pc _ _ Hi t). Qed.

Lemma good_silent o : hash_after o = holds_hash pc -> foo_after o = holds_foo pc -> ref_after o = ref_of pc ->
  ok_after L (mem s) (refs th) o -> good s t th (go o (mem s)).
Proof. intros. by eapply good_go, inv_silent. Qed.

Lemma good_lock_hash pc' : holds_hash pc = false -> holds_hash pc' = true -> holds_foo pc' = holds_foo pc ->
  ref_of pc' = ref_of pc -> pc_ok L (mem s) (refs th) pc' -> good s t th (lock_hash t (mem s) pc').
Proof.
  intros H1 H2 H3 H4 Hok. unfold lock_hash. destruct (hashlock (mem s)) eqn:E; [done|].
  apply (good_go (inl pc')). eapply inv_after; try done; simpl; rewrite ?H2; auto.
Qed.

Lemma good_unlock_hash o k : holds_hash pc = true -> hash_after o = false -> foo_after o = holds_foo pc ->
  ref_after o = ref_of pc -> ok_after L (mem s) (refs th) o -> (forall m, k m = go o m) ->
  good s t th (unlock_hash t (mem s) k).
Proof.
  intros H1 H2 H3 H4 Hok Hk. unfold unlock_hash. rewrite Hk. rewrite decide_True.
  - apply good_go. eapply inv_after; try done; simpl; rewrite ?H2, ?H1; auto.
  - apply (i_hash _ _ Hi). exists th. by rewrite (hh_here _ _ Epc).
Qed.

Lemma linked_access p k : linked L p ->
  (forall f, objects (mem s) !! p = Some f -> usable f -> good s t th (k f)) ->
  good s t th (access (mem s) p k).
Proof.
  intros Hp Hk. destruct (linked_foo _ _ _ (i_mem _ _ Hi) Hp) as (f & l & Hf & Hu & _).
  unfold access. rewrite Hf. by apply Hk.
Qed.

Lemma held_lock p f : holds_foo pc = Some p -> objects (mem s) !! p = Some f -> f_lock f = Held t.
Proof. intros Hp Hf. apply (i_flock _ _ Hi p f Hf). exists th. by rewrite (hf_here _ _ Epc). Qed.

Lemma good_lock_foo p pc' : linked L p -> holds_foo pc = None -> holds_foo pc' = Some p ->
  holds_hash pc' = holds_hash pc -> ref_of pc' = ref_of pc -> apart pc' = None ->
  pc_ok L (mem s) (refs th) pc' -> good s t th (lock_foo t (mem s) p pc').
Proof.
  intros Hp H1 H2 H3 H4 Ha Hok. unfold lock_foo. apply linked_access; [done|]. intros f Hf Hu.
  destruct (f_lock f) eqn:El; [by destruct Hu as [?|[? ?]]; congruence| |done|by destruct Hu as [?|[? ?]]; congruence].
  apply (good_go (inl pc')). eapply (inv_object L s t th pc _ p f); try done; simpl; rewrite ?H4.
  - by left.
  - unfold lock_change. rewrite (hf_here _ pc') by done. rewrite decide_True by done. split; [done|].
    right. exists f. split; [done|]. intros u. by rewrite El.
  - intros q Hq. rewrite H1, H2. split; congruence.
  - intros q Hq. simpl. rewrite ?H4. tauto.
  - intros _. split; [right; by exists t|]. split; [done|tauto].
  - by left.
  - eapply pc_ok_put; try done; [by rewrite Ha|by left].
Qed.

Lemma good_unlock_foo p o k : holds_foo pc = Some p -> linked L p \/ apart pc = Some p -> foo_after o = None ->
  hash_after o = holds_hash pc -> ref_after o = ref_of pc ->
  (forall f, objects (mem s) !! p = Some f -> f_lock f = Held t ->
     ok_after L (put_foo p (set_lock Unlocked f) (mem s)) (refs th) o) -> (forall m, k m = go o m) ->
  good s t th (unlock_foo t (mem s) p k).
Proof.
  intros Hh Hor H1 H2 H3 Hok Hk. destruct (hf_object _ _ _ _ p Hi Ht) as [f Hf].
  { by rewrite (hf_here _ _ Epc). }
  pose proof (held_lock p f Hh Hf) as El. unfold unlock_foo, access. rewrite Hf, decide_True by done. rewrite Hk.
  apply good_go. eapply (inv_object L s t th pc o p f); try done; rewrite ?H3; try (by left); try tauto.
  - unfold lock_change. rewrite hf_after, H1, decide_False by done.
    rewrite (hf_here _ _ Epc), Hh, decide_True by done. done.
  - intros q Hq. rewrite H1, Hh. split; congruence.
  - intros _. split; [by left|]. simpl. tauto.
  - by apply Hok.
Qed.

Lemma ok_unlock p o f : ok_after L (mem s) (refs th) o -> objects (mem s) !! p = Some f ->
  (forall pc', o = inl pc' -> apart pc' = None) ->
  ok_after L (put_foo p (set_lock Unlocked f) (mem s)) (refs th) o.
Proof.
  intros Hok Hf Ha. destruct o as [pc'|g]; [|done]. simpl. eapply pc_ok_put; try done; [by rewrite (Ha pc')|by left].
Qed.

Lemma good_count p d pc' : linked L p -> holds_foo pc = Some p -> holds_foo pc' = Some p ->
  holds_hash pc' = holds_hash pc -> apart pc' = None -> one pc' = None -> many pc' = None ->
  (d = 1 /\ ref_of pc = None /\ ref_of pc' = Some p \/
   d = -1 /\ ref_of pc = Some p /\ ref_of pc' = None /\ many pc = Some p) ->
  pc_ok L (mem s) (refs th) pc' -> good s t th (add_count (mem s) p d pc').
Proof.
  intros Hp H1 H2 H3 Ha Ho Hm Hd Hok. unfold add_count. apply linked_access; [done|]. intros f Hf Hu.
  destruct (i_count _ _ Hi p f Hp Hf) as [Ec Hge].
  assert (Hload : (claims p th <= load_of th)%nat /\ (ref_of pc = None -> claims p th < load_of th)%nat).
  { rewrite (claims_at _ _ _ Epc). unfold load_of. rewrite Epc.
    assert (tally p (refs th) <= length (refs th))%nat by (apply length_filter).
    unfold has. case_decide; split; try lia; congruence. }
  assert (Hall : (references s p + load_of th <= load s + claims p th)%nat).
  { unfold references, load. pose proof (sum_insert (claims p) _ _ _ idle Ht).
    pose proof (sum_insert load_of _ _ _ idle Ht).
    assert (sum_list_with (claims p) (<[t:=idle]> (threads s)) <= sum_list_with load_of (<[t:=idle]> (threads s)))%nat.
    { apply sum_le. intros u x _. unfold claims, load_of, has.
      assert (tally p (refs x) <= length (refs x))%nat by (apply length_filter).
      destruct (here x); simpl; repeat case_decide; lia. }
    assert (claims p idle = 0%nat) by done. assert (load_of idle = 0%nat) by done. lia. }
  pose proof (i_load _ _ Hi) as Hil.
  assert (Hin : in_int (f_count f + d) = true).
  { apply in_int_spec. unfold INT_MIN, INT_MAX in *. destruct Hd as [(-> & Hr & _)|(-> & _)]; [|lia].
    destruct Hload as [_ Hlt]. specialize (Hlt Hr). lia. }
  rewrite Hin. apply (good_go (inl pc')). eapply (inv_object L s t th pc _ p f); try done; simpl.
  - by left.
  - unfold lock_change. rewrite (hf_here _ pc') by done. rewrite H2, decide_True by done.
    split; [exact (held_lock p f H1 Hf)|]. left. by rewrite (hf_here _ _ Epc).
  - intros q Hq. rewrite H1, H2. done.
  - intros q Hq. destruct Hd as [(_ & -> & ->)|(_ & -> & -> & _)]; split; congruence.
  - intros _. split; [right; exists t; exact (held_lock p f H1 Hf)|].
    destruct Hd as [(-> & -> & ->)|(-> & -> & -> & Hmany)]; rewrite has_some, has_none.
    + split; [lia|done].
    + split; [lia|]. intros _. right. destruct (pk_many _ _ _ _ here_ok p Hmany) as (g & Hg & Eg). congruence.
  - by right.
  - eapply pc_ok_put; try done; [by rewrite Ha|right; by rewrite Ho, Hm].
Qed.


End run.

Lemma pair_permutation (l1 l2 : list nat) q p : l1 ++ q :: p :: l2 ≡ₚ p :: (l1 ++ q :: l2).
Proof. by rewrite Permutation_swap, <-Permutation_middle. Qed.
Lemma NoDup_pair (l1 l2 : list nat) q p : NoDup (l1 ++ q :: p :: l2) -> p ∉ l1 ++ q :: l2 /\ NoDup (l1 ++ q :: l2).
Proof. rewrite pair_permutation. apply NoDup_cons. Qed.
Lemma elem_of_pair (l1 l2 : list nat) q p r : r ∈ l1 ++ q :: p :: l2 <-> r = p \/ r ∈ l1 ++ q :: l2.
Proof. by rewrite pair_permutation, elem_of_cons. Qed.

(** The facts of the next program point follow from those of this one. *)
Ltac next_point := split; simpl; try done; try (intros ? [= <-]; auto).

Section step.
Context L s t th (Hi : inv L s) (Ht : threads s !! t = Some th).

Lemma run_alloc a pc : here th = Some pc -> match pc with
  | alloc_malloc _ | alloc_init _ | alloc_lock _ | alloc_next _ | alloc_head _ | alloc_flock _
  | alloc_unlock _ | alloc_funlock _ => True | _ => False end -> good s t th (step_at t (mem s) a pc).
Proof.
  intros Epc Hc. pose proof (here_ok _ _ _ _ _ Hi Ht Epc) as Hpc. pose proof Hpc as [Hu Hap Ho Hm Hb Hw].
  destruct pc; try done; clear Hc; simpl.
  - destruct a as [p|].
    + destruct (decide _); [|done]. exists L. by eapply inv_malloc.
    + by apply (good_silent _ _ _ _ _ Hi Ht Epc (inr None)).
  - destruct (Hap fp eq_refl) as (Hn & f & Hf & El). destruct (Ho fp eq_refl) as (f' & Hf' & Ec). simplify_eq.
    unfold access. rewrite Hf. destruct a; [|exists L; by eapply inv_free].
    apply (good_go L _ _ _ (inl (alloc_lock fp))). eapply (inv_object L s t th _ _ fp f); try done; simpl; try (by left).
    + unfold lock_change, hf. rewrite Epc. simpl. naive_solver congruence.
    + split; simpl; try done; intros ? [= <-]; [|rewrite lookup_insert_eq; eauto].
      split; [done|]. rewrite lookup_insert_eq. eexists. split; [done|by left].
  - apply (good_lock_hash _ _ _ _ _ Hi Ht Epc); try done; next_point; auto.
  - destruct (Hap fp eq_refl) as (Hn & f & Hf & Hus). destruct (Ho fp eq_refl) as (f' & Hf' & Ec). simplify_eq.
    destruct (bucket_chain _ _ (f_id f) (i_mem _ _ Hi)) as (o & l & Ho2 & _).
    unfold access, bucket. rewrite Hf, Ho2.
    apply (good_go L _ _ _ (inl (alloc_head fp))). eapply (inv_object L s t th _ _ fp f); try done; simpl; try (by left); try (by right).
    + unfold lock_change, hf. rewrite Epc. simpl. naive_solver.
    + split; simpl; try done.
      * intros ? [= <-]. split; [done|]. rewrite lookup_insert_eq. eauto.
      * intros ? [= <-]. rewrite lookup_insert_eq. eauto.
      * rewrite lookup_insert_eq. exists (set_next o f). eauto.
  - destruct (Hap fp eq_refl) as (Hn & f & Hf & Hus).
    destruct (bucket_chain _ _ (f_id f) (i_mem _ _ Hi)) as (o & l & Ho2 & _).
    unfold access, bucket. rewrite Hf, Ho2. destruct (inv_link _ _ _ _ _ _ Hi Ht Epc Hf) as [L' HL']. by exists L'.
  - apply (good_lock_foo _ _ _ _ _ Hi Ht Epc); try done; [by apply Hu|..]; next_point; auto.
  - apply (good_unlock_hash _ _ _ _ _ Hi Ht Epc (inl (alloc_funlock fp))); try done; simpl; next_point; auto.
  - apply (good_unlock_foo _ _ _ _ _ Hi Ht Epc fp (inr (Some fp))); try done; left; by apply Hu.
Qed.

Lemma run_hold a pc : here th = Some pc -> match pc with hold_lock _ _ | hold_count _ _ | hold_unlock _ _ => True | _ => False end ->
  good s t th (step_at t (mem s) a pc).
Proof.
  intros Epc Hc. pose proof (here_ok _ _ _ _ _ Hi Ht Epc) as Hpc. pose proof Hpc as [Hu Hap Ho Hm Hb Hw].
  destruct pc; try done; clear Hc; simpl; pose proof (Hu fp eq_refl) as Hl.
  - apply (good_lock_foo _ _ _ _ _ Hi Ht Epc); try done; destruct found; next_point; auto.
  - apply (good_count _ _ _ _ _ Hi Ht Epc); try done; [by left|..]; destruct found; next_point; auto.
  - apply (good_unlock_foo _ _ _ _ _ Hi Ht Epc fp (match found with Some id => inl (find_unlock id (Some fp)) | None => inr (Some fp) end));
      try (by destruct found); [by left|].
    intros f Hf Hlk. eapply ok_unlock; [|done|by destruct found; intros ? [= <-]].
    destruct found; simpl; [next_point|intros ? [= <-]]; auto.
Qed.

Lemma run_find a pc : here th = Some pc -> match pc with
  | find_lock _ | find_head _ | find_test _ _ | find_next _ _ | find_unlock _ _ => True | _ => False end ->
  good s t th (step_at t (mem s) a pc).
Proof.
  intros Epc Hc. pose proof (here_ok _ _ _ _ _ Hi Ht Epc) as Hpc. pose proof Hpc as [Hu Hap Ho Hm Hb Hw].
  destruct pc; try done; clear Hc; simpl.
  - apply (good_lock_hash _ _ _ _ _ Hi Ht Epc); try done.
  - destruct (bucket_chain _ _ id (i_mem _ _ Hi)) as (o & l & Ho2 & Hl & Hch). unfold bucket. rewrite Ho2.
    apply (good_silent _ _ _ _ _ Hi Ht Epc (inl (find_test id o))); try done; simpl; split; simpl; try done.
    + intros p Hp. destruct o; simplify_eq. inversion Hch; simplify_eq. exists (HASH id). eexists. split; [done|by left].
    + exists [], l. split; [done|]. split; [by eapply foo_chain_head|done].
  - destruct Hw as (l1 & l2 & Hl & Eh & Hlack). destruct fp as [p|].
    + apply (linked_access _ _ _ _ Hi); [by apply Hu|]. intros f Hf _. destruct l2 as [|q l2]; simplify_eq/=.
      destruct (Z.eqb_spec (f_id f) id) as [E|Hne].
      * apply (good_silent _ _ _ _ _ Hi Ht Epc (inl (hold_lock p (Some id)))); try done; simpl; next_point; auto; by exists f.
      * apply (good_silent _ _ _ _ _ Hi Ht Epc (inl (find_next id p))); try done; simpl; split; simpl; try done.
        exists l1, l2. split; [done|]. apply Forall_app. split; [done|]. constructor; [|done]. by exists f.
    + destruct l2; [|done]. apply (good_silent _ _ _ _ _ Hi Ht Epc (inl (find_unlock id None))); try done. simpl.
      split; simpl; try done. exists l1. by rewrite app_nil_r in Hl.
  - destruct Hw as (l1 & l2 & Hl & Hlack).
    destruct (bucket_chain _ _ id (i_mem _ _ Hi)) as (o & l & Ho2 & Hl' & Hch). simplify_eq.
    apply chain_app in Hch. inversion Hch as [|? f ? Hf Hch2]; simplify_eq.
    unfold access. rewrite Hf.
    apply (good_silent _ _ _ _ _ Hi Ht Epc (inl (find_test id (f_next f)))); try done. simpl. split; simpl; try done.
    + intros q Hq. destruct (f_next f) eqn:En; simplify_eq. inversion Hch2; simplify_eq.
      exists (HASH id). eexists. split; [done|]. set_solver.
    + exists (l1 ++ [fp]), l2. rewrite <-app_assoc. split; [done|]. split; [by eapply foo_chain_head|done].
  - apply (good_unlock_hash _ _ _ _ _ Hi Ht Epc (inr fp)); try done. { by destruct fp. } intros p ->. by apply Hu.
Qed.


(** The list of the bucket of an object in the table. *)
Lemma linked_in_bucket p : linked L p -> exists f o l, objects (mem s) !! p = Some f /\
  fh (mem s) !! HASH (f_id f) = Some o /\ L !! HASH (f_id f) = Some l /\
  chain (objects (mem s)) o l /\ p ∈ l /\ NoDup l.
Proof.
  intros Hp. destruct (linked_foo _ _ _ (i_mem _ _ Hi) Hp) as (f & l & Hf & _ & Hl & Hpl & Hd).
  destruct (bucket_chain _ _ (f_id f) (i_mem _ _ Hi)) as (o & l' & Ho & Hl' & Hch). simplify_eq.
  exists f, o, l. split_ands; done.
Qed.

Lemma same_objects q : match objects (mem s) !! q, objects (mem s) !! q with
  | Some g, Some g' => f_count g' = f_count g /\ f_lock g' = f_lock g /\ f_id g' = f_id g
  | None, None => True | _, _ => False end.
Proof. by destruct (objects (mem s) !! q). Qed.

(** Line 82: the object is the first of its bucket. *)
Lemma run_sethead a p : here th = Some (rele_sethead p) -> good s t th (step_at t (mem s) a (rele_sethead p)).
Proof.
  intros Epc. pose proof (here_ok _ _ _ _ _ Hi Ht Epc) as Hpc. pose proof Hpc as [Hu _ _ _ _ (f & l & Hf & Hl)].
  destruct (bucket_chain _ _ (f_id f) (i_mem _ _ Hi)) as (o & l' & Ho & Hl' & Hch). simplify_eq.
  pose proof (i_mem _ _ Hi) as (H1 & _ & _ & H4). apply H4 in Hl as Hd. apply NoDup_cons in Hd as [Hn Hd].
  simpl. unfold access, bucket. rewrite Hf, Ho. exists (<[HASH (f_id f) := l]> L).
  eapply (inv_unlink L s t th (rele_sethead p) p f (p :: l) l); try done.
  - intros q. rewrite elem_of_cons. split; [|naive_solver]. intros Hq. split; [by right|]. by intros ->.
  - apply Forall2_insert_both; [done|]. inversion Hch; simplify_eq. done.
  - apply same_objects.
Qed.

(** Line 86: the object follows [q]. *)
Lemma run_unlink a p q : here th = Some (rele_unlink p q) -> good s t th (step_at t (mem s) a (rele_unlink p q)).
Proof.
  intros Epc. pose proof (here_ok _ _ _ _ _ Hi Ht Epc) as Hpc. pose proof Hpc as [Hu _ _ _ _ (f & l1 & l2 & Hf & Hl)].
  destruct (bucket_chain _ _ (f_id f) (i_mem _ _ Hi)) as (o & l' & Ho & Hl' & Hch). simplify_eq.
  pose proof (i_mem _ _ Hi) as (H1 & H2 & H3 & H4). apply H4 in Hl as Hd.
  destruct (H3 _ _ q Hl) as (g & Hg & Eg & _); [set_solver|].
  apply NoDup_pair in Hd as Hd2. destruct Hd2 as [Hp Hd2].
  simpl. unfold access. rewrite Hf, Hg. exists (<[HASH (f_id f) := l1 ++ q :: l2]> L).
  eapply (inv_unlink L s t th (rele_unlink p q) p f (l1 ++ q :: p :: l2)); try done.
  - intros r. rewrite elem_of_pair. split; [|naive_solver]. intros Hr. split; [by right|]. by intros ->.
  - simpl. apply (Forall2_same_length_lookup_2 _ _ _); [rewrite length_insert; by eapply Forall2_length|].
    intros i o' k Ho' Hk. destruct (decide (i = HASH (f_id f))) as [->|Hne].
    + rewrite list_lookup_insert_eq in Hk by (by eapply lookup_lt_Some). simplify_eq. by apply foo_chain_unlink with p.
    + rewrite list_lookup_insert_ne in Hk by done. apply chain_other; [by apply (Forall2_lookup_lr _ _ _ _ _ _ H1 Ho' Hk)|].
      intros Hq. destruct (H3 i k q Hk Hq) as (g' & Hg' & <- & _). simplify_eq.
  - intros r. simpl. destruct (decide (r = q)) as [->|Hne].
    + by rewrite lookup_insert_eq, Hg.
    + rewrite lookup_insert_ne by done. apply same_objects.
Qed.

(** Line 90. *)
Lemma run_destroy a p : here th = Some (rele_destroy p) -> good s t th (step_at t (mem s) a (rele_destroy p)).
Proof.
  intros Epc. destruct (here_ok _ _ _ _ _ Hi Ht Epc) as [_ Hap _ _ _ _].
  destruct (Hap p eq_refl) as (Hn & f & Hf & Hu). simpl in Hu.
  assert (El : f_lock f = Unlocked).
  { destruct Hu as [?|[u El]]; [done|]. exfalso. apply (i_flock _ _ Hi p f Hf) in El as (thu & Hu & Ehu).
    unfold hf in Ehu. destruct (here thu) as [pcu|] eqn:Eu; [|done]. simpl in Ehu.
    destruct (decide (u = t)) as [->|Hne]; [simplify_eq|].
    assert (uses pcu = Some p \/ apart pcu = Some p) as [Hy|Hy] by (destruct pcu; simplify_eq/=; auto).
    - apply Hn. by apply (i_pc _ _ Hi u thu pcu Hu Eu).
    - by apply (apart_alone _ _ t u th thu _ pcu p Hi (not_eq_sym Hne) Ht Hu Epc Eu). }
  simpl. unfold access. rewrite Hf, decide_True by done.
  apply (good_go L _ _ _ (inr None)). eapply (inv_object L s t th _ _ p f); try done; simpl; try (by left).
  - unfold lock_change, hf. rewrite Epc. simpl. intros u. split; [done|]. intros (g & [= <-] & ?). congruence.
  - intros q Hq. split; congruence.
Qed.

Lemma run_rele a pc : here th = Some pc -> match pc with
  | rele_lock _ | rele_test _ | rele_again _ | rele_hash _ | rele_relock _ | rele_retest _ | rele_less _
  | rele_funlock _ | rele_unlock _ | rele_head _ | rele_walk _ _ | rele_unhash _ | rele_unlast _
  | rele_count _ | rele_last _ => True | _ => False end -> good s t th (step_at t (mem s) a pc).
Proof.
  intros Epc Hc. pose proof (here_ok _ _ _ _ _ Hi Ht Epc) as Hpc. pose proof Hpc as [Hu Hap Ho Hm Hb Hw].
  destruct pc; try done; clear Hc; simpl.
  - apply (good_lock_foo _ _ _ _ _ Hi Ht Epc); try done; [by apply Hu|..]; next_point.
  - apply (linked_access _ _ _ _ Hi); [by apply Hu|]. intros f Hf _. destruct (Z.eqb_spec (f_count f) 1).
    + apply (good_silent _ _ _ _ _ Hi Ht Epc (inl (rele_again fp))); try done; simpl; next_point.
    + apply (good_silent _ _ _ _ _ Hi Ht Epc (inl (rele_count fp))); try done; simpl; next_point; eauto.
  - apply (good_unlock_foo _ _ _ _ _ Hi Ht Epc fp (inl (rele_hash fp))); try done; left; by apply Hu.
  - apply (good_lock_hash _ _ _ _ _ Hi Ht Epc); try done; next_point.
  - apply (good_lock_foo _ _ _ _ _ Hi Ht Epc); try done; [by apply Hu|..]; next_point.
  - apply (linked_access _ _ _ _ Hi); [by apply Hu|]. intros f Hf _. destruct (Z.eqb_spec (f_count f) 1).
    + apply (good_silent _ _ _ _ _ Hi Ht Epc (inl (rele_head fp))); try done; simpl; next_point; eauto.
    + apply (good_silent _ _ _ _ _ Hi Ht Epc (inl (rele_less fp))); try done; simpl; next_point; eauto.
  - apply (good_count _ _ _ _ _ Hi Ht Epc); try done; [by apply Hu|by right].
  - apply (good_unlock_foo _ _ _ _ _ Hi Ht Epc fp (inl (rele_unlock fp))); try done; left; by apply Hu.
  - apply (good_unlock_hash _ _ _ _ _ Hi Ht Epc (inr None)); try done.
  - destruct (linked_in_bucket fp) as (f & o & l & Hf & Ho2 & Hl & Hch & Hp & Hd); [by apply Hu|].
    unfold access, bucket. rewrite Hf, Ho2. destruct l as [|q l]; [by apply elem_of_nil in Hp|].
    inversion Hch as [|? g ? Hg Hch2]; simplify_eq. destruct (decide (q = fp)) as [->|Hne].
    + apply (good_silent _ _ _ _ _ Hi Ht Epc (inl (rele_sethead fp))); try done; simpl; next_point; eauto.
    + apply (good_silent _ _ _ _ _ Hi Ht Epc (inl (rele_walk fp q))); try done; simpl; next_point; eauto.
      apply elem_of_cons in Hp as [->|Hp]; [done|]. exists f, [], l. split_ands; done.
  - destruct Hw as (f & l1 & l2 & Hf & Hl & Hp).
    destruct (bucket_chain _ _ (f_id f) (i_mem _ _ Hi)) as (o & l & Ho2 & Hl' & Hch). simplify_eq.
    apply chain_app in Hch. inversion Hch as [|? g ? Hg Hch2]; simplify_eq. unfold access. rewrite Hg.
    apply foo_chain_head in Hch2 as Eh. destruct (decide (f_next g = Some fp)) as [En|Hne].
    + apply (good_silent _ _ _ _ _ Hi Ht Epc (inl (rele_unlink fp tfp))); try done; simpl; next_point; eauto.
      rewrite En in Eh. destruct l2 as [|r l2]; simplify_eq/=. eauto.
    + destruct l2 as [|r l2]; [by apply elem_of_nil in Hp|]. simpl in Eh. rewrite <-Eh.
      apply (good_silent _ _ _ _ _ Hi Ht Epc (inl (rele_walk fp r))); try done; simpl; next_point; eauto.
      exists f, (l1 ++ [tfp]), l2. rewrite <-app_assoc. split_ands; [done..|].
      apply elem_of_cons in Hp as [->|?]; [congruence|done].
  - apply (good_unlock_hash _ _ _ _ _ Hi Ht Epc (inl (rele_unlast fp))); try done; simpl; next_point.
  - apply (good_unlock_foo _ _ _ _ _ Hi Ht Epc fp (inl (rele_destroy fp))); try done; [by right|].
    intros f Hf _. destruct (Hap fp eq_refl) as (Hn & _). split; simpl; try done. intros ? [= <-]. split; [done|].
    rewrite lookup_insert_eq. eexists. split; [done|by left].
  - apply (good_count _ _ _ _ _ Hi Ht Epc); try done; [by apply Hu|by right].
  - apply (good_unlock_foo _ _ _ _ _ Hi Ht Epc fp (inr None)); try done; left; by apply Hu.
Qed.

Lemma run_good a pc : here th = Some pc -> good s t th (step_at t (mem s) a pc).
Proof.
  intros E. destruct pc; first [by apply run_alloc|by apply run_hold|by apply run_find|by apply run_sethead
    |by apply run_unlink|by apply run_destroy|by apply run_rele].
Qed.
End step.
