(* ===== verification/FooTableTheorems.v ===== *)
(** FooTableTheorems: what holds in every state that threads sharing the table of
    FooTable can reach: safety, counting, search, and that all calls return. *)
From stdpp Require Import gmap list.
From S2P Require Import Prelude FooTable FooTableProofs.

Implicit Types (L : list (list nat)) (m : shared) (s : sys) (th : thread) (pc : point).

(** ** Reachable states *)

Lemma inv_call L s t c s' : inv L s -> do_move s (Call t c) = Some s' -> inv L s'.
Proof.
  intros Hi Hm. simpl in Hm. destruct (threads s !! t) as [th|] eqn:Ht; [|done]. simpl in Hm.
  destruct (here th) as [pc|] eqn:Eh; [done|]. destruct (enter s c (refs th)) as [[r pc]|] eqn:Ee; [|done].
  simplify_eq/=. unfold enter in Ee. pose proof (i_load _ _ Hi) as Hload.
  assert (Hrefs : forall p, p ∈ refs th -> linked L p) by (intros p; by apply (i_refs _ _ Hi t)).
  assert (Hold : forall p, claims p th = tally p (refs th)).
  { intros p. unfold claims. rewrite Eh. simpl. rewrite has_none. lia. }
  apply (inv_same L s t th); try done; unfold hh, hf; rewrite ?Eh.
  - simpl. by destruct c; repeat case_match; simplify_eq.
  - simpl. by destruct c; repeat case_match; simplify_eq.
  - simpl. by destruct c; repeat case_match; simplify_eq.
  - intros p. rewrite Hold. unfold claims. simpl.
    destruct c; repeat case_match; simplify_eq/=; rewrite ?has_none; try lia.
    pose proof (tally_remove1 fp p (refs th) ltac:(by eapply bool_decide_eq_true_1)) as E. unfold has.
    repeat case_decide; simplify_eq; lia.
  - intros pc' [= <-]. simpl. destruct c; repeat case_match; simplify_eq/=; split; simpl; try done; intros ? [= <-].
    + apply andb_prop in H as [_ H]. apply bool_decide_eq_true_1 in H. auto.
    + apply andb_prop in H as [_ H]. by apply bool_decide_eq_true_1 in H.
    + apply bool_decide_eq_true_1 in H. auto.
  - simpl. destruct c; repeat case_match; simplify_eq/=; try done. intros p Hp%remove1_sub. auto.
  - assert (Hroom : forall b : bool, b && false = false) by (by intros []).
    unfold load_of. simpl. rewrite Eh.
    destruct c; repeat case_match; simplify_eq/=; try lia;
      repeat match goal with
      | H : _ && _ = true |- _ => apply andb_prop in H as [H _]
      | H : bool_decide _ = true |- _ => apply bool_decide_eq_true_1 in H
      end; try lia.
    pose proof (length_remove1 fp (refs th) ltac:(done)). lia.
Qed.

Lemma inv_run L s t a s' : inv L s -> do_move s (Run t a) = Some s' -> exists L', inv L' s'.
Proof.
  intros Hi Hm. simpl in Hm. destruct (threads s !! t) as [th|] eqn:Ht; [|done]. simpl in Hm.
  destruct (here th) as [pc|] eqn:Eh; [|done]. simpl in Hm.
  pose proof (run_good L s t th Hi Ht a pc Eh) as Hg. destruct (step_at t (mem s) a pc); by simplify_eq/=.
Qed.

Lemma inv_start n : inv (replicate (Z.to_nat NHASH) []) (start n).
Proof.
  assert (Hidle : forall t th, replicate n idle !! t = Some th -> th = idle)
    by (intros t th [-> _]%lookup_replicate_1; done).
  assert (Href : forall p, references (start n) p = 0%nat).
  { intros p. unfold references, start. simpl. clear. induction n as [|n IH]; [done|]. simpl. by rewrite IH. }
  assert (Hlink : forall p, ~ linked (replicate (Z.to_nat NHASH) []) p).
  { intros p (i & l & [-> _]%lookup_replicate_1 & Hp). by apply elem_of_nil in Hp. }
  split; try (by intros; rewrite Href; lia); cbn [mem threads start].
  - unfold mem_ok, start, shared0. cbn [mem fh objects]. split_ands.
    + apply Forall2_replicate. constructor.
    + by rewrite length_replicate.
    + intros i l p [-> _]%lookup_replicate_1 Hp. by apply elem_of_nil in Hp.
    + intros i l [-> _]%lookup_replicate_1. constructor.
  - intros t. split; [done|]. intros (th & ->%Hidle & ?). done.
  - intros p f Hp. unfold start, shared0 in Hp. cbn [mem objects] in Hp. by rewrite lookup_empty in Hp.
  - intros p f Hp. by destruct (Hlink p).
  - intros t th pc ->%Hidle. done.
  - intros t th p ->%Hidle. by intros ?%elem_of_nil.
  - unfold load. simpl. assert (sum_list_with load_of (replicate n idle) = 0)%nat as -> by (clear; induction n as [|n IH]; [done|]; simpl; by rewrite IH).
    unfold INT_MAX. lia.
Qed.

Lemma inv_moves L s mvs s' : inv L s -> do_moves s mvs = Some s' -> exists L', inv L' s'.
Proof.
  revert L s. induction mvs as [|mv mvs IH]; intros L s Hi Hm; simplify_eq/=; [eauto|].
  destruct (do_move s mv) as [s1|] eqn:E; [|done]. simpl in Hm. destruct mv as [t c|t a].
  - apply (IH L s1); [by eapply inv_call|done].
  - destruct (inv_run _ _ _ _ _ Hi E) as [L1 H1]. by apply (IH L1 s1).
Qed.

Lemma inv_reachable n mvs s : do_moves (start n) mvs = Some s -> exists L, inv L s.
Proof. apply inv_moves with (L := replicate (Z.to_nat NHASH) []), inv_start. Qed.

(** An object of the table. *)
Definition in_table m p : Prop := exists i o l, fh m !! i = Some o /\ chain (objects m) o l /\ p ∈ l.

Lemma in_table_linked L m p : mem_ok L m -> in_table m p <-> linked L p.
Proof.
  intros (H1 & _). split.
  - intros (i & o & l & Ho & Hc & Hp). destruct (Forall2_lookup_l _ _ _ _ _ H1 Ho) as (l' & Hl & Hc').
    rewrite <-(chain_fun _ _ _ _ Hc Hc') in Hl. by exists i, l.
  - intros (i & l & Hl & Hp). destruct (Forall2_lookup_r _ _ _ _ _ H1 Hl) as (o & Ho & Hc). by exists i, o, l.
Qed.

(** ** How many steps calls take *)

(** The number of objects from [o] on, for [n] objects at most. *)
Fixpoint clen (n : nat) (objs : gmap nat foo) (o : option nat) : nat :=
  match n, o with
  | S n, Some p => match objs !! p with Some f => S (clen n objs (f_next f)) | None => 0 end
  | _, _ => 0
  end.

Lemma clen_chain n objs o l : chain objs o l -> (length l <= n)%nat -> clen n objs o = length l.
Proof.
  intros Hc. revert n. induction Hc as [|p f l Hp _ IH]; intros [|n] Hn; simpl in *; try lia; try done.
  rewrite Hp. by rewrite IH by lia.
Qed.

Lemma chain_size objs o l : chain objs o l -> NoDup l -> (length l <= size objs)%nat.
Proof.
  intros Hc Hd. rewrite <-(size_list_to_set (C := gset nat) l Hd), <-(size_dom (D := gset nat) objs).
  apply subseteq_size. intros p Hp%elem_of_list_to_set. apply elem_of_dom.
  destruct (chain_dom _ _ _ _ Hc Hp) as [f Hf]. by exists f.
Qed.

(** Steps that a thread at a program point has yet to make at most; [k] bounds
    the length of the chains. *)
Definition cost (k : nat) m pc : nat :=
  let len o := clen (size (objects m)) (objects m) o in
  match pc with
  | alloc_malloc _ => 8 | alloc_init _ => 7 | alloc_lock _ => 6 | alloc_next _ => 5 | alloc_head _ => 4
  | alloc_flock _ => 3 | alloc_unlock _ => 2 | alloc_funlock _ => 1
  | hold_lock _ _ => 4 | hold_count _ _ => 3 | hold_unlock _ _ => 2
  | find_lock _ => 7 + 2 * k | find_head _ => 6 + 2 * k | find_test _ o => 5 + 2 * len o
  | find_next _ p => 4 + 2 * len (Some p) | find_unlock _ _ => 1
  | rele_lock _ => 11 + k | rele_test _ => 10 + k | rele_again _ => 9 + k | rele_hash _ => 8 + k
  | rele_relock _ => 7 + k | rele_retest _ => 6 + k | rele_less _ => 3 | rele_funlock _ => 2
  | rele_unlock _ => 1 | rele_head _ => 5 + k | rele_sethead _ => 4 | rele_walk _ q => 4 + len (Some q)
  | rele_unlink _ _ => 4 | rele_unhash _ => 3 | rele_unlast _ => 2 | rele_destroy _ => 1
  | rele_count _ => 2 | rele_last _ => 1
  end.

(** The objects that there are, and those that calls have yet to allocate. *)
Definition pending th : nat := match here th with Some (alloc_malloc _) => 1 | _ => 0 end.
Definition bound s : nat := size (objects (mem s)) + sum_list_with pending (threads s).
Definition cost_of (k : nat) m th : nat := match here th with Some pc => cost k m pc | None => 0 end.
Definition measure s : nat := sum_list_with (cost_of (bound s) (mem s)) (threads s).

(** The chain from where a walk is. *)
Definition walk_at pc : option (option nat) :=
  match pc with find_test _ o => Some o | find_next _ p => Some (Some p) | rele_walk _ q => Some (Some q) | _ => None end.

Lemma walk_chain L s t th pc o : inv L s -> threads s !! t = Some th -> here th = Some pc -> walk_at pc = Some o ->
  exists l, chain (objects (mem s)) o l /\ NoDup l /\ forall q, q ∈ l -> linked L q.
Proof.
  intros Hi Ht Epc Hw. pose proof (pk_walk _ _ _ _ (i_pc _ _ Hi t th pc Ht Epc)) as Hok.
  assert (Hbuck : forall id l1 l2, L !! HASH id = Some (l1 ++ l2) -> chain (objects (mem s)) (head l2) l2 /\
      NoDup l2 /\ forall q, q ∈ l2 -> linked L q).
  { intros id l1 l2 Hl. destruct (bucket_chain _ _ id (i_mem _ _ Hi)) as (x & l & _ & Hl' & Hch). simplify_eq.
    pose proof (i_mem _ _ Hi) as (_ & _ & _ & H4). pose proof (H4 _ _ Hl) as Hd. apply NoDup_app in Hd as (_ & _ & Hd).
    split_ands; [|done|].
    - destruct l2 as [|q l2]; [constructor|]. by eapply chain_app.
    - intros q Hq. exists (HASH id), (l1 ++ l2). split; [done|]. apply elem_of_app. by right. }
  destruct pc; simplify_eq/=.
  - destruct Hok as (l1 & l2 & Hl & <- & _). exists l2. by eapply Hbuck.
  - destruct Hok as (l1 & l2 & Hl & _). exists (fp :: l2). apply (Hbuck id l1 (fp :: l2) Hl).
  - destruct Hok as (f & l1 & l2 & _ & Hl & _). exists (tfp :: l2). apply (Hbuck (f_id f) l1 (tfp :: l2) Hl).
Qed.

(** What a step makes of the memory. *)
Definition result (out : outcome) : option (option point * shared) :=
  match out with Next pc m => Some (Some pc, m) | Back _ m => Some (None, m) | _ => None end.

(** Without [hashlock], no step changes the links in the table. *)
Lemma step_links L s t th pc a x m' : inv L s -> threads s !! t = Some th -> here th = Some pc ->
  holds_hash pc = false -> result (step_at t (mem s) a pc) = Some (x, m') ->
  forall q f, linked L q -> objects (mem s) !! q = Some f ->
    exists f', objects m' !! q = Some f' /\ f_next f' = f_next f.
Proof.
  intros Hi Ht Epc Hh Hr q f Hq Hf. pose proof (i_pc _ _ Hi t th pc Ht Epc) as Hpc.
  assert (Hput : forall p g g', objects (mem s) !! p = Some g -> f_next g' = f_next g ->
    exists f', objects (put_foo p g' (mem s)) !! q = Some f' /\ f_next f' = f_next f).
  { intros p g g' Hp En. simpl. destruct (decide (q = p)) as [->|Hne].
    - rewrite lookup_insert_eq. exists g'. simplify_eq. done.
    - rewrite lookup_insert_ne by done. eauto. }
  destruct pc; try done; simpl in Hr; unfold lock_hash, lock_foo, unlock_foo, add_count, access in Hr;
    repeat case_match; simplify_eq/=; eauto; try (by eapply Hput); try (by destruct found; simplify_eq/=; eapply Hput).
  - rewrite lookup_insert_ne by congruence. eauto.
  - destruct (pk_apart _ _ _ _ Hpc fp eq_refl) as [Hn _]. rewrite lookup_delete_ne by (intros ->; done). eauto.
Qed.

Lemma clen_le n objs o : (clen n objs o <= n)%nat.
Proof.
  revert o. induction n as [|n IH]; intros o; [done|]. simpl. destruct o as [p|]; [|lia].
  destruct (objs !! p); [|lia]. specialize (IH (f_next f)). lia.
Qed.

Lemma walk_len L s t th pc o : inv L s -> threads s !! t = Some th -> here th = Some pc -> walk_at pc = Some o ->
  exists l, chain (objects (mem s)) o l /\ clen (size (objects (mem s))) (objects (mem s)) o = length l.
Proof.
  intros Hi Ht Epc Hw. destruct (walk_chain L s t th pc o Hi Ht Epc Hw) as (l & Hc & Hd & _).
  exists l. split; [done|]. apply clen_chain; [done|]. by apply (chain_size _ o).
Qed.

Lemma size_put p f f' m : objects m !! p = Some f -> size (objects (put_foo p f' m)) = size (objects m).
Proof. intros Hp. simpl. by rewrite map_size_insert_Some by (by eexists). Qed.

Definition cost_at (k : nat) m (x : option point) : nat := match x with Some pc => cost k m pc | None => 0 end.
Definition pending_at (x : option point) : nat := match x with Some (alloc_malloc _) => 1 | _ => 0 end.

Ltac unfold_step H :=
  unfold lock_hash, unlock_hash, lock_foo, unlock_foo, add_count, access, bucket in H;
  repeat (case_match; simplify_eq/=).

(** A step shortens what remains of its own call. *)
Lemma step_cost L s t th pc a x m' k : inv L s -> threads s !! t = Some th -> here th = Some pc ->
  result (step_at t (mem s) a pc) = Some (x, m') -> (size (objects (mem s)) <= k)%nat ->
  (cost_at k m' x < cost k (mem s) pc)%nat.
Proof.
  intros Hi Ht Epc Hr Hk. pose proof (clen_le (size (objects (mem s))) (objects (mem s))) as Hle.
  assert (Hwalk : forall p f, walk_at pc = Some (Some p) -> objects (mem s) !! p = Some f ->
    (clen (size (objects (mem s))) (objects (mem s)) (f_next f) < clen (size (objects (mem s))) (objects (mem s)) (Some p))%nat).
  { intros p f Hw Hf. destruct (walk_chain L s t th pc (Some p) Hi Ht Epc Hw) as (l & Hc & Hd & _).
    pose proof (chain_size _ _ _ Hc Hd) as Hs. rewrite (clen_chain _ _ (Some p) l) by done.
    inversion Hc as [|? g l' Hg Hc']; simplify_eq. rewrite (clen_chain _ _ (f_next f) l'); [simpl; lia|done|simpl in Hs; lia]. }
  destruct pc; simpl in Hr; unfold_step Hr; try lia.
  - specialize (Hle o). lia.
  - pose proof (Hwalk fp _ eq_refl ltac:(eassumption)). lia.
  - specialize (Hle (Some n)). lia.
  - pose proof (Hwalk tfp _ eq_refl ltac:(eassumption)). lia.
  - pose proof (Hwalk tfp _ eq_refl ltac:(eassumption)) as Hw.
    match goal with H : f_next _ = Some _ |- _ => rewrite H in Hw end. lia.
Qed.

(** The bound on chains does not grow. *)
Lemma step_bound s t pc a x m' : result (step_at t (mem s) a pc) = Some (x, m') ->
  (size (objects m') + pending_at x <= size (objects (mem s)) + pending_at (Some pc))%nat.
Proof.
  intros Hr. destruct pc; simpl in Hr; unfold_step Hr; try lia;
    try (erewrite size_put by done; lia);
    try (by rewrite map_size_insert_Some by (by eexists); lia).
  - rewrite map_size_insert_None by done. lia.
  - rewrite map_size_delete_Some by (by eexists). lia.
Qed.

Lemma cost_mono L s u thu pcu m' k k' : inv L s -> threads s !! u = Some thu -> here thu = Some pcu ->
  (k' <= k)%nat ->
  (forall o, walk_at pcu = Some o -> clen (size (objects m')) (objects m') o =
     clen (size (objects (mem s))) (objects (mem s)) o) ->
  (cost k' m' pcu <= cost k (mem s) pcu)%nat.
Proof. intros Hi Hu Eu Hk Hlen. destruct pcu; simpl; try rewrite Hlen by done; lia. Qed.

Lemma walk_holds pc o : walk_at pc = Some o -> holds_hash pc = true.
Proof. by destruct pc. Qed.

(** The walk of another thread is not disturbed. *)
Lemma walk_same L L' s s' t u th thu pc pcu a x m' o : inv L s -> inv L' s' -> mem s' = m' -> t <> u ->
  threads s !! t = Some th -> here th = Some pc -> result (step_at t (mem s) a pc) = Some (x, m') ->
  threads s !! u = Some thu -> threads s' !! u = Some thu -> here thu = Some pcu -> walk_at pcu = Some o ->
  clen (size (objects m')) (objects m') o = clen (size (objects (mem s))) (objects (mem s)) o.
Proof.
  intros Hi Hi' <- Hne Ht Epc Hr Hu Hu' Eu Hw.
  destruct (walk_chain L s u thu pcu o Hi Hu Eu Hw) as (l & Hc & Hd & Hlink).
  assert (Hc' : chain (objects (mem s')) o l).
  { apply (foo_chain_ext (objects (mem s))); [done|]. intros q f Hq Hf.
    apply (step_links L s t th pc a x _ Hi Ht Epc); [|done|by apply Hlink|done].
    destruct (holds_hash pc) eqn:E; [|done]. destruct Hne.
    apply (hash_alone _ _ t u th thu Hi Ht Hu); [by rewrite (hh_here _ _ Epc)|].
    rewrite (hh_here _ _ Eu). by eapply walk_holds. }
  rewrite (clen_chain _ _ _ l Hc) by (by eapply chain_size).
  by rewrite (clen_chain _ _ _ l Hc') by (by eapply chain_size).
Qed.

Lemma measure_run L s t a s' : inv L s -> do_move s (Run t a) = Some s' -> (measure s' < measure s)%nat.
Proof.
  intros Hi Hm. destruct (inv_run _ _ _ _ _ Hi Hm) as [L' Hi']. simpl in Hm.
  destruct (threads s !! t) as [th|] eqn:Ht; [|done]. simpl in Hm.
  destruct (here th) as [pc|] eqn:Epc; [|done]. simpl in Hm.
  assert (exists x m' th', result (step_at t (mem s) a pc) = Some (x, m') /\ here th' = x /\
    s' = set_thread t th' m' s) as (x & m' & th' & Hr & Ex & ->).
  { destruct (step_at t (mem s) a pc) as [| |pc' m'|g m']; simplify_eq/=.
    - by exists (Some pc'), m', (Thread (refs th) (Some pc')).
    - by exists None, m', (Thread (option_list g ++ refs th) None). }
  assert (Hlt : (t < length (threads s))%nat) by (by eapply lookup_lt_Some).
  assert (Hb : (bound (set_thread t th' m' s) <= bound s)%nat).
  { unfold bound. simpl. pose proof (sum_insert pending _ _ _ th' Ht) as E.
    pose proof (step_bound _ _ _ _ _ _ Hr) as Hs. unfold pending at 2 4 in E. rewrite Ex, Epc in E.
    unfold pending_at in Hs. lia. }
  set (k := bound s) in *. set (k' := bound (set_thread t th' m' s)) in *.
  assert (Hk : (size (objects (mem s)) <= k)%nat) by (unfold k, bound; lia).
  pose proof (step_cost L s t th pc a x m' k Hi Ht Epc Hr Hk) as Hc.
  assert (Hown : (cost_at k' m' x <= cost_at k m' x)%nat) by (destruct x as [pc'|]; [|done]; simpl; destruct pc'; simpl; lia).
  unfold measure. fold k k'. simpl mem. simpl threads.
  pose proof (sum_insert (cost_of k' m') _ _ _ th' Ht) as E1.
  pose proof (sum_insert (cost_of k (mem s)) _ _ _ th' Ht) as E2.
  assert (E3 : cost_of k' m' th' = cost_at k' m' x) by (unfold cost_of, cost_at; by rewrite Ex).
  assert (E4 : cost_of k (mem s) th = cost k (mem s) pc) by (unfold cost_of; by rewrite Epc).
  assert (Hrest : (sum_list_with (cost_of k' m') (<[t := idle]> (threads s)) <=
                   sum_list_with (cost_of k (mem s)) (<[t := idle]> (threads s)))%nat).
  { apply sum_le. intros u thu Hu. destruct (decide (u = t)) as [->|Hne].
    { rewrite list_lookup_insert_eq in Hu by done. by simplify_eq. }
    rewrite list_lookup_insert_ne in Hu by done. unfold cost_of. destruct (here thu) as [pcu|] eqn:Eu; [|done].
    apply (cost_mono L s u thu); [done..|]. intros o Hw.
    apply (walk_same L L' s (set_thread t th' m' s) t u th thu pc pcu a x); try done. simpl.
    by rewrite list_lookup_insert_ne. }
  pose proof (sum_insert (cost_of k' m') _ _ _ idle Ht) as E5.
  pose proof (sum_insert (cost_of k (mem s)) _ _ _ idle Ht) as E6.
  assert (cost_of k' m' idle = 0%nat) by done. assert (cost_of k (mem s) idle = 0%nat) by done. lia.
Qed.

(** ** No deadlock *)

(** The lock that a program point waits for. *)
Definition waits_foo pc : option nat :=
  match pc with alloc_flock p | hold_lock p _ | rele_lock p | rele_relock p => Some p | _ => None end.
Definition waits_hash pc : bool := match pc with alloc_lock _ | find_lock _ | rele_hash _ => true | _ => false end.

Lemma blocked_why t m pc p0 : step_at t m (Some p0) pc = Blocked -> objects m !! p0 = None ->
  (exists p f u, waits_foo pc = Some p /\ objects m !! p = Some f /\ f_lock f = Held u) \/
  (waits_hash pc = true /\ exists u, hashlock m = Some u).
Proof.
  intros Hb H0. destruct pc; simpl in Hb; unfold_step Hb; try done;
    first [right; split; [done|by eexists]|left; do 3 eexists; split_ands; done].
Qed.

Lemma holds_foo_runs pc : holds_foo pc <> None -> waits_foo pc = None /\ waits_hash pc = false.
Proof. by destruct pc. Qed.
Lemma holds_hash_runs pc : holds_hash pc = true -> waits_hash pc = false.
Proof. by destruct pc. Qed.

(** A step is possible, or the thread waits for a lock that another one holds. *)
Lemma step_or_wait L s t th pc : inv L s -> threads s !! t = Some th -> here th = Some pc ->
  (exists t a s', do_move s (Run t a) = Some s') \/
  (exists p u thu, waits_foo pc = Some p /\ threads s !! u = Some thu /\ hf thu = Some p) \/
  (waits_hash pc = true /\ exists u thu, threads s !! u = Some thu /\ hh thu = true).
Proof.
  intros Hi Ht Epc. set (p0 := fresh (dom (objects (mem s)))).
  assert (H0 : objects (mem s) !! p0 = None) by (apply not_elem_of_dom, is_fresh).
  pose proof (run_good L s t th Hi Ht (Some p0) pc Epc) as Hg.
  assert (Hgo : step_at t (mem s) (Some p0) pc <> Blocked -> exists t a s', do_move s (Run t a) = Some s').
  { intros Ha. exists t, (Some p0). simpl. rewrite Ht. simpl. rewrite Epc. simpl.
    destruct (step_at t (mem s) (Some p0) pc); try done; eauto. }
  destruct (step_at t (mem s) (Some p0) pc) eqn:E; try (by left; apply Hgo). right.
  destruct (blocked_why _ _ _ _ E H0) as [(p & f & u & Hw & Hf & El)|[Hw [u Hu]]]; [left|right].
  - apply (i_flock _ _ Hi p f Hf) in El as (thu & Hu & Hh). by exists p, u, thu.
  - apply (i_hash _ _ Hi) in Hu as (thu & Hu & Hh). split; [done|]. by exists u, thu.
Qed.

Lemma foo_holder_runs L s u thu p : inv L s -> threads s !! u = Some thu -> hf thu = Some p ->
  exists t a s', do_move s (Run t a) = Some s'.
Proof.
  intros Hi Hu Hh. unfold hf in Hh. destruct (here thu) as [pcu|] eqn:Eu; [|done]. simpl in Hh.
  destruct (holds_foo_runs pcu) as [H1 H2]; [congruence|].
  destruct (step_or_wait L s u thu pcu Hi Hu Eu) as [?|[(q & v & thv & Hw & _)|[Hw _]]]; [done|congruence..].
Qed.

Lemma no_deadlock L s t th pc : inv L s -> threads s !! t = Some th -> here th = Some pc ->
  exists t a s', do_move s (Run t a) = Some s'.
Proof.
  intros Hi Ht Epc.
  destruct (step_or_wait L s t th pc Hi Ht Epc) as [?|[(p & u & thu & _ & Hu & Hh)|[_ (u & thu & Hu & Hh)]]]; [done| |].
  - by eapply foo_holder_runs.
  - unfold hh in Hh. destruct (here thu) as [pcu|] eqn:Eu; [|done].
    destruct (step_or_wait L s u thu pcu Hi Hu Eu) as [?|[(q & v & thv & _ & Hv & Hhv)|[Hw _]]]; [done| |].
    + by eapply foo_holder_runs.
    + by rewrite holds_hash_runs in Hw.
Qed.

(** ** The theorems *)

Definition is_run (mv : move) : bool := match mv with Run _ _ => true | Call _ _ => false end.
Definition quiet s : Prop := forall t th, threads s !! t = Some th -> here th = None.

(** C17: threads that share the table commit no undefined behaviour, whatever the
    order of their steps and whatever fails: no step uses freed memory, a
    destroyed mutex or a lock of another thread, follows a null pointer or
    overflows. The count of every object in the table is the number of references
    to it, and at least 1; every reference that a thread has is to an object in
    the table; and the locks are held exactly where the code means to hold them,
    so that the counts and the chains are only accessed under their locks. *)
Theorem foo_table_safe (n : nat) (mvs : list move) (s : sys) (Hs : do_moves (start n) mvs = Some s) :
  (forall t th pc a, threads s !! t = Some th -> here th = Some pc -> step_at t (mem s) a pc <> Bad) /\
  (forall p, in_table (mem s) p -> exists f, objects (mem s) !! p = Some f /\
     f_count f = Z.of_nat (references s p) /\ (1 <= references s p)%nat) /\
  (forall t th p, threads s !! t = Some th -> p ∈ refs th -> in_table (mem s) p) /\
  (forall t th pc, threads s !! t = Some th -> here th = Some pc ->
     (holds_hash pc = true -> hashlock (mem s) = Some t) /\
     (forall p, holds_foo pc = Some p -> exists f, objects (mem s) !! p = Some f /\ f_lock f = Held t)).
Proof.
  destruct (inv_reachable n mvs s Hs) as [L Hi]. pose proof (i_mem _ _ Hi) as Hm. split_ands.
  - intros t th pc a Ht Epc E. pose proof (run_good L s t th Hi Ht a pc Epc) as Hg. by rewrite E in Hg.
  - intros p Hp%(in_table_linked L); [|done]. destruct (linked_foo L _ p Hm Hp) as (f & _ & Hf & _).
    exists f. split; [done|]. by apply (i_count _ _ Hi).
  - intros t th p Ht Hp. apply (in_table_linked L); [done|]. by apply (i_refs _ _ Hi t th).
  - intros t th pc Ht Epc. split.
    + intros Hh. apply (i_hash _ _ Hi). exists th. by rewrite (hh_here _ _ Epc).
    + intros p Hp. destruct (hf_object L s t th p Hi Ht) as [f Hf]; [by rewrite (hf_here _ _ Epc)|].
      exists f. split; [done|]. apply (i_flock _ _ Hi p f Hf). exists th. by rewrite (hf_here _ _ Epc).
Qed.

(** [foo_find] finds. When its search is over, and it still holds the lock of
    the table, the result is an object of the table with the name that was looked
    for, or there is none. *)
Theorem foo_find_correct (n : nat) (mvs : list move) (s : sys) (t : nat) (th : thread) (id : Z) (r : option nat)
  (Hs : do_moves (start n) mvs = Some s) (Ht : threads s !! t = Some th)
  (Hpc : here th = Some (find_unlock id r)) :
  match r with
  | Some p => in_table (mem s) p /\ exists f, objects (mem s) !! p = Some f /\ f_id f = id
  | None => forall p f, in_table (mem s) p -> objects (mem s) !! p = Some f -> f_id f <> id
  end.
Proof.
  destruct (inv_reachable n mvs s Hs) as [L Hi]. pose proof (i_mem _ _ Hi) as Hm.
  pose proof (i_pc _ _ Hi t th _ Ht Hpc) as [Hu _ _ _ _ Hw]. destruct r as [p|]; simpl in Hw.
  - split; [|done]. apply (in_table_linked L); [done|]. by apply Hu.
  - destruct Hw as (l & Hl & Hlack). intros p f Hp Hf E. apply (in_table_linked L) in Hp; [|done].
    rewrite <-E in Hl. apply (linked_bucket _ _ _ _ _ Hm Hf Hl) in Hp. rewrite Forall_forall in Hlack.
    destruct (Hlack p Hp) as (g & Hg & Hne). congruence.
Qed.

(** C18: every call returns. In no reachable state are the threads deadlocked: when
    a call is going on, some thread can take a step. And when no new calls begin,
    only so many steps are possible, whatever the order: so all calls return. *)
Theorem foo_calls_return (n : nat) (mvs : list move) (s : sys) (Hs : do_moves (start n) mvs = Some s) :
  (quiet s \/ exists t a s', do_move s (Run t a) = Some s') /\
  (forall runs s', forallb is_run runs = true -> do_moves s runs = Some s' -> (length runs <= measure s)%nat).
Proof.
  destruct (inv_reachable n mvs s Hs) as [L Hi]. split.
  - destruct (decide (Forall (fun th => here th = None) (threads s))) as [Hq|Hq].
    + left. intros t th Ht. by apply (Forall_lookup_1 _ _ _ _ Hq Ht).
    + right. apply not_Forall_Exists in Hq; [|apply _]. apply Exists_exists in Hq as (th & Hin & Hne).
      apply list_elem_of_lookup in Hin as [t Ht]. destruct (here th) as [pc|] eqn:Epc; [|done].
      by eapply no_deadlock.
  - clear Hs. intros runs. revert L s Hi. induction runs as [|mv runs IH]; intros L s Hi s' Hr Hm; simpl; [lia|].
    simpl in Hr, Hm. apply andb_prop in Hr as [Hmv Hr]. destruct mv as [|t a]; [done|].
    destruct (do_move s (Run t a)) as [s1|] eqn:E; [|done].
    destruct (inv_run _ _ _ _ _ Hi E) as [L1 H1]. pose proof (measure_run _ _ _ _ _ Hi E).
    specialize (IH L1 s1 H1 s' Hr Hm). lia.
Qed.

(** [n] steps of thread [t]. *)
Definition steps (t n : nat) : list move := replicate n (Run t (Some 7%nat)).
(** Thread 1 has found the object that thread 0 allocated. *)
Definition meeting : list move :=
  Call 0 (Alloc 5) :: steps 0 8 ++ Call 1 (Find 5) :: steps 1 6 ++ Call 0 (Rele 7) :: steps 0 2.
Definition met : sys := default (start 0) (do_moves (start 2) meeting).

Lemma foo_table_safe_witness :
  (forall t th pc a, threads met !! t = Some th -> here th = Some pc -> step_at t (mem met) a pc <> Bad) /\
  (forall p, in_table (mem met) p -> exists f, objects (mem met) !! p = Some f /\
     f_count f = Z.of_nat (references met p) /\ (1 <= references met p)%nat) /\
  (forall t th p, threads met !! t = Some th -> p ∈ refs th -> in_table (mem met) p) /\
  (forall t th pc, threads met !! t = Some th -> here th = Some pc ->
     (holds_hash pc = true -> hashlock (mem met) = Some t) /\
     (forall p, holds_foo pc = Some p -> exists f, objects (mem met) !! p = Some f /\ f_lock f = Held t)).
Proof. apply (foo_table_safe 2 meeting met). vm_compute. reflexivity. Defined.

Lemma foo_find_correct_witness :
  in_table (mem met) 7 /\ exists f, objects (mem met) !! 7%nat = Some f /\ f_id f = 5.
Proof.
  apply (foo_find_correct 2 meeting met 1 (Thread [] (Some (find_unlock 5 (Some 7%nat)))) 5 (Some 7%nat));
    vm_compute; reflexivity.
Defined.

Lemma foo_calls_return_witness :
  (quiet met \/ exists t a s', do_move met (Run t a) = Some s') /\
  (forall runs s', forallb is_run runs = true -> do_moves met runs = Some s' -> (length runs <= measure met)%nat).
Proof. apply (foo_calls_return 2 meeting met). vm_compute. reflexivity. Defined.

(** One thread allocates, the other finds, both release: the table is empty again. *)
Example two_threads :
  match do_moves (start 2) (Call 0 (Alloc 5) :: steps 0 8 ++ Call 1 (Find 5) :: steps 1 3 ++
      Call 0 (Rele 7) :: steps 0 3 ++ steps 1 4 ++ steps 0 6 ++ Call 1 (Rele 7) :: steps 1 11) with
  | Some s => (fh (mem s) !! HASH 5, map (fun th => (refs th, here th)) (threads s))
  | None => (None, [])
  end = (Some None, [([], None); ([], None)]).
Proof. vm_compute. reflexivity. Qed.
