(* ===== verification/Rot13.v ===== *)
(** Rot13: apue/14.5.3rot_13_aio.c, which translates a file with eight buffers
    that are read and written asynchronously. A control block is named by the
    index of its buffer; the size of the file is the number of the answer to
    [fstat], and what a read put into a buffer is the data of the answer to
    [aio_return]. *)
From stdpp Require Import list strings.
From S2P Require Import Prelude Arrays Bytes Sys ErrorLog.

Definition BSZ : Z := 4096.
Definition NBUF : Z := 8.
Definition EINPROGRESS : Z := 115.
Definition O_RDONLY : Z := 0.
(** [O_RDWR|O_CREAT|O_TRUNC]. *)
Definition OUT_FLAGS : Z := 578.

Inductive rwop := UNUSED | READ_PENDING | WRITE_PENDING.

(** [struct buf] with the fields of its control block; of the array [data] the
    part that the last transfer uses. *)
Record buf := Buf {
  op : rwop; last_ : Z; aio_fildes : Z; aio_offset : Z; aio_nbytes : Z; data : bytes }.
Definition buf0 : buf := Buf UNUSED 0 0 0 0 [].
#[export] Instance buf_inhabited : Inhabited buf := populate buf0.

(** The global array. *)
Notation bufs := (list buf) (only parsing).
Notation rot := (M (proc bufs)).

(** [isalpha], in the C locale. *)
Definition isalpha (c : Z) : bool := ((65 <=? c) && (c <=? 90)) || ((97 <=? c) && (c <=? 122)).

Definition translate (c : Z) : Z :=
  if isalpha c then
    if 110 <=? c then c - 13
    else if 97 <=? c then c + 13
    else if 78 <=? c then c - 13
    else c + 13
  else c.

Section rot13.
Context `{Kernel} (strerror : Z -> bytes).

Definition getbuf (i : Z) : rot buf := bs <- getvar id ;; guard_ok (in_bounds bs i) ;; ret (aget bs i).
Definition putbuf (i : Z) (b : buf) : rot unit := setvars (fun bs => aset bs i b).

(** The locals of [main] that the loops change; [aiolist] by which entries are
    not null. *)
Record locals := Locals { numop : Z; off : Z; aiolist : list bool }.

(** [aio_error] and what follows: go on, or the operation is not finished. *)
Definition finished (i : Z) (text : bytes) : rot bool :=
  err <- sysret (AioError i) ;;
  if err =? EINPROGRESS then ret false
  else if negb (err =? 0) then
    if err =? -1 then err_sys strerror (B "aio_error failed") else err_exit strerror err text
  else ret true.

Definition short (kind : bytes) (n : Z) : rot unit :=
  err_quit strerror (kind ++ B " (" ++ dec n ++ B "/" ++ dec BSZ ++ B ")").

Definition start_read (ifd size i : Z) (b : buf) (l : locals) : rot locals :=
  guard_ok (off l + BSZ <? 2 ^ 63) ;;
  let off' := off l + BSZ in
  putbuf i (Buf READ_PENDING (if size <=? off' then 1 else last_ b) ifd (off l) BSZ (data b)) ;;
  r <- sysret (AioRead i ifd (off l) BSZ) ;;
  (when r <? 0 do err_sys strerror (B "aio_read failed")) ;;
  n <- int32 (numop l + 1) ;;
  ret (Locals n off' (aset (aiolist l) i true)).

(** The translation is in place. *)
Definition read_done (ofd i : Z) (b : buf) (l : locals) : rot locals :=
  ok <- finished i (B "read failed") ;;
  if negb ok then ret l
  else
    a <- sys (AioReturn i) ;;
    let n := a_ret a in
    (when n <? 0 do err_sys strerror (B "aio_return failed")) ;;
    (when negb (n =? BSZ) && (last_ b =? 0) do short (B "short read") n) ;;
    let d := map translate (take (Z.to_nat n) (a_data a)) in
    putbuf i (Buf WRITE_PENDING (last_ b) ofd (aio_offset b) n d) ;;
    r <- sysret (AioWrite i ofd (aio_offset b) d) ;;
    (when r <? 0 do err_sys strerror (B "aio_write failed")) ;;
    ret l.

(** The buffer stays [WRITE_PENDING]. *)
Definition write_done (i : Z) (b : buf) (l : locals) : rot locals :=
  ok <- finished i (B "write failed") ;;
  if negb ok then ret l
  else
    n <- sysret (AioReturn i) ;;
    (when n <? 0 do err_sys strerror (B "aio_return failed")) ;;
    (when negb (n =? aio_nbytes b) do short (B "short write") n) ;;
    m <- int32 (numop l - 1) ;;
    ret (Locals m (off l) (aset (aiolist l) i false)).

Definition scan_buf (ifd ofd size i : Z) (l : locals) : rot locals :=
  b <- getbuf i ;;
  match op b with
  | UNUSED => if off l <? size then start_read ifd size i b l else ret l
  | READ_PENDING => read_done ofd i b l
  | WRITE_PENDING => write_done i b l
  end.

(** [for (i = 0; i < NBUF; i++)]. *)
Definition scan (ifd ofd size : Z) (l : locals) : rot locals :=
  loop 9 (fun '(i, l) =>
    if i <? NBUF then l <- scan_buf ifd ofd size i l ;; ret (inl (i + 1, l))
    else ret (inr l)) (0, l).

Definition listed (l : list bool) : list Z :=
  filter (fun i => aget l i = true) [0; 1; 2; 3; 4; 5; 6; 7].

Definition rot_round (ifd ofd size : Z) (l : locals) : rot (locals + unit) :=
  l <- scan ifd ofd size l ;;
  if numop l =? 0 then
    if size <=? off l then ret (inr tt) else ret (inl l)
  else
    r <- sysret (AioSuspend (listed (aiolist l))) ;;
    (when r <? 0 do err_sys strerror (B "aio_suspend failed")) ;;
    ret (inl l).

(** [main]. *)
Definition rot13 (argv : list bytes) : rot unit :=
  (when negb (Zlen argv =? 3) do err_quit strerror (B "usage: rot13 infile outfile")) ;;
  ifd <- sysret (Open (aget argv 1) O_RDONLY) ;;
  (when ifd <? 0 do err_sys strerror (B "can't open " ++ aget argv 1)) ;;
  ofd <- sysret (Open (aget argv 2) OUT_FLAGS) ;;
  (when ofd <? 0 do err_sys strerror (B "can't create " ++ aget argv 2)) ;;
  st <- sys (Fstat ifd) ;;
  (when a_ret st <? 0 do err_sys strerror (B "fstat failed")) ;;
  let size := a_num st in
  setvars (map (fun b => Buf UNUSED (last_ b) (aio_fildes b) (aio_offset b) (aio_nbytes b) (data b))) ;;
  forever (rot_round ifd ofd size) (Locals 0 0 (replicate 8 false)) ;;
  b <- getbuf 0 ;;
  putbuf 0 (Buf (op b) (last_ b) ofd (aio_offset b) (aio_nbytes b) (data b)) ;;
  r <- sysret (AioFsync 0 ofd) ;;
  (when r <? 0 do err_sys strerror (B "aio_fsync failed")) ;;
  exit_ 0.
End rot13.

(** The static array before [main] runs. *)
Definition bufs0 : bufs := replicate 8 buf0.
