(* ===== verification/Rot13Proofs.v ===== *)
(** Rot13Proofs: what rot13 writes is the translation of what it reads, at the
    same place; files of one block are translated completely, longer ones may not
    be. *)
From stdpp Require Import sets list strings.
From S2P Require Import Prelude Arrays Bytes Sys ErrorLog Rot13.

(** ** The translation *)

Lemma translate_twice c : 0 <= c < 256 -> translate (translate c) = c /\ 0 <= translate c < 256.
Proof.
  intros Hc.
  assert (Hall : forallb (fun n => let c := Z.of_nat n in (translate (translate c) =? c) && (0 <=? translate c) &&
    (translate c <? 256)) (seq 0 256) = true) by (vm_compute; reflexivity).
  rewrite forallb_forall in Hall. specialize (Hall (Z.to_nat c)). rewrite Z2Nat.id in Hall by lia.
  assert (Hin : In (Z.to_nat c) (seq 0 256)) by (apply in_seq; lia). specialize (Hall Hin). simpl in Hall. lia.
Qed.

(** ** Histories *)

(** The last operation begun on a control block. *)
Definition aio_step (i : Z) (o : option call) (e : event) : option call :=
  match e with
  | Called (AioRead j fd off n) a => if (j =? i) && (0 <=? a_ret a) then Some (AioRead j fd off n) else o
  | Called (AioWrite j fd off d) a => if (j =? i) && (0 <=? a_ret a) then Some (AioWrite j fd off d) else o
  | _ => o
  end.
Definition last_aio (i : Z) (h : list event) : option call := fold_left (aio_step i) h None.

(** A write begun: buffer, descriptor, offset and data. *)
Definition write : Type := Z * Z * Z * bytes.
Definition begun_by (e : event) : list write :=
  match e with Called (AioWrite i fd off d) a => if 0 <=? a_ret a then [(i, fd, off, d)] else [] | _ => [] end.
Definition begun (h : list event) : list write := concat (map begun_by h).

(** A descriptor that [open] gave for a path. *)
Definition opened_as (path : bytes) (flags : Z) (h : list event) (fd : Z) : Prop :=
  exists a, Called (Open path flags) a ∈ h /\ a_ret a = fd.

Lemma opened_as_app path flags h h' fd : opened_as path flags h fd -> opened_as path flags (h ++ h') fd.
Proof. intros (a & Hin & E). exists a. split; [|done]. apply elem_of_app. by left. Qed.

Lemma last_aio_snoc i h e : last_aio i (h ++ [e]) = aio_step i (last_aio i h) e.
Proof. unfold last_aio. by rewrite fold_left_app. Qed.
Lemma begun_snoc h e : begun (h ++ [e]) = begun h ++ begun_by e.
Proof. unfold begun. rewrite map_app, concat_app. simpl. by rewrite app_nil_r. Qed.

(** The file [path] holds [input]: asynchronous reads of a descriptor for it give what it
    has there, [fstat] its size. *)
Definition reads_file `{Kernel} (path input : bytes) : Prop :=
  (forall h i a fd o n, may h (AioReturn i) a = true -> last_aio i h = Some (AioRead i fd o n) ->
     opened_as path O_RDONLY h fd -> 0 <= a_ret a ->
     a_data a = take (Z.to_nat n) (drop (Z.to_nat o) input) /\ a_ret a = Zlen (a_data a)) /\
  (forall h fd a, may h (Fstat fd) a = true -> opened_as path O_RDONLY h fd -> 0 <= a_ret a -> a_num a = Zlen input).

(** The block of the file at [o], translated. *)
Definition block (input : bytes) (o : Z) : bytes := map translate (seg input o (o + BSZ)).

(** Events that say nothing of asynchronous operations. *)
Definition silent (e : event) : bool :=
  match e with Called (AioRead _ _ _ _ | AioWrite _ _ _ _) _ => false | _ => true end.

Lemma silent_last i h e : silent e = true -> last_aio i (h ++ [e]) = last_aio i h.
Proof. intros He. rewrite last_aio_snoc. by destruct e as [[] a|c|t|t|t|t|p t]. Qed.
Lemma silent_begun h e : silent e = true -> begun (h ++ [e]) = begun h.
Proof. intros He. rewrite begun_snoc. by destruct e as [[] a|c|t|t|t|t|p t]; simpl; rewrite ?app_nil_r. Qed.

(** ** The invariant of the loop *)

Definition slot (w : write) : Z := w.1.1.1.
Definition target (w : write) : Z := w.1.1.2.
Definition place (w : write) : Z := w.1.2.

(** All writes so far are of different blocks, translated, and at their place. *)
Definition writes_ok (input : bytes) (ws : list write) : Prop :=
  Forall (fun w => exists k, 0 <= k /\ place w = k * BSZ /\ place w < Zlen input /\ w.2 = block input (place w)) ws /\
  NoDup (map place ws) /\ Zlen ws <= NBUF.

(** And all go to the file [path]. *)
Definition written_ok (input path : bytes) (h : list event) : Prop :=
  writes_ok input (begun h) /\ Forall (fun w => opened_as path OUT_FLAGS h (target w)) (begun h).

Lemma written_ok_snoc input path h e : begun_by e = [] -> written_ok input path h -> written_ok input path (h ++ [e]).
Proof.
  intros He [Hw Ho]. unfold written_ok. rewrite begun_snoc, He, app_nil_r. split; [done|].
  eapply Forall_impl; [exact Ho|]. intros w. apply opened_as_app.
Qed.

Section rot.
Context `{Kernel} (strerror : Z -> bytes) (inpath outpath input : bytes) (ifd ofd : Z) (len0 : nat).
Hypothesis Kfile : reads_file inpath input.
Hypothesis Hsize : Zlen input < 2 ^ 62.
Hypothesis Hlen0 : Z.of_nat len0 <= INT_MAX.
Implicit Types (s : proc bufs) (l : locals).
Notation size := (Zlen input).

(** A buffer in use has a block of its own. *)
Definition block_of l (b : buf) : Prop :=
  exists k, 0 <= k /\ aio_offset b = k * BSZ /\ aio_offset b < size /\ aio_offset b < off l.

Definition slot_ok l (h : list event) (i : Z) (b : buf) : Prop :=
  match op b with
  | UNUSED => forall w, w ∈ begun h -> slot w <> i
  | READ_PENDING => block_of l b /\ last_aio i h = Some (AioRead i ifd (aio_offset b) BSZ) /\
      (forall w, w ∈ begun h -> slot w <> i)
  | WRITE_PENDING => block_of l b
  end.

Definition write_ok (bs : bufs) (w : write) : Prop :=
  (0 <= slot w < 8 /\ target w = ofd) /\ op (aget bs (slot w)) = WRITE_PENDING /\ aio_offset (aget bs (slot w)) = place w /\
  w.2 = block input (place w).

Record rot_ok l s : Prop := RotOk {
  ro_bufs : Zlen (vars s) = 8;
  ro_list : Zlen (aiolist l) = 8;
  ro_off : exists j, 0 <= j /\ off l = j * BSZ /\ off l < size + BSZ;
  ro_slot : forall i, 0 <= i < 8 -> slot_ok l (history s) i (aget (vars s) i);
  ro_dist : forall i j, 0 <= i < 8 -> 0 <= j < 8 -> i <> j -> op (aget (vars s) i) <> UNUSED ->
    op (aget (vars s) j) <> UNUSED -> aio_offset (aget (vars s) i) <> aio_offset (aget (vars s) j);
  ro_writes : Forall (write_ok (vars s)) (begun (history s));
  ro_slots : NoDup (map slot (begun (history s)));
  ro_num : Z.abs (numop l) <= Z.of_nat len0 - Zlen (script s);
  ro_in : opened_as inpath O_RDONLY (history s) ifd;
  ro_out : opened_as outpath OUT_FLAGS (history s) ofd }.

Lemma rot_ok_writes l s : rot_ok l s -> written_ok input outpath (history s).
Proof.
  intros Hr. pose proof (ro_writes _ _ Hr) as Hw. rewrite Forall_forall in Hw. split; [|apply Forall_forall; intros w Hin;
    destruct (Hw w Hin) as ([_ ->] & _); apply Hr]. split; [|split].
  - apply Forall_forall. intros w Hin. destruct (Hw w Hin) as ([Hs _] & Eop & Eoff & Ed).
    pose proof (ro_slot _ _ Hr (slot w) Hs) as Hslot. unfold slot_ok in Hslot. rewrite Eop in Hslot.
    destruct Hslot as (k & Hk & Ek & Hlt & _). exists k. rewrite Eoff in Ek, Hlt. done.
  - pose proof (ro_slots _ _ Hr) as Hn. pose proof (ro_dist _ _ Hr) as Hd. clear Hr. revert Hn Hw.
    induction (begun (history s)) as [|w ws IH]; intros Hn Hw; simpl; [constructor|]. simpl in Hn.
    apply NoDup_cons in Hn as [Hnin Hn]. apply NoDup_cons. split; [|apply IH; [done|]; intros x Hx; apply Hw; by right].
    intros (w' & E & Hw')%list_elem_of_In%in_map_iff. apply list_elem_of_In in Hw'.
    destruct (Hw w) as ([Hs _] & Eop & Eoff & _); [by left|]. destruct (Hw w') as ([Hs' _] & Eop' & Eoff' & _); [by right|].
    destruct (decide (slot w = slot w')) as [Es|Hne].
    + apply Hnin. rewrite Es. by apply list_elem_of_In, in_map, list_elem_of_In.
    + apply (Hd (slot w) (slot w')); congruence.
  - assert (Hsub : map slot (begun (history s)) ⊆+ [0;1;2;3;4;5;6;7]).
    { apply NoDup_submseteq; [apply Hr|]. intros i (w & <- & Hin)%list_elem_of_In%in_map_iff.
      apply list_elem_of_In in Hin. destruct (Hw w Hin) as ([Hs _] & _).
      assert (slot w = 0 \/ slot w = 1 \/ slot w = 2 \/ slot w = 3 \/ slot w = 4 \/ slot w = 5 \/ slot w = 6 \/ slot w = 7) by lia.
      set_solver. }
    apply submseteq_length in Hsub. rewrite length_map in Hsub. unfold Zlen, NBUF. simpl in Hsub. lia.
Qed.

(** What an exit leaves. *)
Definition rot_end (c : Z) s : Prop := written_ok input outpath (history s) /\ (c = 1 \/ c = WAITING).

Lemma silent_event l s e : silent e = true -> rot_ok l s -> rot_ok l (record_event e s).
Proof.
  intros He []. split; simpl; try done; try (by rewrite silent_begun); try by apply opened_as_app.
  intros i Hi. specialize (ro_slot0 i Hi). unfold slot_ok in *. by rewrite silent_last, silent_begun.
Qed.

Lemma silent_answer l s c a rest : silent (Called c a) = true -> rot_ok l s -> script s = a :: rest ->
  rot_ok l (answered c a rest s).
Proof.
  intros He [] Es. split; simpl; try done; try (by rewrite silent_begun); try by apply opened_as_app.
  - intros i Hi. specialize (ro_slot0 i Hi). unfold slot_ok in *. by rewrite silent_last, silent_begun.
  - rewrite Es in ro_num0. unfold Zlen in *. simpl in *. lia.
Qed.

Definition calm_call (c : call) : bool := match c with AioRead _ _ _ _ | AioWrite _ _ _ _ => false | _ => true end.

(** Nothing happened to the buffers. *)
Definition undisturbed s s' : Prop := vars s' = vars s /\ begun (history s') = begun (history s) /\
  forall i, last_aio i (history s') = last_aio i (history s).

Lemma undisturbed_trans s1 s2 s3 : undisturbed s1 s2 -> undisturbed s2 s3 -> undisturbed s1 s3.
Proof. intros (V1 & B1 & L1) (V2 & B2 & L2). split_and!; [congruence..|]. intros i. by rewrite L2. Qed.

Lemma wp_calm l c (Q : answer -> proc bufs -> Prop) s : rot_ok l s -> calm_call c = true ->
  (forall a s', may (history s) c a = true -> rot_ok l s' -> undisturbed s s' ->
     (length (script s') < length (script s))%nat -> Q a s') ->
  wp (sys c) Q rot_end s.
Proof.
  intros Hr Hc HQ. assert (He : forall a, silent (Called c a) = true) by (by destruct c).
  apply wp_sys_at.
  - intros a rest Es Ha. apply HQ; try done.
    + by apply silent_answer.
    + split_and!; [done|apply (silent_begun _ (Called c a)), He|].
      intros i. apply (silent_last i _ (Called c a)), He.
    + simpl. rewrite Es. simpl. lia.
  - split; [by apply (rot_ok_writes l), silent_event|by right].
Qed.

Lemma wp_calm_ret l c (Q : Z -> proc bufs -> Prop) s : rot_ok l s -> calm_call c = true ->
  (forall a s', rot_ok l s' -> undisturbed s s' ->
     (length (script s') < length (script s))%nat -> Q (a_ret a) s') ->
  wp (sysret c) Q rot_end s.
Proof.
  intros Hr Hc HQ. unfold sysret. apply wp_bind, (wp_calm l); [done|done|].
  intros a s' _ Hr' Hv Hlt. apply wp_ret. by apply HQ.
Qed.

(** The error routines end the program. *)
Lemma wp_err_sys_rot {A} l t (Q : A -> proc bufs -> Prop) s : rot_ok l s -> wp (err_sys strerror t) Q rot_end s.
Proof.
  intros Hr. unfold err_sys. apply wp_bind, wp_gets. apply wp_bind, wp_err_doit. intros b.
  apply wp_exit. split; [by apply (rot_ok_writes l), silent_event|by left].
Qed.
Lemma wp_err_exit_rot {A} l e t (Q : A -> proc bufs -> Prop) s : rot_ok l s -> wp (err_exit strerror e t) Q rot_end s.
Proof.
  intros Hr. unfold err_exit. apply wp_bind, wp_err_doit. intros b.
  apply wp_exit. split; [by apply (rot_ok_writes l), silent_event|by left].
Qed.
Lemma wp_err_quit_rot {A} l t (Q : A -> proc bufs -> Prop) s : rot_ok l s -> wp (err_quit strerror t) Q rot_end s.
Proof.
  intros Hr. unfold err_quit. apply wp_bind, wp_err_doit. intros b.
  apply wp_exit. split; [by apply (rot_ok_writes l), silent_event|by left].
Qed.

(** Reading into an unused buffer begins. *)
Lemma rot_ok_start l s i b n last al : rot_ok l s -> 0 <= i < 8 -> op (aget (vars s) i) = UNUSED ->
  off l < size -> Zlen al = 8 -> forall a rest e v, 0 <= a_ret a -> script s = a :: rest ->
  n = numop l + 1 -> v = aset (vars s) i (Buf READ_PENDING last ifd (off l) BSZ b) ->
  rot_ok (Locals n (off l + BSZ) al) (Proc rest (history s ++ [Called (AioRead i ifd (off l) BSZ) a]) e v).
Proof.
  intros Hr Hi Eop Hlt Hal a rest e v Ha Es -> ->. pose proof (ro_bufs _ _ Hr) as Hlen.
  destruct (ro_off _ _ Hr) as (j & Hj & Ej & _).
  assert (Hno : forall w, w ∈ begun (history s) -> slot w <> i).
  { pose proof (ro_slot _ _ Hr i Hi) as Hs. unfold slot_ok in Hs. by rewrite Eop in Hs. }
  assert (Hbegun : begun (history s ++ [Called (AioRead i ifd (off l) BSZ) a]) = begun (history s))
    by (rewrite begun_snoc; simpl; by rewrite app_nil_r).
  split; simpl; rewrite ?Hbegun; try done; try (by apply opened_as_app, Hr).
  - by rewrite Zlen_aset.
  - exists (j + 1). unfold BSZ in *. lia.
  - intros k Hk. destruct (decide (k = i)) as [->|Hne].
    + rewrite aget_aset_eq by lia. unfold slot_ok. simpl. split; [|split].
      * exists j. unfold BSZ in *. simpl. lia.
      * rewrite last_aio_snoc. simpl. rewrite Z.eqb_refl. destruct (Z.leb_spec 0 (a_ret a)); [done|lia].
      * by rewrite Hbegun.
    + rewrite aget_aset_ne by lia. pose proof (ro_slot _ _ Hr k Hk) as Hs. unfold slot_ok in *.
      assert (Hblock : block_of l (aget (vars s) k) -> block_of (Locals (numop l + 1) (off l + BSZ) al) (aget (vars s) k)).
      { intros (m & ? & ? & ? & ?). exists m. unfold BSZ in *. simpl. lia. }
      rewrite Hbegun, last_aio_snoc. simpl. destruct (Z.eqb_spec i k); [congruence|]. simpl.
      destruct (op (aget (vars s) k)); naive_solver.
  - intros k m Hk Hm Hne. pose proof (ro_slot _ _ Hr) as Hs.
    assert (Hother : forall q, 0 <= q < 8 -> op (aget (vars s) q) <> UNUSED -> aio_offset (aget (vars s) q) < off l).
    { intros q Hq Hu. specialize (Hs q Hq). unfold slot_ok in Hs. destruct (op (aget (vars s) q)) eqn:E; [done| |].
      - destruct Hs as ((? & ? & ? & ? & ?) & _). lia.
      - destruct Hs as (? & ? & ? & ? & ?). lia. }
    destruct (decide (k = i)) as [->|Hki]; destruct (decide (m = i)) as [->|Hmi]; [done|..];
      rewrite ?aget_aset_eq, ?aget_aset_ne by lia; simpl.
    + intros _ Hu. specialize (Hother m Hm Hu). lia.
    + intros Hu _. specialize (Hother k Hk Hu). lia.
    + by apply (ro_dist _ _ Hr).
  - eapply Forall_impl; [apply Forall_and; split; [apply (ro_writes _ _ Hr)|apply Forall_forall; exact Hno]|].
    intros w [(H1 & H2 & H3 & H4) Hne]. unfold write_ok. by rewrite aget_aset_ne by lia.
  - apply (ro_slots _ _ Hr).
  - pose proof (ro_num _ _ Hr) as Hn. rewrite Es in Hn. unfold Zlen in *. simpl in *. lia.
Qed.

(** Writing the translated block begins. *)
Lemma rot_ok_write l s i b d n : rot_ok l s -> 0 <= i < 8 -> b = aget (vars s) i -> op b = READ_PENDING ->
  d = block input (aio_offset b) -> forall a rest e v, 0 <= a_ret a -> script s = a :: rest ->
  v = aset (vars s) i (Buf WRITE_PENDING (last_ b) ofd (aio_offset b) n d) ->
  rot_ok l (Proc rest (history s ++ [Called (AioWrite i ofd (aio_offset b) d) a]) e v).
Proof.
  intros Hr Hi Eb Eop Ed a rest e v Ha Es ->. pose proof (ro_bufs _ _ Hr) as Hlen.
  pose proof (ro_slot _ _ Hr i Hi) as Hs. unfold slot_ok in Hs. rewrite <-Eb, Eop in Hs.
  destruct Hs as (Hblock & _ & Hno).
  assert (Hbegun : begun (history s ++ [Called (AioWrite i ofd (aio_offset b) d) a]) =
      begun (history s) ++ [(i, ofd, aio_offset b, d)]).
  { rewrite begun_snoc. simpl. by destruct (Z.leb_spec 0 (a_ret a)); [|lia]. }
  split; simpl; rewrite ?Hbegun; try (by apply Hr); try (by apply opened_as_app, Hr).
  - rewrite Zlen_aset. apply Hr.
  - intros k Hk. destruct (decide (k = i)) as [->|Hne]; [by rewrite aget_aset_eq by lia|].
    rewrite aget_aset_ne by lia. pose proof (ro_slot _ _ Hr k Hk) as Hk2. unfold slot_ok in *.
    rewrite Hbegun, last_aio_snoc. simpl. destruct (Z.eqb_spec i k); [congruence|]. simpl.
    assert (Hw : (forall w, w ∈ begun (history s) -> slot w <> k) ->
      forall w, w ∈ begun (history s) ++ [(i, ofd, aio_offset b, d)] -> slot w <> k).
    { intros Hall w [Hin| ->%list_elem_of_singleton]%elem_of_app; [by apply Hall|done]. }
    destruct (op (aget (vars s) k)); naive_solver.
  - intros k m Hk Hm Hne.
    assert (Hoff : forall q, 0 <= q < 8 -> aio_offset (aget (aset (vars s) i
      (Buf WRITE_PENDING (last_ b) ofd (aio_offset b) n d)) q) = aio_offset (aget (vars s) q)).
    { intros q Hq. destruct (decide (q = i)) as [->|]; [by rewrite aget_aset_eq, Eb by lia|by rewrite aget_aset_ne by lia]. }
    assert (Hop : forall q, 0 <= q < 8 -> op (aget (aset (vars s) i
      (Buf WRITE_PENDING (last_ b) ofd (aio_offset b) n d)) q) <> UNUSED -> op (aget (vars s) q) <> UNUSED).
    { intros q Hq. destruct (decide (q = i)) as [->|]; [by rewrite <-Eb, Eop|by rewrite aget_aset_ne by lia]. }
    intros Hu Hv. rewrite !Hoff by done. apply (ro_dist _ _ Hr); auto.
  - apply Forall_app. split.
    + eapply Forall_impl; [apply Forall_and; split; [apply (ro_writes _ _ Hr)|apply Forall_forall; exact Hno]|].
      intros w [(H1 & H2 & H3 & H4) Hne]. unfold write_ok. by rewrite aget_aset_ne by lia.
    + constructor; [|done]. unfold write_ok, slot, place. simpl. by rewrite aget_aset_eq by lia.
  - rewrite map_app. apply NoDup_app. split; [apply Hr|]. split; [|apply NoDup_singleton].
    intros j (w & <- & Hw%list_elem_of_In)%list_elem_of_In%in_map_iff. simpl. rewrite list_elem_of_singleton. by apply Hno.
  - pose proof (ro_num _ _ Hr) as Hn. rewrite Es in Hn. unfold Zlen in *. simpl in *. lia.
Qed.

(** *** The steps of the loop *)

Lemma wp_getbuf i (Q : buf -> proc bufs -> Prop) X s : 0 <= i < Zlen (vars s) ->
  Q (aget (vars s) i) s -> wp (getbuf i) Q X s.
Proof.
  intros Hi HQ. unfold getbuf, getvar. apply wp_bind, wp_gets. apply wp_bind, wp_guard; [destruct Hi; apply andb_true_intro; split; [by apply Z.leb_le|by apply Z.ltb_lt]|].
  by apply wp_ret.
Qed.

Lemma wp_finished l i t (Q : bool -> proc bufs -> Prop) s : rot_ok l s ->
  (forall b s', rot_ok l s' -> undisturbed s s' ->
     (length (script s') < length (script s))%nat -> Q b s') ->
  wp (finished strerror i t) Q rot_end s.
Proof.
  intros Hr HQ. unfold finished. apply wp_bind, (wp_calm_ret l); [done|done|]. intros a s1 Hr1 Hv Hlt.
  destruct (_ =? EINPROGRESS); [by apply wp_ret, HQ|].
  destruct (negb _); [|by apply wp_ret, HQ].
  destruct (_ =? -1); [by apply (wp_err_sys_rot l)|by apply (wp_err_exit_rot l)].
Qed.

(** A call that begins an operation: it succeeds, or the program ends. *)
Lemma wp_begin {A} c (t : bytes) (k : rot A) (Q : A -> proc bufs -> Prop) s0 s l : rot_ok l s0 -> history s = history s0 ->
  (forall a rest, script s = a :: rest -> 0 <= a_ret a -> wp k Q rot_end (answered c a rest s)) ->
  (forall a, a_ret a < 0 -> begun_by (Called c a) = []) ->
  wp (r <- sysret c ;; (when r <? 0 do err_sys strerror t) ;; k) Q rot_end s.
Proof.
  intros Hr Eh Hk Hb. assert (Hw : written_ok input outpath (history s)) by (rewrite Eh; by apply (rot_ok_writes l)).
  unfold sysret. apply wp_bind, wp_bind, wp_sys.
  - intros a rest Es _. apply wp_ret, wp_bind. destruct (Z.ltb_spec (a_ret a) 0) as [Hneg|Hpos].
    + unfold err_sys. apply wp_bind, wp_gets. apply wp_bind, wp_err_doit. intros b. apply wp_exit.
      split; [|by left]. simpl. apply written_ok_snoc; [done|]. apply written_ok_snoc; [by apply Hb|done].
    + apply wp_ret. by apply Hk.
  - split; [|by right]. simpl. by apply written_ok_snoc.
Qed.

(** What one step of the scan does to buffer [i]. *)
Definition moved (i : Z) l s l' s' : Prop :=
  ((op (aget (vars s) i) = UNUSED -> size <= off l) /\ numop l' = numop l /\ off l' = off l /\
     begun (history s') = begun (history s) /\ vars s' = vars s) \/
  (op (aget (vars s) i) = UNUSED /\ off l < size /\ numop l' = numop l + 1 /\ off l' = off l + BSZ /\
     begun (history s') = begun (history s) /\
     exists b, op b = READ_PENDING /\ vars s' = aset (vars s) i b) \/
  (op (aget (vars s) i) = READ_PENDING /\ numop l' = numop l /\ off l' = off l /\ begun (history s') <> [] /\
     exists b, op b = WRITE_PENDING /\ vars s' = aset (vars s) i b) \/
  (op (aget (vars s) i) = WRITE_PENDING /\ numop l' = numop l - 1 /\ off l' = off l /\
     begun (history s') = begun (history s) /\ vars s' = vars s).

Lemma moved_undisturbed i l s s' : op (aget (vars s) i) <> UNUSED -> undisturbed s s' -> moved i l s l s'.
Proof. intros Hop (V & B & _). by left. Qed.

Lemma wp_start_read i l (Q : locals -> proc bufs -> Prop) s : rot_ok l s -> 0 <= i < 8 ->
  op (aget (vars s) i) = UNUSED -> off l < size ->
  (forall l' s', rot_ok l' s' -> moved i l s l' s' -> (length (script s') < length (script s))%nat -> Q l' s') ->
  wp (start_read strerror ifd size i (aget (vars s) i) l) Q rot_end s.
Proof.
  intros Hr Hi Eop Hlt HQ. unfold start_read. destruct (ro_off _ _ Hr) as (j & Hj & Ej & _).
  apply wp_bind, wp_guard; [unfold BSZ; lia|]. unfold putbuf, setvars. apply wp_bind, wp_modify.
  apply (wp_begin _ _ _ _ s _ l); [done|done| |by intros a Ha].
  intros a rest Es Ha. simpl in Es.
  pose proof (ro_num _ _ Hr) as Hnum. rewrite Es in Hnum. unfold Zlen in Hnum. simpl in Hnum.
  apply wp_bind, wp_int32; [unfold INT_MIN, INT_MAX in *; lia|]. apply wp_ret.
  apply HQ; [| |simpl; rewrite Es; simpl; lia].
  - eapply (rot_ok_start l s i); try done. rewrite Zlen_aset. apply Hr.
  - right; left. split_and!; try done; [|eexists; split; [|reflexivity]; done]. simpl. rewrite begun_snoc. simpl. by rewrite app_nil_r.
Qed.

Lemma wp_read_done i l (Q : locals -> proc bufs -> Prop) s : rot_ok l s -> 0 <= i < 8 ->
  op (aget (vars s) i) = READ_PENDING ->
  (forall s', rot_ok l s' -> moved i l s l s' -> (length (script s') < length (script s))%nat -> Q l s') ->
  wp (read_done strerror ofd i (aget (vars s) i) l) Q rot_end s.
Proof.
  intros Hr Hi Eop HQ. unfold read_done. apply wp_bind, (wp_finished l); [done|].
  intros ok s1 Hr1 Hu1 Hlt1. destruct (negb ok); [apply wp_ret, HQ; [done|by apply moved_undisturbed; [congruence|]|done]|].
  apply wp_bind, (wp_calm l); [done|done|]. intros a s2 Ha Hr2 Hu2 Hlt2.
  apply wp_bind. destruct (Z.ltb_spec (a_ret a) 0) as [|Hpos]; [by apply (wp_err_sys_rot l)|]. apply wp_ret.
  apply wp_bind. destruct (_ && _); [by apply (wp_err_quit_rot l)|]. apply wp_ret.
  pose proof (ro_slot _ _ Hr i Hi) as Hs. unfold slot_ok in Hs. rewrite Eop in Hs.
  destruct Hs as ((k & Hk & Ek & _) & Hlast & _). set (b := aget (vars s) i) in *.
  destruct (proj1 Kfile _ i a ifd (aio_offset b) BSZ Ha) as [Ed En]; [by rewrite (proj2 (proj2 Hu1))|apply Hr1|done|].
  set (d := map translate (take (Z.to_nat (a_ret a)) (a_data a))).
  assert (Eblock : d = block input (aio_offset b)).
  { unfold d, block, seg. rewrite En. unfold Zlen. rewrite Nat2Z.id, take_ge by done. rewrite Ed. do 3 f_equal. lia. }
  destruct (undisturbed_trans _ _ _ Hu1 Hu2) as (Ev & Eb & _).
  unfold putbuf, setvars. apply wp_bind, wp_modify.
  apply (wp_begin _ _ _ _ s2 _ l); [done|done| |].
  - intros c rest Es Hc. apply wp_ret. apply HQ; [| |simpl in *; apply (f_equal length) in Es; simpl in *; lia].
    + eapply (rot_ok_write l s2 i b); try done; by rewrite Ev.
    + right; right; left. split_and!; try done.
      * simpl. rewrite begun_snoc. simpl. destruct (Z.leb_spec 0 (a_ret c)); [|lia].
        intros E. by apply app_eq_nil in E as [_ E].
      * eexists. split; [|by rewrite <-Ev]. done.
  - intros c Hc. simpl. by destruct (Z.leb_spec 0 (a_ret c)); [lia|].
Qed.

Lemma wp_write_done i l (Q : locals -> proc bufs -> Prop) s b : rot_ok l s ->
  op (aget (vars s) i) = WRITE_PENDING ->
  (forall l' s', rot_ok l' s' -> moved i l s l' s' -> (length (script s') < length (script s))%nat -> Q l' s') ->
  wp (write_done strerror i b l) Q rot_end s.
Proof.
  intros Hr Eop HQ. unfold write_done. apply wp_bind, (wp_finished l); [done|].
  intros ok s1 Hr1 Hu1 Hlt1. destruct (negb ok); [apply wp_ret, HQ; [done|by apply moved_undisturbed; [congruence|]|done]|].
  apply wp_bind, (wp_calm_ret l); [done|done|]. intros a s2 Hr2 Hu2 Hlt2.
  apply wp_bind. destruct (a_ret a <? 0); [by apply (wp_err_sys_rot l)|]. apply wp_ret.
  apply wp_bind. destruct (negb _); [by apply (wp_err_quit_rot l)|]. apply wp_ret.
  pose proof (ro_num _ _ Hr1) as Hnum. pose proof (ro_num _ _ Hr2) as Hnum2. unfold Zlen in *.
  destruct (undisturbed_trans _ _ _ Hu1 Hu2) as (Ev & Eb & _).
  apply wp_bind, wp_int32; [unfold INT_MIN, INT_MAX in *; lia|]. apply wp_ret.
  apply HQ; [|by do 3 right|lia]. destruct Hr2. split; simpl; try done.
  - by rewrite Zlen_aset.
  - unfold Zlen in *. lia.
Qed.

Lemma wp_scan_buf i l (Q : locals -> proc bufs -> Prop) s : rot_ok l s -> 0 <= i < 8 ->
  (forall l' s', rot_ok l' s' -> moved i l s l' s' -> (length (script s') <= length (script s))%nat ->
     (off l < size -> (length (script s') < length (script s))%nat) -> Q l' s') ->
  wp (scan_buf strerror ifd ofd size i l) Q rot_end s.
Proof.
  intros Hr Hi HQ. unfold scan_buf. apply wp_bind, wp_getbuf; [rewrite (ro_bufs _ _ Hr); lia|].
  destruct (op (aget (vars s) i)) eqn:Eop.
  - destruct (Z.ltb_spec (off l) size).
    + apply wp_start_read; try done. intros l' s' H1 H2 H3. apply HQ; (done || lia).
    + apply wp_ret, HQ; (done || lia || by left).
  - apply wp_read_done; try done. intros s' H1 H2 H3. apply HQ; (done || lia).
  - apply wp_write_done; try done. intros l' s' H1 H2 H3. apply HQ; (done || lia).
Qed.

Lemma moved_off i l s l' s' : moved i l s l' s' -> off l <= off l'.
Proof. unfold moved, BSZ. lia. Qed.

Lemma wp_rot_scan l (Q : locals -> proc bufs -> Prop) s : rot_ok l s ->
  (forall l' s', rot_ok l' s' -> (length (script s') <= length (script s))%nat ->
     (off l' < size -> (length (script s') < length (script s))%nat) -> Q l' s') ->
  wp (scan strerror ifd ofd size l) Q rot_end s.
Proof.
  intros Hr HQ. unfold scan.
  apply (wp_loop (fun '(i, l') s' => 0 <= i <= 8 /\ rot_ok l' s' /\ off l <= off l' /\
      (length (script s') <= length (script s))%nat /\
      (0 < i -> off l' < size -> (length (script s') < length (script s))%nat))
    (fun '(i, _) _ => Z.to_nat (8 - i))).
  { split_and!; (done || lia). }
  { lia. }
  intros [i l1] s1 (Hi & Hr1 & Hoff & Hlen & Hlt). unfold NBUF. destruct (Z.ltb_spec i 8).
  - apply wp_bind, wp_scan_buf; [done|lia|]. intros l2 s2 Hr2 Hoff2%moved_off Hlen2 Hlt2. apply wp_ret.
    split; [|lia]. split_and!; [lia|lia|done|lia|lia|]. intros _ Ho. specialize (Hlt2 ltac:(lia)). lia.
  - apply wp_ret. apply HQ; [done|done|]. apply Hlt. lia.
Qed.

Lemma wp_rot_round l (Q : locals + unit -> proc bufs -> Prop) s : rot_ok l s ->
  (forall l' s', rot_ok l' s' -> (length (script s') < length (script s))%nat -> Q (inl l') s') ->
  (forall l' s', rot_ok l' s' -> Q (inr tt) s') ->
  wp (rot_round strerror ifd ofd size l) Q rot_end s.
Proof.
  intros Hr HQ HR. unfold rot_round. apply wp_bind, wp_rot_scan; [done|]. intros l1 s1 Hr1 Hlen Hlt.
  destruct (numop l1 =? 0).
  - destruct (Z.leb_spec size (off l1)); apply wp_ret; [by eapply HR|]. apply HQ; [done|by apply Hlt].
  - apply wp_bind, (wp_calm_ret l1); [done|done|]. intros a s2 Hr2 _ Hlt2.
    apply wp_bind. destruct (_ <? _); [by apply (wp_err_sys_rot l1)|]. apply wp_ret, wp_ret. apply HQ; [done|lia].
Qed.

Lemma wp_rot_loop l (Q : unit -> proc bufs -> Prop) s : rot_ok l s ->
  (forall l' s', rot_ok l' s' -> Q tt s') ->
  wp (forever (rot_round strerror ifd ofd size) l) Q rot_end s.
Proof.
  intros Hr HQ. apply (wp_forever rot_ok); [done|]. intros l1 s1 Hr1. apply wp_rot_round; [done| |].
  - intros l2 s2 Hr2 Hlt. done.
  - intros l2 s2 Hr2. by eapply HQ.
Qed.

(** *** Files of one block *)

Definition unused_from (k : Z) (bs : bufs) : Prop := forall i, k <= i < 8 -> op (aget bs i) = UNUSED.

(** Before the first buffer is looked at in a round, and after it. *)
Definition small_before l s : Prop :=
  off l = 0 /\ numop l = 0 /\ unused_from 0 (vars s) \/
  off l = BSZ /\ numop l = 1 /\ unused_from 1 (vars s) /\
    (op (aget (vars s) 0) = READ_PENDING \/ op (aget (vars s) 0) = WRITE_PENDING /\ begun (history s) <> []).
Definition small_after l s : Prop :=
  off l = BSZ /\ unused_from 1 (vars s) /\
  (numop l = 1 /\ (op (aget (vars s) 0) = READ_PENDING \/ op (aget (vars s) 0) = WRITE_PENDING /\ begun (history s) <> []) \/
   numop l = 0 /\ begun (history s) <> []).

Lemma small_first l s l' s' : 0 < size -> rot_ok l s -> small_before l s -> moved 0 l s l' s' -> small_after l' s'.
Proof.
  intros Hpos Hr Hb Hm. pose proof (ro_bufs _ _ Hr) as Hlen.
  assert (Hset : forall b, unused_from 1 (vars s) -> unused_from 1 (aset (vars s) 0 b))
    by (intros b Hu i Hi; rewrite aget_aset_ne by lia; by apply Hu).
  destruct Hb as [(Eoff & Enum & Hu)|(Eoff & Enum & Hu & Hop)].
  - assert (Hu1 : unused_from 1 (vars s)) by (intros i Hi; apply Hu; lia).
    assert (E0 : op (aget (vars s) 0) = UNUSED) by (apply Hu; lia).
    destruct Hm as [(E0' & E1 & E2 & E3 & E4)|[(_ & _ & E1 & E2 & E3 & b & Eb & E4)|[(E & _)|(E & _)]]]; [|..|congruence|congruence].
    + specialize (E0' E0). lia.
    + unfold small_after. rewrite E4, E2, E1. split; [lia|]. split; [by apply Hset|]. left. split; [lia|]. left.
      by rewrite aget_aset_eq by lia.
  - destruct Hm as [(E0' & E1 & E2 & E3 & E4)|[(E & _)|[(E & E1 & E2 & E3 & b & Eb & E4)|(E & E1 & E2 & E3 & E4)]]].
    + unfold small_after. rewrite E4, E3, E2, E1. split_and!; [done..|]. left. done.
    + destruct Hop as [?|[? _]]; congruence.
    + unfold small_after. rewrite E4, E2, E1. split_and!; [done|by apply Hset|]. left. split; [done|]. right.
      by rewrite aget_aset_eq by lia.
    + unfold small_after. rewrite E4, E3, E2, E1. split_and!; [done..|]. right. split; [lia|].
      destruct Hop as [?|[_ ?]]; [congruence|done].
Qed.

Lemma small_rest i l s l' s' : size <= BSZ -> 1 <= i < 8 -> small_after l s -> moved i l s l' s' -> small_after l' s'.
Proof.
  intros Hs Hi (Eoff & Hu & Hor) Hm. pose proof (Hu i Hi) as Eop.
  destruct Hm as [(_ & E1 & E2 & E3 & E4)|[(_ & ? & _)|[(E & _)|(E & _)]]]; [|lia|congruence|congruence].
  unfold small_after. by rewrite E4, E3, E2, E1.
Qed.

Lemma wp_rot_scan_small l (Q : locals -> proc bufs -> Prop) s : 0 < size <= BSZ -> rot_ok l s -> small_before l s ->
  (forall l' s', rot_ok l' s' -> small_after l' s' -> (length (script s') <= length (script s))%nat -> Q l' s') ->
  wp (scan strerror ifd ofd size l) Q rot_end s.
Proof.
  intros Hs Hr Hb HQ. unfold scan.
  apply (wp_loop (fun '(i, l') s' => 0 <= i <= 8 /\ rot_ok l' s' /\
      (length (script s') <= length (script s))%nat /\
      (if i =? 0 then small_before l' s' else small_after l' s'))
    (fun '(i, _) _ => Z.to_nat (8 - i))).
  { split_and!; (done || lia). }
  { lia. }
  intros [i l1] s1 (Hi & Hr1 & Hlen & Hsm). unfold NBUF. destruct (Z.ltb_spec i 8).
  - apply wp_bind, wp_scan_buf; [done|lia|]. intros l2 s2 Hr2 Hm Hlen2 _. apply wp_ret.
    split; [|lia]. split_and!; [lia|lia|done|lia|]. destruct (Z.eqb_spec (i + 1) 0); [lia|].
    destruct (Z.eqb_spec i 0) as [->|]; [by apply (small_first l1 s1); [lia|..]|by apply (small_rest i l1 s1); [lia|lia|..]].
  - apply wp_ret. destruct (Z.eqb_spec i 0); [lia|]. by apply HQ.
Qed.

Lemma wp_small_loop l (Q : unit -> proc bufs -> Prop) s : 0 < size <= BSZ -> rot_ok l s -> small_before l s ->
  (forall l' s', rot_ok l' s' -> begun (history s') <> [] -> Q tt s') ->
  wp (forever (rot_round strerror ifd ofd size) l) Q rot_end s.
Proof.
  intros Hs Hr Hb HQ. apply (wp_forever (fun l s => rot_ok l s /\ small_before l s)); [done|].
  intros l1 s1 [Hr1 Hb1]. unfold rot_round. apply wp_bind, wp_rot_scan_small; [done..|].
  intros l2 s2 Hr2 (Eoff & Hu & Hor) Hlen. destruct (Z.eqb_spec (numop l2) 0) as [E0|Hne].
  - destruct Hor as [[? _]|[_ Hw]]; [lia|]. destruct (Z.leb_spec size (off l2)); [|lia]. apply wp_ret. by apply (HQ l2).
  - destruct Hor as [[E1 Hop]|[? _]]; [|lia]. apply wp_bind, (wp_calm_ret l2); [done|done|].
    intros a s3 Hr3 (Ev & Eb & _) Hlt. apply wp_bind. destruct (_ <? _); [by apply (wp_err_sys_rot l2)|]. apply wp_ret, wp_ret.
    split; [|lia]. split; [done|]. right. by rewrite Ev, Eb.
Qed.

(** At the start. *)
Lemma bufs0_unused : unused_from 0 bufs0.
Proof.
  intros i Hi.
  assert (i = 0 \/ i = 1 \/ i = 2 \/ i = 3 \/ i = 4 \/ i = 5 \/ i = 6 \/ i = 7) as Hc by lia.
  by destruct Hc as [->|[->|[->|[->|[->|[->|[->| ->]]]]]]].
Qed.

Lemma rot_ok_start0 s : vars s = bufs0 -> begun (history s) = [] -> Zlen (script s) <= Z.of_nat len0 ->
  opened_as inpath O_RDONLY (history s) ifd -> opened_as outpath OUT_FLAGS (history s) ofd ->
  rot_ok (Locals 0 0 (replicate 8 false)) s.
Proof.
  intros Ev Eb Hlen Hin Hout.
  assert (Hun : unused_from 0 (vars s)) by (rewrite Ev; exact bufs0_unused).
  split; simpl; rewrite ?Eb; try done.
  - by rewrite Ev.
  - exists 0. unfold BSZ. pose proof (Zlen_nonneg input). lia.
  - intros i Hi. unfold slot_ok. rewrite Hun by done. rewrite Eb. intros w Hw. by apply elem_of_nil in Hw.
  - intros i j Hi Hj _ Hne. by rewrite Hun in Hne.
  - constructor.
  - lia.
Qed.
End rot.

(** ** The program *)

(** How the program ends: a file of one block is then written, if all went well. *)
Definition rot_final (input path : bytes) (c : Z) (s : proc bufs) : Prop :=
  written_ok input path (history s) /\ (c = 0 \/ c = 1 \/ c = WAITING) /\
  (c = 0 -> 0 < Zlen input <= BSZ -> begun (history s) <> []).

Lemma wp_up {A} input path (m : rot A) (Q : A -> proc bufs -> Prop) s : wp m Q (rot_end path input) s -> wp m Q (rot_final input path) s.
Proof. intros Hm. eapply wp_mono; [exact Hm|done|]. intros c s' [Hw Hc]. split_and!; [done|tauto|]. unfold WAITING in *. lia. Qed.

Section program.
Context `{Kernel} (strerror : Z -> bytes) (input inpath outpath : bytes).
Hypothesis Kfile : reads_file inpath input.
Hypothesis Hsize : Zlen input < 2 ^ 62.
Notation final := (rot_final input outpath).

(** Nothing is read or written yet. *)
Record fresh (len0 : nat) (s : proc bufs) : Prop := {
  f_vars : vars s = bufs0;
  f_begun : begun (history s) = [];
  f_script : Zlen (script s) <= Z.of_nat len0;
}.

Lemma fresh_written len0 s e : fresh len0 s -> begun_by e = [] -> written_ok input outpath (history s ++ [e]).
Proof. intros [_ Eb _] He. unfold written_ok. rewrite begun_snoc, Eb, He. split; [by split_and!; [|constructor|]|constructor]. Qed.

(** A call whose failure ends the program, before anything is read. *)
Lemma wp_rot_fetch {A} len0 c t (k : answer -> rot A) (Q : A -> proc bufs -> Prop) s : fresh len0 s -> calm_call c = true ->
  (forall a s', may (history s) c a = true -> 0 <= a_ret a -> fresh len0 s' -> history s' = history s ++ [Called c a] ->
     wp (k a) Q final s') ->
  wp (a <- sys c ;; (when a_ret a <? 0 do err_sys strerror t) ;; k a) Q final s.
Proof.
  intros Hf Hc Hk. pose proof Hf as [Ev Eb El]. assert (Hb : forall e, match e with Called c' _ | Waiting c' => c' = c | _ => True end -> begun_by e = []).
  { intros [c' a|c'|t'|t'|t'|t'|p t']; try done. intros ->. by destruct c. }
  apply wp_bind, wp_sys_at.
  - intros a rest Es Ha. apply wp_bind. assert (Hf' : fresh len0 (answered c a rest s)).
    { split; [done| |]; simpl; [by rewrite begun_snoc, Eb, Hb|]. rewrite Es in El. unfold Zlen in *. simpl in *. lia. }
    destruct (Z.ltb_spec (a_ret a) 0); [|by apply wp_ret, Hk].
    unfold err_sys. apply wp_bind, wp_gets. apply wp_bind, wp_err_doit. intros b. apply wp_exit.
    split_and!; [by eapply fresh_written|by right; left|done].
  - split_and!; [by eapply fresh_written, Hb|by right; right|done].
Qed.

Lemma sysret_bind {A} c (k : Z -> rot A) s : bind (sysret c) k s = bind (sys c) (fun a => k (a_ret a)) s.
Proof. unfold sysret, bind. by destruct (sys c s). Qed.

(** After the loop: the output is synchronised. *)
Lemma wp_rot_end ifd ofd len0 l s : Z.of_nat len0 <= INT_MAX -> rot_ok inpath outpath input ifd ofd len0 l s ->
  (0 < Zlen input <= BSZ -> begun (history s) <> []) ->
  wp (b <- getbuf 0 ;; putbuf 0 (Buf (op b) (last_ b) ofd (aio_offset b) (aio_nbytes b) (data b)) ;;
      r <- sysret (AioFsync 0 ofd) ;; (when r <? 0 do err_sys strerror (B "aio_fsync failed")) ;; exit_ 0)
    (fun (_ : unit) _ => False) final s.
Proof.
  intros Hlen0 Hr Hne. assert (Hw : written_ok input outpath (history s)) by by eapply (rot_ok_writes strerror inpath outpath input ifd ofd len0).
  apply wp_bind, wp_getbuf; [rewrite (ro_bufs _ _ _ _ _ _ _ _ Hr); lia|].
  unfold putbuf, setvars. apply wp_bind, wp_modify. unfold sysret. apply wp_bind, wp_bind, wp_sys.
  - intros a rest _ _. apply wp_ret, wp_bind. destruct (_ <? _).
    + unfold err_sys. apply wp_bind, wp_gets. apply wp_bind, wp_err_doit. intros b. apply wp_exit.
      split_and!; [|by right; left|done]. simpl. apply written_ok_snoc; [done|]. by apply written_ok_snoc.
    + apply wp_ret, wp_exit. split_and!; [by apply written_ok_snoc|by left|]. simpl. by rewrite silent_begun.
  - split_and!; [by apply written_ok_snoc|by right; right|done].
Qed.

Lemma wp_rot13 argv s : aget argv 1 = inpath -> aget argv 2 = outpath ->
  history s = [] -> vars s = bufs0 -> Zlen (script s) <= INT_MAX ->
  wp (rot13 strerror argv) (fun _ _ => False) final s.
Proof.
  intros Ein Eout Eh Ev Hlen. set (len0 := length (script s)). set (l0 := Locals 0 0 (replicate 8 false)).
  assert (Hlen0 : Z.of_nat len0 <= INT_MAX) by done.
  assert (Hf : fresh len0 s) by (split; [done|by rewrite Eh|done]).
  unfold rot13. rewrite Ein, Eout. apply wp_bind. destruct (negb _).
  { unfold err_quit. apply wp_bind, wp_err_doit. intros b. apply wp_exit. split_and!; [by eapply fresh_written|by right; left|done]. }
  apply wp_ret. eapply wp_eq; [apply sysret_bind|]. apply (wp_rot_fetch len0); [done..|]. intros a1 s1 _ _ Hf1 E1.
  eapply wp_eq; [apply sysret_bind|]. apply (wp_rot_fetch len0); [done..|]. intros a2 s2 _ _ Hf2 E2.
  apply (wp_rot_fetch len0); [done..|]. intros st s3 Hst Hpos [V3 B3 L3] E3.
  assert (Hin : opened_as inpath O_RDONLY (history s2) (a_ret a1)).
  { exists a1. split; [|done]. rewrite E2, E1. apply elem_of_app. left. apply elem_of_app. right. by left. }
  assert (Hout : opened_as outpath OUT_FLAGS (history s2) (a_ret a2)).
  { exists a2. split; [|done]. rewrite E2. apply elem_of_app. right. by left. }
  assert (Es : a_num st = Zlen input) by (by apply (proj2 Kfile (history s2) (a_ret a1))). rewrite Es.
  unfold setvars. apply wp_bind, wp_modify. match goal with |- wp _ _ _ ?x => set (s4 := x) end.
  assert (Hr4 : rot_ok inpath outpath input (a_ret a1) (a_ret a2) len0 l0 s4).
  { apply rot_ok_start0; simpl; [by rewrite V3|done|done|rewrite E3; by apply opened_as_app..]. }
  apply wp_bind. destruct (decide (0 < Zlen input <= BSZ)) as [Hsm|Hsm].
  - eapply (wp_mono _ (fun _ s5 => exists l, rot_ok inpath outpath input (a_ret a1) (a_ret a2) len0 l s5 /\ begun (history s5) <> []) _ (rot_end outpath input)).
    + eapply (wp_small_loop strerror inpath outpath input (a_ret a1) (a_ret a2) len0); [done..|exact Hr4| |eauto].
      left. split_and!; [done..|]. simpl. rewrite V3. exact (bufs0_unused len0).
    + intros _ s5 (l & Hr5 & Hne). by apply (wp_rot_end (a_ret a1) (a_ret a2) len0 l).
    + intros c s' [Hw Hc]. split_and!; [done|tauto|unfold WAITING in *; lia].
  - eapply (wp_mono _ (fun _ s5 => exists l, rot_ok inpath outpath input (a_ret a1) (a_ret a2) len0 l s5) _ (rot_end outpath input)).
    + eapply (wp_rot_loop strerror inpath outpath input (a_ret a1) (a_ret a2) len0); [done..|exact Hr4|eauto].
    + intros _ s5 (l & Hr5). by apply (wp_rot_end (a_ret a1) (a_ret a2) len0 l).
    + intros c s' [Hw Hc]. split_and!; [done|tauto|unfold WAITING in *; lia].
Qed.
End program.


(** A kernel with the file [input], whose asynchronous reads give what is there. *)
Definition aio_linux (input : bytes) : Kernel := fun h c a =>
  match c with
  | AioReturn i =>
      match last_aio i h with
      | Some (AioRead _ _ o n) => (a_ret a <? 0) || (bool_decide (a_data a = take (Z.to_nat n) (drop (Z.to_nat o) input))
                                   && (a_ret a =? Zlen (a_data a)))
      | Some (AioWrite _ _ _ d) => (a_ret a =? Zlen d) || (a_ret a =? -1)
      | _ => a_ret a =? -1
      end
  | Fstat _ => (a_ret a =? -1) || (a_num a =? Zlen input)
  | _ => true
  end.

Lemma aio_linux_reads path input : @reads_file (aio_linux input) path input.
Proof.
  split.
  - intros h i a fd o n Ha El _ Hpos. unfold may, aio_linux in Ha. rewrite El in Ha.
    apply orb_prop in Ha as [Ha|[Hd Hn]%andb_prop]; [lia|]. apply bool_decide_eq_true in Hd. split; [done|lia].
  - intros h fd a Ha _ Hpos. unfold may, aio_linux in Ha. lia.
Qed.

Definition read_answer (b : bytes) : answer := Ans (Zlen b) 0 b (Addr 0 0) [] [] 0 no_stat.
Definition size_answer (n : Z) : answer := Ans 0 0 [] (Addr 0 0) [] [] n no_stat.

(** Read, suspend, read done, write, suspend, write done, synchronise. *)
Definition one_block : list answer :=
  [number 3; number 4; size_answer 5; number 0; number 0; number 0; read_answer (B "Hello"); number 0; number 0;
   number 0; number 5; number 0].


Example one_block_written :
  match @rot13 (aio_linux (B "Hello")) (fun _ => []) [B "rot13"; B "a"; B "b"] (Proc one_block [] 0 bufs0) with
  | Exit c s' => (c, begun (history s'))
  | _ => (-1, [])
  end = (0, [(0, 4, 0, B "Uryyb")]).
Proof. vm_compute. reflexivity. Qed.

(** ** Longer files *)

(** Two blocks; the second read is still in progress whenever it is asked for,
    and the buffer of the first, which stays [WRITE_PENDING], is counted twice. *)
Definition two_blocks : bytes := replicate 4097 65.
Definition slow_second : list answer :=
  [number 3; number 4; size_answer 4097;
   number 0; number 0; number 0; (* two reads, suspend *)
   number 0; read_answer (replicate 4096 65); number 0; number 115; number 0; (* the first is done, its write begins *)
   number 0; number 4096; number 115; number 0; (* the write is done *)
   number 0; number 4096; number 115; (* and again: no operation seems to be left *)
   number 0].

(** A file of two blocks may be written half: rot13 leaves a buffer whose
    write is done in the state [WRITE_PENDING], so that the next scan counts it
    as done once more, and the program exits with status 0 while the second
    block is still being read. *)
Theorem rot13_loses_data : exists s',
  @rot13 (aio_linux two_blocks) (fun _ => []) [B "rot13"; B "a"; B "b"] (Proc slow_second [] 0 bufs0) = Exit 0 s' /\
  begun (history s') = [(0, 4, 0, replicate 4096 78)].
Proof. eexists. split; vm_compute; reflexivity. Qed.
