(* ===== verification/Ftw.v ===== *)
(** Ftw: apue/4.22ftw.c, which walks a directory tree and counts its files by
    type. The path of the current file is in one buffer that grows. Which
    allocations succeed, what a new block contains, and the text that [printf]
    makes of a percentage are parameters; [readdir] answers a positive number and
    the name, or another number for a null pointer. *)
From stdpp Require Import list strings.
From S2P Require Import Prelude Arrays Bytes Sys ErrorLog.

Definition FTW_F : Z := 1.
Definition FTW_D : Z := 2.
Definition FTW_DNR : Z := 3.
Definition FTW_NS : Z := 4.
Definition NAME_MAX : Z := 255.
Definition SLASH : Z := 47.

(** The type of a file, in its mode. *)
Definition S_IFMT (mode : Z) : Z := Z.land mode 61440.
Definition S_IFSOCK : Z := 49152.
Definition S_IFLNK : Z := 40960.
Definition S_IFREG : Z := 32768.
Definition S_IFBLK : Z := 24576.
Definition S_IFDIR : Z := 16384.
Definition S_IFCHR : Z := 8192.
Definition S_IFIFO : Z := 4096.

Record counters := Counters { nreg : Z; ndir : Z; nblk : Z; nchr : Z; nfifo : Z; nslink : Z; nsock : Z }.

(** The static variables, [ntot] apart, which only [main] uses. A null [fullpath]
    is the empty block. *)
Record globals := Globals { fullpath : bytes; pathlen : Z; counts : counters }.
Definition globals0 : globals := Globals [] 0 (Counters 0 0 0 0 0 0 0).

Notation ftw := (M (proc globals)).

Section ftw.
Context `{Kernel} (strerror : Z -> bytes).
Context (alloc_ok : Z -> bool) (junk : nat -> Z) (percent : Z -> Z -> bytes).

(** ** The buffer *)

Definition set_fullpath (b : bytes) : ftw unit := setvars (fun g => Globals b (pathlen g) (counts g)).
Definition set_pathlen (n : Z) : ftw unit := setvars (fun g => Globals (fullpath g) n (counts g)).
Definition junk_block (from : nat) (n : Z) : bytes := map junk (seq from (Z.to_nat n - from)).

(** The string in [fullpath]; it must end within the block. *)
Definition read_fullpath : ftw bytes :=
  b <- getvar fullpath ;; guard_ok (bool_decide (NUL ∈ b)) ;; ret (cstr b).

(** Stores the bytes at [fullpath + i], within the block. *)
Definition poke (i : Z) (text : bytes) : ftw unit :=
  b <- getvar fullpath ;;
  guard_ok ((0 <=? i) && (i + Zlen text <=? Zlen b)) ;;
  set_fullpath (seg b 0 i ++ text ++ seg b (i + Zlen text) (Zlen b)).

(** [fullpath = realloc(fullpath, pathlen)]. *)
Definition realloc_fullpath : ftw unit :=
  n <- getvar pathlen ;;
  b <- getvar fullpath ;;
  if alloc_ok n then set_fullpath (take (Z.to_nat n) b ++ junk_block (length b) n)
  else set_fullpath [] ;; err_sys strerror (B "realloc failed").

(** The block and its size; the argument of [path_alloc] is not null here. *)
Definition path_alloc : ftw bytes :=
  if alloc_ok 256 then set_pathlen 256 ;; ret (junk_block 0 256) else set_pathlen 0 ;; ret [].

(** ** The walk *)

Definition is_dot (name : bytes) : bool :=
  bool_decide (name = B ".") || bool_decide (name = B "..").

(** Room for a name after the [n] bytes of a path, and a slash. *)
Definition append_slash (n : Z) : ftw unit :=
  m <- int32 (n + NAME_MAX + 2) ;;
  l <- getvar pathlen ;;
  (when l <? u64 m do (set_pathlen (u64 (l * 2)) ;; realloc_fullpath)) ;;
  poke n [SLASH] ;;
  poke (n + 1) [NUL].

Definition leave_dir (dp n : Z) : ftw unit :=
  poke n [NUL] ;;
  c <- sysret (Closedir dp) ;;
  when c <? 0 do (path <- read_fullpath ;; err_ret strerror (B "can't close directory " ++ path)).

(** The body of the loop over the entries; [visit] is the recursive call. *)
Definition next_entry (visit : ftw Z) (dp n r : Z) : ftw (Z + Z) :=
  dirp <- sys (Readdir dp) ;;
  let d_name := cstr (a_data dirp) in
  if a_ret dirp <=? 0 then ret (inr r)
  else if is_dot d_name then ret (inl r)
  else
    poke (n + 1) (d_name ++ [NUL]) ;;
    r <- visit ;;
    if r =? 0 then ret (inl r) else ret (inr r).

(** [fuel] bounds the depth of the recursion. *)
Fixpoint dopath (fuel : nat) (func : bytes -> Z -> Z -> ftw Z) : ftw Z :=
  match fuel with
  | O => fun _ => Diverge
  | S fuel =>
      path <- read_fullpath ;;
      a <- sys (Lstat path) ;;
      let mode := st_mode (a_stat a) in
      if a_ret a <? 0 then func path mode FTW_NS
      else if negb (S_IFMT mode =? S_IFDIR) then func path mode FTW_F
      else
        r <- func path mode FTW_D ;;
        if negb (r =? 0) then ret r
        else
          path <- read_fullpath ;;
          let n := signed 32 (Zlen path) in
          append_slash n ;;
          path <- read_fullpath ;;
          dp <- sys (Opendir path) ;;
          if a_ret dp <? 0 then func path mode FTW_DNR
          else
            r <- forever (next_entry (dopath fuel func) (a_ret dp) n) r ;;
            leave_dir (a_ret dp) n ;;
            ret r
  end.

Definition myftw (fuel : nat) (pathname : bytes) (func : bytes -> Z -> Z -> ftw Z) : ftw Z :=
  p <- path_alloc ;;
  set_fullpath p ;;
  l <- getvar pathlen ;;
  (when l <=? Zlen pathname do (set_pathlen (u64 (Zlen pathname * 2)) ;; realloc_fullpath)) ;;
  poke 0 (pathname ++ [NUL]) ;;
  dopath fuel func.

(** ** What is done with each file *)

Definition Lreg := Lens nreg (fun x c => Counters x (ndir c) (nblk c) (nchr c) (nfifo c) (nslink c) (nsock c)).
Definition Ldir := Lens ndir (fun x c => Counters (nreg c) x (nblk c) (nchr c) (nfifo c) (nslink c) (nsock c)).
Definition Lblk := Lens nblk (fun x c => Counters (nreg c) (ndir c) x (nchr c) (nfifo c) (nslink c) (nsock c)).
Definition Lchr := Lens nchr (fun x c => Counters (nreg c) (ndir c) (nblk c) x (nfifo c) (nslink c) (nsock c)).
Definition Lfifo := Lens nfifo (fun x c => Counters (nreg c) (ndir c) (nblk c) (nchr c) x (nslink c) (nsock c)).
Definition Lslink := Lens nslink (fun x c => Counters (nreg c) (ndir c) (nblk c) (nchr c) (nfifo c) x (nsock c)).
Definition Lsock := Lens nsock (fun x c => Counters (nreg c) (ndir c) (nblk c) (nchr c) (nfifo c) (nslink c) x).

(** A [long]. *)
Definition int64 (z : Z) : ftw Z := guard_ok ((- 2 ^ 63 <=? z) && (z <? 2 ^ 63)) ;; ret z.

Definition incr (l : lens counters Z) : ftw unit :=
  c <- getvar counts ;;
  n <- int64 (view l c + 1) ;;
  setvars (fun g => Globals (fullpath g) (pathlen g) (over l n c)).

(** The case of a directory falls through to the next. *)
Definition myfunc (pathname : bytes) (mode type : Z) : ftw Z :=
  (if type =? FTW_F then
     let fmt := S_IFMT mode in
     if fmt =? S_IFREG then incr Lreg
     else if fmt =? S_IFBLK then incr Lblk
     else if fmt =? S_IFCHR then incr Lchr
     else if fmt =? S_IFIFO then incr Lfifo
     else if fmt =? S_IFLNK then incr Lslink
     else if fmt =? S_IFSOCK then incr Lsock
     else when fmt =? S_IFDIR do err_dump strerror (B "for S_IFDIR for " ++ pathname)
   else if (type =? FTW_D) || (type =? FTW_DNR) then
     (when type =? FTW_D do incr Ldir) ;;
     err_ret strerror (B "can't read directory " ++ pathname)
   else if type =? FTW_NS then err_ret strerror (B "stat error for " ++ pathname)
   else err_dump strerror (B "unknown type " ++ dec type ++ B " for pathname " ++ pathname)) ;;
  ret 0.

(** ** main *)

Definition print_count (label : bytes) (n ntot : Z) : ftw unit :=
  Sys.printf (label ++ B " = " ++ fmt 7 n ++ B ", " ++ percent n ntot ++ B " %" ++ [NEWLINE]).

Definition ftw_main (fuel : nat) (argv : list bytes) : ftw unit :=
  (when negb (Zlen argv =? 2) do err_quit strerror (B "usage: ftw <starting-pathname>")) ;;
  r <- myftw fuel (aget argv 1) myfunc ;;
  c <- getvar counts ;;
  n <- int64 (nreg c + ndir c + nblk c + nchr c + nfifo c + nslink c + nsock c) ;;
  let ntot := if n =? 0 then 1 else n in
  print_count (B "regular files ") (nreg c) ntot ;;
  print_count (B "directories   ") (ndir c) ntot ;;
  print_count (B "block special ") (nblk c) ntot ;;
  print_count (B "char special  ") (nchr c) ntot ;;
  print_count (B "FIFOs         ") (nfifo c) ntot ;;
  print_count (B "symbolic links") (nslink c) ntot ;;
  print_count (B "sockets       ") (nsock c) ntot ;;
  exit_ r.
End ftw.
