(* ===== verification/FtwProofs.v ===== *)
(** FtwProofs: the walk of 4.22ftw.c visits every file of the tree that the system
    shows it exactly once, in preorder, closes what it opens, and counts the files
    by type; the buffer of the path is always long enough. *)
From stdpp Require Import sets list strings.
From S2P Require Import Prelude Arrays Bytes Sys ErrorLog Ftw.

(** ** What the system shows *)

(** The answers of a walk: a file that [lstat] refuses, one that is no directory,
    a directory that cannot be opened, and one with its stream, its entries, each
    with the tree below it (of no meaning for the two dots), the end of the stream
    and the answer to [closedir]. *)
Inductive ftree :=
| Missing (a : answer)
| Leaf (a : answer)
| Locked (a d : answer)
| Dir (a d : answer) (entries : list (answer * ftree)) (e c : answer).

Lemma ftree_nested_ind (P : ftree -> Prop) :
  (forall a, P (Missing a)) -> (forall a, P (Leaf a)) -> (forall a d, P (Locked a d)) ->
  (forall a d es e c, Forall (fun x => P x.2) es -> P (Dir a d es e c)) -> forall t, P t.
Proof.
  intros H1 H2 H3 H4. fix IH 1. intros [a|a|a d|a d es e c]; [apply H1|apply H2|apply H3|].
  apply H4. induction es as [|[x t] es IHes]; constructor; [apply IH|apply IHes].
Qed.

Definition name_of (x : answer) : bytes := cstr (a_data x).
Definition dot (x : answer) : bool := is_dot (name_of x).
Definition type_of (a : answer) : Z := S_IFMT (st_mode (a_stat a)).

(** The answers are of their kind, and names are not longer than [NAME_MAX]. *)
Fixpoint shown (t : ftree) : Prop :=
  match t with
  | Missing a => a_ret a < 0
  | Leaf a => 0 <= a_ret a /\ type_of a <> S_IFDIR
  | Locked a d => 0 <= a_ret a /\ type_of a = S_IFDIR /\ a_ret d < 0
  | Dir a d es e c =>
      0 <= a_ret a /\ type_of a = S_IFDIR /\ 0 <= a_ret d /\ a_ret e = 0 /\
      Forall (fun x => 0 < a_ret x.1 /\ Zlen (name_of x.1) <= NAME_MAX) es /\
      foldr (fun x P => (dot x.1 = false -> shown x.2) /\ P) True es
  end.

Fixpoint height (t : ftree) : nat :=
  match t with
  | Dir _ _ es _ _ => S (foldr (fun x n => Nat.max (height x.2) n) 0%nat es)
  | _ => 0
  end.

Section walk.
Context (strerror : Z -> bytes).

(** The answers in the order of the calls. *)
Fixpoint answers (t : ftree) : list answer :=
  match t with
  | Missing a | Leaf a => [a]
  | Locked a d => [a; d]
  | Dir a d es e c =>
      a :: d :: foldr (fun x l => x.1 :: (if dot x.1 then [] else answers x.2) ++ l) [e; c] es
  end.

(** The line that [err_ret] writes. *)
Definition err_line (err : Z) (text : bytes) : bytes :=
  let buf := snprintf (MAXLINE - 1) text in
  buf ++ snprintf (MAXLINE - Zlen buf - 1) (B ": " ++ strerror err) ++ [NEWLINE].
Definition cant_read (err : Z) (p : bytes) : event :=
  Stderr (err_line err (B "can't read directory " ++ p)).

Definition below (p : bytes) (x : answer) : bytes := p ++ SLASH :: name_of x.

(** What the walk of a tree at the path [p] does, with [errno] before and after. *)
Fixpoint trace (p : bytes) (t : ftree) (err : Z) : list event * Z :=
  match t with
  | Missing a => ([Called (Lstat p) a; Stderr (err_line (a_errno a) (B "stat error for " ++ p))], a_errno a)
  | Leaf a => ([Called (Lstat p) a], err)
  | Locked a d =>
      ([Called (Lstat p) a; cant_read err p; Called (Opendir (p ++ [SLASH])) d;
        cant_read (a_errno d) (p ++ [SLASH])], a_errno d)
  | Dir a d es e c =>
      let '(h, err') :=
        foldr (fun x after err =>
                 let '(h1, err1) := if dot x.1 then ([], err) else trace (below p x.1) x.2 err in
                 let '(h2, err2) := after err1 in
                 (Called (Readdir (a_ret d)) x.1 :: h1 ++ h2, err2))
              (fun err => ([], err)) es err in
      let err'' := if a_ret c <? 0 then a_errno c else err' in
      ([Called (Lstat p) a; cant_read err p; Called (Opendir (p ++ [SLASH])) d] ++ h ++
       [Called (Readdir (a_ret d)) e; Called (Closedir (a_ret d)) c] ++
       (if a_ret c <? 0 then [Stderr (err_line err'' (B "can't close directory " ++ p))] else []),
       err'')
  end.

(** The types of the files that could be stated, in preorder. *)
Fixpoint types (t : ftree) : list Z :=
  match t with
  | Missing _ => []
  | Leaf a => [type_of a]
  | Locked _ _ => [S_IFDIR]
  | Dir _ _ es _ _ => S_IFDIR :: foldr (fun x l => (if dot x.1 then [] else types x.2) ++ l) [] es
  end.
End walk.

(** ** Counting *)

Definition counted (k : Z) (ks : list Z) : Z := Zlen (filter (fun x => x = k) ks).
Definition tally (ks : list Z) (c : counters) : counters :=
  Counters (nreg c + counted S_IFREG ks) (ndir c + counted S_IFDIR ks) (nblk c + counted S_IFBLK ks)
    (nchr c + counted S_IFCHR ks) (nfifo c + counted S_IFIFO ks) (nslink c + counted S_IFLNK ks)
    (nsock c + counted S_IFSOCK ks).
Definition total (c : counters) : Z := nreg c + ndir c + nblk c + nchr c + nfifo c + nslink c + nsock c.

(** There is room for [n] more files in the counters. *)
Definition room (n : Z) (c : counters) : Prop :=
  (0 <= nreg c /\ 0 <= ndir c /\ 0 <= nblk c /\ 0 <= nchr c /\ 0 <= nfifo c /\ 0 <= nslink c /\
   0 <= nsock c) /\ total c + n < 2 ^ 63.

Lemma counted_cons k x ks : counted k (x :: ks) = (if bool_decide (x = k) then 1 else 0) + counted k ks.
Proof.
  unfold counted, Zlen. rewrite filter_cons. case_decide; case_bool_decide; try done. simpl. lia.
Qed.

Lemma counted_app k ks ks' : counted k (ks ++ ks') = counted k ks + counted k ks'.
Proof. unfold counted, Zlen. rewrite filter_app, length_app. lia. Qed.

Lemma tally_nil c : tally [] c = c.
Proof. destruct c. unfold tally, counted, Zlen. simpl. f_equal; lia. Qed.

Lemma tally_types_app ks ks' c : tally (ks ++ ks') c = tally ks' (tally ks c).
Proof. unfold tally. simpl. f_equal; rewrite counted_app; lia. Qed.

Lemma counted_nonneg k ks : 0 <= counted k ks.
Proof. apply Zlen_nonneg. Qed.

(** Each file counts at most once. *)
Lemma total_tally ks c : total (tally ks c) <= total c + Zlen ks.
Proof.
  revert c. induction ks as [|k ks IH]; intros c; [rewrite tally_nil; unfold Zlen; simpl; lia|].
  change (k :: ks) with ([k] ++ ks). rewrite tally_types_app, Zlen_app. etrans; [apply IH|].
  enough (total (tally [k] c) <= total c + Zlen [k]) by lia.
  unfold total, tally. cbn [nreg ndir nblk nchr nfifo nslink nsock]. rewrite !counted_cons.
  change (Zlen [k]) with 1. unfold counted, S_IFREG, S_IFDIR, S_IFBLK, S_IFCHR, S_IFIFO, S_IFLNK, S_IFSOCK, Zlen.
  simpl. repeat case_bool_decide; lia.
Qed.

Lemma room_tally n ks c : room (Zlen ks + n) c -> room n (tally ks c).
Proof.
  intros [H Ht]. pose proof (total_tally ks c). split; [|lia]. unfold tally. simpl.
  pose proof (fun k => counted_nonneg k ks) as Hk. repeat split; apply Z.add_nonneg_nonneg; first [apply H|apply Hk].
Qed.

(** ** The files that are visited *)

(** The paths of a tree, in preorder, and those that a history states. *)
Fixpoint paths (p : bytes) (t : ftree) : list bytes :=
  match t with
  | Dir _ _ es _ _ =>
      p :: foldr (fun x l => (if dot x.1 then [] else paths (below p x.1) x.2) ++ l) [] es
  | _ => [p]
  end.
Definition stated (h : list event) : list bytes :=
  omap (fun e => match e with Called (Lstat p) _ => Some p | _ => None end) h.

(** No name has a slash, and no two entries of a directory have the same name. *)
Fixpoint distinct (t : ftree) : Prop :=
  match t with
  | Dir _ _ es _ _ =>
      NoDup (map (fun x => name_of x.1) es) /\
      foldr (fun x P => SLASH ∉ name_of x.1 /\ distinct x.2 /\ P) True es
  | _ => True
  end.

Lemma stated_app h h' : stated (h ++ h') = stated h ++ stated h'.
Proof. apply omap_app. Qed.

Lemma stated_trace strerror t : forall p err, stated (trace strerror p t err).1 = paths p t.
Proof.
  induction t as [a|a|a d|a d es e c IH] using ftree_nested_ind; intros p err; try done. simpl.
  set (tr := foldr _ _ es). assert (forall err, stated (tr err).1 =
    foldr (fun x l => (if dot x.1 then [] else paths (below p x.1) x.2) ++ l) [] es) as Hes.
  { subst tr. induction es as [|x es IHes]; intros err1; [done|]. apply Forall_cons in IH as [Hx IH]. simpl.
    specialize (IHes IH). destruct (dot x.1).
    - specialize (IHes err1). destruct (foldr _ _ es err1). exact IHes.
    - specialize (Hx (below p x.1) err1). destruct (trace _ _ _ _) as [h1 err2]. specialize (IHes err2).
      destruct (foldr _ _ es err2) as [h2 err3]. simpl in *. change (stated (h1 ++ h2) = paths (below p x.1) x.2 ++
        foldr (fun x l => (if dot x.1 then [] else paths (below p x.1) x.2) ++ l) [] es). by rewrite stated_app, Hx, IHes. }
  specialize (Hes err). destruct (tr err) as [h err']. simpl in *. f_equal.
  change (stated (h ++ [Called (Readdir (a_ret d)) e; Called (Closedir (a_ret d)) c] ++
    (if a_ret c <? 0 then [Stderr (err_line strerror (if a_ret c <? 0 then a_errno c else err')
       (B "can't close directory " ++ p))] else [])) = foldr (fun x l => (if dot x.1 then [] else paths (below p x.1) x.2) ++ l) [] es).
  rewrite stated_app, Hes. destruct (a_ret c <? 0); simpl; by rewrite app_nil_r.
Qed.

(** Everything below a directory extends its path by a slash or not at all. *)
Definition under (p q : bytes) : Prop := exists r, q = p ++ r /\ (r = [] \/ exists r', r = SLASH :: r').

Lemma below_under p x q : under (below p x) q -> under p q /\ q <> p.
Proof.
  intros (r & -> & Hr). unfold below. rewrite <-app_assoc, <-app_comm_cons. split.
  - exists ((SLASH :: name_of x) ++ r). split; [done|]. right. eauto.
  - intros H. assert (p ++ SLASH :: name_of x ++ r = p ++ []) as H' by by rewrite app_nil_r.
    by apply app_inv_head in H'.
Qed.

Lemma paths_under t : forall p q, q ∈ paths p t -> under p q.
Proof.
  assert (forall p, under p p) as Hrefl by (intros p; exists []; rewrite app_nil_r; auto).
  induction t as [a|a|a d|a d es e c IH] using ftree_nested_ind; intros p q; simpl;
    try (intros ->%list_elem_of_singleton; apply Hrefl).
  intros [->|Hq]%elem_of_cons; [apply Hrefl|].
  induction es as [|x es IHes]; simpl in Hq; [by apply elem_of_nil in Hq|].
  apply Forall_cons in IH as [Hx IH]. apply elem_of_app in Hq as [Hq|Hq]; [|by apply IHes].
  destruct (dot x.1); [by apply elem_of_nil in Hq|]. by apply Hx, below_under in Hq as [? _].
Qed.

Lemma under_same p x y q : SLASH ∉ name_of x -> SLASH ∉ name_of y ->
  under (below p x) q -> under (below p y) q -> name_of x = name_of y.
Proof.
  intros Hx Hy (r & -> & Hr) (r' & E & Hr'). unfold below in E. rewrite <-!app_assoc in E.
  apply app_inv_head in E. injection E as E.
  assert (forall n s s', SLASH ∉ n -> (s' = [] \/ exists s'', s' = SLASH :: s'') -> forall m, SLASH ∉ m ->
    (s = [] \/ exists s'', s = SLASH :: s'') -> n ++ s = m ++ s' -> n = m) as H; [|exact (H _ r r' Hx Hr' _ Hy Hr E)].
  clear. induction n as [|b n IH]; intros s s' Hn Hs' [|b' m] Hm Hs E; simpl in E; subst; try done.
  - exfalso. destruct Hs as [|[? Hs]]; [done|]. injection Hs as -> _. by apply Hm, elem_of_cons; left.
  - exfalso. destruct Hs' as [|[? Hs']]; [done|]. injection Hs' as -> _. by apply Hn, elem_of_cons; left.
  - injection E as -> E. f_equal. apply not_elem_of_cons in Hn as [_ Hn]. apply not_elem_of_cons in Hm as [_ Hm].
    by eapply (IH s s').
Qed.

(** So no file is visited twice. *)
Lemma paths_once t : forall p, distinct t -> NoDup (paths p t).
Proof.
  induction t as [a|a|a d|a d es e c IH] using ftree_nested_ind; intros p Hd; try apply NoDup_singleton.
  simpl in *. set (below_es := foldr _ _ es).
  assert (forall q, q ∈ below_es -> exists x, x ∈ es /\ under (below p x.1) q) as Hin.
  { subst below_es. clear. intros q. induction es as [|x es IH]; simpl; [by intros ?%elem_of_nil|].
    intros [Hq|Hq]%elem_of_app.
    - exists x. split; [by left|]. destruct (dot x.1); [by apply elem_of_nil in Hq|]. by eapply paths_under.
    - destruct (IH Hq) as (y & ? & ?). exists y. split; [by right|done]. }
  apply NoDup_cons. split; [intros (x & _ & Hu)%Hin; by apply below_under in Hu as [_ ?]|].
  subst below_es. destruct Hd as [Hnd Hd]. clear Hin. induction es as [|x es IHes]; simpl; [constructor|].
  apply Forall_cons in IH as [Hx IH]. simpl in Hnd. apply NoDup_cons in Hnd as [Hnx Hnd]. destruct Hd as (Hsx & Hdx & Hd).
  apply NoDup_app. split; [destruct (dot x.1); [constructor|by apply Hx]|]. split; [|by apply IHes].
  intros q Hq1 Hq2. destruct (dot x.1); [by apply elem_of_nil in Hq1|]. apply paths_under in Hq1.
  apply Hnx. assert (exists y, y ∈ es /\ SLASH ∉ name_of y.1 /\ under (below p y.1) q) as (y & Hy & Hsy & Hu).
  { clear -Hq2 Hd. induction es as [|y es IH]; simpl in *; [by apply elem_of_nil in Hq2|]. destruct Hd as (Hs & _ & Hd).
    apply elem_of_app in Hq2 as [Hq2|Hq2].
    - exists y. split; [by left|]. split; [done|]. destruct (dot y.1); [by apply elem_of_nil in Hq2|]. by eapply paths_under.
    - destruct (IH Hd Hq2) as (z & ? & ? & ?). exists z. split; [by right|done]. }
  rewrite (under_same p x.1 y.1 q) by done. apply list_elem_of_fmap. by exists y.
Qed.

(** ** The walk *)

(** Any answer may come: the script is what the system shows. *)
Definition any_kernel : Kernel := fun _ _ _ => true.

Section proofs.
#[local] Existing Instance any_kernel.
Context (strerror : Z -> bytes) (alloc_ok : Z -> bool) (junk : nat -> Z) (percent : Z -> Z -> bytes).
Notation state := (proc globals).
Implicit Types (s : state) (g : globals) (p : bytes).

(** The only way out: memory for a longer path is refused. *)
Definition no_memory (code : Z) s : Prop := code = 1 /\ exists n, 256 <= n /\ alloc_ok n = false.


Lemma wp_sys_next c a rest (Q : answer -> state -> Prop) X s : script s = a :: rest ->
  Q a (answered c a rest s) -> wp (sys c) Q X s.
Proof. intros E HQ. unfold wp, sys. by rewrite E. Qed.

Lemma err_ret_run text s :
  err_ret strerror text s = Ret tt (record_event (Stderr (err_line strerror (errno s) text)) s).
Proof.
  unfold err_ret, err_doit, bind, gets. destruct (message_line_ok strerror true (errno s) text s) as (b & Eb & _).
  rewrite Eb. unfold message_line, bind, guard_ok in Eb. destruct (_ <=? _); [|done].
  injection Eb as <-. unfold fputs_stderr, modify, err_line. by rewrite <-!app_assoc.
Qed.

Lemma wp_err_ret text (Q : unit -> state -> Prop) X s :
  Q tt (record_event (Stderr (err_line strerror (errno s) text)) s) -> wp (err_ret strerror text) Q X s.
Proof. intros HQ. eapply wp_of_run; [apply err_ret_run|done]. Qed.

(** *** The buffer *)

(** The block has [pathlen] bytes and begins with [p]; a string when a zero follows. *)
Record buffer p g : Prop := {
  b_text : exists q, fullpath g = p ++ q;
  b_len : Zlen (fullpath g) = pathlen g;
  b_size : 256 <= pathlen g <= 2 ^ 32;
}.
Definition reads p g : Prop := no_nul p /\ buffer p g /\ exists q, fullpath g = p ++ NUL :: q.

Lemma wp_read_fullpath p (Q : bytes -> state -> Prop) X s : reads p (vars s) -> Q p s ->
  wp read_fullpath Q X s.
Proof.
  intros (Hp & _ & q & E) HQ. unfold read_fullpath, getvar. apply wp_bind, wp_gets. rewrite E.
  apply wp_bind, wp_guard; [apply bool_decide_eq_true; set_solver|]. by rewrite cstr_app.
Qed.

Lemma wp_poke p text (Q : unit -> state -> Prop) X s : buffer p (vars s) ->
  Zlen p + Zlen text <= pathlen (vars s) ->
  (forall q, let g := Globals (p ++ text ++ q) (pathlen (vars s)) (counts (vars s)) in
     buffer (p ++ text) g ->
     Q tt (Proc (script s) (history s) (errno s) g)) ->
  wp (poke (Zlen p) text) Q X s.
Proof.
  intros [[q E] Hl Hs] Ht HQ. unfold poke, getvar. apply wp_bind, wp_gets.
  apply wp_bind, wp_guard; [pose proof (Zlen_nonneg p); lia|].
  rewrite E in Hl |- *. rewrite Zlen_app in Hl.
  assert (seg (p ++ q) 0 (Zlen p) = p) as ->.
  { unfold seg, Zlen. rewrite drop_0. replace (Z.to_nat _) with (length p) by lia. apply take_app_length. }
  apply wp_modify, HQ. split; simpl.
  - eexists. by rewrite <-app_assoc.
  - rewrite !Zlen_app. unfold seg, Zlen in *. rewrite length_take, length_drop, length_app. lia.
  - done.
Qed.

(** A longer block, if there is memory. *)
Lemma wp_realloc p n (Q : unit -> state -> Prop) s : buffer p (vars s) -> pathlen (vars s) < n <= 2 ^ 32 ->
  (forall q, let g := Globals (fullpath (vars s) ++ q) n (counts (vars s)) in buffer p g ->
     Q tt (Proc (script s) (history s) (errno s) g)) ->
  wp (set_pathlen n ;; realloc_fullpath strerror alloc_ok junk) Q no_memory s.
Proof.
  intros [[q E] Hl Hs] Hn HQ. apply wp_bind, wp_modify. unfold realloc_fullpath, getvar.
  apply wp_bind, wp_gets. apply wp_bind, wp_gets. simpl.
  destruct (alloc_ok n) eqn:Ea.
  - apply wp_modify. rewrite take_ge by (unfold Zlen in Hl; lia). apply HQ. split; simpl.
    + rewrite E. eexists. by rewrite <-app_assoc.
    + rewrite Zlen_app, Hl. unfold junk_block, Zlen in *. rewrite length_map, length_seq. lia.
    + lia.
  - apply wp_bind, wp_modify. unfold err_sys. apply wp_bind, wp_gets. apply wp_bind, wp_err_doit.
    intros b. apply wp_exit. split; [done|]. exists n. split; [lia|done].
Qed.

(** *** What is done with a file *)

Definition with_counts (c : counters) s : state :=
  Proc (script s) (history s) (errno s) (Globals (fullpath (vars s)) (pathlen (vars s)) c).

Lemma reads_with_counts p c s : reads p (vars (with_counts c s)) <-> reads p (vars s).
Proof. split; intros (H1 & [] & H3); by (split; [|split; [split|]]). Qed.

Lemma wp_incr (l : lens counters Z) (Q : unit -> state -> Prop) X s :
  0 <= view l (counts (vars s)) -> view l (counts (vars s)) + 1 < 2 ^ 63 ->
  Q tt (with_counts (over l (view l (counts (vars s)) + 1) (counts (vars s))) s) -> wp (incr l) Q X s.
Proof.
  intros H0 H1 HQ. unfold incr, getvar, int64. apply wp_bind, wp_gets. apply wp_bind, wp_bind, wp_guard; [lia|].
  by apply wp_ret, wp_modify.
Qed.

Lemma room_one c : room 1 c -> forall (l : lens counters Z), l ∈ [Lreg; Ldir; Lblk; Lchr; Lfifo; Lslink; Lsock] ->
  0 <= view l c /\ view l c + 1 < 2 ^ 63.
Proof.
  intros [H Ht] l Hl. unfold total in Ht. rewrite !elem_of_cons in Hl.
  destruct Hl as [-> | [-> | [-> | [-> | [-> | [-> | [-> | []%elem_of_nil]]]]]]]; simpl; lia.
Qed.

(** The counter of a type, and no other, goes up. *)
Definition type_lens : list (Z * lens counters Z) :=
  [(S_IFREG, Lreg); (S_IFBLK, Lblk); (S_IFCHR, Lchr); (S_IFIFO, Lfifo); (S_IFLNK, Lslink); (S_IFSOCK, Lsock);
   (S_IFDIR, Ldir)].

Lemma tally_one k l c : (k, l) ∈ type_lens -> over l (view l c + 1) c = tally [k] c.
Proof.
  intros Hl. unfold type_lens in Hl. rewrite !elem_of_cons in Hl.
  destruct c. unfold tally, counted, Zlen.
  destruct Hl as [[= -> ->] | [[= -> ->] | [[= -> ->] | [[= -> ->] | [[= -> ->] | [[= -> ->] | [[= -> ->] | []%elem_of_nil]]]]]]];
    simpl; f_equal; lia.
Qed.

Lemma wp_incr_type k l (Q : unit -> state -> Prop) X s : (k, l) ∈ type_lens -> room 1 (counts (vars s)) ->
  Q tt (with_counts (tally [k] (counts (vars s))) s) -> wp (incr l) Q X s.
Proof.
  intros Hl Hr HQ. destruct (room_one _ Hr l) as [H0 H1]; [unfold type_lens in Hl; set_solver|].
  apply wp_incr; [done..|]. by rewrite (tally_one k l).
Qed.

Lemma wp_myfunc_file p mode (Q : Z -> state -> Prop) X s : S_IFMT mode <> S_IFDIR -> room 1 (counts (vars s)) ->
  Q 0 (with_counts (tally [S_IFMT mode] (counts (vars s))) s) -> wp (myfunc strerror p mode FTW_F) Q X s.
Proof.
  intros Hd Hr HQ. unfold myfunc. apply wp_bind. simpl.
  repeat lazymatch goal with |- wp (if S_IFMT mode =? ?k then _ else _) _ _ _ =>
    destruct (Z.eqb_spec (S_IFMT mode) k) as [E|?];
      [by (done || (rewrite E in HQ; apply (wp_incr_type k); [unfold type_lens; set_solver|exact Hr|exact HQ]))|]
  end.
  apply wp_ret, wp_ret. destruct s as [sc h e [fp pl c]]. unfold with_counts in HQ. simpl in *.
  replace (tally [S_IFMT mode] c) with c in HQ; [done|]. destruct c. unfold tally.
  rewrite !counted_cons. unfold counted, Zlen. rewrite !bool_decide_false by done. simpl. f_equal; lia.
Qed.

Lemma wp_myfunc_dir p mode (Q : Z -> state -> Prop) X s : room 1 (counts (vars s)) ->
  Q 0 (record_event (cant_read strerror (errno s) p) (with_counts (tally [S_IFDIR] (counts (vars s))) s)) ->
  wp (myfunc strerror p mode FTW_D) Q X s.
Proof.
  intros Hr HQ. unfold myfunc. apply wp_bind, wp_bind. simpl.
  apply (wp_incr_type S_IFDIR); [unfold type_lens; set_solver|done|]. apply wp_err_ret. by apply wp_ret.
Qed.

Lemma wp_myfunc_locked p mode (Q : Z -> state -> Prop) X s :
  Q 0 (record_event (cant_read strerror (errno s) p) s) -> wp (myfunc strerror p mode FTW_DNR) Q X s.
Proof. intros HQ. unfold myfunc. apply wp_bind, wp_bind, wp_ret, wp_err_ret. by apply wp_ret. Qed.

Lemma wp_myfunc_missing p mode (Q : Z -> state -> Prop) X s :
  Q 0 (record_event (Stderr (err_line strerror (errno s) (B "stat error for " ++ p))) s) ->
  wp (myfunc strerror p mode FTW_NS) Q X s.
Proof. intros HQ. unfold myfunc. apply wp_bind, wp_err_ret. by apply wp_ret. Qed.

(** *** The walk of a tree *)

(** From [s] the walk took the answers up to [rest], did [tr], and counted [ks];
    the buffer still begins with [p]. *)
Record walked p (tr : list event * Z) (ks : list Z) (rest : list answer) s s' : Prop := {
  w_script : script s' = rest;
  w_history : history s' = history s ++ tr.1;
  w_errno : errno s' = tr.2;
  w_counts : counts (vars s') = tally ks (counts (vars s));
  w_buffer : buffer p (vars s');
  w_grows : pathlen (vars s) <= pathlen (vars s');
}.

Lemma buffer_prefix p q g : buffer (p ++ q) g -> buffer p g.
Proof. intros [[q' E] H1 H2]. split; [|done..]. rewrite E, <-app_assoc. eauto. Qed.

Lemma walked_prefix p q tr ks rest s s' : walked (p ++ q) tr ks rest s s' -> walked p tr ks rest s s'.
Proof. intros []. split; try done. by eapply buffer_prefix. Qed.

(** One walk after another. *)
Lemma walked_trans p h1 h2 e1 e2 ks1 ks2 rest1 rest2 s1 s2 s3 :
  walked p (h1, e1) ks1 rest1 s1 s2 -> walked p (h2, e2) ks2 rest2 s2 s3 ->
  walked p (h1 ++ h2, e2) (ks1 ++ ks2) rest2 s1 s3.
Proof.
  intros [? H1 ? C1 ? L1] [? H2 ? C2 ? L2]. split; try done.
  - rewrite H2, H1. simpl. by rewrite app_assoc.
  - by rewrite C2, C1, tally_types_app.
  - lia.
Qed.

(** The statement for one tree. *)
Definition walks (fuel : nat) (t : ftree) : Prop := forall p s rest,
  shown t -> Zlen p + 256 * Z.of_nat (height t) + 257 <= INT_MAX -> reads p (vars s) ->
  script s = answers t ++ rest -> room (Zlen (types t)) (counts (vars s)) ->
  wp (dopath strerror alloc_ok junk fuel (myfunc strerror))
    (fun r s' => r = 0 /\ walked p (trace strerror p t (errno s)) (types t) rest s s') no_memory s.

Definition entries_answers (es : list (answer * ftree)) (l : list answer) : list answer :=
  foldr (fun x l => x.1 :: (if dot x.1 then [] else answers x.2) ++ l) l es.
Definition entries_types (es : list (answer * ftree)) : list Z :=
  foldr (fun x l => (if dot x.1 then [] else types x.2) ++ l) [] es.
Definition entries_trace p (fd : Z) (es : list (answer * ftree)) : Z -> list event * Z :=
  foldr (fun x after err =>
           let '(h1, err1) := if dot x.1 then ([], err) else trace strerror (below p x.1) x.2 err in
           let '(h2, err2) := after err1 in
           (Called (Readdir fd) x.1 :: h1 ++ h2, err2)) (fun err => ([], err)) es.

(** What the entries of a directory must be for the walk to work below [p]. *)
Definition entry_ok (fuel : nat) p (x : answer * ftree) : Prop :=
  0 < a_ret x.1 /\ Zlen (name_of x.1) <= NAME_MAX /\ (dot x.1 = false -> shown x.2) /\
  Zlen p + 256 + 256 * Z.of_nat (height x.2) + 257 <= INT_MAX /\ walks fuel x.2.

Lemma answered_vars (c : call) a rest s : vars (answered c a rest s) = vars s.
Proof. done. Qed.

(** The step of the loop over the entries of the directory [p]. *)
Lemma wp_next_entry fuel p fd x rest s (Q : Z + Z -> state -> Prop) : entry_ok fuel p x -> no_nul p ->
  buffer (p ++ [SLASH]) (vars s) -> Zlen p + 257 <= pathlen (vars s) ->
  script s = x.1 :: (if dot x.1 then [] else answers x.2) ++ rest ->
  room (Zlen (if dot x.1 then [] else types x.2)) (counts (vars s)) ->
  (forall s', let '(h, e) := if dot x.1 then ([], errno s) else trace strerror (below p x.1) x.2 (errno s) in
     walked (p ++ [SLASH]) (Called (Readdir fd) x.1 :: h, e) (if dot x.1 then [] else types x.2) rest s s' ->
     Q (inl 0) s') ->
  wp (next_entry (dopath strerror alloc_ok junk fuel (myfunc strerror)) fd (Zlen p) 0) Q no_memory s.
Proof.
  intros (Hx & Hn & Hsh & Hb & Hw) Hp Hbuf Hl Hs Hr HQ. unfold next_entry.
  apply wp_bind, (wp_sys_next _ _ _ _ _ _ Hs).
  destruct (Z.leb_spec (a_ret x.1) 0); [lia|]. change (is_dot (cstr (a_data x.1))) with (dot x.1).
  assert (errno (answered (Readdir fd) x.1 ((if dot x.1 then [] else answers x.2) ++ rest) s) = errno s) as He.
  { simpl. destruct (Z.ltb_spec (a_ret x.1) 0); [lia|done]. }
  destruct (dot x.1) eqn:Hd.
  { apply wp_ret. apply (HQ (answered _ _ _ s)). by split; rewrite ?tally_nil. }
  set (s1 := answered _ _ _ s) in *.
  assert (Zlen p + 1 = Zlen (p ++ [SLASH])) as -> by (by rewrite Zlen_app).
  apply wp_bind, wp_poke; [done|rewrite !Zlen_app; change (Zlen [_]) with 1; simpl; unfold name_of, NAME_MAX in Hn; lia|].
  intros q g Hg. set (s2 := Proc _ _ _ g). apply wp_bind.
  assert (reads (below p x.1) g) as Hread.
  { split; [|split].
    - unfold below, no_nul in *. pose proof (cstr_no_nul (a_data x.1)) as Hc. unfold no_nul in Hc.
      unfold name_of. rewrite elem_of_app, elem_of_cons. intros [?|[?|?]]; done.
    - apply (buffer_prefix _ [NUL]). replace (below p x.1 ++ [NUL]) with ((p ++ [SLASH]) ++ cstr (a_data x.1) ++ [NUL]); [done|].
      unfold below, name_of. by rewrite <-!app_assoc.
    - exists q. unfold g, below. simpl. by rewrite <-!app_assoc. }
  eapply wp_conseq; [apply (Hw (below p x.1) s2 rest); try done|].
  - by apply Hsh.
  - unfold below. rewrite Zlen_app. change (Zlen (SLASH :: name_of x.1)) with (Z.of_nat (S (length (name_of x.1)))).
    unfold NAME_MAX, Zlen in *. lia.
  - intros r s' [-> Hwk]. simpl. apply wp_ret.
    change (errno s2) with (errno s1) in Hwk. rewrite He in Hwk. specialize (HQ s').
    destruct (trace strerror (below p x.1) x.2 (errno s)) as [h e]. apply HQ. destruct Hwk. split; try done.
    + rewrite w_history0. simpl. by rewrite <-app_assoc.
    + unfold below in w_buffer0. rewrite cons_middle, app_assoc in w_buffer0. by eapply buffer_prefix.
Qed.

Lemma wp_entries fuel p fd e rest : no_nul p -> a_ret e = 0 -> forall es f s,
  Forall (entry_ok fuel p) es -> (length es < f)%nat ->
  buffer (p ++ [SLASH]) (vars s) -> Zlen p + 257 <= pathlen (vars s) ->
  script s = entries_answers es (e :: rest) -> room (Zlen (entries_types es)) (counts (vars s)) ->
  wp (loop f (next_entry (dopath strerror alloc_ok junk fuel (myfunc strerror)) fd (Zlen p)) 0)
    (fun r s' => r = 0 /\ let '(h, e1) := entries_trace p fd es (errno s) in
       walked (p ++ [SLASH]) (h ++ [Called (Readdir fd) e], e1) (entries_types es) rest s s')
    no_memory s.
Proof.
  intros Hp He. induction es as [|x es IH]; intros [|f] s Hes Hf Hbuf Hl Hs Hr; try (simpl in Hf; lia).
  - apply wp_bind. unfold next_entry. apply wp_bind, (wp_sys_next _ _ _ _ _ _ Hs). rewrite He. simpl.
    apply wp_ret, wp_ret. split; [done|]. split; simpl; try done.
    + by rewrite He.
    + by rewrite tally_nil.
  - apply Forall_cons in Hes as [Hx Hes]. simpl in Hs, Hr, Hf. rewrite Zlen_app in Hr.
    apply wp_bind, (wp_next_entry fuel p fd x (entries_answers es (e :: rest))); [done..|done| |].
    { destruct Hr as [? Hr]. split; [done|]. pose proof (Zlen_nonneg (entries_types es)). lia. }
    intros s1. simpl.
    destruct (if dot x.1 then _ else trace _ _ _ _) as [h1 e1] eqn:Et. intros W.
    eapply wp_conseq; [apply (IH f s1)|]; try done; try lia.
    + by destruct W.
    + destruct W. lia.
    + by destruct W.
    + destruct W. rewrite w_counts0. by apply room_tally.
    + simpl. intros r s2 [-> W2]. split; [done|]. destruct W as [W]. simpl in w_errno0. rewrite w_errno0 in W2.
      destruct (entries_trace p fd es e1) as [h2 e2]. rewrite <-app_comm_cons, <-app_assoc, app_comm_cons.
      eapply walked_trans; [|exact W2]. by split.
Qed.

Lemma reads_nul p q g : no_nul p -> buffer (p ++ [NUL]) g -> fullpath g = (p ++ [NUL]) ++ q -> reads p g.
Proof.
  intros Hp Hb E. split; [done|]. split; [by eapply buffer_prefix|]. exists q. by rewrite E, <-app_assoc.
Qed.

(** The walk of a file or directory that has no entries to visit takes no steps. *)
Definition same_but_buffer s s' : Prop :=
  script s' = script s /\ history s' = history s /\ errno s' = errno s /\
  counts (vars s') = counts (vars s) /\ pathlen (vars s) <= pathlen (vars s').

Lemma wp_append_slash p s (Q : unit -> state -> Prop) : reads p (vars s) -> Zlen p + 257 <= INT_MAX ->
  (forall s', same_but_buffer s s' -> reads (p ++ [SLASH]) (vars s') -> Zlen p + 257 <= pathlen (vars s') -> Q tt s') ->
  wp (append_slash strerror alloc_ok junk (Zlen p)) Q no_memory s.
Proof.
  intros (Hp & Hb & q & E) Hl HQ. pose proof (Zlen_nonneg p) as H0. unfold append_slash, NAME_MAX, INT_MAX in *.
  apply wp_bind, wp_int32; [unfold INT_MIN, INT_MAX; lia|]. unfold getvar. apply wp_bind, wp_gets.
  unfold u64. rewrite Z.mod_small by lia.
  assert (Hgrown : forall s1, same_but_buffer s s1 -> buffer p (vars s1) -> Zlen p + 257 <= pathlen (vars s1) ->
    wp (poke (Zlen p) [SLASH] ;; poke (Zlen p + 1) [NUL]) Q no_memory s1).
  { intros s1 (S1 & S2 & S3 & S4 & S5) Hb1 Hl1. apply wp_bind, wp_poke; [done|change (Zlen [_]) with 1; lia|].
    intros q1 g1 Hg1. assert (Zlen p + 1 = Zlen (p ++ [SLASH])) as -> by (by rewrite Zlen_app).
    apply wp_poke; [done|rewrite Zlen_app; change (Zlen [_]) with 1; simpl; lia|].
    intros q2 g2 Hg2. apply HQ; [done| |done].
    apply (reads_nul _ q2); [|done|unfold g2; simpl; by rewrite <-!app_assoc].
    unfold no_nul in *. rewrite elem_of_app, list_elem_of_singleton. by intros [?|?]. }
  apply wp_bind. destruct (Z.ltb_spec (pathlen (vars s)) (Zlen p + 255 + 2)).
  - assert (Zlen p < pathlen (vars s)) as Hlt.
    { destruct Hb as [_ <- _]. rewrite E, Zlen_app. unfold Zlen. simpl. lia. }
    destruct Hb as [Hb1 Hb2 Hb3]. rewrite Z.mod_small by lia.
    apply (wp_realloc p); [done|lia|]. intros q1 g1 Hg1. apply Hgrown; [|done|simpl; lia].
    repeat split; simpl; lia.
  - apply wp_ret, Hgrown; [by repeat split|done|lia].
Qed.

Lemma wp_leave_dir p dp c rest s (Q : unit -> state -> Prop) X : no_nul p -> buffer (p ++ [SLASH]) (vars s) ->
  script s = c :: rest ->
  (forall s', let e := if a_ret c <? 0 then a_errno c else errno s in
     walked p (Called (Closedir dp) c ::
       (if a_ret c <? 0 then [Stderr (err_line strerror e (B "can't close directory " ++ p))] else []), e) [] rest s s' ->
     Q tt s') ->
  wp (leave_dir strerror dp (Zlen p)) Q X s.
Proof.
  intros Hp Hb Hs HQ. unfold leave_dir.
  assert (Zlen p + 1 <= pathlen (vars s)) as Hl.
  { destruct Hb as [[q E] Hl _]. rewrite <-Hl, E, Zlen_app, Zlen_app. unfold Zlen. simpl. lia. }
  apply wp_bind, wp_poke; [by eapply buffer_prefix|done|]. intros q g Hg.
  unfold sysret. apply wp_bind, wp_bind. eapply wp_sys_next; [exact Hs|]. apply wp_ret.
  assert (reads p g) as Hr by (apply (reads_nul _ q); [done|done|unfold g; simpl; by rewrite <-app_assoc]).
  destruct (Z.ltb_spec (a_ret c) 0) as [Hc|Hc].
  - apply wp_bind, (wp_read_fullpath p); [done|]. apply wp_err_ret, HQ. simpl.
    rewrite (proj2 (Z.ltb_lt _ _) Hc). split; simpl; rewrite ?(proj2 (Z.ltb_lt _ _) Hc), ?tally_nil, <-?app_assoc; try done. apply Hr.
  - apply wp_ret, HQ. split; simpl; rewrite ?tally_nil; try done; [|apply Hr].
    by destruct (Z.ltb_spec (a_ret c) 0); [lia|].
Qed.

Lemma height_entry x (es : list (answer * ftree)) : x ∈ es -> (height x.2 <= foldr (fun x n => Nat.max (height x.2) n) 0 es)%nat.
Proof.
  induction es as [|y es IH]; intros Hx; [by apply elem_of_nil in Hx|]. simpl.
  apply elem_of_cons in Hx as [->|Hx]; [lia|]. specialize (IH Hx). lia.
Qed.

Lemma shown_entry x (es : list (answer * ftree)) :
  foldr (fun x P => (dot x.1 = false -> shown x.2) /\ P) True es -> x ∈ es -> dot x.1 = false -> shown x.2.
Proof. induction es as [|y es IH]; simpl; [by intros _ ?%elem_of_nil|]. intros [Hy Hes] [->|Hx]%elem_of_cons; auto. Qed.

Lemma entries_ok fuel p es a d e c : shown (Dir a d es e c) ->
  Zlen p + 256 * Z.of_nat (height (Dir a d es e c)) + 257 <= INT_MAX -> Forall (fun x => walks fuel x.2) es ->
  Forall (entry_ok fuel p) es.
Proof.
  simpl. intros (_ & _ & _ & _ & Hes & Hsh) Hl Hw. apply Forall_forall. intros x Hx. rewrite Forall_forall in Hes, Hw.
  destruct (Hes x Hx). split; [done|]. split; [done|]. split; [by apply (shown_entry x es)|].
  split; [pose proof (height_entry x es Hx); lia|auto].
Qed.

Lemma answers_dir a d es e c rest :
  answers (Dir a d es e c) ++ rest = a :: d :: entries_answers es (e :: c :: rest).
Proof.
  simpl. f_equal. f_equal. induction es as [|x es IH]; [done|]. simpl. by rewrite <-app_assoc, IH.
Qed.

(** What the walk does in a directory that it could open. *)
Lemma wp_opened fuel p dp es e c rest s s1 (Q : Z -> state -> Prop) h0 :
  no_nul p -> a_ret e = 0 -> Forall (entry_ok fuel p) es ->
  script s1 = entries_answers es (e :: c :: rest) ->
  walked p (h0, errno s1) [S_IFDIR] (script s1) s s1 ->
  buffer (p ++ [SLASH]) (vars s1) -> Zlen p + 257 <= pathlen (vars s1) ->
  room (Zlen (entries_types es)) (counts (vars s1)) ->
  (let '(h, e1) := entries_trace p dp es (errno s1) in
   let e2 := if a_ret c <? 0 then a_errno c else e1 in
   forall s', walked p (h0 ++ h ++ [Called (Readdir dp) e; Called (Closedir dp) c] ++
       (if a_ret c <? 0 then [Stderr (err_line strerror e2 (B "can't close directory " ++ p))] else []), e2)
     (S_IFDIR :: entries_types es) rest s s' -> Q 0 s') ->
  wp (r <- forever (next_entry (dopath strerror alloc_ok junk fuel (myfunc strerror)) dp (Zlen p)) 0 ;;
      leave_dir strerror dp (Zlen p) ;; ret r) Q no_memory s1.
Proof.
  intros Hp He Hes Hs Hw Hb Hl Hr HQ. apply wp_bind. unfold forever.
  eapply wp_conseq; [apply wp_entries; [done|exact He|exact Hes| |done|done|exact Hs|done]|].
  { assert (length es <= length (script s1))%nat; [|lia]. rewrite Hs. generalize (e :: c :: rest). clear.
    intros l. induction es as [|x es IH]; simpl; [lia|]. rewrite length_app. lia. }
  simpl. intros r s2 [-> W]. destruct (entries_trace p dp es (errno s1)) as [h e1].
  pose proof (w_script _ _ _ _ _ _ W) as Hs2. pose proof (w_errno _ _ _ _ _ _ W) as He2. simpl in He2.
  apply wp_bind, (wp_leave_dir p dp c rest); [done|by destruct W|done|]. rewrite He2. simpl. intros s3 W3.
  apply wp_ret, HQ. apply walked_prefix in W. pose proof (walked_trans _ _ _ _ _ _ _ _ _ _ _ _ W W3) as W13.
  pose proof (walked_trans _ _ _ _ _ _ _ _ _ _ _ _ Hw W13) as W03. rewrite app_nil_r in W03.
  by rewrite <-app_assoc in W03.
Qed.

Lemma walked_buffer p s s1 : same_but_buffer s s1 -> buffer p (vars s1) -> walked p ([], errno s) [] (script s) s s1.
Proof. intros (S1 & S2 & S3 & S4 & S5) Hb. split; rewrite ?tally_nil; simpl; try done. by rewrite app_nil_r. Qed.

(** Up to [opendir] all directories are the same. *)
Lemma wp_dopath_dir fuel p a d rest s (Q : Z -> state -> Prop) : reads p (vars s) -> Zlen p + 257 <= INT_MAX ->
  script s = a :: d :: rest -> 0 <= a_ret a -> type_of a = S_IFDIR -> room 1 (counts (vars s)) ->
  (forall s2, walked (p ++ [SLASH]) ([Called (Lstat p) a; cant_read strerror (errno s) p; Called (Opendir (p ++ [SLASH])) d],
       if a_ret d <? 0 then a_errno d else errno s) [S_IFDIR] rest s s2 ->
     Zlen p + 257 <= pathlen (vars s2) ->
     wp (if a_ret d <? 0 then myfunc strerror (p ++ [SLASH]) (st_mode (a_stat a)) FTW_DNR
         else r <- forever (next_entry (dopath strerror alloc_ok junk fuel (myfunc strerror)) (a_ret d) (Zlen p)) 0 ;;
              leave_dir strerror (a_ret d) (Zlen p) ;; ret r) Q no_memory s2) ->
  wp (dopath strerror alloc_ok junk (S fuel) (myfunc strerror)) Q no_memory s.
Proof.
  intros Hp Hl Hs Ha Hd Hr HQ. simpl. apply wp_bind, (wp_read_fullpath p); [done|].
  apply wp_bind, (wp_sys_next _ _ _ _ _ _ Hs). fold (type_of a). rewrite Hd.
  destruct (Z.ltb_spec (a_ret a) 0); [lia|]. simpl. apply wp_bind, wp_myfunc_dir; [done|]. simpl.
  set (s1 := record_event _ _). apply wp_bind, (wp_read_fullpath p); [by apply (reads_with_counts p _ s)|].
  replace (signed 32 (Zlen p)) with (Zlen p).
  2: { unfold signed, INT_MAX in *. pose proof (Zlen_nonneg p). rewrite Z.mod_small by lia.
       by destruct (Z.ltb_spec (Zlen p) (2 ^ (32 - 1))); [|lia]. }
  apply wp_bind, wp_append_slash; [by apply (reads_with_counts p _ s)|done|]. intros s2 (S1 & S2 & S3 & S4 & S5) Hr2 Hl2.
  apply wp_bind, (wp_read_fullpath (p ++ [SLASH])); [done|].
  eapply wp_bind, wp_sys_next; [rewrite S1; reflexivity|]. apply HQ; [|done].
  assert (errno s2 = errno s) as E by (rewrite S3; simpl; by destruct (Z.ltb_spec (a_ret a) 0); [lia|]).
  destruct Hr2 as (_ & Hb & _). split; simpl; try done.
  - rewrite S2. simpl. destruct (Z.ltb_spec (a_ret a) 0); [lia|]. by rewrite <-!app_assoc.
  - by rewrite E.
Qed.

Theorem dopath_walks t : forall fuel, (height t < fuel)%nat -> walks fuel t.
Proof.
  induction t as [a|a|a d|a d es e c IH] using ftree_nested_ind;
    intros [|fuel] Hf p s rest Hsh Hl Hp Hs Hr; try lia.
  - simpl. apply wp_bind, (wp_read_fullpath p); [done|]. apply wp_bind, (wp_sys_next _ _ _ _ _ _ Hs).
    rewrite (proj2 (Z.ltb_lt _ _) Hsh). apply wp_myfunc_missing. split; [done|]. simpl.
    rewrite (proj2 (Z.ltb_lt _ _) Hsh). split; simpl; rewrite ?(proj2 (Z.ltb_lt _ _) Hsh), ?tally_nil, <-?app_assoc; try done. apply Hp.
  - simpl. apply wp_bind, (wp_read_fullpath p); [done|]. apply wp_bind, (wp_sys_next _ _ _ _ _ _ Hs).
    destruct Hsh as [H1 H2]. fold (type_of a). rewrite (proj2 (Z.ltb_ge _ _) H1), (proj2 (Z.eqb_neq _ _) H2).
    apply wp_myfunc_file; [done|done|]. split; [done|]. split; simpl; rewrite ?(proj2 (Z.ltb_ge _ _) H1); try done.
    by apply (reads_with_counts p (tally [type_of a] (counts (vars s))) s) in Hp as (_ & Hb & _).
  - destruct Hsh as (H1 & H2 & H3). apply (wp_dopath_dir fuel p a d rest); [done|simpl in Hl; lia|done..|].
    intros s2 W Hl2. rewrite (proj2 (Z.ltb_lt _ _) H3) in W |- *. apply wp_myfunc_locked. split; [done|].
    apply walked_prefix in W. destruct W. split; simpl in *; rewrite ?w_history0, ?w_errno0, <-?app_assoc; done.
  - pose proof (entries_ok fuel p es a d e c Hsh Hl) as Hes.
    rewrite answers_dir in Hs. simpl in Hsh, Hl, Hf, Hr. destruct Hsh as (H1 & H2 & H3 & H4 & _).
    assert (Forall (entry_ok fuel p) es) as Hok.
    { apply Hes. apply Forall_forall. intros x Hx. rewrite Forall_forall in IH. apply IH; [done|].
      pose proof (height_entry x es Hx). lia. }
    apply (wp_dopath_dir fuel p a d (entries_answers es (e :: c :: rest))); [done|lia|done..| |].
    { destruct Hr. split; [done|]. unfold Zlen in *. simpl in *. lia. }
    intros s2 W Hl2. rewrite (proj2 (Z.ltb_ge _ _) H3) in W |- *.
    eapply (wp_opened fuel p (a_ret d) es e c rest s s2); [apply Hp|done|done|by destruct W| |by destruct W|done| |].
    + pose proof (w_script _ _ _ _ _ _ W) as Es. pose proof (w_errno _ _ _ _ _ _ W) as Ee. simpl in Ee.
      rewrite Ee, Es. by eapply walked_prefix.
    + rewrite (w_counts _ _ _ _ _ _ W). apply room_tally. by rewrite <-Zlen_app.
    + pose proof (w_errno _ _ _ _ _ _ W) as Ee. simpl in Ee. rewrite Ee. unfold entries_trace.
      destruct (foldr _ _ es (errno s)) as [h e1] eqn:Eh. intros s3 W3. split; [done|].
      simpl. rewrite Eh. exact W3.
Qed.

(** *** main *)

(** The lines of the report. *)
Definition report (c : counters) : list bytes :=
  map (fun '(label, n) =>
         label ++ B " = " ++ fmt 7 n ++ B ", " ++ percent n (Z.max 1 (total c)) ++ B " %" ++ [NEWLINE])
    [(B "regular files ", nreg c); (B "directories   ", ndir c); (B "block special ", nblk c);
     (B "char special  ", nchr c); (B "FIFOs         ", nfifo c); (B "symbolic links", nslink c);
     (B "sockets       ", nsock c)].

(** [realloc] of a null pointer. *)
Lemma wp_realloc_null n (Q : unit -> state -> Prop) s : fullpath (vars s) = [] -> 256 <= n <= 2 ^ 32 ->
  (forall q, let g := Globals q n (counts (vars s)) in buffer [] g ->
     Q tt (Proc (script s) (history s) (errno s) g)) ->
  wp (set_pathlen n ;; realloc_fullpath strerror alloc_ok junk) Q no_memory s.
Proof.
  intros E Hn HQ. apply wp_bind, wp_modify. unfold realloc_fullpath, getvar.
  apply wp_bind, wp_gets. apply wp_bind, wp_gets. simpl. rewrite E.
  destruct (alloc_ok n) eqn:Ea.
  - apply wp_modify, HQ. split; simpl; [by eexists| |lia]. rewrite take_nil. unfold Zlen, junk_block.
    simpl. rewrite length_map, length_seq. lia.
  - apply wp_bind, wp_modify. unfold err_sys. apply wp_bind, wp_gets. apply wp_bind, wp_err_doit.
    intros b. apply wp_exit. split; [done|]. exists n. split; [lia|done].
Qed.

(** The path is stored in a block of at least 256 bytes, which can grow in time: the
    first one, or the one of twice the path's length that is asked for when it is
    refused or too small. *)
Lemma wp_myftw fuel pathname (Q : Z -> state -> Prop) s : no_nul pathname -> Zlen pathname < 2 ^ 31 ->
  alloc_ok 256 = true \/ 128 <= Zlen pathname -> fullpath (vars s) = [] -> pathlen (vars s) = 0 ->
  (forall s', same_but_buffer s s' -> reads pathname (vars s') ->
     wp (dopath strerror alloc_ok junk fuel (myfunc strerror)) Q no_memory s') ->
  wp (myftw strerror alloc_ok junk fuel pathname (myfunc strerror)) Q no_memory s.
Proof.
  intros Hp Hl Hsize He Hz HQ. unfold myftw, path_alloc.
  assert (Hstored : forall s2, same_but_buffer s s2 -> buffer [] (vars s2) -> Zlen pathname < pathlen (vars s2) ->
    wp (poke 0 (pathname ++ [NUL]) ;; dopath strerror alloc_ok junk fuel (myfunc strerror)) Q no_memory s2).
  { intros s2 (S1 & S2 & S3 & S4 & S5) Hb2 Hl2. apply wp_bind, (wp_poke []); [done|rewrite Zlen_app; change (Zlen []) with 0; change (Zlen [NUL]) with 1; lia|].
    intros q g Hg. apply HQ; [done|]. by apply (reads_nul _ q). }
  destruct (alloc_ok 256) eqn:E1; apply wp_bind, wp_bind, wp_modify, wp_ret; apply wp_bind, wp_modify;
    apply wp_bind, wp_gets; simpl; set (s1 := Proc _ _ _ _); apply wp_bind.
  - assert (Zlen (junk_block junk 0 256) = 256) as Hj.
    { unfold Zlen, junk_block. by rewrite length_map, length_seq. }
    assert (buffer [] (vars s1)) as Hb by (split; [by eexists|done|simpl; lia]).
    destruct (Z.leb_spec 256 (Zlen pathname)).
    + unfold u64. rewrite Z.mod_small by lia.
      apply (wp_realloc []); [done|simpl; lia|]. intros q g Hg. apply Hstored; [|done|simpl; lia].
      repeat split; simpl; lia.
    + apply wp_ret, Hstored; [repeat split; simpl; lia|done|simpl; lia].
  - destruct Hsize as [|Hsize]; [done|]. rewrite (proj2 (Z.leb_le _ _) (Zlen_nonneg pathname)). unfold u64. rewrite Z.mod_small by lia.
    apply wp_realloc_null; [done|lia|]. intros q g Hg. apply Hstored; [repeat split; simpl; lia|done|simpl; lia].
Qed.

(** C33: ftw visits every file of the tree that the system shows it exactly once,
    in preorder, whatever the tree: it opens, reads to the end and closes each
    directory that it may open, passes over the two dots, states no path twice, and
    its report counts the files by type. The buffer of the path is never overrun: it grows in time for
    names of [NAME_MAX] bytes, and when memory is refused the program ends with
    status 1. This needs the first allocation, of 256 bytes, to succeed or the path
    to have at least 128 bytes, for nothing checks that allocation and a shorter path
    then gets a block that doubling does not make long enough (see
    [ftw_overruns]). (Every directory is also reported as unreadable.) *)
Theorem ftw_visits fuel prog path t err :
  alloc_ok 256 = true \/ 128 <= Zlen path -> shown t -> (height t < fuel)%nat -> no_nul path ->
  Zlen path + 256 * Z.of_nat (height t) + 257 <= INT_MAX -> Zlen (types t) < 2 ^ 63 ->
  wp (ftw_main strerror alloc_ok junk percent fuel [prog; path]) (fun _ _ => False)
    (fun code s' => no_memory code s' \/
       code = 0 /\ script s' = [] /\
       stated (history s') = paths path t /\ (distinct t -> NoDup (stated (history s'))) /\
       history s' = (trace strerror path t err).1 ++
         map Printed (report (tally (types t) (Counters 0 0 0 0 0 0 0))))
    (Proc (answers t) [] err globals0).
Proof.
  intros Hfirst Hsh Hf Hp Hl Ht. set (s0 := Proc _ _ _ _). unfold ftw_main. apply wp_bind, wp_ret. apply wp_bind.
  eapply wp_mono; [apply (wp_myftw fuel path (fun r s' => r = 0 /\ exists s1, same_but_buffer s0 s1 /\
    walked path (trace strerror path t err) (types t) [] s1 s'))|..].
  - done.
  - unfold INT_MAX in Hl. lia.
  - done.
  - done.
  - done.
  - intros s1 (S1 & S2 & S3 & S4 & S5) Hr.
    eapply wp_conseq; [apply (dopath_walks t fuel Hf path s1 []); try done|].
    + rewrite S1. simpl. by rewrite app_nil_r.
    + rewrite S4. unfold room, total. simpl. lia.
    + intros r s2 [-> W]. split; [done|]. exists s1. split; [done|]. rewrite S3 in W. exact W.
  - intros r s2 [-> (s1 & (S1 & S2 & S3 & S4 & S5) & [W1 W2 W3 W4 _ _])]. rewrite S4 in W4. rewrite S2 in W2.
    simpl in W2, W4. apply wp_bind, wp_gets. rewrite W4. set (c := tally (types t) _) in *.
    assert (room 0 c) as [Hpos Hmax] by (apply room_tally; unfold room, total; simpl; lia).
    unfold total in Hmax. unfold int64. apply wp_bind, wp_bind, wp_guard; [lia|]. apply wp_ret. fold (total c) in *.
    assert ((if total c =? 0 then 1 else total c) = Z.max 1 (total c)) as ->.
    { unfold total in *. destruct (Z.eqb_spec (nreg c + ndir c + nblk c + nchr c + nfifo c + nslink c + nsock c) 0); lia. }
    repeat (apply wp_bind, wp_modify). apply wp_exit. right. split; [done|]. split; [done|].
    match goal with |- stated (history ?s3) = _ /\ _ =>
      assert (history s3 = (trace strerror path t err).1 ++ map Printed (report c)) as Hh
        by (simpl; rewrite W2, <-!app_assoc; done)
    end.
    rewrite Hh, stated_app, stated_trace, app_nil_r. split; [done|]. split; [apply paths_once|done].
  - by left.
Qed.
End proofs.

(** ** An example *)

Module FtwExample.
Definition lstat_ok (mode : Z) : answer := Ans 0 0 [] (Addr 0 0) [] [] 0 (St mode 0 0 0 0).
Definition entry (name : bytes) : answer := Ans 1 0 name (Addr 0 0) [] [] 0 no_stat.
Definition failed (err : Z) : answer := Ans (-1) err [] (Addr 0 0) [] [] 0 no_stat.
Definition the_end : answer := number 0.

(** A directory with a regular file, a directory that may not be read, one with a
    symbolic link, and a file that is gone when it is stated. *)
Definition tree : ftree :=
  Dir (lstat_ok 16877) (number 5)
    [(entry (B "."), Leaf the_end); (entry (B "a"), Leaf (lstat_ok 33188)); (entry (B ".."), Leaf the_end);
     (entry (B "b"), Locked (lstat_ok 16832) (failed 13));
     (entry (B "c"), Dir (lstat_ok 16877) (number 6) [(entry (B "l"), Leaf (lstat_ok 41471))] the_end (number 0));
     (entry (B "d"), Missing (failed 2))] the_end (number 0).
Definition text (err : Z) : bytes := B "error " ++ dec err.
Definition run : outcome (proc globals) unit :=
  ftw_main (H := any_kernel) text (fun _ => true) (fun _ => 88) (fun n m => dec (n * 100 / m)) 3 [B "ftw"; B "t"]
    (Proc (answers tree) [] 0 globals0).

(** A directory with one file, which the system shows as it should. *)
Definition long_name : ftree :=
  Dir (lstat_ok 16877) (number 5) [(entry (B "notes"), Leaf (lstat_ok 33188))] the_end (number 0).
End FtwExample.

Example ftw_paths : paths (B "t") FtwExample.tree =
  [B "t"; B "t/a"; B "t/b"; B "t/c"; B "t/c/l"; B "t/d"].
Proof. vm_compute. reflexivity. Qed.

Example ftw_counts : exists s, FtwExample.run = Exit 0 s /\ counts (vars s) = Counters 1 3 0 0 0 1 0.
Proof. eexists. split; [vm_compute; reflexivity|reflexivity]. Qed.

(** When the first allocation is refused, the block for [t] has two bytes, which are
    doubled once: the name of an entry is copied beyond its end. *)
Example ftw_overruns : shown FtwExample.long_name /\
  ftw_main (H := any_kernel) FtwExample.text (fun n => negb (n =? 256)) (fun _ => 88) (fun n m => dec (n * 100 / m)) 3
    [B "ftw"; B "t"] (Proc (answers FtwExample.long_name) [] 0 globals0) = UB.
Proof.
  split; [|vm_compute; reflexivity]. vm_compute. repeat (split || constructor || intros ?); congruence.
Qed.

Lemma ftw_visits_witness :
  wp (ftw_main (H := any_kernel) FtwExample.text (fun _ => true) (fun _ => 88) (fun n m => dec (n * 100 / m)) 3
        [B "ftw"; B "t"])
    (fun _ _ => False)
    (fun code s' => no_memory (fun _ => true) code s' \/
       code = 0 /\ script s' = [] /\
       stated (history s') = paths (B "t") FtwExample.tree /\
       (distinct FtwExample.tree -> NoDup (stated (history s'))) /\
       history s' = (trace FtwExample.text (B "t") FtwExample.tree 0).1 ++
         map Printed (report (fun n m => dec (n * 100 / m))
                        (tally (types FtwExample.tree) (Counters 0 0 0 0 0 0 0))))
    (Proc (answers FtwExample.tree) [] 0 globals0).
Proof.
  apply ftw_visits; [left; reflexivity| |vm_compute; lia| |vm_compute; congruence|vm_compute; reflexivity].
  - vm_compute. repeat (split || constructor || intros ?); try congruence.
  - vm_compute. intros H. repeat (apply list_elem_of_In in H; simpl in H); destruct H; lia.
Defined.
