(* ===== verification/Arpspoof.v ===== *)
(** Arpspoof: network/arpspoof/arpspoof.c as it is built on Linux, without DEBUG.
    The calls of libnet and libpcap are calls like those of the system: the packet
    is built by two of them and sent by a third. [getopt] answers an option and its
    argument, or at the end -1, the number of operands and the first operand. The
    signal handler [cleanup] is a function. *)
From stdpp Require Import list strings.
From S2P Require Import Prelude Arrays Bytes Sys.

Definition ETHERTYPE_ARP : Z := 2054.
Definition ARPOP_REQUEST : Z := 1.
Definition ARPOP_REPLY : Z := 2.
Definition ETHER_ADDR_LEN : Z := 6.
(** The size of [arp_dev], with which [struct arpreq] ends. *)
Definition ARP_DEV_SIZE : Z := 16.
Definition SIGHUP : Z := 1.
Definition SIGINT : Z := 2.
Definition SIGTERM : Z := 15.

Record host := Host { h_ip : Z; h_mac : bytes }.
#[export] Instance host_inhabited : Inhabited host := populate (Host 0 (replicate 6 0)).

(** The static variables; null pointers are [None], and no block. *)
Record spoofer := Spoofer {
  spoof : host;
  targets : list host;
  intf : option bytes;
  poison_reverse : Z;
  my_ha : option bytes;
  cleanup_src_own : Z;
  cleanup_src_host : Z;
}.
Definition spoofer0 : spoofer := Spoofer (Host 0 (replicate 6 0)) [] None 0 None 1 0.
Definition set_spoof v g := Spoofer v (targets g) (intf g) (poison_reverse g) (my_ha g) (cleanup_src_own g) (cleanup_src_host g).
Definition set_targets v g := Spoofer (spoof g) v (intf g) (poison_reverse g) (my_ha g) (cleanup_src_own g) (cleanup_src_host g).
Definition set_intf v g := Spoofer (spoof g) (targets g) v (poison_reverse g) (my_ha g) (cleanup_src_own g) (cleanup_src_host g).
Definition set_reverse v g := Spoofer (spoof g) (targets g) (intf g) v (my_ha g) (cleanup_src_own g) (cleanup_src_host g).
Definition set_my_ha v g := Spoofer (spoof g) (targets g) (intf g) (poison_reverse g) v (cleanup_src_own g) (cleanup_src_host g).
Definition set_cleanup_src o h g := Spoofer (spoof g) (targets g) (intf g) (poison_reverse g) (my_ha g) o h.

Definition brd_ha : bytes := replicate 6 255.
Definition LF : bytes := [NEWLINE].

(** [ether_ntoa]: six hexadecimal numbers without leading zeros. *)
Definition hex_digit (n : Z) : Z := if n <? 10 then 48 + n else 87 + n.
Definition hex (n : Z) : bytes := if n <? 16 then [hex_digit n] else [hex_digit (n / 16); hex_digit (n mod 16)].
Fixpoint ether_ntoa (mac : bytes) : bytes :=
  match mac with
  | [] => []
  | [b] => hex b
  | b :: mac => hex b ++ 58 :: ether_ntoa mac
  end.

Section arpspoof.
Context `{Kernel} (addr2name4 : Z -> bytes).
Notation arp := (M (proc spoofer)).

Definition usage {A} : arp A :=
  printf (B "Version: 1.0" ++ LF ++ B "Usage: arpspoof [-i interface] [-t target] [-r] spoof" ++ LF ++
          B "Ctrl + c to quit" ++ LF) ;;
  exit_ 1.

(** [errx] begins the line with the name of the program. *)
Definition errx {A} (text : bytes) : arp A := fputs_stderr (B "arpspoof: " ++ text ++ LF) ;; exit_ 1.

(** [None] for -1; the address [*ether] is written otherwise. The request is
    cleared before the call. *)
Definition arp_cache_lookup (ip : Z) (lif : bytes) : arp (option bytes) :=
  guard_ok (Zlen lif <=? ARP_DEV_SIZE) ;;
  sock <- sysret Socket ;;
  if sock =? -1 then sys_ (Close sock) ;; perror (B "socket error") ;; ret None
  else
    a <- sys (Ioctl_arp sock ip lif) ;;
    if a_ret a =? -1 then sys_ (Close sock) ;; ret None
    else
      sys_ (Close sock) ;;
      let ether := take 6 (a_data a ++ replicate 6 0) in
      printf (B "arp_cache_lookup:" ++ addr2name4 ip ++ B " is at " ++ ether_ntoa ether ++ LF) ;;
      ret (Some ether).

(** A null [me] is [None]. *)
Definition arp_send (op : Z) (sha : bytes) (spa : Z) (tha : bytes) (tpa : Z) (me : option bytes) : arp Z :=
  let me := default sha me in
  sys_ (Libnet_arp op sha spa tha tpa) ;;
  sys_ (Libnet_ethernet tha me ETHERTYPE_ARP) ;;
  printf (ether_ntoa me ++ B " ") ;;
  (if op =? ARPOP_REQUEST then
     printf (B "> " ++ ether_ntoa tha ++ B " 0806: Arp request who-has " ++ addr2name4 tpa ++ B " tell " ++
             addr2name4 spa ++ LF)
   else
     printf (B "> " ++ ether_ntoa tha ++ B " 0806: Arp reply " ++ addr2name4 spa ++ B " is-at ") ;;
     printf (ether_ntoa sha ++ LF)) ;;
  a <- sys Libnet_write ;;
  let retval := a_ret a in
  (when negb (retval =? 0) do printf (a_data a ++ LF)) ;;
  sys_ Libnet_clear ;;
  ret retval.

(** The datagram is empty. *)
Definition arp_force (dst : Z) : arp Z :=
  fd <- sysret Socket ;;
  if fd <? 0 then ret 1
  else sys_ (Sendto fd dst 67) ;; sys_ (Close fd) ;; ret 0.

(** [None] for 0. *)
Definition arp_find (ip : Z) : arp (option bytes) :=
  loop 5 (fun i =>
    dev <- getvar intf ;;
    match dev with
    | None => ub
    | Some lif =>
        m <- arp_cache_lookup ip lif ;;
        match m with
        | Some mac => ret (inr (Some mac))
        | None =>
            arp_force ip ;;
            sys_ (Sleep 1) ;;
            if i <? 3 then ret (inl (i + 1)) else ret (inr None)
        end
    end) 0.

(** [*target] for the [i]-th target. *)
Definition target (i : Z) : arp host :=
  ts <- getvar targets ;; guard_ok (in_bounds ts i) ;; ret (aget ts i).
Definition put_target (i : Z) (h : host) : arp unit :=
  ts <- getvar targets ;; guard_ok (in_bounds ts i) ;; setvars (set_targets (aset ts i h)).

(** [while (target->ip) { ...; target++; }], the body on the index and a local. *)
Definition each_target {L} (body : Z -> L -> arp L) (l : L) : arp L :=
  ts <- getvar targets ;;
  loop (S (length ts)) (fun '(i, l) =>
    t <- target i ;;
    if h_ip t =? 0 then ret (inr l) else l <- body i l ;; ret (inl (i + 1, l))) (0, l).

(** As [each_target], but the body may return from the function. *)
Definition arp_find_all : arp Z :=
  ts <- getvar targets ;;
  loop (S (length ts)) (fun i =>
    t <- target i ;;
    if h_ip t =? 0 then ret (inr 1)
    else
      m <- arp_find (h_ip t) ;;
      match m with
      | None => ret (inr 0)
      | Some mac => put_target i (Host (h_ip t) mac) ;; ret (inl (i + 1))
      end) 0.

(** The two packets of a round of [cleanup] for a target; the local is [src_ha]. *)
Definition heal (fw bw : bool) (i t : Z) (src_ha : option bytes) : arp (option bytes) :=
  own <- getvar cleanup_src_own ;;
  host <- getvar cleanup_src_host ;;
  my <- getvar my_ha ;;
  let src_ha := if negb (own =? 0) && (negb (Z.rem i 2 =? 0) || (host =? 0)) then my else src_ha in
  h <- target t ;;
  s <- getvar spoof ;;
  (when fw do
    (arp_send ARPOP_REPLY (h_mac s) (h_ip s) (if h_ip h =? 0 then brd_ha else h_mac h) (h_ip h) src_ha ;;
     sys_ (Sleep 1))) ;;
  (when bw do
    (arp_send ARPOP_REPLY (h_mac h) (h_ip h) (h_mac s) (h_ip s) src_ha ;; sys_ (Sleep 1))) ;;
  ret src_ha.

Definition cleanup {A} (sig : Z) : arp A :=
  s <- getvar spoof ;;
  m <- arp_find (h_ip s) ;;
  let fw := match m with Some _ => true | None => false end in
  match m with Some mac => setvars (set_spoof (Host (h_ip s) mac)) | None => ret tt end ;;
  r <- getvar poison_reverse ;;
  bw <- (if r =? 0 then ret false
         else t <- target 0 ;;
              if h_ip t =? 0 then ret false else n <- arp_find_all ;; ret (negb (n =? 0))) ;;
  own <- getvar cleanup_src_own ;;
  host <- getvar cleanup_src_host ;;
  rounds <- int32 (own * 5 + host * 5) ;;
  printf (B "Cleaning up and re-arping targets..." ++ LF) ;;
  loop (S (Z.to_nat rounds)) (fun '(i, src_ha) =>
    if i <? rounds then
      src_ha <- each_target (heal fw bw i) src_ha ;; ret (inl (i + 1, src_ha))
    else ret (inr tt)) (0, None) ;;
  exit_ 0.

(** ** main *)

(** An [in_addr_t]; -1 is converted to it before the comparison. *)
Definition name2addr4 (name : bytes) : arp Z :=
  a <- sysret (Libnet_name2addr name) ;;
  let ip := u32 a in
  if ip =? u32 (-1) then usage else ret ip.

(** The options; the locals are [n_targets] and [cleanup_src], the result also the
    number of operands and the first. The element is assigned before the test. *)
Definition option_step (l : Z * option bytes) : arp (Z * option bytes + (Z * option bytes * Z * bytes)) :=
  let '(n, src) := l in
  a <- sys Getopt ;;
  let c := a_ret a in
  let optarg := a_data a in
  if c =? -1 then ret (inr (n, src, a_num a, optarg))
  else if c =? 105 then setvars (set_intf (Some optarg)) ;; ret (inl (n, src))
  else if c =? 116 then
    r <- sysret (Libnet_name2addr optarg) ;;
    t <- target n ;;
    put_target n (Host (u32 r) (h_mac t)) ;;
    (when u32 r =? u32 (-1) do usage) ;;
    m <- int32 (n + 1) ;;
    ret (inl (m, src))
  else if c =? 114 then setvars (set_reverse 1) ;; ret (inl (n, src))
  else if c =? 99 then ret (inl (n, Some optarg))
  else if (c =? 104) || (c =? 63) then usage
  else ret (inl (n, src)).

Definition choose_src (cleanup_src : option bytes) : arp unit :=
  match cleanup_src with
  | None => setvars (set_cleanup_src 1 0)
  | Some v =>
      if bool_decide (v = B "own") then setvars (set_cleanup_src 1 0)
      else if bool_decide (v = B "host") then setvars (set_cleanup_src 0 1)
      else if bool_decide (v = B "both") then setvars (set_cleanup_src 1 1)
      else usage
  end.

(** The hardware address of a target, of which the first test is always true. *)
Definition find_target (i : Z) (l : unit) : arp unit :=
  t <- target i ;;
  m <- arp_find (h_ip t) ;;
  match m with
  | None => errx (B "Couldn't arp for target host " ++ addr2name4 (h_ip t))
  | Some mac => put_target i (Host (h_ip t) mac)
  end.

(** What is sent to a target, and with -r to the host, in every round. *)
Definition poison (i : Z) (l : unit) : arp unit :=
  t <- target i ;;
  s <- getvar spoof ;;
  my <- getvar my_ha ;;
  match my with
  | None => ub
  | Some me =>
      arp_send ARPOP_REPLY me (h_ip s) (if h_ip t =? 0 then brd_ha else h_mac t) (h_ip t) my ;;
      r <- getvar poison_reverse ;;
      when negb (r =? 0) do (arp_send ARPOP_REPLY me (h_ip t) (h_mac s) (h_ip s) my ;; ret tt)
  end.

(** The table of targets and the network device. *)
Definition open_device (argc : Z) : arp unit :=
  p <- sysret (Malloc (argc + 1)) ;;
  setvars (set_targets (if p =? 0 then [] else replicate (Z.to_nat (argc + 1)) (Host 0 (replicate 6 0)))) ;;
  d <- sys Pcap_lookupdev ;;
  (if a_ret d =? 0 then errx (a_data d)
   else setvars (set_intf (Some (a_data d))) ;; printf (B "intf is " ++ a_data d ++ LF)) ;;
  l <- sys (Libnet_init (a_data d)) ;;
  when a_ret l =? 0 do errx (a_data l).

(** From the end of the options up to the signals. *)
Definition learn_addresses (n : Z) (src : option bytes) (operands : Z) (operand : bytes) : arp unit :=
  (when negb (operands =? 1) do usage) ;;
  r <- getvar poison_reverse ;;
  (when negb (r =? 0) && (n =? 0) do usage) ;;
  choose_src src ;;
  ip <- name2addr4 operand ;;
  setvars (fun g => set_spoof (Host ip (h_mac (spoof g))) g) ;;
  each_target find_target tt ;;
  (when negb (r =? 0) do
    (m <- arp_find ip ;;
     match m with
     | None => errx (B "Couldn't arp for spoof host " ++ addr2name4 ip)
     | Some mac => setvars (set_spoof (Host ip mac))
     end)) ;;
  hw <- sys Libnet_get_hwaddr ;;
  (when a_ret hw =? 0 do errx (B "Unable to determine own mac address")) ;;
  setvars (set_my_ha (Some (a_data hw))) ;;
  sys_ (Signal SIGHUP) ;;
  sys_ (Signal SIGINT) ;;
  sys_ (Signal SIGTERM).

Definition arpspoof_main {A} (argc : Z) : arp A :=
  setvars (fun g => set_spoof (Host 0 (h_mac (spoof g))) (set_intf None (set_reverse 0 g))) ;;
  open_device argc ;;
  let! (n, src, operands, operand) := forever option_step (0, None) in
  learn_addresses n src operands operand ;;
  forever (fun _ => each_target poison tt ;; sys_ (Sleep 3) ;; ret (inl tt)) tt.
End arpspoof.
