(* ===== verification/ArpspoofProofs.v ===== *)
(** ArpspoofProofs: the frames that arpspoof sends, while it poisons and when it
    cleans up, at every moment of a run. *)
From stdpp Require Import sets list strings.
From S2P Require Import Prelude Arrays Bytes Sys Arpspoof.

(** ** What a history sends *)

(** The headers that libnet has been asked for since the last packet was cleared,
    innermost first; [libnet_write] sends them as one frame. *)
Inductive header :=
| ArpHeader (op : Z) (sha : bytes) (spa : Z) (tha : bytes) (tpa : Z)
| EthernetHeader (dst src : bytes) (type : Z).
Notation frame := (list header).

Definition net_step (n : frame * list frame) (e : event) : frame * list frame :=
  match e with
  | Called (Libnet_arp op sha spa tha tpa) _ => (n.1 ++ [ArpHeader op sha spa tha tpa], n.2)
  | Called (Libnet_ethernet dst src type) _ => (n.1 ++ [EthernetHeader dst src type], n.2)
  | Called Libnet_write _ => (n.1, n.2 ++ [n.1])
  | Called Libnet_clear _ => ([], n.2)
  | _ => n
  end.
Definition net (h : list event) : frame * list frame := fold_left net_step h ([], []).
Definition pending (h : list event) : frame := (net h).1.
Definition frames (h : list event) : list frame := (net h).2.

(** The frame that tells the host [h] that the address [ip] is at [mac]; [src] is
    its sender on the link. *)
Definition reply (mac : bytes) (ip : Z) (h : host) (src : bytes) : frame :=
  [ArpHeader ARPOP_REPLY mac ip (h_mac h) (h_ip h); EthernetHeader (h_mac h) src ETHERTYPE_ARP].

(** What a round sends: to each target that the spoofed host is at [me], and, with
    -r, to that host that the target is. *)
Definition round (me : bytes) (sp : host) (rev : bool) (ts : list host) : list frame :=
  concat (map (fun t => reply me (h_ip sp) t me :: if rev then [reply me (h_ip t) sp me] else []) ts).

(** The answer of the cache of the system that gives a host its hardware address. *)
Definition known (h : list event) (x : host) : Prop :=
  exists fd dev a, Called (Ioctl_arp fd (h_ip x) dev) a ∈ h /\ a_ret a <> -1 /\
    h_mac x = take 6 (a_data a ++ replicate 6 0).

(** The times that the cache could not be asked for the address [ip], or had none: a
    socket was refused, which is reported, or the request was. *)
Definition refused (ip : Z) (e : event) : bool :=
  match e with
  | Perror text => bool_decide (text = B "socket error")
  | Called (Ioctl_arp _ ip' _) a => (ip' =? ip) && (a_ret a =? -1)
  | _ => false
  end.
Definition refusals (ip : Z) (h : list event) : nat := length (filter (fun e => refused ip e = true) h).
(** From [h] to [h'] four attempts failed. *)
Definition unanswered (ip : Z) (h h' : list event) : Prop := (refusals ip h + 4 <= refusals ip h')%nat.

(** The addresses that names were resolved to, and the options, in their order. *)
Definition resolved (h : list event) : list Z :=
  omap (fun e => match e with Called (Libnet_name2addr _) a => Some (u32 (a_ret a)) | _ => None end) h.
Definition options (h : list event) : list Z :=
  omap (fun e => match e with Called Getopt a => Some (a_ret a) | _ => None end) h.

(** The targets are the hosts before the first address that is zero. *)
Fixpoint until_zero (l : list Z) : list Z :=
  match l with [] => [] | x :: l => if x =? 0 then [] else x :: until_zero l end.
Definition addressed (ips : list Z) (ts : list host) : Prop :=
  Forall (fun ip => ip <> 0) ips /\ exists rest, map h_ip ts = ips ++ 0 :: rest.

Lemma net_app h h' : net (h ++ h') = fold_left net_step h' (net h).
Proof. apply fold_left_app. Qed.

Lemma addressed_until_zero l rest ts : map h_ip ts = l ++ 0 :: rest -> addressed (until_zero l) ts.
Proof.
  revert ts. induction l as [|x l IH]; intros ts E; simpl.
  { split; [constructor|]. by exists rest. }
  destruct ts as [|t ts]; [done|]. injection E as Ex E. destruct (Z.eqb_spec x 0) as [->|Hx].
  - split; [constructor|]. exists (l ++ 0 :: rest). simpl. by rewrite Ex, E.
  - destruct (IH ts E) as [H1 [r H2]]. split; [by constructor|]. exists r. simpl. by rewrite Ex, H2.
Qed.

(** ** Quiet steps *)

(** Events that neither build nor send frames, and are no options or names. *)
Definition quiet_call (c : call) : bool :=
  match c with
  | Libnet_arp _ _ _ _ _ | Libnet_ethernet _ _ _ | Libnet_write | Libnet_clear | Libnet_name2addr _ | Getopt => false
  | _ => true
  end.
Definition quiet (e : event) : Prop := match e with Called c _ => quiet_call c = true | _ => True end.

Lemma quiet_net h h' : Forall quiet h' -> net (h ++ h') = net h.
Proof.
  intros Hq. rewrite net_app. induction Hq as [|e h' He Hq IH]; [done|]. simpl. by destruct e as [[]| | | | | |].
Qed.

Lemma quiet_lists h h' : Forall quiet h' ->
  resolved (h ++ h') = resolved h /\ options (h ++ h') = options h.
Proof.
  intros Hq. unfold resolved, options. rewrite !omap_app.
  enough (resolved h' = [] /\ options h' = []) as [E1 E2].
  { unfold resolved, options in E1, E2. by rewrite E1, E2, !app_nil_r. }
  induction Hq as [|e h' He Hq [IH1 IH2]]; [done|]. by destruct e as [[]| | | | | |].
Qed.

Lemma known_app h h' x : known h x -> known (h ++ h') x.
Proof. intros (fd & dev & a & Hin & Ha). exists fd, dev, a. split; [|done]. apply elem_of_app. by left. Qed.

Lemma refusals_app ip h h' : refusals ip (h ++ h') = (refusals ip h + refusals ip h')%nat.
Proof. unfold refusals. by rewrite filter_app, length_app. Qed.

Section proofs.
Context `{Kernel} (addr2name4 : Z -> bytes).
Notation state := (proc spoofer).
Implicit Types (s : state) (ts : list host).

(** From [s0] to [s] there were quiet events only, and no variable changed. *)
Record quietly s0 s : Prop := {
  q_history : exists h, history s = history s0 ++ h /\ Forall quiet h;
  q_script : (length (script s) <= length (script s0))%nat;
  q_vars : vars s = vars s0;
}.

#[export] Instance quietly_preorder : PreOrder quietly.
Proof.
  split.
  - intros s. split; [exists []; by rewrite app_nil_r|done|done].
  - intros s1 s2 s3 [(h & E & Hh) L V] [(h' & E' & Hh') L' V']. split; [|lia|congruence].
    exists (h ++ h'). rewrite E', E, app_assoc. split; [done|by apply Forall_app].
Qed.

Lemma quietly_event s0 s e : quietly s0 s -> quiet e -> quietly s0 (record_event e s).
Proof.
  intros [(h & E & Hh) L V] He. split; [|done|done]. exists (h ++ [e]). simpl. rewrite E, app_assoc.
  split; [done|]. apply Forall_app. by split; [|constructor].
Qed.

Lemma quietly_known s0 s x : quietly s0 s -> known (history s0) x -> known (history s) x.
Proof. intros [(h & -> & _) _ _]. apply known_app. Qed.

Lemma quietly_net s0 s : quietly s0 s -> net (history s) = net (history s0).
Proof. intros [(h & -> & Hh) _ _]. by apply quiet_net. Qed.

(** All of a run may end in a call. *)
Definition waits_from s0 (X : Z -> state -> Prop) : Prop := forall s, quietly s0 s -> X WAITING s.

Lemma wp_sys_quiet s0 c (Q : answer -> state -> Prop) X s : quiet_call c = true -> quietly s0 s -> waits_from s0 X ->
  (forall a s', allowed c a -> quietly s0 s' -> history s' = history s ++ [Called c a] ->
     (length (script s') < length (script s))%nat -> Q a s') ->
  wp (sys c) Q X s.
Proof.
  intros Hc Hs HX HQ. apply wp_sys.
  - intros a rest E Ha. destruct Hs as [(h & Eh & Hh) L V]. apply HQ; [done| |done|simpl; rewrite E; simpl; lia].
    split; simpl; [|rewrite E in L; simpl in L; lia|done]. exists (h ++ [Called c a]). rewrite Eh, app_assoc. split; [done|].
    apply Forall_app. by split; [|constructor].
  - apply HX. by apply quietly_event.
Qed.

Lemma wp_sys_quiet_ s0 c (Q : unit -> state -> Prop) X s : quiet_call c = true -> quietly s0 s -> waits_from s0 X ->
  (forall s', quietly s0 s' -> (length (script s') < length (script s))%nat -> Q tt s') ->
  wp (sys_ c) Q X s.
Proof. intros Hc Hs HX HQ. apply wp_bind, (wp_sys_quiet s0); [done..|]. intros a s' _ Hs' _ Hl. by apply wp_ret, HQ. Qed.

Lemma wp_printf_quiet s0 t (Q : unit -> state -> Prop) X s : quietly s0 s ->
  (forall s', quietly s0 s' -> Q tt s') -> wp (printf t) Q X s.
Proof. intros Hs HQ. apply wp_modify, HQ. by apply quietly_event. Qed.

(** The interface fits the request. *)
Definition good_dev s : Prop := exists dev, intf (vars s) = Some dev /\ Zlen dev <= ARP_DEV_SIZE.

Lemma quietly_refusals ip s0 s : quietly s0 s -> (refusals ip (history s0) <= refusals ip (history s))%nat.
Proof. intros [(h & -> & _) _ _]. rewrite refusals_app. lia. Qed.

Lemma waits_quietly s0 s X : quietly s0 s -> waits_from s0 X -> waits_from s X.
Proof. intros Hs HX s' Hs'. apply HX. by transitivity s. Qed.

(** An address that is found comes from the cache; a refusal leaves its trace. *)
Lemma wp_lookup ip lif (Q : option bytes -> state -> Prop) X s : waits_from s X -> Zlen lif <= ARP_DEV_SIZE ->
  (forall m s', quietly s s' -> (length (script s') < length (script s))%nat ->
     (forall mac, m = Some mac -> known (history s') (Host ip mac)) ->
     (m = None -> refusals ip (history s) + 1 <= refusals ip (history s'))%nat -> Q m s') ->
  wp (arp_cache_lookup addr2name4 ip lif) Q X s.
Proof.
  intros HX Hlif HQ. unfold arp_cache_lookup. apply wp_bind, wp_guard; [lia|].
  apply wp_bind. unfold sysret. apply wp_bind, (wp_sys_quiet s); [done..|]. intros a s1 _ Hs1 _ Hl1. apply wp_ret.
  pose proof (quietly_refusals ip _ _ Hs1) as R1. pose proof (waits_quietly _ _ _ Hs1 HX) as HX1.
  destruct (a_ret a =? -1).
  - apply wp_bind, (wp_sys_quiet_ s1); [done..|]. intros s2 Hs2 Hl2. apply wp_bind, wp_modify, wp_ret.
    pose proof (quietly_refusals ip _ _ Hs2) as R2.
    apply HQ; [apply quietly_event; [by transitivity s1|done]|simpl; lia|done|]. intros _. simpl.
    rewrite refusals_app. change (refusals ip [_]) with 1%nat. lia.
  - apply wp_bind, (wp_sys_quiet s1); [done..|]. intros b s2 _ Hs2 E2 Hl2. pose proof (waits_quietly _ _ _ Hs2 HX1) as HX2.
    destruct (Z.eqb_spec (a_ret b) (-1)) as [Eb|Eb].
    + apply wp_bind, (wp_sys_quiet_ s2); [done..|]. intros s3 Hs3 Hl3.
      pose proof (quietly_refusals ip _ _ Hs3) as R3. apply wp_ret, HQ; [|lia|done|].
      { transitivity s1; [done|]. by transitivity s2. }
      intros _. rewrite E2, refusals_app in R3. unfold refusals in R3 at 2. rewrite filter_cons_True in R3; [simpl in R3; lia|].
      simpl. by rewrite Z.eqb_refl, Eb.
    + apply wp_bind, (wp_sys_quiet_ s2); [done..|].
      intros s3 Hs3 Hl3. apply wp_bind, wp_modify, wp_ret. apply HQ; [|simpl; lia| |done].
      { apply quietly_event; [|done]. transitivity s1; [done|]. by transitivity s2. }
      intros mac [= <-]. apply known_app, (quietly_known s2); [done|]. exists (a_ret a), lif, b.
      rewrite E2. split; [|done]. apply elem_of_app. right. by left.
Qed.

Lemma wp_force s0 ip (Q : Z -> state -> Prop) X s : quietly s0 s -> waits_from s0 X ->
  (forall r s', quietly s0 s' -> (length (script s') < length (script s))%nat -> Q r s') -> wp (arp_force ip) Q X s.
Proof.
  intros Hs HX HQ. unfold arp_force, sysret. apply wp_bind, wp_bind, (wp_sys_quiet s0); [done..|].
  intros a s1 _ Hs1 _ Hl1. apply wp_ret. destruct (a_ret a <? 0); [by apply wp_ret, HQ|].
  apply wp_bind, (wp_sys_quiet_ s0); [done..|]. intros s2 Hs2 Hl2.
  apply wp_bind, (wp_sys_quiet_ s0); [done..|]. intros s3 Hs3 Hl3. apply wp_ret, HQ; [done|lia].
Qed.

(** At most four attempts, and four when none has an answer. *)
Lemma wp_find ip (Q : option bytes -> state -> Prop) X s : waits_from s X -> good_dev s ->
  (forall m s', quietly s s' -> (length (script s') < length (script s))%nat ->
     (forall mac, m = Some mac -> known (history s') (Host ip mac)) ->
     (m = None -> unanswered ip (history s) (history s')) -> Q m s') ->
  wp (arp_find addr2name4 ip) Q X s.
Proof.
  intros HX (dev & Hd & Hl) HQ. unfold arp_find.
  apply (wp_loop (fun i s' => 0 <= i <= 3 /\ quietly s s' /\ (length (script s') <= length (script s))%nat /\
             (refusals ip (history s) + Z.to_nat i <= refusals ip (history s'))%nat)
           (fun i _ => Z.to_nat (3 - i))); [split; [lia|split; [done|lia]]|lia|].
  intros i s1 (Hi & Hs1 & Hl1 & R1). apply wp_bind, wp_gets. rewrite (q_vars _ _ Hs1), Hd.
  apply wp_bind, wp_lookup; [by eapply waits_quietly|done|]. intros [mac|] s2 Hs2 Hl2 Hm Hn.
  - apply wp_ret, HQ; [by transitivity s1|lia|done|done].
  - specialize (Hn eq_refl). assert (quietly s s2) as Hs02 by by transitivity s1.
    apply wp_bind, (wp_force s2); [done|by eapply waits_quietly|]. intros r s3 Hs3 Hl3.
    apply wp_bind, (wp_sys_quiet_ s2); [done|done|by eapply waits_quietly|]. intros s4 Hs4 Hl4.
    assert (quietly s s4) as Hs04 by by transitivity s2. pose proof (quietly_refusals ip _ _ Hs4) as R4.
    destruct (Z.ltb_spec i 3).
    + apply wp_ret. split; [|lia]. split; [lia|]. split; [done|lia].
    + apply wp_ret, HQ; [done|lia|done|]. intros _. unfold unanswered. lia.
Qed.

(** ** Frames *)

Definition extends (h h' : list event) : Prop :=
  (exists h1, h' = h ++ h1) /\ resolved h' = resolved h /\ options h' = options h.

#[export] Instance extends_preorder : PreOrder extends.
Proof.
  split; [intros h; split; [exists []; by rewrite app_nil_r|done]|].
  intros h1 h2 h3 [[k1 ->] [R1 O1]] [[k2 ->] [R2 O2]]. split; [|split; congruence].
  exists (k1 ++ k2). by rewrite app_assoc.
Qed.

Lemma extends_known h h' x : extends h h' -> known h x -> known h' x.
Proof. intros [[k ->] _]. apply known_app. Qed.

Lemma unanswered_later ip h h' h'' : unanswered ip h h' -> extends h' h'' -> unanswered ip h h''.
Proof. unfold unanswered. intros Hu [[k ->] _]. rewrite refusals_app. lia. Qed.

Lemma unanswered_earlier ip h h' h'' : extends h h' -> unanswered ip h' h'' -> unanswered ip h h''.
Proof. unfold unanswered. intros [[k ->] _]. rewrite refusals_app. lia. Qed.

(** From [s0] to [s] the frames [fs] were sent, and nothing is pending. *)
Record sends s0 (fs : list frame) s : Prop := {
  s_extends : extends (history s0) (history s);
  s_pending : pending (history s) = [];
  s_frames : frames (history s) = frames (history s0) ++ fs;
  s_script : (length (script s) <= length (script s0))%nat;
  s_vars : vars s = vars s0;
}.

(** The same in the middle of it. *)
Definition cut s0 (fs : list frame) s : Prop :=
  extends (history s0) (history s) /\
  exists fs1, fs1 `prefix_of` fs /\ frames (history s) = frames (history s0) ++ fs1.

Lemma sends_trans s1 fs s2 fs' s3 : sends s1 fs s2 -> sends s2 fs' s3 -> sends s1 (fs ++ fs') s3.
Proof.
  intros [E1 P1 F1 L1 V1] [E2 P2 F2 L2 V2]. split; [by transitivity (history s2)|done| |lia|congruence].
  by rewrite F2, F1, app_assoc.
Qed.

Lemma sends_cut s1 fs s2 fs' s3 : sends s1 fs s2 -> cut s2 fs' s3 -> cut s1 (fs ++ fs') s3.
Proof.
  intros [E1 P1 F1 L1 V1] [E2 (fs1 & Hp & F2)]. split; [by transitivity (history s2)|].
  exists (fs ++ fs1). split; [by apply prefix_app|]. by rewrite F2, F1, app_assoc.
Qed.

Lemma cut_more s1 fs fs' s2 : cut s1 fs s2 -> cut s1 (fs ++ fs') s2.
Proof. intros [E (fs1 & Hp & F)]. split; [done|]. exists fs1. split; [by apply prefix_app_r|done]. Qed.

Lemma quietly_extends s0 s : quietly s0 s -> extends (history s0) (history s).
Proof. intros [(h & -> & Hh) _ _]. split; [by exists h|]. by apply quiet_lists. Qed.

Lemma quietly_sends s0 s : quietly s0 s -> pending (history s0) = [] -> sends s0 [] s.
Proof.
  intros Hq Hp. pose proof (quietly_net _ _ Hq) as En. split; [by apply quietly_extends| | |by destruct Hq|by destruct Hq].
  - unfold pending in *. by rewrite En.
  - unfold frames. by rewrite En, app_nil_r.
Qed.

Lemma quietly_cut s0 s : quietly s0 s -> cut s0 [] s.
Proof.
  intros Hq. split; [by apply quietly_extends|]. exists []. split; [done|].
  unfold frames. by rewrite (quietly_net _ _ Hq), app_nil_r.
Qed.

(** From [s0] on the run extended the history to one that leaves libnet with [n]. *)
Record at_net s0 (n : frame * list frame) s : Prop := {
  n_extends : extends (history s0) (history s);
  n_net : net (history s) = n;
  n_script : (length (script s) <= length (script s0))%nat;
  n_vars : vars s = vars s0;
}.

Definition packet_call (c : call) : bool :=
  match c with Libnet_arp _ _ _ _ _ | Libnet_ethernet _ _ _ | Libnet_write | Libnet_clear => true | _ => false end.

Lemma wp_packet_call s0 n c (Q : answer -> state -> Prop) X s : packet_call c = true -> at_net s0 n s ->
  (forall a s', at_net s0 (net_step n (Called c a)) s' -> (length (script s') < length (script s))%nat -> Q a s') ->
  (forall s', at_net s0 n s' -> X WAITING s') ->
  wp (sys c) Q X s.
Proof.
  intros Hc [E N L V] HQ HX. apply wp_sys.
  - intros a rest Es _. apply HQ; [|simpl; rewrite Es; simpl; lia].
    split; simpl; [|by rewrite net_app, N|rewrite Es in L; simpl in L; lia|done].
    transitivity (history s); [done|]. split; [by eexists|]. unfold resolved, options. rewrite !omap_app.
    by destruct c; simpl; rewrite ?app_nil_r.
  - apply HX. split; simpl; [|by rewrite net_app, N|done|done].
    transitivity (history s); [done|]. split; [by eexists|]. unfold resolved, options. rewrite !omap_app.
    simpl. by rewrite !app_nil_r.
Qed.

Lemma wp_packet_call_ s0 n c (Q : unit -> state -> Prop) X s : packet_call c = true -> at_net s0 n s ->
  (forall a s', at_net s0 (net_step n (Called c a)) s' -> (length (script s') < length (script s))%nat -> Q tt s') ->
  (forall s', at_net s0 n s' -> X WAITING s') ->
  wp (sys_ c) Q X s.
Proof. intros Hc Hs HQ HX. apply wp_bind, (wp_packet_call s0 n); [done..| |done]. intros a s' Hs' Hl. apply wp_ret. by apply (HQ a). Qed.

Lemma wp_printf_net s0 n t (Q : unit -> state -> Prop) X s : at_net s0 n s ->
  (forall s', at_net s0 n s' -> script s' = script s -> Q tt s') -> wp (printf t) Q X s.
Proof.
  intros [E N L V] HQ. assert (quietly s (record_event (Printed t) s)) as Hq by (by apply quietly_event).
  apply wp_modify, HQ; [|done]. split; [|by rewrite (quietly_net _ _ Hq)|done|done].
  transitivity (history s); [done|by apply quietly_extends].
Qed.

Lemma wp_send op sha spa tha tpa me (Q : Z -> state -> Prop) X s : pending (history s) = [] ->
  let f := [ArpHeader op sha spa tha tpa; EthernetHeader tha (default sha me) ETHERTYPE_ARP] in
  (forall r s', sends s [f] s' -> (length (script s') < length (script s))%nat -> Q r s') ->
  (forall s', cut s [f] s' -> X WAITING s') ->
  wp (arp_send addr2name4 op sha spa tha tpa me) Q X s.
Proof.
  intros Hp f HQ HX. unfold arp_send. destruct (net (history s)) as [p fs] eqn:En.
  assert (p = []) as -> by (unfold pending in Hp; by rewrite En in Hp).
  assert (Hcut : forall s' p' fs1, at_net s (p', fs ++ fs1) s' -> fs1 `prefix_of` [f] -> X WAITING s').
  { intros s' p' fs1 [E N _ _] Hpre. apply HX. split; [done|]. exists fs1. unfold frames. by rewrite N, En. }
  assert (Hcut0 : forall s' p', at_net s (p', fs) s' -> X WAITING s').
  { intros s' p' Hn. apply (Hcut s' p' []); [by rewrite app_nil_r|by eexists]. }
  apply wp_bind, (wp_packet_call_ s ([], fs)); [done|by split| |by intros s'; apply Hcut0]. intros a1 s1 N1 L1.
  apply wp_bind; eapply wp_packet_call_; [done|exact N1| |by intros s'; apply Hcut0]. intros a2 s2 N2 L2.
  apply wp_bind; eapply wp_printf_net; [exact N2|]. intros s3 N3 L3.
  apply wp_bind. eapply (wp_conseq _ (fun _ s4 => at_net s (f, fs) s4 /\ script s4 = script s3)).
  { destruct (op =? ARPOP_REQUEST); [eapply wp_printf_net; [exact N3|done]|].
    apply wp_bind; eapply wp_printf_net; [exact N3|]. intros s4 N4 L4. eapply wp_printf_net; [exact N4|].
    intros s5 N5 L5. split; [done|congruence]. }
  intros [] s4 [N4 L4].
  apply wp_bind; eapply wp_packet_call; [done|exact N4| |by intros s'; apply Hcut0]. intros a5 s5 N5 L5.
  apply wp_bind. eapply (wp_conseq _ (fun _ s6 => at_net s (f, fs ++ [f]) s6 /\ script s6 = script s5)).
  { destruct (negb _); [eapply wp_printf_net; [exact N5|done]|by apply wp_ret]. }
  intros [] s6 [N6 L6].
  apply wp_bind; eapply wp_packet_call_; [done|exact N6| |intros s' N'; by apply (Hcut s' f [f])]. intros a7 s7 [E7 N7 L7' V7] L7.
  apply wp_ret, HQ; [|rewrite L6, L4 in *; rewrite L3 in *; lia].
  split; [done|unfold pending; by rewrite N7|unfold frames; by rewrite N7, En|done|done].
Qed.

(** ** The targets *)

Lemma addressed_lookup ips ts k : addressed ips ts -> (k < length ips)%nat ->
  exists t, ts !! k = Some t /\ h_ip t <> 0.
Proof.
  intros [Hz [rest E]] Hk. assert (map h_ip ts !! k = ips !! k) as El by (rewrite E; by apply lookup_app_l).
  destruct (lookup_lt_is_Some_2 ips k Hk) as [ip Hip]. rewrite Hip in El.
  apply list_lookup_fmap_Some in El as (t & -> & Ht). exists t. split; [done|]. exact (Forall_lookup_1 _ _ _ _ Hz Hip).
Qed.

Lemma addressed_end ips ts : addressed ips ts -> exists t, ts !! length ips = Some t /\ h_ip t = 0.
Proof.
  intros [_ [rest E]]. assert (map h_ip ts !! length ips = Some 0) as El.
  { rewrite E, lookup_app_r, Nat.sub_diag by lia. done. }
  apply list_lookup_fmap_Some in El as (t & -> & Ht). by exists t.
Qed.

Lemma wp_target k t (Q : host -> state -> Prop) X s : targets (vars s) !! k = Some t -> Q t s ->
  wp (target (Z.of_nat k)) Q X s.
Proof.
  intros Ht HQ. unfold target. apply wp_bind, wp_gets. pose proof (lookup_lt_Some _ _ _ Ht).
  apply wp_bind, wp_guard; [unfold in_bounds, Zlen; lia|]. apply wp_ret. unfold aget.
  rewrite Nat2Z.id, (list_lookup_total_correct _ _ _ Ht). done.
Qed.

(** The hosts before the first address that is zero. *)
Definition victims s (ips : list Z) : list host := take (length ips) (targets (vars s)).

Lemma wp_each_target {L} ips (I : nat -> L -> state -> Prop) (body : Z -> L -> M state L) Q X (l : L) s :
  addressed ips (targets (vars s)) ->
  I 0%nat l s -> (forall k l s, I k l s -> addressed ips (targets (vars s))) ->
  (forall k l s, (k < length ips)%nat -> I k l s -> wp (body (Z.of_nat k) l) (I (S k)) X s) ->
  (forall l s, I (length ips) l s -> Q l s) ->
  wp (each_target body l) Q X s.
Proof.
  intros Ha HI Hadr Hbody HQ. unfold each_target. apply wp_bind, wp_gets.
  apply (wp_loop (fun '(i, l) s => exists k, i = Z.of_nat k /\ (k <= length ips)%nat /\ I k l s)
           (fun '(i, _) _ => length ips - Z.to_nat i)%nat).
  - exists 0%nat. split; [done|split; [lia|done]].
  - destruct (addressed_end _ _ Ha) as (t & Ht%lookup_lt_Some & _). lia.
  - intros [i l1] s1 (k & -> & Hk & HI1). apply wp_bind. specialize (Hadr k l1 s1 HI1).
    destruct (decide (k = length ips)) as [->|Hne].
    + destruct (addressed_end _ _ Hadr) as (t & Ht & Hz). eapply wp_target; [done|].
      rewrite Hz. apply wp_ret. by apply HQ.
    + destruct (addressed_lookup ips _ k Hadr) as (t & Ht & Hz); [lia|]. eapply wp_target; [done|].
      rewrite (proj2 (Z.eqb_neq _ _) Hz). apply wp_bind. eapply wp_conseq; [apply Hbody; [lia|done]|].
      intros l2 s2 HI2. apply wp_ret. split; [|lia]. exists (S k). split; [lia|split; [lia|done]].
Qed.

(** ** A round *)

Definition told (me : bytes) (sp : host) (rev : bool) (t : host) : list frame :=
  reply me (h_ip sp) t me :: (if rev then [reply me (h_ip t) sp me] else []).

Lemma round_snoc me sp rev ts t : round me sp rev (ts ++ [t]) = round me sp rev ts ++ told me sp rev t.
Proof. unfold round. rewrite map_app, concat_app. simpl. by rewrite app_nil_r. Qed.

Lemma wp_poison me sp rev k t (Q : unit -> state -> Prop) X s :
  targets (vars s) !! k = Some t -> h_ip t <> 0 -> my_ha (vars s) = Some me -> spoof (vars s) = sp ->
  rev = negb (poison_reverse (vars s) =? 0) -> pending (history s) = [] ->
  (forall s', sends s (told me sp rev t) s' -> Q tt s') ->
  (forall s', cut s (told me sp rev t) s' -> X WAITING s') ->
  wp (poison addr2name4 (Z.of_nat k) tt) Q X s.
Proof.
  intros Ht Hz Hme Hsp Hrev Hp HQ HX. unfold poison. apply wp_bind. eapply wp_target; [done|].
  apply wp_bind, wp_gets. apply wp_bind, wp_gets. rewrite Hme. apply wp_bind, wp_send; [done| |].
  2: { intros s' Hc. rewrite Hsp, (proj2 (Z.eqb_neq _ _) Hz) in Hc. apply HX.
       apply (cut_more s [_] (if rev then _ else [])). exact Hc. }
  intros r s1 Hs1 L1. rewrite Hsp, (proj2 (Z.eqb_neq _ _) Hz) in Hs1. apply wp_bind, wp_gets.
  rewrite (s_vars _ _ _ Hs1), <-Hrev. destruct rev; [|by apply wp_ret, HQ].
  apply wp_bind, wp_send; [by destruct Hs1| |].
  - intros r2 s2 Hs2 L2. apply wp_ret, HQ. rewrite Hsp in Hs2. by apply (sends_trans s [_] s1 [_]).
  - intros s' Hc. rewrite Hsp in Hc. apply HX. by apply (sends_cut s [_] s1 [_]).
Qed.

(** What a run of the program has found out when it starts to send. *)
Record armed (me : bytes) (sp : host) (rev : bool) (ips : list Z) s : Prop := {
  m_me : my_ha (vars s) = Some me;
  m_spoof : spoof (vars s) = sp;
  m_reverse : rev = negb (poison_reverse (vars s) =? 0);
  m_targets : addressed ips (targets (vars s));
  m_pending : pending (history s) = [];
}.

Lemma armed_sends me sp rev ips s fs s' : armed me sp rev ips s -> sends s fs s' -> armed me sp rev ips s'.
Proof. intros [] [E P F L V]. by split; rewrite ?V. Qed.

Lemma take_S_lookup ts k t : ts !! k = Some t -> take (S k) ts = take k ts ++ [t].
Proof. apply take_S_r. Qed.

Lemma wp_poison_round me sp rev ips (Q : unit -> state -> Prop) X s : armed me sp rev ips s ->
  (forall s', sends s (round me sp rev (victims s ips)) s' -> Q tt s') ->
  (forall s', cut s (round me sp rev (victims s ips)) s' -> X WAITING s') ->
  wp (each_target (poison addr2name4) tt) Q X s.
Proof.
  intros Ha HQ HX.
  apply (wp_each_target ips (fun k _ s' => sends s (round me sp rev (take k (targets (vars s)))) s')).
  - by destruct Ha.
  - apply quietly_sends; [done|by destruct Ha].
  - intros k _ s1 Hs1. by destruct (armed_sends _ _ _ _ _ _ _ Ha Hs1).
  - intros k [] s1 Hk Hs1. pose proof (armed_sends _ _ _ _ _ _ _ Ha Hs1) as [M1 M2 M3 M4 M5].
    destruct (addressed_lookup ips _ k M4 Hk) as (t & Ht & Hz).
    assert (targets (vars s) !! k = Some t) as Ht' by (by rewrite <-(s_vars _ _ _ Hs1)).
    eapply (wp_poison me sp rev k t); [done..| |]; intros s2 Hs2.
    + rewrite (take_S_lookup _ _ _ Ht'), round_snoc. by eapply sends_trans.
    + apply HX. pose proof (sends_cut _ _ _ _ _ Hs1 Hs2) as Hc. rewrite <-round_snoc, <-(take_S_lookup _ _ _ Ht') in Hc.
      unfold victims. rewrite <-(firstn_skipn (S k) (take (length ips) _)), take_take, Nat.min_l by lia.
      unfold round. rewrite map_app, concat_app. by apply cut_more.
  - intros [] s1 Hs1. apply HQ. exact Hs1.
Qed.

(** The loop without end. *)
Definition rounds (n : nat) (me : bytes) (sp : host) (rev : bool) (ts : list host) : list frame :=
  concat (replicate n (round me sp rev ts)).

Lemma rounds_S n me sp rev ts : rounds n me sp rev ts ++ round me sp rev ts = rounds (S n) me sp rev ts.
Proof. unfold rounds. rewrite replicate_S_end, concat_app. simpl. by rewrite app_nil_r. Qed.

Lemma wp_poisoning {A} me sp rev ips (Q : A -> state -> Prop) X s : armed me sp rev ips s ->
  (forall n s', cut s (rounds n me sp rev (victims s ips)) s' -> X WAITING s') ->
  wp (forever (fun _ => each_target (poison addr2name4) tt ;; sys_ (Sleep 3) ;; ret (inl tt)) tt) Q X s.
Proof.
  intros Ha HX. apply (wp_forever (fun _ s1 => exists n, sends s (rounds n me sp rev (victims s ips)) s1)).
  - exists 0%nat. apply quietly_sends; [done|by destruct Ha].
  - intros _ s1 [n Hs1]. pose proof (armed_sends _ _ _ _ _ _ _ Ha Hs1) as Ha1.
    assert (victims s1 ips = victims s ips) as Ev by (unfold victims; by rewrite (s_vars _ _ _ Hs1)).
    apply wp_bind, (wp_poison_round me sp rev ips); [done| |]; rewrite Ev; intros s2 Hs2.
    2: { apply (HX (S n)). rewrite <-rounds_S. by eapply sends_cut. }
    pose proof (sends_trans _ _ _ _ _ Hs1 Hs2) as Hs12. rewrite rounds_S in Hs12.
    apply wp_bind, (wp_sys_quiet_ s2); [done|done| |].
    + intros s3 Hs3. apply (HX (S n)). rewrite <-(app_nil_r (rounds _ _ _ _ _)).
      eapply sends_cut; [exact Hs12|by apply quietly_cut].
    + intros s3 Hs3 L3. apply wp_ret. split.
      * exists (S n). rewrite <-(app_nil_r (rounds _ _ _ _ _)). eapply sends_trans; [exact Hs12|].
        apply quietly_sends; [done|by destruct Hs2].
      * destruct Hs2. lia.
Qed.

(** ** The start *)

(** The ways out before anything is sent. *)
Definition early (code : Z) s : Prop := (code = WAITING \/ code = 1) /\ frames (history s) = [].

Section start.
Context (X : Z -> state -> Prop).
Hypothesis HX : forall code s, early code s -> X code s.

Lemma early_quiet s0 : net (history s0) = ([], []) -> waits_from s0 X.
Proof. intros Hn s Hs. apply HX. split; [by left|]. unfold frames. by rewrite (quietly_net _ _ Hs), Hn. Qed.

Lemma wp_usage {A} (Q : A -> state -> Prop) s : net (history s) = ([], []) -> wp usage Q X s.
Proof.
  intros Hn. apply wp_bind, (wp_printf_quiet s); [done|]. intros s1 Hs1. apply wp_exit, HX. split; [by right|].
  unfold frames. by rewrite (quietly_net _ _ Hs1), Hn.
Qed.

Lemma wp_errx {A} t (Q : A -> state -> Prop) s : net (history s) = ([], []) -> wp (errx t) Q X s.
Proof.
  intros Hn. apply wp_bind, wp_modify, wp_exit, HX. split; [by right|]. unfold frames. simpl. by rewrite net_app, Hn.
Qed.

(** *** The options *)

(** [addrs] are the addresses in the table, which has room for [argc + 1]. *)
Record parsed (argc : Z) (addrs : list Z) s : Prop := {
  p_net : net (history s) = ([], []);
  p_targets : map h_ip (targets (vars s)) = addrs ++ replicate (Z.to_nat (argc + 1) - length addrs) 0;
  p_dev : good_dev s;
  p_reverse : poison_reverse (vars s) = if bool_decide (114 ∈ options (history s)) then 1 else 0;
}.

(** Options with an argument use up an element of [argv] each. *)
Definition posix_getopt (argc : Z) : Prop := forall h a, may h Getopt a = true -> a_ret a = 116 ->
  Zlen (filter (fun c => c = 116) (options h)) + 2 <= argc.
(** Names of interfaces, given or found, fit the request. *)
Definition short_names : Prop :=
  (forall a, allowed Getopt a -> a_ret a = 105 -> Zlen (a_data a) <= ARP_DEV_SIZE) /\
  (forall a, allowed Pcap_lookupdev a -> a_ret a <> 0 -> Zlen (a_data a) <= ARP_DEV_SIZE).

Lemma options_snoc h e : options (h ++ [e]) = options h ++ match e with Called Getopt a => [a_ret a] | _ => [] end.
Proof. unfold options. rewrite omap_app. by destruct e as [[]| | | | | |]. Qed.

Lemma resolved_snoc h e :
  resolved (h ++ [e]) = resolved h ++ match e with Called (Libnet_name2addr _) a => [u32 (a_ret a)] | _ => [] end.
Proof. unfold resolved. rewrite omap_app. by destruct e as [[]| | | | | |]. Qed.

Lemma net_snoc h e : net (h ++ [e]) = net_step (net h) e.
Proof. apply net_app. Qed.

(** During the options all names are those of targets. *)
Record parsing (argc n : Z) s : Prop := {
  o_parsed : parsed argc (resolved (history s)) s;
  o_count : n = Zlen (resolved (history s));
  o_options : n = Zlen (filter (fun c => c = 116) (options (history s)));
  o_room : 0 <= n < argc;
}.

Lemma insert_ip ts k h : map h_ip (<[k := h]> ts) = <[k := h_ip h]> (map h_ip ts).
Proof. apply list_fmap_insert. Qed.

Lemma wp_put_target k h (Q : unit -> state -> Prop) X' s : (k < length (targets (vars s)))%nat ->
  Q tt (Proc (script s) (history s) (errno s) (set_targets (<[k := h]> (targets (vars s))) (vars s))) ->
  wp (put_target (Z.of_nat k) h) Q X' s.
Proof.
  intros Hk HQ. unfold put_target. apply wp_bind, wp_gets. apply wp_bind, wp_guard; [unfold in_bounds, Zlen; lia|].
  apply wp_modify. unfold aset. by rewrite Nat2Z.id.
Qed.

(** A target on the command line. *)
Lemma wp_add_target {A} argc n (k' : Z -> M state A) (Q : A -> state -> Prop) s name : parsed argc (resolved (history s)) s ->
  n = Zlen (resolved (history s)) -> 0 <= n -> n + 2 <= argc -> argc <= INT_MAX ->
  (forall s', parsed argc (resolved (history s')) s' -> Zlen (resolved (history s')) = n + 1 ->
     options (history s') = options (history s) -> (length (script s') < length (script s))%nat -> wp (k' (n + 1)) Q X s') ->
  wp (r <- sysret (Libnet_name2addr name) ;; t <- target n ;; put_target n (Host (u32 r) (h_mac t)) ;;
      (when u32 r =? u32 (-1) do usage) ;; m <- int32 (n + 1) ;; k' m) Q X s.
Proof.
  intros [Pn Pt Pd Pr] Hn Hn0 Hargc Hmax HQ. unfold sysret. apply wp_bind, wp_bind, wp_sys.
  2: { apply HX. split; [by left|]. unfold frames. simpl. by rewrite net_snoc, Pn. }
  intros a rest E _. apply wp_ret. set (s1 := answered _ _ _ _).
  assert (net (history s1) = ([], [])) as Hn1 by (simpl; by rewrite net_snoc, Pn).
  assert (length (targets (vars s)) = Z.to_nat (argc + 1)) as Hlen.
  { rewrite <-(length_map h_ip), Pt, length_app, length_replicate. unfold Zlen in Hn. lia. }
  set (k := length (resolved (history s))). replace n with (Z.of_nat k) in * by done.
  destruct (lookup_lt_is_Some_2 (targets (vars s1)) k) as [t Ht]; [simpl; lia|].
  apply wp_bind. eapply wp_target; [done|]. apply wp_bind, wp_put_target; [simpl; lia|]. set (s2 := Proc _ _ _ _).
  apply wp_bind. destruct (Z.eqb_spec (u32 (a_ret a)) (u32 (-1))); [by apply wp_usage|].
  apply wp_ret, wp_bind, wp_int32; [unfold INT_MIN, INT_MAX in *; lia|]. apply HQ; simpl.
  2: { rewrite resolved_snoc, Zlen_app. done. }
  2: { rewrite options_snoc. by rewrite app_nil_r. }
  2: { rewrite E. simpl. lia. }
  rewrite resolved_snoc. split; simpl; [done| |done|rewrite options_snoc, app_nil_r; exact Pr].
  rewrite insert_ip, Pt. simpl. rewrite insert_app_r_alt by (subst k; lia). subst k. rewrite Nat.sub_diag, length_app.
  replace (Z.to_nat (argc + 1) - length (resolved (history s)))%nat with
    (S (Z.to_nat (argc + 1) - (length (resolved (history s)) + 1))) by lia.
  simpl. by rewrite <-app_assoc.
Qed.

Lemma reverse_snoc (l : list Z) x : x <> 114 -> bool_decide (114 ∈ l ++ [x]) = bool_decide (114 ∈ l).
Proof. intros Hx. apply bool_decide_ext. rewrite elem_of_app, list_elem_of_singleton. naive_solver. Qed.

(** An option other than a target. *)
Lemma parsing_option argc n s a rest g : parsing argc n s -> allowed Getopt a -> a_ret a <> 116 ->
  targets g = targets (vars s) ->
  intf g = (if a_ret a =? 105 then Some (a_data a) else intf (vars s)) ->
  poison_reverse g = (if a_ret a =? 114 then 1 else poison_reverse (vars s)) ->
  (forall a, allowed Getopt a -> a_ret a = 105 -> Zlen (a_data a) <= ARP_DEV_SIZE) ->
  parsing argc n (Proc rest (history s ++ [Called Getopt a]) (errno (answered Getopt a rest s)) g).
Proof.
  intros [[Pn Pt Pd Pr] Hc Ho Hr] Ha Hne Et Ei Ep Hs. split; simpl.
  - split; simpl.
    + by rewrite net_snoc, Pn.
    + by rewrite Et, resolved_snoc, app_nil_r.
    + unfold good_dev. simpl. rewrite Ei. destruct (Z.eqb_spec (a_ret a) 105); [eauto|done].
    + rewrite Ep, Pr, options_snoc. destruct (Z.eqb_spec (a_ret a) 114) as [->|Hn].
      * rewrite bool_decide_true; [done|]. apply elem_of_app. right. by left.
      * by rewrite reverse_snoc.
  - by rewrite resolved_snoc, app_nil_r.
  - rewrite options_snoc, filter_app, filter_cons_False by done. by rewrite app_nil_r.
  - done.
Qed.

Lemma wp_options {A} argc (k : Z * option bytes * Z * bytes -> M state A) (Q : A -> state -> Prop) s :
  posix_getopt argc -> short_names -> argc <= INT_MAX -> parsing argc 0 s ->
  (forall n src m operand s', parsing argc n s' -> wp (k (n, src, m, operand)) Q X s') ->
  wp (r <- forever option_step (0, None) ;; k r) Q X s.
Proof.
  intros Hopt [Hshort _] Hmax Hs HQ.
  apply wp_bind, (wp_forever (fun '(n, _) s' => parsing argc n s')); [done|].
  intros [n src] s1 Hs1. pose proof Hs1 as [P1 Hc Ho Hr]. apply wp_bind, wp_sys_at.
  2: { apply HX. split; [by left|]. unfold frames. simpl. rewrite net_snoc. simpl. by destruct P1 as [-> _ _ _]. }
  intros a rest E Ha. set (s2 := answered _ _ _ _).
  assert (allowed Getopt a) as Hal by (by exists (history s1)).
  assert (length (script s2) < length (script s1))%nat as Hlt by (simpl; rewrite E; simpl; lia).
  assert (Hother : a_ret a <> 116 -> forall g, targets g = targets (vars s1) ->
    intf g = (if a_ret a =? 105 then Some (a_data a) else intf (vars s1)) ->
    poison_reverse g = (if a_ret a =? 114 then 1 else poison_reverse (vars s1)) ->
    parsing argc n (Proc rest (history s2) (errno s2) g)).
  { intros Hne g Et Ei Ep. by apply parsing_option. }
  assert (Hsame : a_ret a <> 116 -> a_ret a <> 105 -> a_ret a <> 114 -> parsing argc n s2).
  { intros H1 H2 H3. apply (Hother H1 (vars s1)); [done|by rewrite (proj2 (Z.eqb_neq _ _) H2)|by rewrite (proj2 (Z.eqb_neq _ _) H3)]. }
  cbv beta zeta. destruct (Z.eqb_spec (a_ret a) (-1)) as [Em|Em].
  { apply wp_ret, HQ, Hsame; rewrite Em; done. }
  destruct (Z.eqb_spec (a_ret a) 105) as [Ei|Ei].
  { apply wp_bind, wp_modify, wp_ret. split; [|done]. apply (Hother ltac:(lia) (set_intf _ (vars s1))); rewrite ?Ei; done. }
  destruct (Z.eqb_spec (a_ret a) 116) as [Et|Et].
  - assert (n + 2 <= argc) as Hn by (rewrite Ho; eapply Hopt; [exact Ha|done]). apply (wp_add_target argc); try (simpl; lia).
    + destruct P1 as [Pn Pt Pd Pr]. split; simpl; [by rewrite net_snoc, Pn|by rewrite resolved_snoc, app_nil_r|done|].
      by rewrite options_snoc, Pr, reverse_snoc by lia.
    + simpl. by rewrite resolved_snoc, app_nil_r.
    + intros s3 P3 L3 O3 Hl3. apply wp_ret. split; [|lia]. split; [done|lia| |lia].
      rewrite O3. simpl. rewrite options_snoc, filter_app, filter_cons_True by done.
      rewrite Zlen_app, <-Ho. done.
  - destruct (Z.eqb_spec (a_ret a) 114) as [Er|Er].
    { apply wp_bind, wp_modify, wp_ret. split; [|done]. apply (Hother ltac:(lia) (set_reverse _ (vars s1))); rewrite ?Er; done. }
    destruct (a_ret a =? 99); [by apply wp_ret; split; [apply Hsame|]|].
    destruct (_ || _); [apply wp_usage; simpl; rewrite net_snoc; by destruct P1 as [-> _ _ _]|].
    by apply wp_ret; split; [apply Hsame|].
Qed.

(** *** Hardware addresses *)

(** From [s0] to [s] no more than addresses of targets were found out. *)
Record learns s0 s : Prop := {
  l_extends : extends (history s0) (history s);
  l_net : net (history s) = net (history s0);
  l_script : (length (script s) <= length (script s0))%nat;
  l_vars : exists ts, vars s = set_targets ts (vars s0) /\ map h_ip ts = map h_ip (targets (vars s0));
}.

Lemma quietly_learns s0 s1 s2 : learns s0 s1 -> quietly s1 s2 -> learns s0 s2.
Proof.
  intros [E N L V] Hq. pose proof (quietly_net _ _ Hq) as N2. pose proof (quietly_extends _ _ Hq) as E2.
  destruct Hq as [_ L2 V2]. split; [by transitivity (history s1)|congruence|lia|by rewrite V2].
Qed.

Lemma learns_refl s : learns s s.
Proof. split; [done..|]. exists (targets (vars s)). by destruct s as [? ? ? []]. Qed.

Lemma learns_put s0 s k t mac : learns s0 s -> targets (vars s) !! k = Some t ->
  learns s0 (Proc (script s) (history s) (errno s) (set_targets (<[k := Host (h_ip t) mac]> (targets (vars s))) (vars s))).
Proof.
  intros [E N L (ts & V & Ets)] Ht. split; [done..|]. simpl. rewrite V in Ht |- *. simpl in *.
  exists (<[k := Host (h_ip t) mac]> ts). split; [done|]. rewrite insert_ip. simpl.
  rewrite list_insert_id; [done|]. by rewrite list_lookup_fmap, Ht.
Qed.

Lemma learns_addressed ips s0 s : learns s0 s -> addressed ips (targets (vars s0)) -> addressed ips (targets (vars s)).
Proof. intros [_ _ _ (ts & -> & E)] [Hz [rest Er]]. split; [done|]. exists rest. simpl. by rewrite E. Qed.

Lemma learns_dev s0 s : learns s0 s -> good_dev s0 -> good_dev s.
Proof. unfold good_dev. intros [_ _ _ (ts & -> & _)]. done. Qed.

Lemma learns_frames s0 s : learns s0 s -> frames (history s) = frames (history s0).
Proof. intros []. unfold frames. by rewrite l_net0. Qed.

(** All targets get their addresses from the cache, or the program ends. *)
Lemma wp_find_targets ips (Q : unit -> state -> Prop) s : net (history s) = ([], []) -> good_dev s ->
  addressed ips (targets (vars s)) ->
  (forall s', learns s s' -> Forall (known (history s')) (victims s' ips) -> Q tt s') ->
  wp (each_target (find_target addr2name4) tt) Q X s.
Proof.
  intros Hn Hd Ha HQ.
  apply (wp_each_target ips (fun k _ s' => learns s s' /\ Forall (known (history s')) (take k (targets (vars s')))));
    [done| |by intros k _ s1 [Hs1 _]; eapply learns_addressed| |by intros [] s1 [? ?]; apply HQ].
  { split; [apply learns_refl|by rewrite take_0]. }
  intros k [] s1 Hk [Hs1 Hf]. pose proof (learns_addressed _ _ _ Hs1 Ha) as Ha1.
  destruct (addressed_lookup ips _ k Ha1 Hk) as (t & Ht & Hz). unfold find_target. apply wp_bind. eapply wp_target; [done|].
  assert (net (history s1) = ([], [])) as Hn1 by (destruct Hs1; congruence).
  apply wp_bind, wp_find; [by apply early_quiet|by eapply learns_dev|].
  intros [mac|] s2 Hs2 L2 Hm _.
  2: { apply wp_errx. by rewrite (quietly_net _ _ Hs2). }
  pose proof (quietly_learns _ _ _ Hs1 Hs2) as Hs02. rewrite <-(q_vars _ _ Hs2) in Ht.
  pose proof (lookup_lt_Some _ _ _ Ht) as Hlt.
  apply wp_put_target; [done|]. split; [by apply learns_put|]. simpl.
  rewrite (take_S_r _ _ (Host (h_ip t) mac)) by (by apply list_lookup_insert_eq). rewrite take_insert_ge by lia.
  apply Forall_app. split; [|constructor; [by apply Hm|done]]. rewrite (q_vars _ _ Hs2).
  eapply Forall_impl; [exact Hf|]. intros x. by apply quietly_known.
Qed.

(** With -r the spoofed host gets its address in the same way. *)
Lemma wp_find_spoof ip r (Q : unit -> state -> Prop) s : net (history s) = ([], []) -> good_dev s ->
  (forall s' mac, quietly s s' -> r <> 0 -> known (history s') (Host ip mac) ->
     Q tt (Proc (script s') (history s') (errno s') (set_spoof (Host ip mac) (vars s')))) ->
  (r = 0 -> Q tt s) ->
  wp (when negb (r =? 0) do
    (m <- arp_find addr2name4 ip ;;
     match m with
     | None => errx (B "Couldn't arp for spoof host " ++ addr2name4 ip)
     | Some mac => setvars (set_spoof (Host ip mac))
     end)) Q X s.
Proof.
  intros Hn Hd HQ HQ0. destruct (Z.eqb_spec r 0); [by apply wp_ret, HQ0|]. simpl.
  apply wp_bind, wp_find; [by apply early_quiet|done|]. intros [mac|] s1 Hs1 L1 Hm _.
  - apply wp_modify, HQ; [done|done|by apply Hm].
  - apply wp_errx. by rewrite (quietly_net _ _ Hs1).
Qed.

Lemma wp_open_device argc script err (Q : unit -> state -> Prop) g : 0 <= argc -> short_names ->
  (forall a rest, script = a :: rest -> a_ret a <> 0) -> poison_reverse g = 0 ->
  (forall s', parsing argc 0 s' -> Q tt s') -> 0 < argc ->
  wp (open_device argc) Q X (Proc script [] err g).
Proof.
  intros Hargc [_ Hs] Hc Hrev HQ Hpos. set (s0 := Proc _ _ _ _). unfold open_device, sysret.
  assert (waits_from s0 X) as HX0 by (by apply early_quiet).
  apply wp_bind, wp_bind, wp_sys; [|apply HX0; by apply quietly_event]. intros a rest Ea _. simpl in Ea.
  assert (quietly s0 (answered (Malloc (argc + 1)) a rest s0)) as [(h1 & E1 & Q1) L1 V1].
  { split; simpl; [|rewrite Ea; simpl; lia|done]. exists [Called (Malloc (argc + 1)) a]. split; [done|by constructor]. }
  revert E1 L1 V1. generalize (answered (Malloc (argc + 1)) a rest s0) as s1. intros s1 E1 L1 V1. apply wp_ret.
  apply wp_bind, wp_modify. rewrite (proj2 (Z.eqb_neq _ _) (Hc a rest Ea)). set (s2 := Proc _ _ _ _).
  assert (net (history s2) = ([], [])) as N2 by (simpl; rewrite E1; by apply quiet_net).
  assert (resolved (history s2) = [] /\ options (history s2) = []) as [R2 O2] by (simpl; rewrite E1; by apply (quiet_lists [])).
  apply wp_bind, (wp_sys_quiet s2); [done|done|by apply early_quiet|]. intros d s3 Hd Hs3 _ _. apply wp_bind.
  destruct (Z.eqb_spec (a_ret d) 0); [apply wp_errx; by rewrite (quietly_net _ _ Hs3)|].
  apply wp_bind, wp_modify, wp_modify. set (s4 := record_event _ _).
  assert (net (history s4) = ([], [])) as N4 by (simpl; by rewrite net_snoc, (quietly_net _ _ Hs3), N2).
  apply wp_bind, (wp_sys_quiet s4); [done|done|by apply early_quiet|]. intros l s5 _ Hs5 _ _.
  destruct (a_ret l =? 0); [apply wp_errx; by rewrite (quietly_net _ _ Hs5)|]. apply wp_ret, HQ.
  assert (extends (history s2) (history s5)) as (_ & R & O).
  { transitivity (history s3); [by apply quietly_extends|]. transitivity (history s4); [|by apply quietly_extends].
    apply (quietly_extends s3 (record_event (Printed (B "intf is " ++ a_data d ++ LF)) s3)). by apply quietly_event. }
  rewrite R2 in R. rewrite O2 in O.
  split; rewrite ?R, ?O; simpl; [|done..|lia]. split; rewrite ?(quietly_net _ _ Hs5), ?(q_vars _ _ Hs5), ?O; simpl; [done| | |].
  - rewrite (q_vars _ _ Hs3). simpl. rewrite Nat.sub_0_r. apply fmap_replicate.
  - unfold good_dev. rewrite (q_vars _ _ Hs5). simpl. eauto.
  - rewrite (q_vars _ _ Hs3). simpl. by rewrite V1.
Qed.

(** What is known when the first frame is sent. *)
Record ready (addrs : list Z) (sp : host) (me : bytes) s : Prop := {
  r_armed : armed me sp (bool_decide (114 ∈ options (history s))) (until_zero addrs) s;
  r_frames : frames (history s) = [];
  r_resolved : resolved (history s) = addrs ++ [h_ip sp];
  r_targets : Forall (known (history s)) (victims s (until_zero addrs));
  r_spoof : 114 ∈ options (history s) -> known (history s) sp;
  r_me : exists hw, Called Libnet_get_hwaddr hw ∈ history s /\ a_data hw = me;
}.

(** The state before hardware addresses are looked up, and after. *)
Record resolving (addrs : list Z) (ip : Z) s : Prop := {
  v_net : net (history s) = ([], []);
  v_resolved : resolved (history s) = addrs ++ [ip];
  v_dev : good_dev s;
  v_targets : addressed (until_zero addrs) (targets (vars s));
  v_reverse : poison_reverse (vars s) = if bool_decide (114 ∈ options (history s)) then 1 else 0;
  v_ip : h_ip (spoof (vars s)) = ip;
}.

Lemma resolving_learns addrs ip s s' : resolving addrs ip s -> learns s s' -> resolving addrs ip s'.
Proof.
  intros [N R D T V I] Hl. pose proof (learns_addressed _ _ _ Hl T). pose proof (learns_dev _ _ Hl D).
  destruct Hl as [(_ & R' & O') N' L (ts & V' & _)].
  split; rewrite ?N', ?R', ?O'; try done; rewrite V'; done.
Qed.

Lemma wp_resolve_operand argc n src operand (k : Z -> M state unit) (Q : unit -> state -> Prop) s : parsing argc n s ->
  (forall s' addrs ip, resolving addrs ip s' -> poison_reverse (vars s') = poison_reverse (vars s) ->
     wp (k ip) Q X s') ->
  wp (choose_src src ;; ip <- name2addr4 operand ;; setvars (fun g => set_spoof (Host ip (h_mac (spoof g))) g) ;; k ip)
    Q X s.
Proof.
  intros [[Pn Pt Pd Pr] Hc _ Hr] HQ.
  assert (Hrest : forall o h, wp (ip <- name2addr4 operand ;; setvars (fun g => set_spoof (Host ip (h_mac (spoof g))) g) ;; k ip)
    Q X (Proc (script s) (history s) (errno s) (set_cleanup_src o h (vars s)))).
  { intros o h. unfold name2addr4, sysret. apply wp_bind, wp_bind, wp_bind, wp_sys.
    2: { apply HX. split; [by left|]. unfold frames. simpl. by rewrite net_snoc, Pn. }
    intros a rest E _. apply wp_ret. destruct (_ =? _); [apply wp_usage; simpl; by rewrite net_snoc, Pn|].
    apply wp_ret, wp_bind, wp_modify, (HQ _ (resolved (history s)) (u32 (a_ret a))); [|done].
    split; simpl; try done.
    - by rewrite net_snoc, Pn.
    - by rewrite resolved_snoc.
    - apply (addressed_until_zero _ (replicate (Z.to_nat (argc + 1) - length (resolved (history s)) - 1) 0)).
      rewrite Pt. f_equal. unfold Zlen in Hc.
      destruct (Z.to_nat (argc + 1) - length (resolved (history s)))%nat eqn:E1; [lia|]. simpl. by rewrite Nat.sub_0_r.
    - by rewrite options_snoc, app_nil_r. }
  apply wp_bind. unfold choose_src. destruct src as [v|]; [|apply wp_modify, Hrest].
  destruct (bool_decide (v = B "own")); [apply wp_modify, Hrest|].
  destruct (bool_decide (v = B "host")); [apply wp_modify, Hrest|].
  destruct (bool_decide (v = B "both")); [apply wp_modify, Hrest|]. by apply wp_usage.
Qed.

Lemma wp_finish addrs ip (r : Z) (Q : unit -> state -> Prop) s : resolving addrs ip s ->
  r = poison_reverse (vars s) ->
  (forall s' sp me, ready addrs sp me s' -> Q tt s') ->
  wp (each_target (find_target addr2name4) tt ;;
      (when negb (r =? 0) do
        (m <- arp_find addr2name4 ip ;;
         match m with
         | None => errx (B "Couldn't arp for spoof host " ++ addr2name4 ip)
         | Some mac => setvars (set_spoof (Host ip mac))
         end)) ;;
      hw <- sys Libnet_get_hwaddr ;;
      (when a_ret hw =? 0 do errx (B "Unable to determine own mac address")) ;;
      setvars (set_my_ha (Some (a_data hw))) ;;
      sys_ (Signal SIGHUP) ;; sys_ (Signal SIGINT) ;; sys_ (Signal SIGTERM)) Q X s.
Proof.
  intros Hv Hr HQ. apply wp_bind, (wp_find_targets (until_zero addrs)); [by destruct Hv..|].
  intros s1 Hl Hk. pose proof (resolving_learns _ _ _ _ Hv Hl) as Hv1.
  assert (r = poison_reverse (vars s1)) as Hr1 by (destruct Hl as [_ _ _ (ts & -> & _)]; done).
  assert (Hrest : forall s2, resolving addrs ip s2 -> Forall (known (history s2)) (victims s2 (until_zero addrs)) ->
    (r <> 0 -> known (history s2) (spoof (vars s2))) -> r = poison_reverse (vars s2) ->
    wp (hw <- sys Libnet_get_hwaddr ;; (when a_ret hw =? 0 do errx (B "Unable to determine own mac address")) ;;
      setvars (set_my_ha (Some (a_data hw))) ;; sys_ (Signal SIGHUP) ;; sys_ (Signal SIGINT) ;; sys_ (Signal SIGTERM)) Q X s2).
  { intros s2 [N R D T V I] Hk2 Hsp Hr2. assert (waits_from s2 X) as HX2 by by apply early_quiet.
    apply wp_bind, (wp_sys_quiet s2); [done..|]. intros hw s3 _ Hs3 E3 _. apply wp_bind.
    destruct (a_ret hw =? 0); [apply wp_errx; by rewrite (quietly_net _ _ Hs3)|]. apply wp_ret.
    apply wp_bind, wp_modify. set (s4 := Proc _ _ _ _).
    assert (net (history s4) = ([], [])) as N4 by (simpl; by rewrite (quietly_net _ _ Hs3)).
    assert (waits_from s4 X) as HX4 by by apply early_quiet.
    apply wp_bind, (wp_sys_quiet_ s4); [done|done|done|]. intros s5 Hs5 _.
    apply wp_bind, (wp_sys_quiet_ s4); [done|done|done|]. intros s6 Hs6 _.
    apply (wp_sys_quiet_ s4); [done|done|done|]. intros s7 Hs7 _.
    assert (extends (history s2) (history s7)) as He.
    { transitivity (history s3); [by apply quietly_extends|]. by apply (quietly_extends s4). }
    pose proof He as (_ & R7 & O7). pose proof (q_vars _ _ Hs7) as V7. pose proof (quietly_net _ _ Hs7) as N7.
    unfold s4 in V7. simpl in V7. rewrite (q_vars _ _ Hs3) in V7.
    apply (HQ _ (spoof (vars s2)) (a_data hw)). split; rewrite ?O7, ?R7; [|unfold frames; by rewrite N7, N4| | | |].
    - split; rewrite ?V7; simpl; [done|done| |done|unfold pending; by rewrite N7, N4]. rewrite V. by case_bool_decide.
    - by rewrite R, I.
    - unfold victims. rewrite V7. eapply Forall_impl; [exact Hk2|]. intros x. by apply extends_known.
    - intros H114. eapply extends_known, Hsp; [done|]. rewrite Hr2, V, bool_decide_true by done. done.
    - exists hw. split; [|done]. destruct (quietly_extends _ _ Hs7) as [[h7 ->] _]. simpl. rewrite E3. set_solver. }
  apply wp_bind, wp_find_spoof; [by destruct Hv1|by destruct Hv1| |intros ->; by apply Hrest].
  intros s2 mac Hs2 Hne Hkn. assert (resolving addrs ip s2) as [N R D T V I].
  { eapply resolving_learns; [exact Hv1|]. eapply quietly_learns; [|exact Hs2]. apply learns_refl. }
  apply Hrest; [by split| |done|].
  - unfold victims. simpl. fold (victims s2 (until_zero addrs)). unfold victims. rewrite (q_vars _ _ Hs2).
    eapply Forall_impl; [exact Hk|]. intros x. by apply quietly_known.
  - simpl. by rewrite (q_vars _ _ Hs2).
Qed.

Lemma wp_learn_addresses argc n src operands operand (Q : unit -> state -> Prop) s : parsing argc n s ->
  (forall s' addrs sp me, ready addrs sp me s' -> Q tt s') ->
  wp (learn_addresses addr2name4 n src operands operand) Q X s.
Proof.
  intros Hs HQ. unfold learn_addresses. assert (net (history s) = ([], [])) as N by by destruct Hs as [[]].
  apply wp_bind. destruct (negb (operands =? 1)); [by apply wp_usage|]. apply wp_ret, wp_bind, wp_gets.
  apply wp_bind. destruct (_ && _); [by apply wp_usage|]. apply wp_ret.
  apply (wp_resolve_operand argc n src operand _ Q s Hs). intros s1 addrs ip Hv Hr.
  apply (wp_finish addrs ip); [done|by symmetry|]. intros s2 sp me. apply HQ.
Qed.
End start.

(** *** The program *)

(** What a run that has sent frames found out, and what it sent. *)
Definition poisoned (h : list event) : Prop := exists addrs ip ts sp hw n,
  resolved h = addrs ++ [ip] /\ map h_ip ts = until_zero addrs /\ h_ip sp = ip /\
  Forall (known h) ts /\ (114 ∈ options h -> known h sp) /\ Called Libnet_get_hwaddr hw ∈ h /\
  frames h `prefix_of` rounds n (a_data hw) sp (bool_decide (114 ∈ options h)) ts.

Lemma ready_poisoned addrs sp me n s s' : ready addrs sp me s ->
  cut s (rounds n me sp (bool_decide (114 ∈ options (history s))) (victims s (until_zero addrs))) s' ->
  poisoned (history s').
Proof.
  intros [[M1 M2 M3 [Hz [rest Et]] M5] F R K S (hw & Hin & <-)] [He (fs & Hp & Ef)].
  pose proof He as ([h1 Eh] & R' & O').
  exists addrs, (h_ip sp), (victims s (until_zero addrs)), sp, hw, n. rewrite R', O'.
  split; [done|]. split.
  { unfold victims. rewrite <-firstn_map, Et. by rewrite take_app_length. }
  split; [done|]. split; [eapply Forall_impl; [exact K|]; intros x; by apply extends_known|].
  split; [intros H114; by eapply extends_known, S|]. split; [rewrite Eh; apply elem_of_app; by left|].
  by rewrite Ef, F.
Qed.

(** C8: at every moment of every run, the frames that arpspoof has sent are those of
    its rounds, in their order, the last perhaps not finished: each target is told
    that the spoofed host is at the own hardware address, and with -r that host is
    told the same of each target. The targets are the hosts given with -t, up to
    the first whose address is zero, and every frame goes to the hardware address
    that the cache of the system has given for its receiver. Nothing is sent by a
    run that ends itself, which it does with status 1. The table of targets is
    never overrun. Three things are asked of the run: the first of its calls, the
    allocation of that table, succeeds, for its result is not checked (see
    [arpspoof_no_table]); every option -t uses up a word of the command line, as
    POSIX has it for an option with an argument; and the names of interfaces, given
    with -i or found, have at most the 16 bytes of the request that they are copied
    to without a check (see [arpspoof_long_name]). *)
Theorem arpspoof_poisons {A} argc script err : 0 < argc <= INT_MAX -> posix_getopt argc -> short_names ->
  (forall a rest, script = a :: rest -> a_ret a <> 0) ->
  wp (A := A) (arpspoof_main addr2name4 argc) (fun _ _ => False)
    (fun code s' => (code = WAITING \/ code = 1) /\
       (frames (history s') = [] \/ code = WAITING /\ poisoned (history s')))
    (Proc script [] err spoofer0).
Proof.
  intros [Hpos Hmax] Hopt Hshort Hcalloc. unfold arpspoof_main. set (X := fun code s' => _ /\ _).
  assert (forall code s', early code s' -> X code s') as HX by (intros code s' [Hc Hf]; split; [done|by left]).
  apply wp_bind, wp_modify. apply wp_bind, (wp_open_device X HX); [lia|done|done|done| |done].
  intros s1 Hs1. apply (wp_options X HX argc (fun '(n, src, operands, operand) => _)); [done..|].
  intros n src m operand s2 Hs2. apply wp_bind, (wp_learn_addresses X HX argc n); [done|].
  intros s3 addrs sp me Hs3. eapply wp_poisoning; [by destruct Hs3|]. intros k s4 Hc.
  split; [by left|]. right. split; [done|]. by eapply ready_poisoned.
Qed.

(** ** Cleaning up *)

(** A host whose hardware address the cache gave during the run, or one of [ts]. *)
Definition trusted (h : list event) ts (t : host) : Prop := known h t \/ t ∈ ts.

Lemma trusted_extends h h' ts l : extends h h' -> Forall (trusted h ts) l -> Forall (trusted h' ts) l.
Proof. intros He Hl. eapply Forall_impl; [exact Hl|]. intros t [Ht|Ht]; [left; by eapply extends_known|by right]. Qed.

Lemma wp_find_all ips (Q : Z -> state -> Prop) X s : good_dev s -> addressed ips (targets (vars s)) ->
  (forall s', learns s s' -> Forall (trusted (history s') (targets (vars s))) (targets (vars s')) -> X WAITING s') ->
  (forall r s', learns s s' -> Forall (trusted (history s') (targets (vars s))) (targets (vars s')) ->
     (r <> 0 -> Forall (known (history s')) (victims s' ips)) ->
     (r = 0 -> exists ip, ip ∈ ips /\ unanswered ip (history s) (history s')) -> Q r s') ->
  wp (arp_find_all addr2name4) Q X s.
Proof.
  intros Hd Ha HX HQ. unfold arp_find_all. apply wp_bind, wp_gets.
  apply (wp_loop (fun i s' => exists k, i = Z.of_nat k /\ (k <= length ips)%nat /\ learns s s' /\
      Forall (known (history s')) (take k (targets (vars s'))) /\
      Forall (trusted (history s') (targets (vars s))) (targets (vars s')))
    (fun i _ => length ips - Z.to_nat i)%nat).
  - exists 0%nat. split; [done|]. split; [lia|]. split; [apply learns_refl|]. rewrite take_0. split; [done|].
    apply Forall_forall. intros t Ht. by right.
  - destruct (addressed_end _ _ Ha) as (t & Ht%lookup_lt_Some & _). lia.
  - intros i s1 (k & -> & Hk & Hl & Hkn & Htr). pose proof (learns_addressed _ _ _ Hl Ha) as Ha1. apply wp_bind.
    destruct (decide (k = length ips)) as [->|Hne].
    { destruct (addressed_end _ _ Ha1) as (t & Ht & Hz). eapply wp_target; [done|]. rewrite Hz. apply wp_ret.
      by apply HQ. }
    destruct (addressed_lookup ips _ k Ha1) as (t & Ht & Hz); [lia|].
    assert (h_ip t ∈ ips) as Hin.
    { destruct Ha1 as [_ [rest E1]]. apply (list_elem_of_lookup_2 _ k).
      assert (map h_ip (targets (vars s1)) !! k = Some (h_ip t)) as E2 by (by rewrite list_lookup_fmap, Ht).
      by rewrite E1, lookup_app_l in E2 by lia. }
    eapply wp_target; [done|].
    rewrite (proj2 (Z.eqb_neq _ _) Hz). apply wp_bind, wp_find; [|by eapply learns_dev|].
    { intros s2 Hs2. apply HX; [by eapply quietly_learns|]. rewrite (q_vars _ _ Hs2).
      eapply trusted_extends; [by apply quietly_extends|done]. }
    intros m s2 Hs2 L2 Hm Hr. pose proof (quietly_learns _ _ _ Hl Hs2) as Hl2.
    pose proof (trusted_extends _ _ _ _ (quietly_extends _ _ Hs2) Htr) as Htr2. rewrite <-(q_vars _ _ Hs2) in Htr2, Ht.
    destruct m as [mac|].
    2: { apply wp_ret, HQ; [done..|]. intros _. exists (h_ip t). split; [done|]. specialize (Hr eq_refl).
         destruct Hl as [[[h1 E1] _] _ _ _]. unfold unanswered in *. rewrite E1, refusals_app in Hr. lia. }
    pose proof (lookup_lt_Some _ _ _ Ht) as Hlt. apply wp_bind, wp_put_target; [done|].
    apply wp_ret. split; [|lia]. exists (S k). split; [lia|]. split; [lia|]. split; [by apply learns_put|]. simpl.
    rewrite (take_S_r _ _ (Host (h_ip t) mac)) by (by apply list_lookup_insert_eq). rewrite take_insert_ge by lia. split.
    + apply Forall_app. split; [|constructor; [by apply Hm|done]]. rewrite (q_vars _ _ Hs2).
      eapply Forall_impl; [exact Hkn|]. intros x. by apply quietly_known.
    + apply Forall_insert; [done|]. left. by apply Hm.
Qed.

(** The sender on the link of the frames of the [i]-th round: the own address from
    the first or, with the other allowed too, from the second round on. *)
Definition sender (own host : Z) (me : bytes) (i : nat) : option bytes :=
  if negb (own =? 0) && ((host =? 0) || (0 <? i)%nat) then Some me else None.

(** The frames of a round for a target, and of [n] rounds. *)
Definition healed (fw bw : bool) (sp : host) (src : option bytes) (t : host) : list frame :=
  (if fw then [reply (h_mac sp) (h_ip sp) t (default (h_mac sp) src)] else []) ++
  (if bw then [reply (h_mac t) (h_ip t) sp (default (h_mac t) src)] else []).
Definition healing (fw bw : bool) (own host : Z) (me : bytes) (sp : Arpspoof.host) ts (n : nat) : list frame :=
  concat (map (fun i => concat (map (healed fw bw sp (sender own host me i)) ts)) (seq 0 n)).

Lemma wp_heal_send b op sha spa tha tpa me (Q : unit -> state -> Prop) X s : pending (history s) = [] ->
  let fs : list frame :=
    if b : bool then [[ArpHeader op sha spa tha tpa; EthernetHeader tha (default sha me) ETHERTYPE_ARP]] else [] in
  (forall s', sends s fs s' -> Q tt s') -> (forall s', cut s fs s' -> X WAITING s') ->
  wp (when b do (arp_send addr2name4 op sha spa tha tpa me ;; sys_ (Sleep 1))) Q X s.
Proof.
  intros Hp fs HQ HX. destruct b; [|by apply wp_ret, HQ, quietly_sends].
  apply wp_bind, wp_send; [done| |done]. intros r s1 Hs1 L1. apply (wp_sys_quiet_ s1); [done|done| |].
  - intros s2 Hs2. apply HX. rewrite <-(app_nil_r fs). eapply sends_cut; [exact Hs1|by apply quietly_cut].
  - intros s2 Hs2 L2. apply HQ. rewrite <-(app_nil_r fs). eapply sends_trans; [exact Hs1|].
    apply quietly_sends; [done|by destruct Hs1].
Qed.

Lemma wp_heal fw bw own hst me i k t src (Q : option bytes -> state -> Prop) X s :
  cleanup_src_own (vars s) = own -> cleanup_src_host (vars s) = hst -> my_ha (vars s) = Some me ->
  pending (history s) = [] -> targets (vars s) !! k = Some t -> h_ip t <> 0 ->
  let src' := if negb (own =? 0) && (negb (Z.rem i 2 =? 0) || (hst =? 0)) then Some me else src in
  let fs := healed fw bw (spoof (vars s)) src' t in
  (forall s', sends s fs s' -> Q src' s') -> (forall s', cut s fs s' -> X WAITING s') ->
  wp (heal addr2name4 fw bw i (Z.of_nat k) src) Q X s.
Proof.
  intros Ho Hh Hm Hp Ht Hz src' fs HQ HX. unfold heal.
  apply wp_bind, wp_gets, wp_bind, wp_gets, wp_bind, wp_gets, wp_bind. eapply wp_target; [done|].
  apply wp_bind, wp_gets. rewrite Ho, Hh, Hm, (proj2 (Z.eqb_neq _ _) Hz). fold src'.
  apply wp_bind, wp_heal_send; [done| |].
  - intros s1 Hs1. apply wp_bind, wp_heal_send; [by destruct Hs1| |].
    + intros s2 Hs2. apply wp_ret, HQ. by eapply sends_trans.
    + intros s2 Hs2. apply HX. by eapply sends_cut.
  - intros s1 Hs1. apply HX. by apply cut_more.
Qed.

(** The variable [src_ha] keeps its value from round to round. *)
Lemma sender_step own hst me i src : (i = 0%nat /\ src = None \/ (0 < i)%nat /\ src = sender own hst me (i - 1) \/
    src = sender own hst me i) ->
  (if negb (own =? 0) && (negb (Z.rem (Z.of_nat i) 2 =? 0) || (hst =? 0)) then Some me else src) = sender own hst me i.
Proof.
  unfold sender. intros Hs. destruct (own =? 0); simpl in *; [naive_solver|].
  destruct (hst =? 0); simpl in *; [by rewrite orb_true_r|]. rewrite orb_false_r.
  destruct i as [|[|i]]; simpl in *; [naive_solver|done|].
  destruct (negb _); [done|]. naive_solver.
Qed.

(** What stays the same while frames are sent. *)
Record cleaning (own hst : Z) (me : bytes) (sp : host) (ips : list Z) s : Prop := {
  c_own : cleanup_src_own (vars s) = own;
  c_host : cleanup_src_host (vars s) = hst;
  c_me : my_ha (vars s) = Some me;
  c_spoof : spoof (vars s) = sp;
  c_targets : addressed ips (targets (vars s));
  c_pending : pending (history s) = [];
}.

Lemma cleaning_sends own hst me sp ips s fs s' : cleaning own hst me sp ips s -> sends s fs s' -> cleaning own hst me sp ips s'.
Proof. intros [] [E P F L V]. by split; rewrite ?V. Qed.

Lemma wp_heal_round fw bw own hst me sp ips i src (Q : option bytes -> state -> Prop) X s :
  cleaning own hst me sp ips s ->
  (ips <> [] -> i = 0%nat /\ src = None \/ (0 < i)%nat /\ src = sender own hst me (i - 1)) ->
  let fs := concat (map (healed fw bw sp (sender own hst me i)) (victims s ips)) in
  (forall src' s', sends s fs s' -> (ips <> [] -> src' = sender own hst me i) -> Q src' s') ->
  (forall s', cut s fs s' -> X WAITING s') ->
  wp (each_target (heal addr2name4 fw bw (Z.of_nat i)) src) Q X s.
Proof.
  intros Hc Hsrc fs HQ HX.
  apply (wp_each_target ips (fun k src' s' =>
    sends s (concat (map (healed fw bw sp (sender own hst me i)) (take k (targets (vars s))))) s' /\
    (k = 0%nat /\ src' = src \/ src' = sender own hst me i))).
  - by destruct Hc.
  - split; [|by left]. rewrite take_0. apply quietly_sends; [done|by destruct Hc].
  - intros k src' s1 [Hs1 _]. by destruct (cleaning_sends _ _ _ _ _ _ _ _ Hc Hs1).
  - intros k src' s1 Hk [Hs1 Hsr]. pose proof (cleaning_sends _ _ _ _ _ _ _ _ Hc Hs1) as [C1 C2 C3 C4 C5 C6].
    destruct (addressed_lookup ips _ k C5 Hk) as (t & Ht & Hz).
    assert (targets (vars s) !! k = Some t) as Ht' by (by rewrite <-(s_vars _ _ _ Hs1)).
    assert (Hstep : (if negb (own =? 0) && (negb (Z.rem (Z.of_nat i) 2 =? 0) || (hst =? 0)) then Some me else src') =
      sender own hst me i).
    { apply sender_step. destruct Hsr as [[_ ->]|Hsr]; [|by right; right].
      destruct Hsrc as [?|?]; [by intros ->; simpl in Hk; lia|by left|by right; left]. }
    eapply (wp_heal fw bw own hst me); [done..| |]; rewrite Hstep, C4; intros s2 Hs2.
    + split; [|by right]. rewrite (take_S_lookup _ _ _ Ht'), map_app, concat_app. simpl. rewrite app_nil_r.
      by eapply sends_trans.
    + apply HX. pose proof (sends_cut _ _ _ _ _ Hs1 Hs2) as Hcut. subst fs. unfold victims.
      rewrite <-(firstn_skipn (S k) (take (length ips) _)), take_take, Nat.min_l, map_app, concat_app by lia.
      apply cut_more. rewrite (take_S_lookup _ _ _ Ht'), map_app, concat_app. simpl. by rewrite app_nil_r.
  - intros src' s1 [Hs1 Hsr]. apply HQ; [exact Hs1|]. intros Hne. destruct Hsr as [[Hl _]|?]; [|done].
    by destruct ips.
Qed.

Lemma healing_S fw bw own hst me sp ts n :
  healing fw bw own hst me sp ts (S n) =
  healing fw bw own hst me sp ts n ++ concat (map (healed fw bw sp (sender own hst me n)) ts).
Proof. unfold healing. rewrite seq_S, map_app, concat_app. simpl. by rewrite app_nil_r. Qed.

Lemma healing_le fw bw own hst me sp ts n m : (n <= m)%nat ->
  healing fw bw own hst me sp ts n `prefix_of` healing fw bw own hst me sp ts m.
Proof.
  intros Hle. replace m with (n + (m - n))%nat by lia. generalize (m - n)%nat as d. clear. induction d as [|d IH].
  - by rewrite Nat.add_0_r.
  - rewrite Nat.add_succ_r, healing_S. by apply prefix_app_r.
Qed.

Lemma cut_prefix s0 fs fs' s : cut s0 fs s -> fs `prefix_of` fs' -> cut s0 fs' s.
Proof. intros [E (fs1 & Hp & F)] Hp'. split; [done|]. exists fs1. split; [by etrans|done]. Qed.

Lemma wp_heal_rounds fw bw own hst me sp ips n (Q : unit -> state -> Prop) X s :
  cleaning own hst me sp ips s ->
  let fs := healing fw bw own hst me sp (victims s ips) n in
  (forall s', sends s fs s' -> Q tt s') -> (forall s', cut s fs s' -> X WAITING s') ->
  wp (loop (S n) (fun '(i, src_ha) =>
    if i <? Z.of_nat n then
      src_ha <- each_target (heal addr2name4 fw bw i) src_ha ;; ret (inl (i + 1, src_ha))
    else ret (inr tt)) (0, None)) Q X s.
Proof.
  intros Hc fs HQ HX.
  apply (wp_loop (fun '(i, src) s' => exists k, i = Z.of_nat k /\ (k <= n)%nat /\
      sends s (healing fw bw own hst me sp (victims s ips) k) s' /\
      (ips <> [] -> k = 0%nat /\ src = None \/ (0 < k)%nat /\ src = sender own hst me (k - 1)))
    (fun '(i, _) _ => n - Z.to_nat i)%nat); [|lia|].
  - exists 0%nat. split; [done|]. split; [lia|]. split; [apply quietly_sends; [done|by destruct Hc]|]. by left.
  - intros [i src] s1 (k & -> & Hk & Hs1 & Hsrc). destruct (Z.ltb_spec (Z.of_nat k) (Z.of_nat n)).
    2: { apply wp_ret. assert (k = n) as -> by lia. by apply HQ. }
    assert (victims s1 ips = victims s ips) as Ev by (unfold victims; by rewrite (s_vars _ _ _ Hs1)).
    apply wp_bind, (wp_heal_round fw bw own hst me sp ips); [by eapply cleaning_sends|done| |]; rewrite Ev.
    + intros src' s2 Hs2 Hsrc'. apply wp_ret. split; [|lia]. exists (S k). split; [lia|]. split; [lia|].
      rewrite healing_S. split; [by eapply sends_trans|]. intros Hne. right. simpl. rewrite Nat.sub_0_r.
      split; [lia|by apply Hsrc'].
    + intros s2 Hs2. apply HX. eapply cut_prefix; [by eapply sends_cut|]. rewrite <-healing_S.
      apply healing_le. lia.
Qed.

(** Whether the other direction is repaired too. *)
Lemma wp_backwards ips (Q : bool -> state -> Prop) X s : good_dev s -> addressed ips (targets (vars s)) ->
  (forall s', learns s s' -> X WAITING s') ->
  (forall bw s', learns s s' -> Forall (trusted (history s') (targets (vars s))) (targets (vars s')) ->
     (bw = true -> poison_reverse (vars s) <> 0 /\ Forall (known (history s')) (victims s' ips)) ->
     (bw = false -> poison_reverse (vars s) = 0 \/ ips = [] \/
        exists ip, ip ∈ ips /\ unanswered ip (history s) (history s')) -> Q bw s') ->
  wp (if poison_reverse (vars s) =? 0 then ret false
      else t <- target 0 ;;
           if h_ip t =? 0 then ret false else n <- arp_find_all addr2name4 ;; ret (negb (n =? 0))) Q X s.
Proof.
  intros Hd Ha HX HQ.
  assert (Forall (trusted (history s) (targets (vars s))) (targets (vars s))) as Ht.
  { apply Forall_forall. intros t Ht. by right. }
  destruct (Z.eqb_spec (poison_reverse (vars s)) 0); [apply wp_ret, HQ; [apply learns_refl|done|done|by left]|].
  assert (exists t, targets (vars s) !! 0%nat = Some t /\ (ips = [] \/ h_ip t <> 0)) as (t & Ht0 & Hz).
  { destruct ips as [|ip ips]; [destruct (addressed_end _ _ Ha) as (t & ? & _)|
      destruct (addressed_lookup _ _ 0 Ha) as (t & ? & ?); [simpl; lia|]]; exists t; auto. }
  apply wp_bind, (wp_target 0 t); [done|].
  destruct (Z.eqb_spec (h_ip t) 0); [apply wp_ret, HQ; [apply learns_refl|done|done|naive_solver]|].
  apply wp_bind, (wp_find_all ips); [done|done|by intros s' Hs' _; apply HX|].
  intros r s1 Hs1 Htr Hk Hr0. apply wp_ret, HQ; [done|done| |].
  - intros Hr. split; [done|]. apply Hk. by destruct (Z.eqb_spec r 0).
  - intros Hr. right. right. apply Hr0. by destruct (Z.eqb_spec r 0).
Qed.

(** The part of the handler that sends. *)
Lemma wp_clean {A} fw bw own hst me sp ips (Q : A -> state -> Prop) X s :
  (own, hst) ∈ [(1, 0); (0, 1); (1, 1)] -> cleaning own hst me sp ips s ->
  let all := healing fw bw own hst me sp (victims s ips) (if decide (own = 1 /\ hst = 1) then 10 else 5) in
  (forall code s', code = WAITING /\ cut s all s' \/ code = 0 /\ sends s all s' -> X code s') ->
  wp (own <- getvar cleanup_src_own ;;
      host <- getvar cleanup_src_host ;;
      rounds <- int32 (own * 5 + host * 5) ;;
      printf (B "Cleaning up and re-arping targets..." ++ LF) ;;
      loop (S (Z.to_nat rounds)) (fun '(i, src_ha) =>
        if i <? rounds then
          src_ha <- each_target (heal addr2name4 fw bw i) src_ha ;; ret (inl (i + 1, src_ha))
        else ret (inr tt)) (0, None) ;;
      exit_ 0) Q X s.
Proof.
  intros Hmode Hc all HX. apply wp_bind, wp_gets, wp_bind, wp_gets.
  rewrite (c_own _ _ _ _ _ _ Hc), (c_host _ _ _ _ _ _ Hc). set (n := if decide _ then 10%nat else 5%nat) in all.
  assert (own * 5 + hst * 5 = Z.of_nat n) as ->.
  { subst n. rewrite !elem_of_cons in Hmode. destruct Hmode as [[= -> ->]|[[= -> ->]|[[= -> ->]|[]%elem_of_nil]]]; done. }
  apply wp_bind, wp_int32; [subst n; unfold INT_MIN, INT_MAX; case_decide; lia|].
  apply wp_bind, wp_modify. set (s1 := record_event _ s).
  assert (quietly s s1) as Hq by by apply quietly_event.
  assert (sends s [] s1) as Hs1 by (apply quietly_sends; [done|by destruct Hc]).
  rewrite Nat2Z.id. apply wp_bind, (wp_heal_rounds fw bw own hst me sp ips n).
  - by eapply cleaning_sends.
  - intros s2 Hs2. apply wp_exit, HX. right. split; [done|]. by apply (sends_trans s [] s1).
  - intros s2 Hs2. apply HX. left. split; [done|]. by apply (sends_cut s [] s1).
Qed.

(** C9: the handler of signals ends the program with status 0, whatever the system
    answers, after it has told every target, and with -r the spoofed host, the
    hardware addresses that the cache of the system gives, once in each of its five
    or ten rounds: all of these frames are sent, in this order, and at every moment
    before a part from the beginning. It leaves out telling the targets only when the
    cache could not give it the address of the spoofed host in four attempts, and
    telling that host only without -r, without targets, or when four attempts failed
    for one of them. The sender on the link is the own address from the first round
    on, or from the second on with -c both. (The name of the interface fits the
    request: see [arpspoof_poisons].) *)
Theorem arpspoof_heals {A} sig me own hst ips s :
  (own, hst) ∈ [(1, 0); (0, 1); (1, 1)] -> good_dev s -> cleaning own hst me (spoof (vars s)) ips s ->
  wp (A := A) (cleanup addr2name4 sig) (fun _ _ => False)
    (fun code s' => (code = WAITING \/ code = 0) /\ exists fw bw sp ts fs,
       map h_ip ts = ips /\ h_ip sp = h_ip (spoof (vars s)) /\ (fw = true -> known (history s') sp) /\
       (bw = true -> poison_reverse (vars s) <> 0 /\ Forall (known (history s')) ts) /\
       (code = 0 -> fw = false -> unanswered (h_ip sp) (history s) (history s')) /\
       (code = 0 -> bw = false -> poison_reverse (vars s) = 0 \/ ips = [] \/
          exists ip, ip ∈ ips /\ unanswered ip (history s) (history s')) /\
       Forall (trusted (history s') (targets (vars s))) ts /\
       let all := healing fw bw own hst me sp ts (if decide (own = 1 /\ hst = 1) then 10 else 5) in
       frames (history s') = frames (history s) ++ fs /\ fs `prefix_of` all /\ (code = 0 -> fs = all)) s.
Proof.
  intros Hmode Hd Hc. pose proof Hc as [C1 C2 C3 C4 C5 C6]. set (X := fun code s' => _ /\ _).
  assert (Hvic : forall s', addressed ips (targets (vars s')) -> map h_ip (victims s' ips) = ips).
  { intros s' [_ [rest E]]. unfold victims. by rewrite <-firstn_map, E, take_app_length. }
  assert (HX0 : forall s', frames (history s') = frames (history s) -> X WAITING s').
  { intros s' Hf. split; [by left|]. exists false, false, (spoof (vars s)), (victims s ips), [].
    split; [by apply Hvic|]. do 5 (split; [done|]). split; [|by rewrite app_nil_r; split; [|split; [apply prefix_nil|]]].
    apply Forall_take, Forall_forall. intros t Ht. by right. }
  unfold cleanup. apply wp_bind, wp_gets. apply wp_bind, wp_find; [|done|].
  { intros s' Hs'. apply HX0. unfold frames. by rewrite (quietly_net _ _ Hs'). }
  intros m s1 Hs1 L1 Hm Hm4. pose proof (quietly_net _ _ Hs1) as N1.
  apply wp_bind. set (sp := match m with Some mac => Host (h_ip (spoof (vars s))) mac | None => spoof (vars s) end).
  set (s2 := Proc (script s1) (history s1) (errno s1) (set_spoof sp (vars s1))).
  eapply (wp_conseq _ (fun _ s' => s' = s2)).
  { destruct m; [by apply wp_modify|]. apply wp_ret. subst s2 sp. rewrite <-(q_vars _ _ Hs1).
    by destruct s1 as [? ? ? []]. }
  intros [] _ ->. apply wp_bind, wp_gets. apply wp_bind, (wp_backwards ips).
  - unfold good_dev. simpl. by rewrite (q_vars _ _ Hs1).
  - simpl. by rewrite (q_vars _ _ Hs1).
  - intros s3 Hs3. apply HX0. rewrite (learns_frames _ _ Hs3). unfold frames. simpl. by rewrite N1.
  - intros bw s3 Hs3 Htr Hbw Hbw4. simpl in Htr, Hbw, Hbw4. rewrite (q_vars _ _ Hs1) in Htr, Hbw, Hbw4.
    assert (cleaning own hst me sp ips s3) as Hc3.
    { pose proof Hs3 as [_ N3 _ (ts & V3 & E3)]. simpl in N3, V3, E3.
      destruct (learns_addressed ips _ _ Hs3) as [Hz Hr]; [simpl; by rewrite (q_vars _ _ Hs1)|].
      split; try (rewrite V3; simpl; by rewrite ?(q_vars _ _ Hs1)); [done|]. unfold pending. by rewrite N3, N1. }
    apply (wp_clean _ bw own hst me sp ips); [done|done|]. intros code s4 H4.
    assert (extends (history s3) (history s4)) as He4 by (destruct H4 as [[_ [? _]]|[_ []]]; done).
    split; [naive_solver|]. exists (match m with Some _ => true | None => false end), bw, sp, (victims s3 ips).
    assert (exists fs, frames (history s4) = frames (history s3) ++ fs /\
      let all := healing (match m with Some _ => true | None => false end) bw own hst me sp (victims s3 ips)
                   (if decide (own = 1 /\ hst = 1) then 10 else 5) in
      fs `prefix_of` all /\ (code = 0 -> fs = all)) as (fs & Hf & Hp & He).
    { destruct H4 as [[-> [_ (fs & Hp & Hf)]]|[-> [_ _ Hf _ _]]]; [by exists fs|by eexists]. }
    exists fs. split; [apply Hvic; by destruct Hc3|]. split; [by subst sp; destruct m|]. split.
    { intros Hfw. destruct m as [mac|]; [|done]. eapply extends_known; [exact He4|].
      eapply extends_known; [by destruct Hs3|]. by apply Hm. }
    split; [intros Hb; destruct (Hbw Hb); split; [done|]; eapply Forall_impl; [done|]; intros x; by apply extends_known|].
    split.
    { intros _ Hfw. destruct m as [mac|]; [done|]. apply (unanswered_later _ _ (history s1)); [by apply Hm4|].
      by transitivity (history s3); [destruct Hs3|]. }
    split.
    { intros _ Hb. destruct (Hbw4 Hb) as [?|[?|(ip & Hip & Hu)]]; [by left|by right; left|]. right. right. exists ip.
      split; [done|]. eapply unanswered_later; [|exact He4]. eapply unanswered_earlier; [|exact Hu].
      by apply quietly_extends. }
    split; [apply Forall_take; by eapply trusted_extends|].
    split; [|done]. rewrite Hf, (learns_frames _ _ Hs3). unfold frames. simpl. by rewrite N1.
Qed.
End proofs.

(** ** An example *)

Module SpoofExample.
(** A system whose [getopt] is that of a command line of [argc] words. *)
Definition kernel (argc : Z) : Kernel := fun h c a =>
  match c with
  | Getopt =>
      (negb (a_ret a =? 116) || (Zlen (filter (fun c => c = 116) (options h)) + 2 <=? argc)) &&
      (negb (a_ret a =? 105) || (Zlen (a_data a) <=? ARP_DEV_SIZE))
  | Pcap_lookupdev => (a_ret a =? 0) || (Zlen (a_data a) <=? ARP_DEV_SIZE)
  | _ => true
  end.

Definition bytes_answer (r : Z) (data : bytes) : answer := Ans r 0 data (Addr 0 0) [] [] 0 no_stat.
Definition mac (n : Z) : bytes := [2; 0; 0; 0; 0; n].
Definition gateway : Z := 16885952.
Definition victim : Z := 33663168.
(** Socket, the answer of the cache, close. *)
Definition cached (n : Z) : list answer := [number 3; bytes_answer 0 (mac n); number 0].
(** Two calls to build, one to send, one to clear. *)
Definition sent : list answer := [number 0; number 0; bytes_answer 60 []; number 0].

(** arpspoof -r -t victim gateway *)
Definition script : list answer :=
  [number 1; bytes_answer 1 (B "eth0"); bytes_answer 1 []; bytes_answer 114 []; bytes_answer 116 (B "victim");
   number victim; Ans (-1) 0 (B "gateway") (Addr 0 0) [] [] 1 no_stat; number gateway] ++
  cached 7 ++ cached 1 ++ [bytes_answer 1 (mac 9); number 0; number 0; number 0] ++ sent ++ sent ++ [number 0] ++ sent.

Definition run : outcome (proc spoofer) unit :=
  arpspoof_main (H := kernel 5) (fun _ => B "host") 5 (Proc script [] 0 spoofer0).

(** What [cleanup] starts from after that. *)
Definition armed_vars : spoofer :=
  Spoofer (Host gateway (mac 1)) (Host victim (mac 7) :: replicate 5 (Host 0 (mac 0))) (Some (B "eth0")) 1
    (Some (mac 9)) 1 0.
Definition clean_state : proc spoofer :=
  Proc (cached 1 ++ cached 7 ++ replicate 60 (number 0)) [] 0 armed_vars.
Definition clean : outcome (proc spoofer) unit := cleanup (H := kernel 5) (fun _ => B "host") 2 clean_state.

Lemma kernel_getopt argc : @posix_getopt (kernel argc) argc.
Proof. intros h a Ha E. unfold may, kernel in Ha. rewrite E in Ha. simpl in Ha. lia. Qed.

Lemma kernel_names argc : @short_names (kernel argc).
Proof.
  split; intros a [h Ha] E; unfold may, kernel in Ha.
  - rewrite E in Ha. simpl in Ha. lia.
  - rewrite (proj2 (Z.eqb_neq _ _) E) in Ha. simpl in Ha. lia.
Qed.
End SpoofExample.

(** The run waits while it builds a third frame. *)
Example arpspoof_run : match SpoofExample.run with
  | Exit code s => code = WAITING /\ frames (history s) =
      let v := Host SpoofExample.victim (SpoofExample.mac 7) in
      let g := Host SpoofExample.gateway (SpoofExample.mac 1) in
      let me := SpoofExample.mac 9 in
      [reply me SpoofExample.gateway v me; reply me SpoofExample.victim g me; reply me SpoofExample.gateway v me]
  | _ => False
  end.
Proof. vm_compute. split; reflexivity. Qed.

(** Five rounds in both directions. *)
Example cleanup_run : match SpoofExample.clean with
  | Exit code s => code = 0 /\ length (frames (history s)) = 10%nat
  | _ => False
  end.
Proof. vm_compute. split; reflexivity. Qed.

(** When the table is refused, the first option -t writes through a null pointer, in
    a run like the one above. *)
Example arpspoof_no_table :
  arpspoof_main (H := SpoofExample.kernel 5) (A := unit) (fun _ => B "host") 5
    (Proc (number 0 :: tail SpoofExample.script) [] 0 spoofer0) = UB.
Proof. vm_compute. reflexivity. Qed.

(** A name of seventeen bytes does not fit: [arpspoof -i name -t victim gateway]. *)
Example arpspoof_long_name :
  arpspoof_main (H := fun _ _ _ => true) (A := unit) (fun _ => B "host") 6
    (Proc ([number 1; SpoofExample.bytes_answer 1 (B "eth0"); SpoofExample.bytes_answer 1 [];
            SpoofExample.bytes_answer 105 (replicate 17 97); SpoofExample.bytes_answer 116 (B "victim");
            number SpoofExample.victim; Ans (-1) 0 (B "gateway") (Addr 0 0) [] [] 1 no_stat;
            number SpoofExample.gateway]) [] 0 spoofer0) = UB.
Proof. vm_compute. reflexivity. Qed.

Lemma arpspoof_poisons_witness :
  wp (A := unit) (arpspoof_main (H := SpoofExample.kernel 5) (fun _ => B "host") 5) (fun _ _ => False)
    (fun code s' => (code = WAITING \/ code = 1) /\
       (frames (history s') = [] \/ code = WAITING /\ poisoned (history s')))
    (Proc SpoofExample.script [] 0 spoofer0).
Proof.
  apply arpspoof_poisons.
  - vm_compute. split; [reflexivity|discriminate].
  - apply SpoofExample.kernel_getopt.
  - apply SpoofExample.kernel_names.
  - intros a rest [= <- <-]. vm_compute. discriminate.
Defined.

Lemma arpspoof_heals_witness :
  wp (A := unit) (cleanup (H := SpoofExample.kernel 5) (fun _ => B "host") 2) (fun _ _ => False)
    (fun code s' => (code = WAITING \/ code = 0) /\ exists fw bw sp ts fs,
       map h_ip ts = [SpoofExample.victim] /\ h_ip sp = h_ip (spoof (vars SpoofExample.clean_state)) /\
       (fw = true -> known (history s') sp) /\
       (bw = true -> poison_reverse (vars SpoofExample.clean_state) <> 0 /\ Forall (known (history s')) ts) /\
       (code = 0 -> fw = false -> unanswered (h_ip sp) (history SpoofExample.clean_state) (history s')) /\
       (code = 0 -> bw = false -> poison_reverse (vars SpoofExample.clean_state) = 0 \/ [SpoofExample.victim] = [] \/
          exists ip, ip ∈ [SpoofExample.victim] /\ unanswered ip (history SpoofExample.clean_state) (history s')) /\
       Forall (trusted (history s') (targets (vars SpoofExample.clean_state))) ts /\
       let all := healing fw bw 1 0 (SpoofExample.mac 9) sp ts (if decide (1 = 1 /\ 0 = 1) then 10 else 5) in
       frames (history s') = frames (history SpoofExample.clean_state) ++ fs /\ fs `prefix_of` all /\
       (code = 0 -> fs = all))
    SpoofExample.clean_state.
Proof.
  apply (arpspoof_heals (H := SpoofExample.kernel 5) (fun _ => B "host") 2 (SpoofExample.mac 9) 1 0 [SpoofExample.victim]).
  - left.
  - exists (B "eth0"). split; [reflexivity|vm_compute; discriminate].
  - split; try reflexivity. split; [by repeat constructor|]. exists (replicate 4 0). reflexivity.
Defined.
