(* ===== verification/Pty.v ===== *)
(** Pty: the program pty of apue/19.3ptym_ptys.c, 19.4pty_fork.c, 19.5pty.c,
    19.5loop.c and 19.6do_driver.c, as it is built on Linux: it runs a program on a
    pseudo terminal and relays between that and its standard streams. Each run is
    that of one process: the answers to [fork] say which. The flags of a terminal
    (input, output, control, local) and its size are lists of numbers in answers.
    The only global variable is [sigcaught]; a read during which SIGTERM was caught
    answers a number that is not zero. [tty_raw] and [tty_atexit] are single calls
    here, the functions themselves are in Tty; [signal_intr] belongs to the library of
    the book; [getopt] leaves the arguments [program]. *)
From stdpp Require Import list strings.
From S2P Require Import Prelude Arrays Bytes Sys ErrorLog FdPass Opend.

Definition BUFFSIZE_pty : Z := 512.
Definition SIGTERM : Z := 15.
(** The size of the arrays for the name of the slave. *)
Definition NAMESZ : Z := 20.

Definition ECHO : Z := 8.
Definition ECHOE : Z := 16.
Definition ECHOK : Z := 32.
Definition ECHONL : Z := 64.
Definition ONLCR : Z := 4.

Section pty.
Context `{Kernel} (strerror : Z -> bytes).
Notation pty := (M (proc Z)).

(** ** 19.3 *)

(** [strncpy] into an array of [n] bytes, then the last byte is cleared; it must exist. *)
Definition cut_name (src : bytes) (n : Z) : bytes :=
  aset (take (Z.to_nat n) (src ++ replicate (Z.to_nat n) NUL)) (n - 1) NUL.
Definition copy_name (src : bytes) (n : Z) : pty bytes := guard_ok (0 <? n) ;; ret (cut_name src n).

Definition errout (fdm : Z) (name : bytes) : pty (Z * bytes) :=
  err <- gets errno ;; sys_ (Close fdm) ;; set_errno err ;; ret (-1, name).

(** The result is the return value and the array [pts_name]. *)
Definition ptym_open (pts_name : bytes) (pts_namesz : Z) : pty (Z * bytes) :=
  fdm <- sysret Openpt ;;
  if fdm <? 0 then ret (-1, pts_name)
  else
    r <- sysret (Grantpt fdm) ;;
    if r <? 0 then errout fdm pts_name
    else
      r <- sysret (Unlockpt fdm) ;;
      if r <? 0 then errout fdm pts_name
      else
        ptr <- sys (Ptsname fdm) ;;
        if a_ret ptr <? 0 then errout fdm pts_name
        else name <- copy_name (cstr (a_data ptr)) pts_namesz ;; ret (fdm, name).

Definition ptys_open (pts_name : bytes) : pty Z :=
  fds <- sysret (Open pts_name O_RDWR) ;;
  if fds <? 0 then ret (-1) else ret fds.

(** ** 19.4 *)

(** The string in an array; it must end there. *)
Definition string_in (a : bytes) : pty bytes := guard_ok (bool_decide (NUL ∈ a)) ;; ret (cstr a).

(** [dup2(fd, std)], which must give [std]. *)
Definition dup_to (fd std : Z) (name : bytes) : pty unit :=
  r <- sysret (Dup2 fd std) ;;
  when negb (r =? std) do err_sys strerror (B "dup2 error to " ++ name).

Definition set_attributes (fds : Z) (slave_termios slave_winsize : option (list Z)) : pty unit :=
  match slave_termios with
  | Some t => r <- sysret (Tcsetattr fds t) ;;
              when r <? 0 do err_sys strerror (B "tcsetattr error on slave pty")
  | None => ret tt
  end ;;
  match slave_winsize with
  | Some w => r <- sysret (Setwinsz fds w) ;;
              when r <? 0 do err_sys strerror (B "TIOCSWINSZ error on slave pty")
  | None => ret tt
  end.

Definition take_streams (fds : Z) : pty unit :=
  dup_to fds STDIN_FILENO (B "stdin") ;;
  dup_to fds STDOUT_FILENO (B "stdout") ;;
  dup_to fds STDERR_FILENO (B "stderr") ;;
  when negb (fds =? STDIN_FILENO) && negb (fds =? STDOUT_FILENO) && negb (fds =? STDERR_FILENO) do sys_ (Close fds).

(** The child of [pty_fork]. *)
Definition slave_side (fdm : Z) (pts_name : bytes) (slave_termios slave_winsize : option (list Z)) : pty unit :=
  r <- sysret Setsid ;;
  (when r <? 0 do err_sys strerror (B "setsid error")) ;;
  name <- string_in pts_name ;;
  fds <- ptys_open name ;;
  (when fds <? 0 do err_sys strerror (B "can't open slave pty")) ;;
  sys_ (Close fdm) ;;
  set_attributes fds slave_termios slave_winsize ;;
  take_streams fds.

(** [stack] is what [pts_name] contains before it is written. The results are the
    return value, [*ptrfdm] (which the child does not set) and the array
    [slave_name], [None] for a null pointer. *)
Definition pty_fork (stack : bytes) (slave_name : option bytes) (slave_namesz : Z)
    (slave_termios slave_winsize : option (list Z)) : pty (Z * Z * option bytes) :=
  let! (fdm, pts_name) := ptym_open stack NAMESZ in
  (when fdm <? 0 do
    (name <- string_in pts_name ;;
     err_sys strerror (B "can't open master pty: " ++ name ++ B ", error " ++ dec fdm))) ;;
  slave_name <- match slave_name with
                | None => ret None
                | Some _ => name <- string_in pts_name ;; copy <- copy_name name slave_namesz ;; ret (Some copy)
                end ;;
  pid <- sysret Fork ;;
  if pid <? 0 then ret (-1, fdm, slave_name)
  else if pid =? 0 then slave_side fdm pts_name slave_termios slave_winsize ;; ret (0, fdm, slave_name)
  else ret (pid, fdm, slave_name).

(** ** 19.5: loop *)

(** [sig_term] has run when SIGTERM was caught during the call. *)
Definition read_term (fd : Z) : pty answer :=
  a <- sys (Read fd BUFFSIZE_pty) ;;
  (when negb (a_num a =? 0) do setvars (fun _ => 1)) ;;
  ret a.

Definition child_loop {A} (ptym ignoreeof : Z) : pty A :=
  forever (fun _ =>
    a <- sys (Read STDIN_FILENO BUFFSIZE_pty) ;;
    let nread := a_ret a in
    if nread <? 0 then err_sys strerror (B "read error from stdin")
    else if nread =? 0 then ret (inr tt)
    else
      r <- writen ptym (a_data a) nread ;;
      (when negb (r =? nread) do err_sys strerror (B "writen error to master pty")) ;;
      ret (inl tt)) tt ;;
  (when ignoreeof =? 0 do (p <- sysret Getppid ;; sys_ (Kill p SIGTERM))) ;;
  exit_ 0.

Definition parent_loop (ptym child : Z) : pty unit :=
  r <- sysret (Sigaction SIGTERM) ;;
  (when r <? 0 do err_sys strerror (B "signal_intr error for SIGTERM")) ;;
  forever (fun _ =>
    a <- read_term ptym ;;
    let nread := a_ret a in
    if nread <=? 0 then ret (inr tt)
    else
      r <- writen STDOUT_FILENO (a_data a) nread ;;
      (when negb (r =? nread) do err_sys strerror (B "writen error to stdout")) ;;
      ret (inl tt)) tt ;;
  c <- getvar (fun sigcaught => sigcaught) ;;
  when c =? 0 do sys_ (Kill child SIGTERM).

Definition pty_loop (ptym ignoreeof : Z) : pty unit :=
  child <- sysret Fork ;;
  if child <? 0 then err_sys strerror (B "fork error")
  else if child =? 0 then child_loop ptym ignoreeof
  else parent_loop ptym child.

(** ** 19.6 *)

Definition do_driver (driver : bytes) : pty unit :=
  let! (r, p0, p1) := fd_pipe in
  (when r <? 0 do err_sys strerror (B "can't create stream pipe")) ;;
  child <- sysret Fork ;;
  if child <? 0 then err_sys strerror (B "fork error")
  else if child =? 0 then
    sys_ (Close p1) ;;
    dup_to p0 STDIN_FILENO (B "stdin") ;;
    dup_to p0 STDOUT_FILENO (B "stdout") ;;
    (when negb (p0 =? STDIN_FILENO) && negb (p0 =? STDOUT_FILENO) do sys_ (Close p0)) ;;
    r <- sysret (Execl driver driver) ;;
    if r <? 0 then err_sys strerror (B "execlp error for: " ++ driver) else exit_ REPLACED
  else
    sys_ (Close p0) ;;
    dup_to p1 STDIN_FILENO (B "stdin") ;;
    dup_to p1 STDOUT_FILENO (B "stdout") ;;
    when negb (p1 =? STDIN_FILENO) && negb (p0 =? STDOUT_FILENO) do sys_ (Close p1).

(** ** 19.5: main *)

Definition no_echo (flags : list Z) : list Z :=
  aset (aset flags 3 (Z.land (aget flags 3) (Z.lnot (Z.lor (Z.lor ECHO ECHOE) (Z.lor ECHOK ECHONL)))))
    1 (Z.land (aget flags 1) (Z.lnot ONLCR)).

Definition set_noecho (fd : Z) : pty unit :=
  a <- sys (Tcgetattr fd) ;;
  (when a_ret a <? 0 do err_sys strerror (B "tcgetattr error")) ;;
  r <- sysret (Tcsetattr fd (no_echo (a_rd a))) ;;
  when r <? 0 do err_sys strerror (B "tcsetattr error").

Record settings := Settings {
  ignoreeof : Z; interactive : Z; noecho : Z; verbose : Z; driver : option bytes }.

(** The case 'd' falls through to the next. *)
Definition pty_options (s : settings) : pty settings :=
  forever (fun s =>
    a <- sys Getopt ;;
    let c := a_ret a in
    if c =? -1 then ret (inr s)
    else if (c =? 100) || (c =? 101) then
      ret (inl (Settings (ignoreeof s) (interactive s) 1 (verbose s)
                 (if c =? 100 then Some (a_data a) else driver s)))
    else if c =? 105 then ret (inl (Settings 1 (interactive s) (noecho s) (verbose s) (driver s)))
    else if c =? 110 then ret (inl (Settings (ignoreeof s) 0 (noecho s) (verbose s) (driver s)))
    else if c =? 118 then ret (inl (Settings (ignoreeof s) (interactive s) (noecho s) 1 (driver s)))
    else if c =? 63 then err_quit strerror (B "unrecognized option: -" ++ [a_num a])
    else ret (inl s)) s.

(** The pseudo terminal, with the attributes of the own terminal if there is one;
    [slave] is the array for its name. *)
Definition open_pty (stack slave : bytes) (interactive : Z) : pty (Z * Z * option bytes) :=
  if negb (interactive =? 0) then
    t <- sys (Tcgetattr STDIN_FILENO) ;;
    (when a_ret t <? 0 do err_sys strerror (B "tcgetattr error on stdin")) ;;
    w <- sys (Getwinsz STDIN_FILENO) ;;
    (when a_ret w <? 0 do err_sys strerror (B "TIOCGWINSZ error")) ;;
    pty_fork stack (Some slave) NAMESZ (Some (a_rd t)) (Some (a_rd w))
  else pty_fork stack (Some slave) NAMESZ None None.

Definition exec_program (noecho : Z) (program : list bytes) : pty unit :=
  (when negb (noecho =? 0) do set_noecho STDIN_FILENO) ;;
  r <- sysret (Execvp program) ;;
  if r <? 0 then err_sys strerror (B "can't execute: " ++ default [] (head program)) else exit_ REPLACED.

Definition show_names (slave_name driver : option bytes) : pty unit :=
  name <- string_in (default [] slave_name) ;;
  fputs_stderr (B "slave name = " ++ name ++ [NEWLINE]) ;;
  match driver with
  | Some d => fputs_stderr (B "driver = " ++ d ++ [NEWLINE])
  | None => ret tt
  end.

(** The own terminal, which is put back at the end. *)
Definition raw_terminal : pty unit :=
  r <- sysret (Tty_raw STDIN_FILENO) ;;
  (when r <? 0 do err_sys strerror (B "tty_raw error")) ;;
  r <- sysret Atexit ;;
  when r <? 0 do err_sys strerror (B "atexit error").

Definition pty_main (stack slave : bytes) (program : list bytes) : pty unit :=
  i <- sysret (Isatty STDIN_FILENO) ;;
  s <- pty_options (Settings 0 i 0 0 None) ;;
  (when bool_decide (program = []) do err_quit strerror (B "usage: pty [-d driver -einv] program [arg ...]")) ;;
  let! (pid, fdm, slave_name) := open_pty stack slave (interactive s) in
  (if pid <? 0 then err_sys strerror (B "fork error")
   else when pid =? 0 do exec_program (noecho s) program) ;;
  (when negb (verbose s =? 0) do show_names slave_name (driver s)) ;;
  (when negb (interactive s =? 0) && bool_decide (driver s = None) do raw_terminal) ;;
  match driver s with Some d => do_driver d | None => ret tt end ;;
  pty_loop fdm (ignoreeof s) ;;
  exit_ 0.
End pty.
