(* ===== verification/PtyProofs.v ===== *)
(** PtyProofs: pty relays what its program writes to the standard output, and the
    standard input to the program, unchanged; the program has the slave as its
    standard streams and no other descriptor of the pseudo terminal. *)
From stdpp Require Import sets gmap list strings.
From S2P Require Import Prelude Arrays Bytes Sys ErrorLog FdPass FdPassProofs Opend Pty.

(** ** Names *)

Lemma copy_name_ends src n : 0 < n -> NUL ∈ cut_name src n.
Proof.
  intros Hn. unfold cut_name, aset. apply (list_elem_of_lookup_2 _ (Z.to_nat (n - 1))).
  apply list_lookup_insert_eq. rewrite length_take, length_app, length_replicate. lia.
Qed.

Lemma wp_copy_name {H : Kernel} src n (Q : bytes -> proc Z -> Prop) X s : 0 < n -> Q (cut_name src n) s ->
  wp (copy_name src n) Q X s.
Proof. intros Hn HQ. apply wp_bind, wp_guard; [lia|]. by apply wp_ret. Qed.

Lemma copy_name_string src n : no_nul src -> 0 < n -> cstr (cut_name src n) = take (Z.to_nat (n - 1)) src.
Proof.
  intros Hs Hn. unfold cut_name, aset. set (m := Z.to_nat (n - 1)).
  assert (Z.to_nat n = S m) as -> by lia.
  assert (length (take (S m) (src ++ replicate (S m) NUL)) = S m) as Hl.
  { rewrite length_take, length_app, length_replicate. lia. }
  rewrite insert_take_drop by lia. rewrite take_take, Nat.min_l by lia.
  destruct (decide (m <= length src)%nat).
  - rewrite take_app_le by lia. apply cstr_app. unfold no_nul in *. intros H. apply Hs.
    rewrite <-(take_drop m src). apply elem_of_app. by left.
  - rewrite take_app_ge, (take_ge src) by lia. destruct (m - length src)%nat eqn:E; [lia|].
    simpl. rewrite <-app_assoc. simpl. by apply cstr_app.
Qed.

(** ** Up to the relays nothing is read or written *)

Definition idle_call (c : call) : bool :=
  match c with Read _ _ | Write _ _ | Kill _ _ | Getopt => false | _ => true end.
Definition idle (e : event) : Prop := match e with Called c _ => idle_call c = true | _ => True end.

Section proofs.
Context `{Kernel} (strerror : Z -> bytes).
Hypothesis Kread : posix_read.
Hypothesis Kwrite : posix_write.
(** The standard streams are open. *)
Hypothesis Kopenpt : forall a, allowed Openpt a -> a_ret a < 0 \/ 3 <= a_ret a.
Notation state := (proc Z).
Implicit Types s : state.
Notation quiet := (grows idle).
(** Idle calls, and the variable is as it was. *)
Definition still s0 s : Prop := quiet s0 s /\ vars s = vars s0.

#[local] Instance still_preorder : PreOrder still.
Proof. split; [by intros s|]. intros s1 s2 s3 [H1 V1] [H2 V2]. split; [by transitivity s2|by rewrite V2]. Qed.

Lemma still_event s0 s e : still s0 s -> idle e -> still s0 (record_event e s).
Proof. intros [Hs V] He. split; [by apply grows_event|done]. Qed.

Lemma still_answered s0 s c a : still s0 s -> Called c a ∈ history s0 -> Called c a ∈ history s.
Proof. intros [Hs _] Ha. by eapply grows_elem. Qed.

(** The master is a descriptor that [posix_openpt] gave. *)
Definition master (h : list event) (m : Z) : Prop := exists a, Called Openpt a ∈ h /\ a_ret a = m /\ 3 <= m.

Lemma elem_of_master h h' m : master h m -> master (h ++ h') m.
Proof. intros (a & Ha & Hm). exists a. split; [apply elem_of_app; by left|done]. Qed.

Lemma master_still s0 s m : still s0 s -> master (history s0) m -> master (history s) m.
Proof. intros Hs (a & Ha & Hm). exists a. split; [by eapply still_answered|done]. Qed.

Section start.
Context (X : Z -> state -> Prop) (s0 : state).
Hypothesis HX : forall code s, code ∈ [WAITING; 1; REPLACED] -> quiet s0 s -> X code s.

Lemma wp_fails {A} t (Q : A -> state -> Prop) s : still s0 s -> wp (err_sys strerror t) Q X s.
Proof.
  intros [Hs _]. unfold err_sys. apply wp_bind, wp_gets. apply wp_bind, wp_err_doit. intros b.
  apply wp_exit, HX; [set_solver|by apply grows_event].
Qed.

Lemma wp_quits {A} t (Q : A -> state -> Prop) s : still s0 s -> wp (err_quit strerror t) Q X s.
Proof.
  intros [Hs _]. unfold err_quit. apply wp_bind, wp_err_doit. intros b. apply wp_exit, HX; [set_solver|by apply grows_event].
Qed.

Lemma wp_check b t (Q : unit -> state -> Prop) s : still s0 s -> (b = false -> Q tt s) ->
  wp (when b do err_sys strerror t) Q X s.
Proof. intros Hs HQ. destruct b; [by apply wp_fails|by apply wp_ret, HQ]. Qed.

Lemma wp_idle c (Q : answer -> state -> Prop) s : idle_call c = true -> still s0 s ->
  (forall a s', allowed c a -> still s0 s' -> still s s' -> Called c a ∈ history s' -> Q a s') ->
  wp (sys c) Q X s.
Proof.
  intros Hc Hs HQ. apply (wp_sys_grows idle s); [done|done|done| |].
  - intros a s' Ha Hs' V Hin _. assert (still s s') by done. apply HQ; [done|by transitivity s|done|done].
  - intros s' Hs'. apply HX; [set_solver|]. transitivity s; [by destruct Hs|done].
Qed.

Lemma wp_idleret c (Q : Z -> state -> Prop) s : idle_call c = true -> still s0 s ->
  (forall a s', allowed c a -> still s0 s' -> still s s' -> Called c a ∈ history s' -> Q (a_ret a) s') ->
  wp (sysret c) Q X s.
Proof. intros Hc Hs HQ. apply wp_bind, wp_idle; [done..|]. intros a s' Ha Hs' Hss Hin. apply wp_ret. by apply HQ. Qed.

Lemma wp_idle_ c (Q : unit -> state -> Prop) s : idle_call c = true -> still s0 s ->
  (forall s', still s0 s' -> still s s' -> Q tt s') -> wp (sys_ c) Q X s.
Proof. intros Hc Hs HQ. apply wp_bind, wp_idle; [done..|]. intros a s' Ha Hs' Hss _. apply wp_ret. by apply HQ. Qed.

Lemma wp_string_in a (Q : bytes -> state -> Prop) s : NUL ∈ a -> Q (cstr a) s -> wp (string_in a) Q X s.
Proof. intros Ha HQ. apply wp_bind, wp_guard; [by apply bool_decide_eq_true|done]. Qed.

Lemma wp_errout fdm name (Q : Z * bytes -> state -> Prop) s : still s0 s -> (forall s', still s0 s' -> Q (-1, name) s') ->
  wp (errout fdm name) Q X s.
Proof.
  intros Hs HQ. apply wp_bind, wp_gets. apply wp_bind, wp_idle_; [done|done|]. intros s1 Hs1 _.
  apply wp_bind, wp_modify, wp_ret, HQ. destruct Hs1 as [Hs1 V]. split; [by eapply grows_same|done].
Qed.

(** It fails and leaves the array as it is, or stores a name that ends in it. *)
Lemma wp_ptym_open name n (Q : Z * bytes -> state -> Prop) s : 0 < n -> still s0 s ->
  (forall s', still s0 s' -> Q (-1, name) s') ->
  (forall fdm name s', still s0 s' -> master (history s') fdm -> NUL ∈ name -> Q (fdm, name) s') ->
  wp (ptym_open name n) Q X s.
Proof.
  intros Hn Hs Hfail Hok. unfold ptym_open. apply wp_bind, wp_idleret; [done|done|]. intros a s1 Ha Hs1 _ Hin.
  destruct (Z.ltb_spec (a_ret a) 0); [by apply wp_ret, Hfail|]. destruct (Kopenpt a Ha); [lia|].
  apply wp_bind, wp_idleret; [done|done|]. intros b s2 _ Hs2 H12 _. destruct (a_ret b <? 0); [by apply wp_errout|].
  apply wp_bind, wp_idleret; [done|done|]. intros c s3 _ Hs3 H23 _. destruct (a_ret c <? 0); [by apply wp_errout|].
  apply wp_bind, wp_idle; [done|done|]. intros d s4 _ Hs4 H34 _. destruct (a_ret d <? 0); [by apply wp_errout|].
  apply wp_bind, wp_copy_name; [done|]. apply wp_ret, Hok; [done| |by apply copy_name_ends]. apply (master_still s3); [done|]. apply (master_still s2); [done|].
  apply (master_still s1); [done|]. by exists a.
Qed.

Lemma wp_dup_to fd std name (Q : unit -> state -> Prop) s : still s0 s -> (forall s', still s0 s' -> Q tt s') ->
  wp (dup_to strerror fd std name) Q X s.
Proof.
  intros Hs HQ. apply wp_bind, wp_idleret; [done|done|]. intros a s1 _ Hs1 _ _. apply wp_check; [done|]. intros _. by apply HQ.
Qed.

Lemma wp_set_attributes fds t w (Q : unit -> state -> Prop) s : still s0 s -> (forall s', still s0 s' -> Q tt s') ->
  wp (set_attributes strerror fds t w) Q X s.
Proof.
  assert (Hset : forall c text (Q : unit -> state -> Prop) s, idle_call c = true -> still s0 s ->
    (forall s', still s0 s' -> Q tt s') -> wp (r <- sysret c ;; when r <? 0 do err_sys strerror text) Q X s).
  { intros c text Q' s' Hc Hs' Hk. apply wp_bind, wp_idleret; [done|done|]. intros r s'' _ Hs'' _ _.
    apply wp_check; [done|]. intros _. by apply Hk. }
  intros Hs HQ. apply wp_bind. eapply (wp_conseq _ (fun _ s' => still s0 s')); [destruct t; [by apply Hset|by apply wp_ret]|].
  intros _ s1 Hs1. destruct w; [by apply Hset|by apply wp_ret, HQ].
Qed.

Lemma wp_take_streams fds (Q : unit -> state -> Prop) s : still s0 s -> (forall s', still s0 s' -> Q tt s') ->
  wp (take_streams strerror fds) Q X s.
Proof.
  intros Hs HQ. apply wp_bind, wp_dup_to; [done|]. intros s5 Hs5. apply wp_bind, wp_dup_to; [done|]. intros s6 Hs6.
  apply wp_bind, wp_dup_to; [done|]. intros s7 Hs7. destruct (_ && _); [|by apply wp_ret, HQ].
  apply wp_idle_; [done|done|]. intros s8 Hs8 _. by apply HQ.
Qed.

Lemma wp_slave_side fdm name t w (Q : unit -> state -> Prop) s : NUL ∈ name -> still s0 s ->
  (forall s', still s0 s' -> Q tt s') -> wp (slave_side strerror fdm name t w) Q X s.
Proof.
  intros Hname Hs HQ. unfold slave_side.
  apply wp_bind, wp_idleret; [done|done|]. intros a s1 _ Hs1 _ _. apply wp_bind, wp_check; [done|]. intros _.
  apply wp_bind, wp_string_in; [done|]. unfold ptys_open.
  apply wp_bind, wp_bind, wp_idleret; [done|done|]. intros b s2 _ Hs2 _ _.
  eapply (wp_conseq _ (fun _ s' => s' = s2)); [by destruct (a_ret b <? 0)|]. intros fds _ ->.
  apply wp_bind, wp_check; [done|]. intros _. apply wp_bind, wp_idle_; [done|done|]. intros s3 Hs3 _.
  apply wp_bind, wp_set_attributes; [done|]. intros s4 Hs4. by apply wp_take_streams.
Qed.

Lemma wp_pty_fork stack slave t w (Q : Z * Z * option bytes -> state -> Prop) s : NUL ∈ stack -> still s0 s ->
  (forall pid fdm name s', still s0 s' -> (pid <> 0 -> master (history s') fdm) -> NUL ∈ name ->
     Q (pid, fdm, Some name) s') ->
  wp (pty_fork strerror stack (Some slave) NAMESZ t w) Q X s.
Proof.
  intros Hstack Hs HQ. unfold pty_fork. apply wp_bind, wp_ptym_open; [done|done| |].
  { intros s1 Hs1. apply wp_bind, wp_bind, wp_string_in; [done|]. by apply wp_fails. }
  intros fdm name s1 Hs1 Hm Hn. destruct (Z.ltb_spec fdm 0); [destruct Hm as (? & _ & _ & ?); lia|].
  apply wp_bind, wp_ret, wp_bind, wp_bind, wp_string_in; [done|]. apply wp_bind, wp_copy_name; [done|]. apply wp_ret. apply wp_bind, wp_idleret; [done|done|].
  intros a s2 _ Hs2 H12 _. assert (master (history s2) fdm) as Hm2 by by eapply master_still.
  assert (NUL ∈ cut_name (cstr name) NAMESZ) as Hc by by apply copy_name_ends.
  destruct (a_ret a <? 0); [by apply wp_ret, HQ|]. destruct (a_ret a =? 0); [|by apply wp_ret, HQ].
  apply wp_bind, wp_slave_side; [done|done|]. intros s3 Hs3. by apply wp_ret, HQ.
Qed.

Lemma wp_open_pty stack slave i (Q : Z * Z * option bytes -> state -> Prop) s : NUL ∈ stack -> still s0 s ->
  (forall pid fdm name s', still s0 s' -> (pid <> 0 -> master (history s') fdm) -> NUL ∈ name ->
     Q (pid, fdm, Some name) s') ->
  wp (open_pty strerror stack slave i) Q X s.
Proof.
  intros Hst Hs HQ. unfold open_pty. destruct (negb _); [|by apply wp_pty_fork].
  apply wp_bind, wp_idle; [done|done|]. intros a s1 _ Hs1 _ _. apply wp_bind, wp_check; [done|]. intros _.
  apply wp_bind, wp_idle; [done|done|]. intros b s2 _ Hs2 _ _. apply wp_bind, wp_check; [done|]. intros _.
  by apply wp_pty_fork.
Qed.

(** The child of [pty_fork] does not come back. *)
Lemma wp_exec_program e program (Q : unit -> state -> Prop) s : still s0 s ->
  wp (exec_program strerror e program) Q X s.
Proof.
  intros Hs. apply wp_bind. eapply (wp_conseq _ (fun _ s' => still s0 s')).
  { destruct (negb _); [|by apply wp_ret]. apply wp_bind, wp_idle; [done|done|]. intros a s1 _ Hs1 _ _.
    apply wp_bind, wp_check; [done|]. intros _. apply wp_bind, wp_idleret; [done|done|]. intros b s2 _ Hs2 _ _.
    by apply wp_check. }
  intros _ s1 Hs1. apply wp_bind, wp_idleret; [done|done|]. intros a s2 _ Hs2 _ _.
  destruct (a_ret a <? 0); [by apply wp_fails|]. apply wp_exit, HX; [set_solver|apply Hs2].
Qed.

Lemma wp_note text (Q : unit -> state -> Prop) s : still s0 s -> (forall s', still s0 s' -> Q tt s') ->
  wp (fputs_stderr text) Q X s.
Proof. intros Hs HQ. apply wp_modify, HQ. by apply still_event. Qed.

Lemma wp_show_names name d (Q : unit -> state -> Prop) s : NUL ∈ name -> still s0 s -> (forall s', still s0 s' -> Q tt s') ->
  wp (show_names (Some name) d) Q X s.
Proof.
  intros Hn Hs HQ. apply wp_bind, wp_string_in; [done|]. apply wp_bind, wp_note; [done|]. intros s1 Hs1.
  destruct d; [by apply wp_note|by apply wp_ret, HQ].
Qed.

Lemma wp_raw_terminal (Q : unit -> state -> Prop) s : still s0 s -> (forall s', still s0 s' -> Q tt s') ->
  wp (raw_terminal strerror) Q X s.
Proof.
  intros Hs HQ. apply wp_bind, wp_idleret; [done|done|]. intros a s1 _ Hs1 _ _. apply wp_bind, wp_check; [done|]. intros _.
  apply wp_bind, wp_idleret; [done|done|]. intros b s2 _ Hs2 _ _. apply wp_check; [done|]. intros _. by apply HQ.
Qed.

(** Where something is done or not. *)
Lemma wp_optional (b : bool) (m : M state unit) (Q : unit -> state -> Prop) s : still s0 s -> (forall s', still s0 s' -> Q tt s') ->
  (forall Q : unit -> state -> Prop, (forall s', still s0 s' -> Q tt s') -> wp m Q X s) -> wp (when b do m) Q X s.
Proof. intros Hs HQ Hm. destruct b; [by apply Hm|by apply wp_ret, HQ]. Qed.

Lemma wp_do_driver d (Q : unit -> state -> Prop) s : still s0 s -> (forall s', still s0 s' -> Q tt s') ->
  wp (do_driver strerror d) Q X s.
Proof.
  intros Hs HQ. unfold do_driver, fd_pipe. apply wp_bind, wp_bind, wp_idle; [done|done|]. intros a s1 _ Hs1 _ _.
  apply wp_ret. apply wp_bind, wp_check; [done|]. intros _.
  apply wp_bind, wp_idleret; [done|done|]. intros b s2 _ Hs2 _ _. destruct (a_ret b <? 0); [by apply wp_fails|].
  destruct (a_ret b =? 0); apply wp_bind, wp_idle_; try done; intros s3 Hs3 _;
    (apply wp_bind, wp_dup_to; [done|]; intros s4 Hs4); (apply wp_bind, wp_dup_to; [done|]; intros s5 Hs5).
  - apply wp_bind. eapply (wp_conseq _ (fun _ s' => still s0 s')).
    { destruct (_ && _); [by apply wp_idle_|by apply wp_ret]. }
    intros _ s6 Hs6. apply wp_bind, wp_idleret; [done|done|]. intros c s7 _ Hs7 _ _.
    destruct (a_ret c <? 0); [by apply wp_fails|]. apply wp_exit, HX; [set_solver|apply Hs7].
  - destruct (_ && _); [|by apply wp_ret, HQ]. apply wp_idle_; [done|done|]. intros s6 Hs6 _. by apply HQ.
Qed.
End start.

(** ** The relays *)

(** What a history reads, writes and kills. *)
Definition kills (h : list event) : list (Z * Z) :=
  omap (fun e => match e with Called (Kill p sig) _ => Some (p, sig) | _ => None end) h.
Definition caught (h : list event) : bool :=
  existsb (fun e => match e with Called (Read _ _) a => negb (a_num a =? 0) | _ => false end) h.
Definition gave (c : Z) (h : list event) : bool :=
  existsb (fun e => match e with Called Getopt a => a_ret a =? c | _ => false end) h.

Lemma kills_app h h' : kills (h ++ h') = kills h ++ kills h'.
Proof. apply omap_app. Qed.

(** [pend] is read from [src] and not yet written to [dst]; there is no other
    input or output. *)
Record moves (src dst : Z) (pend : bytes) (h : list event) : Prop := {
  mv_flow : bytes_read src h = bytes_written dst h ++ pend;
  mv_read : forall fd, fd <> src -> bytes_read fd h = [];
  mv_written : forall fd, fd <> dst -> bytes_written fd h = [];
}.

(** No input, output or signal. *)
Record no_io (h : list event) : Prop := {
  no_read : forall fd, bytes_read fd h = [];
  no_written : forall fd, bytes_written fd h = [];
  no_kills : kills h = [];
  no_caught : caught h = false;
}.

Lemma no_io_app h h' : no_io h -> no_io h' -> no_io (h ++ h').
Proof.
  intros [R W K C] [R' W' K' C']. split.
  - intros fd. by rewrite bytes_read_app, R, R'.
  - intros fd. by rewrite bytes_written_app, W, W'.
  - by rewrite kills_app, K, K'.
  - unfold caught in *. by rewrite existsb_app, C, C'.
Qed.

(** Options are no input either. *)
Lemma idle_no_io h : Forall (fun e => idle e \/ exists a, e = Called Getopt a) h -> no_io h.
Proof.
  induction 1 as [|e h He Hh IH]; [by split|]. change (e :: h) with ([e] ++ h). apply no_io_app; [|done].
  destruct He as [He|[a ->]]; [|by split]. by destruct e as [[]| | | | | |].
Qed.

Lemma idle_gave c h : Forall idle h -> gave c h = false.
Proof. induction 1 as [|e h He Hh IH]; [done|]. by destruct e as [[]| | | | | |]. Qed.

Lemma gave_app c h h' : gave c (h ++ h') = gave c h || gave c h'.
Proof. apply existsb_app. Qed.

Lemma caught_app h h' : caught (h ++ h') = caught h || caught h'.
Proof. apply existsb_app. Qed.

Lemma quiet_no_io s0 s : quiet s0 s -> exists h, history s = history s0 ++ h /\ no_io h /\ forall c, gave c h = false.
Proof.
  intros [(h & E & F) _]. exists h. split; [done|]. split; [|by intros c; apply idle_gave].
  apply idle_no_io. eapply Forall_impl; [exact F|]. by left.
Qed.

Lemma moves_app src dst pend h h' : moves src dst pend h -> no_io h' -> moves src dst pend (h ++ h').
Proof.
  intros [F R W] [R' W' _ _]. split.
  - by rewrite bytes_read_app, bytes_written_app, R', W', !app_nil_r.
  - intros fd Hfd. by rewrite bytes_read_app, R', R.
  - intros fd Hfd. by rewrite bytes_written_app, W', W.
Qed.

Lemma moves_app_l src dst pend h h' : no_io h -> moves src dst pend h' -> moves src dst pend (h ++ h').
Proof.
  intros [R W _ _] [F' R' W']. split.
  - by rewrite bytes_read_app, bytes_written_app, R, W.
  - intros fd Hfd. by rewrite bytes_read_app, R, R'.
  - intros fd Hfd. by rewrite bytes_written_app, W, W'.
Qed.

(** What [writen] adds. *)
Lemma writes_io dst h : Forall (writes_to dst) h ->
  bytes_written dst h = all_by (sent_by dst) h /\ (forall fd, fd <> dst -> bytes_written fd h = []) /\
  (forall fd, bytes_read fd h = []) /\ kills h = [] /\ caught h = false.
Proof.
  induction 1 as [|e h He Hh (W & W' & R & K & C)]; [done|].
  destruct e as [c a|c| | | | |]; try done. destruct c; try done. simpl in He. subst fd.
  change (Called (Write dst data) a :: h) with ([Called (Write dst data) a] ++ h).
  split; [by rewrite bytes_written_app, all_by_app, W|]. split; [|split; [|done]].
  - intros fd Hfd. rewrite bytes_written_app, W' by done. unfold bytes_written. simpl.
    destruct (Z.eqb_spec dst fd); [congruence|done].
  - intros fd. by rewrite bytes_read_app, R.
Qed.

(** The run has added [h] to the history of [s0], which copies. *)
Record copies src dst pend s0 h s : Prop := {
  cp_history : history s = history s0 ++ h;
  cp_moves : moves src dst pend h;
  cp_kills : kills h = [];
  cp_gave : forall c, gave c h = false;
}.

Lemma copies_read src dst n s0 h a s s' : copies src dst [] s0 h s -> history s' = history s ++ [Called (Read src n) a] ->
  copies src dst (if 0 <? a_ret a then a_data a else []) s0 (h ++ [Called (Read src n) a]) s'.
Proof.
  intros [E [F R W] K G] E'. split.
  - by rewrite E', E, app_assoc.
  - split.
    + rewrite bytes_read_snoc, bytes_written_snoc, F. simpl. by rewrite Z.eqb_refl, !app_nil_r.
    + intros fd Hfd. rewrite bytes_read_snoc, R by done. simpl. by destruct (Z.eqb_spec src fd).
    + intros fd Hfd. by rewrite bytes_written_snoc, W.
  - by rewrite kills_app, K.
  - intros c. by rewrite gave_app, G.
Qed.

Lemma copies_still src dst pend s0 h s s' : copies src dst pend s0 h s -> quiet s s' ->
  exists h', history s' = history s ++ h' /\ no_io h' /\ copies src dst pend s0 (h ++ h') s'.
Proof.
  intros [E M K G] Hs. destruct (quiet_no_io _ _ Hs) as (h' & E' & N & G'). exists h'. split; [done|]. split; [done|]. split.
  - by rewrite E', E, app_assoc.
  - by apply moves_app.
  - by rewrite kills_app, K, (no_kills _ N).
  - intros c. by rewrite gave_app, G, G'.
Qed.

(** [writen] copies what was read, or a part of it. *)
Lemma wp_copy src dst data s0 h (Q : Z -> state -> Prop) X s : Zlen data < 2 ^ 63 -> copies src dst data s0 h s ->
  (forall h' s', copies src dst [] s0 (h ++ h') s' -> caught h' = false -> vars s' = vars s ->
     (length (script s') <= length (script s))%nat -> Q (Zlen data) s') ->
  (forall r h' pend s', copies src dst pend s0 (h ++ h') s' -> r <> Zlen data -> Q r s') ->
  (forall h' pend s', copies src dst pend s0 (h ++ h') s' -> X WAITING s') ->
  wp (writen dst data (Zlen data)) Q X s.
Proof.
  intros Hd [E [F R W] K G] HQ Hpart HX.
  assert (Hc : forall h' s' k, history s' = history s ++ h' -> Forall (writes_to dst) h' -> 0 <= k <= Zlen data ->
    all_by (sent_by dst) h' = seg data 0 k -> copies src dst (seg data k (Zlen data)) s0 (h ++ h') s').
  { intros h' s' k E' Hw Hk Hsent. destruct (writes_io dst h' Hw) as (W1 & W2 & R1 & K1 & C1). split.
    - by rewrite E', E, app_assoc.
    - split.
      + rewrite bytes_read_app, bytes_written_app, R1, F, W1, Hsent, app_nil_r, <-app_assoc. f_equal.
        rewrite <-seg_app by lia. by rewrite seg_full.
      + intros fd Hfd. by rewrite bytes_read_app, R1, R.
      + intros fd Hfd. by rewrite bytes_written_app, W2, W.
    - by rewrite kills_app, K, K1.
    - intros c. rewrite gave_app, G. simpl. clear -Hw. induction Hw as [|e l He Hl IH]; [done|].
      by destruct e as [[]| | | | | |]. }
  apply (wp_writen eq Kwrite); [done| |].
  - intros r s' h' (E' & L & V & _) Hw Hr _. destruct (decide (r = Zlen data)) as [->|Hne].
    + destruct Hr as [[Hk Hs]|[Hm _]]; [|pose proof (Zlen_nonneg data); lia]. pose proof (Hc h' s' _ E' Hw Hk Hs) as Hc'.
      rewrite seg_nil in Hc' by lia. apply (HQ h'); [done| |by symmetry|done]. apply (writes_io dst h' Hw).
    + destruct Hr as [[Hk Hs]|[-> Hs]]; [by eapply Hpart, Hne; eapply (Hc h')|].
      eapply (Hpart _ h'); [|done]. apply (Hc h' s' 0 E' Hw); [pose proof (Zlen_nonneg data); lia|by rewrite seg_nil by lia].
  - intros k s' h' (E' & L & V & _) Hw Hk Hs _. eapply (HX h'). by eapply (Hc h').
Qed.

Lemma wp_copy_fails {A} src dst pend s0 h t (Q : A -> state -> Prop) X s : copies src dst pend s0 h s ->
  (forall h s', copies src dst pend s0 h s' -> X 1 s') -> wp (err_sys strerror t) Q X s.
Proof.
  intros Hc HX. unfold err_sys. apply wp_bind, wp_gets. apply wp_bind, wp_err_doit. intros b. apply wp_exit.
  destruct (copies_still _ _ _ _ _ _ (record_event (Stderr b) s) Hc) as (h' & _ & _ & Hc'); [by apply grows_event|].
  by eapply HX.
Qed.

Lemma wp_copy_call src dst pend s0 h c (Q : answer -> state -> Prop) X s : idle_call c = true ->
  copies src dst pend s0 h s ->
  (forall a h' s', allowed c a -> Called c a ∈ history s' -> no_io h' -> vars s' = vars s ->
     copies src dst pend s0 (h ++ h') s' -> Q a s') ->
  (forall h s', copies src dst pend s0 h s' -> X WAITING s') -> wp (sys c) Q X s.
Proof.
  intros Hi Hc HQ HX. apply (wp_sys_grows idle s); [done|done|done| |].
  - intros a s' Ha Hs' V Hin _. destruct (copies_still _ _ _ _ _ _ s' Hc Hs') as (h' & _ & N & Hc'). by eapply HQ.
  - intros s' Hs'. destruct (copies_still _ _ _ _ _ _ s' Hc Hs') as (h' & _ & _ & Hc'). by eapply HX.
Qed.

(** The last call of either process. *)
Lemma wp_kill src dst s0 h p sig (Q : unit -> state -> Prop) X s : copies src dst [] s0 h s ->
  (forall h' s', history s' = history s0 ++ h' -> history s `prefix_of` history s' -> moves src dst [] h' ->
     kills h' = [(p, sig)] -> caught h' = caught h -> (forall c, gave c h' = false) -> Q tt s') ->
  (forall h s', copies src dst [] s0 h s' -> X WAITING s') -> wp (sys_ (Kill p sig)) Q X s.
Proof.
  intros Hc HQ HX. apply wp_bind, wp_sys.
  - intros a rest Es _. apply wp_ret. destruct Hc as [E [F R W] K G]. apply (HQ (h ++ [Called (Kill p sig) a])).
    + simpl. by rewrite E, app_assoc.
    + by eexists.
    + split.
      * by rewrite bytes_read_snoc, bytes_written_snoc, F, !app_nil_r.
      * intros fd Hfd. by rewrite bytes_read_snoc, R.
      * intros fd Hfd. by rewrite bytes_written_snoc, W.
    + by rewrite kills_app, K.
    + rewrite caught_app. by rewrite orb_false_r.
    + intros c. by rewrite gave_app, G.
  - destruct (copies_still _ _ _ _ _ _ (record_event (Waiting (Kill p sig)) s) Hc) as (h' & _ & _ & Hc'); [by apply grows_event|].
    by eapply HX.
Qed.

(** A transfer of one block. *)
Lemma wp_transfer {A} src dst s0 h data t (k : M state A) (Q : A -> state -> Prop) X s : Zlen data < 2 ^ 63 ->
  copies src dst data s0 h s ->
  (forall h' s', copies src dst [] s0 (h ++ h') s' -> caught h' = false -> vars s' = vars s ->
     (length (script s') <= length (script s))%nat -> wp k Q X s') ->
  (forall code h pend s', code ∈ [WAITING; 1] -> copies src dst pend s0 h s' -> X code s') ->
  wp (r <- writen dst data (Zlen data) ;; (when negb (r =? Zlen data) do err_sys strerror t) ;; k) Q X s.
Proof.
  intros Hd Hc HQ HX. apply wp_bind, (wp_copy src dst data s0 h); [done|done| | |].
  - intros h' s' Hc' Hca V L. rewrite Z.eqb_refl. by apply wp_bind, wp_ret, (HQ h').
  - intros r h' pend s' Hc' Hne. rewrite (proj2 (Z.eqb_neq _ _) Hne). apply wp_bind.
    eapply wp_copy_fails; [exact Hc'|]. intros h2 s2 Hc2. eapply HX; [set_solver|exact Hc2].
  - intros h' pend s' Hc'. eapply HX; [set_solver|exact Hc'].
Qed.

(** [read] from [src] in a copying run. *)
Lemma wp_read_copy src dst n s0 h (Q : answer -> state -> Prop) X s : 0 <= n -> copies src dst [] s0 h s ->
  (forall a s', (a_ret a <= 0 \/ 0 < a_ret a <= n /\ Zlen (a_data a) = a_ret a) -> vars s' = vars s ->
     (length (script s') < length (script s))%nat ->
     copies src dst (if 0 <? a_ret a then a_data a else []) s0 (h ++ [Called (Read src n) a]) s' -> Q a s') ->
  (forall h s', copies src dst [] s0 h s' -> X WAITING s') -> wp (sys (Read src n)) Q X s.
Proof.
  intros Hn Hc HQ HX. apply wp_sys.
  - intros a rest Es Ha. apply HQ; [|done|simpl; rewrite Es; simpl; lia|by eapply copies_read].
    destruct (Kread _ _ _ Ha) as [?|[? ?]]; [left; lia|]. destruct (Z.eq_dec (a_ret a) 0); [left; lia|right; lia].
  - destruct (copies_still _ _ _ _ _ _ (record_event (Waiting (Read src n)) s) Hc) as (h' & _ & _ & Hc'); [by apply grows_event|].
    by eapply HX.
Qed.

(** What a run of [loop] has done when it is over. *)
Definition copied (src dst : Z) (P : list event -> list event -> Prop) s0 s : Prop :=
  exists h, history s = history s0 ++ h /\ moves src dst [] h /\ (forall c, gave c h = false) /\ P h (history s).

(** The process [p], as its child has asked. *)
Definition parent (h : list event) (p : Z) : Prop := exists a, Called Getppid a ∈ h /\ a_ret a = p.

Lemma wp_child_loop {A} m i (Q : A -> state -> Prop) X s0 :
  (forall code h pend s, code ∈ [WAITING; 1] -> copies STDIN_FILENO m pend s0 h s -> X code s) ->
  (forall s, copied STDIN_FILENO m (fun h all => if i =? 0 then exists p, parent all p /\ kills h = [(p, SIGTERM)] else kills h = []) s0 s -> X 0 s) ->
  forall h s, copies STDIN_FILENO m [] s0 h s -> wp (child_loop strerror m i) Q X s.
Proof.
  intros HX H0 h s Hc. assert (HXw : forall h s', copies STDIN_FILENO m [] s0 h s' -> X WAITING s').
  { intros h1 s1. apply HX. set_solver. }
  assert (HXe : forall h s', copies STDIN_FILENO m [] s0 h s' -> X 1 s').
  { intros h1 s1. apply HX. set_solver. }
  unfold child_loop. apply wp_bind, (wp_forever (fun _ s1 => exists h, copies STDIN_FILENO m [] s0 h s1)); [by exists h|].
  intros _ s1 [h1 H1]. apply wp_bind, (wp_read_copy STDIN_FILENO m BUFFSIZE_pty s0 h1); [done|done| |done].
  intros a s2 Ha V2 L2 H2. cbv zeta. destruct (Z.ltb_spec (a_ret a) 0) as [Hlt1|Hlt1].
  { destruct (Z.ltb_spec 0 (a_ret a)) as [Hlt2|Hlt2]; [lia|]. by eapply wp_copy_fails. }
  destruct (Z.eqb_spec (a_ret a) 0) as [Ez|Hne].
  - rewrite Ez in H2. simpl in H2. apply wp_ret, wp_bind. destruct (Z.eqb_spec i 0).
    + apply wp_bind. unfold sysret. apply wp_bind. eapply wp_copy_call; [done|exact H2| |done].
      intros b h3 s3 _ Hb _ _ H3. apply wp_ret. eapply wp_kill; [exact H3| |done].
      intros h4 s4 E4 [h5 E5] M4 K4 _ G4. apply wp_exit, H0. exists h4. split; [done|]. split; [done|]. split; [done|].
      exists (a_ret b). split; [|done]. exists b. split; [|done]. rewrite E5. apply elem_of_app. by left.
    + apply wp_ret, wp_exit, H0. destruct H2. by eexists.
  - destruct Ha as [?|[Hr Hd]]; [lia|]. destruct (Z.ltb_spec 0 (a_ret a)) as [Hlt3|Hlt3]; [|lia]. rewrite <-Hd.
    eapply wp_transfer; [unfold BUFFSIZE_pty in Hr; lia|exact H2| |done].
    intros h3 s3 H3 _ _ L3. apply wp_ret. split; [by eexists|lia].
Qed.

Lemma wp_parent_loop m child (Q : unit -> state -> Prop) X s0 :
  (forall code h pend s, code ∈ [WAITING; 1] -> copies m STDOUT_FILENO pend s0 h s -> X code s) ->
  (forall s, copied m STDOUT_FILENO (fun h _ => kills h = if caught h then [] else [(child, SIGTERM)]) s0 s -> Q tt s) ->
  vars s0 = 0 -> forall h s, copies m STDOUT_FILENO [] s0 h s -> caught h = false -> vars s = 0 ->
  wp (parent_loop strerror m child) Q X s.
Proof.
  intros HX HQ V0 h s Hc Hca Hv. assert (HXw : forall h s', copies m STDOUT_FILENO [] s0 h s' -> X WAITING s').
  { intros h1 s1. apply HX. set_solver. }
  unfold parent_loop, sysret. apply wp_bind, wp_bind. eapply wp_copy_call; [done|exact Hc| |done].
  intros a h1 s1 _ _ N1 V1 H1. apply wp_ret, wp_bind. destruct (a_ret a <? 0).
  { eapply wp_copy_fails; [exact H1|]. intros h' s'. apply HX. set_solver. }
  apply wp_ret, wp_bind.
  apply (wp_forever (fun _ s2 => exists h, copies m STDOUT_FILENO [] s0 h s2 /\ vars s2 = if caught h then 1 else 0)).
  { exists (h ++ h1). split; [done|]. by rewrite caught_app, Hca, (no_caught _ N1), V1. }
  intros _ s2 (h2 & H2 & V2). unfold read_term. apply wp_bind, wp_bind, (wp_read_copy m STDOUT_FILENO BUFFSIZE_pty s0 h2); [done|done| |done].
  intros b s3 Hb V3 L3 H3. set (h3 := h2 ++ _) in H3.
  apply wp_bind. eapply (wp_conseq _ (fun _ s4 => copies m STDOUT_FILENO (if 0 <? a_ret b then a_data b else []) s0 h3 s4 /\
    vars s4 = (if caught h3 then 1 else 0) /\ script s4 = script s3)).
  { assert (caught h3 = caught h2 || negb (a_num b =? 0)) as -> by (unfold h3; rewrite caught_app; simpl; by rewrite orb_false_r).
    destruct (negb (a_num b =? 0)) eqn:Eb.
    - apply wp_modify. rewrite orb_true_r. split; [by destruct H3|done].
    - apply wp_ret. rewrite orb_false_r, V3. done. }
  intros _ s4 (H4 & V4 & L4). apply wp_ret. cbv zeta. destruct (Z.leb_spec (a_ret b) 0) as [Hlt4|Hlt4].
  - destruct (Z.ltb_spec 0 (a_ret b)) as [Hlt5|Hlt5]; [lia|]. apply wp_ret, wp_bind, wp_gets. rewrite V4.
    destruct (caught h3) eqn:Ec; simpl.
    + apply wp_ret, HQ. destruct H4. exists h3. by rewrite Ec.
    + eapply wp_kill; [exact H4| |done]. intros h5 s5 E5 _ M5 K5 C5 G5. apply HQ. exists h5. by rewrite C5, Ec.
  - destruct Hb as [?|[Hr Hd]]; [lia|]. destruct (Z.ltb_spec 0 (a_ret b)) as [Hlt6|Hlt6]; [|lia]. rewrite <-Hd.
    eapply wp_transfer; [unfold BUFFSIZE_pty in Hr; lia|exact H4| |done].
    intros h5 s5 H5 C5 V5 L5. apply wp_ret. split; [|rewrite L4 in L5; lia]. exists (h3 ++ h5). split; [done|].
    by rewrite caught_app, C5, orb_false_r, V5.
Qed.

(** ** The options *)

(** [h] is what has happened since [s0]: idle calls and options. *)
Record chosen s0 (i : Z) (h : list event) s : Prop := {
  ch_history : history s = history s0 ++ h;
  ch_quiet : Forall (fun e => idle e \/ exists a, e = Called Getopt a) h;
  ch_ignore : i = if gave 105 h then 1 else 0;
  ch_vars : vars s = vars s0;
}.

Lemma wp_pty_options st (Q : settings -> state -> Prop) X s0 h s : chosen s0 (ignoreeof st) h s ->
  (forall code h s', code ∈ [WAITING; 1] -> history s' = history s0 ++ h -> no_io h -> X code s') ->
  (forall st h s', chosen s0 (ignoreeof st) h s' -> Q st s') -> wp (pty_options strerror st) Q X s.
Proof.
  intros Hc HX HQ. unfold pty_options.
  apply (wp_forever (fun st s => exists h, chosen s0 (ignoreeof st) h s)); [by eexists|].
  clear st h s Hc. intros st s (h & [E F I V]). apply wp_bind, wp_sys.
  - intros a rest Es _. set (s1 := answered _ a rest s). cbv zeta.
    assert (Hg : gave 105 (h ++ [Called Getopt a]) = gave 105 h || (a_ret a =? 105)).
    { rewrite gave_app. simpl. by rewrite orb_false_r. }
    assert (Hc : forall i, i = (if gave 105 h || (a_ret a =? 105) then 1 else 0) -> chosen s0 i (h ++ [Called Getopt a]) s1).
    { intros i ->. split; [simpl; by rewrite E, app_assoc| |by rewrite Hg|done].
      apply Forall_app. split; [done|]. constructor; [right; by eexists|done]. }
    assert (Hstep : forall st', ignoreeof st' = (if gave 105 h || (a_ret a =? 105) then 1 else 0) ->
      (exists h, chosen s0 (ignoreeof st') h s1) /\ (length (script s1) < length (script s))%nat).
    { intros st' Hi. split; [eexists; by apply Hc|]. simpl. rewrite Es. simpl. lia. }
    repeat match goal with |- wp (if ?b then _ else _) _ _ _ => destruct b eqn:? end.
    all: lazymatch goal with
      | |- wp (ret (inl _)) _ _ _ => apply wp_ret, Hstep; simpl
      | |- wp (ret (inr _)) _ _ _ => apply wp_ret, (HQ _ (h ++ [Called Getopt a])), Hc
      | _ => idtac
      end.
    all: try (rewrite I; destruct (gave 105 h), (Z.eqb_spec (a_ret a) 105); simpl; congruence || lia).
    + by rewrite orb_true_r.
    + unfold err_quit. apply wp_bind, wp_err_doit. intros b. apply wp_exit.
      eapply (HX _ ((h ++ [Called Getopt a]) ++ [Stderr b])); [set_solver|simpl; by rewrite E, !app_assoc|].
      apply idle_no_io. apply Forall_app. split; [apply Forall_app; split; [done|]|]; (constructor; [|done]); [right|left]; [by eexists|done].
  - eapply (HX _ (h ++ [Waiting Getopt])); [set_solver|simpl; by rewrite E, app_assoc|].
    apply idle_no_io, Forall_app. split; [done|]. constructor; [by left|done].
Qed.

(** ** The program *)

(** A child of the process, by the answer that [fork] gave. *)
Definition child (h : list event) (c : Z) : Prop := exists a, Called Fork a ∈ h /\ a_ret a = c /\ 0 < c.

(** What a run with history [h] that is over with status [code] has moved: nothing
    in either direction and it failed, or it was one of the two processes of the
    relay. *)
Definition relayed (code : Z) (h : list event) : Prop :=
  (no_io h /\ code <> 0) \/ exists m pend, master h m /\
    ((moves STDIN_FILENO m pend h /\
       (if code =? 0 then pend = [] /\
          if gave 105 h then kills h = [] else exists p, parent h p /\ kills h = [(p, SIGTERM)]
        else kills h = [])) \/
     (moves m STDOUT_FILENO pend h /\
       (if code =? 0 then pend = [] /\
          if caught h then kills h = [] else exists c, child h c /\ kills h = [(c, SIGTERM)]
        else kills h = []))).

Lemma no_io_moves src dst h : no_io h -> moves src dst [] h.
Proof. intros [R W _ _]. split; [by rewrite R, W|by intros fd _|by intros fd _]. Qed.

Section pty_main.
Context (stack slave : bytes) (program : list bytes).
Let X (code : Z) (s : state) : Prop := code ∈ [WAITING; 0; 1; REPLACED] /\ relayed code (history s).

Lemma ended_quiet code s0 s : code ∈ [WAITING; 1; REPLACED] -> no_io (history s0) -> quiet s0 s -> X code s.
Proof.
  intros Hc N Hs. split; [set_solver|]. left. split; [|intros ->; set_solver].
  destruct (quiet_no_io _ _ Hs) as (h & -> & N' & _). by apply no_io_app.
Qed.

(** A relay that stops before it is at its end. *)
Lemma ended_midway code src dst m pend s0 h s : code ∈ [WAITING; 1] -> no_io (history s0) -> master (history s0) m ->
  copies src dst pend s0 h s -> (src = STDIN_FILENO /\ dst = m) \/ (src = m /\ dst = STDOUT_FILENO) -> X code s.
Proof.
  intros Hc N (a & Ha & Hm & Hge) [E M K _] Hsrc. split; [set_solver|]. right. exists m, pend. rewrite E.
  split; [exists a; split; [|done]; apply elem_of_app; by left|].
  assert (code =? 0 = false) as -> by (apply Z.eqb_neq; set_solver).
  assert (kills (history s0 ++ h) = []) as HK by by rewrite kills_app, K, (no_kills _ N).
  destruct Hsrc as [[-> ->]|[-> ->]]; [left|right]; (split; [by apply moves_app_l|done]).
Qed.

Lemma ended_child i m s0 s : no_io (history s0) -> master (history s0) m -> i = (if gave 105 (history s0) then 1 else 0) ->
  copied STDIN_FILENO m (fun h all => if i =? 0 then exists p, parent all p /\ kills h = [(p, SIGTERM)] else kills h = []) s0 s ->
  X 0 s.
Proof.
  intros N Hm Hi (h & E & M & G & K). split; [set_solver|]. right. exists m, []. rewrite E in *.
  split; [by apply (elem_of_master (history s0))|]. left. split; [by apply moves_app_l|]. split; [done|].
  rewrite gave_app, G, orb_false_r, kills_app, (no_kills _ N). rewrite Hi in K. by destruct (gave 105 (history s0)).
Qed.

Lemma ended_parent c m s0 s : no_io (history s0) -> master (history s0) m -> child (history s0) c ->
  copied m STDOUT_FILENO (fun h _ => kills h = if caught h then [] else [(c, SIGTERM)]) s0 s -> X 0 s.
Proof.
  intros N Hm Hc (h & E & M & G & K). split; [set_solver|]. right. exists m, []. rewrite E in *.
  split; [by apply (elem_of_master (history s0))|]. right. split; [by apply moves_app_l|]. split; [done|].
  rewrite caught_app, (no_caught _ N), kills_app, (no_kills _ N). simpl. rewrite K. destruct (caught h); [done|].
  exists c. split; [|done]. destruct Hc as (a & Ha & ?). exists a. split; [apply elem_of_app; by left|done].
Qed.

Lemma wp_pty_loop m i (Q : unit -> state -> Prop) s1 s : no_io (history s1) -> vars s1 = 0 ->
  i = (if gave 105 (history s1) then 1 else 0) -> still s1 s -> master (history s) m ->
  (forall s', X 0 s' -> Q tt s') -> wp (pty_loop strerror m i) Q X s.
Proof.
  intros N V Hi Hs Hm HQ. apply wp_bind, (wp_idleret X s1 (fun code s' Hc => ended_quiet code s1 s' Hc N)); [done|done|].
  intros a s2 _ Hs2 H12 Hin. assert (master (history s2) m) as Hm2 by by eapply master_still.
  destruct Hs2 as [Hq V2]. destruct (quiet_no_io _ _ Hq) as (h & E & N' & G).
  assert (no_io (history s2)) as N2 by (rewrite E; by apply no_io_app).
  assert (forall src dst, copies src dst [] s2 [] s2) as H0 by (split; [by rewrite app_nil_r|by split|done|done]).
  destruct (Z.ltb_spec (a_ret a) 0).
  { apply (wp_fails X s1); [|split; [done|by rewrite V2]]. intros code s' Hc. by apply ended_quiet. }
  destruct (Z.eqb_spec (a_ret a) 0).
  - apply (wp_child_loop m i Q X s2) with (h := []); [| |done].
    + intros code h' pend s' Hc Hcp. apply (ended_midway code STDIN_FILENO m m pend s2 h'); [done..|by left].
    + intros s' Hcp. apply (ended_child i m s2); [done..| |done]. by rewrite E, gave_app, G, orb_false_r.
  - apply (wp_parent_loop m (a_ret a) Q X s2) with (h := []); [| |by rewrite V2|done|done|by rewrite V2].
    + intros code h' pend s' Hc Hcp. apply (ended_midway code m STDOUT_FILENO m pend s2 h'); [done..|by right].
    + intros s' Hcp. apply HQ, (ended_parent (a_ret a) m s2); [done..| |done]. exists a. split; [done|]. split; [done|lia].
Qed.

(** C10: at every moment of every run of pty, and whatever the system answers, either
    the program has read and written nothing, and ends only with a failure or as the
    program that it runs; or it is one of the two processes of the relay, with a
    master of a pseudo terminal that is no standard stream. The one has written to
    the master what it has read from the standard input, but for a part of the last
    block; the other has written to the standard output what it has read from the
    master. No other descriptor is read or written. A relay that ends with status 0
    has written everything. At the end of its input the child sends SIGTERM to its
    parent, but not with -i; at the end of its output the parent sends SIGTERM to the
    child, but not when it has caught SIGTERM itself; no other signal is sent. *)
Theorem pty_relays script err : NUL ∈ stack ->
  wp (pty_main strerror stack slave program) (fun _ _ => False)
    (fun code s' => code ∈ [WAITING; 0; 1; REPLACED] /\ relayed code (history s'))
    (Proc script [] err 0).
Proof.
  intros Hstack. refine (_ : wp _ _ X _). unfold pty_main. set (s0 := Proc _ _ _ _).
  assert (no_io (history s0)) as N0 by by split.
  apply wp_bind, (wp_idleret X s0 (fun code s' Hc => ended_quiet code s0 s' Hc N0)); [done|done|].
  intros a s1 _ [Hs1 V1] _ _. destruct (quiet_no_io _ _ Hs1) as (h1 & E1 & N1 & G1). simpl in E1.
  apply wp_bind, (wp_pty_options _ _ X s1 []).
  { split; [by rewrite app_nil_r|done|done|done]. }
  { intros code h s' Hc E N. split; [set_solver|]. left. split; [|intros ->; set_solver].
    rewrite E, E1. by apply no_io_app. }
  intros st h2 s2 [E2 F2 I2 V2]. apply idle_no_io in F2.
  assert (no_io (history s2)) as N2 by (rewrite E2, E1; by apply no_io_app).
  assert (ignoreeof st = if gave 105 (history s2) then 1 else 0) as Hi by by rewrite E2, E1, gave_app, G1.
  assert (vars s2 = 0) as V by (rewrite V2, V1; done). clear E1 E2 I2 V1 V2 N1 F2 G1 Hs1.
  pose proof (fun code s' Hc => ended_quiet code s2 s' Hc N2) as HX.
  assert (still s2 s2) as Hs by done.
  apply wp_bind. destruct (bool_decide _); [by apply (wp_quits X s2)|]. apply wp_ret.
  apply wp_bind, (wp_open_pty X s2); [done..|]. intros pid m name s3 Hs3 Hm Hname.
  apply wp_bind. destruct (Z.ltb_spec pid 0); [by apply (wp_fails X s2)|]. destruct (Z.eqb_spec pid 0) as [|Hpid].
  { by apply (wp_exec_program X s2). }
  apply wp_ret. specialize (Hm Hpid). clear a s1 s0 N0 HX Hs.
  destruct Hs3 as [Hq V3]. destruct (quiet_no_io _ _ Hq) as (h & E & N & G).
  assert (no_io (history s3)) as N3 by (rewrite E; by apply no_io_app).
  assert (ignoreeof st = if gave 105 (history s3) then 1 else 0) as Hi3 by by rewrite E, gave_app, G, orb_false_r.
  pose proof (fun code s' Hc => ended_quiet code s3 s' Hc N3) as HX. assert (still s3 s3) as Hs by done.
  apply wp_bind, (wp_optional X s3); [done| |intros Q HQ; by apply (wp_show_names X s3)]. intros s4 H4.
  apply wp_bind, (wp_optional X s3); [done| |intros Q HQ; by apply (wp_raw_terminal X s3)]. intros s5 H5.
  apply wp_bind, (wp_conseq _ (fun _ s' => still s3 s')).
  { destruct (driver st); [by apply (wp_do_driver X s3)|by apply wp_ret]. }
  intros _ s6 H6. apply wp_bind, (wp_pty_loop _ _ _ s3); [done|by rewrite V3|done|done| |].
  { by eapply master_still. }
  intros s' Hend. by apply wp_exit.
Qed.
End pty_main.
End proofs.
