(* ===== verification/PtyForkProofs.v ===== *)
(** PtyForkProofs: what [pty_fork] does with descriptors: its child has the slave as
    its three standard streams, and neither the master nor a further descriptor of
    the slave; its parent has the master and nothing else more. *)
From stdpp Require Import sets gmap list strings.
From S2P Require Import Prelude Arrays Bytes Sys ErrorLog FdPass Opend Pty PtyProofs.

(** ** The open files of a process *)

Inductive file := Master | Path (name : bytes).

Definition file_step (D : gmap Z file) (e : event) : gmap Z file :=
  match e with
  | Called Openpt a => if a_ret a <? 0 then D else <[a_ret a := Master]> D
  | Called (Open path _) a => if a_ret a <? 0 then D else <[a_ret a := Path path]> D
  | Called (Close fd) _ => delete fd D
  | Called (Dup2 fd std) a => if a_ret a =? std then partial_alter (fun _ => D !! fd) std D else D
  | _ => D
  end.

(** The file of each descriptor after a history. *)
Definition files (h : list event) : gmap Z file := foldl file_step ∅ h.

(** [open] and [posix_openpt] give a descriptor that is not in use. *)
Definition fresh_descriptors `{Kernel} : Prop := forall h c a,
  match c with Openpt | Open _ _ => True | _ => False end -> may h c a = true -> a_ret a < 0 \/ files h !! a_ret a = None.

Lemma files_snoc h e : files (h ++ [e]) = file_step (files h) e.
Proof. unfold files. by rewrite foldl_app. Qed.

(** ** What [pty_fork] calls *)

Definition opening (m : Z) : list call := [Openpt; Grantpt m; Unlockpt m; Ptsname m; Fork].
Definition setting (sl : Z) (t w : option (list Z)) : list call :=
  match t with Some t => [Tcsetattr sl t] | None => [] end ++ match w with Some w => [Setwinsz sl w] | None => [] end.
Definition standard (sl : Z) : list call :=
  [Dup2 sl STDIN_FILENO; Dup2 sl STDOUT_FILENO; Dup2 sl STDERR_FILENO].
Definition slave_calls (m sl : Z) (name : bytes) (t w : option (list Z)) : list call :=
  [Setsid; Open name O_RDWR; Close m] ++ setting sl t w ++ standard sl ++ if 2 <? sl then [Close sl] else [].

Section proofs.
Context `{Kernel} (strerror : Z -> bytes).
Hypothesis Kfresh : fresh_descriptors.
Notation state := (proc Z).
Implicit Types s : state.

(** [cs] has been called since [s0], and [D] is open. *)
Record called s0 (cs : list call) (D : gmap Z file) s : Prop := {
  cd_calls : calls (history s) = calls (history s0) ++ cs;
  cd_files : files (history s) = D;
  cd_prefix : history s0 `prefix_of` history s;
}.

Let X (code : Z) (s : state) : Prop := code = WAITING \/ code = 1.

Lemma wp_stops {A} t (Q : A -> state -> Prop) s : wp (err_sys strerror t) Q X s.
Proof. unfold err_sys. apply wp_bind, wp_gets. apply wp_bind, wp_err_doit. intros b. apply wp_exit. by right. Qed.

Lemma wp_stops_if b t (Q : unit -> state -> Prop) s : (b = false -> Q tt s) -> wp (when b do err_sys strerror t) Q X s.
Proof. intros HQ. destruct b; [by apply wp_stops|by apply wp_ret, HQ]. Qed.

Lemma wp_called c s0 cs D (Q : answer -> state -> Prop) s : called s0 cs D s ->
  (forall a s', may (history s) c a = true -> Called c a ∈ history s' -> history s `prefix_of` history s' ->
     called s0 (cs ++ [c]) (file_step D (Called c a)) s' -> Q a s') ->
  wp (sys c) Q X s.
Proof.
  intros [Hc HD Hpre] HQ. apply wp_sys_at; [|by left]. intros a rest Es Ha. apply HQ; [done|simpl; set_solver|by eexists|]. split.
  - simpl. by rewrite calls_app, Hc, app_assoc.
  - simpl. by rewrite files_snoc, HD.
  - by apply prefix_app_r.
Qed.

Lemma wp_calledret c s0 cs D (Q : Z -> state -> Prop) s : called s0 cs D s ->
  (forall a s', may (history s) c a = true -> Called c a ∈ history s' -> history s `prefix_of` history s' ->
     called s0 (cs ++ [c]) (file_step D (Called c a)) s' -> Q (a_ret a) s') ->
  wp (sysret c) Q X s.
Proof. intros Hc HQ. apply wp_bind. eapply wp_called; [exact Hc|]. intros. apply wp_ret. by apply HQ. Qed.

Lemma wp_called_ c s0 cs D (Q : unit -> state -> Prop) s : called s0 cs D s ->
  (forall s' a, called s0 (cs ++ [c]) (file_step D (Called c a)) s' -> Q tt s') -> wp (sys_ c) Q X s.
Proof. intros Hc HQ. apply wp_bind. eapply wp_called; [exact Hc|]. intros a s' _ _ _ Hs'. apply wp_ret. by eapply HQ. Qed.

Lemma wp_dup_called fd std name s0 cs D (Q : unit -> state -> Prop) s : called s0 cs D s ->
  (forall s', called s0 (cs ++ [Dup2 fd std]) (partial_alter (fun _ => D !! fd) std D) s' -> Q tt s') ->
  wp (dup_to strerror fd std name) Q X s.
Proof.
  intros Hc HQ. apply wp_bind. eapply wp_calledret; [exact Hc|]. intros a s' _ _ _ Hs'. apply wp_stops_if. intros Ha.
  apply HQ. simpl in Hs'. destruct (Z.eqb_spec (a_ret a) std); [done|discriminate].
Qed.

Lemma wp_set_called fd t w s0 cs D (Q : unit -> state -> Prop) s : called s0 cs D s ->
  (forall s', called s0 (cs ++ setting fd t w) D s' -> Q tt s') -> wp (set_attributes strerror fd t w) Q X s.
Proof.
  intros Hc HQ. apply wp_bind.
  eapply (wp_conseq _ (fun _ s' => called s0 (cs ++ match t with Some t => [Tcsetattr fd t] | None => [] end) D s')).
  { destruct t; [|apply wp_ret; by rewrite app_nil_r]. apply wp_bind. eapply wp_calledret; [exact Hc|].
    intros a s' _ _ _ Hs'. by apply wp_stops_if. }
  intros _ s1 Hs1. destruct w as [w|]; [|apply wp_ret, HQ; unfold setting; by rewrite app_nil_r].
  apply wp_bind. eapply wp_calledret; [exact Hs1|]. intros a s' _ _ _ Hs'. apply wp_stops_if. intros _. apply HQ.
  unfold setting. by rewrite app_assoc.
Qed.

(** [D] with [f] as the standard streams. *)
Definition streams (f : file) (D : gmap Z file) : gmap Z file :=
  <[STDERR_FILENO := f]> (<[STDOUT_FILENO := f]> (<[STDIN_FILENO := f]> D)).

Lemma wp_streams_called sl f s0 cs D (Q : unit -> state -> Prop) s : 0 <= sl -> called s0 cs (<[sl := f]> D) s ->
  D !! sl = None ->
  (forall s', called s0 (cs ++ standard sl ++ if 2 <? sl then [Close sl] else []) (streams f D) s' -> Q tt s') ->
  wp (take_streams strerror sl) Q X s.
Proof.
  intros Hsl Hc HD HQ. unfold take_streams.
  assert (Hdup : forall std (D : gmap Z file), D !! sl = Some f -> partial_alter (fun _ => D !! sl) std D = <[std := f]> D).
  { intros std D' HD'. unfold insert, map_insert. apply partial_alter_ext. by intros ? _. }
  apply wp_bind. eapply wp_dup_called; [exact Hc|]. intros s1 H1. rewrite Hdup in H1 by by rewrite lookup_insert_eq.
  assert (Hins : forall std (D : gmap Z file), D !! sl = Some f -> <[std := f]> D !! sl = Some f).
  { intros std D' HD'. destruct (decide (std = sl)) as [->|]; [by rewrite lookup_insert_eq|by rewrite lookup_insert_ne]. }
  apply wp_bind. eapply wp_dup_called; [exact H1|]. intros s2 H2.
  rewrite Hdup in H2 by (apply Hins; by rewrite lookup_insert_eq).
  apply wp_bind. eapply wp_dup_called; [exact H2|]. intros s3 H3.
  rewrite Hdup in H3 by (do 2 apply Hins; by rewrite lookup_insert_eq). rewrite <-!app_assoc in H3. simpl in H3.
  assert (negb (sl =? STDIN_FILENO) && negb (sl =? STDOUT_FILENO) && negb (sl =? STDERR_FILENO) = (2 <? sl)) as ->
    by (unfold STDIN_FILENO, STDOUT_FILENO, STDERR_FILENO; lia).
  destruct (Z.ltb_spec 2 sl).
  - eapply wp_called_; [exact H3|]. intros s4 a H4. apply HQ. simpl in H4. rewrite <-app_assoc in H4.
    unfold STDIN_FILENO, STDOUT_FILENO, STDERR_FILENO in *.
    rewrite !delete_insert_ne, delete_insert_id in H4 by (done || lia). done.
  - apply wp_ret, HQ. rewrite app_nil_r.
    assert (streams f D = <[STDERR_FILENO:=f]> (<[STDOUT_FILENO:=f]> (<[STDIN_FILENO:=f]> (<[sl:=f]> D)))) as ->; [|done].
    apply map_eq. intros i. unfold streams, STDIN_FILENO, STDOUT_FILENO, STDERR_FILENO. rewrite !lookup_insert.
    repeat case_decide; try done. lia.
Qed.

Lemma wp_slave_called m name t w s0 cs D (Q : unit -> state -> Prop) s : called s0 cs (<[m := Master]> D) s ->
  D !! m = None -> NUL ∈ name ->
  (forall sl s', 0 <= sl -> called s0 (cs ++ slave_calls m sl (cstr name) t w) (streams (Path (cstr name)) D) s' -> Q tt s') ->
  wp (slave_side strerror m name t w) Q X s.
Proof.
  intros Hc HD Hname HQ. unfold slave_side. apply wp_bind. eapply wp_calledret; [exact Hc|]. intros a s1 _ _ _ H1.
  apply wp_bind, wp_stops_if. intros _. apply wp_bind, wp_string_in; [done|].
  apply wp_bind. unfold ptys_open. apply wp_bind. eapply wp_calledret; [exact H1|]. intros b s2 Hb _ _ H2.
  destruct (Kfresh _ (Open (cstr name) O_RDWR) _ I Hb) as [Hneg|Hnew]; simpl in H2.
  - rewrite (proj2 (Z.ltb_lt _ _) Hneg). apply wp_ret. apply wp_bind. by apply wp_stops.
  - destruct (Z.ltb_spec (a_ret b) 0) as [Hneg|Hge]; apply wp_ret, wp_bind; [by apply wp_stops|].
    apply wp_stops_if. intros _. rewrite (cd_files _ _ _ _ H1) in Hnew. simpl in Hnew.
    apply lookup_insert_None in Hnew as [Hnew Hm].
    apply wp_bind. eapply wp_called_; [exact H2|]. intros s3 c H3. simpl in H3.
    rewrite delete_insert_ne, delete_insert_id in H3 by done.
    apply wp_bind. eapply wp_set_called; [exact H3|]. intros s4 H4. eapply wp_streams_called; [done|exact H4|done|].
    intros s5 H5. eapply HQ; [done|]. revert H5. unfold slave_calls. rewrite <-!app_assoc. by simpl.
Qed.

Lemma wp_errout_any fdm name (Q : Z * bytes -> state -> Prop) s : (forall s', Q (-1, name) s') ->
  wp (errout fdm name) Q X s.
Proof.
  intros HQ. apply wp_bind, wp_gets. apply wp_bind, wp_bind, wp_sys_at; [|by left]. intros a rest _ _.
  apply wp_ret, wp_bind, wp_modify, wp_ret, HQ.
Qed.

Lemma wp_ptym_called stack s0 D (Q : Z * bytes -> state -> Prop) s : called s0 [] D s ->
  (forall s', Q (-1, stack) s') ->
  (forall m p s', 0 <= m -> D !! m = None -> Called (Ptsname m) p ∈ history s' ->
     called s0 [Openpt; Grantpt m; Unlockpt m; Ptsname m] (<[m := Master]> D) s' ->
     Q (m, cut_name (cstr (a_data p)) NAMESZ) s') ->
  wp (ptym_open stack NAMESZ) Q X s.
Proof.
  intros H0 Hfail HQ. unfold ptym_open. apply wp_bind. eapply wp_calledret; [exact H0|]. intros a s1 Ha _ _ H1. simpl in H1.
  pose proof (Kfresh _ Openpt _ I Ha) as Hnew. rewrite (cd_files _ _ _ _ H0) in Hnew.
  destruct (Z.ltb_spec (a_ret a) 0) as [|Hge]; [by apply wp_ret, Hfail|]. destruct Hnew as [|Hnew]; [lia|].
  apply wp_bind. eapply wp_calledret; [exact H1|]. intros b s2 _ _ _ H2. destruct (a_ret b <? 0); [by apply wp_errout_any|].
  apply wp_bind. eapply wp_calledret; [exact H2|]. intros c s3 _ _ _ H3. destruct (a_ret c <? 0); [by apply wp_errout_any|].
  apply wp_bind. eapply wp_called; [exact H3|]. intros p s4 _ Hp _ H4. destruct (a_ret p <? 0); [by apply wp_errout_any|].
  apply wp_bind, wp_copy_name; [done|]. by apply wp_ret, (HQ _ p).
Qed.

(** C11: what [pty_fork] does. Whatever the system answers, it returns or fails with
    status 1. In the parent, and when [fork] fails, it has opened the master [m], and
    nothing else has changed. In the child the process is in a session of its own,
    which it enters before it opens the slave; exactly the three standard streams
    are the slave, whose attributes and size have been set when they were given; all
    other descriptors are as before the call, so that the child keeps neither the
    master nor the descriptor of the slave from [open]. The name of the slave is what
    [ptsname] has given, cut after 19 bytes, and again to the size of the array, when
    the caller gives one, which then has a byte at least. *)
Theorem pty_fork_streams stack slave n t w s0 : NUL ∈ stack -> (slave <> None -> 0 < n) ->
  wp (pty_fork strerror stack slave n t w)
    (fun '(pid, m, slave_name) s' => 0 <= m /\ exists p,
       Called (Ptsname m) p ∈ history s' /\
       let name := take 19 (cstr (a_data p)) in
       slave_name = (if slave then Some (cut_name name n) else None) /\
       if pid =? 0 then exists sl, 0 <= sl /\
         calls (history s') = calls (history s0) ++ opening m ++ slave_calls m sl name t w /\
         files (history s') = streams (Path name) (files (history s0))
       else calls (history s') = calls (history s0) ++ opening m /\
         files (history s') = <[m := Master]> (files (history s0)))
    (fun code _ => code = WAITING \/ code = 1) s0.
Proof.
  intros Hstack Hn. refine (_ : wp _ _ X _). set (D := files (history s0)).
  assert (called s0 [] D s0) as H0 by (by split; [rewrite app_nil_r| |]).
  unfold pty_fork. apply wp_bind, (wp_ptym_called _ s0 D); [done| |].
  { intros s1. apply wp_bind, wp_bind, wp_string_in; [done|]. by apply wp_stops. }
  intros m p s1 Hm HD Hp H1. apply wp_bind. rewrite (proj2 (Z.ltb_ge _ _) Hm). apply wp_ret.
  assert (NUL ∈ cut_name (cstr (a_data p)) NAMESZ) as Hends by by apply copy_name_ends.
  assert (cstr (cut_name (cstr (a_data p)) NAMESZ) = take 19 (cstr (a_data p))) as Hname.
  { rewrite copy_name_string; [done|apply cstr_no_nul|done]. }
  apply wp_bind, (wp_conseq _ (fun sn s' => s' = s1 /\ sn = if slave then Some (cut_name (take 19 (cstr (a_data p))) n) else None)).
  { destruct slave; [|by apply wp_ret]. apply wp_bind, wp_string_in; [done|]. apply wp_bind, wp_copy_name; [by apply Hn|]. apply wp_ret. by rewrite Hname. }
  intros sn _ [-> ->]. apply wp_bind. eapply wp_calledret; [exact H1|]. intros a s2 _ _ [h2 E2] H2.
  assert (Called (Ptsname m) p ∈ history s2) as Hp2 by (rewrite E2; apply elem_of_app; by left).
  destruct (Z.ltb_spec (a_ret a) 0) as [Hlt|Hge]; [|destruct (Z.eqb_spec (a_ret a) 0) as [|Hpid]].
  - apply wp_ret. split; [done|]. exists p. split; [done|]. split; [done|]. by destruct H2.
  - assert (called s2 [] (<[m:=Master]> D) s2) as H2' by (split; [by rewrite app_nil_r|by destruct H2|done]).
    apply wp_bind. eapply wp_slave_called; [exact H2'|done|done|]. intros sl s3 Hsl [Hc Hf [h3 E3]]. apply wp_ret.
    split; [done|]. exists p. split; [rewrite E3; apply elem_of_app; by left|]. split; [done|]. rewrite Hname in Hc, Hf.
    exists sl. split; [done|]. split; [|done]. rewrite Hc, (cd_calls _ _ _ _ H2), <-!app_assoc. done.
  - apply wp_ret. split; [done|]. exists p. split; [done|]. split; [done|].
    rewrite (proj2 (Z.eqb_neq _ _) Hpid). by destruct H2.
Qed.
End proofs.

(** ** Runs *)

Module PtyExample.
(** Linux with descriptors as the theorems need them. *)
Definition kernel : Kernel := fun h c a =>
  @may linux h c a &&
  match c with
  | Openpt => (a_ret a <? 0) || ((3 <=? a_ret a) && bool_decide (files h !! a_ret a = None))
  | Open _ _ => (a_ret a <? 0) || bool_decide (files h !! a_ret a = None)
  | _ => true
  end.
#[local] Existing Instance kernel.

Lemma kernel_linux c a : allowed c a -> @allowed linux c a.
Proof. intros [h Ha]. apply andb_prop in Ha as [Ha _]. by exists h. Qed.

Lemma kernel_read : posix_read.
Proof. intros fd n a Ha%kernel_linux. by apply (linux_read fd n). Qed.

Lemma kernel_write : posix_write.
Proof. intros fd d a Ha%kernel_linux. by apply (linux_write fd d). Qed.

Lemma kernel_openpt a : allowed Openpt a -> a_ret a < 0 \/ 3 <= a_ret a.
Proof. intros [h Ha]. apply andb_prop in Ha as [_ Ha]. lia. Qed.

Lemma kernel_fresh : fresh_descriptors.
Proof.
  intros h c a Hc Ha. apply andb_prop in Ha as [_ Ha]. destruct c; try done; apply orb_prop in Ha as [Ha|Ha]; try (left; lia); right.
  - by apply bool_decide_eq_true in Ha.
  - apply andb_prop in Ha as [_ Ha]. by apply bool_decide_eq_true in Ha.
Qed.

Definition text_of (t : bytes) : answer := Ans (Zlen t) 0 t (Addr 0 0) [] [] 0 no_stat.
Definition failed_with (e : Z) : answer := Ans (-1) e [] (Addr 0 0) [] [] 0 no_stat.
(** No terminal, no option, and the master is descriptor 3. *)
Definition opened : list answer :=
  [number 0; number (-1); number 3; number 0; number 0; Ans 0 0 (B "/dev/pts/4") (Addr 0 0) [] [] 0 no_stat; number 77].
Definition run (l : list answer) : outcome (proc Z) unit :=
  pty_main (fun _ => []) [NUL] (replicate 20 NUL) [B "ls"] (Proc (opened ++ l) [] 0 0).
End PtyExample.

(** The child writes to the master in two pieces what it has read, then it stops its parent. *)
Example pty_child_run : match PtyExample.run [number 0; PtyExample.text_of (B "exit"); number 3; number 1; number 0; number 55; number 0] with
  | Exit code s => code = 0 /\ bytes_written 3 (history s) = B "exit" /\ kills (history s) = [(55, SIGTERM)]
  | _ => False
  end.
Proof. vm_compute. auto. Qed.

(** The parent stops its child when the slave has been closed. *)
Example pty_parent_run : match PtyExample.run [number 78; number 0; PtyExample.text_of (B "file"); number 4; PtyExample.failed_with 5; number 0] with
  | Exit code s => code = 0 /\ bytes_written 1 (history s) = B "file" /\ kills (history s) = [(78, SIGTERM)]
  | _ => False
  end.
Proof. vm_compute. auto. Qed.

Lemma pty_relays_witness :
  wp (pty_main (H := PtyExample.kernel) (fun _ => []) [NUL] (replicate 20 NUL) [B "ls"]) (fun _ _ => False)
    (fun code s' => code ∈ [WAITING; 0; 1; REPLACED] /\ relayed code (history s'))
    (Proc (PtyExample.opened ++ [number 0]) [] 0 0).
Proof.
  apply pty_relays.
  - exact PtyExample.kernel_read.
  - exact PtyExample.kernel_write.
  - exact PtyExample.kernel_openpt.
  - left.
Defined.

Lemma pty_fork_streams_witness :
  wp (pty_fork (H := PtyExample.kernel) (fun _ => []) [NUL] (Some [NUL]) NAMESZ (Some [1]) None)
    (fun '(pid, m, slave_name) s' => 0 <= m /\ exists p,
       Called (Ptsname m) p ∈ history s' /\
       let name := take 19 (cstr (a_data p)) in
       slave_name = Some (cut_name name NAMESZ) /\
       if pid =? 0 then exists sl, 0 <= sl /\
         calls (history s') = calls [] ++ opening m ++ slave_calls m sl name (Some [1]) None /\
         files (history s') = streams (Path name) (files [])
       else calls (history s') = calls [] ++ opening m /\
         files (history s') = <[m := Master]> (files []))
    (fun code _ => code = WAITING \/ code = 1)
    (Proc (map number [3; 0; 0; 0; 0; 0; 0; 0; 0; 0; 1; 2; 0]) [] 0 0).
Proof.
  apply (pty_fork_streams (H := PtyExample.kernel) (fun _ => []) PtyExample.kernel_fresh [NUL] (Some [NUL]) NAMESZ (Some [1]) None).
  - left.
  - reflexivity.
Defined.

(** A child whose standard streams were closed gets the slave as descriptor 0. *)
Example pty_fork_child : match pty_fork (H := PtyExample.kernel) (fun _ => []) [NUL] None NAMESZ (Some [1]) None
    (Proc (map number [3; 0; 0; 0; 0; 0; 0; 0; 0; 0; 1; 2]) [] 0 0) with
  | Ret (pid, m, _) s => pid = 0 /\ m = 3 /\ map (fun fd => files (history s) !! fd) [0; 1; 2; 3] = [Some (Path []); Some (Path []); Some (Path []); None]
  | _ => False
  end.
Proof. vm_compute. auto. Qed.
