(* ===== verification/Ruptime.v ===== *)
(** Ruptime: the uptime service of apue: 16.4connect_retry.c and 16.4initserver.c, the
    servers 16.5.1ruptime_tcp_server_popen.c, 16.5.1ruptime_tcp_server_fork.c and
    16.5.2ruptime_udp_server.c, and the clients 16.5.1ruptime_tcp_client.c and
    16.5.2ruptime_udp_client.c. The programs have no variables of their own. A null
    pointer is a negative answer, and an address in the list of [getaddrinfo] a
    family with an address and the port of the service. [set_cloexec] belongs to the
    library of the book. *)
From stdpp Require Import list strings.
From S2P Require Import Prelude Arrays Bytes Sys ErrorLog FdPass.

Definition MAXSLEEP : Z := 128.
Definition SOCK_STREAM : Z := 1.
Definition SOCK_DGRAM : Z := 2.
Definition SOCK_SEQPACKET : Z := 5.
Definition SIGALRM : Z := 14.
(** BUFLEN, QLEN, HOST_NAME_MAX, TIMEOUT. *)
Definition BUFLEN : Z := 128.
Definition QLEN : Z := 10.
Definition HOST_NAME_MAX : Z := 256.
Definition TIMEOUT : Z := 20.
Definition UPTIME : bytes := B "/usr/bin/uptime".

Record addrinfo := Info { ai_family : Z; ai_addr : sockaddr }.
(** The list that [getaddrinfo] stores. *)
Definition ailist (a : answer) : list addrinfo :=
  zip_with (fun family ip => Info family (Addr ip (a_num a))) (a_rd a) (a_wr a).

Section ruptime.
Context `{Kernel} (strerror gai_strerror : Z -> bytes).
Notation net := (M (proc unit)).

(** ** 16.4 *)

Definition connect_retry (domain type protocol : Z) (addr : sockaddr) : net Z :=
  loop 9 (fun numsec =>
    if numsec <=? MAXSLEEP then
      fd <- sysret (SocketIn domain type protocol) ;;
      if fd <? 0 then ret (inr (-1))
      else
        r <- sysret (Connect fd addr) ;;
        if r =? 0 then ret (inr fd)
        else
          sys_ (Close fd) ;;
          (when numsec <=? MAXSLEEP / 2 do sys_ (Sleep numsec)) ;;
          numsec <- int32 (Z.shiftl numsec 1) ;;
          ret (inl numsec)
    else ret (inr (-1))) 1.

(** The end of [initserver] after an error. *)
Definition abandon (fd : Z) : net Z :=
  err <- gets errno ;; sys_ (Close fd) ;; set_errno err ;; ret (-1).

Definition initserver (type : Z) (addr : addrinfo) (qlen : Z) : net Z :=
  fd <- sysret (SocketIn (ai_family addr) type 0) ;;
  if fd <? 0 then ret (-1)
  else
    r <- sysret (Setsockopt fd) ;;
    if r <? 0 then abandon fd
    else
      r <- sysret (Bind fd (ai_addr addr)) ;;
      if r <? 0 then abandon fd
      else if (type =? SOCK_STREAM) || (type =? SOCK_SEQPACKET) then
        r <- sysret (Listen fd qlen) ;;
        if r <? 0 then abandon fd else ret fd
      else ret fd.

(** ** 16.5: the servers *)

Definition log_error (what : bytes) : net unit :=
  e <- gets errno ;; syslog LOG_ERR (B "ruptimed: " ++ what ++ B " error: " ++ strerror e).

(** "error: %s" in a buffer of [BUFLEN] bytes. *)
Definition error_line : net bytes :=
  e <- gets errno ;;
  let text := B "error: " ++ strerror e ++ [NEWLINE] in
  guard_ok (Zlen text <? BUFLEN) ;; ret text.

(** [accept], without which the server ends. *)
Definition accept_client (sockfd : Z) : net Z :=
  clfd <- sysret (Accept sockfd) ;;
  if clfd <? 0 then
    log_error (B "accept") ;; e <- gets errno ;; printf (B "accept error: " ++ strerror e ++ [NEWLINE]) ;; exit_ 1
  else ret clfd.

(** The lines of the command, until [fgets] gives none. *)
Definition send_lines (clfd fp : Z) : net unit :=
  forever (fun _ =>
    a <- sys (Fgets_from fp BUFLEN) ;;
    if a_ret a <? 0 then ret (inr tt)
    else sys_ (Send clfd (cstr (a_data a))) ;; ret (inl tt)) tt.

Definition serve_popen {A} (sockfd : Z) : net A :=
  sys_ (Set_cloexec sockfd) ;;
  printf (B "in serve" ++ [NEWLINE]) ;;
  forever (fun _ =>
    clfd <- accept_client sockfd ;;
    sys_ (Set_cloexec clfd) ;;
    fp <- sysret (Popen UPTIME (B "r")) ;;
    (if fp <? 0 then buf <- error_line ;; sys_ (Send clfd buf)
     else
       printf (B "popen,/usr/bin/uptime" ++ [NEWLINE]) ;;
       send_lines clfd fp ;;
       sys_ (Pclose fp)) ;;
    sys_ (Close clfd) ;;
    ret (inl tt)) tt.

(** The child of the server that forks; it comes back when [execl] fails. *)
Definition become_uptime (clfd : Z) : net unit :=
  r <- sysret (Dup2 clfd STDOUT_FILENO) ;;
  failed <- (if negb (r =? STDOUT_FILENO) then ret true
             else r <- sysret (Dup2 clfd STDERR_FILENO) ;; ret (negb (r =? STDERR_FILENO))) ;;
  (when failed do (syslog LOG_ERR (B "ruptimed: unexpected error") ;; exit_ 1)) ;;
  sys_ (Close clfd) ;;
  r <- sysret (Execl UPTIME (B "uptime")) ;;
  if r <? 0 then
    e <- gets errno ;; syslog LOG_ERR (B "ruptimed: unexpected return from exec: " ++ strerror e)
  else exit_ REPLACED.

Definition serve_fork {A} (sockfd : Z) : net A :=
  sys_ (Set_cloexec sockfd) ;;
  printf (B "in serve" ++ [NEWLINE]) ;;
  forever (fun _ =>
    clfd <- accept_client sockfd ;;
    pid <- sysret Fork ;;
    (if pid <? 0 then log_error (B "fork") ;; exit_ 1
     else if pid =? 0 then become_uptime clfd
     else sys_ (Close clfd) ;; sys_ (Waitpid pid)) ;;
    ret (inl tt)) tt.

(** With one datagram for each request. *)
Definition serve_udp {A} (sockfd : Z) : net A :=
  sys_ (Set_cloexec sockfd) ;;
  forever (fun _ =>
    a <- sys (Recvfrom sockfd BUFLEN) ;;
    if a_ret a <? 0 then log_error (B "recvfrom") ;; exit_ 1
    else
      fp <- sysret (Popen UPTIME (B "r")) ;;
      (if fp <? 0 then buf <- error_line ;; sys_ (Send_to sockfd buf (a_addr a))
       else
         l <- sys (Fgets_from fp BUFLEN) ;;
         (when negb (a_ret l <? 0) do sys_ (Send_to sockfd (cstr (a_data l)) (a_addr a))) ;;
         sys_ (Pclose fp)) ;;
      ret (inl tt)) tt.

(** The string that [gethostname] has left in [n] bytes; it must end there. *)
Definition own_name (n : Z) : net bytes :=
  a <- sys (Gethostname n) ;;
  if a_ret a <? 0 then err_sys strerror (B "gethostname error") else ret (a_data a).

Definition name_length : net Z :=
  n <- sysret Sysconf ;; ret (if n <? 0 then HOST_NAME_MAX else n).

(** The first address on which a server can be made. *)
Fixpoint first_server (tcp : bool) (serve : Z -> net unit) (type qlen : Z) (l : list addrinfo) : net unit :=
  match l with
  | [] => ret tt
  | ai :: l =>
      (when tcp do printf (B "before initserver" ++ [NEWLINE])) ;;
      sockfd <- initserver type ai qlen ;;
      if 0 <=? sockfd then serve sockfd ;; exit_ 0 else first_server tcp serve type qlen l
  end.

(** The three programs; [tcp] says which of the texts are printed. *)
Definition ruptimed (tcp : bool) (serve : Z -> net unit) (type qlen argc : Z) : net unit :=
  (when negb (argc =? 1) do err_quit strerror (B "usage: ruptimed")) ;;
  n <- name_length ;;
  host <- sysret (Malloc n) ;;
  (when host =? 0 do err_sys strerror (B "malloc error")) ;;
  host <- own_name n ;;
  daemonize strerror (B "ruptimed") ;;
  guard_ok (bool_decide (NUL ∈ host)) ;;
  let host := cstr host in
  (when tcp do printf (B "The current host is " ++ host ++ [NEWLINE])) ;;
  a <- sys (Getaddrinfo host (B "ruptime") type) ;;
  let err := a_ret a in
  (when negb (err =? 0) do
    (syslog LOG_ERR (B "ruptimed: getaddrinfo error: " ++ gai_strerror err) ;;
     (when tcp do printf (B "ruptimed: getadddrinfo error: " ++ gai_strerror err ++ [NEWLINE])) ;;
     exit_ 1)) ;;
  first_server tcp serve type qlen (ailist a) ;;
  exit_ 1.

Definition main_popen (argc : Z) : net unit := ruptimed true serve_popen SOCK_STREAM QLEN argc.
Definition main_fork (argc : Z) : net unit := ruptimed true serve_fork SOCK_STREAM QLEN argc.
Definition main_udp (argc : Z) : net unit := ruptimed false serve_udp SOCK_DGRAM 0 argc.

(** ** 16.5: the clients *)

Definition print_uptime (sockfd : Z) : net unit :=
  forever (fun _ =>
    a <- sys (Recv sockfd BUFLEN) ;;
    if 0 <? a_ret a then sys_ (Write STDOUT_FILENO (a_data a)) ;; ret (inl tt)
    else if a_ret a <? 0 then err_sys strerror (B "recv error")
    else ret (inr tt)) tt.

(** [argv] without the name of the program. *)
Definition host_argument (args : list bytes) : net bytes :=
  match args with
  | [host] => ret host
  | _ => err_quit strerror (B "usage: ruptime hostname")
  end.

Definition look_up (host : bytes) (type : Z) : net (list addrinfo) :=
  a <- sys (Getaddrinfo host (B "ruptime") type) ;;
  (when negb (a_ret a =? 0) do err_quit strerror (B "getaddrinfo error: " ++ gai_strerror (a_ret a))) ;;
  ret (ailist a).

Fixpoint try_connect (err : Z) (l : list addrinfo) : net Z :=
  match l with
  | [] => ret err
  | ai :: l =>
      sockfd <- connect_retry (ai_family ai) SOCK_STREAM 0 (ai_addr ai) ;;
      if sockfd <? 0 then err <- gets errno ;; try_connect err l
      else print_uptime sockfd ;; exit_ 0
  end.

Definition main_tcp_client (args : list bytes) : net unit :=
  host <- host_argument args ;;
  l <- look_up host SOCK_STREAM ;;
  err <- try_connect 0 l ;;
  err_exit strerror err (B "can't connect to " ++ host).

Definition print_reply (sockfd : Z) (ai : addrinfo) : net unit :=
  r <- sysret (Send_to sockfd [NUL] (ai_addr ai)) ;;
  (when r <? 0 do err_sys strerror (B "sendto error")) ;;
  sys_ (Alarm TIMEOUT) ;;
  a <- sys (Recvfrom sockfd BUFLEN) ;;
  (when a_ret a <? 0 do
    (e <- gets errno ;;
     (when negb (e =? EINTR) do sys_ (Alarm 0)) ;;
     err_sys strerror (B "recv error"))) ;;
  sys_ (Alarm 0) ;;
  sys_ (Write STDOUT_FILENO (a_data a)).

Fixpoint try_contact (err : Z) (l : list addrinfo) : net Z :=
  match l with
  | [] => ret err
  | ai :: l =>
      sockfd <- sysret (SocketIn (ai_family ai) SOCK_DGRAM 0) ;;
      if sockfd <? 0 then err <- gets errno ;; try_contact err l
      else print_reply sockfd ai ;; exit_ 0
  end.

Definition main_udp_client (args : list bytes) : net unit :=
  host <- host_argument args ;;
  r <- sysret (Sigaction SIGALRM) ;;
  (when r <? 0 do err_sys strerror (B "sigaction error")) ;;
  l <- look_up host SOCK_DGRAM ;;
  err <- try_contact 0 l ;;
  fputs_stderr (B "can't contact " ++ host ++ B ": " ++ strerror err ++ [NEWLINE]) ;;
  exit_ 1.
End ruptime.
