(* ===== verification/RuptimeProofs.v ===== *)
(** RuptimeProofs: how the programs of the uptime service make their connections,
    and what the client prints. *)
From stdpp Require Import sets list strings.
From S2P Require Import Prelude Arrays Bytes Sys ErrorLog FdPass Ruptime.

(** ** 16.4: connecting again and again *)

Section connect.
Context `{Kernel} (strerror : Z -> bytes).
Notation state := (proc unit).
Implicit Types s : state.
Context (domain type protocol : Z) (addr : sockaddr).

(** What is called in round [i], on the socket [fd], when the connection fails. *)
Definition attempt (i : nat) (fd : Z) : list call :=
  [SocketIn domain type protocol; Connect fd addr; Close fd] ++ if decide (i < 7)%nat then [Sleep (2 ^ Z.of_nat i)] else [].
Definition attempts (l : list Z) : list call := concat (imap attempt l).

Lemma attempts_snoc l fd : attempts (l ++ [fd]) = attempts l ++ attempt (length l) fd.
Proof. unfold attempts. rewrite imap_app, concat_app. simpl. by rewrite app_nil_r, Nat.add_0_r. Qed.

(** The seconds slept. *)
Definition slept (cs : list call) : Z :=
  foldr (fun c n => match c with Sleep k => k + n | _ => n end) 0 cs.

Lemma slept_app cs cs' : slept (cs ++ cs') = slept cs + slept cs'.
Proof. induction cs as [|c cs IH]; [done|]. simpl. destruct c; lia. Qed.

Lemma slept_attempts l : slept (attempts l) = 2 ^ Z.of_nat (length l `min` 7) - 1.
Proof.
  induction l as [|fd l IH] using rev_ind; [done|]. rewrite attempts_snoc, slept_app, IH, length_app. simpl.
  unfold attempt. destruct (decide (length l < 7)%nat).
  - rewrite Nat.min_l, Nat.min_l by lia. replace (Z.of_nat (length l + 1)) with (Z.of_nat (length l) + 1) by lia.
    rewrite Z.pow_add_r by lia. simpl. lia.
  - rewrite Nat.min_r, Nat.min_r by lia. simpl. lia.
Qed.

(** [cs] has been called since [s0]. *)
Definition since s0 (cs : list call) s : Prop := calls (history s) = calls (history s0) ++ cs.

Lemma wp_since s0 cs c (Q : answer -> state -> Prop) (X : Z -> state -> Prop) s : since s0 cs s ->
  (forall a s', Called c a ∈ history s' -> since s0 (cs ++ [c]) s' -> Q a s') -> (forall s', since s0 cs s' -> X WAITING s') ->
  wp (sys c) Q X s.
Proof.
  intros Hs HQ HX. unfold since in *. apply wp_sys; [intros a rest _ _; apply HQ; simpl; [set_solver|]|apply HX; simpl].
  - by rewrite calls_app, Hs, app_assoc.
  - by rewrite calls_app, Hs, app_nil_r.
Qed.

Lemma wp_since_ s0 cs c (Q : unit -> state -> Prop) (X : Z -> state -> Prop) s : since s0 cs s ->
  (forall s', since s0 (cs ++ [c]) s' -> Q tt s') -> (forall s', since s0 cs s' -> X WAITING s') -> wp (sys_ c) Q X s.
Proof. intros Hs HQ HX. eapply wp_bind, wp_since; [exact Hs| |done]. intros a s' _ Hs'. by apply wp_ret, HQ. Qed.

Lemma wp_sinceret s0 cs c (Q : Z -> state -> Prop) (X : Z -> state -> Prop) s : since s0 cs s ->
  (forall a s', Called c a ∈ history s' -> since s0 (cs ++ [c]) s' -> Q (a_ret a) s') -> (forall s', since s0 cs s' -> X WAITING s') ->
  wp (sysret c) Q X s.
Proof. intros Hs HQ HX. eapply wp_bind, wp_since; [exact Hs| |done]. intros a s' Ha Hs'. by apply wp_ret, HQ. Qed.

(** [connect_retry] ends, after at most eight attempts and 127 seconds of sleep:
    after the attempt of round i it closes the socket and sleeps for 2^i seconds,
    but not after the last. Either the connection of the socket that it returns was
    successful, or it returns -1, and then no socket could be had or the eighth
    attempt has failed; every other socket has been closed. *)
Theorem connect_retry_backs_off s0 :
  wp (connect_retry domain type protocol addr)
    (fun r s' => exists l, let n := length l in
       slept (attempts l) <= 127 /\ (n <= 8)%nat /\
       ((since s0 (attempts l ++ [SocketIn domain type protocol; Connect r addr]) s' /\ (n < 8)%nat /\ 0 <= r /\
         exists a, Called (Connect r addr) a ∈ history s' /\ a_ret a = 0) \/
        (r = -1 /\ since s0 (attempts l ++ if decide (n = 8)%nat then [] else [SocketIn domain type protocol]) s')))
    (fun code s' => code = WAITING /\ exists cs, since s0 cs s' /\ slept cs <= 127) s0.
Proof.
  set (X := fun code s' => _ /\ _).
  assert (Hslept : forall l, slept (attempts l) <= 127).
  { intros l. rewrite slept_attempts. pose proof (Z.pow_le_mono_r 2 (Z.of_nat (length l `min` 7)) 7). lia. }
  assert (HX : forall l cs s, since s0 (attempts l ++ cs) s -> slept cs = 0 -> X WAITING s).
  { intros l cs s Hs Hcs. split; [done|]. eexists. split; [exact Hs|]. rewrite slept_app, Hcs. specialize (Hslept l). lia. }
  assert (HX0 : forall l s, since s0 (attempts l) s -> X WAITING s).
  { intros l s Hs. apply (HX l []); [by rewrite app_nil_r|done]. }
  apply (wp_loop (fun numsec s => exists l, (length l <= 8)%nat /\ numsec = 2 ^ Z.of_nat (length l) /\ since s0 (attempts l) s)
    (fun numsec _ => Z.to_nat (8 - Z.log2 numsec))).
  { exists []. split; [simpl; lia|]. split; [done|]. unfold since, attempts. simpl. by rewrite app_nil_r. }
  { simpl. lia. }
  intros numsec s1 (l & Hl & -> & H1). destruct (Z.leb_spec (2 ^ Z.of_nat (length l)) MAXSLEEP) as [Hle|Hgt].
  - assert (length l < 8)%nat as Hlt.
    { change MAXSLEEP with (2 ^ 7) in Hle. apply Z.pow_le_mono_r_iff in Hle; lia. }
    apply wp_bind. eapply wp_sinceret; [exact H1| |apply HX0]. intros a s2 _ H2. destruct (Z.ltb_spec (a_ret a) 0) as [Hneg|Hfd].
    { apply wp_ret. exists l. split; [done|]. split; [lia|]. right. split; [done|]. rewrite decide_False by lia. done. }
    apply wp_bind. eapply wp_sinceret; [exact H2| |by intros s' Hs'; eapply HX]. intros b s3 Hb H3. rewrite <-app_assoc in H3.
    destruct (Z.eqb_spec (a_ret b) 0) as [Hz|Hnz].
    { apply wp_ret. exists l. split; [done|]. split; [lia|]. left. split; [done|]. split; [done|]. split; [done|]. by exists b. }
    apply wp_bind. eapply wp_since_; [exact H3| |by intros s' Hs'; eapply HX]. intros s4 H4. rewrite <-app_assoc in H4.
    apply wp_bind. eapply (wp_conseq _ (fun _ s5 => since s0 (attempts (l ++ [a_ret a])) s5)).
    { rewrite attempts_snoc. unfold attempt. change (MAXSLEEP / 2) with (2 ^ 6).
      destruct (Z.leb_spec (2 ^ Z.of_nat (length l)) (2 ^ 6)) as [H6|H6].
      - apply Z.pow_le_mono_r_iff in H6; [|lia..]. rewrite decide_True by lia.
        eapply wp_since_; [exact H4| |by intros s' Hs'; eapply HX]. intros s5 H5. by rewrite <-app_assoc in H5.
      - apply Z.pow_lt_mono_r_iff in H6; [|lia..]. rewrite decide_False by lia. by apply wp_ret. }
    intros _ s5 H5. assert (Z.shiftl (2 ^ Z.of_nat (length l)) 1 = 2 ^ Z.of_nat (length (l ++ [a_ret a]))) as Hsh.
    { rewrite Z.shiftl_mul_pow2, length_app by lia. simpl. rewrite Nat2Z.inj_add, Z.pow_add_r by lia. done. }
    apply wp_bind, wp_int32; [|apply wp_ret]; rewrite Hsh.
    { pose proof (Z.pow_le_mono_r 2 (Z.of_nat (length (l ++ [a_ret a]))) 8). rewrite length_app in *. simpl in *.
      pose proof (Z.pow_pos_nonneg 2 (Z.of_nat (length l + 1))). unfold INT_MIN, INT_MAX. lia. }
    split; [exists (l ++ [a_ret a]); split; [rewrite length_app; simpl; lia|done]|].
    rewrite !Z.log2_pow2, length_app by lia. simpl. lia.
  - assert (length l = 8)%nat as Hl8.
    { change MAXSLEEP with (2 ^ 7) in Hgt. apply Z.pow_lt_mono_r_iff in Hgt; lia. }
    apply wp_ret. exists l. split; [done|]. split; [done|]. right. split; [done|]. rewrite decide_True by done. by rewrite app_nil_r.
Qed.
End connect.

(** ** 16.4: a socket to listen on *)

Section initserver.
Context `{Kernel}.
Implicit Types s : proc unit.

(** The calls on a socket that works. *)
Definition set_up (type : Z) (addr : addrinfo) (qlen fd : Z) : list call :=
  [SocketIn (ai_family addr) type 0; Setsockopt fd; Bind fd (ai_addr addr)] ++
  if (type =? SOCK_STREAM) || (type =? SOCK_SEQPACKET) then [Listen fd qlen] else [].

(** Either there is no socket; or one of the calls on it has failed, it has been
    closed, and [errno] is that of the call; or all calls have been successful. *)
Definition set_up_result type addr qlen s0 (r : Z) s : Prop :=
  (r = -1 /\ since s0 [SocketIn (ai_family addr) type 0] s) \/
  (r = -1 /\ exists fd c a cs, 0 <= fd /\ Called c a ∈ history s /\ a_ret a < 0 /\ errno s = a_errno a /\
     (cs ++ [c]) `prefix_of` set_up type addr qlen fd /\ since s0 (cs ++ [c; Close fd]) s) \/
  (0 <= r /\ since s0 (set_up type addr qlen r) s).

Lemma wp_since_call s0 cs c (Q : Z -> proc unit -> Prop) s : since s0 cs s ->
  (forall a s', Called c a ∈ history s' -> since s0 (cs ++ [c]) s' -> (a_ret a < 0 -> errno s' = a_errno a) -> Q (a_ret a) s') ->
  wp (sysret c) Q (fun code _ => code = WAITING) s.
Proof.
  intros Hs HQ. apply wp_bind, wp_sys; [|done]. intros a rest _ _. apply wp_ret, HQ; [simpl; set_solver| |].
  - unfold since in *. simpl. by rewrite calls_app, Hs, app_assoc.
  - intros Ha. simpl. by rewrite (proj2 (Z.ltb_lt _ _) Ha).
Qed.

Lemma wp_abandon type addr qlen fd c a s0 cs (Q : Z -> proc unit -> Prop) s : 0 <= fd -> since s0 (cs ++ [c]) s ->
  Called c a ∈ history s -> a_ret a < 0 -> errno s = a_errno a -> (cs ++ [c]) `prefix_of` set_up type addr qlen fd ->
  (forall s', set_up_result type addr qlen s0 (-1) s' -> Q (-1) s') -> wp (abandon fd) Q (fun code _ => code = WAITING) s.
Proof.
  intros Hfd Hs Hc Ha He Hp HQ. apply wp_bind, wp_gets. apply wp_bind, wp_bind, wp_sys; [|done]. intros b rest _ _.
  apply wp_ret, wp_bind, wp_modify, wp_ret, HQ. right. left. split; [done|]. exists fd, c, a, cs. split; [done|].
  split; [simpl; set_solver|]. split; [done|]. split; [done|]. split; [done|]. unfold since in *. simpl.
  by rewrite calls_app, Hs, <-!app_assoc.
Qed.

Lemma wp_initserver type addr qlen s0 :
  wp (initserver type addr qlen) (set_up_result type addr qlen s0) (fun code _ => code = WAITING) s0.
Proof.
  apply wp_bind, (wp_since_call s0 []); [unfold since; by rewrite app_nil_r|]. intros a s1 _ H1 _.
  destruct (Z.ltb_spec (a_ret a) 0) as [|Hfd]; [apply wp_ret; left; done|].
  apply wp_bind. eapply wp_since_call; [exact H1|]. intros b s2 Hb H2 E2. destruct (Z.ltb_spec (a_ret b) 0) as [Hneg|_].
  { eapply wp_abandon; [done|exact H2|done|done|by apply E2| |by intros]. by eexists. }
  apply wp_bind. eapply wp_since_call; [exact H2|]. intros c s3 Hc H3 E3. destruct (Z.ltb_spec (a_ret c) 0) as [Hneg|_].
  { eapply wp_abandon; [done|exact H3|done|done|by apply E3| |by intros]. by eexists. }
  destruct (_ || _) eqn:Et.
  - apply wp_bind. eapply wp_since_call; [exact H3|]. intros d s4 Hd H4 E4. destruct (Z.ltb_spec (a_ret d) 0) as [Hneg|_].
    + eapply wp_abandon; [done|exact H4|done|done|by apply E4| |by intros]. unfold set_up. rewrite Et. by eexists [].
    + apply wp_ret. right. right. split; [done|]. unfold set_up. by rewrite Et.
  - apply wp_ret. right. right. split; [done|]. unfold set_up. by rewrite Et.
Qed.
End initserver.

(** ** 16.5.1: the client *)

Section client.
Context `{Kernel} (strerror gai_strerror : Z -> bytes).
Notation state := (proc unit).
Implicit Types s : state.

Definition recv_by (e : event) : bytes :=
  match e with Called (Recv _ _) a => if 0 <? a_ret a then a_data a else [] | _ => [] end.
Definition offered_by (e : event) : bytes :=
  match e with Called (Write fd data) _ => if fd =? STDOUT_FILENO then data else [] | _ => [] end.
(** What was received, and what was given to [write] for the standard output. *)
Definition received (h : list event) : bytes := concat (map recv_by h).
Definition offered (h : list event) : bytes := concat (map offered_by h).

Definition no_data (e : event) : Prop := match e with Called (Recv _ _) _ | Called (Write _ _) _ => False | _ => True end.
Notation quiet := (grows no_data).

Lemma received_app h h' : received (h ++ h') = received h ++ received h'.
Proof. unfold received. by rewrite map_app, concat_app. Qed.
Lemma offered_app h h' : offered (h ++ h') = offered h ++ offered h'.
Proof. unfold offered. by rewrite map_app, concat_app. Qed.

(** The connection [fd] was made to an address for the host. *)
Definition connected_to (h : list event) (host : bytes) (fd : Z) : Prop := exists a ai b,
  Called (Getaddrinfo host (B "ruptime") SOCK_STREAM) a ∈ h /\ ai ∈ ailist a /\
  Called (Connect fd (ai_addr ai)) b ∈ h /\ a_ret b = 0.

Lemma connected_app h h' host fd : connected_to h host fd -> connected_to (h ++ h') host fd.
Proof.
  intros (a & ai & b & Ha & Hai & Hb & Hz). exists a, ai, b. rewrite !elem_of_app. split; [by left|]. split; [done|].
  split; [by left|done].
Qed.

(** Everything was received from the host, and [pend] is not yet written. *)
Record relays (host pend : bytes) (h : list event) : Prop := {
  rl_data : received h = offered h ++ pend;
  rl_host : forall fd n a, Called (Recv fd n) a ∈ h -> connected_to h host fd;
}.

Lemma relays_snoc host pend pend' h e : relays host pend h -> pend ++ recv_by e = offered_by e ++ pend' ->
  (forall fd n a, e = Called (Recv fd n) a -> connected_to h host fd) -> relays host pend' (h ++ [e]).
Proof.
  intros [D F] He Hh. split.
  - rewrite received_app, offered_app, D. unfold received, offered. simpl. by rewrite !app_nil_r, <-!app_assoc, He.
  - intros fd n a [Hin|Hin%list_elem_of_singleton]%elem_of_app; apply connected_app; [by eapply F|by eapply Hh].
Qed.

Lemma relays_quiet host pend s0 s : relays host pend (history s0) -> quiet s0 s -> relays host pend (history s).
Proof.
  intros Hr [(h & -> & Hh) _]. induction h as [|e h IH] using rev_ind; [by rewrite app_nil_r|].
  apply Forall_app in Hh as [Hh [He _]%Forall_cons]. rewrite app_assoc. apply (relays_snoc host pend); [by apply IH| |].
  - destruct e as [[] a|c| | | | |]; try done; simpl; by rewrite ?app_nil_r.
  - by intros fd n a ->.
Qed.

Section relay.
Context (X : Z -> state -> Prop) (host : bytes).
Hypothesis HXw : forall pend s, relays host pend (history s) -> X WAITING s.
Hypothesis HX1 : forall s, relays host [] (history s) -> X 1 s.

Lemma wp_quietly c s0 (Q : answer -> state -> Prop) s : no_data (Called c (number 0)) -> relays host [] (history s0) -> quiet s0 s ->
  (forall a s', Called c a ∈ history s' -> quiet s0 s' -> quiet s s' -> Q a s') -> wp (sys c) Q X s.
Proof.
  intros Hc H0 Hs HQ. apply (wp_sys_grows no_data s); [done|by destruct c|done| |].
  - intros a s' _ Hs' _ Hin _. apply HQ; [done|by transitivity s|done].
  - intros s' Hs'. apply (HXw []). eapply relays_quiet; [exact H0|by transitivity s].
Qed.

Lemma wp_client_fails {A} t (Q : A -> state -> Prop) s : relays host [] (history s) -> wp (err_sys strerror t) Q X s.
Proof.
  intros Hs. unfold err_sys. apply wp_bind, wp_gets. apply wp_bind, wp_err_doit. intros b. apply wp_exit, HX1.
  simpl. by eapply relays_snoc.
Qed.

Lemma wp_client_quits {A} t (Q : A -> state -> Prop) s : relays host [] (history s) -> wp (err_quit strerror t) Q X s.
Proof.
  intros Hs. unfold err_quit. apply wp_bind, wp_err_doit. intros b. apply wp_exit, HX1. simpl. by eapply relays_snoc.
Qed.

Lemma wp_print_uptime fd (Q : unit -> state -> Prop) s : connected_to (history s) host fd -> relays host [] (history s) ->
  (forall s' a, relays host [] (history s') -> Called (Recv fd BUFLEN) a ∈ history s' -> a_ret a = 0 -> Q tt s') ->
  wp (print_uptime strerror fd) Q X s.
Proof.
  intros Hf Hs HQ. apply (wp_forever (fun _ s' => connected_to (history s') host fd /\ relays host [] (history s'))); [done|].
  clear s Hf Hs. intros _ s [Hf Hs].
  assert (Hrecv : forall a, relays host (if 0 <? a_ret a then a_data a else []) (history s ++ [Called (Recv fd BUFLEN) a])).
  { intros a. apply (relays_snoc host []); [done|simpl; by rewrite ?app_nil_r|]. intros ??? [=-> _ _]. done. }
  apply wp_bind, wp_sys; [|apply (HXw []); simpl; by eapply relays_snoc]. intros a rest Es Ha. specialize (Hrecv a).
  destruct (Z.ltb_spec 0 (a_ret a)).
  - apply wp_bind, wp_bind, wp_sys.
    + intros b rest' Es' _. apply wp_ret, wp_ret. split; [|simpl in *; rewrite Es, Es'; simpl; lia]. split.
      * by do 2 apply connected_app.
      * simpl. apply (relays_snoc host (a_data a)); [done|by simpl; rewrite app_nil_r|done].
    + apply (HXw (a_data a)). simpl. eapply relays_snoc; [done|by simpl; rewrite app_nil_r|done].
  - destruct (Z.ltb_spec (a_ret a) 0); [by apply wp_client_fails|]. apply wp_ret, (HQ _ a); [done|simpl; set_solver|lia].
Qed.

(** [connect_retry] moves no data. *)
Lemma wp_connect_retry domain type protocol addr (Q : Z -> state -> Prop) s0 : relays host [] (history s0) ->
  (forall r s', quiet s0 s' -> (0 <= r -> exists b, Called (Connect r addr) b ∈ history s' /\ a_ret b = 0) -> Q r s') ->
  wp (connect_retry domain type protocol addr) Q X s0.
Proof.
  intros H0 HQ.
  assert (forall s' r, quiet s0 s' -> r = -1 -> Q r s') as Hfail by (intros s' r Hs' ->; apply HQ; [done|lia]).
  apply (wp_loop (fun numsec s => (exists i, 0 <= i <= 8 /\ numsec = 2 ^ i) /\ quiet s0 s) (fun numsec _ => Z.to_nat (8 - Z.log2 numsec))).
  { split; [exists 0; lia|done]. }
  { simpl. lia. }
  intros numsec s [(i & Hi & ->) Hs]. destruct (Z.leb_spec (2 ^ i) MAXSLEEP) as [Hle|]; [|by apply wp_ret, Hfail].
  change MAXSLEEP with (2 ^ 7) in Hle. apply Z.pow_le_mono_r_iff in Hle; [|lia..].
  apply wp_bind. eapply wp_bind, wp_quietly; [done|exact H0|done|]. intros a s1 _ Q1 _. apply wp_ret.
  destruct (a_ret a <? 0); [by apply wp_ret, Hfail|].
  apply wp_bind. eapply wp_bind, wp_quietly; [done|exact H0|done|]. intros b s2 Hb Q2 _. apply wp_ret.
  destruct (Z.eqb_spec (a_ret b) 0); [apply wp_ret, HQ; [done|]; intros _; by exists b|].
  apply wp_bind. eapply wp_bind, wp_quietly; [done|exact H0|done|]. intros c s3 _ Q3 _. apply wp_ret.
  apply wp_bind, (wp_conseq _ (fun _ s' => quiet s0 s')).
  { destruct (_ <=? _); [|by apply wp_ret]. eapply wp_bind, wp_quietly; [done|exact H0|done|]. intros d s4 _ Q4 _. by apply wp_ret. }
  intros _ s4 Q4. assert (Z.shiftl (2 ^ i) 1 = 2 ^ (i + 1)) as Hsh.
  { rewrite Z.shiftl_mul_pow2, Z.pow_add_r by lia. done. }
  apply wp_bind, wp_int32; rewrite Hsh.
  { pose proof (Z.pow_le_mono_r 2 (i + 1) 8). pose proof (Z.pow_pos_nonneg 2 (i + 1)). unfold INT_MIN, INT_MAX. lia. }
  apply wp_ret. split; [split; [exists (i + 1); lia|done]|]. rewrite !Z.log2_pow2 by lia. lia.
Qed.

(** The addresses are those that [getaddrinfo] has given. *)
Lemma wp_try_connect err l (Q : Z -> state -> Prop) s :
  (exists a, Called (Getaddrinfo host (B "ruptime") SOCK_STREAM) a ∈ history s /\ l `suffix_of` ailist a) ->
  relays host [] (history s) ->
  (forall fd s' a, relays host [] (history s') -> Called (Recv fd BUFLEN) a ∈ history s' -> a_ret a = 0 -> X 0 s') ->
  (forall err s', relays host [] (history s') -> Q err s') ->
  wp (try_connect strerror err l) Q X s.
Proof.
  intros Ha Hs H0 HQ. revert err s Ha Hs. induction l as [|ai l IH]; intros err s (a & Ha & [pre Hl]) Hs; [by apply wp_ret, HQ|].
  apply wp_bind, wp_connect_retry; [done|]. intros fd s1 Q1 Hc. pose proof (relays_quiet _ _ _ _ Hs Q1) as H1.
  assert (Called (Getaddrinfo host (B "ruptime") SOCK_STREAM) a ∈ history s1) as Ha1 by (by eapply grows_elem).
  destruct (Z.ltb_spec fd 0).
  - apply wp_bind, wp_gets, IH; [|done]. exists a. split; [done|]. exists (pre ++ [ai]). by rewrite Hl, <-app_assoc.
  - destruct Hc as (b & Hb & Hz); [done|]. apply wp_bind, wp_print_uptime; [|done|].
    { exists a, ai, b. split; [done|]. split; [rewrite Hl; set_solver|done]. }
    intros s2 c R2 Hin Hc. apply wp_exit. by eapply H0.
Qed.
End relay.

(** The client: at every moment of every run, what it has received came over a
    connection to an address of the host, and all of it has been given to [write], in
    order and unchanged, but for the last block while that [write] is waited for. It
    ends with status 0 only after such a connection has reported its end; with status
    1, when no connection could be made or one has failed, and then too nothing that
    was received is held back. *)
Theorem tcp_client_prints args script err :
  wp (main_tcp_client strerror gai_strerror args) (fun _ _ => False)
    (fun code s' => exists pend, received (history s') = offered (history s') ++ pend /\
       (code = WAITING \/ (code = 0 \/ code = 1) /\ pend = []) /\
       (received (history s') <> [] \/ code = 0 -> exists host, args = [host] /\
          (forall fd n a, Called (Recv fd n) a ∈ history s' -> connected_to (history s') host fd) /\
          (code = 0 -> exists fd n a, Called (Recv fd n) a ∈ history s' /\ a_ret a = 0)))
    (Proc script [] err tt).
Proof.
  match goal with |- wp _ _ ?Y _ => set (X := Y) end.
  assert (Hquit : forall Q : bytes -> state -> Prop, wp (err_quit strerror (B "usage: ruptime hostname")) Q X (Proc script [] err tt)).
  { intros Q. unfold err_quit. apply wp_bind, wp_err_doit. intros b. apply wp_exit. exists [].
    split; [done|]. split; [right; by split; [right|]|]. intros [|]; done. }
  destruct args as [|host [|]]; [apply wp_bind, Hquit| |apply wp_bind, Hquit]. apply wp_bind, wp_ret.
  assert (H0 : relays host [] []) by (split; [done|by intros ??? ?%elem_of_nil]).
  assert (HXw : forall pend s, relays host pend (history s) -> X WAITING s).
  { intros pend s [Hd Hh]. exists pend. split; [done|]. split; [by left|]. intros _. by exists host. }
  assert (HX1 : forall s, relays host [] (history s) -> X 1 s).
  { intros s [Hd Hh]. exists []. split; [done|]. split; [right; by split; [right|]|]. intros _. by exists host. }
  set (s0 := Proc script [] err tt).
  apply wp_bind. unfold look_up. apply wp_bind, (wp_quietly X host HXw _ s0); [done|done|done|].
  intros a s1 Ha Q1 _. pose proof (relays_quiet host [] s0 s1 H0 Q1) as H1. apply wp_bind.
  destruct (negb _); [by apply (wp_client_quits X host HX1)|]. apply wp_ret, wp_ret.
  apply wp_bind, (wp_try_connect X host HXw HX1); [exists a; split; [done|by exists []]|done| |].
  - intros fd s2 b [Hd Hh] Hb Hz. exists []. split; [done|]. split; [right; by split; [left|]|]. intros _. exists host.
    split; [done|]. split; [done|]. intros _. by eexists _, _, _.
  - intros e s2 Hs2. unfold err_exit. apply wp_bind, wp_err_doit. intros b. apply wp_exit, HX1.
    simpl. by eapply relays_snoc.
Qed.
End client.

(** ** Runs *)

Module RuptimeExample.
#[local] Existing Instance linux.
Definition fails (e : Z) : answer := Ans (-1) e [] (Addr 0 0) [] [] 0 no_stat.
Definition text_of (t : bytes) : answer := Ans (Zlen t) 0 t (Addr 0 0) [] [] 0 no_stat.
Definition from (ip : Z) : answer := Ans 1 0 [NUL] (Addr ip 9) [] [] 0 no_stat.
Definition no_text : Z -> bytes := fun _ => [].

Definition state_of {A} (o : outcome (proc unit) A) : list event :=
  match o with Ret _ s | Exit _ s => history s | _ => [] end.
End RuptimeExample.
Import RuptimeExample.

(** A host with two addresses, the first of which gives no sockets. *)
Example client_run :
  let h := state_of (main_tcp_client (H := linux) no_text no_text [B "host"]
    (Proc [Ans 0 0 [] (Addr 0 0) [2; 10] [7; 8] 9 no_stat; fails 1; number 5; number 0;
           text_of (B "up 1 day"); number 8; number 0] [] 0 tt)) in
  offered h = B "up 1 day" /\ calls h = [Getaddrinfo (B "host") (B "ruptime") SOCK_STREAM; SocketIn 2 SOCK_STREAM 0;
    SocketIn 10 SOCK_STREAM 0; Connect 5 (Addr 8 9); Recv 5 BUFLEN; Write 1 (B "up 1 day"); Recv 5 BUFLEN].
Proof. split; reflexivity. Qed.

(** Every connection is refused. *)
Example retry_run :
  slept (calls (state_of (connect_retry (H := linux) 2 1 0 (Addr 1 1)
    (Proc (concat (replicate 8 [number 3; fails 111; number 0; number 0])) [] 0 tt)))) = 127.
Proof. reflexivity. Qed.

