(* ===== verification/RuptimeServers.v ===== *)
(** RuptimeServers: what the servers of the uptime service call. Each of them follows an
    automaton over its calls, the contract of that server. *)
From stdpp Require Import sets list strings.
From S2P Require Import Prelude Arrays Bytes Sys ErrorLog FdPass Ruptime RuptimeProofs.

(** ** Programs that follow an automaton *)

Section follow.
Context `{Kernel} {V St : Type} (step : St -> event -> option St) (start : St).
Implicit Types s : proc V.
Implicit Types st : St.

(** The state after a history, if the automaton takes all its events. *)
Definition run_from (o : option St) (h : list event) : option St := foldl (fun o e => o ≫= fun st => step st e) o h.
Definition run (h : list event) : option St := run_from (Some start) h.

Lemma run_snoc h e : run (h ++ [e]) = run h ≫= fun st => step st e.
Proof. unfold run, run_from. by rewrite foldl_app. Qed.

(** A relation between states and histories that every step keeps. *)
Lemma run_invariant (R : list event -> St -> Prop) : R [] start ->
  (forall h st e st', run h = Some st -> R h st -> step st e = Some st' -> R (h ++ [e]) st') ->
  forall h st, run h = Some st -> R h st.
Proof.
  intros H0 Hstep h. induction h as [|e h IH] using rev_ind; intros st Hrun; [injection Hrun as <-; done|].
  rewrite run_snoc in Hrun. destruct (run h) as [st'|] eqn:E; [|done]. eapply Hstep; [done|by apply IH|done].
Qed.

(** What has happened since [s0] leads to [st]. *)
Definition at_state s0 st s : Prop := exists h, history s = history s0 ++ h /\ run h = Some st.

Lemma at_start s : at_state s start s.
Proof. exists []. by rewrite app_nil_r. Qed.

Lemma at_step s0 st st' e s s' : at_state s0 st s -> history s' = history s ++ [e] -> step st e = Some st' -> at_state s0 st' s'.
Proof.
  intros (h & E & Hr) E' He. exists (h ++ [e]). split; [by rewrite E', E, app_assoc|]. rewrite run_snoc, Hr. done.
Qed.

Lemma wp_follow s0 c st (next : answer -> St) (Q : answer -> proc V -> Prop) X s : at_state s0 st s ->
  (forall a, step st (Called c a) = Some (next a)) -> step st (Waiting c) = Some st ->
  (forall a s', allowed c a -> at_state s0 (next a) s' -> errno s' = (if a_ret a <? 0 then a_errno a else errno s) ->
     (length (script s') < length (script s))%nat -> Q a s') ->
  (forall s', at_state s0 st s' -> X WAITING s') ->
  wp (sys c) Q X s.
Proof.
  intros Hs Hc Hw HQ HX. apply wp_sys.
  - intros a rest E Ha. apply HQ; [done| |done|simpl; rewrite E; simpl; lia]. eapply at_step; [exact Hs|done|done].
  - apply HX. eapply at_step; [exact Hs|done|done].
Qed.

Lemma wp_followret s0 c st (next : answer -> St) (Q : Z -> proc V -> Prop) X s : at_state s0 st s ->
  (forall a, step st (Called c a) = Some (next a)) -> step st (Waiting c) = Some st ->
  (forall a s', allowed c a -> at_state s0 (next a) s' -> errno s' = (if a_ret a <? 0 then a_errno a else errno s) ->
     (length (script s') < length (script s))%nat -> Q (a_ret a) s') ->
  (forall s', at_state s0 st s' -> X WAITING s') ->
  wp (sysret c) Q X s.
Proof. intros Hs Hc Hw HQ HX. eapply wp_bind, wp_follow; [done..| |done]. intros. by apply wp_ret, HQ. Qed.

Lemma wp_follow_ s0 c st st' (Q : unit -> proc V -> Prop) X s : at_state s0 st s ->
  (forall a, step st (Called c a) = Some st') -> step st (Waiting c) = Some st ->
  (forall s', at_state s0 st' s' -> (length (script s') < length (script s))%nat -> Q tt s') ->
  (forall s', at_state s0 st s' -> X WAITING s') ->
  wp (sys_ c) Q X s.
Proof. intros Hs Hc Hw HQ HX. eapply wp_bind, (wp_follow s0 c st (fun _ => st')); [done..| |done]. intros. by apply wp_ret, HQ. Qed.

(** Texts. *)
Lemma wp_follow_event s0 e st st' (Q : unit -> proc V -> Prop) X s : at_state s0 st s -> step st e = Some st' ->
  (forall s', at_state s0 st' s' -> script s' = script s -> errno s' = errno s -> Q tt s') ->
  wp (modify (record_event e)) Q X s.
Proof. intros Hs He HQ. apply wp_modify, HQ; [|done|done]. by eapply at_step. Qed.
End follow.

Definition next_if {St} P `{Decision P} (st : St) : option St := if decide P then Some st else None.

(** The automaton takes what the code does. *)
Ltac takes := intros; simpl; unfold next_if; rewrite ?decide_True by done; reflexivity.

(** ** 16.5.2: one datagram for each request *)

#[export] Instance sockaddr_eq_dec : EqDecision sockaddr.
Proof. solve_decision. Defined.

(** What a client gets when the command cannot be run. *)
Definition error_text (strerror : Z -> bytes) (e : Z) : bytes := B "error: " ++ strerror e ++ [NEWLINE].

Module Datagram.
(** What the server still has to do: to begin; nothing; to run the command for the host at
    [from]; to tell it that this has failed; to read the line of the command from
    [fp]; to send it; to close [fp]. Or the server has ended. *)
Inductive state :=
| Starting
| Listening
| Asked (from : sockaddr)
| Refused (from : sockaddr) (error : Z)
| Reading (from : sockaddr) (fp : Z)
| Replying (from : sockaddr) (fp : Z) (text : bytes)
| Closing (fp : Z)
| Stopped.

Section datagram.
Context (strerror : Z -> bytes) (sockfd : Z).

Definition step (st : state) (e : event) : option state :=
  match st, e with
  | Starting, Called (Set_cloexec fd) _ => next_if (fd = sockfd) Listening
  | Listening, Called (Recvfrom fd n) a =>
      next_if (fd = sockfd /\ n = BUFLEN) (if a_ret a <? 0 then Stopped else Asked (a_addr a))
  | Asked from, Called (Popen command mode) a =>
      next_if (command = UPTIME /\ mode = B "r") (if a_ret a <? 0 then Refused from (a_errno a) else Reading from (a_ret a))
  | Refused from error, Called (Send_to fd data to) _ =>
      next_if (fd = sockfd /\ data = error_text strerror error /\ to = from) Listening
  | Reading from fp, Called (Fgets_from fp' n) a =>
      next_if (fp' = fp /\ n = BUFLEN) (if a_ret a <? 0 then Closing fp else Replying from fp (cstr (a_data a)))
  | Replying from fp text, Called (Send_to fd data to) _ =>
      next_if (fd = sockfd /\ data = text /\ to = from) (Closing fp)
  | Closing fp, Called (Pclose fp') _ => next_if (fp' = fp) Listening
  | Stopped, Syslog _ _ => Some Stopped
  | _, Waiting _ => Some st
  | _, _ => None
  end.

(** ** What an accepted history contains *)

Definition requests (h : list event) : list sockaddr :=
  omap (fun e => match e with Called (Recvfrom _ _) a => if a_ret a <? 0 then None else Some (a_addr a) | _ => None end) h.
Definition replies (h : list event) : list (sockaddr * bytes) :=
  omap (fun e => match e with Called (Send_to _ data to) _ => Some (to, data) | _ => None end) h.
Definition opened (h : list event) : list Z :=
  omap (fun e => match e with Called (Popen _ _) a => if a_ret a <? 0 then None else Some (a_ret a) | _ => None end) h.
Definition closed (h : list event) : list Z :=
  omap (fun e => match e with Called (Pclose fp) _ => Some fp | _ => None end) h.

(** The host that waits for an answer, and the command that runs. *)
Definition pending (st : state) : list sockaddr :=
  match st with Asked from | Refused from _ | Reading from _ | Replying from _ _ => [from] | _ => [] end.
Definition running (st : state) : list Z :=
  match st with Reading _ fp | Replying _ fp _ | Closing fp => [fp] | _ => [] end.

Record sound (h : list event) (st : state) : Prop := {
  sd_replies : exists l, requests h = l ++ pending st /\ map fst (replies h) `sublist_of` l;
  sd_commands : opened h = closed h ++ running st;
}.

Lemma datagrams_sound h st : run step Starting h = Some st -> sound h st.
Proof.
  revert h st. apply run_invariant; [by split; [exists []|]|].
  intros h st e st' _ [(l & El & Hl) Ho] He.
  assert (Hq : requests (h ++ [e]) = requests h ++ requests [e]) by apply omap_app.
  assert (Hr : replies (h ++ [e]) = replies h ++ replies [e]) by apply omap_app.
  assert (Hp : opened (h ++ [e]) = opened h ++ opened [e]) by apply omap_app.
  assert (Hc : closed (h ++ [e]) = closed h ++ closed [e]) by apply omap_app.
  split; rewrite ?Hq, ?Hr, ?Hp, ?Hc, ?El, ?Ho; clear Hq Hr Hp Hc El Ho.
  all: destruct st, e as [[] a|c| | | | |]; try discriminate He; simpl in He; unfold next_if in He; try case_decide; try discriminate He;
    injection He as <-; destruct_and?; simplify_eq; simpl.
  all: try destruct (a_ret a <? 0); simpl; rewrite ?app_nil_r; try done.
  all: try (exists l; rewrite ?app_nil_r; done).
  all: exists (l ++ [from]); rewrite app_nil_r, ?map_app; split; [done|].
  all: try (by apply sublist_app). by apply sublist_inserts_r.
Qed.

(** ** The server *)

Context `{Kernel}.
Hypothesis Hstrerror : forall e, Zlen (error_text strerror e) < BUFLEN.
Implicit Types s : proc unit.

Lemma wp_serve_udp {A} s0 : wp (serve_udp (A := A) strerror sockfd) (fun _ _ => False)
  (fun code s' => exists st, at_state step Starting s0 st s' /\
     (code = WAITING /\ st <> Stopped \/ code = 1 /\ st = Stopped)) s0.
Proof.
  match goal with |- wp _ _ ?Y _ => set (X := Y) end. assert (HX : forall st s, at_state step Starting s0 st s -> st <> Stopped -> X WAITING s).
  { intros st s Hs Hst. exists st. split; [done|]. by left. }
  eapply wp_bind, (wp_follow_ step Starting); [apply at_start|takes|done| |by intros; eapply HX]. intros s1 H1 _.
  apply (wp_forever (fun _ s => at_state step Starting s0 Listening s)); [done|]. clear s1 H1. intros _ s H0.
  eapply wp_bind, wp_follow; [exact H0|takes|done| |by intros; eapply HX]. intros a s1 _ H1 _ L1.
  simpl in H1. revert H1. destruct (a_ret a <? 0); intros H1.
  { apply wp_bind, wp_bind, wp_gets. eapply wp_follow_event; [exact H1|reflexivity|]. intros s2 H2 _ _. apply wp_exit.
    exists Stopped. split; [done|]. by right. }
  eapply wp_bind, wp_followret; [exact H1|takes|done| |by intros; eapply HX]. intros b s2 _ H2 E2 L2.
  apply wp_bind, (wp_conseq _ (fun _ s' => at_state step Starting s0 Listening s' /\ (length (script s') < length (script s))%nat)).
  - simpl in H2. revert H2 E2. destruct (a_ret b <? 0); intros H2 E2.
    + apply wp_bind, wp_bind, wp_gets. apply wp_bind, wp_guard; [by apply Z.ltb_lt, Hstrerror|]. apply wp_ret. rewrite E2.
      eapply wp_follow_; [exact H2|takes|done| |by intros; eapply HX]. intros s3 H3 L3. split; [done|lia].
    + eapply wp_bind, wp_follow; [exact H2|takes|done| |by intros; eapply HX]. intros l s3 _ H3 _ L3.
      apply wp_bind, (wp_conseq _ (fun _ s' => at_state step Starting s0 (Closing (a_ret b)) s' /\ (length (script s') <= length (script s3))%nat)).
      { simpl in H3. revert H3. destruct (a_ret l <? 0); intros H3; [by apply wp_ret|].
        eapply wp_follow_; [exact H3|takes|done| |by intros; eapply HX]. intros s4 H4 L4. split; [done|lia]. }
      intros _ s4 [H4 L4]. eapply wp_follow_; [exact H4|takes|done| |by intros; eapply HX]. intros s5 H5 L5. split; [done|lia].
  - intros _ s3 [H3 L3]. by apply wp_ret.
Qed.

(** C12: the server of datagrams, at every moment of every run: it follows the
    automaton [step], so that each datagram is answered once at most, to the host that
    sent it, before the next one is received, with the first line of the command or
    the text of the error for which it could not be run; the hosts that were answered
    are those that asked, in their order, some of them left out; every command but the
    one that runs has been closed. It ends only when [recvfrom] fails, with status 1,
    and no error text overruns the buffer if none of the system's has 119 bytes. *)
Theorem ruptimed_datagrams {A} s0 : wp (serve_udp (A := A) strerror sockfd) (fun _ _ => False)
  (fun code s' => exists h st, history s' = history s0 ++ h /\ run step Starting h = Some st /\
     (code = WAITING /\ st <> Stopped \/ code = 1 /\ st = Stopped) /\
     map fst (replies h) `sublist_of` requests h /\
     opened h = closed h ++ running st /\ (length (running st) <= 1)%nat) s0.
Proof.
  eapply wp_mono; [apply wp_serve_udp|done|]. intros code s' (st & (h & E & Hr) & Hc).
  exists h, st. destruct (datagrams_sound h st Hr) as [(l & El & Hl) Ho]. split; [done|]. split; [done|]. split; [done|].
  split; [rewrite El; by apply sublist_inserts_r|]. split; [done|]. destruct st; simpl; lia.
Qed.
End datagram.
End Datagram.

(** ** 16.5.1: a connection at a time *)

Module Stream.
(** The server has a connection [fd]: it must mark it; run the command; tell the client
    that this has failed; read a line; send it; close the command; close the connection. *)
Inductive state :=
| Starting
| Listening
| Accepted (fd : Z)
| Marked (fd : Z)
| Refused (fd error : Z)
| Reading (fd fp : Z)
| Sending (fd fp : Z) (text : bytes)
| Closing (fd fp : Z)
| Leaving (fd : Z)
| Stopped.

Section stream.
Context (strerror : Z -> bytes) (sockfd : Z).

Definition step (st : state) (e : event) : option state :=
  match st, e with
  | Starting, Called (Set_cloexec fd) _ => next_if (fd = sockfd) Listening
  | Listening, Called (Accept fd) a => next_if (fd = sockfd) (if a_ret a <? 0 then Stopped else Accepted (a_ret a))
  | Accepted fd, Called (Set_cloexec fd') _ => next_if (fd' = fd) (Marked fd)
  | Marked fd, Called (Popen command mode) a =>
      next_if (command = UPTIME /\ mode = B "r") (if a_ret a <? 0 then Refused fd (a_errno a) else Reading fd (a_ret a))
  | Refused fd error, Called (Send fd' data) _ => next_if (fd' = fd /\ data = error_text strerror error) (Leaving fd)
  | Reading fd fp, Called (Fgets_from fp' n) a =>
      next_if (fp' = fp /\ n = BUFLEN) (if a_ret a <? 0 then Closing fd fp else Sending fd fp (cstr (a_data a)))
  | Sending fd fp text, Called (Send fd' data) _ => next_if (fd' = fd /\ data = text) (Reading fd fp)
  | Closing fd fp, Called (Pclose fp') _ => next_if (fp' = fp) (Leaving fd)
  | Leaving fd, Called (Close fd') _ => next_if (fd' = fd) Listening
  | Stopped, Syslog _ _ => Some Stopped
  | _, Waiting _ | _, Printed _ => Some st
  | _, _ => None
  end.

(** ** What an accepted history contains *)

Definition accepted (h : list event) : list Z :=
  omap (fun e => match e with Called (Accept _) a => if a_ret a <? 0 then None else Some (a_ret a) | _ => None end) h.
Definition left_ (h : list event) : list Z :=
  omap (fun e => match e with Called (Close fd) _ => Some fd | _ => None end) h.
Definition opened (h : list event) : list Z :=
  omap (fun e => match e with Called (Popen _ _) a => if a_ret a <? 0 then None else Some (a_ret a) | _ => None end) h.
Definition closed (h : list event) : list Z :=
  omap (fun e => match e with Called (Pclose fp) _ => Some fp | _ => None end) h.
(** The texts for the clients: those of the command's output and of its errors, and
    what has been sent. *)
Definition due (h : list event) : list bytes :=
  omap (fun e => match e with
    | Called (Fgets_from _ _) a => if a_ret a <? 0 then None else Some (cstr (a_data a))
    | Called (Popen _ _) a => if a_ret a <? 0 then Some (error_text strerror (a_errno a)) else None
    | _ => None end) h.
Definition sent_texts (h : list event) : list bytes :=
  omap (fun e => match e with Called (Send _ data) _ => Some data | _ => None end) h.

Definition connection (st : state) : list Z :=
  match st with
  | Accepted fd | Marked fd | Refused fd _ | Reading fd _ | Sending fd _ _ | Closing fd _ | Leaving fd => [fd]
  | _ => []
  end.
Definition running (st : state) : list Z :=
  match st with Reading _ fp | Sending _ fp _ | Closing _ fp => [fp] | _ => [] end.
Definition unsent (st : state) : list bytes :=
  match st with Refused _ e => [error_text strerror e] | Sending _ _ text => [text] | _ => [] end.

Record sound (h : list event) (st : state) : Prop := {
  sd_connections : accepted h = left_ h ++ connection st;
  sd_commands : opened h = closed h ++ running st;
  sd_texts : due h = sent_texts h ++ unsent st;
}.

Lemma streams_sound h st : run step Starting h = Some st -> sound h st.
Proof.
  revert h st. apply run_invariant; [done|].
  intros h st e st' _ [Ha Ho Hd] He.
  assert (Hx : forall B (f : event -> option B), omap f (h ++ [e]) = omap f h ++ omap f [e]) by (intros; apply omap_app).
  split; unfold accepted, left_, opened, closed, due, sent_texts in *; rewrite !Hx, ?Ha, ?Ho, ?Hd; clear Hx Ha Ho Hd.
  all: destruct st, e as [[] a|c| | | | |]; try discriminate He; simpl in He; unfold next_if in He; try case_decide; try discriminate He;
    injection He as <-; destruct_and?; simplify_eq; simpl.
  all: try destruct (a_ret a <? 0); simpl; rewrite ?app_nil_r; done.
Qed.

(** ** The server *)

Context `{Kernel}.
Hypothesis Hstrerror : forall e, Zlen (error_text strerror e) < BUFLEN.
Implicit Types s : proc unit.

Section serve.
Context (s0 : proc unit).
Notation in_state := (at_state step Starting s0).
Let X (code : Z) (s' : proc unit) : Prop :=
  exists st, in_state st s' /\ (code = WAITING /\ st <> Stopped \/ code = 1 /\ st = Stopped).

Lemma stream_waits st s : in_state st s -> st <> Stopped -> X WAITING s.
Proof. intros Hs Hst. exists st. split; [done|]. by left. Qed.
Ltac waits := by intros; eapply stream_waits.

Lemma wp_accept_client (Q : Z -> proc unit -> Prop) s : in_state Listening s ->
  (forall fd s', in_state (Accepted fd) s' -> (length (script s') < length (script s))%nat -> Q fd s') ->
  wp (accept_client strerror sockfd) Q X s.
Proof.
  intros Hs HQ. eapply wp_bind, wp_followret; [exact Hs|takes|done| |waits]. intros a s1 _ H1 _ L1. simpl in H1. revert H1.
  destruct (a_ret a <? 0); intros H1; [|by apply wp_ret, HQ].
  apply wp_bind, wp_bind, wp_gets. eapply wp_follow_event; [exact H1|reflexivity|]. intros s2 H2 _ _.
  apply wp_bind, wp_gets. eapply wp_bind, wp_follow_event; [exact H2|reflexivity|]. intros s3 H3 _ _.
  apply wp_exit. exists Stopped. split; [done|]. by right.
Qed.

Lemma wp_send_lines fd fp (Q : unit -> proc unit -> Prop) s : in_state (Reading fd fp) s ->
  (forall s', in_state (Closing fd fp) s' -> (length (script s') <= length (script s))%nat -> Q tt s') ->
  wp (send_lines fd fp) Q X s.
Proof.
  intros Hs HQ. apply (wp_forever (fun _ s' => in_state (Reading fd fp) s' /\ (length (script s') <= length (script s))%nat)); [done|].
  intros _ s1 [H1 L1]. eapply wp_bind, wp_follow; [exact H1|takes|done| |waits]. intros a s2 _ H2 _ L2. simpl in H2. revert H2.
  destruct (a_ret a <? 0); intros H2; [apply wp_ret, HQ; [done|lia]|].
  eapply wp_bind, wp_follow_; [exact H2|takes|done| |waits]. intros s3 H3 L3. apply wp_ret. split; [split; [done|]|]; lia.
Qed.

Lemma wp_serve_popen {A} : wp (serve_popen (A := A) strerror sockfd) (fun _ _ => False) X s0.
Proof.
  eapply wp_bind, (wp_follow_ step Starting); [apply at_start|takes|done| |waits]. intros s1 H1 _.
  eapply wp_bind, wp_follow_event; [exact H1|reflexivity|]. intros s2 H2 _ _.
  apply (wp_forever (fun _ s => in_state Listening s)); [done|]. clear s1 s2 H1 H2. intros _ s H0.
  apply wp_bind, wp_accept_client; [done|]. intros fd s1 H1 L1.
  eapply wp_bind, wp_follow_; [exact H1|takes|done| |waits]. intros s2 H2 L2.
  eapply wp_bind, wp_followret; [exact H2|takes|done| |waits]. intros b s3 _ H3 E3 L3. simpl in H3.
  apply wp_bind, (wp_conseq _ (fun _ s' => in_state (Leaving fd) s' /\ (length (script s') < length (script s))%nat)).
  - revert H3 E3. destruct (a_ret b <? 0); intros H3 E3.
    + apply wp_bind, wp_bind, wp_gets. apply wp_bind, wp_guard; [by apply Z.ltb_lt, Hstrerror|]. apply wp_ret. rewrite E3.
      eapply wp_follow_; [exact H3|takes|done| |waits]. intros s4 H4 L4. split; [done|lia].
    + eapply wp_bind, wp_follow_event; [exact H3|reflexivity|]. intros s4 H4 L4 _.
      apply wp_bind, (wp_send_lines fd (a_ret b)); [done|]. intros s5 H5 L5.
      eapply wp_follow_; [exact H5|takes|done| |waits]. intros s6 H6 L6. split; [done|]. rewrite L4 in L5. lia.
  - intros _ s4 [H4 L4]. eapply wp_bind, wp_follow_; [exact H4|takes|done| |waits]. intros s5 H5 L5.
    apply wp_ret. split; [done|lia].
Qed.
End serve.

(** C13: the server that reads the command's output, at every moment of every run: it
    follows the automaton [step], so that it serves one connection after the other;
    each is sent the lines of one run of the command, whole and in their order, or
    the text of the error for which it could not be run, and then closed. Every
    connection but the one that is served has been closed, and every command but the
    one that runs; nothing is left out between what was to be sent and what was given
    to [send], but for the last text. It ends only when [accept] fails, with status
    1, and no error text overruns the buffer if none of the system's has 119 bytes. *)
Theorem ruptimed_streams {A} s0 : wp (serve_popen (A := A) strerror sockfd) (fun _ _ => False)
  (fun code s' => exists h st, history s' = history s0 ++ h /\ run step Starting h = Some st /\
     (code = WAITING /\ st <> Stopped \/ code = 1 /\ st = Stopped) /\
     accepted h = left_ h ++ connection st /\ (length (connection st) <= 1)%nat /\
     opened h = closed h ++ running st /\ (length (running st) <= 1)%nat /\
     due h = sent_texts h ++ unsent st /\ (length (unsent st) <= 1)%nat) s0.
Proof.
  eapply wp_mono; [apply wp_serve_popen|done|]. intros code s' (st & (h & E & Hr) & Hc).
  exists h, st. destruct (streams_sound h st Hr) as [Ha Ho Hd]. repeat split; try done; destruct st; simpl; lia.
Qed.
End stream.
End Stream.

(** ** 16.5.1: a process for each connection *)

Module Forking.
(** The parent must close the connection and wait for the child; the child makes it
    its standard output and standard error, closes it and runs the command. *)
Inductive state :=
| Starting
| Listening
| Accepted (fd : Z)
| Forked (fd pid : Z)
| Reaping (pid : Z)
| Output (fd : Z)
| Errors (fd : Z)
| Redirected (fd : Z)
| Ready
| Replaced
| Rogue (* the child, when [execl] has failed *)
| Failed (* an error that is logged before the end *)
| Stopped.

Section forking.
Context (sockfd : Z).

Definition step (st : state) (e : event) : option state :=
  match st, e with
  | Starting, Called (Set_cloexec fd) _ => next_if (fd = sockfd) Listening
  | Listening, Called (Accept fd) a => next_if (fd = sockfd) (if a_ret a <? 0 then Failed else Accepted (a_ret a))
  | Accepted fd, Called Fork a =>
      Some (if a_ret a <? 0 then Failed else if a_ret a =? 0 then Output fd else Forked fd (a_ret a))
  | Forked fd pid, Called (Close fd') _ => next_if (fd' = fd) (Reaping pid)
  | Reaping pid, Called (Waitpid pid') _ => next_if (pid' = pid) Listening
  | Output fd, Called (Dup2 fd' std) a =>
      next_if (fd' = fd /\ std = STDOUT_FILENO) (if a_ret a =? STDOUT_FILENO then Errors fd else Failed)
  | Errors fd, Called (Dup2 fd' std) a =>
      next_if (fd' = fd /\ std = STDERR_FILENO) (if a_ret a =? STDERR_FILENO then Redirected fd else Failed)
  | Redirected fd, Called (Close fd') _ => next_if (fd' = fd) Ready
  | Ready, Called (Execl path arg) a =>
      next_if (path = UPTIME /\ arg = B "uptime") (if a_ret a <? 0 then Rogue else Replaced)
  | Rogue, Syslog _ _ => Some Listening
  | Failed, Syslog _ _ => Some Stopped
  | _, Waiting _ | _, Printed _ => Some st
  | _, _ => None
  end.

(** ** What an accepted history contains *)

(** The children that were made and those that were waited for. *)
Definition children (h : list event) : list Z :=
  omap (fun e => match e with Called Fork a => if 0 <? a_ret a then Some (a_ret a) else None | _ => None end) h.
Definition reaped (h : list event) : list Z :=
  omap (fun e => match e with Called (Waitpid pid) _ => Some pid | _ => None end) h.
(** How often the process was the child, and [execl] failed. *)
Definition forked_off (h : list event) : list unit :=
  omap (fun e => match e with Called Fork a => if a_ret a =? 0 then Some tt else None | _ => None end) h.
Definition not_replaced (h : list event) : list unit :=
  omap (fun e => match e with Called (Execl _ _) a => if a_ret a <? 0 then Some tt else None | _ => None end) h.

Definition accepted (h : list event) : list Z :=
  omap (fun e => match e with Called (Accept _) a => if a_ret a <? 0 then None else Some (a_ret a) | _ => None end) h.
Definition left_ (h : list event) : list Z :=
  omap (fun e => match e with Called (Close fd) _ => Some fd | _ => None end) h.

Definition alive (st : state) : list Z := match st with Forked _ pid | Reaping pid => [pid] | _ => [] end.
Definition connection (st : state) : list Z :=
  match st with Accepted fd | Forked fd _ | Output fd | Errors fd | Redirected fd => [fd] | _ => [] end.
Definition child (st : state) : list unit :=
  match st with Output _ | Errors _ | Redirected _ | Ready | Replaced => [tt] | _ => [] end.
Definition ending (st : state) : bool := match st with Failed | Stopped => true | _ => false end.

Record sound (h : list event) (st : state) : Prop := {
  sd_children : children h = reaped h ++ alive st;
  sd_forked : ending st = false -> forked_off h = not_replaced h ++ child st;
  sd_connections : ending st = false -> accepted h = left_ h ++ connection st;
}.

Lemma forks_sound h st : run step Starting h = Some st -> sound h st.
Proof.
  revert h st. apply run_invariant; [done|].
  intros h st e st' _ [Hc Hf Ha] He.
  assert (Hx : forall B (f : event -> option B), omap f (h ++ [e]) = omap f h ++ omap f [e]) by (intros; apply omap_app).
  split; unfold accepted, left_, children, reaped, forked_off, not_replaced in *; rewrite !Hx, ?Hc; clear Hx Hc.
  all: destruct st, e as [[] a|c| | | | |]; try discriminate He; simpl in He; unfold next_if in He; try case_decide; try discriminate He;
    injection He as <-; destruct_and?; simplify_eq; simpl; intros;
    try (specialize (Hf eq_refl); rewrite Hf); try (specialize (Ha eq_refl); rewrite Ha); clear Hf Ha.
  all: try (destruct (Z.ltb_spec (a_ret a) 0), (Z.ltb_spec 0 (a_ret a)), (Z.eqb_spec (a_ret a) 0); try lia; simpl in *).
  all: repeat case_match; simplify_eq; simpl; rewrite ?app_nil_r; try done.
Qed.

(** ** The server *)

Context `{Kernel} (strerror : Z -> bytes).
Implicit Types s : proc unit.

Section serve.
Context (s0 : proc unit).
Notation in_state := (at_state step Starting s0).

(** With which status a process ends in a state. *)
Definition status (st : state) : Z :=
  match st with Stopped => 1 | Replaced => REPLACED | _ => WAITING end.
Let X (code : Z) (s' : proc unit) : Prop := exists st, in_state st s' /\ code = status st.

Lemma fork_waits st s : in_state st s -> status st = WAITING -> X WAITING s.
Proof. intros Hs Hst. by exists st. Qed.
Ltac waits := by intros; eapply fork_waits.

Lemma wp_log_end {A} what (k : M (proc unit) A) (Q : A -> proc unit -> Prop) s : in_state Failed s ->
  (forall s', in_state Stopped s' -> wp k Q X s') -> wp (log_error strerror what ;; k) Q X s.
Proof.
  intros Hs Hk. apply wp_bind, wp_bind, wp_gets. eapply wp_follow_event; [exact Hs|reflexivity|]. intros s1 H1 _ _. by apply Hk.
Qed.

Lemma fork_stops s : in_state Stopped s -> X 1 s.
Proof. intros Hs. by exists Stopped. Qed.

Lemma wp_accept_child (Q : Z -> proc unit -> Prop) s : in_state Listening s ->
  (forall fd s', in_state (Accepted fd) s' -> (length (script s') < length (script s))%nat -> Q fd s') ->
  wp (accept_client strerror sockfd) Q X s.
Proof.
  intros Hs HQ. eapply wp_bind, wp_followret; [exact Hs|takes|done| |waits]. intros a s1 _ H1 _ L1. simpl in H1. revert H1.
  destruct (a_ret a <? 0); intros H1; [|by apply wp_ret, HQ].
  apply wp_log_end; [done|]. intros s2 H2.
  apply wp_bind, wp_gets. eapply wp_bind, wp_follow_event; [exact H2|reflexivity|]. intros s3 H3 _ _.
  by apply wp_exit, fork_stops.
Qed.

Lemma wp_become_uptime fd (Q : unit -> proc unit -> Prop) s : in_state (Output fd) s ->
  (forall s', in_state Listening s' -> (length (script s') < length (script s))%nat -> Q tt s') ->
  wp (become_uptime strerror fd) Q X s.
Proof.
  intros Hs HQ. eapply wp_bind, wp_followret; [exact Hs|takes|done| |waits]. intros a s1 _ H1 _ L1. simpl in H1.
  apply wp_bind, (wp_conseq _ (fun failed s' => in_state (if failed : bool then Failed else Redirected fd) s' /\
    (length (script s') < length (script s))%nat)).
  { revert H1. destruct (a_ret a =? STDOUT_FILENO); intros H1; [|by apply wp_ret].
    eapply wp_bind, wp_followret; [exact H1|takes|done| |waits]. intros b s2 _ H2 _ L2. simpl in H2. apply wp_ret.
    split; [|lia]. by destruct (a_ret b =? STDERR_FILENO). }
  intros [] s2 [H2 L2]; apply wp_bind.
  { eapply wp_bind, wp_follow_event; [exact H2|reflexivity|]. intros s3 H3 _ _. by apply wp_exit, fork_stops. }
  apply wp_ret. eapply wp_bind, wp_follow_; [exact H2|takes|done| |waits]. intros s3 H3 L3.
  eapply wp_bind, wp_followret; [exact H3|takes|done| |waits]. intros c s4 _ H4 _ L4. simpl in H4. revert H4.
  destruct (a_ret c <? 0); intros H4; [|apply wp_exit; by exists Replaced].
  apply wp_bind, wp_gets. eapply wp_follow_event; [exact H4|reflexivity|]. intros s5 H5 L5 _. apply HQ; [done|rewrite L5; lia].
Qed.

Lemma wp_serve_fork {A} : wp (serve_fork (A := A) strerror sockfd) (fun _ _ => False) X s0.
Proof.
  eapply wp_bind, (wp_follow_ step Starting); [apply at_start|takes|done| |waits]. intros s1 H1 _.
  eapply wp_bind, wp_follow_event; [exact H1|reflexivity|]. intros s2 H2 _ _.
  apply (wp_forever (fun _ s => in_state Listening s)); [done|]. clear s1 s2 H1 H2. intros _ s H0.
  apply wp_bind, wp_accept_child; [done|]. intros fd s1 H1 L1.
  eapply wp_bind, wp_followret; [exact H1|takes|done| |waits]. intros b s2 _ H2 _ L2. simpl in H2.
  apply wp_bind, (wp_conseq _ (fun _ s' => in_state Listening s' /\ (length (script s') < length (script s))%nat)).
  - revert H2. destruct (a_ret b <? 0); intros H2.
    { apply wp_log_end; [done|]. intros s3 H3. by apply wp_exit, fork_stops. }
    revert H2. destruct (a_ret b =? 0); intros H2.
    + apply (wp_become_uptime fd); [done|]. intros s3 H3 L3. split; [done|lia].
    + eapply wp_bind, wp_follow_; [exact H2|takes|done| |waits]. intros s3 H3 L3.
      eapply wp_follow_; [exact H3|takes|done| |waits]. intros s4 H4 L4. split; [done|lia].
  - intros _ s3 [H3 L3]. by apply wp_ret.
Qed.
End serve.

(** The server that forks, at every moment of every run of one of its processes: it
    follows the automaton [step]. The parent closes each connection and waits for the
    child of each before it accepts the next. A child has the connection as standard
    output and standard error, closes the descriptor, and becomes the command; but
    each time that [execl] fails it goes on as a server of its own, and then accepts
    the connections for which its parent listens. A process ends with status 1 only
    when [accept], [fork] or [dup2] has failed. *)
Theorem ruptimed_forks {A} s0 : wp (serve_fork (A := A) strerror sockfd) (fun _ _ => False)
  (fun code s' => exists h st, history s' = history s0 ++ h /\ run step Starting h = Some st /\ code = status st /\
     children h = reaped h ++ alive st /\ (length (alive st) <= 1)%nat /\
     (ending st = false -> accepted h = left_ h ++ connection st /\ (length (connection st) <= 1)%nat /\
        forked_off h = not_replaced h ++ child st)) s0.
Proof.
  eapply wp_mono; [apply wp_serve_fork|done|]. intros code s' (st & (h & E & Hr) & Hc).
  exists h, st. destruct (forks_sound h st Hr) as [Hch Hf Ha]. do 4 (split; [done|]).
  split; [destruct st; simpl; lia|]. intros He. split; [by apply Ha|]. split; [destruct st; simpl; lia|by apply Hf].
Qed.
End forking.
End Forking.

(** ** Runs *)

Import RuptimeExample.

Lemma no_text_fits e : Zlen (error_text no_text e) < BUFLEN.
Proof. reflexivity. Qed.

(** Two hosts ask; the command cannot be run for the second. *)
Example datagrams_run :
  Datagram.replies (state_of (serve_udp (H := linux) (A := unit) no_text 3
    (Proc [number 0; from 7; number 50; text_of (B "up 1 day"); number 8; number 0; from 8; fails 12; number 8] [] 0 tt))) =
  [(Addr 7 9, B "up 1 day"); (Addr 8 9, B "error: " ++ [NEWLINE])].
Proof. reflexivity. Qed.

(** The child accepts a connection itself after [execl] has failed. *)
Example rogue_child :
  Forking.accepted (state_of (serve_fork (H := linux) (A := unit) no_text 3
    (Proc [number 0; number 4; number 0; number 1; number 2; number 0; fails 2; number 5] [] 0 tt))) = [4; 5].
Proof. reflexivity. Qed.

Lemma ruptimed_datagrams_witness :
  let s0 := Proc [number 0; from 7; number 50] [] 0 tt in
  wp (serve_udp (H := linux) (A := unit) no_text 3) (fun _ _ => False)
  (fun code s' => exists h st, history s' = history s0 ++ h /\ run (Datagram.step no_text 3) Datagram.Starting h = Some st /\
     (code = WAITING /\ st <> Datagram.Stopped \/ code = 1 /\ st = Datagram.Stopped) /\
     map fst (Datagram.replies h) `sublist_of` Datagram.requests h /\
     Datagram.opened h = Datagram.closed h ++ Datagram.running st /\ (length (Datagram.running st) <= 1)%nat) s0.
Proof. apply (Datagram.ruptimed_datagrams no_text 3 (H := linux) no_text_fits). Defined.

Lemma ruptimed_streams_witness :
  let s0 := Proc [number 0; number 4; number 0; number 50; text_of (B "up")] [] 0 tt in
  wp (serve_popen (H := linux) (A := unit) no_text 3) (fun _ _ => False)
  (fun code s' => exists h st, history s' = history s0 ++ h /\ run (Stream.step no_text 3) Stream.Starting h = Some st /\
     (code = WAITING /\ st <> Stream.Stopped \/ code = 1 /\ st = Stream.Stopped) /\
     Stream.accepted h = Stream.left_ h ++ Stream.connection st /\ (length (Stream.connection st) <= 1)%nat /\
     Stream.opened h = Stream.closed h ++ Stream.running st /\ (length (Stream.running st) <= 1)%nat /\
     Stream.due no_text h = Stream.sent_texts h ++ Stream.unsent no_text st /\
     (length (Stream.unsent no_text st) <= 1)%nat) s0.
Proof. apply (Stream.ruptimed_streams no_text 3 (H := linux) no_text_fits). Defined.
