(* ===== verification/Tty.v ===== *)
(** Tty: the modes of a terminal, apue/18.11break_and_raw.c. The attributes are a list
    of numbers: the flags of input, output, control and local modes, then the control
    characters. The flags are those of Linux. *)
From stdpp Require Import list strings.
From S2P Require Import Prelude Arrays Bytes Sys.

(** The places in the list. *)
Definition c_iflag : Z := 0.
Definition c_oflag : Z := 1.
Definition c_cflag : Z := 2.
Definition c_lflag : Z := 3.
Definition c_cc : Z := 4.
Definition VTIME : Z := 5.
Definition VMIN : Z := 6.
Definition NCCS : Z := 32.

Definition ISIG : Z := 1.
Definition ICANON : Z := 2.
Definition ECHO : Z := 8.
Definition IEXTEN : Z := 32768.
Definition BRKINT : Z := 2.
Definition INPCK : Z := 16.
Definition ISTRIP : Z := 32.
Definition ICRNL : Z := 256.
Definition IXON : Z := 1024.
Definition CSIZE : Z := 48.
Definition CS8 : Z := 48.
Definition PARENB : Z := 256.
Definition OPOST : Z := 1.
Definition EINVAL : Z := 22.

Inductive mode := RESET | RAW | CBREAK.
#[export] Instance mode_eq_dec : EqDecision mode.
Proof. solve_decision. Defined.

(** The static variables. *)
Record tty := Tty { save_termios : list Z; ttysavefd : Z; ttystate : mode }.
Definition tty0 : tty := Tty (replicate 36 0) (-1) RESET.
Definition set_save v t := Tty v (ttysavefd t) (ttystate t).
Definition set_savefd v t := Tty (save_termios t) v (ttystate t).
Definition set_state v t := Tty (save_termios t) (ttysavefd t) v.

Definition bits : list Z -> Z := foldr Z.lor 0.
Definition clear (flags : list Z) (v : Z) : Z := Z.land v (Z.lnot (bits flags)).
Definition some_of (flags : list Z) (v : Z) : bool := negb (Z.land v (bits flags) =? 0).

(** [f] of the member at the place [i]. *)
Definition upd (i : Z) (f : Z -> Z) (t : list Z) : list Z := aset t i (f (aget t i)).
Definition one_byte (t : list Z) : list Z := aset (aset t (c_cc + VMIN) 1) (c_cc + VTIME) 0.

Definition cbreak (t : list Z) : list Z := one_byte (upd c_lflag (clear [ECHO; ICANON]) t).
Definition raw (t : list Z) : list Z :=
  one_byte (upd c_oflag (clear [OPOST]) (upd c_cflag (fun v => Z.lor v CS8) (upd c_cflag (clear [CSIZE; PARENB])
    (upd c_iflag (clear [BRKINT; ICRNL; ISTRIP; IXON]) (upd c_lflag (clear [ECHO; ICANON; IEXTEN; ISIG]) t))))).

(** That only a part of the changes was made. *)
Definition no_byte (t : list Z) : bool := negb (aget t (c_cc + VMIN) =? 1) || negb (aget t (c_cc + VTIME) =? 0).
Definition not_cbreak (t : list Z) : bool := some_of [ECHO; ICANON] (aget t c_lflag) || no_byte t.
Definition not_raw (t : list Z) : bool :=
  some_of [ECHO; ICANON; IEXTEN; ISIG] (aget t c_lflag) || some_of [BRKINT; ICRNL; INPCK; ISTRIP; IXON] (aget t c_iflag)
  || negb (Z.land (aget t c_cflag) (bits [CSIZE; PARENB; CS8]) =? CS8) || some_of [OPOST] (aget t c_oflag) || no_byte t.

Section tty.
Context `{Kernel}.
Notation M' := (M (proc tty)).

Definition invalid : M' Z := set_errno EINVAL ;; ret (-1).

(** Back to the old attributes, which may fail. *)
Definition put_back (fd : Z) : M' unit := t <- getvar save_termios ;; sys_ (Tcsetattr fd t).

(** The code of [tty_cbreak] and [tty_raw], which differ in the attributes. *)
Definition tty_mode (to : mode) (new : list Z -> list Z) (bad : list Z -> bool) (fd : Z) : M' Z :=
  m <- getvar ttystate ;;
  if negb (bool_decide (m = RESET)) then invalid
  else
    a <- sys (Tcgetattr fd) ;;
    if a_ret a <? 0 then ret (-1)
    else
      setvars (set_save (a_rd a)) ;;
      r <- sysret (Tcsetattr fd (new (a_rd a))) ;;
      if r <? 0 then ret (-1)
      else
        b <- sys (Tcgetattr fd) ;;
        if a_ret b <? 0 then err <- gets errno ;; put_back fd ;; set_errno err ;; ret (-1)
        else if bad (a_rd b) then put_back fd ;; invalid
        else setvars (set_state to) ;; setvars (set_savefd fd) ;; ret 0.

Definition tty_cbreak (fd : Z) : M' Z := tty_mode CBREAK cbreak not_cbreak fd.
Definition tty_raw (fd : Z) : M' Z := tty_mode RAW raw not_raw fd.

Definition tty_reset (fd : Z) : M' Z :=
  m <- getvar ttystate ;;
  if bool_decide (m = RESET) then ret 0
  else
    t <- getvar save_termios ;;
    r <- sysret (Tcsetattr fd t) ;;
    if r <? 0 then ret (-1) else setvars (set_state RESET) ;; ret 0.

Definition tty_atexit : M' unit :=
  fd <- getvar ttysavefd ;; when 0 <=? fd do (_ <- tty_reset fd ;; ret tt).

Definition tty_termios : M' (list Z) := getvar save_termios.
End tty.
