(* ===== verification/TtyProofs.v ===== *)
(** TtyProofs: a program that puts its terminal into another mode and leaves by
    [tty_atexit] gives it back as it was; and [tty_raw] fails on a terminal that
    checks the parity of its input, though it looks as if it should not. *)
From stdpp Require Import sets list strings.
From S2P Require Import Prelude Arrays Bytes Sys Tty.

(** ** Flags *)

Lemma land_clear flags m v : Z.land m (bits flags) = m -> Z.land (clear flags v) m = 0.
Proof.
  intros Hm. unfold clear. rewrite <-Hm, <-Z.land_assoc, (Z.land_comm m), (Z.land_assoc (Z.lnot _)),
    (Z.land_comm (Z.lnot _)), Z.land_lnot_diag, Z.land_0_l. apply Z.land_0_r.
Qed.

Lemma clear_spec flags v m : Z.land m (bits flags) = 0 -> Z.land (clear flags v) m = Z.land v m.
Proof.
  intros Hm. unfold clear. rewrite <-Z.land_assoc. f_equal. apply Z.bits_inj'. intros n Hn.
  assert (Z.testbit (Z.land m (bits flags)) n = false) as Hb by (rewrite Hm; apply Z.bits_0).
  rewrite Z.land_spec in Hb. rewrite Z.land_spec, Z.lnot_spec by done. destruct (Z.testbit m n); [|by rewrite andb_false_r].
  simpl in Hb. by rewrite Hb.
Qed.

(** Attributes of the size of the struct. *)
Definition attributes (t : list Z) : Prop := Zlen t = c_cc + NCCS.

Lemma aget_upd i j f t : attributes t -> 0 <= i < 36 -> 0 <= j < 36 -> aget (upd i f t) j = if decide (i = j) then f (aget t j) else aget t j.
Proof.
  intros Ht Hi Hj. unfold upd, attributes, c_cc, NCCS in *. destruct (decide (i = j)) as [->|]; [apply aget_aset_eq|apply aget_aset_ne]; lia.
Qed.

Lemma attributes_upd i f t : attributes t -> attributes (upd i f t).
Proof. unfold attributes, upd. by rewrite Zlen_aset. Qed.

Lemma one_byte_ok t : attributes t -> no_byte (one_byte t) = false.
Proof.
  unfold attributes, c_cc, NCCS. intros Ht. unfold no_byte, one_byte, c_cc, VMIN, VTIME.
  rewrite (aget_aset_ne _ _ (4 + 6)), !aget_aset_eq by (rewrite ?Zlen_aset; lia). done.
Qed.

Lemma aget_one_byte t i : 0 <= i < 4 -> aget (one_byte t) i = aget t i.
Proof. intros Hi. unfold one_byte, c_cc, VMIN, VTIME. by rewrite !aget_aset_ne by lia. Qed.

(** What is set is what is asked for, but for the parity. *)
Lemma cbreak_ok t : attributes t -> not_cbreak (cbreak t) = false.
Proof.
  intros Ht. unfold not_cbreak, cbreak. rewrite one_byte_ok by by apply attributes_upd. unfold c_lflag.
  rewrite aget_one_byte, aget_upd by done. simpl. unfold some_of. by rewrite land_clear.
Qed.

Lemma raw_fields t : attributes t ->
  aget (raw t) c_lflag = clear [ECHO; ICANON; IEXTEN; ISIG] (aget t c_lflag) /\
  aget (raw t) c_iflag = clear [BRKINT; ICRNL; ISTRIP; IXON] (aget t c_iflag) /\
  aget (raw t) c_cflag = Z.lor (clear [CSIZE; PARENB] (aget t c_cflag)) CS8 /\
  aget (raw t) c_oflag = clear [OPOST] (aget t c_oflag).
Proof.
  intros Ht. unfold raw, c_lflag, c_iflag, c_oflag, c_cflag. rewrite !aget_one_byte by done.
  rewrite !aget_upd by (done || by repeat apply attributes_upd). by split_and!.
Qed.

Lemma raw_ok t : attributes t -> not_raw (raw t) = some_of [INPCK] (aget t c_iflag).
Proof.
  intros Ht. unfold not_raw. destruct (raw_fields t Ht) as (-> & -> & -> & ->). unfold raw.
  rewrite one_byte_ok by by repeat apply attributes_upd. unfold some_of.
  rewrite (land_clear [ECHO; ICANON; IEXTEN; ISIG]), (land_clear [OPOST]), Z.land_lor_distr_l, (land_clear [CSIZE; PARENB]) by done.
  change (Z.lor 0 (Z.land CS8 (bits [CSIZE; PARENB; CS8]))) with CS8. rewrite !Z.eqb_refl, !orb_false_r. change (negb true) with false. rewrite orb_false_l.
  f_equal. f_equal. change (bits [BRKINT; ICRNL; INPCK; ISTRIP; IXON]) with (Z.lor INPCK (bits [BRKINT; ICRNL; ISTRIP; IXON])).
  rewrite Z.land_lor_distr_r, (clear_spec _ _ INPCK), (land_clear _ (bits _)), Z.lor_0_r by done. done.
Qed.

(** ** The terminal *)

(** What the program has asked for on [fd], and the attributes of an obedient terminal. *)
Definition requests (fd : Z) (h : list event) : list (list Z) :=
  omap (fun e => match e with Called (Tcsetattr fd' t) _ => if fd' =? fd then Some t else None | _ => None end) h.

Definition attr_step (fd : Z) (o : option (list Z)) (e : event) : option (list Z) :=
  match e with
  | Called (Tcsetattr fd' t) a => if (fd' =? fd) && (0 <=? a_ret a) then Some t else o
  | Called (Tcgetattr fd') a => if (fd' =? fd) && (0 <=? a_ret a) then Some (a_rd a) else o
  | _ => o
  end.
Definition attrs (fd : Z) (h : list event) : option (list Z) := foldl (attr_step fd) None h.

(** It does what it is told, and only that. *)
Definition obedient `{Kernel} : Prop := forall h fd a t,
  may h (Tcgetattr fd) a = true -> 0 <= a_ret a -> attrs fd h = Some t -> a_rd a = t.
Definition full_attributes `{Kernel} : Prop := forall fd a, allowed (Tcgetattr fd) a -> 0 <= a_ret a -> attributes (a_rd a).

Lemma attrs_snoc fd h e : attrs fd (h ++ [e]) = attr_step fd (attrs fd h) e.
Proof. unfold attrs. by rewrite foldl_app. Qed.

Lemma requests_app fd h h' : requests fd (h ++ h') = requests fd h ++ requests fd h'.
Proof. apply omap_app. Qed.

Section proofs.
Context `{Kernel}.
Implicit Types s : proc tty.

(** A failed call, with its error. *)
Definition failed_call (h : list event) (e : Z) : Prop := exists c a, Called c a ∈ h /\ a_ret a < 0 /\ e = a_errno a.

(** What an attempt to change the mode from [s0] has done, when [t] are the old attributes. *)
Inductive attempt (to : mode) new bad (fd : Z) s0 : Z -> list event -> proc tty -> Prop :=
| no_attributes a s : a_ret a < 0 -> errno s = a_errno a -> vars s = vars s0 ->
    attempt to new bad fd s0 (-1) [Called (Tcgetattr fd) a] s
| not_set a b s : 0 <= a_ret a -> a_ret b < 0 -> errno s = a_errno b -> ttystate (vars s) = RESET ->
    attempt to new bad fd s0 (-1) [Called (Tcgetattr fd) a; Called (Tcsetattr fd (new (a_rd a))) b] s
| not_checked a b c d s : 0 <= a_ret a -> 0 <= a_ret b -> a_ret c < 0 -> errno s = a_errno c -> ttystate (vars s) = RESET ->
    attempt to new bad fd s0 (-1) [Called (Tcgetattr fd) a; Called (Tcsetattr fd (new (a_rd a))) b;
      Called (Tcgetattr fd) c; Called (Tcsetattr fd (a_rd a)) d] s
| not_all a b c d s : 0 <= a_ret a -> 0 <= a_ret b -> 0 <= a_ret c -> bad (a_rd c) = true -> errno s = EINVAL ->
    ttystate (vars s) = RESET ->
    attempt to new bad fd s0 (-1) [Called (Tcgetattr fd) a; Called (Tcsetattr fd (new (a_rd a))) b;
      Called (Tcgetattr fd) c; Called (Tcsetattr fd (a_rd a)) d] s
| in_mode a b c s : 0 <= a_ret a -> 0 <= a_ret b -> 0 <= a_ret c -> bad (a_rd c) = false -> vars s = Tty (a_rd a) fd to ->
    attempt to new bad fd s0 0 [Called (Tcgetattr fd) a; Called (Tcsetattr fd (new (a_rd a))) b; Called (Tcgetattr fd) c] s.

(** The kernel may give each answer of [h] where it comes. *)
Definition permitted (h0 h : list event) : Prop :=
  forall h1 c a h2, h = h1 ++ Called c a :: h2 -> may (h0 ++ h1) c a = true.

Lemma permitted_snoc h0 h c a : permitted h0 h -> may (h0 ++ h) c a = true -> permitted h0 (h ++ [Called c a]).
Proof.
  intros Hh Ha h1 c' a' h2 E. destruct h2 as [|e h2 _] using rev_ind.
  - apply app_inj_tail in E as [-> [= -> ->]]. done.
  - rewrite app_comm_cons, app_assoc in E. apply app_inj_tail in E as [-> _]. by eapply Hh.
Qed.

(** [h] has happened since [s0]. *)
Record done_so_far s0 h s : Prop := {
  df_history : history s = history s0 ++ h;
  df_permitted : permitted (history s0) h;
}.

Lemma wp_do s0 h c (Q : answer -> proc tty -> Prop) s : done_so_far s0 h s ->
  (forall a s', done_so_far s0 (h ++ [Called c a]) s' -> vars s' = vars s ->
     errno s' = (if a_ret a <? 0 then a_errno a else errno s) -> Q a s') ->
  wp (sys c) Q (fun code _ => code = WAITING) s.
Proof.
  intros [E P] HQ. apply wp_sys_at; [|done]. intros a rest _ Ha. apply HQ; [|done|done].
  split; [simpl; by rewrite E, app_assoc|]. apply permitted_snoc; [done|by rewrite <-E].
Qed.

Lemma wp_put_back s0 h fd (Q : unit -> proc tty -> Prop) s : done_so_far s0 h s ->
  (forall a s', done_so_far s0 (h ++ [Called (Tcsetattr fd (save_termios (vars s))) a]) s' -> vars s' = vars s -> Q tt s') ->
  wp (put_back fd) Q (fun code _ => code = WAITING) s.
Proof.
  intros Hs HQ. apply wp_bind, wp_gets. eapply wp_bind, wp_do; [exact Hs|]. intros a s' H' V _. apply wp_ret. by apply (HQ a).
Qed.

Lemma done_same s0 h s s' : done_so_far s0 h s -> history s' = history s -> done_so_far s0 h s'.
Proof. intros [E P] E'. split; [by rewrite E'|done]. Qed.

Lemma wp_tty_mode to new bad fd s0 : ttystate (vars s0) = RESET ->
  wp (tty_mode to new bad fd) (fun r s' => exists h, done_so_far s0 h s' /\ attempt to new bad fd s0 r h s')
    (fun code _ => code = WAITING) s0.
Proof.
  intros Hm. assert (done_so_far s0 [] s0) as H0.
  { split; [by rewrite app_nil_r|]. intros h1 c a h2 E. by destruct h1. }
  apply wp_bind, wp_gets. rewrite bool_decide_true by done. simpl.
  eapply wp_bind, wp_do; [exact H0|]. intros a s1 H1 V1 E1. destruct (Z.ltb_spec (a_ret a) 0) as [|Ha].
  { apply wp_ret. eexists. split; [exact H1|]. by apply no_attributes. }
  apply wp_bind, wp_modify. eapply wp_bind, wp_bind, wp_do; [by eapply done_same|]. intros b s2 H2 V2 E2. apply wp_ret.
  simpl in V2. rewrite V1 in V2. destruct (Z.ltb_spec (a_ret b) 0) as [|Hb].
  { apply wp_ret. eexists. split; [exact H2|]. apply not_set; [done..|by rewrite V2]. }
  eapply wp_bind, wp_do; [exact H2|]. intros c s3 H3 V3 E3. rewrite V2 in V3. destruct (Z.ltb_spec (a_ret c) 0) as [|Hc].
  { apply wp_bind, wp_gets. eapply wp_bind, wp_put_back; [exact H3|]. intros d s4 D4 V4. rewrite V3 in V4, D4. simpl in D4.
    apply wp_bind, wp_modify, wp_ret. eexists. split; [by eapply done_same|]. apply not_checked; simpl; try done. by rewrite V4. }
  destruct (bad (a_rd c)) eqn:Ebad.
  - eapply wp_bind, wp_put_back; [exact H3|]. intros d s4 D4 V4. rewrite V3 in V4, D4. simpl in D4.
    apply wp_bind, wp_modify, wp_ret. eexists. split; [by eapply done_same|]. apply not_all; simpl; try done. by rewrite V4.
  - apply wp_bind, wp_modify, wp_bind, wp_modify, wp_ret. eexists. split; [by eapply done_same|].
    apply in_mode; try done. simpl. by rewrite V3.
Qed.

Lemma wp_tty_atexit t fd m (Q : unit -> proc tty -> Prop) s : vars s = Tty t fd m -> 0 <= fd -> m <> RESET ->
  (forall d s', history s' = history s ++ [Called (Tcsetattr fd t) d] -> Q tt s') ->
  wp tty_atexit Q (fun code _ => code = WAITING) s.
Proof.
  intros Hv Hfd Hm HQ. apply wp_bind, wp_gets. rewrite Hv. simpl. rewrite (proj2 (Z.leb_le _ _) Hfd).
  apply wp_bind, wp_bind, wp_gets. rewrite Hv. simpl. rewrite bool_decide_false by done.
  apply wp_bind, wp_gets. rewrite Hv. simpl. apply wp_bind, wp_bind, wp_sys; [|done]. intros d rest _ _. apply wp_ret.
  destruct (_ <? _); [by apply wp_ret, wp_ret, (HQ d)|]. by apply wp_bind, wp_modify, wp_ret, wp_ret, (HQ d).
Qed.

(** Nothing is to be reset. *)
Lemma wp_tty_atexit_reset (Q : unit -> proc tty -> Prop) X s : ttystate (vars s) = RESET -> Q tt s -> wp tty_atexit Q X s.
Proof.
  intros Hm HQ. apply wp_bind, wp_gets. destruct (_ <=? _); [|by apply wp_ret].
  apply wp_bind, wp_bind, wp_gets. rewrite bool_decide_true by done. by apply wp_ret, wp_ret.
Qed.

Section session.
Context (fd : Z) (work : M (proc tty) unit).
(** Between the two the program leaves the modes of the terminal alone. *)
Hypothesis Hwork : forall s, wp work (fun _ s' => vars s' = vars s /\ exists h, history s' = history s ++ h /\ requests fd h = [])
  (fun code _ => code = WAITING) s.

Definition enter (is_raw : bool) : M (proc tty) Z := if is_raw then tty_raw fd else tty_cbreak fd.
Definition wanted (is_raw : bool) : list Z -> list Z := if is_raw then raw else cbreak.
Definition session (is_raw : bool) : M (proc tty) Z := r <- enter is_raw ;; work ;; tty_atexit ;; ret r.

(** What it has asked for from [s0] to [s'], when the mode was entered ([r] is 0) and
    when it was not. *)
Definition given_back (is_raw : bool) s0 (r : Z) s' : Prop :=
  exists a h, history s' = history s0 ++ Called (Tcgetattr fd) a :: h /\
    let new := wanted is_raw (a_rd a) in
    (r = 0 /\ requests fd h = [new; a_rd a]) \/
    (r = -1 /\ (requests fd h = [] /\ a_ret a < 0 \/
                (exists b, Called (Tcsetattr fd new) b ∈ h /\ a_ret b < 0 /\ requests fd h = [new]) \/
                requests fd h = [new; a_rd a])).

(** C32: a program that enters one of the two modes with its terminal, works, and ends
    with [tty_atexit]: when the mode was entered its last request is for the
    attributes that the terminal had at the beginning. When it could not be entered
    nothing has been asked for, or the request for the mode has failed, or the last
    request is again for the old attributes. *)
Theorem tty_round_trip is_raw s0 : 0 <= fd -> ttystate (vars s0) = RESET ->
  wp (session is_raw) (given_back is_raw s0) (fun code _ => code = WAITING) s0.
Proof.
  intros Hfd Hm. apply wp_bind.
  apply (wp_conseq _ (fun r s1 => exists to bad h, to <> RESET /\ done_so_far s0 h s1 /\ attempt to (wanted is_raw) bad fd s0 r h s1)).
  { destruct is_raw; (eapply wp_mono; [by apply wp_tty_mode| |done]); intros r s1 (h & Hh & Ha);
      eexists _, _, h; (split; [|split; [exact Hh|exact Ha]]); done. }
  intros r s1 (to & bad & h & Hto & [E _] & Ha). apply wp_bind, (wp_conseq _ _ _ _ _ (Hwork s1)).
  intros _ s2 [V (h2 & E2 & R2)]. rewrite E in E2.
  assert (Hend : forall a h', h = Called (Tcgetattr fd) a :: h' -> r = -1 -> ttystate (vars s1) = RESET ->
    (requests fd h' = [] /\ a_ret a < 0 \/
     (exists b, Called (Tcsetattr fd (wanted is_raw (a_rd a))) b ∈ h' /\ a_ret b < 0 /\ requests fd h' = [wanted is_raw (a_rd a)]) \/
     requests fd h' = [wanted is_raw (a_rd a); a_rd a]) ->
    wp (tty_atexit ;; ret r) (given_back is_raw s0) (fun code _ => code = WAITING) s2).
  { intros a h' -> -> Hr Hreq. apply wp_bind, wp_tty_atexit_reset; [by rewrite V|]. apply wp_ret. exists a, (h' ++ h2).
    split; [by rewrite E2, <-app_assoc|]. right. split; [done|]. rewrite requests_app, R2, app_nil_r.
    destruct Hreq as [?|[(b & Hb & ?)|?]]; [by left|right; left|by right; right].
    exists b. split; [apply elem_of_app; by left|done]. }
  destruct Ha as [a s|a b s|a b c d s|a b c d s|a b c s].
  - apply (Hend a []); [done|done|congruence|by left].
  - eapply Hend; [done..|]. right. left. exists b. split; [by left|]. split; [done|]. simpl. by rewrite Z.eqb_refl.
  - eapply Hend; [done..|]. right. right. simpl. by rewrite Z.eqb_refl.
  - eapply Hend; [done..|]. right. right. simpl. by rewrite Z.eqb_refl.
  - assert (vars s2 = Tty (a_rd a) fd to) as V2 by congruence.
    apply wp_bind. eapply wp_tty_atexit; [exact V2|done|done|]. intros d s3 E3. rewrite E2, <-!app_assoc in E3. simpl in E3.
    apply wp_ret. eexists a, _. split; [exact E3|]. left. split; [done|]. simpl. rewrite Z.eqb_refl. f_equal.
    rewrite requests_app, R2. simpl. by rewrite Z.eqb_refl.
Qed.
End session.

(** Every call has succeeded. *)
Definition all_ok (h : list event) : Prop := Forall (fun e => match e with Called _ a => 0 <= a_ret a | _ => True end) h.

Lemma elem_not_ok c a h : Called c a ∈ h -> a_ret a < 0 -> ~ all_ok h.
Proof. intros Hin Ha Hok. unfold all_ok in Hok. rewrite Forall_forall in Hok. specialize (Hok _ Hin). simpl in Hok. lia. Qed.

(** On a terminal that obeys the result is decided by what it is told. *)
Lemma attempt_obedient to new bad fd s0 r h s : obedient -> full_attributes -> done_so_far s0 h s ->
  attempt to new bad fd s0 r h s -> all_ok h ->
  exists a h', h = Called (Tcgetattr fd) a :: h' /\ attributes (a_rd a) /\ 0 <= a_ret a /\
    r = (if bad (new (a_rd a)) then -1 else 0) /\
    (if bad (new (a_rd a)) then errno s = EINVAL /\ requests fd h' = [new (a_rd a); a_rd a]
     else vars s = Tty (a_rd a) fd to /\ requests fd h' = [new (a_rd a)]).
Proof.
  intros Hob Hfull [E P] Ha Hok.
  assert (Hattr : forall a h', h = Called (Tcgetattr fd) a :: h' -> 0 <= a_ret a -> attributes (a_rd a)).
  { intros a h' -> Hr. apply (Hfull fd); [|done]. eexists. by apply (P [] _ a h'). }
  assert (Hsame : forall a b c h', h = [Called (Tcgetattr fd) a; Called (Tcsetattr fd (new (a_rd a))) b; Called (Tcgetattr fd) c] ++ h' ->
    0 <= a_ret b -> 0 <= a_ret c -> a_rd c = new (a_rd a)).
  { intros a b c h' -> Hb Hc.
    apply (Hob ((history s0 ++ [Called (Tcgetattr fd) a]) ++ [Called (Tcsetattr fd (new (a_rd a))) b]) fd); [|done|].
    - rewrite <-app_assoc. by apply (P _ _ c h').
    - rewrite attrs_snoc. simpl. by rewrite Z.eqb_refl, (proj2 (Z.leb_le _ _) Hb). }
  destruct Ha as [a s Hr|a b s ? Hr|a b c d s ? ? Hr|a b c d s Ha Hb Hc Hbad He|a b c s Ha Hb Hc Hbad Hv].
  - exfalso. eapply (elem_not_ok _ a); [|exact Hr|exact Hok]. by left.
  - exfalso. eapply (elem_not_ok _ b); [|exact Hr|exact Hok]. by right; left.
  - exfalso. eapply (elem_not_ok _ c); [|exact Hr|exact Hok]. by right; right; left.
  - eexists a, _. split; [done|]. split; [by eapply Hattr|]. split; [done|].
    rewrite (Hsame a b c [_] eq_refl Hb Hc) in Hbad. rewrite Hbad. split; [done|]. split; [done|]. simpl. by rewrite Z.eqb_refl.
  - eexists a, _. split; [done|]. split; [by eapply Hattr|]. split; [done|].
    rewrite (Hsame a b c [] eq_refl Hb Hc) in Hbad. rewrite Hbad. split; [done|]. split; [done|]. simpl. by rewrite Z.eqb_refl.
Qed.

(** On a terminal that does what it is told, and while no call fails, [tty_cbreak]
    enters its mode. [tty_raw] does so unless the terminal checks the parity of its
    input: it does not ask for INPCK to be cleared, finds it set when it looks whether
    the terminal has done all it was asked for, and gives up with EINVAL, after it has
    put the old attributes back. *)
Theorem tty_raw_parity fd s0 : obedient -> full_attributes -> ttystate (vars s0) = RESET ->
  let post new bad to r s' := exists h, history s' = history s0 ++ h /\ (all_ok h ->
    exists a h', h = Called (Tcgetattr fd) a :: h' /\
      if bad (a_rd a) : bool
      then r = -1 /\ errno s' = EINVAL /\ requests fd h' = [new (a_rd a); a_rd a]
      else r = 0 /\ vars s' = Tty (a_rd a) fd to /\ requests fd h' = [new (a_rd a)]) in
  wp (tty_cbreak fd) (post cbreak (fun _ => false) CBREAK) (fun code _ => code = WAITING) s0 /\
  wp (tty_raw fd) (post raw (fun t => some_of [INPCK] (aget t c_iflag)) RAW) (fun code _ => code = WAITING) s0.
Proof.
  intros Hob Hfull Hm post. split; (eapply wp_mono; [by apply wp_tty_mode| |done]);
    intros r s' (h & Hd & Ha); exists h; (split; [apply Hd|]); intros Hok;
    destruct (attempt_obedient _ _ _ _ _ _ _ _ Hob Hfull Hd Ha Hok) as (a & h' & Eh & Hat & Hr & -> & Hres);
    exists a, h'; (split; [done|]).
  - rewrite cbreak_ok in Hres |- * by done. by destruct Hres.
  - rewrite raw_ok in Hres |- * by done. by destruct (some_of _ _); destruct Hres.
Qed.
End proofs.

(** ** Runs *)

Module TtyExample.
(** Terminals that do what they are told. *)
Definition kernel : Kernel := fun h c a =>
  match c with
  | Tcgetattr fd => (a_ret a <? 0) || (bool_decide (attributes (a_rd a)) &&
      match attrs fd h with Some t => bool_decide (a_rd a = t) | None => true end)
  | _ => true
  end.
#[local] Existing Instance kernel.

Lemma kernel_obedient : obedient.
Proof.
  intros h fd a t Ha Hr E. unfold may, kernel in Ha. apply orb_prop in Ha as [Ha|Ha]; [lia|].
  apply andb_prop in Ha as [_ Ha]. rewrite E in Ha. by apply bool_decide_eq_true in Ha.
Qed.

Lemma kernel_attributes : full_attributes.
Proof.
  intros fd a [h Ha] Hr. unfold may, kernel in Ha. apply orb_prop in Ha as [Ha|Ha]; [lia|].
  apply andb_prop in Ha as [Ha _]. by apply bool_decide_eq_true in Ha.
Qed.

(** The attributes of a console, and those of a line that checks parity. *)
Definition console : list Z := [1280; 5; 191; 35387] ++ replicate 32 0.
Definition parity : list Z := [1296; 5; 191; 35387] ++ replicate 32 0.
Definition shows (t : list Z) : answer := Ans 0 0 [] (Addr 0 0) t [] 0 no_stat.
Definition start_tty (t : list Z) : proc tty := Proc [shows t; number 0; shows (raw t); number 0] [] 0 tty0.
End TtyExample.

Example raw_console : match tty_raw (H := TtyExample.kernel) 0 (TtyExample.start_tty TtyExample.console) with
  | Ret r s => r = 0 /\ ttystate (vars s) = RAW /\ requests 0 (history s) = [raw TtyExample.console]
  | _ => False
  end.
Proof. vm_compute. auto. Qed.

Example raw_parity : match tty_raw (H := TtyExample.kernel) 0 (TtyExample.start_tty TtyExample.parity) with
  | Ret r s => r = -1 /\ errno s = EINVAL /\ requests 0 (history s) = [raw TtyExample.parity; TtyExample.parity]
  | _ => False
  end.
Proof. vm_compute. auto. Qed.

Lemma tty_round_trip_witness :
  wp (session (H := TtyExample.kernel) 0 (ret tt) true)
    (given_back 0 true (TtyExample.start_tty TtyExample.console)) (fun code _ => code = WAITING)
    (TtyExample.start_tty TtyExample.console).
Proof.
  apply tty_round_trip.
  - intros s. apply wp_ret. split; [reflexivity|]. exists []. split; [by rewrite app_nil_r|reflexivity].
  - lia.
  - reflexivity.
Defined.

Lemma tty_raw_parity_witness :
  let s0 := TtyExample.start_tty TtyExample.parity in
  let post new bad to r s' := exists h, history s' = history s0 ++ h /\ (all_ok h ->
    exists a h', h = Called (Tcgetattr 0) a :: h' /\
      if bad (a_rd a) : bool
      then r = -1 /\ errno s' = EINVAL /\ requests 0 h' = [new (a_rd a); a_rd a]
      else r = 0 /\ vars s' = Tty (a_rd a) 0 to /\ requests 0 h' = [new (a_rd a)]) in
  wp (tty_cbreak (H := TtyExample.kernel) 0) (post cbreak (fun _ => false) CBREAK) (fun code _ => code = WAITING) s0 /\
  wp (tty_raw (H := TtyExample.kernel) 0) (post raw (fun t => some_of [INPCK] (aget t c_iflag)) RAW) (fun code _ => code = WAITING) s0.
Proof.
  intros s0. apply (tty_raw_parity (H := TtyExample.kernel) 0 s0).
  - apply TtyExample.kernel_obedient.
  - apply TtyExample.kernel_attributes.
  - reflexivity.
Defined.
