(* ===== verification/TellWait.v ===== *)
(** TellWait: the two ways in which a parent and its child wait for each other:
    apue/15.2.3tell_wait.c with pipes and apue/10.16sigsuspend3.c with signals. Each
    call of the system, and each access to a variable that a handler writes, is one
    atomic step of one of the two processes, which run interleaved; the calls of the
    functions are a list of actions. The calls succeed, as after [tell_wait]. *)
From stdpp Require Import list.
From S2P Require Import Prelude Arrays Bytes.

(** ** Two processes *)

Inductive side := Parent | Child.
#[export] Instance side_eq_dec : EqDecision side.
Proof. solve_decision. Defined.
Definition other (w : side) : side := match w with Parent => Child | Child => Parent end.

(** What a process does: TELL is TELL_CHILD of the parent and TELL_PARENT of the child,
    and WAIT is WAIT_CHILD of the parent and WAIT_PARENT of the child. *)
Inductive action := TELL | WAIT | OUT.
#[export] Instance action_eq_dec : EqDecision action.
Proof. solve_decision. Defined.

(** ** 15.2.3: pipes *)

Module Pipes.
(** [todo] is [None] after [err_quit]. [pfd1] is read by the child, [pfd2] by the parent. *)
Record system := System {
  parent : option (list action); child : option (list action); pfd1 : bytes; pfd2 : bytes; log : list side }.

Section pipes.
(** How many bytes a pipe holds. *)
Context (PIPE_SIZE : nat).

(** The pair of pipes that [tell_wait] makes. *)
Definition tell_wait (p c : list action) : system := System (Some p) (Some c) [] [] [].

Definition todo (w : side) (s : system) : option (list action) := match w with Parent => parent s | Child => child s end.
Definition set_todo (w : side) (l : option (list action)) (s : system) : system :=
  match w with
  | Parent => System l (child s) (pfd1 s) (pfd2 s) (log s)
  | Child => System (parent s) l (pfd1 s) (pfd2 s) (log s)
  end.
Definition set_pfd1 (b : bytes) (s : system) : system := System (parent s) (child s) b (pfd2 s) (log s).
Definition set_pfd2 (b : bytes) (s : system) : system := System (parent s) (child s) (pfd1 s) b (log s).
Definition set_log (l : list side) (s : system) : system := System (parent s) (child s) (pfd1 s) (pfd2 s) l.

(** 'c' and 'p'; [None] when the call blocks. *)
Definition tell_parent (s : system) : option system :=
  if decide (length (pfd2 s) < PIPE_SIZE)%nat then Some (set_pfd2 (pfd2 s ++ [99]) s) else None.
Definition tell_child (s : system) : option system :=
  if decide (length (pfd1 s) < PIPE_SIZE)%nat then Some (set_pfd1 (pfd1 s ++ [112]) s) else None.

(** The second result tells whether the data was correct. *)
Definition wait_parent (s : system) : option (system * bool) :=
  match pfd1 s with [] => None | c :: rest => Some (set_pfd1 rest s, c =? 112) end.
Definition wait_child (s : system) : option (system * bool) :=
  match pfd2 s with [] => None | c :: rest => Some (set_pfd2 rest s, c =? 99) end.

(** The next step of a process, if it has one. *)
Definition step (w : side) (s : system) : option system :=
  match todo w s with
  | Some (OUT :: l) => Some (set_todo w (Some l) (set_log (log s ++ [w]) s))
  | Some (TELL :: l) => set_todo w (Some l) <$> match w with Parent => tell_child s | Child => tell_parent s end
  | Some (WAIT :: l) =>
      (fun '(s, ok) => set_todo w (if ok : bool then Some l else None) s) <$>
        match w with Parent => wait_child s | Child => wait_parent s end
  | _ => None
  end.

Fixpoint run (moves : list side) (s : system) : option system :=
  match moves with
  | [] => Some s
  | w :: moves => match step w s with Some s => run moves s | None => None end
  end.
End pipes.
End Pipes.

(** ** 10.16: signals *)

Module Signals.
(** Where a process is in WAIT_PARENT or WAIT_CHILD. *)
Inductive point :=
| Outside
| Test      (* while (sigflag == 0) *)
| Suspend   (* sigsuspend(&zeromask) *)
| Asleep    (* in sigsuspend, with no signal blocked *)
| Clear     (* sigflag = 0 *)
| Unmask.   (* sigprocmask(SIG_SETMASK, &oldmask, NULL) *)
#[export] Instance point_eq_dec : EqDecision point.
Proof. solve_decision. Defined.

(** [blocked] says whether SIGUSR1 and SIGUSR2 are blocked, and [pending] whether the
    one for this process is pending: signals do not queue. *)
Record process := Process { todo : list action; at_ : point; sigflag : Z; blocked : bool; pending : bool }.
Record system := System { parent : process; child : process; log : list side }.

(** The state after [tell_wait] and [fork], which keeps the mask and the handlers. *)
Definition tell_wait (p c : list action) : system :=
  System (Process p Outside 0 true false) (Process c Outside 0 true false) [].

Definition proc (w : side) (s : system) : process := match w with Parent => parent s | Child => child s end.
Definition set_proc (w : side) (p : process) (s : system) : system :=
  match w with Parent => System p (child s) (log s) | Child => System (parent s) p (log s) end.

(** [kill], which makes the signal pending. *)
Definition notify (p : process) : process := Process (todo p) (at_ p) (sigflag p) (blocked p) true.

(** A step inside of WAIT_PARENT or WAIT_CHILD. *)
Definition wait_step (p : process) : option process :=
  match at_ p with
  | Outside => Some (Process (todo p) Test (sigflag p) (blocked p) (pending p))
  | Test => Some (Process (todo p) (if sigflag p =? 0 then Suspend else Clear) (sigflag p) (blocked p) (pending p))
  | Suspend => Some (Process (todo p) Asleep (sigflag p) (blocked p) (pending p))
  | Asleep => None
  | Clear => Some (Process (todo p) Unmask 0 (blocked p) (pending p))
  | Unmask => Some (Process (tail (todo p)) Outside (sigflag p) false (pending p))
  end.

(** [sig_usr], when the signal is delivered; [sigsuspend] then returns, with the mask
    as it was. *)
Definition sig_usr (p : process) : process :=
  Process (todo p) (if decide (at_ p = Asleep) then Test else at_ p) 1 (blocked p) false.

Definition step (w : side) (s : system) : option system :=
  let p := proc w s in
  match todo p with
  | OUT :: l => Some (set_proc w (Process l (at_ p) (sigflag p) (blocked p) (pending p)) (System (parent s) (child s) (log s ++ [w])))
  | TELL :: l => Some (set_proc (other w) (notify (proc (other w) s))
                   (set_proc w (Process l (at_ p) (sigflag p) (blocked p) (pending p)) s))
  | WAIT :: _ => (fun p => set_proc w p s) <$> wait_step p
  | [] => None
  end.

Definition deliver (w : side) (s : system) : option system :=
  let p := proc w s in
  if pending p && (negb (blocked p) || bool_decide (at_ p = Asleep)) then Some (set_proc w (sig_usr p) s) else None.

Inductive move := Step (w : side) | Deliver (w : side).
Definition make (m : move) (s : system) : option system := match m with Step w => step w s | Deliver w => deliver w s end.

Fixpoint run (moves : list move) (s : system) : option system :=
  match moves with
  | [] => Some s
  | m :: moves => match make m s with Some s => run moves s | None => None end
  end.
End Signals.
