(* ===== verification/TellWaitProofs.v ===== *)
(** TellWaitProofs: with pipes no notification is lost and no wait is ended by itself,
    however often the processes call each other. With signals this holds for the
    first wait of each process; a second one can sleep for ever. *)
From stdpp Require Import list.
From S2P Require Import Prelude Arrays Bytes TellWait.

Definition count (a : action) (l : list action) : nat := length (filter (fun x => x = a) l).

Lemma count_app a l l' : count a (l ++ l') = (count a l + count a l')%nat.
Proof. unfold count. by rewrite filter_app, length_app. Qed.

Lemma count_one a b : count a [b] = if decide (b = a) then 1%nat else 0%nat.
Proof. unfold count. rewrite filter_cons. by destruct (decide (b = a)). Qed.

(** What the counts of a longer prefix are. *)
Ltac counts := rewrite ?count_app, ?count_one, ?length_app in *; repeat case_decide; simplify_eq; simpl in *; try lia.

(** ** Pipes *)

Section pipes.
Context (PIPE_SIZE : nat).
Notation step := (Pipes.step PIPE_SIZE).
Notation run := (Pipes.run PIPE_SIZE).

(** [dp] and [dc] have been done of the programs [p] and [c]; the pipes hold what has
    been told and not yet been waited for. *)
Record piped (p c dp dc : list action) (s : Pipes.system) : Prop := {
  pd_parent : exists l, Pipes.parent s = Some l /\ p = dp ++ l;
  pd_child : exists l, Pipes.child s = Some l /\ c = dc ++ l;
  pd_pfd1 : exists k, Pipes.pfd1 s = replicate k 112 /\ count TELL dp = (count WAIT dc + k)%nat;
  pd_pfd2 : exists k, Pipes.pfd2 s = replicate k 99 /\ count TELL dc = (count WAIT dp + k)%nat;
}.

Lemma replicate_snoc (k : nat) (x : Z) : replicate k x ++ [x] = replicate (S k) x.
Proof. induction k as [|k IH]; [done|]. simpl. by rewrite IH. Qed.

Lemma piped_parent p c dp dc s s' : piped p c dp dc s -> step Parent s = Some s' ->
  exists a, piped p c (dp ++ [a]) dc s'.
Proof.
  intros [(lp & Ep & Hp) (lc & Ec & Hc) (k1 & E1 & H1) (k2 & E2 & H2)] Hs. unfold Pipes.step in Hs. simpl in Hs. rewrite Ep in Hs.
  destruct lp as [|[] lp]; [done| | |].
  - unfold Pipes.tell_child in Hs. destruct (decide _); [|done]. injection Hs as <-. exists TELL.
    split; simpl; [exists lp|by exists lc|exists (S k1)|exists k2]; rewrite ?Hp, <-?app_assoc; try done.
    + rewrite E1, replicate_snoc. split; [done|]. counts.
    + split; [done|]. counts.
  - unfold Pipes.wait_child in Hs. rewrite E2 in Hs. destruct k2 as [|k2]; [done|]. injection Hs as <-. exists WAIT.
    split; simpl; [exists lp|by exists lc|exists k1|exists k2]; rewrite ?Hp, <-?app_assoc; try done; (split; [done|counts]).
  - injection Hs as <-. exists OUT.
    split; simpl; [exists lp|by exists lc|exists k1|exists k2]; rewrite ?Hp, <-?app_assoc; try done; (split; [done|counts]).
Qed.

Lemma piped_child p c dp dc s s' : piped p c dp dc s -> step Child s = Some s' ->
  exists a, piped p c dp (dc ++ [a]) s'.
Proof.
  intros [(lp & Ep & Hp) (lc & Ec & Hc) (k1 & E1 & H1) (k2 & E2 & H2)] Hs. unfold Pipes.step in Hs. simpl in Hs. rewrite Ec in Hs.
  destruct lc as [|[] lc]; [done| | |].
  - unfold Pipes.tell_parent in Hs. destruct (decide _); [|done]. injection Hs as <-. exists TELL.
    split; simpl; [by exists lp|exists lc|exists k1|exists (S k2)]; rewrite ?Hc, <-?app_assoc; try done.
    + split; [done|]. counts.
    + rewrite E2, replicate_snoc. split; [done|]. counts.
  - unfold Pipes.wait_parent in Hs. rewrite E1 in Hs. destruct k1 as [|k1]; [done|]. injection Hs as <-. exists WAIT.
    split; simpl; [by exists lp|exists lc|exists k1|exists k2]; rewrite ?Hc, <-?app_assoc; try done; (split; [done|counts]).
  - injection Hs as <-. exists OUT.
    split; simpl; [by exists lp|exists lc|exists k1|exists k2]; rewrite ?Hc, <-?app_assoc; try done; (split; [done|counts]).
Qed.

Lemma piped_run p c moves s0 dp0 dc0 s : piped p c dp0 dc0 s0 -> run moves s0 = Some s ->
  exists dp dc, piped p c dp dc s /\ (length dp + length dc = length dp0 + length dc0 + length moves)%nat.
Proof.
  revert s0 dp0 dc0. induction moves as [|w moves IH]; intros s0 dp0 dc0 H0 Hr.
  - injection Hr as <-. exists dp0, dc0. split; [done|simpl; lia].
  - simpl in Hr. destruct (step w s0) as [s1|] eqn:Es; [|done]. destruct w.
    + destruct (piped_parent _ _ _ _ _ _ H0 Es) as [a H1]. destruct (IH _ _ _ H1 Hr) as (dp & dc & Hd & L).
      exists dp, dc. split; [done|]. rewrite length_app in L. simpl in *. lia.
    + destruct (piped_child _ _ _ _ _ _ H0 Es) as [a H1]. destruct (IH _ _ _ H1 Hr) as (dp & dc & Hd & L).
      exists dp, dc. split; [done|]. rewrite length_app in L. simpl in *. lia.
Qed.

(** A process that cannot go on is at its end, waits for a notification that was not
    sent, or has filled the pipe; [told] and [got] are the notifications it has sent
    and those that it has received, and [told'] and [got'] the same of the other. *)
Definition waits_rightly (l : list action) (told got told' got' : nat) : Prop :=
  l = [] \/ (head l = Some WAIT /\ told' = got) \/ (head l = Some TELL /\ (PIPE_SIZE <= told - got')%nat).

(** The processes that use pipes, at every moment of every interleaving, whatever
    they call: the data is always that which is expected, each process has waited at
    most as often as the other has told it, the steps are those of the programs, so
    that there are boundedly many, and if no process can go on, each is at its end or
    waits for a notification of which none is left, or has filled the pipe: no
    notification is ever lost. *)
Theorem pipes_handshake p c moves s : run moves (Pipes.tell_wait p c) = Some s ->
  exists dp dc lp lc, Pipes.parent s = Some lp /\ Pipes.child s = Some lc /\ p = dp ++ lp /\ c = dc ++ lc /\
    (length moves = length dp + length dc)%nat /\
    (count WAIT dc <= count TELL dp)%nat /\ (count WAIT dp <= count TELL dc)%nat /\
    (step Parent s = None -> step Child s = None ->
       waits_rightly lp (count TELL dp) (count WAIT dp) (count TELL dc) (count WAIT dc) /\
       waits_rightly lc (count TELL dc) (count WAIT dc) (count TELL dp) (count WAIT dp)).
Proof.
  intros Hr. destruct (piped_run p c moves (Pipes.tell_wait p c) [] [] s) as (dp & dc & [(lp & Ep & Hp) (lc & Ec & Hc) (k1 & E1 & H1) (k2 & E2 & H2)] & L); [|done|].
  { split; [by exists p|by exists c|by exists 0%nat|by exists 0%nat]. }
  exists dp, dc, lp, lc. do 4 (split; [done|]). split; [simpl in L; lia|]. split; [lia|]. split; [lia|]. intros Hsp Hsc. split.
  - unfold Pipes.step in Hsp. simpl in Hsp. rewrite Ep in Hsp. destruct lp as [|[] lp]; [by left| | |done]; right.
    + right. split; [done|]. unfold Pipes.tell_child in Hsp. destruct (decide _) as [|Hn]; [done|]. rewrite E1, length_replicate in Hn. lia.
    + left. split; [done|]. unfold Pipes.wait_child in Hsp. rewrite E2 in Hsp. destruct k2; [lia|done].
  - unfold Pipes.step in Hsc. simpl in Hsc. rewrite Ec in Hsc. destruct lc as [|[] lc]; [by left| | |done]; right.
    + right. split; [done|]. unfold Pipes.tell_parent in Hsc. destruct (decide _) as [|Hn]; [done|]. rewrite E2, length_replicate in Hn. lia.
    + left. split; [done|]. unfold Pipes.wait_parent in Hsc. rewrite E1 in Hsc. destruct k1; [lia|done].
Qed.
End pipes.

(** ** Signals *)

Section signals.
Import Signals.
Implicit Types s : Signals.system.
Implicit Types q : process.

(** A process that has done [d]; the other has told it [n] times. *)
Record signalled (n : nat) (d : list action) q : Prop := {
  sg_state :
    (count WAIT d = 0%nat /\ blocked q = true /\
       match at_ q with
       | Outside | Suspend | Asleep => sigflag q = 0 /\ pending q = bool_decide (0 < n)%nat
       | Test => (sigflag q = 0 /\ pending q = bool_decide (0 < n)%nat) \/ (sigflag q <> 0 /\ (0 < n)%nat)
       | Clear | Unmask => (0 < n)%nat
       end) \/ ((0 < count WAIT d)%nat /\ at_ q = Outside /\ (0 < n)%nat);
  sg_inside : at_ q <> Outside -> exists l, todo q = WAIT :: l;
  sg_once : (count WAIT (d ++ todo q) <= 1)%nat;
}.

(** How much there is left to do. *)
Definition rank q : nat :=
  match at_ q with
  | Outside => 7
  | Test => if sigflag q =? 0 then 6 else 3
  | Suspend => 5
  | Asleep => 4
  | Clear => 2
  | Unmask => 1
  end.
Definition left_over q : nat := 8 * length (todo q) + rank q + if pending q then 1 else 0.
Definition potential s : nat := left_over (parent s) + left_over (child s).

Lemma signalled_notify n d q : signalled n d q -> signalled (S n) d (notify q).
Proof.
  intros [St In On]. split; [|done|done]. simpl.
  destruct St as [(Hc & Hb & St)|(Hc & Ha & Hn)]; [left|right; by split_and!; [|done|lia]].
  split; [done|]. split; [done|]. destruct (at_ q); naive_solver lia.
Qed.

Lemma signalled_deliver n d q : signalled n d q -> pending q = true -> blocked q = false \/ at_ q = Asleep ->
  signalled n d (sig_usr q) /\ (left_over (sig_usr q) < left_over q)%nat.
Proof.
  intros [St In On] Hp Hd. split.
  - split; simpl; [|by intros Ha; apply In; destruct (decide (at_ q = Asleep)); congruence|done].
    destruct St as [(Hc & Hb & St)|(Hc & Ha & Hn)].
    + destruct Hd as [Hd|Ha]; [congruence|]. rewrite Ha in *. left. split; [done|]. split; [done|]. simpl. right. split; [done|].
      destruct St as [_ St]. rewrite Hp in St. symmetry in St. by apply bool_decide_eq_true in St.
    + right. rewrite Ha. by rewrite decide_False.
  - unfold left_over, rank. simpl. rewrite Hp. destruct (at_ q); simpl; [lia| |lia..]. destruct (sigflag q =? 0); lia.
Qed.

(** A step of WAIT; the last one ends it. *)
Lemma signalled_wait n d q q' l : signalled n d q -> todo q = WAIT :: l -> wait_step q = Some q' ->
  (left_over q' < left_over q)%nat /\
  ((todo q' = todo q /\ signalled n d q') \/ (todo q' = l /\ signalled n (d ++ [WAIT]) q')).
Proof.
  intros [St In On] Hl Hs. unfold wait_step in Hs.
  assert (Hw : (count WAIT d = 0)%nat) by (rewrite Hl in On; rewrite count_app in On; unfold count in *; simpl in On; lia).
  destruct St as [(_ & Hb & St)|(Hc & _)]; [|lia].
  destruct (at_ q) eqn:Ea; try done; injection Hs as <-; unfold left_over, rank; rewrite Ea; simpl.
  - split; [destruct (sigflag q =? 0); lia|]. left. split; [done|]. split; simpl; [left; by split_and!; [| |left]|by exists l|done].
  - destruct (Z.eqb_spec (sigflag q) 0); (split; [simpl; lia|]); left; (split; [done|]); split; simpl; try done; try (by exists l); left; naive_solver.
  - split; [lia|]. left. split; [done|]. split; simpl; [by left|by exists l|done].
  - split; [lia|]. left. split; [done|]. split; simpl; [by left|by exists l|done].
  - rewrite Hl. simpl. split; [lia|]. right. split; [done|]. split; simpl; [right|done|].
    + split_and!; [counts|done|done].
    + rewrite <-app_assoc. simpl. by rewrite Hl in On.
Qed.

(** Both processes; [dp] and [dc] have been done of the programs [p] and [c]. *)
Record both (p c dp dc : list action) s : Prop := {
  bt_parent : p = dp ++ todo (parent s);
  bt_child : c = dc ++ todo (child s);
  bt_sig_parent : signalled (count TELL dc) dp (parent s);
  bt_sig_child : signalled (count TELL dp) dc (child s);
}.

Lemma signalled_act n d q a l : signalled n d q -> todo q = a :: l -> a <> WAIT ->
  signalled n (d ++ [a]) (Process l (at_ q) (sigflag q) (blocked q) (pending q)).
Proof.
  intros [St In On] Hl Ha. assert (at_ q = Outside) as Ho.
  { destruct (decide (at_ q = Outside)) as [|Hn]; [done|]. destruct (In Hn) as [l' E]. congruence. }
  assert (count WAIT (d ++ [a]) = count WAIT d) as Hc by (counts).
  split; simpl; rewrite ?Hc; [done|congruence|]. rewrite <-app_assoc. simpl. by rewrite Hl in On.
Qed.

Lemma count_act a d : a <> TELL -> count TELL (d ++ [a]) = count TELL d.
Proof. intros Ha. counts. Qed.

(** A step of either process. *)
Lemma both_step p c dp dc s w s' : both p c dp dc s -> step w s = Some s' ->
  exists dp' dc', both p c dp' dc' s' /\ (potential s' < potential s)%nat.
Proof.
  intros [Hp Hc Sp Sc] Hs. unfold step in Hs. unfold potential. destruct w; simpl in Hs.
  - destruct (todo (parent s)) as [|a l] eqn:El; [done|]. destruct a.
    + injection Hs as <-. exists (dp ++ [TELL]), dc. split; [split; simpl; [by rewrite <-app_assoc|done|by eapply signalled_act|]|].
      * assert (count TELL (dp ++ [TELL]) = S (count TELL dp)) as -> by counts. by apply signalled_notify.
      * unfold left_over, rank. rewrite El. simpl. destruct (pending (child s)); lia.
    + destruct (wait_step (parent s)) as [q|] eqn:Eq; [|done]. injection Hs as <-.
      destruct (signalled_wait _ _ _ _ _ Sp El Eq) as [L [[Et Sq]|[Et Sq]]].
      * exists dp, dc. split; [split; simpl; try done; congruence|simpl; lia].
      * exists (dp ++ [WAIT]), dc. split; [split; simpl; try done|simpl; lia]; [by rewrite Et, <-app_assoc|by rewrite count_act].
    + injection Hs as <-. exists (dp ++ [OUT]), dc. split; [split; simpl; [by rewrite <-app_assoc|done|by eapply signalled_act|by rewrite count_act]|].
      unfold left_over, rank. rewrite El. simpl. lia.
  - destruct (todo (child s)) as [|a l] eqn:El; [done|]. destruct a.
    + injection Hs as <-. exists dp, (dc ++ [TELL]). split; [split; simpl; [done|by rewrite <-app_assoc| |by eapply signalled_act]|].
      * assert (count TELL (dc ++ [TELL]) = S (count TELL dc)) as -> by counts. by apply signalled_notify.
      * unfold left_over, rank. rewrite El. simpl. destruct (pending (parent s)); lia.
    + destruct (wait_step (child s)) as [q|] eqn:Eq; [|done]. injection Hs as <-.
      destruct (signalled_wait _ _ _ _ _ Sc El Eq) as [L [[Et Sq]|[Et Sq]]].
      * exists dp, dc. split; [split; simpl; try done; congruence|simpl; lia].
      * exists dp, (dc ++ [WAIT]). split; [split; simpl; try done|simpl; lia]; [by rewrite Et, <-app_assoc|by rewrite count_act].
    + injection Hs as <-. exists dp, (dc ++ [OUT]). split; [split; simpl; [done|by rewrite <-app_assoc|by rewrite count_act|by eapply signalled_act]|].
      unfold left_over, rank. rewrite El. simpl. lia.
Qed.

Lemma both_deliver p c dp dc s w s' : both p c dp dc s -> deliver w s = Some s' ->
  both p c dp dc s' /\ (potential s' < potential s)%nat.
Proof.
  intros [Hp Hc Sp Sc] Hs. unfold deliver in Hs. destruct (_ && _) eqn:E; [|done]. injection Hs as <-.
  apply andb_prop in E as [Ep Eb]. assert (blocked (proc w s) = false \/ at_ (proc w s) = Asleep) as Hd.
  { apply orb_prop in Eb as [Eb|Eb]; [left; by destruct (blocked _)|right; by apply bool_decide_eq_true in Eb]. }
  unfold potential. destruct w; simpl in *.
  - destruct (signalled_deliver _ _ _ Sp Ep Hd) as [S' L]. split; [by split|lia].
  - destruct (signalled_deliver _ _ _ Sc Ep Hd) as [S' L]. split; [by split|lia].
Qed.

Lemma both_run p c moves s0 dp0 dc0 s : both p c dp0 dc0 s0 -> run moves s0 = Some s ->
  exists dp dc, both p c dp dc s /\ (length moves + potential s <= potential s0)%nat.
Proof.
  revert s0 dp0 dc0. induction moves as [|m moves IH]; intros s0 dp0 dc0 H0 Hr.
  - injection Hr as <-. exists dp0, dc0. split; [done|simpl; lia].
  - simpl in Hr. destruct (make m s0) as [s1|] eqn:Es; [|done].
    assert (exists dp dc, both p c dp dc s1 /\ (potential s1 < potential s0)%nat) as (dp1 & dc1 & H1 & L1).
    { destruct m as [w|w]; [by eapply both_step|]. destruct (both_deliver _ _ _ _ _ _ _ H0 Es). by exists dp0, dc0. }
    destruct (IH _ _ _ H1 Hr) as (dp & dc & Hd & L). exists dp, dc. split; [done|]. simpl. lia.
Qed.

(** A process that cannot move is at its end or sleeps before it has been told. *)
Lemma stuck_process n d q : signalled n d q -> (match todo q with WAIT :: _ => is_Some (wait_step q) | [] => False | _ => True end -> False) ->
  pending q && (negb (blocked q) || bool_decide (at_ q = Asleep)) = false -> todo q = [] \/ at_ q = Asleep /\ n = 0%nat.
Proof.
  intros [St In On] Hs Hd. destruct (todo q) as [|[] l] eqn:El; [by left|exfalso; by apply Hs| |exfalso; by apply Hs]. right.
  destruct (decide (at_ q = Asleep)) as [Ha|Ha].
  - split; [done|]. rewrite Ha in *. rewrite bool_decide_true, orb_true_r, andb_true_r in Hd by done.
    destruct St as [(_ & _ & _ & Hp)|(_ & Ho & _)]; [|done]. rewrite Hp in Hd. apply bool_decide_eq_false in Hd. lia.
  - exfalso. apply Hs. unfold wait_step. destruct (at_ q); done.
Qed.

(** C22: the processes that use signals, when each of them calls WAIT at most once, at
    every moment of every interleaving of their steps and of the deliveries: a process
    that has waited has been told before; the number of steps is bounded by the
    lengths of the programs; and if nothing more can happen, each process is at its
    end, or sleeps and has never been told: the signal is not lost, wherever it
    arrives. *)
Theorem signals_handshake p c moves s : (count WAIT p <= 1)%nat -> (count WAIT c <= 1)%nat ->
  run moves (tell_wait p c) = Some s ->
  exists dp dc, p = dp ++ todo (parent s) /\ c = dc ++ todo (child s) /\
    (length moves <= 8 * (length p + length c) + 14)%nat /\
    (count WAIT dp <= count TELL dc)%nat /\ (count WAIT dc <= count TELL dp)%nat /\
    ((forall m, make m s = None) ->
       (todo (parent s) = [] \/ at_ (parent s) = Asleep /\ count TELL dc = 0%nat) /\
       (todo (child s) = [] \/ at_ (child s) = Asleep /\ count TELL dp = 0%nat)).
Proof.
  intros Hp1 Hc1 Hr. destruct (both_run p c moves (tell_wait p c) [] [] s) as (dp & dc & [Hp Hc Sp Sc] & L); [|done|].
  { split; [done|done| |]; (split; simpl; [by left|done|done]). }
  assert (Hle : forall n d q, signalled n d q -> (count WAIT d <= n)%nat).
  { intros n d q [St _ On]. rewrite count_app in On. destruct St as [(? & _)|(_ & _ & ?)]; lia. }
  exists dp, dc. do 2 (split; [done|]). split; [unfold potential, left_over, rank in L; simpl in L; lia|].
  split; [by eapply Hle|]. split; [by eapply Hle|]. intros Hstuck. split.
  - apply (stuck_process _ _ _ Sp).
    + intros Hs. specialize (Hstuck (Step Parent)). simpl in Hstuck. unfold step in Hstuck. simpl in Hstuck.
      destruct (todo (parent s)) as [|[] l]; try done. by destruct Hs as [q Eq]; rewrite Eq in Hstuck.
    + specialize (Hstuck (Deliver Parent)). simpl in Hstuck. unfold deliver in Hstuck. simpl in Hstuck. by destruct (_ && _).
  - apply (stuck_process _ _ _ Sc).
    + intros Hs. specialize (Hstuck (Step Child)). simpl in Hstuck. unfold step in Hstuck. simpl in Hstuck.
      destruct (todo (child s)) as [|[] l]; try done. by destruct Hs as [q Eq]; rewrite Eq in Hstuck.
    + specialize (Hstuck (Deliver Child)). simpl in Hstuck. unfold deliver in Hstuck. simpl in Hstuck. by destruct (_ && _).
Qed.

(** Two rounds of taking turns. The first WAIT leaves the signals unblocked: one that
    arrives between the test of [sigflag] and [sigsuspend] is lost. *)
Definition turns_parent : list action := [OUT; TELL; WAIT; OUT; TELL; WAIT].
Definition turns_child : list action := [WAIT; OUT; TELL; WAIT; OUT; TELL].

(** With a second WAIT a notification can be lost: two processes that take turns
    can come to a state where nothing more can happen, although the child has been
    told twice and has waited once. *)
Theorem signals_lost : exists moves s, run moves (tell_wait turns_parent turns_child) = Some s /\
  (forall m, make m s = None) /\ log s = [Parent; Child; Parent] /\
  todo (parent s) = [WAIT] /\ todo (child s) = [WAIT; OUT; TELL] /\ sigflag (child s) = 1 /\ at_ (child s) = Asleep.
Proof.
  exists ([Step Parent; Step Parent] ++ replicate 3 (Step Child) ++ [Deliver Child] ++ replicate 7 (Step Child) ++
    replicate 3 (Step Parent) ++ [Deliver Parent] ++ replicate 5 (Step Parent) ++ [Deliver Child; Step Child] ++ replicate 3 (Step Parent)).
  vm_compute. eexists. split; [reflexivity|]. split; [by intros [[]|[]]|done].
Qed.
End signals.

(** ** Runs *)

(** The program of 8.9, with its calls: the output of the child comes second. *)
Example second_is_child : forall s, Pipes.run 65536 [Parent; Parent; Child; Child] (Pipes.tell_wait [OUT; TELL] [WAIT; OUT]) = Some s ->
  Pipes.log s = [Parent; Child].
Proof. intros s Hs. vm_compute in Hs. by injection Hs as <-. Qed.

Lemma pipes_handshake_witness :
  let s := Pipes.System (Some []) (Some [OUT]) [] [] [Parent] in
  Pipes.run 65536 [Parent; Parent; Child] (Pipes.tell_wait [OUT; TELL] [WAIT; OUT]) = Some s /\
  exists dp dc lp lc, Pipes.parent s = Some lp /\ Pipes.child s = Some lc /\ [OUT; TELL] = dp ++ lp /\ [WAIT; OUT] = dc ++ lc /\
    (3 = length dp + length dc)%nat /\
    (count WAIT dc <= count TELL dp)%nat /\ (count WAIT dp <= count TELL dc)%nat /\
    (Pipes.step 65536 Parent s = None -> Pipes.step 65536 Child s = None ->
       waits_rightly 65536 lp (count TELL dp) (count WAIT dp) (count TELL dc) (count WAIT dc) /\
       waits_rightly 65536 lc (count TELL dc) (count WAIT dc) (count TELL dp) (count WAIT dp)).
Proof.
  intros s. assert (Hr : Pipes.run 65536 [Parent; Parent; Child] (Pipes.tell_wait [OUT; TELL] [WAIT; OUT]) = Some s) by (vm_compute; reflexivity).
  split; [exact Hr|]. exact (pipes_handshake 65536 _ _ _ _ Hr).
Defined.

Lemma signals_handshake_witness :
  let moves := map Signals.Step [Parent; Parent; Child] in
  let s := Signals.System (Signals.Process [] Signals.Outside 0 true false) (Signals.Process [WAIT; OUT] Signals.Test 0 true true) [Parent] in
  exists dp dc, [OUT; TELL] = dp ++ Signals.todo (Signals.parent s) /\ [WAIT; OUT] = dc ++ Signals.todo (Signals.child s) /\
    (length moves <= 8 * (2 + 2) + 14)%nat /\
    (count WAIT dp <= count TELL dc)%nat /\ (count WAIT dc <= count TELL dp)%nat /\
    ((forall m, Signals.make m s = None) ->
       (Signals.todo (Signals.parent s) = [] \/ Signals.at_ (Signals.parent s) = Signals.Asleep /\ count TELL dc = 0%nat) /\
       (Signals.todo (Signals.child s) = [] \/ Signals.at_ (Signals.child s) = Signals.Asleep /\ count TELL dp = 0%nat)).
Proof.
  intros moves s. apply (signals_handshake [OUT; TELL] [WAIT; OUT] moves s).
  - vm_compute. lia.
  - vm_compute. lia.
  - reflexivity.
Defined.
