(* ===== verification/DevZero.v ===== *)
(** DevZero: apue/15.9dev_zero.c, a parent and a child that take turns to count in
    memory they share, with the functions of apue/15.2.3tell_wait.c between the turns.
    The increment of [update] is a load and a store, which the other process may come
    between. *)
From stdpp Require Import list.
From S2P Require Import Prelude Arrays Bytes TellWait.

Definition NLOOPS : Z := 1000.

(** Where a process is in its loop, whose variable is [i]; the old value that
    [update] returns is [v]. [Quit] is the end by [err_quit]. *)
Inductive point :=
| Test (i : Z)
| Load (i : Z)
| Store (i v : Z)
| Tell (i : Z)
| Wait (i : Z)
| Exited
| Quit.
#[export] Instance point_eq_dec : EqDecision point.
Proof. solve_decision. Defined.

(** [area] is the counter; of [pipes] only the contents of the two pipes are used. *)
Record system := System { area : Z; pipes : Pipes.system; parent : point; child : point }.

Section dev_zero.
Context (PIPE_SIZE : nat).

(** After [mmap], which gives zeros, [tell_wait] and [fork]. *)
Definition start : system := System 0 (Pipes.tell_wait [] []) (Test 0) (Test 1).

Definition set_area (v : Z) (s : system) : system := System v (pipes s) (parent s) (child s).
Definition set_pipes (q : Pipes.system) (s : system) : system := System (area s) q (parent s) (child s).
Definition set_parent (p : point) (s : system) : system := System (area s) (pipes s) p (child s).
Definition set_child (c : point) (s : system) : system := System (area s) (pipes s) (parent s) c.

(** The store of [update], which has read [v]. *)
Definition update (v : Z) (s : system) : system := set_area (v + 1) s.

(** The test of what it returned. *)
Definition stored (i v : Z) : point := if v =? i then Tell i else Quit.

(** [None] when the process has ended or its call blocks. *)
Definition parent_step (s : system) : option system :=
  match parent s with
  | Test i => Some (set_parent (if i <? NLOOPS then Load i else Exited) s)
  | Load i => Some (set_parent (Store i (area s)) s)
  | Store i v => Some (set_parent (stored i v) (update v s))
  | Tell i => (fun q => set_parent (Wait i) (set_pipes q s)) <$> Pipes.tell_child PIPE_SIZE (pipes s)
  | Wait i => (fun '(q, ok) => set_parent (if ok : bool then Test (i + 2) else Quit) (set_pipes q s)) <$>
                Pipes.wait_child (pipes s)
  | Exited | Quit => None
  end.

Definition child_step (s : system) : option system :=
  match child s with
  | Test i => Some (set_child (if i <? NLOOPS + 1 then Wait i else Exited) s)
  | Wait i => (fun '(q, ok) => set_child (if ok : bool then Load i else Quit) (set_pipes q s)) <$>
                Pipes.wait_parent (pipes s)
  | Load i => Some (set_child (Store i (area s)) s)
  | Store i v => Some (set_child (stored i v) (update v s))
  | Tell i => (fun q => set_child (Test (i + 2)) (set_pipes q s)) <$> Pipes.tell_parent PIPE_SIZE (pipes s)
  | Exited | Quit => None
  end.

Definition step (w : side) : system -> option system :=
  match w with Parent => parent_step | Child => child_step end.

Fixpoint run (moves : list side) (s : system) : option system :=
  match moves with
  | [] => Some s
  | w :: moves => match step w s with Some s => run moves s | None => None end
  end.

(** ** Turns *)

(** The pipes hold [a] notifications for the child and [b] for the parent. *)
Definition holding (a b : nat) (s : system) : Prop :=
  Pipes.pfd1 (pipes s) = replicate a 112 /\ Pipes.pfd2 (pipes s) = replicate b 99.

(** A process in the critical section of its turn [i], where the counter is [i]. *)
Inductive working (i : Z) : point -> Prop :=
| working_load : working i (Load i)
| working_store : working i (Store i i).

(** The child before its turn [i], or after the last. *)
Inductive child_before (i : Z) : point -> Prop :=
| before_test : child_before i (Test i)
| before_wait : i < NLOOPS + 1 -> child_before i (Wait i)
| before_end : i = NLOOPS + 1 -> child_before i Exited.

(** Whose turn it is, and where the token that passes between them is. *)
Inductive turn (i : Z) (s : system) : Prop :=
| turn_start : parent s = Test i -> child_before (i + 1) (child s) -> holding 0 0 s -> area s = i -> turn i s
| turn_parent : i < NLOOPS -> working i (parent s) -> child_before (i + 1) (child s) -> holding 0 0 s -> area s = i -> turn i s
| turn_tell : i < NLOOPS -> parent s = Tell i -> child_before (i + 1) (child s) -> holding 0 0 s -> area s = i + 1 -> turn i s
| turn_told : i < NLOOPS -> parent s = Wait i -> child_before (i + 1) (child s) -> holding 1 0 s -> area s = i + 1 -> turn i s
| turn_child : i < NLOOPS -> parent s = Wait i -> working (i + 1) (child s) -> holding 0 0 s -> area s = i + 1 -> turn i s
| turn_answer : i < NLOOPS -> parent s = Wait i -> child s = Tell (i + 1) -> holding 0 0 s -> area s = i + 2 -> turn i s
| turn_back : i < NLOOPS -> parent s = Wait i -> child_before (i + 3) (child s) -> holding 0 1 s -> area s = i + 2 -> turn i s
| turn_over : i = NLOOPS -> parent s = Exited -> child_before (i + 1) (child s) -> holding 0 0 s -> area s = i -> turn i s.

Definition turns (s : system) : Prop := exists i, 0 <= i <= NLOOPS /\ Z.Even i /\ turn i s.

(** How many steps a process is from its end. *)
Definition parent_left (p : point) : Z :=
  match p with
  | Test i => 5 * ((NLOOPS - i) / 2) + 1
  | Load i => 5 * ((NLOOPS - i) / 2)
  | Store i _ => 5 * ((NLOOPS - i) / 2) - 1
  | Tell i => 5 * ((NLOOPS - i) / 2) - 2
  | Wait i => 5 * ((NLOOPS - i) / 2) - 3
  | Exited | Quit => 0
  end.
Definition child_left (c : point) : Z :=
  match c with
  | Test i => 5 * ((NLOOPS + 1 - i) / 2) + 1
  | Wait i => 5 * ((NLOOPS + 1 - i) / 2)
  | Load i => 5 * ((NLOOPS + 1 - i) / 2) - 1
  | Store i _ => 5 * ((NLOOPS + 1 - i) / 2) - 2
  | Tell i => 5 * ((NLOOPS + 1 - i) / 2) - 3
  | Exited | Quit => 0
  end.
Definition steps_left (s : system) : Z := parent_left (parent s) + child_left (child s).
End dev_zero.

Section proofs.
Context (PIPE_SIZE : nat).
Hypothesis Hsize : (0 < PIPE_SIZE)%nat.
Implicit Types s : system.

Lemma stored_same i : stored i i = Tell i.
Proof. unfold stored. by rewrite Z.eqb_refl. Qed.

Ltac steps := unfold steps_left, parent_left, child_left, NLOOPS in *; simpl in *; zlia.

(** A step keeps the turns and brings the end nearer. *)
Definition advances s s' : Prop := turns s' /\ steps_left s' = steps_left s - 1.

Lemma advances_intro i s s' : 0 <= i <= NLOOPS -> Z.Even i -> turn i s' -> steps_left s' = steps_left s - 1 -> advances s s'.
Proof. intros. split; [by exists i|done]. Qed.

Lemma parent_turn s s' : turns s -> parent_step PIPE_SIZE s = Some s' -> advances s s'.
Proof.
  intros (i & Hi & [k He] & Ht) Hs. destruct s as [a q p c]. unfold parent_step in Hs.
  destruct Ht as [Ep Hc [H1 H2] Ea|Hl Hw Hc [H1 H2] Ea|Hl Ep Hc [H1 H2] Ea|Hl Ep Hc [H1 H2] Ea|Hl Ep Hw [H1 H2] Ea
    |Hl Ep Hc [H1 H2] Ea|Hl Ep Hc [H1 H2] Ea|Hl Ep Hc [H1 H2] Ea]; simpl in *.
  - subst p. destruct (Z.ltb_spec i NLOOPS); injection Hs as <-; apply (advances_intro i); try done; [by exists k| |steps|by exists k| |steps].
    + apply turn_parent; simpl; try done. constructor.
    + apply turn_over; simpl; try done. lia.
  - destruct Hw; injection Hs as <-; apply (advances_intro i); try done; [by exists k| |steps|by exists k| |rewrite stored_same; steps].
    + apply turn_parent; simpl; try done. rewrite Ea. constructor.
    + apply turn_tell; simpl; try done. apply stored_same.
  - subst p. unfold Pipes.tell_child in Hs. rewrite H1 in Hs. rewrite decide_True in Hs by (simpl; lia).
    injection Hs as <-. apply (advances_intro i); try done; [by exists k| |steps]. by apply turn_told.
  - subst p. unfold Pipes.wait_child in Hs. by rewrite H2 in Hs.
  - subst p. unfold Pipes.wait_child in Hs. by rewrite H2 in Hs.
  - subst p. unfold Pipes.wait_child in Hs. by rewrite H2 in Hs.
  - subst p. unfold Pipes.wait_child in Hs. rewrite H2 in Hs. injection Hs as <-.
    apply (advances_intro (i + 2)); [unfold NLOOPS in *; lia|by exists (k + 1); lia| |steps].
    apply turn_start; simpl; [done| |done|done]. by replace (i + 2 + 1) with (i + 3) by lia.
  - by subst p.
Qed.

Lemma child_before_step i s s' : child_before i (child s) -> Pipes.pfd1 (pipes s) = [] -> child_step PIPE_SIZE s = Some s' ->
  i <= NLOOPS + 1 -> (exists k, i = 2 * k + 1) ->
  s' = set_child (child s') s /\ child_before i (child s') /\ child_left (child s') = child_left (child s) - 1.
Proof.
  intros Hc H1 Hs Hi [k He]. unfold child_step in Hs. destruct Hc as [| |].
  - destruct (Z.ltb_spec i (NLOOPS + 1)); injection Hs as <-; (split; [done|]); simpl; (split; [constructor; lia|steps]).
  - unfold Pipes.wait_parent in Hs. by rewrite H1 in Hs.
  - done.
Qed.

Lemma child_turn s s' : turns s -> child_step PIPE_SIZE s = Some s' -> advances s s'.
Proof.
  intros (i & Hi & [k He] & Ht) Hs.
  destruct Ht as [Ep Hc [H1 H2] Ea|Hl Hw Hc [H1 H2] Ea|Hl Ep Hc [H1 H2] Ea|Hl Ep Hc [H1 H2] Ea|Hl Ep Hw [H1 H2] Ea
    |Hl Ep Hc [H1 H2] Ea|Hl Ep Hc [H1 H2] Ea|Hl Ep Hc [H1 H2] Ea].
  all: try (destruct (child_before_step _ s s' Hc H1 Hs) as (Es & Hc' & L);
    [unfold NLOOPS in *; lia|first [by exists k; lia|by exists (k + 1); lia]|];
    apply (advances_intro i); [done|by exists k| |rewrite Es; unfold steps_left; simpl; lia]; rewrite Es).
  - by apply turn_start.
  - by apply turn_parent.
  - by apply turn_tell.
  - destruct s as [a q p c]. unfold child_step in Hs. simpl in *. destruct Hc as [|Hlt|]; [| |unfold NLOOPS in *; lia].
    + rewrite (proj2 (Z.ltb_lt _ _)) in Hs by (unfold NLOOPS in *; lia). injection Hs as <-.
      apply (advances_intro i); [done|by exists k| |steps]. apply turn_told; try done. constructor. unfold NLOOPS in *. lia.
    + unfold Pipes.wait_parent in Hs. rewrite H1 in Hs. injection Hs as <-.
      apply (advances_intro i); [done|by exists k| |steps]. apply turn_child; try done. constructor.
  - destruct s as [a q p c]. unfold child_step in Hs. simpl in *. destruct Hw; injection Hs as <-; (apply (advances_intro i); [done|by exists k| |rewrite ?stored_same; steps]).
    + apply turn_child; try done. simpl. rewrite Ea. constructor.
    + apply turn_answer; try done; simpl; [apply stored_same|lia].
  - destruct s as [a q p c]. unfold child_step in Hs. simpl in *. subst c. unfold Pipes.tell_parent in Hs. rewrite H2 in Hs.
    rewrite decide_True in Hs by (simpl; lia). injection Hs as <-.
    apply (advances_intro i); [done|by exists k| |steps].
    apply turn_back; try done. simpl. replace (i + 1 + 2) with (i + 3) by lia. constructor.
  - by apply turn_back.
  - by apply turn_over.
Qed.

Lemma run_turns moves s s' : turns s -> run PIPE_SIZE moves s = Some s' ->
  turns s' /\ steps_left s' = steps_left s - Z.of_nat (length moves).
Proof.
  revert s. induction moves as [|w moves IH]; intros s Ht Hr; simpl in Hr.
  - injection Hr as <-. split; [done|simpl; lia].
  - destruct (step PIPE_SIZE w s) as [s1|] eqn:Es; [|done].
    assert (advances s s1) as [H1 L1] by (destruct w; [by apply parent_turn|by apply child_turn]).
    destruct (IH s1 H1 Hr) as [H2 L2]. split; [done|]. rewrite L2, L1. simpl. lia.
Qed.

Definition busy (p : point) : Prop := match p with Load _ | Store _ _ => True | _ => False end.

(** Between the turns somebody can go on until both have ended. *)
Lemma turn_stuck s : turns s -> parent_step PIPE_SIZE s = None -> child_step PIPE_SIZE s = None ->
  parent s = Exited /\ child s = Exited /\ area s = NLOOPS.
Proof.
  destruct s as [a q p c]. intros (i & Hi & [k He] & Ht) Hp Hc. unfold parent_step, child_step in *. simpl in *.
  destruct Ht as [Ep Hb [H1 H2] Ea|Hl Hw Hb [H1 H2] Ea|Hl Ep Hb [H1 H2] Ea|Hl Ep Hb [H1 H2] Ea|Hl Ep Hw [H1 H2] Ea
    |Hl Ep Hb [H1 H2] Ea|Hl Ep Hb [H1 H2] Ea|Hl Ep Hb [H1 H2] Ea]; simpl in *.
  - by subst p.
  - by destruct Hw.
  - subst p. unfold Pipes.tell_child in Hp. rewrite H1, decide_True in Hp by (simpl; lia). done.
  - destruct Hb as [|Hlt|E]; [done| |unfold NLOOPS in *; lia]. unfold Pipes.wait_parent in Hc. by rewrite H1 in Hc.
  - by destruct Hw.
  - subst c. unfold Pipes.tell_parent in Hc. rewrite H2, decide_True in Hc by (simpl; lia). done.
  - subst p. unfold Pipes.wait_child in Hp. by rewrite H2 in Hp.
  - destruct Hb as [|Hlt|E]; [done|unfold NLOOPS in *; lia|]. by subst.
Qed.

(** C23: the program of dev_zero, in every interleaving of the two processes: neither
    of them finds another value than it expects or ends by [err_quit], they are
    never both between the load and the store of [update], every run has at most
    5002 steps, and a run that cannot go on has made exactly these, with both
    processes at [exit(0)] and the counter at [NLOOPS]: no update is lost and nobody
    waits for ever. *)
Theorem dev_zero_counts moves s : run PIPE_SIZE moves start = Some s ->
  parent s <> Quit /\ child s <> Quit /\ ~ (busy (parent s) /\ busy (child s)) /\ 0 <= area s <= NLOOPS /\
  Zlen moves <= 5002 /\
  (parent_step PIPE_SIZE s = None -> child_step PIPE_SIZE s = None ->
     parent s = Exited /\ child s = Exited /\ area s = NLOOPS /\ Zlen moves = 5002).
Proof.
  intros Hr. assert (H0 : turns start).
  { exists 0. split; [done|]. split; [by exists 0|]. apply turn_start; try done. constructor. }
  destruct (run_turns moves start s H0 Hr) as [Ht L]. change (steps_left start) with 5002 in L.
  pose proof (turn_stuck s Ht) as Hstuck. destruct Ht as (i & Hi & [k He] & Ht).
  assert (Hshape : parent s <> Quit /\ child s <> Quit /\ ~ (busy (parent s) /\ busy (child s)) /\ 0 <= area s <= NLOOPS /\
    0 <= steps_left s).
  { clear -Hi He Ht. destruct s as [a q p c].
    destruct Ht as [Ep Hb _ Ea|Hl Hb' Hb _ Ea|Hl Ep Hb _ Ea|Hl Ep Hb _ Ea|Hl Ep Hb _ Ea|Hl Ep Hb _ Ea|Hl Ep Hb _ Ea|Hl Ep Hb _ Ea];
      simpl in *; try subst p; try subst c; try destruct Hb'; try destruct Hb; split_and!; try done; try (by intros []); steps. }
  destruct Hshape as (? & ? & ? & ? & ?). unfold Zlen. split_and!; try done; [lia..|].
  intros Hp Hc. destruct (Hstuck Hp Hc) as (Ep & Ec & Ea). split_and!; try done.
  unfold steps_left in L. rewrite Ep, Ec in L. simpl in L. lia.
Qed.
End proofs.

(** ** A run *)

(** Whoever can go on does, the parent first. *)
Fixpoint schedule (n : nat) (s : system) : list side * system :=
  match n with
  | O => ([], s)
  | S n =>
      match parent_step 512 s, child_step 512 s with
      | Some s, _ => let '(l, s) := schedule n s in (Parent :: l, s)
      | None, Some s => let '(l, s) := schedule n s in (Child :: l, s)
      | None, None => ([], s)
      end
  end.

Example dev_zero_ends : let '(moves, s) := schedule 6000 start in
  Zlen moves = 5002 /\ parent s = Exited /\ child s = Exited /\ area s = 1000.
Proof. vm_compute. done. Qed.

Lemma dev_zero_counts_witness : let s := (schedule 40 start).2 in let moves := (schedule 40 start).1 in
  run 512 moves start = Some s /\ parent s <> Quit /\ child s <> Quit /\ ~ (busy (parent s) /\ busy (child s)) /\
  0 <= area s <= NLOOPS /\ Zlen moves <= 5002 /\
  (parent_step 512 s = None -> child_step 512 s = None ->
     parent s = Exited /\ child s = Exited /\ area s = NLOOPS /\ Zlen moves = 5002).
Proof.
  intros s moves. assert (Hr : run 512 moves start = Some s) by (vm_compute; reflexivity).
  split; [exact Hr|]. exact (dev_zero_counts 512 ltac:(lia) moves s Hr).
Defined.
