(* ===== verification/Timeout.v ===== *)
(** Timeout: apue/12.4.1recursive_mutex.c, which has a function called at a given time
    by a thread of its own, with [makethread] of apue/12.2makethread.c. The functions
    of the thread library are calls of the script; the memory is a map from addresses
    to the records that are allocated. *)
From stdpp Require Import gmap list strings.
From S2P Require Import Prelude Arrays Bytes Sys ErrorLog.

Record timespec := Timespec { tv_sec : Z; tv_nsec : Z }.
Record to_info := ToInfo { to_fn : Z; to_arg : Z; to_wait : timespec }.
Notation memory := (gmap Z to_info).

Definition SECTONSEC : Z := 1000000000.
Definition PTHREAD_MUTEX_RECURSIVE : Z := 1.
Definition SIZEOF_TO_INFO : Z := 32.

(** The addresses of two functions. *)
Definition TIMEOUT_HELPER : Z := 1.
Definition RETRY : Z := 2.

(** A [time_t] has 64 bits. *)
Definition fits64 (n : Z) : bool := (- 2 ^ 63 <=? n) && (n <? 2 ^ 63).

Section timeout.
Context `{Kernel} (strerror : Z -> bytes).
Notation M' := (M (proc memory)).

(** The answer holds the seconds and the nanoseconds. *)
Definition clock_gettime : M' timespec :=
  a <- sys Clock_gettime ;;
  match a_rd a with
  | [sec; nsec] => ret (Timespec sec nsec)
  | _ => ub
  end.

Definition load (p : Z) : M' to_info :=
  m <- getvar (fun m => m !! p) ;; match m with Some t => ret t | None => ub end.
Definition free (p : Z) : M' unit := load p ;; setvars (delete p).

(** What [printf] writes of a time. *)
Definition print_time (sec nsec : string) (t : timespec) : M' unit :=
  printf (B sec ++ dec (tv_sec t) ++ [NEWLINE] ++ B nsec ++ dec (tv_nsec t) ++ [NEWLINE]).

(** *** 12.2makethread.c *)

Definition makethread (fn arg : Z) : M' Z :=
  err <- sysret Pthread_attr_init ;;
  if negb (err =? 0) then ret err
  else
    err <- sysret Pthread_attr_setdetachstate ;;
    err <- (if err =? 0 then
              err <- sysret (Pthread_create fn arg) ;;
              printf (B "makethread:pthread create" ++ [NEWLINE]) ;; ret err
            else ret err) ;;
    sys_ Pthread_attr_destroy ;;
    printf (B "makethread" ++ [NEWLINE]) ;;
    ret err.

(** *** 12.4.1recursive_mutex.c *)

Definition retry (arg : Z) : M' unit :=
  sys_ Pthread_mutex_lock ;;
  printf (B "5 seconds have passed" ++ [NEWLINE]) ;;
  sys_ Pthread_mutex_unlock.

(** A call through a pointer. *)
Definition call_fn (fn arg : Z) : M' unit := if fn =? RETRY then retry arg else ub.

Definition timeout_helper (arg : Z) : M' unit :=
  printf (B "timeout_helper" ++ [NEWLINE]) ;;
  tip <- load arg ;;
  print_time "tip->to_wait.tv_sec = " "tip->to_wait.tv_nsec = " (to_wait tip) ;;
  sys_ (Clock_nanosleep (tv_sec (to_wait tip)) (tv_nsec (to_wait tip))) ;;
  call_fn (to_fn tip) (to_arg tip) ;;
  free arg.

Definition timeout (when_ : timespec) (func arg : Z) : M' unit :=
  printf (B "timeout" ++ [NEWLINE]) ;;
  now <- clock_gettime ;;
  print_time "when->tv_sec = " "when->tv_nsec = " when_ ;;
  print_time "now.tv_sec = " "now.tv_nsec = " now ;;
  started <-
    (if (tv_sec now <? tv_sec when_) || (tv_sec when_ =? tv_sec now) && (tv_nsec now <? tv_nsec when_) then
       tip <- sysret (Malloc SIZEOF_TO_INFO) ;;
       if negb (tip =? 0) then
         let sec := tv_sec when_ - tv_sec now in
         guard_ok (fits64 sec) ;;
         let wait := if tv_nsec now <=? tv_nsec when_ then Timespec sec (tv_nsec when_ - tv_nsec now)
                     else Timespec (sec - 1) (SECTONSEC - tv_nsec now + tv_nsec when_) in
         setvars (<[tip := ToInfo func arg wait]>) ;;
         print_time "tip->to_wait.tv_sec = " "tip->to_wait.tv_nsec = " wait ;;
         err <- makethread TIMEOUT_HELPER tip ;;
         if err =? 0 then ret true
         else free tip ;; printf (B "free(tip)" ++ [NEWLINE]) ;; ret false
       else ret false
     else ret false) ;;
  if started : bool then ret tt else call_fn func arg.

(** [arg] is a variable of [main] without a value. *)
Definition main (arg : Z) : M' unit :=
  let condition := 1 in
  err <- sysret Pthread_mutexattr_init ;;
  (when negb (err =? 0) do err_exit strerror err (B "pthread_mutexattr_init failed")) ;;
  err <- sysret (Pthread_mutexattr_settype PTHREAD_MUTEX_RECURSIVE) ;;
  (when negb (err =? 0) do err_exit strerror err (B "can't set recursive type")) ;;
  err <- sysret Pthread_mutex_init ;;
  (when negb (err =? 0) do err_exit strerror err (B "can't create recursive mutex")) ;;
  sys_ Pthread_mutex_lock ;;
  (when negb (condition =? 0) do
     (when_ <- clock_gettime ;;
      guard_ok (fits64 (tv_sec when_ + 5)) ;;
      timeout (Timespec (tv_sec when_ + 5) (tv_nsec when_)) RETRY arg)) ;;
  sys_ Pthread_mutex_unlock ;;
  sys_ (Sleep 10) ;;
  printf (B "main end" ++ [NEWLINE]) ;;
  exit_ 0.
End timeout.
