(* ===== verification/TimeoutProofs.v ===== *)
(** TimeoutProofs: the function is called once, at its time: by a thread that sleeps for
    exactly the time that is left, or at once by [timeout] itself; and the mutex, which
    [main] holds meanwhile, is locked twice only by a thread that holds it. *)
From stdpp Require Import gmap list strings.
From S2P Require Import Prelude Arrays Bytes Sys ErrorLog Timeout.

(** ** What a run did *)

Definition PASSED : bytes := B "5 seconds have passed" ++ [NEWLINE].

(** How often the mutex is held ([None] after an unlock without a lock), the reports of
    [retry], each with the sleeps before it, the threads, the times that were read, how
    often memory or a thread was refused, and the sleeps. *)
Record summary := Summary {
  held : option nat; reported : list (list timespec); created : list (Z * Z); times : list timespec;
  refused : nat; slept : list timespec }.

Definition refuse (b : bool) (x : summary) : summary :=
  if b then Summary (held x) (reported x) (created x) (times x) (S (refused x)) (slept x) else x.

Definition note (x : summary) (e : event) : summary :=
  match e with
  | Called Pthread_mutex_lock _ => Summary (S <$> held x) (reported x) (created x) (times x) (refused x) (slept x)
  | Called Pthread_mutex_unlock _ =>
      Summary (match held x with Some (S n) => Some n | _ => None end) (reported x) (created x) (times x) (refused x) (slept x)
  | Printed text =>
      if bool_decide (text = PASSED)
      then Summary (held x) (reported x ++ [slept x]) (created x) (times x) (refused x) (slept x) else x
  | Called (Malloc _) a => refuse (a_ret a =? 0) x
  | Called (Pthread_attr_init | Pthread_attr_setdetachstate) a => refuse (negb (a_ret a =? 0)) x
  | Called (Pthread_create fn arg) a =>
      if a_ret a =? 0 then Summary (held x) (reported x) (created x ++ [(fn, arg)]) (times x) (refused x) (slept x)
      else refuse true x
  | Called Clock_gettime a =>
      Summary (held x) (reported x) (created x)
        (times x ++ match a_rd a with [sec; nsec] => [Timespec sec nsec] | _ => [] end) (refused x) (slept x)
  | Called (Clock_nanosleep sec nsec) _ =>
      Summary (held x) (reported x) (created x) (times x) (refused x) (slept x ++ [Timespec sec nsec])
  | _ => x
  end.

Definition summarize (h : list event) : summary := fold_left note h (Summary (Some 0%nat) [] [] [] 0 []).

Lemma summarize_snoc h e : summarize (h ++ [e]) = note (summarize h) e.
Proof. unfold summarize. by rewrite fold_left_app. Qed.

(** In nanoseconds. *)
Definition ns (t : timespec) : Z := tv_sec t * SECTONSEC + tv_nsec t.
Definition normal (t : timespec) : Prop := 0 <= tv_sec t /\ 0 <= tv_nsec t < SECTONSEC.

Section proofs.
Context `{Kernel} (strerror : Z -> bytes).
Notation proc := (proc (gmap Z to_info)).
Implicit Types s : proc.

(** What POSIX says of the clock; the year is not later than the 64 bits can tell. *)
Definition posix_clock : Prop := forall a, allowed Clock_gettime a ->
  exists sec nsec, a_rd a = [sec; nsec] /\ 0 <= sec < 2 ^ 62 /\ 0 <= nsec < SECTONSEC.
Hypothesis Hclock : posix_clock.

(** A state with the memory [m] after the events summed up by [x]. *)
Definition at_ (x : summary) (m : gmap Z to_info) s : Prop := summarize (history s) = x /\ vars s = m.

Lemma wp_at x m c (Q : answer -> proc -> Prop) X s : at_ x m s ->
  (forall a s', allowed c a -> at_ (note x (Called c a)) m s' -> Q a s') ->
  (forall s', at_ x m s' -> X WAITING s') -> wp (sys c) Q X s.
Proof.
  intros [Ex Em] HQ HX. apply wp_sys.
  - intros a rest _ Ha. apply HQ; [done|]. split; [|done]. simpl. by rewrite summarize_snoc, Ex.
  - apply HX. split; [|done]. simpl. by rewrite summarize_snoc, Ex.
Qed.

Lemma wp_call_ret x m c (Q : Z -> proc -> Prop) X s : at_ x m s ->
  (forall a s', allowed c a -> at_ (note x (Called c a)) m s' -> Q (a_ret a) s') ->
  (forall s', at_ x m s' -> X WAITING s') -> wp (sysret c) Q X s.
Proof. intros Hs HQ HX. eapply wp_bind, wp_at; [exact Hs| |done]. intros a s' Ha Hs'. apply wp_ret. eauto. Qed.

Lemma wp_call_ x m c (Q : unit -> proc -> Prop) X s : at_ x m s ->
  (forall a s', allowed c a -> at_ (note x (Called c a)) m s' -> Q tt s') ->
  (forall s', at_ x m s' -> X WAITING s') -> wp (sys_ c) Q X s.
Proof. intros Hs HQ HX. eapply wp_bind, wp_at; [exact Hs| |done]. intros a s' Ha Hs'. apply wp_ret. eauto. Qed.

Lemma wp_says x m text (Q : unit -> proc -> Prop) X s : at_ x m s ->
  (forall s', at_ (note x (Printed text)) m s' -> Q tt s') -> wp (printf text) Q X s.
Proof. intros [Ex Em] HQ. apply wp_modify, HQ. split; [|done]. simpl. by rewrite summarize_snoc, Ex. Qed.

Lemma wp_store_ x m f (Q : unit -> proc -> Prop) X s : at_ x m s ->
  (forall s', at_ x (f m) s' -> Q tt s') -> wp (setvars f) Q X s.
Proof. intros [Ex <-] HQ. by apply wp_modify, HQ. Qed.

(** A text that is not the report of [retry]. *)
Lemma wp_says_other x m text (Q : unit -> proc -> Prop) X s : at_ x m s -> head text <> Some 53 ->
  (forall s', at_ x m s' -> Q tt s') -> wp (printf text) Q X s.
Proof.
  intros Hs Ht HQ. apply (wp_says x m); [done|]. intros s'. simpl. rewrite bool_decide_false by (intros ->; by apply Ht). apply HQ.
Qed.

Lemma wp_print_time x m a b t (Q : unit -> proc -> Prop) X s : at_ x m s ->
  match head (B a) with None | Some 53 => False | _ => True end ->
  (forall s', at_ x m s' -> Q tt s') -> wp (print_time a b t) Q X s.
Proof.
  intros Hs Ht HQ. apply (wp_says_other x m); [done| |done]. destruct (B a); [done|]. simpl in *. by intros [= ->].
Qed.

(** Where a run may wait: the mutex is held as often as before or once more. *)
Definition waits (d : nat) (code : Z) s : Prop :=
  code = WAITING /\ (held (summarize (history s)) = Some d \/ held (summarize (history s)) = Some (S d)).

Lemma at_waits d h r c t f sl m s : at_ (Summary h r c t f sl) m s -> h = Some d \/ h = Some (S d) -> waits d WAITING s.
Proof. intros [E _] Hh. split; [done|]. by rewrite E. Qed.

Lemma wp_retry d r c t f sl m arg s : at_ (Summary (Some d) r c t f sl) m s ->
  wp (retry arg) (fun _ => at_ (Summary (Some d) (r ++ [sl]) c t f sl) m) (waits d) s.
Proof.
  intros Hs. unfold retry. apply wp_bind, (wp_call_ _ _ _ _ _ _ Hs); [|intros; by eapply at_waits; eauto].
  intros a1 s1 _ H1. simpl in H1. apply wp_bind, (wp_says _ _ _ _ _ _ H1). intros s2 H2.
  unfold note in H2. rewrite bool_decide_true in H2 by done. apply (wp_call_ _ _ _ _ _ _ H2); [|intros; by eapply at_waits; eauto]. intros a3 s3 _ H3. exact H3.
Qed.

(** A thread, or a call that was refused. *)
Definition started (d : nat) r c t f sl (m : gmap Z to_info) fn arg (err : Z) s : Prop :=
  if err =? 0 then at_ (Summary (Some d) r (c ++ [(fn, arg)]) t f sl) m s
  else at_ (Summary (Some d) r c t (S f) sl) m s.

Lemma wp_makethread d r c t f sl m fn arg s : at_ (Summary (Some d) r c t f sl) m s ->
  wp (makethread fn arg) (started d r c t f sl m fn arg) (waits d) s.
Proof.
  intros Hs. unfold makethread, started. apply wp_bind, (wp_call_ret _ _ _ _ _ _ Hs); [|intros; by eapply at_waits; eauto].
  intros a1 s1 _ H1. simpl in H1. destruct (Z.eqb_spec (a_ret a1) 0) as [_|Hn]; simpl in *.
  2: { apply wp_ret. by rewrite (proj2 (Z.eqb_neq _ _) Hn). }
  apply wp_bind, (wp_call_ret _ _ _ _ _ _ H1); [|intros; by eapply at_waits; eauto].
  intros a2 s2 _ H2. simpl in H2. apply wp_bind.
  apply wp_conseq with (Q := started d r c t f sl m fn arg); unfold started.
  - destruct (Z.eqb_spec (a_ret a2) 0) as [_|Hn]; simpl in *; [|apply wp_ret; by rewrite (proj2 (Z.eqb_neq _ _) Hn)].
    apply wp_bind, (wp_call_ret _ _ _ _ _ _ H2); [|intros; by eapply at_waits; eauto].
    intros a3 s3 _ H3. simpl in H3.
    destruct (a_ret a3 =? 0) eqn:E3; apply wp_bind, (wp_says_other _ _ _ _ _ _ H3); try done; intros s4 H4; apply wp_ret; by rewrite E3.
  - intros err s5 H5. destruct (err =? 0) eqn:Ee;
      (apply wp_bind, (wp_call_ _ _ _ _ _ _ H5); [|intros; by eapply at_waits; eauto]; intros a6 s6 _ H6; simpl in H6;
       apply wp_bind, (wp_says_other _ _ _ _ _ _ H6); [done|]; intros s7 H7; apply wp_ret; by rewrite Ee).
Qed.

(** What [timeout] leaves behind, if it was called before the time [when_]: a thread that
    will sleep for what is left of it; the report, if the time has come, or if memory or
    the thread was refused. *)
Definition timed (d : nat) (t0 when_ : timespec) (fn arg : Z) s : Prop := exists now,
  (ns now < ns when_ /\ exists tip wait,
     at_ (Summary (Some d) [] [(TIMEOUT_HELPER, tip)] [t0; now] 0 []) {[tip := ToInfo fn arg wait]} s /\
     normal wait /\ ns wait = ns when_ - ns now) \/
  (exists n, at_ (Summary (Some d) [[]] [] [t0; now] n []) ∅ s /\ (ns when_ <= ns now \/ (0 < n)%nat)).

(** The comparison of the fields is that of the times. *)
Lemma later_spec now when_ : normal now -> normal when_ ->
  (tv_sec now <? tv_sec when_) || (tv_sec when_ =? tv_sec now) && (tv_nsec now <? tv_nsec when_) = (ns now <? ns when_).
Proof.
  unfold normal, ns, SECTONSEC. intros Hn Hw. destruct (Z.ltb_spec (tv_sec now) (tv_sec when_)); simpl; [nia|].
  destruct (Z.eqb_spec (tv_sec when_) (tv_sec now)); simpl; [|nia]. lia.
Qed.

Lemma wp_timeout d t0 when_ arg s : at_ (Summary (Some d) [] [] [t0] 0 []) ∅ s -> normal when_ -> tv_sec when_ < 2 ^ 63 ->
  wp (timeout when_ RETRY arg) (fun _ => timed d t0 when_ RETRY arg) (waits d) s.
Proof.
  intros Hs Hw Hw3. unfold timeout. apply wp_bind, (wp_says_other _ _ _ _ _ _ Hs); [done|]. intros s1 H1.
  apply wp_bind, wp_bind, (wp_at _ _ _ _ _ _ H1); [|intros; by eapply at_waits; eauto].
  intros a s2 Ha H2. destruct (Hclock a Ha) as (sec & nsec & E & Hsec & Hnsec). simpl in H2. rewrite E in *. apply wp_ret.
  set (now := Timespec sec nsec) in *. assert (Hnow : normal now) by (split; simpl; lia).
  apply wp_bind, (wp_print_time _ _ _ _ _ _ _ _ H2); [done|]. intros s3 H3.
  apply wp_bind, (wp_print_time _ _ _ _ _ _ _ _ H3); [done|]. intros s4 H4. simpl in H4. apply wp_bind.
  assert (Hcall : forall n s', at_ (Summary (Some d) [] [] [t0; now] n []) ∅ s' -> ns when_ <= ns now \/ (0 < n)%nat ->
    wp (call_fn RETRY arg) (fun _ => timed d t0 when_ RETRY arg) (waits d) s').
  { intros n s' Hs' Hn. eapply wp_conseq; [by apply wp_retry|]. intros u s'' Hs''. exists now. right. by exists n. }
  rewrite later_spec by done. destruct (Z.ltb_spec (ns now) (ns when_)) as [Hlt|Hle]; [|apply wp_ret; apply (Hcall 0%nat); auto].
  apply wp_bind, (wp_call_ret _ _ _ _ _ _ H4); [|intros; by eapply at_waits; eauto].
  intros a5 s5 _ H5. simpl in H5. set (tip := a_ret a5) in *.
  destruct (Z.eqb_spec tip 0) as [|Ht]; simpl in *; [apply wp_ret, (Hcall 1%nat); [done|right; lia]|].
  assert (Hsec' : sec <= tv_sec when_) by (unfold ns, normal, SECTONSEC in *; simpl in *; nia).
  apply wp_bind, wp_guard; [unfold fits64; simpl; lia|]. cbv zeta. simpl. set (wait := if _ : bool then _ else _).
  assert (Hwait : normal wait /\ ns wait = ns when_ - ns now).
  { unfold wait, normal, ns, SECTONSEC in *. simpl in *. destruct (Z.leb_spec nsec (tv_nsec when_)); simpl; nia. }
  apply wp_bind, (wp_store_ _ _ _ _ _ _ H5). intros s6 H6. apply wp_bind, (wp_print_time _ _ _ _ _ _ _ _ H6); [done|]. intros s7 H7.
  apply wp_bind. eapply wp_conseq; [by apply wp_makethread|]. unfold started. intros err s8 H8. destruct (err =? 0).
  - apply wp_ret, wp_ret. exists now. left. split; [done|]. exists tip, wait. rewrite insert_empty in H8. by split.
  - unfold free, load, getvar. apply wp_bind, wp_bind, wp_bind, wp_gets. pose proof H8 as [_ Em]. rewrite Em, lookup_insert_eq.
    apply wp_ret, (wp_store_ _ _ _ _ _ _ H8). intros s9 H9. apply wp_bind, (wp_says_other _ _ _ _ _ _ H9); [done|]. intros s10 H10.
    apply wp_ret, (Hcall 1%nat); [by rewrite delete_insert_id in H10|right; lia].
Qed.

(** The thread that [timeout] starts. *)
Lemma wp_timeout_helper d r c t f sl m tip info s : at_ (Summary (Some d) r c t f sl) m s -> m !! tip = Some info -> to_fn info = RETRY ->
  wp (timeout_helper tip) (fun _ => at_ (Summary (Some d) (r ++ [sl ++ [to_wait info]]) c t f (sl ++ [to_wait info])) (delete tip m)) (waits d) s.
Proof.
  intros Hs Hm Hfn. unfold timeout_helper. apply wp_bind, (wp_says_other _ _ _ _ _ _ Hs); [done|]. intros s1 H1.
  unfold load, getvar. apply wp_bind, wp_bind, wp_gets. rewrite (proj2 H1), Hm. apply wp_ret.
  apply wp_bind, (wp_print_time _ _ _ _ _ _ _ _ H1); [done|]. intros s2 H2.
  apply wp_bind, (wp_call_ _ _ _ _ _ _ H2); [|intros; by eapply at_waits; eauto]. intros a3 s3 _ H3. simpl in H3.
  rewrite Hfn. destruct (to_wait info) as [wsec wnsec]. apply wp_bind. eapply wp_conseq; [by apply wp_retry|]. intros u s4 H4.
  unfold free, load, getvar. apply wp_bind, wp_bind, wp_gets. rewrite (proj2 H4), Hm.
  apply wp_ret, (wp_store_ _ _ _ _ _ _ H4). intros s5 H5. exact H5.
Qed.

(** How a run of [main] ends: it waits or has failed before the mutex was made, or both
    locks are given back, and the function has reported, or a thread will. *)
Definition ended (arg : Z) (code : Z) s : Prop :=
  (code = WAITING /\ exists d, held (summarize (history s)) = Some d /\ (d <= 2)%nat) \/
  (code = 1 /\ held (summarize (history s)) = Some 0%nat /\ created (summarize (history s)) = [] /\ vars s = ∅) \/
  (code = 0 /\ exists t0, timed 0 t0 (Timespec (tv_sec t0 + 5) (tv_nsec t0)) RETRY arg s).

Notation start := (Summary (Some 0%nat) [] [] [] 0 []).

(** A call of which [main] checks the result. *)
Lemma wp_checked {A} arg c text (k : M proc A) (Q : A -> proc -> Prop) s : at_ start ∅ s -> (forall a, note start (Called c a) = start) ->
  (forall s', at_ start ∅ s' -> wp k Q (ended arg) s') ->
  wp (err <- sysret c ;; (when negb (err =? 0) do err_exit strerror err text) ;; k) Q (ended arg) s.
Proof.
  intros Hs Hn Hk. apply wp_bind, (wp_call_ret _ _ _ _ _ _ Hs).
  - intros a s1 _ H1. rewrite Hn in H1. apply wp_bind. destruct (a_ret a =? 0); simpl; [by apply wp_ret, Hk|].
    unfold err_exit. apply wp_bind, wp_err_doit. intros b. apply wp_exit. right. left. destruct H1 as [E Em].
    simpl. by rewrite summarize_snoc, E.
  - intros s1 [E _]. left. split; [done|]. exists 0%nat. split; [by rewrite E|lia].
Qed.

Lemma waits_ended arg d code s : (d <= 1)%nat -> waits d code s -> ended arg code s.
Proof. intros Hd [-> [E|E]]; left; (split; [done|]); eexists; (split; [exact E|lia]). Qed.

Lemma wp_main_end arg t0 x m s : at_ x m s -> held x = Some 1%nat ->
  (forall s', at_ (Summary (Some 0%nat) (reported x) (created x) (times x) (refused x) (slept x)) m s' ->
     timed 0 t0 (Timespec (tv_sec t0 + 5) (tv_nsec t0)) RETRY arg s') ->
  wp (sys_ Pthread_mutex_unlock ;; sys_ (Sleep 10) ;; printf (B "main end" ++ [NEWLINE]) ;; exit_ 0 : M proc unit)
    (fun _ _ => False) (ended arg) s.
Proof.
  intros Hx Hh Hx'. apply wp_bind, (wp_call_ _ _ _ _ _ _ Hx).
  2: { intros s1 [E _]. left. split; [done|]. exists 1%nat. split; [by rewrite E|lia]. }
  intros a1 s1 _ H1. simpl in H1. rewrite Hh in H1.
  apply wp_bind, (wp_call_ _ _ _ _ _ _ H1); [|intros; by eapply (waits_ended _ 0), at_waits; eauto].
  intros a2 s2 _ H2. simpl in H2. apply wp_bind, (wp_says_other _ _ _ _ _ _ H2); [done|]. intros s3 H3.
  apply wp_exit. right. right. split; [done|]. exists t0. by apply Hx'.
Qed.

(** C24: a function to be called after five seconds. In every run of [main] the mutex
    is unlocked only when it is held, and held at most twice; if [main] reaches its end,
    the mutex is free. If the five seconds are not over when [timeout] reads the clock, one
    thread has been started and nothing reported, and the record that the thread finds in
    memory holds a time to wait that is exactly what is left of them, with less than a second
    of nanoseconds, or memory or the thread was refused; then, as when they are over, the
    function has been called once by [main] itself and no memory is left. The thread sleeps
    that long and then calls the function once, between a lock and an unlock of the mutex,
    and frees the record. The clock gives times of less than 2^62 seconds. *)
Theorem timeout_once :
  (forall arg s, history s = [] -> vars s = ∅ -> wp (main strerror arg) (fun _ _ => False) (ended arg) s) /\
  (forall d r c t f sl m tip arg wait s, at_ (Summary (Some d) r c t f sl) m s -> m !! tip = Some (ToInfo RETRY arg wait) ->
     wp (timeout_helper tip) (fun _ s' => at_ (Summary (Some d) (r ++ [sl ++ [wait]]) c t f (sl ++ [wait])) (delete tip m) s') (waits d) s).
Proof.
  split; [|intros d r c t f sl m tip arg wait s; intros; by apply (wp_timeout_helper _ _ _ _ _ _ _ _ (ToInfo RETRY arg wait))]. intros arg s Eh Em.
  assert (H0 : at_ start ∅ s) by (split; [by rewrite Eh|done]). unfold main. cbv zeta.
  apply wp_checked; [done..|]. intros s1 H1. apply wp_checked; [done..|]. intros s2 H2. apply wp_checked; [done..|]. intros s3 H3.
  assert (Hw : forall d code s', (d <= 1)%nat -> waits d code s' -> ended arg code s') by (intros; by eapply waits_ended).
  apply wp_bind, (wp_call_ _ _ _ _ _ _ H3); [|intros; by eapply (Hw 0%nat), at_waits; eauto].
  intros a4 s4 _ H4. simpl in H4. apply wp_bind. simpl. apply wp_bind, wp_bind.
  apply (wp_at _ _ _ _ _ _ H4); [|intros; by eapply (Hw 1%nat), at_waits; eauto].
  intros a5 s5 Ha H5. destruct (Hclock a5 Ha) as (sec & nsec & E & Hsec & Hnsec). simpl in H5. rewrite E in *. apply wp_ret.
  apply wp_bind, wp_guard; [unfold fits64; simpl; lia|].
  eapply wp_mono; [apply (wp_timeout 1 (Timespec sec nsec)); [exact H5|split; simpl; lia|simpl; lia]| |by intros; eapply (Hw 1%nat)].
  intros u s6 (now & Hcase).
  destruct Hcase as [(Hlt & tip & wait & Hx & Hwait)|(n & Hx & Hn)]; eapply wp_main_end; [exact Hx|done| |exact Hx|done|]; intros s7 H7; exists now.
  - left. split; [done|]. by exists tip, wait.
  - right. by exists n.
Qed.
End proofs.

(** ** Runs *)

(** A system with a clock that answers as POSIX says. *)
Definition clock_kernel : Kernel := fun _ c a =>
  match c with
  | Clock_gettime =>
      match a_rd a with
      | [sec; nsec] => (0 <=? sec) && (sec <? 2 ^ 62) && (0 <=? nsec) && (nsec <? SECTONSEC)
      | _ => false
      end
  | _ => true
  end.

Lemma clock_kernel_posix : @posix_clock clock_kernel.
Proof.
  intros a [h Ha]. unfold may, clock_kernel in Ha. destruct (a_rd a) as [|sec [|nsec []]]; try done. exists sec, nsec. split; [done|]. lia.
Qed.

Definition clock (sec nsec : Z) : answer := Ans 0 0 [] (Addr 0 0) [sec; nsec] [] 0 no_stat.
Definition no_texts (e : Z) : bytes := [].
Definition begin_with (answers : list answer) : proc (gmap Z to_info) := Proc answers [] 0 ∅.
Definition zeros (n : nat) : list answer := replicate n (number 0).

(** The clock goes from 100.1 to 101.9 seconds; malloc gives the address 64. *)
Example a_thread_sleeps :
  match @main clock_kernel no_texts 7 (begin_with (zeros 4 ++ [clock 100 100000000; clock 101 900000000; number 64] ++ zeros 6)) with
  | Exit code s => code = 0 /\ vars s = {[64 := ToInfo RETRY 7 (Timespec 3 200000000)]} /\
      created (summarize (history s)) = [(TIMEOUT_HELPER, 64)] /\ reported (summarize (history s)) = []
  | _ => False
  end.
Proof. vm_compute. done. Qed.

(** The thread cannot be created (EAGAIN): [main] itself locks the mutex again. *)
Example main_reports :
  match @main clock_kernel no_texts 7 (begin_with (zeros 4 ++ [clock 100 0; clock 100 0; number 64; number 0; number 0; number 11] ++ zeros 5)) with
  | Exit code s => code = 0 /\ vars s = ∅ /\ calls (history s) =
      [Pthread_mutexattr_init; Pthread_mutexattr_settype 1; Pthread_mutex_init; Pthread_mutex_lock; Clock_gettime; Clock_gettime;
       Malloc 32; Pthread_attr_init; Pthread_attr_setdetachstate; Pthread_create 1 64; Pthread_attr_destroy;
       Pthread_mutex_lock; Pthread_mutex_unlock; Pthread_mutex_unlock; Sleep 10]
  | _ => False
  end.
Proof. vm_compute. done. Qed.

Lemma timeout_once_witness : let s := begin_with (zeros 4 ++ [clock 100 100000000; clock 101 900000000; number 64] ++ zeros 6) in
  @posix_clock clock_kernel /\ wp (@main clock_kernel no_texts 7) (fun _ _ => False) (ended 7) s.
Proof.
  intros s. split; [exact clock_kernel_posix|].
  apply (@timeout_once clock_kernel no_texts clock_kernel_posix); reflexivity.
Defined.
