(* ===== verification/Environ.v ===== *)
(** Environ: [getenv_r] of apue/12.5getenv_r.c, a search of the environment that threads
    may make at the same time. A string is the list of its bytes without the null byte
    that ends it. The functions of the thread library succeed. *)
From stdpp Require Import sets list strings.
From S2P Require Import Prelude Arrays Bytes Sys.

Definition ENOENT : Z := 2.
Definition EQUALS : Z := 61.

(** A [size_t] that is stored in an [int]. *)
Definition wrap32 (n : Z) : Z := (n + 2 ^ 31) mod 2 ^ 32 - 2 ^ 31.

(** [env_mutex] is [None] before it is initialised, and else how often this thread holds
    it; [buf] is the array of the caller. *)
Record env := Env { environ : list bytes; init_done : bool; env_mutex : option nat; buf : bytes }.
Definition set_once (v : bool) (e : env) : env := Env (environ e) v (env_mutex e) (buf e).
Definition set_mutex (v : option nat) (e : env) : env := Env (environ e) (init_done e) v (buf e).
Definition set_buf (v : bytes) (e : env) : env := Env (environ e) (init_done e) (env_mutex e) v.

(** *** The library *)

Fixpoint strncmp (a b : bytes) (n : nat) : Z :=
  match n, a, b with
  | O, _, _ | _, [], [] => 0
  | _, [], y :: _ => - y
  | _, x :: _, [] => x
  | S n, x :: a, y :: b => if x =? y then strncmp a b n else x - y
  end.

(** A byte of a string; the last that may be read is the null byte. *)
Definition char_at {S} (s : bytes) (i : Z) : M S Z :=
  guard_ok (in_bounds (s ++ [NUL]) i) ;; ret (aget (s ++ [NUL]) i).

(** The array must be large enough. *)
Definition strcpy_buf (s : bytes) : M env unit :=
  b <- gets buf ;;
  guard_ok (Zlen s + 1 <=? Zlen b) ;;
  modify (set_buf (s ++ [NUL] ++ drop (S (length s)) b)).

Definition mutex_lock : M env unit :=
  m <- gets env_mutex ;; match m with Some n => modify (set_mutex (Some (S n))) | None => ub end.
Definition mutex_unlock : M env unit :=
  m <- gets env_mutex ;; match m with Some (S n) => modify (set_mutex (Some n)) | _ => ub end.

(** *** 12.5getenv_r.c *)

(** A recursive mutex is made. *)
Definition thread_init : M env unit := modify (set_mutex (Some 0%nat)).

Definition pthread_once : M env unit :=
  done_ <- gets init_done ;; (when negb done_ do (thread_init ;; modify (set_once true))).

Definition getenv_r (name : bytes) (buflen : Z) : M env Z :=
  pthread_once ;;
  let len := wrap32 (Zlen name) in
  mutex_lock ;;
  n <- gets (fun e => length (environ e)) ;;
  loop (S n) (fun i =>
    e <- gets environ ;;
    match e !! i with
    | None => mutex_unlock ;; ret (inr ENOENT)
    | Some s =>
        found <- (if strncmp name s (Z.to_nat (len mod 2 ^ 64)) =? 0 then c <- char_at s len ;; ret (c =? EQUALS) else ret false) ;;
        if found : bool then
          let value := drop (Z.to_nat (len + 1)) s in
          let olen := wrap32 (Zlen value) in
          if buflen <=? olen then mutex_unlock ;; ret (inr ENOSPC)
          else strcpy_buf value ;; mutex_unlock ;; ret (inr 0)
        else ret (inl (S i))
    end) 0%nat.

(** ** The environment as a map *)

(** The value, when the entry is that of the name. *)
Fixpoint value_of (name entry : bytes) : option bytes :=
  match name, entry with
  | [], c :: v => if c =? EQUALS then Some v else None
  | x :: name, y :: entry => if x =? y then value_of name entry else None
  | _, _ => None
  end.

(** The first entry of the name counts. *)
Definition lookup_env (name : bytes) (l : list bytes) : option bytes := head (omap (value_of name) l).

Lemma value_of_spec name entry v : value_of name entry = Some v <-> entry = name ++ EQUALS :: v.
Proof.
  revert entry. induction name as [|x name IH]; intros [|y entry]; simpl; try done.
  - destruct (Z.eqb_spec y EQUALS) as [->|]; split; [by intros [= ->]|by intros [= ->]|done|by intros [= -> _]].
  - destruct (Z.eqb_spec x y) as [->|]; [|by split; [|intros [= -> _]]]. rewrite IH. split; [by intros ->|by intros [= ->]].
Qed.

(** [strncmp] over the length of a name finds whether it is a prefix. *)
Lemma strncmp_prefix name s : no_nul name -> strncmp name s (length name) = 0 <-> exists r, s = name ++ r.
Proof.
  revert s. induction name as [|x name IH]; intros s Hn; [by split; [exists s|]|].
  assert (x <> 0 /\ no_nul name) as [Hx Hn'].
  { split; [intros ->; apply Hn; unfold NUL; set_solver|]. intros Hin. apply Hn. unfold NUL in *. set_solver. }
  destruct s as [|y s]; simpl.
  - split; [by intros ->|by intros [r ?]].
  - destruct (Z.eqb_spec x y) as [->|Hne].
    + rewrite IH by done. split; intros [r E]; exists r; [by rewrite E|by injection E].
    + split; [lia|by intros [r [= -> _]]].
Qed.

Lemma wrap32_id n : 0 <= n < 2 ^ 31 -> wrap32 n = n.
Proof. intros. unfold wrap32. rewrite Z.mod_small; lia. Qed.

(** The test of the program on one entry. *)
Lemma wp_match_entry {S} name s (Q : bool -> S -> Prop) X e : no_nul name -> Zlen name < 2 ^ 31 ->
  Q (bool_decide (is_Some (value_of name s))) e ->
  wp (if strncmp name s (Z.to_nat (wrap32 (Zlen name) mod 2 ^ 64)) =? 0
      then c <- char_at s (wrap32 (Zlen name)) ;; ret (c =? EQUALS) else ret false) Q X e.
Proof.
  intros Hn Hl HQ. pose proof (Zlen_nonneg name). rewrite wrap32_id, Z.mod_small by lia.
  replace (Z.to_nat (Zlen name)) with (length name) by (unfold Zlen; lia).
  destruct (Z.eqb_spec (strncmp name s (length name)) 0) as [E|E].
  - apply (strncmp_prefix name s Hn) in E as [r ->]. apply wp_bind, wp_bind, wp_guard.
    { unfold in_bounds. rewrite !Zlen_app. pose proof (Zlen_nonneg r). change (Zlen [NUL]) with 1. lia. }
    apply wp_ret, wp_ret. assert (aget ((name ++ r) ++ [NUL]) (Zlen name) = match r with c :: _ => c | [] => NUL end) as ->.
    { unfold aget, Zlen. rewrite Nat2Z.id, <-app_assoc, lookup_total_app_r, Nat.sub_diag by lia. by destruct r. }
    assert (value_of name (name ++ r) = match r with c :: v => if c =? EQUALS then Some v else None | [] => None end) as Ev.
    { clear. induction name as [|x name IH]; simpl; [by destruct r|by rewrite Z.eqb_refl]. }
    rewrite Ev in HQ. destruct r as [|c v]; [exact HQ|]. by destruct (c =? EQUALS).
  - apply wp_ret. destruct (value_of name s) as [v|] eqn:Ev; [|exact HQ]. apply value_of_spec in Ev.
    exfalso. apply E, (strncmp_prefix name s Hn). by eexists.
Qed.

(** What [getenv_r] returns and leaves in the buffer. *)
Definition got (name : bytes) (buflen : Z) (e : env) (r : Z) (e' : env) : Prop :=
  match lookup_env name (environ e) with
  | None => r = ENOENT /\ buf e' = buf e
  | Some v =>
      if Zlen v <? buflen then r = 0 /\ buf e' = v ++ [NUL] ++ drop (S (length v)) (buf e)
      else r = ENOSPC /\ buf e' = buf e
  end.

(** The mutex is made by the first call. *)
Definition ready (e : env) : Prop := if init_done e then is_Some (env_mutex e) else env_mutex e = None.

(** C25: [getenv_r] is the lookup in the list of the environment: in every environment and
    for every name, it ends; it returns 0 and stores the value of the first entry of the
    name, with its null byte, when that fits, ENOSPC when it does not, and ENOENT when
    there is no entry; in these cases the buffer is left alone. It reads no byte behind
    the end of a string, writes none behind the buffer, changes nothing else, and on
    every path it gives back the mutex, which the first call makes. *)
Theorem getenv_r_correct name buflen e : no_nul name -> Zlen name < 2 ^ 31 ->
  Forall (fun s => Zlen s < 2 ^ 31) (environ e) -> buflen <= Zlen (buf e) -> ready e ->
  wp (getenv_r name buflen) (fun r e' => got name buflen e r e' /\ environ e' = environ e /\ init_done e' = true /\
    env_mutex e' = Some (default 0%nat (env_mutex e))) noexit e.
Proof.
  intros Hn Hl Hs Hb Hr. unfold getenv_r. apply wp_bind.
  apply wp_conseq with (Q := fun _ e1 => e1 = Env (environ e) true (Some (default 0%nat (env_mutex e))) (buf e)).
  { unfold pthread_once, thread_init. apply wp_bind, wp_gets. unfold ready in Hr. destruct e as [l [] m b]; simpl in *.
    - destruct Hr as [n ->]. by apply wp_ret.
    - subst m. by apply wp_bind, wp_modify, wp_modify. }
  intros _ e1 ->. cbv zeta. set (n := default 0%nat (env_mutex e)). apply wp_bind.
  apply wp_bind, wp_gets, wp_modify, wp_bind, wp_gets.
  set (e2 := Env (environ e) true (Some (S n)) (buf e)). change (set_mutex _ _) with e2. cbn beta. change (environ e2) with (environ e).
  apply (wp_loop (fun i e' => e' = e2 /\ (i <= length (environ e))%nat /\
      lookup_env name (environ e) = lookup_env name (drop i (environ e))) (fun i _ => length (environ e) - i)%nat);
    [split_and!; [done|lia|done]|lia|].
  intros i e' (-> & Hi & Elook). apply wp_bind, wp_gets. simpl.
  destruct (environ e !! i) as [s|] eqn:Es.
  - apply wp_bind, wp_match_entry; [done..|]. erewrite drop_S in Elook by exact Es. unfold lookup_env in Elook. simpl in Elook.
    destruct (value_of name s) as [v|] eqn:Ev; simpl in Elook.
    + rewrite bool_decide_true by by eexists. apply value_of_spec in Ev.
      assert (Hsl : Zlen s < 2 ^ 31) by (by apply (Forall_lookup_1 _ _ _ _ Hs Es)).
      assert (Ed : drop (Z.to_nat (wrap32 (Zlen name) + 1)) s = v).
      { pose proof (Zlen_nonneg name). rewrite wrap32_id by lia. subst s. change (EQUALS :: v) with ([EQUALS] ++ v). rewrite app_assoc.
        apply drop_app_length'. rewrite length_app. unfold Zlen. simpl. lia. }
      assert (Hv : 0 <= Zlen v < 2 ^ 31).
      { pose proof (Zlen_nonneg v). pose proof (Zlen_nonneg name). subst s. rewrite Zlen_app in Hsl. unfold Zlen in *. simpl in *. lia. }
      rewrite Ed, wrap32_id by done. unfold got, lookup_env. rewrite Elook. simpl.
      destruct (Z.leb_spec buflen (Zlen v)).
      * apply wp_bind, wp_bind, wp_gets, wp_modify, wp_ret. by rewrite (proj2 (Z.ltb_ge _ _)) by lia.
      * apply wp_bind, wp_bind, wp_gets, wp_bind, wp_guard; [simpl; lia|]. apply wp_modify, wp_bind, wp_bind, wp_gets, wp_modify, wp_ret.
        by rewrite (proj2 (Z.ltb_lt _ _)) by lia.
    + rewrite bool_decide_false by by intros []. apply wp_ret. apply lookup_lt_Some in Es. split_and!; [done|lia|exact Elook|lia].
  - apply wp_bind, wp_bind, wp_gets, wp_modify, wp_ret. apply lookup_ge_None in Es. rewrite drop_ge in Elook by done.
    unfold got. by rewrite Elook.
Qed.

(** ** Runs *)

Definition an_env : env := Env [B "PATHS=x"; B "PATH=/bin"; B "PATH=/sbin"] false None (replicate 6 88).

Example path_found : getenv_r (B "PATH") 5 an_env = Ret 0 (Env (environ an_env) true (Some 0%nat) (B "/bin" ++ [NUL; 88])).
Proof. vm_compute. reflexivity. Qed.
Example path_too_long : getenv_r (B "PATH") 4 an_env = Ret ENOSPC (Env (environ an_env) true (Some 0%nat) (replicate 6 88)).
Proof. vm_compute. reflexivity. Qed.
Example home_not_found : getenv_r (B "HOME") 6 an_env = Ret ENOENT (Env (environ an_env) true (Some 0%nat) (replicate 6 88)).
Proof. vm_compute. reflexivity. Qed.

Lemma getenv_r_correct_witness : lookup_env (B "PATH") (environ an_env) = Some (B "/bin") /\
  wp (getenv_r (B "PATH") 5) (fun r e' => got (B "PATH") 5 an_env r e' /\ environ e' = environ an_env /\ init_done e' = true /\
    env_mutex e' = Some 0%nat) noexit an_env.
Proof.
  split; [vm_compute; reflexivity|]. apply (getenv_r_correct (B "PATH") 5 an_env).
  - unfold no_nul, NUL. rewrite list_elem_of_In. simpl. intros Hin. repeat destruct Hin as [Hin|Hin]; done.
  - vm_compute. reflexivity.
  - repeat constructor.
  - vm_compute. discriminate.
  - reflexivity.
Defined.
