(* ===== verification/MsgPoll.v ===== *)
(** MsgPoll: XSI message queues that are polled through sockets, apue/17.2socketpair_xsi_ipc.c,
    and the sender, apue/17.2socketpair_xsi_ipc_test.c. The main thread, the helper of each
    queue and the senders run interleaved; each call of the system is one atomic step. *)
From stdpp Require Import gmap list strings.
From S2P Require Import Prelude Arrays Bytes.

Definition NQ : nat := 3.
Definition MAXMSZ : nat := 512.
Definition KEY : Z := 291.
Definition IPC_PRIVATE : Z := 0.

(** A helper with its [struct threadinfo]: the message between its [msgrcv] and its
    [write], and the datagrams in the socket pair that main has not read. *)
Record thread := Thread { t_qid : Z; held : option bytes; sock : list bytes }.

(** Where main is; in the scan with the [revents] of the last [poll]. *)
Inductive point :=
| Get (i : nat)
| Pair (i : nat) (q : Z)
| Create (i : nat) (q : Z)
| Poll
| Scan (i : nat) (revents : list bool).

Inductive line := Heading (i : nat) (q : Z) | Message (q : Z) (data : bytes).
Inductive status := Running | Stopped (message : bytes) | Undefined.
#[export] Instance status_eq_dec : EqDecision status.
Proof. solve_decision. Defined.

(** The queues of the system by key and by identifier; [sent] is all that was ever put
    into each, [senders] are the processes before their [msgsnd], and [out] is what main
    has printed. *)
Record system := System {
  ids : gmap Z Z; queues : gmap Z (list bytes); sent : gmap Z (list bytes);
  senders : list (Z * bytes);
  threads : list thread; at_ : point; out : list line; state : status }.

Definition queue (q : Z) (s : system) : list bytes := default [] (queues s !! q).
Definition history (q : Z) (s : system) : list bytes := default [] (sent s !! q).

Definition set_ids (v : gmap Z Z) (s : system) : system :=
  System v (queues s) (sent s) (senders s) (threads s) (at_ s) (out s) (state s).
Definition set_queues (v : gmap Z (list bytes)) (s : system) : system :=
  System (ids s) v (sent s) (senders s) (threads s) (at_ s) (out s) (state s).
Definition set_sent (v : gmap Z (list bytes)) (s : system) : system :=
  System (ids s) (queues s) v (senders s) (threads s) (at_ s) (out s) (state s).
Definition set_senders (v : list (Z * bytes)) (s : system) : system :=
  System (ids s) (queues s) (sent s) v (threads s) (at_ s) (out s) (state s).
Definition set_threads (v : list thread) (s : system) : system :=
  System (ids s) (queues s) (sent s) (senders s) v (at_ s) (out s) (state s).
Definition goto (v : point) (s : system) : system :=
  System (ids s) (queues s) (sent s) (senders s) (threads s) v (out s) (state s).
Definition print (l : line) (s : system) : system :=
  System (ids s) (queues s) (sent s) (senders s) (threads s) (at_ s) (out s ++ [l]) (state s).
Definition stop (v : status) (s : system) : system :=
  System (ids s) (queues s) (sent s) (senders s) (threads s) (at_ s) (out s) v.

(** The bytes of a line. *)
Definition render (l : line) : bytes :=
  match l with
  | Heading i q => B "queue ID " ++ dec (Z.of_nat i) ++ B " is " ++ dec q ++ [NEWLINE]
  | Message q data => B "queue id " ++ dec q ++ B ", message " ++ cstr data ++ [NEWLINE]
  end.

(** *** The library *)

Definition digit (c : Z) : Z :=
  if isdigit c then c - 48
  else if (97 <=? c) && (c <=? 122) then c - 87
  else if (65 <=? c) && (c <=? 90) then c - 55 else 36.
Fixpoint in_base (base acc : Z) (b : bytes) : Z :=
  match b with
  | c :: b => if digit c <? base then in_base base (acc * base + digit c) b else acc
  | [] => acc
  end.

(** [strtol] with base 0: the prefix of the number tells the base. *)
Definition magnitude (b : bytes) : Z :=
  match b with
  | 48 :: x :: r => if (x =? 120) || (x =? 88) then in_base 16 0 r else in_base 8 0 b
  | _ => in_base 10 0 b
  end.
Definition strtol (b : bytes) : Z :=
  let v := match skip_spaces b with
           | 45 :: b => - magnitude b
           | 43 :: b => magnitude b
           | b => magnitude b
           end in
  Z.max (- 2 ^ 63) (Z.min (2 ^ 63 - 1) v).

Section system.
(** The identifier of a new queue, the bytes a queue holds, and the datagrams that wait
    in a socket. *)
Context (new_id : gset Z -> Z) (MSGMNB : nat) (QLEN : nat).

Definition new_queue (s : system) : Z * system :=
  let q := new_id (dom (queues s)) in
  (q, set_queues (<[q := []]> (queues s)) (set_sent (<[q := []]> (sent s)) s)).

(** [msgget] with IPC_CREAT, and without; the key 0 is not one of a queue. *)
Definition msgget_creat (key : Z) (s : system) : Z * system :=
  match ids s !! key with
  | Some q => (q, s)
  | None => let '(q, s) := new_queue s in (q, set_ids (<[key := q]> (ids s)) s)
  end.
Definition msgget (key : Z) (s : system) : option (Z * system) :=
  if key =? IPC_PRIVATE then Some (new_queue s) else (fun q => (q, s)) <$> ids s !! key.

Definition size (l : list bytes) : nat := sum_list_with length l.

(** [None] when the call blocks. *)
Definition msgsnd (q : Z) (text : bytes) (s : system) : option system :=
  match queues s !! q with
  | Some l => if decide (size l + length text <= MSGMNB)%nat
              then Some (set_queues (<[q := l ++ [text]]> (queues s)) (set_sent (<[q := history q s ++ [text]]> (sent s)) s))
              else None
  | None => None
  end.

(** With MSG_NOERROR a longer message is cut. *)
Definition msgrcv (q : Z) (s : system) : option (bytes * system) :=
  match queues s !! q with
  | Some (m :: l) => Some (take MAXMSZ m, set_queues (<[q := l]> (queues s)) s)
  | _ => None
  end.

(** ** The program *)

Definition set_thread (i : nat) (t : thread) (s : system) : system := set_threads (<[i := t]> (threads s)) s.

(** A step of the helper of queue [i]. *)
Definition helper (i : nat) (s : system) : option system :=
  t ← threads s !! i;
  match held t with
  | None => '(m, s) ← msgrcv (t_qid t) s; Some (set_thread i (Thread (t_qid t) (Some m) (sock t)) s)
  | Some m =>
      if decide (length (sock t) < QLEN)%nat
      then Some (set_thread i (Thread (t_qid t) None (sock t ++ [m])) s) else None
  end.

Definition readable (t : thread) : bool := match sock t with [] => false | _ => true end.

(** A step of main. [buf] has [MAXMSZ] bytes. *)
Definition main (s : system) : option system :=
  match at_ s with
  | Get i => let '(q, s) := msgget_creat (KEY + Z.of_nat i) s in Some (goto (Pair i q) (print (Heading i q) s))
  | Pair i q => Some (goto (Create i q) s)
  | Create i q =>
      Some (goto (if decide (S i < NQ)%nat then Get (S i) else Poll) (set_threads (threads s ++ [Thread q None []]) s))
  | Poll =>
      let revents := readable <$> threads s in
      if existsb id revents then Some (goto (Scan 0 revents) s) else None
  | Scan i revents =>
      match revents !! i with
      | None => Some (goto Poll s)
      | Some false => Some (goto (Scan (S i) revents) s)
      | Some true =>
          t ← threads s !! i;
          match sock t with
          | [] => None
          | d :: l =>
              if decide (length d < MAXMSZ)%nat
              then Some (goto (Scan (S i) revents) (print (Message (t_qid t) d) (set_thread i (Thread (t_qid t) (held t) l) s)))
              else Some (stop Undefined s)
          end
      end
  end.

(** What [err_sys] and [err_exit] print when the next call fails. *)
Definition helper_error (i : nat) (s : system) : option bytes :=
  t ← threads s !! i; Some (match held t with None => B "msgrcv error" | Some _ => B "write error" end).
Definition main_error (s : system) : option bytes :=
  match at_ s with
  | Get _ => Some (B "msgget error")
  | Pair _ _ => Some (B "socketpair error")
  | Create _ _ => Some (B "pthread_create error")
  | Poll => Some (B "poll error")
  | Scan i revents => match revents !! i with Some true => Some (B "read error") | _ => None end
  end.

(** ** The sender *)

(** Its message, in a buffer that has been cleared: the [nbytes] bytes that are sent. *)
Definition mtext (text : bytes) : bytes :=
  let mtext := strncpy text (MAXMSZ - 1) ++ [NUL] in take (length (cstr mtext)) mtext.

(** Up to the call of [msgsnd]; [None] when it exits with an error. *)
Definition sendmsg (argv : list bytes) (s : system) : option system :=
  match argv with
  | [_; key; text] =>
      '(q, s) ← msgget (signed 32 (strtol key)) s; Some (set_senders (senders s ++ [(q, mtext text)]) s)
  | _ => None
  end.

(** ** Runs *)

(** [Other] is the [msgsnd] of a program that is none of these. *)
Inductive move :=
| Main | Helper (i : nat) | MainFails | HelperFails (i : nat)
| Start (argv : list bytes) | Send (k : nat) | SendFails (k : nat)
| Other (q : Z) (text : bytes).

Definition step (m : move) (s : system) : option system :=
  match m with
  | Start argv => sendmsg argv s
  | Send k => '(q, text) ← senders s !! k; msgsnd q text (set_senders (delete k (senders s)) s)
  | SendFails k => _ ← senders s !! k; Some (set_senders (delete k (senders s)) s)
  | Other q text => msgsnd q text s
  | _ =>
      if decide (state s = Running) then
        match m with
        | Main => main s
        | Helper i => helper i s
        | MainFails => msg ← main_error s; Some (stop (Stopped msg) s)
        | HelperFails i => msg ← helper_error i s; Some (stop (Stopped msg) s)
        | _ => None
        end
      else None
  end.

Fixpoint run (moves : list move) (s : system) : option system :=
  match moves with
  | [] => Some s
  | m :: moves => match step m s with Some s => run moves s | None => None end
  end.

(** The program starts with the queues that are there. *)
Definition start (ids : gmap Z Z) (queues : gmap Z (list bytes)) : system :=
  System ids queues queues [] [] (Get 0) [] Running.
End system.
