(* ===== verification/MsgPollProofs.v ===== *)
(** MsgPollProofs: each message that is sent to one of the queues is, in the order of the
    queue, either printed, or in the socket, with the helper or in the queue; while main is
    set up, the program cannot stop before all of them are printed, unless a message of
    512 bytes makes it write behind its buffer. *)
From stdpp Require Import gmap list strings.
From S2P Require Import Prelude Arrays Bytes MsgPoll.

(** ** What is on the way *)

(** The data of the lines about queue [q]. *)
Definition about (q : Z) (l : line) : option bytes :=
  match l with Message q' d => if decide (q' = q) then Some d else None | Heading _ _ => None end.
Definition read_of (q : Z) (l : list line) : list bytes := omap (about q) l.

Definition flight (t : thread) : list bytes := sock t ++ option_list (held t).
Definition flight_of (q : Z) (t : thread) : list bytes := if decide (t_qid t = q) then flight t else [].
Definition in_flight (q : Z) (ts : list thread) : list bytes := concat (flight_of q <$> ts).

Lemma read_of_snoc q l x : read_of q (l ++ [x]) = read_of q l ++ option_list (about q x).
Proof. unfold read_of. rewrite omap_app. simpl. by destruct (about q x). Qed.

Lemma in_flight_none q ts : q ∉ t_qid <$> ts -> in_flight q ts = [].
Proof.
  unfold in_flight. induction ts as [|t ts IH]; [done|]. rewrite !fmap_cons, not_elem_of_cons. intros [Ht Hts].
  cbn [concat]. rewrite IH by done. unfold flight_of. by rewrite decide_False.
Qed.

(** The identifiers of the threads differ, so one of them has all that is on the way. *)
Lemma in_flight_insert q ts i t t' : NoDup (t_qid <$> ts) -> ts !! i = Some t -> t_qid t' = t_qid t ->
  in_flight q (<[i := t']> ts) = if decide (t_qid t = q) then flight t' else in_flight q ts.
Proof.
  intros Hnd Ht Hq. pose proof (lookup_lt_Some _ _ _ Ht). rewrite insert_take_drop by done.
  rewrite <-(take_drop_middle ts i t Ht) in Hnd. rewrite fmap_app, fmap_cons in Hnd.
  apply NoDup_app in Hnd as (_ & Hd1 & [Hd2 _]%NoDup_cons).
  case_decide as E.
  - unfold in_flight. rewrite fmap_app, fmap_cons, concat_app. cbn [concat].
    fold (in_flight q (take i ts)). fold (in_flight q (drop (S i) ts)). rewrite !in_flight_none.
    + unfold flight_of. by rewrite decide_True, app_nil_r by congruence.
    + by rewrite <-E.
    + intros Hin. apply (Hd1 _ Hin). rewrite <-E. left.
  - rewrite <-(take_drop_middle ts i t Ht) at 3. unfold in_flight. rewrite !fmap_app, !fmap_cons, !concat_app. cbn [concat].
    unfold flight_of at 2 5. by rewrite !decide_False by congruence.
Qed.

Lemma in_flight_at q ts i t : NoDup (t_qid <$> ts) -> ts !! i = Some t -> t_qid t = q -> in_flight q ts = flight t.
Proof.
  intros Hnd Ht Hq. rewrite <-(list_insert_id ts i t Ht). by rewrite (in_flight_insert q ts i t t), decide_True.
Qed.

Section proofs.
Context (new_id : gset Z -> Z) (MSGMNB QLEN : nat).
Hypothesis Hnew : forall X, new_id X ∉ X.
Implicit Types s : system.
Notation step := (step new_id MSGMNB QLEN).
Notation run := (run new_id MSGMNB QLEN).
Notation main := (main new_id).

Definition main_ok s : Prop :=
  match at_ s with
  | Get i => length (threads s) = i /\ (i < NQ)%nat
  | Pair i q | Create i q => length (threads s) = i /\ (i < NQ)%nat /\ ids s !! (KEY + Z.of_nat i) = Some q
  | Poll => length (threads s) = NQ
  | Scan i revents => length (threads s) = NQ /\ length revents = NQ /\ (i <= NQ)%nat /\
      forall j t, (i <= j)%nat -> revents !! j = Some true -> threads s !! j = Some t -> sock t <> []
  end.

(** Keys have identifiers of their own, those of the threads are these of the keys from
    [KEY] on, and no message is lost, doubled or overtaken by another. *)
Record inv s : Prop := {
  i_inj : forall k k' q, ids s !! k = Some q -> ids s !! k' = Some q -> k = k';
  i_ids : forall k q, ids s !! k = Some q -> is_Some (queues s !! q);
  i_sent : forall q, queues s !! q = None -> sent s !! q = None;
  i_threads : forall i t, threads s !! i = Some t -> ids s !! (KEY + Z.of_nat i) = Some (t_qid t);
  i_main : main_ok s;
  i_flow : forall q, take MAXMSZ <$> history q s = read_of q (out s) ++ in_flight q (threads s) ++ (take MAXMSZ <$> queue q s);
  i_state : state s = Undefined -> exists q m, m ∈ history q s /\ (MAXMSZ <= length m)%nat }.

Lemma inv_nodup s : inv s -> NoDup (t_qid <$> threads s).
Proof.
  intros H. apply NoDup_alt. intros i j q Hi Hj.
  apply list_lookup_fmap_Some in Hi as (t & -> & Hi). apply list_lookup_fmap_Some in Hj as (t' & E & Hj).
  apply (i_threads s H) in Hi, Hj. rewrite <-E in Hj. pose proof (i_inj s H _ _ _ Hi Hj). lia.
Qed.

(** ** The senders *)

Lemma inv_senders l s : inv s -> inv (set_senders l s).
Proof. by intros [? ? ? ? ? ? ?]; split. Qed.

Lemma inv_new_queue s : inv s -> let q := new_id (dom (queues s)) in queues s !! q = None /\ inv (new_queue new_id s).2.
Proof.
  intros H q. assert (Hq : queues s !! q = None) by (apply not_elem_of_dom, Hnew). split; [done|].
  pose proof (i_sent s H q Hq) as Hs.
  assert (Eh : forall q', history q' (new_queue new_id s).2 = history q' s).
  { intros q'. unfold history. simpl. fold q. destruct (decide (q' = q)) as [->|]; [by rewrite lookup_insert_eq, Hs|by rewrite lookup_insert_ne]. }
  assert (Eq : forall q', queue q' (new_queue new_id s).2 = queue q' s).
  { intros q'. unfold queue. simpl. fold q. destruct (decide (q' = q)) as [->|]; [by rewrite lookup_insert_eq, Hq|by rewrite lookup_insert_ne]. }
  destruct H as [H1 H2 H3 H4 H5 H6 H7]. split; try done.
  - intros k q' Hk. simpl. apply lookup_insert_is_Some'. right. by apply (H2 k).
  - intros q' Hq'. simpl in *. fold q in Hq' |- *. destruct (decide (q' = q)) as [->|]; [by rewrite lookup_insert_eq in Hq'|].
    rewrite lookup_insert_ne in * by done. by apply H3.
  - intros q'. rewrite Eh, Eq. apply H6.
  - intros E. destruct (H7 E) as (q' & m & ? & ?). exists q', m. by rewrite Eh.
Qed.

(** The end of a queue is also the end of its history. *)
Lemma inv_msgsnd q text s s' : inv s -> msgsnd MSGMNB q text s = Some s' -> inv s'.
Proof.
  intros H Hs. unfold msgsnd in Hs. destruct (queues s !! q) as [l|] eqn:El; [|done]. destruct (decide _); [|done].
  injection Hs as <-. assert (Hq : queue q s = l) by (unfold queue; by rewrite El).
  destruct H as [H1 H2 H3 H4 H5 H6 H7]. split; simpl; try done.
  - intros k q' Hk. apply lookup_insert_is_Some'. right. by apply (H2 k).
  - intros q' Hq'. destruct (decide (q' = q)) as [->|]; [by rewrite lookup_insert_eq in Hq'|].
    rewrite lookup_insert_ne in * by done. by apply H3.
  - intros q'. specialize (H6 q'). unfold history, queue in *. simpl. destruct (decide (q' = q)) as [->|].
    + rewrite !lookup_insert_eq. simpl. rewrite El in H6. simpl in H6. by rewrite !fmap_app, H6, <-!app_assoc.
    + by rewrite !lookup_insert_ne by done.
  - intros E. destruct (H7 E) as (q' & m & Hm & ?). exists q', m. split; [|done].
    unfold history in *. simpl. destruct (decide (q' = q)) as [->|]; [|by rewrite lookup_insert_ne].
    rewrite lookup_insert_eq. simpl. apply elem_of_app. by left.
Qed.

Lemma inv_msgget_creat key q s s1 : inv s -> msgget_creat new_id key s = (q, s1) ->
  inv s1 /\ ids s1 !! key = Some q /\ at_ s1 = at_ s /\ threads s1 = threads s /\ out s1 = out s.
Proof.
  intros H Hg. unfold msgget_creat in Hg. destruct (ids s !! key) as [q'|] eqn:Ek; [by injection Hg as -> ->|].
  destruct (inv_new_queue s H) as [Hq [H1 H2 H3 H4 H5 H6 H7]]. destruct (new_queue new_id s) as [q' s2] eqn:En.
  injection Hg as <- <-. injection En as <- <-. simpl in *. rewrite lookup_insert_eq. split_and!; try done. split; simpl; try done.
  - intros k k' q'. rewrite !lookup_insert_Some. intros [[<- <-]|[? Hk]] [[<- E]|[? Hk']]; [done| | |by apply (H1 k k' q')].
    + destruct (i_ids s H _ _ Hk') as [? ?]. congruence.
    + subst q'. destruct (i_ids s H _ _ Hk) as [? ?]. congruence.
  - intros k q'. rewrite lookup_insert_Some. intros [[<- <-]|[? Hk]]; [rewrite lookup_insert_eq; by eexists|by apply (H2 k)].
  - intros i t Ht. rewrite lookup_insert_ne; [by apply H4|]. intros ->. apply H4 in Ht. simpl in Ht. congruence.
  - unfold main_ok in *. simpl in *. destruct (at_ s); try done; (destruct H5 as (? & ? & Hi); split_and!; try done;
      rewrite lookup_insert_ne; [done|]; intros ->; congruence).
Qed.

(** ** The program *)

(** A thread that is changed keeps its queue, and its socket is not emptied behind the
    back of main. *)
Lemma inv_set_thread i t t' s : inv s -> threads s !! i = Some t -> t_qid t' = t_qid t ->
  (forall q, take MAXMSZ <$> history q s =
     read_of q (out s) ++ (if decide (t_qid t = q) then flight t' else in_flight q (threads s)) ++ (take MAXMSZ <$> queue q s)) ->
  (sock t <> [] -> sock t' <> []) -> inv (set_thread i t' s).
Proof.
  intros H Ht Eq Hf Hsock. pose proof (inv_nodup s H) as Hnd. destruct H as [H1 H2 H3 H4 H5 H6 H7].
  assert (Hi : forall j u, <[i := t']> (threads s) !! j = Some u -> exists v, threads s !! j = Some v /\ t_qid u = t_qid v /\
    (sock v <> [] -> sock u <> [])).
  { intros j u. rewrite list_lookup_insert_Some. intros [(<- & <- & _)|[_ Hj]]; [by exists t|by exists u]. }
  split; simpl; try done.
  - intros j u Hj. destruct (Hi j u Hj) as (v & Hv & -> & _). by apply H4.
  - unfold main_ok in *. simpl. rewrite length_insert. destruct (at_ s); try done.
    destruct H5 as (? & ? & ? & Hr). split_and!; try done. intros j u ? ? Hj. destruct (Hi j u Hj) as (v & Hv & _ & Hs). apply Hs.
    by apply (Hr j v).
  - intros q. rewrite (in_flight_insert q _ i t t') by done. apply Hf.
Qed.

(** Taking the first message of a queue into the helper. *)
Lemma inv_helper i s s' : inv s -> helper QLEN i s = Some s' -> inv s'.
Proof.
  intros H Hs. unfold helper in Hs. destruct (threads s !! i) as [t|] eqn:Et; [|done]. simpl in Hs.
  pose proof (in_flight_at (t_qid t) _ i t (inv_nodup s H) Et eq_refl) as Hfl. unfold flight in Hfl.
  destruct (held t) as [m|] eqn:Em; simpl in Hs, Hfl.
  - destruct (decide _); [|done]. injection Hs as <-. apply (inv_set_thread i t); try done.
    + intros q. rewrite (i_flow s H q). case_decide as E; [|done]. subst q. rewrite Hfl. unfold flight. simpl. by rewrite app_nil_r.
    + intros _. simpl. by destruct (sock t).
  - destruct (msgrcv (t_qid t) s) as [[m s1]|] eqn:Er; [|done]. simpl in Hs. injection Hs as <-.
    unfold msgrcv in Er. destruct (queues s !! t_qid t) as [[|x l]|] eqn:El; try done. injection Er as <- <-.
    assert (Hq : forall q, queue q (set_queues (<[t_qid t := l]> (queues s)) s) = if decide (t_qid t = q) then l else queue q s).
    { intros q. unfold queue. simpl. case_decide as E; [subst; by rewrite lookup_insert_eq|by rewrite lookup_insert_ne]. }
    assert (Hx : queue (t_qid t) s = x :: l) by (unfold queue; by rewrite El).
    destruct H as [H1 H2 H3 H4 H5 H6 H7]. unfold set_thread. simpl.
    assert (Hnd : NoDup (t_qid <$> threads s)) by (apply inv_nodup; by split).
    split; simpl; try done.
    + intros k q Hk. apply lookup_insert_is_Some'. right. by apply (H2 k).
    + intros q Hq'. destruct (decide (q = t_qid t)) as [->|]; [by rewrite lookup_insert_eq in Hq'|].
      rewrite lookup_insert_ne in Hq' by done. by apply H3.
    + intros j u. rewrite list_lookup_insert_Some. intros [(<- & <- & _)|[_ Hj]]; [exact (H4 _ _ Et)|by apply H4].
    + unfold main_ok in *. simpl. rewrite length_insert. destruct (at_ s); try done.
      destruct H5 as (? & ? & ? & Hr). split_and!; try done. intros j u ? ?. rewrite list_lookup_insert_Some.
      intros [(<- & <- & _)|[_ Hj]]; [exact (Hr i t ltac:(done) ltac:(done) Et)|by apply (Hr j u)].
    + intros q. fold (set_queues (<[t_qid t := l]> (queues s)) s).
      rewrite (in_flight_insert q _ i t) by done. specialize (H6 q). unfold history in *. simpl in *. rewrite H6.
      specialize (Hq q). unfold queue in Hq, Hx |- *. simpl in Hq |- *. rewrite Hq. case_decide as E; [|done]. subst q.
      rewrite Hfl, Hx. unfold flight. simpl. by rewrite app_nil_r, <-!app_assoc.
Qed.

Lemma inv_goto p s : inv s -> main_ok (goto p s) -> inv (goto p s).
Proof. by intros [? ? ? ? ? ? ?] ?; split. Qed.

Lemma inv_heading i q s : inv s -> inv (print (Heading i q) s).
Proof.
  intros [H1 H2 H3 H4 H5 H6 H7]. split; try done. intros q'. etrans; [apply (H6 q')|]. simpl. by rewrite read_of_snoc, app_nil_r.
Qed.

Lemma inv_stop v s : inv s -> (v = Undefined -> exists q m, m ∈ history q s /\ (MAXMSZ <= length m)%nat) -> inv (stop v s).
Proof. by intros [? ? ? ? ? ? ?] ?; split. Qed.

(** What [poll] has found can be read when the scan comes to it. *)
Lemma scan_readable i revents s : inv s -> at_ s = Scan i revents -> revents !! i = Some true ->
  exists t d l, threads s !! i = Some t /\ sock t = d :: l.
Proof.
  intros H Ea Er. pose proof (i_main s H) as Hm. unfold main_ok in Hm. rewrite Ea in Hm. destruct Hm as (Hl & Hr & _ & Hs).
  destruct (lookup_lt_is_Some_2 (threads s) i) as [t Ht]; [rewrite Hl, <-Hr; by eapply lookup_lt_Some|].
  specialize (Hs i t (le_n i) Er Ht). destruct (sock t) as [|d l] eqn:Es; [done|]. by exists t, d, l.
Qed.

(** The first message of a socket is printed. *)
Lemma inv_read i revents t d l s : inv s -> at_ s = Scan i revents -> threads s !! i = Some t -> sock t = d :: l ->
  inv (goto (Scan (S i) revents) (print (Message (t_qid t) d) (set_thread i (Thread (t_qid t) (held t) l) s))).
Proof.
  intros H Ea Ht Es. pose proof (inv_nodup s H) as Hnd.
  pose proof (in_flight_at (t_qid t) _ i t Hnd Ht eq_refl) as Hfl. unfold flight in Hfl. rewrite Es in Hfl.
  destruct H as [H1 H2 H3 H4 H5 H6 H7]. unfold main_ok in H5. rewrite Ea in H5. destruct H5 as (Hn & Hr & Hi & Hs).
  pose proof (lookup_lt_Some _ _ _ Ht). split; simpl; try done.
  - intros j u. rewrite list_lookup_insert_Some. intros [(<- & <- & _)|[_ Hj]]; [exact (H4 _ _ Ht)|by apply H4].
  - unfold main_ok. simpl. rewrite length_insert. split_and!; try done; [lia|]. intros j u Hj Hrj. rewrite list_lookup_insert_ne by lia.
    intros Hu. apply (Hs j u); [lia|done|done].
  - intros q. rewrite (in_flight_insert q _ i t), read_of_snoc by done. specialize (H6 q). unfold history, queue in *. simpl in *. rewrite H6.
    case_decide as E; [|by rewrite app_nil_r]. subst q. rewrite Hfl. unfold flight. simpl. by rewrite <-!app_assoc.
Qed.

Lemma inv_main s s' : inv s -> main s = Some s' -> inv s'.
Proof.
  intros H Hs. unfold MsgPoll.main in Hs. pose proof (i_main s H) as Hm. unfold main_ok in Hm. destruct (at_ s) as [i|i q|i q| |i revents] eqn:Ea.
  - destruct (msgget_creat new_id (KEY + Z.of_nat i) s) as [q s1] eqn:Eg. injection Hs as <-.
    destruct (inv_msgget_creat _ _ _ _ H Eg) as (H1 & Hk & Ea1 & Et1 & _). apply inv_goto; [by apply inv_heading|].
    unfold main_ok. simpl. rewrite Et1. by destruct Hm.
  - injection Hs as <-. by apply inv_goto.
  - injection Hs as <-. destruct Hm as (Hl & Hi & Hk). destruct H as [H1 H2 H3 H4 H5 H6 H7]. split; simpl; try done.
    + intros j t. rewrite lookup_app_Some. intros [Hj|[Hj Et]]; [by apply H4|].
      apply list_lookup_singleton_Some in Et as [Ej <-]. by replace j with i by lia.
    + unfold main_ok. simpl. case_decide; simpl; rewrite length_app; simpl; [split|]; lia.
    + intros q'. etrans; [apply (H6 q')|]. unfold in_flight. rewrite fmap_app, concat_app. simpl.
      assert (flight_of q' (Thread q None []) = []) as -> by (unfold flight_of; by case_decide). by rewrite !app_nil_r.
  - destruct (existsb id _); [|done]. injection Hs as <-. apply inv_goto; [done|]. unfold main_ok. simpl. rewrite length_fmap.
    split_and!; [done|done|lia|]. intros j t _ Hr Ht. rewrite list_lookup_fmap, Ht in Hr. simpl in Hr. injection Hr as Hr.
    unfold readable in Hr. by destruct (sock t).
  - destruct (revents !! i) as [[]|] eqn:Er.
    + destruct (scan_readable i revents s H Ea Er) as (t & d & l & Ht & Es). rewrite Ht in Hs. simpl in Hs. rewrite Es in Hs.
      destruct (decide _) as [|Hlong]; injection Hs as <-; [by apply inv_read|].
      apply inv_stop; [done|]. intros _. pose proof (i_flow s H (t_qid t)) as Hf.
      rewrite (in_flight_at _ _ i t (inv_nodup s H) Ht eq_refl) in Hf. unfold flight in Hf. rewrite Es in Hf.
      assert (Hd : d ∈ take MAXMSZ <$> history (t_qid t) s) by (rewrite Hf; set_solver).
      apply list_elem_of_fmap in Hd as (m & -> & Hm'). exists (t_qid t), m. split; [done|]. rewrite length_take in Hlong. lia.
    + injection Hs as <-. destruct Hm as (? & ? & ? & Hr). apply inv_goto; [done|]. unfold main_ok. simpl.
      apply lookup_lt_Some in Er. split_and!; try done; [lia|]. intros j t ?. apply Hr. lia.
    + injection Hs as <-. apply inv_goto; [done|]. by destruct Hm.
Qed.

Lemma inv_step m s s' : inv s -> step m s = Some s' -> inv s'.
Proof.
  intros H Hs. destruct m as [|i| |i|argv|k|k|q text]; simpl in Hs.
  all: try (destruct (decide _); [|done]).
  - by apply (inv_main s).
  - by apply (inv_helper i s).
  - destruct (main_error s); [|done]. injection Hs as <-. by apply inv_stop.
  - destruct (helper_error i s); [|done]. injection Hs as <-. by apply inv_stop.
  - unfold sendmsg in Hs. destruct argv as [|a [|key [|text [|]]]]; try done. unfold msgget in Hs.
    destruct (_ =? _); simpl in Hs.
    + injection Hs as <-. apply inv_senders, (inv_new_queue s H).
    + destruct (ids s !! _); [|done]. injection Hs as <-. by apply inv_senders.
  - destruct (senders s !! k) as [[q text]|]; [|done]. apply inv_msgsnd in Hs; [done|]. by apply inv_senders.
  - destruct (senders s !! k); [|done]. injection Hs as <-. by apply inv_senders.
  - by apply inv_msgsnd in Hs.
Qed.

(** The queues when the program starts. *)
Definition kernel_ok (ids : gmap Z Z) (queues : gmap Z (list bytes)) : Prop :=
  (forall k k' q, ids !! k = Some q -> ids !! k' = Some q -> k = k') /\ (forall k q, ids !! k = Some q -> is_Some (queues !! q)).

Lemma start_inv ids queues : kernel_ok ids queues -> inv (start ids queues).
Proof. intros [H1 H2]. split; try done. split; [done|]. unfold NQ. simpl. lia. Qed.

Lemma run_inv moves s s' : inv s -> run moves s = Some s' -> inv s'.
Proof.
  revert s. induction moves as [|m moves IH]; intros s H Hr; simpl in Hr; [by injection Hr as <-|].
  destruct (step m s) as [s1|] eqn:Es; [|done]. apply (IH s1); [by apply (inv_step m s)|done].
Qed.

(** ** Short messages *)

Definition short (m : bytes) : Prop := (length m < MAXMSZ)%nat /\ no_nul m.

Lemma mtext_cut text : no_nul text -> mtext text = take (MAXMSZ - 1) text.
Proof.
  intros Hn. unfold mtext, strncpy. set (n := (MAXMSZ - 1)%nat).
  assert (Hc : forall k, cstr ((take n text ++ replicate k NUL) ++ [NUL]) = take n text).
  { assert (no_nul (take n text)) by (intros Hin; apply Hn; apply elem_of_take in Hin as (i & Hi & _); by eapply list_elem_of_lookup_2).
    intros [|k]; rewrite <-?app_assoc; by apply cstr_app. }
  rewrite Hc, <-app_assoc. apply take_app_length.
Qed.

Lemma mtext_short text : no_nul text -> short (mtext text).
Proof.
  intros Hn. rewrite mtext_cut by done. split; [rewrite length_take; unfold MAXMSZ; lia|].
  intros Hin. apply Hn. rewrite <-(take_drop (MAXMSZ - 1) text). apply elem_of_app. by left.
Qed.

(** The processes of the two programs; no argument has a null byte. *)
Definition own (m : move) : Prop :=
  match m with Start argv => Forall no_nul argv | Other _ _ => False | _ => True end.

Definition all_short s : Prop := (forall q, Forall short (history q s)) /\ Forall (fun x => short x.2) (senders s).

Lemma msgsnd_short q text s s' : all_short s -> short text -> msgsnd MSGMNB q text s = Some s' -> all_short s'.
Proof.
  intros [Hh Hs] Ht E. unfold msgsnd in E. destruct (queues s !! q); [|done]. destruct (decide _); [|done]. injection E as <-.
  split; [|done]. intros q'. unfold history. simpl. destruct (decide (q' = q)) as [->|].
  - rewrite lookup_insert_eq. simpl. apply Forall_app. split; [apply Hh|by constructor].
  - rewrite lookup_insert_ne by done. apply Hh.
Qed.

Lemma new_queue_short s : all_short s -> all_short (new_queue new_id s).2.
Proof.
  intros [Hh Hs]. split; [|done]. intros q. unfold history. simpl. set (q' := new_id _). destruct (decide (q' = q)) as [->|].
  - rewrite lookup_insert_eq. constructor.
  - rewrite lookup_insert_ne by done. apply Hh.
Qed.

Lemma short_same s s' : sent s' = sent s -> senders s' = senders s -> all_short s -> all_short s'.
Proof. unfold all_short, history. by intros -> ->. Qed.

Lemma main_short s s' : all_short s -> main s = Some s' -> all_short s'.
Proof.
  intros H Hs. unfold MsgPoll.main in Hs. destruct (at_ s) as [i|i q|i q| |i revents].
  - unfold msgget_creat in Hs. destruct (ids s !! _); [injection Hs as <-; by apply (short_same s)|].
    pose proof (new_queue_short s H) as Hn. destruct (new_queue new_id s) as [q s1]. injection Hs as <-. by apply (short_same s1).
  - injection Hs as <-. by apply (short_same s).
  - injection Hs as <-. by apply (short_same s).
  - destruct (existsb id _); [|done]. injection Hs as <-. by apply (short_same s).
  - destruct (revents !! i) as [[]|]; [|injection Hs as <-; by apply (short_same s)..].
    destruct (threads s !! i) as [t|]; [|done]. simpl in Hs. destruct (sock t); [done|].
    destruct (decide _); injection Hs as <-; by apply (short_same s).
Qed.

Lemma helper_short i s s' : all_short s -> helper QLEN i s = Some s' -> all_short s'.
Proof.
  intros H Hs. unfold helper in Hs. destruct (threads s !! i) as [t|]; [|done]. simpl in Hs. destruct (held t).
  - destruct (decide _); [|done]. injection Hs as <-. by apply (short_same s).
  - unfold msgrcv in Hs. destruct (queues s !! _) as [[|m l]|]; try done. injection Hs as <-. by apply (short_same s).
Qed.

Lemma step_short m s s' : own m -> all_short s -> step m s = Some s' -> all_short s'.
Proof.
  intros Ho H Hs. destruct m as [|i| |i|argv|k|k|q text]; simpl in Hs; try done.
  all: try (destruct (decide _); [|done]).
  - by apply (main_short s).
  - by apply (helper_short i s).
  - destruct (main_error s); [|done]. injection Hs as <-. by apply (short_same s).
  - destruct (helper_error i s); [|done]. injection Hs as <-. by apply (short_same s).
  - unfold sendmsg in Hs. destruct argv as [|a [|key [|text [|]]]]; try done. simpl in Ho.
    assert (Ht : short (mtext text)) by (by apply mtext_short; inversion_clear Ho as [|? ? _ Ho']; inversion_clear Ho' as [|? ? _ Ho]; inversion_clear Ho).
    assert (Hadd : forall q s1, all_short s1 -> all_short (set_senders (senders s1 ++ [(q, mtext text)]) s1)).
    { intros q s1 [? ?]. split; [done|]. simpl. apply Forall_app. split; [done|by constructor]. }
    unfold msgget in Hs. destruct (_ =? _); simpl in Hs; [injection Hs as <-; exact (Hadd _ _ (new_queue_short s H))|].
    destruct (ids s !! _); [|done]. injection Hs as <-. by apply Hadd.
  - destruct (senders s !! k) as [[q text]|] eqn:Ek; [|done]. destruct H as [H1 H2].
    apply (msgsnd_short q text) in Hs; [done| |exact (Forall_lookup_1 _ _ _ _ H2 Ek)]. split; [done|]. by apply Forall_delete.
  - destruct (senders s !! k); [|done]. injection Hs as <-. destruct H as [H1 H2]. split; [done|]. by apply Forall_delete.
Qed.

(** ** Work that is left *)

Fixpoint total (f : thread -> Z) (ts : list thread) : Z :=
  match ts with [] => 0 | t :: ts => f t + total f ts end.
Fixpoint trues (l : list bool) : Z :=
  match l with [] => 0 | b :: l => (if b then 1 else 0) + trues l end.

(** Steps of the helper and of main for the messages of a queue. *)
Definition thread_work s (t : thread) : Z :=
  7 * Zlen (queue (t_qid t) s) + 6 * Zlen (option_list (held t)) + 5 * Zlen (sock t).

(** What is left of a scan; the reads to come have been counted with the messages. *)
Definition main_work s : Z :=
  match at_ s with Scan i revents => Z.of_nat (NQ - i) + 1 - 5 * trues (drop i revents) | _ => 0 end.
Definition work s : Z := total (thread_work s) (threads s) + main_work s.

Definition set_up s : Prop := match at_ s with Poll | Scan _ _ => True | _ => False end.

Lemma total_insert f f' ts i t t' : ts !! i = Some t -> (forall j u, j <> i -> ts !! j = Some u -> f' u = f u) ->
  total f' (<[i := t']> ts) = total f ts - f t + f' t'.
Proof.
  revert i. induction ts as [|u ts IH]; intros [|i] Ht Hf; try done; simpl in *.
  - injection Ht as ->. assert (total f' ts = total f ts) as ->; [|lia].
    assert (Hj : forall j u, ts !! j = Some u -> f' u = f u) by (intros j v; by apply (Hf (S j) v)). clear -Hj.
    induction ts as [|u ts IH]; simpl; [done|]. rewrite (Hj 0%nat u eq_refl), IH; [done|]. intros j v. by apply (Hj (S j) v).
  - rewrite (IH i Ht), (Hf 0%nat u) by first [done|intros j v ?; apply (Hf (S j) v); lia]. lia.
Qed.

Lemma total_nonneg f ts : (forall t, 0 <= f t) -> 0 <= total f ts.
Proof. intros Hf. induction ts as [|t ts IH]; simpl; [lia|]. pose proof (Hf t). lia. Qed.

Lemma total_trues f ts l : (forall t, 5 * Zlen (sock t) <= f t) -> (length l <= length ts)%nat ->
  (forall j t, l !! j = Some true -> ts !! j = Some t -> sock t <> []) -> 5 * trues l <= total f ts.
Proof.
  intros Hf. revert ts. induction l as [|b l IH]; intros [|t ts] Hl Hs; simpl in *; try lia.
  - assert (Hp : forall t, 0 <= f t) by (intros u; pose proof (Hf u); pose proof (Zlen_nonneg (sock u)); lia).
    pose proof (Hp t). pose proof (total_nonneg f ts Hp). lia.
  - specialize (IH ts ltac:(lia) (fun j => Hs (S j))). pose proof (Hf t) as Ht. pose proof (Zlen_nonneg (sock t)).
    destruct b; [|lia]. specialize (Hs 0%nat t eq_refl eq_refl). destruct (sock t); [done|]. unfold Zlen in *. simpl in *. lia.
Qed.

Lemma total_drop f ts i : (forall t, 0 <= f t) -> total f (drop i ts) <= total f ts.
Proof.
  intros Hf. revert i. induction ts as [|t ts IH]; intros [|i]; simpl; try lia. pose proof (Hf t). pose proof (IH i). lia.
Qed.

Lemma thread_work_sock s t : 5 * Zlen (sock t) <= thread_work s t.
Proof. unfold thread_work. pose proof (Zlen_nonneg (queue (t_qid t) s)). pose proof (Zlen_nonneg (option_list (held t))). lia. Qed.

Lemma work_nonneg s : inv s -> set_up s -> 0 <= work s.
Proof.
  intros H Hs. pose proof (i_main s H) as Hm. unfold work, main_work, main_ok, set_up in *.
  assert (Hf : forall t, 0 <= thread_work s t) by (intros t; pose proof (thread_work_sock s t); pose proof (Zlen_nonneg (sock t)); lia).
  pose proof (total_nonneg _ (threads s) Hf).
  destruct (at_ s) as [| | | |i revents]; try lia. destruct Hm as (Hl & Hr & Hi & Hready).
  pose proof (total_drop (thread_work s) (threads s) i Hf).
  enough (5 * trues (drop i revents) <= total (thread_work s) (drop i (threads s))) by lia.
  apply total_trues; [apply thread_work_sock|rewrite !length_drop; lia|]. intros j t. rewrite !lookup_drop. intros Hj. apply Hready; [lia|done].
Qed.

Definition internal (m : move) : Prop := match m with Main | Helper _ => True | _ => False end.

Lemma trues_some l : existsb id l = true -> 1 <= trues l.
Proof.
  assert (Hp : forall l, 0 <= trues l) by (intros l'; induction l' as [|[] l' ?]; simpl; lia).
  induction l as [|[] l IH]; simpl; [done| |done]. pose proof (Hp l). lia.
Qed.

(** A step of the program that brings it nearer to the end of its work. *)
Definition progress s s' : Prop := state s' = Running /\ set_up s' /\ sent s' = sent s /\ work s' <= work s - 1.

Lemma helper_progress i s s' : inv s -> state s = Running -> set_up s -> helper QLEN i s = Some s' -> progress s s'.
Proof.
  intros H Hrun Hup Hs. pose proof (inv_nodup s H) as Hnd. unfold helper in Hs. destruct (threads s !! i) as [t|] eqn:Et; [|done]. simpl in Hs.
  destruct (held t) as [m|] eqn:Em.
  - destruct (decide _); [|done]. injection Hs as <-. split_and!; try done. unfold work, main_work. simpl.
    rewrite (total_insert (thread_work s) _ _ i t) by done. unfold thread_work, queue. simpl. rewrite Em, Zlen_app.
    change (Zlen (option_list (Some m))) with 1. change (Zlen [m]) with 1. change (Zlen (@nil bytes)) with 0. lia.
  - unfold msgrcv in Hs. destruct (queues s !! t_qid t) as [[|m l]|] eqn:El; try done. injection Hs as <-.
    split_and!; try done. unfold work, main_work. simpl. rewrite (total_insert (thread_work s) _ _ i t); [|done|].
    + unfold thread_work, queue. simpl. rewrite lookup_insert_eq, El, Em. simpl.
      replace (Zlen (m :: l)) with (1 + Zlen l) by (unfold Zlen; simpl; lia). change (Zlen [take MAXMSZ m]) with 1. change (Zlen (@nil bytes)) with 0. lia.
    + intros j u Hj Hu. unfold thread_work, queue. simpl. rewrite lookup_insert_ne; [done|]. intros E. apply Hj.
      apply (NoDup_lookup _ _ _ (t_qid t) Hnd); rewrite list_lookup_fmap, ?Hu, ?Et; simpl; congruence.
Qed.

Lemma main_progress s s' : inv s -> state s = Running -> set_up s -> all_short s -> main s = Some s' -> progress s s'.
Proof.
  intros H Hrun Hup [Hshort _] Hs. pose proof (inv_main s s' H Hs) as H'. pose proof (i_main s H) as Hm.
  unfold MsgPoll.main in Hs. unfold set_up, main_ok in *. destruct (at_ s) as [| | | |i revents] eqn:Ea; try done.
  - destruct (existsb id _) eqn:Ex; [|done]. injection Hs as <-. split_and!; try done.
    unfold work, main_work. simpl. rewrite Ea, drop_0. change (total (thread_work (goto _ s)) (threads s)) with (total (thread_work s) (threads s)).
    enough (1 <= trues (readable <$> threads s)) by (unfold NQ; lia). by apply trues_some.
  - destruct Hm as (Hl & Hr & Hi & _). destruct (revents !! i) as [b|] eqn:Er.
    + assert (Hd : drop i revents = b :: drop (S i) revents) by (by apply drop_S). apply lookup_lt_Some in Er as Hlt. destruct b.
      * destruct (scan_readable i revents s H Ea Er) as (t & d & l & Ht & Es). rewrite Ht in Hs. simpl in Hs. rewrite Es in Hs.
        destruct (decide _) as [|Hlong]; injection Hs as <-.
        -- split_and!; try done. unfold work, main_work. simpl. rewrite Ea, Hd, (total_insert (thread_work s) _ _ i t) by done.
           unfold thread_work, queue. simpl. rewrite Es. replace (Zlen (d :: l)) with (1 + Zlen l) by (unfold Zlen; simpl; lia). unfold NQ in *. lia.
        -- destruct (i_state _ H' eq_refl) as (q & m & Hm & Hlen). exfalso.
           assert (Hsh : short m) by exact (proj1 (Forall_forall _ _) (Hshort q) m Hm). destruct Hsh. lia.
      * injection Hs as <-. split_and!; try done. unfold work, main_work. simpl. rewrite Ea, Hd. simpl.
        change (total (thread_work (goto _ s)) (threads s)) with (total (thread_work s) (threads s)). unfold NQ in *. lia.
    + injection Hs as <-. split_and!; try done. unfold work, main_work. simpl. rewrite Ea. apply lookup_ge_None in Er as Hge.
      rewrite drop_ge by done. simpl. change (total (thread_work (goto _ s)) (threads s)) with (total (thread_work s) (threads s)). unfold NQ in *. lia.
Qed.

Lemma progress_step m s s' : inv s -> state s = Running -> set_up s -> all_short s -> internal m -> step m s = Some s' -> progress s s'.
Proof.
  intros H Hrun Hup Hsh Hm Hs. destruct m as [|i| | | | | |]; try done; simpl in Hs; rewrite decide_True in Hs by done.
  - by apply main_progress.
  - by apply (helper_progress i).
Qed.

(** When nobody can go on, nothing is on the way. *)
Lemma quiet s : (0 < QLEN)%nat -> inv s -> set_up s -> all_short s -> main s = None -> (forall i, helper QLEN i s = None) ->
  forall i t, threads s !! i = Some t -> flight t = [] /\ queue (t_qid t) s = [].
Proof.
  intros HQ H Hup _ Hm Hh i t Ht. assert (Hsock : sock t = []).
  { unfold MsgPoll.main in Hm. unfold set_up in Hup. destruct (at_ s) as [| | | |j revents] eqn:Ea; try done.
    - destruct (existsb id _) eqn:Ex; [done|]. clear -Ex Ht. revert i Ht.
      induction (threads s) as [|u ts IH]; intros [|i] Ht; try done; simpl in *; apply orb_false_iff in Ex as [Hu Hts].
      + injection Ht as ->. unfold readable in Hu. by destruct (sock t).
      + by apply (IH Hts i).
    - exfalso. destruct (revents !! j) as [[]|] eqn:Er; [|done|done].
      destruct (scan_readable j revents s H Ea Er) as (u & d & l & Hu & Es). rewrite Hu in Hm. simpl in Hm. rewrite Es in Hm.
      by destruct (decide _). }
  specialize (Hh i). unfold helper in Hh. rewrite Ht in Hh. simpl in Hh. unfold flight. rewrite Hsock in *. destruct (held t).
  - by rewrite decide_True in Hh by (simpl; lia).
  - split; [done|]. unfold msgrcv in Hh. unfold queue. destruct (queues s !! t_qid t) as [[|]|]; done.
Qed.

Lemma run_progress moves s s' : inv s -> state s = Running -> set_up s -> all_short s -> Forall internal moves -> run moves s = Some s' ->
  inv s' /\ state s' = Running /\ set_up s' /\ all_short s' /\ sent s' = sent s /\ work s' <= work s - Zlen moves.
Proof.
  revert s. induction moves as [|m moves IH]; intros s H Hrun Hup Hsh Hi Hr; simpl in Hr.
  - injection Hr as <-. change (Zlen []) with 0. split_and!; try done. lia.
  - apply Forall_cons in Hi as [Hm Hi]. destruct (step m s) as [s1|] eqn:Es; [|done].
    destruct (progress_step m s s1 H Hrun Hup Hsh Hm Es) as (Hrun1 & Hup1 & Esent & Hw).
    assert (Hsh1 : all_short s1) by (apply (step_short m s); [by destruct m|done|done]).
    destruct (IH s1 (inv_step _ _ _ H Es) Hrun1 Hup1 Hsh1 Hi Hr) as (? & ? & ? & ? & Esent' & Hw').
    split_and!; try done; [congruence|]. unfold Zlen in *. simpl. lia.
Qed.

Lemma run_short moves s s' : Forall own moves -> all_short s -> run moves s = Some s' -> all_short s'.
Proof.
  revert s. induction moves as [|m moves IH]; intros s Ho H Hr; simpl in Hr; [by injection Hr as <-|].
  apply Forall_cons in Ho as [Hm Ho]. destruct (step m s) as [s1|] eqn:Es; [|done].
  apply (IH s1); [done| |done]. by apply (step_short m s).
Qed.

Lemma take_short l : Forall short l -> take MAXMSZ <$> l = l.
Proof.
  induction 1 as [|m l [Hm _] _ IH]; [done|]. rewrite fmap_cons, IH. f_equal. apply take_ge. lia.
Qed.

(** The messages of a queue that main has not read, all of them whole. *)
Lemma flow_short s : inv s -> all_short s -> forall q, history q s = read_of q (out s) ++ in_flight q (threads s) ++ queue q s.
Proof.
  intros H [Hsh _] q. pose proof (i_flow s H q) as Hf. rewrite take_short in Hf by done. rewrite Hf. do 2 f_equal. apply take_short.
  assert (Hq : Forall short (take MAXMSZ <$> queue q s)) by (specialize (Hsh q); rewrite Hf, !Forall_app in Hsh; tauto).
  rewrite Forall_fmap in Hq. apply (Forall_impl _ _ _ Hq). intros m [Hl Hn]. simpl in Hl, Hn.
  rewrite length_take in Hl. rewrite take_ge in Hn by lia. split; [lia|done].
Qed.

(** C19: the messages of a queue are not lost, doubled or overtaken: at every moment of
    every interleaving of main, the helpers, the senders and other programs that send,
    with calls that fail, what was ever put into a queue, cut at 512 bytes, is what main
    has read of it, then what is on the way through its helper and socket, then what is
    still in the queue. Only a message of 512 bytes or more can lead to the
    store behind the buffer of main. *)
Theorem messages_in_order ids queues moves s : kernel_ok ids queues -> run moves (start ids queues) = Some s ->
  (forall q, take MAXMSZ <$> history q s = read_of q (out s) ++ in_flight q (threads s) ++ (take MAXMSZ <$> queue q s)) /\
  NoDup (t_qid <$> threads s) /\
  (state s = Undefined -> exists q m, m ∈ history q s /\ (MAXMSZ <= length m)%nat).
Proof.
  intros Hk Hr. pose proof (run_inv moves _ s (start_inv ids queues Hk) Hr) as H. split_and!; [apply (i_flow s H)|by apply inv_nodup|apply (i_state s H)].
Qed.

(** C20: with senders of the second program alone, whatever their arguments are, main
    never writes behind its buffer and prints each message whole; and from each state
    in which main is set up and runs, the program makes a bounded number of steps of its own
    and can only come to rest when it has printed all messages of its three queues in
    their order. *)
Theorem every_message_printed ids queues moves s : (0 < QLEN)%nat -> kernel_ok ids queues ->
  (forall q, Forall short (default [] (queues !! q))) -> Forall own moves -> run moves (start ids queues) = Some s ->
  state s <> Undefined /\
  (forall q d, Message q d ∈ out s -> render (Message q d) = B "queue id " ++ dec q ++ B ", message " ++ d ++ [NEWLINE]) /\
  (state s = Running -> set_up s -> forall more s', Forall internal more -> run more s = Some s' ->
     state s' = Running /\ Zlen more <= work s /\
     (main s' = None -> (forall i, helper QLEN i s' = None) ->
        length (threads s') = NQ /\
        forall i t, threads s' !! i = Some t -> MsgPoll.ids s' !! (KEY + Z.of_nat i) = Some (t_qid t) /\
          read_of (t_qid t) (out s') = history (t_qid t) s)).
Proof.
  intros HQ Hk Hsq Ho Hr. pose proof (run_inv moves _ s (start_inv ids queues Hk) Hr) as H.
  assert (Hsh : all_short s) by (apply (run_short moves (start ids queues)); [done|by split|done]). split_and!.
  - intros E. destruct (i_state s H E) as (q & m & Hm & Hl). destruct Hsh as [Hsh _].
    pose proof (proj1 (Forall_forall _ _) (Hsh q) m Hm) as [? _]. lia.
  - intros q d Hd. assert (Hin : d ∈ history q s).
    { rewrite (flow_short s H Hsh q). apply elem_of_app. left. apply list_elem_of_omap. exists (Message q d). split; [done|]. simpl. by rewrite decide_True. }
    destruct Hsh as [Hsh _]. pose proof (proj1 (Forall_forall _ _) (Hsh q) d Hin) as [_ Hn]. simpl. by rewrite cstr_id.
  - intros Hrun Hup more s' Hi Hr'. destruct (run_progress more s s' H Hrun Hup Hsh Hi Hr') as (H' & Hrun' & Hup' & Hsh' & Es & Hw).
    pose proof (work_nonneg s' H' Hup'). split_and!; [done|lia|]. intros Hm Hh. split.
    + pose proof (i_main s' H') as Hm'. unfold main_ok, set_up in *. by destruct (at_ s'); try done; destruct Hm'.
    + intros i t Ht. split; [by apply (i_threads s' H')|]. destruct (quiet s' HQ H' Hup' Hsh' Hm Hh i t Ht) as [Hf Hq].
      assert (history (t_qid t) s = history (t_qid t) s') as -> by (unfold history; by rewrite Es).
      rewrite (flow_short s' H' Hsh'), (in_flight_at _ _ i t (inv_nodup s' H') Ht eq_refl), Hf, Hq. by rewrite app_nil_r.
Qed.
End proofs.

(** ** Runs *)

Definition an_id (X : gset Z) : Z := fresh X.
Lemma an_id_new X : an_id X ∉ X.
Proof. apply is_fresh. Qed.

(** Main makes its queues; then "hello" and "you" are sent to the first. *)
Definition setting_up : list move := replicate 9 Main.
Definition sending : list move :=
  [Start [B "sendmsg"; B "0x123"; B "hello"]; Start [B "sendmsg"; B "291"; B "you"]; Send 0; Send 0].
Definition serving : list move := [Helper 0; Helper 0; Helper 0; Main; Main; Main; Main; Main; Helper 0; Main; Main; Main; Main; Main].

Definition after_serving : option system := run an_id 16384 10 (setting_up ++ sending ++ serving) (start ∅ ∅).

Example served : (fun s => (render <$> drop 3 (out s), at_ s, state s)) <$> after_serving =
  Some ([B "queue id 0, message hello" ++ [NEWLINE]; B "queue id 0, message you" ++ [NEWLINE]], Poll, Running).
Proof. vm_compute. reflexivity. Qed.

(** A message of another program that fills the buffer. *)
Example overrun : state <$> run an_id 16384 10 (setting_up ++ [Other 1 (replicate 512 65); Helper 1; Helper 1; Main; Main; Main]) (start ∅ ∅) =
  Some Undefined.
Proof. vm_compute. reflexivity. Qed.

(** A key that is not a number is the key of a new queue that nobody reads. *)
Example no_key : (fun s => (senders s, elements (dom (queues s)))) <$> run an_id 16384 10 [Start [B "sendmsg"; B "key"; B "hello"]] (start ∅ ∅) =
  Some ([(0, B "hello")], [0]).
Proof. vm_compute. reflexivity. Qed.

Lemma no_queues : kernel_ok ∅ ∅.
Proof. split; [by intros k k' q ?%lookup_empty_Some|by intros k q ?%lookup_empty_Some]. Qed.

Definition a_state : system := default (start ∅ ∅) (run an_id 16384 10 (setting_up ++ sending) (start ∅ ∅)).

Lemma messages_in_order_witness :
  history 0 a_state = [B "hello"; B "you"] /\
  (forall q, take MAXMSZ <$> history q a_state = read_of q (out a_state) ++ in_flight q (threads a_state) ++ (take MAXMSZ <$> queue q a_state)) /\
  NoDup (t_qid <$> threads a_state) /\
  (state a_state = Undefined -> exists q m, m ∈ history q a_state /\ (MAXMSZ <= length m)%nat).
Proof.
  split; [vm_compute; reflexivity|]. apply (messages_in_order an_id 16384 10 an_id_new ∅ ∅ (setting_up ++ sending)).
  - exact no_queues.
  - vm_compute. reflexivity.
Defined.

Lemma every_message_printed_witness :
  run an_id 16384 10 serving a_state = after_serving /\
  state a_state <> Undefined /\
  (forall q d, Message q d ∈ out a_state -> render (Message q d) = B "queue id " ++ dec q ++ B ", message " ++ d ++ [NEWLINE]) /\
  (state a_state = Running -> set_up a_state -> forall more s', Forall internal more -> run an_id 16384 10 more a_state = Some s' ->
     state s' = Running /\ Zlen more <= work a_state /\
     (main an_id s' = None -> (forall i, helper 10 i s' = None) ->
        length (threads s') = NQ /\
        forall i t, threads s' !! i = Some t -> ids s' !! (KEY + Z.of_nat i) = Some (t_qid t) /\
          read_of (t_qid t) (out s') = history (t_qid t) a_state)).
Proof.
  split; [vm_compute; reflexivity|]. apply (every_message_printed an_id 16384 10 an_id_new ∅ ∅ (setting_up ++ sending)).
  - lia.
  - exact no_queues.
  - intros q. rewrite lookup_empty. constructor.
  - repeat constructor; unfold no_nul, NUL; rewrite list_elem_of_In; simpl; intros Hin; repeat destruct Hin as [Hin|Hin]; done.
  - vm_compute. reflexivity.
Defined.
