(* ===== verification/Coroutine.v ===== *)
(** Coroutine: a filter that runs as a coroutine of its parent, apue/15.4coroutine.c and
    apue/15.4add2.c. The two processes run interleaved; each call of the system is one
    atomic step. The child may die at any time. *)
From stdpp Require Import sets list strings.
From S2P Require Import Prelude Arrays Bytes.

Definition MAXLINE : nat := 4096.

(** *** The library *)

(** [fgets] of at most [n] bytes: the line and what follows it. *)
Fixpoint fgets (n : nat) (b : bytes) : bytes * bytes :=
  match n, b with
  | O, _ => ([], b)
  | _, [] => ([], [])
  | S n, c :: b => if c =? NEWLINE then ([c], b) else let '(l, r) := fgets n b in (c :: l, r)
  end.

(** The digits at the start, and what follows them. *)
Fixpoint span_digits (b : bytes) : bytes * bytes :=
  match b with
  | c :: r => if isdigit c then let '(d, r) := span_digits r in (c :: d, r) else ([], b)
  | [] => ([], [])
  end.

(** "%d" of [sscanf]: [None] when there is no number. *)
Definition unsigned_number (b : bytes) : option (Z * bytes) :=
  match span_digits b with ([], _) => None | (d, r) => Some (digits_val 0 d, r) end.
Definition scan_int (b : bytes) : option (Z * bytes) :=
  match skip_spaces b with
  | 45 :: b => (fun '(v, r) => (- v, r)) <$> unsigned_number b
  | 43 :: b => unsigned_number b
  | b => unsigned_number b
  end.

(** What [sscanf(line, "%d%d", &int1, &int2)] finds; a number that is no [int] is undefined. *)
Inductive scanned := Two (int1 int2 : Z) | Fewer | Overflow.
Definition sscanf (line : bytes) : scanned :=
  match scan_int line with
  | None => Fewer
  | Some (v, r) =>
      if in_int v then
        match scan_int r with
        | None => Fewer
        | Some (w, _) => if in_int w then Two v w else Overflow
        end
      else Overflow
  end.

(** ** 15.4add2.c *)

(** What is written for a line; [None] when a sum is no [int]. *)
Definition add2 (line : bytes) : option bytes :=
  match sscanf line with
  | Two int1 int2 => if in_int (int1 + int2) then Some (dec (int1 + int2) ++ [NEWLINE]) else None
  | Fewer => Some (B "invalid args" ++ [NEWLINE])
  | Overflow => None
  end.

(** ** The processes *)

Inductive parent_point := Fgets | Write (line : bytes) | Read | Exited (code : Z) | PUndefined.
Inductive child_point := CRead | CWrite (line : bytes) | Gone | CUndefined.

(** [input] is what is left of the standard input of the parent; [fd1] and [fd2] are the
    bytes in the pipes, to and from the child. *)
Record system := System {
  input : bytes; fd1 : bytes; fd2 : bytes; parent : parent_point; child : child_point; out : bytes; messages : list bytes }.

Definition set_input (v : bytes) (s : system) : system := System v (fd1 s) (fd2 s) (parent s) (child s) (out s) (messages s).
Definition set_fd1 (v : bytes) (s : system) : system := System (input s) v (fd2 s) (parent s) (child s) (out s) (messages s).
Definition set_fd2 (v : bytes) (s : system) : system := System (input s) (fd1 s) v (parent s) (child s) (out s) (messages s).
Definition set_parent (v : parent_point) (s : system) : system := System (input s) (fd1 s) (fd2 s) v (child s) (out s) (messages s).
Definition set_child (v : child_point) (s : system) : system := System (input s) (fd1 s) (fd2 s) (parent s) v (out s) (messages s).
Definition fputs (v : bytes) (s : system) : system := System (input s) (fd1 s) (fd2 s) (parent s) (child s) (out s ++ v) (messages s).
Definition err_msg (v : bytes) (s : system) : system := System (input s) (fd1 s) (fd2 s) (parent s) (child s) (out s) (messages s ++ [v]).

Definition gone (c : child_point) : bool := match c with Gone => true | _ => false end.
Definition exited (p : parent_point) : bool := match p with Exited _ => true | _ => false end.

Section coroutine.
(** How many bytes a pipe holds. *)
Context (PIPE_SIZE : nat).

Definition start (input : bytes) : system := System input [] [] Fgets CRead [] [].

(** A call of [write] for a line, which is atomic; [None] when it blocks. *)
Definition pipe_write (pipe line : bytes) : option bytes :=
  if decide (length pipe + length line <= PIPE_SIZE)%nat then Some (pipe ++ line) else None.

(** [sig_pipe] *)
Definition sig_pipe (s : system) : system := set_parent (Exited 1) (fputs (B "SIGPIPE caught" ++ [NEWLINE]) s).

(** [line] has [MAXLINE] bytes, of which the last may have to hold the null byte. *)
Definition parent_step (s : system) : option system :=
  match parent s with
  | Fgets =>
      match input s with
      | [] => Some (set_parent (Exited 0) s)
      | _ => let '(line, rest) := fgets (MAXLINE - 1) (input s) in Some (set_parent (Write (cstr line)) (set_input rest s))
      end
  | Write [] => Some (set_parent Read s)
  | Write line =>
      if gone (child s) then Some (sig_pipe s)
      else (fun b => set_parent Read (set_fd1 b s)) <$> pipe_write (fd1 s) line
  | Read =>
      match fd2 s with
      | [] => if gone (child s) then Some (set_parent (Exited 0) (err_msg (B "child closed pipe") s)) else None
      | b =>
          let line := take MAXLINE b in
          if decide (length line < MAXLINE)%nat
          then Some (set_parent Fgets (fputs (cstr line) (set_fd2 (drop MAXLINE b) s)))
          else Some (set_parent PUndefined s)
      end
  | Exited _ | PUndefined => None
  end.

Definition child_step (s : system) : option system :=
  match child s with
  | CRead =>
      match fd1 s with
      | [] => if exited (parent s) then Some (set_child Gone s) else None
      | b =>
          let line := take MAXLINE b in
          if decide (length line < MAXLINE)%nat
          then Some (set_child (match add2 (cstr line) with Some l => CWrite l | None => CUndefined end) (set_fd1 (drop MAXLINE b) s))
          else Some (set_child CUndefined s)
      end
  | CWrite line =>
      if exited (parent s) then Some (set_child Gone s)
      else (fun b => set_child CRead (set_fd2 b s)) <$> pipe_write (fd2 s) line
  | Gone | CUndefined => None
  end.

(** [Dies] is the end of the child by an error of one of its calls, or by a signal. *)
Inductive move := Parent | Child | Dies.
Definition step (m : move) (s : system) : option system :=
  match m with
  | Parent => parent_step s
  | Child => child_step s
  | Dies => match child s with CRead | CWrite _ => Some (set_child Gone s) | _ => None end
  end.

Fixpoint run (moves : list move) (s : system) : option system :=
  match moves with
  | [] => Some s
  | m :: moves => match step m s with Some s => run moves s | None => None end
  end.
End coroutine.

(** The lines that [fgets] gives one after the other. *)
Fixpoint lines (fuel : nat) (b : bytes) : list bytes :=
  match fuel, b with
  | S fuel, _ :: _ => let '(l, r) := fgets (MAXLINE - 1) b in l :: lines fuel r
  | _, _ => []
  end.
Definition lines_of (b : bytes) : list bytes := lines (length b) b.
