(* ===== verification/CoroutineProofs.v ===== *)
(** CoroutineProofs: the coroutine answers each line of the input with the line of add2,
    in the order of the lines, and ends; also when the child dies on the way. *)
From stdpp Require Import sets list strings.
From S2P Require Import Prelude Arrays Bytes DbBytes Coroutine.

(** ** What add2 writes *)

(** A line that a process can write in one piece and get back from its buffer. *)
Definition fits (l : bytes) : Prop := l <> [] /\ (length l < MAXLINE)%nat /\ no_nul l.

Lemma dec_fits n : INT_MIN <= n <= INT_MAX -> fits (dec n ++ [NEWLINE]).
Proof.
  unfold INT_MIN, INT_MAX. intros Hn.
  assert (Hp : forall m, 0 <= m <= 2147483648 -> (length (dec m) <= 10)%nat /\ no_nul (dec m)).
  { intros m Hm. split; [apply dec_length; lia|apply no_nul_dec; lia]. }
  split; [by destruct (dec n)|]. rewrite length_app. unfold MAXLINE, no_nul. rewrite elem_of_app.
  destruct (Z.lt_ge_cases n 0).
  - rewrite dec_neg by done. destruct (Hp (- n) ltac:(lia)) as [Hl Hz]. split; [simpl; lia|].
    intros [[|Hin]%elem_of_cons|Hin%list_elem_of_singleton]; done.
  - destruct (Hp n ltac:(lia)) as [Hl Hz]. split; [simpl; lia|]. intros [Hin|Hin%list_elem_of_singleton]; done.
Qed.

Lemma add2_fits l a : add2 l = Some a -> fits a.
Proof.
  unfold add2. destruct (sscanf l) as [i j| |]; [|intros [= <-]|done].
  - destruct (in_int (i + j)) eqn:E; [|done]. intros [= <-]. apply dec_fits. by apply in_int_spec.
  - split; [done|]. split; [unfold MAXLINE; simpl; lia|]. unfold no_nul, NUL. rewrite list_elem_of_In. simpl. intros Hin.
    repeat destruct Hin as [Hin|Hin]; done.
Qed.

(** A number is read as it was written. *)
Lemma span_digits_app d b : Forall (fun c => isdigit c = true) d -> no_digit_head b -> span_digits (d ++ b) = (d, b).
Proof.
  intros Hd Hb. induction Hd as [|c d Hc _ IH]; simpl; [destruct b as [|c b]; simpl in *; [done|by rewrite Hb]|]. by rewrite Hc, IH.
Qed.

Lemma unsigned_number_dec n b : 0 <= n -> no_digit_head b -> unsigned_number (dec n ++ b) = Some (n, b).
Proof.
  intros Hn Hb. unfold unsigned_number. rewrite span_digits_app; [|by apply dec_isdigit|done].
  pose proof (dec_length_pos n Hn). pose proof (digits_val_dec n Hn) as Hv. destruct (dec n); [simpl in *; lia|by rewrite Hv].
Qed.

Lemma scan_int_digit c r : isdigit c = true -> scan_int (c :: r) = unsigned_number (c :: r).
Proof.
  intros Hc. unfold scan_int, isdigit in *. simpl. replace (isspace c) with false by (unfold isspace; lia).
  destruct c as [|p|p]; [done| |done]. do 6 (destruct p as [p|p|]; try done; try (simpl in Hc; lia)).
Qed.

Lemma scan_int_dec n b : no_digit_head b -> scan_int (dec n ++ b) = Some (n, b).
Proof.
  intros Hb. destruct (Z.lt_ge_cases n 0) as [Hn|Hn].
  - rewrite dec_neg by done. unfold scan_int. simpl. rewrite unsigned_number_dec by (done || lia). simpl. do 2 f_equal. lia.
  - rewrite <-(unsigned_number_dec n b) by done. pose proof (dec_isdigit n Hn) as Hd. pose proof (dec_length_pos n Hn).
    destruct (dec n) as [|c d]; [simpl in *; lia|]. apply Forall_cons in Hd as [Hc _]. by apply scan_int_digit.
Qed.

Lemma add2_sum i j : in_int i = true -> in_int j = true -> in_int (i + j) = true ->
  add2 (dec i ++ [SPACE] ++ dec j ++ [NEWLINE]) = Some (dec (i + j) ++ [NEWLINE]).
Proof.
  intros Hi Hj Hs. unfold add2, sscanf. rewrite scan_int_dec by done. rewrite Hi.
  change (scan_int ([SPACE] ++ dec j ++ [NEWLINE])) with (scan_int (dec j ++ [NEWLINE])). rewrite scan_int_dec, Hj by done. by rewrite Hs.
Qed.

(** ** The lines of the input *)

Lemma fgets_app n b l r : fgets n b = (l, r) -> b = l ++ r /\ (length l <= n)%nat.
Proof.
  revert b l r. induction n as [|n IH]; intros b l r; simpl; [intros [= <- <-]; split; [done|simpl; lia]|].
  destruct b as [|c b]; [intros [= <- <-]; split; [done|simpl; lia]|].
  destruct (c =? NEWLINE); [intros [= <- <-]; split; [done|simpl; lia]|].
  destruct (fgets n b) as [l' r'] eqn:E. intros [= <- <-]. destruct (IH b l' r' E) as [-> ?]. split; [done|simpl; lia].
Qed.

Lemma fgets_nonempty n c b l r : fgets (S n) (c :: b) = (l, r) -> l <> [].
Proof. simpl. destruct (c =? NEWLINE); [by intros [= <- <-]|]. destruct (fgets n b). by intros [= <- <-]. Qed.

Lemma lines_fuel f g b : (length b <= f)%nat -> (length b <= g)%nat -> lines f b = lines g b.
Proof.
  revert g b. induction f as [|f IH]; intros [|g] [|c b] Hf Hg; try done; try (simpl in *; lia).
  cbn [lines]. destruct (fgets (MAXLINE - 1) (c :: b)) as [l r] eqn:E. f_equal.
  pose proof (fgets_nonempty _ _ _ _ _ E) as Hl. apply fgets_app in E as [E _].
  assert (length (c :: b) = length l + length r)%nat as Hlen by (by rewrite E, length_app).
  destruct l; [done|]. simpl in *. apply IH; lia.
Qed.

(** One step of the parent's loop. *)
Lemma lines_of_cons c b l r : fgets (MAXLINE - 1) (c :: b) = (l, r) -> lines_of (c :: b) = l :: lines_of r.
Proof.
  intros E. unfold lines_of. cbn [length lines]. rewrite E. f_equal.
  pose proof (fgets_nonempty _ _ _ _ _ E) as Hl. apply fgets_app in E as [E _].
  assert (length (c :: b) = length l + length r)%nat as Hlen by (by rewrite E, length_app).
  destruct l; [done|]. simpl in Hlen. apply lines_fuel; lia.
Qed.

(** No part of the input is lost. *)
Lemma concat_lines b : concat (lines_of b) = b.
Proof.
  remember (length b) as n eqn:En. revert b En. induction n as [n IH] using lt_wf_ind. intros [|c b] ->; [done|].
  destruct (fgets (MAXLINE - 1) (c :: b)) as [l r] eqn:E. rewrite (lines_of_cons c b l r E). cbn [concat].
  pose proof (fgets_nonempty _ _ _ _ _ E) as Hl. apply fgets_app in E as [E _].
  rewrite (IH (length r)); [done| |done]. rewrite E, length_app. destruct l; [done|simpl; lia].
Qed.

Lemma lines_fit b : no_nul b -> Forall fits (lines_of b).
Proof.
  remember (length b) as k eqn:Ek. revert b Ek. induction k as [k IH] using lt_wf_ind. intros [|c b] -> Hn; [constructor|].
  destruct (fgets (MAXLINE - 1) (c :: b)) as [l r] eqn:E. rewrite (lines_of_cons _ _ _ _ E).
  pose proof (fgets_nonempty _ _ _ _ _ E) as Hne. apply fgets_app in E as [E Hlen].
  rewrite E in Hn. unfold no_nul in Hn. rewrite elem_of_app in Hn. constructor.
  - split_and!; [done|unfold MAXLINE in *; lia|unfold no_nul; tauto].
  - apply (IH (length r)); [|done|unfold no_nul; tauto]. rewrite E, length_app. destruct l; [done|simpl; lia].
Qed.

(** ** The two processes *)

Section proofs.
Context (PIPE_SIZE : nat).
Hypothesis Hsize : (MAXLINE <= PIPE_SIZE)%nat.
Notation run := (run PIPE_SIZE).
Notation parent_step := (parent_step PIPE_SIZE).
Notation child_step := (child_step PIPE_SIZE).

(** The answer to a line, which is defined. *)
Definition answer (l : bytes) : bytes := default [] (add2 l).
Definition answered (l : bytes) : Prop := is_Some (add2 l).
Definition answers (ls : list bytes) : bytes := concat (answer <$> ls).

(** The child waits for a line, or has died. *)
Definition idle (died : bool) (s : system) : Prop :=
  (child s = CRead /\ fd1 s = []) \/ (died = true /\ child s = Gone).
(** One more step of the child, as long as it lives. *)
Definition alive (s : system) : Z := if gone (child s) then 0 else 1.

(** The lines [done_] have been answered and the lines [rest] not yet; [n] bounds the steps
    to come. *)
Inductive phase (died : bool) (done_ rest : list bytes) (s : system) : Z -> Prop :=
| at_fgets : parent s = Fgets -> lines_of (input s) = rest -> fd2 s = [] -> idle died s -> out s = answers done_ -> messages s = [] ->
    phase died done_ rest s (5 * Zlen rest + 1 + alive s)
| at_write l ls : rest = l :: ls -> parent s = Write l -> lines_of (input s) = ls -> fd2 s = [] -> idle died s ->
    out s = answers done_ -> messages s = [] -> phase died done_ rest s (5 * Zlen rest + alive s)
| line_sent l ls : rest = l :: ls -> parent s = Read -> lines_of (input s) = ls -> fd1 s = l -> fd2 s = [] -> child s = CRead ->
    out s = answers done_ -> messages s = [] -> phase died done_ rest s (5 * Zlen rest - 1 + alive s)
| line_added l ls : rest = l :: ls -> parent s = Read -> lines_of (input s) = ls -> fd1 s = [] -> fd2 s = [] -> child s = CWrite (answer l) ->
    out s = answers done_ -> messages s = [] -> phase died done_ rest s (5 * Zlen rest - 2 + alive s)
| answer_sent l ls : rest = l :: ls -> parent s = Read -> lines_of (input s) = ls -> fd2 s = answer l -> idle died s ->
    out s = answers done_ -> messages s = [] -> phase died done_ rest s (5 * Zlen rest - 3 + alive s)
| child_lost : rest <> [] -> died = true -> parent s = Read -> fd2 s = [] -> child s = Gone ->
    out s = answers done_ -> messages s = [] -> phase died done_ rest s 1
| at_end : rest = [] -> parent s = Exited 0 -> fd2 s = [] -> (child s = CRead /\ fd1 s = [] \/ child s = Gone) -> out s = answers done_ ->
    messages s = [] -> phase died done_ rest s (alive s)
| pipe_closed : rest <> [] -> died = true -> parent s = Exited 0 -> child s = Gone -> out s = answers done_ ->
    messages s = [B "child closed pipe"] -> phase died done_ rest s 0
| pipe_broken : rest <> [] -> died = true -> parent s = Exited 1 -> child s = Gone ->
    out s = answers done_ ++ B "SIGPIPE caught" ++ [NEWLINE] -> messages s = [] -> phase died done_ rest s 0.

(** What holds of the lines: each fits and is answered. *)
Definition line_ok (l : bytes) : Prop := fits l /\ answered l.

Definition going (died : bool) (all : list bytes) (n : Z) (s : system) : Prop :=
  exists done_ rest, all = done_ ++ rest /\ Forall line_ok rest /\ phase died done_ rest s n.

Lemma take_fits l : fits l -> take MAXLINE l = l /\ drop MAXLINE l = [] /\ cstr l = l /\ l <> [].
Proof. intros (Hl & Hn & Hz). split_and!; [apply take_ge; lia|apply drop_ge; lia|by apply cstr_id|done]. Qed.

Lemma answer_fits l : answered l -> fits (answer l).
Proof. intros [a Ha]. unfold answer. rewrite Ha. by apply (add2_fits l). Qed.

Lemma pipe_write_fits l : fits l -> pipe_write PIPE_SIZE [] l = Some l.
Proof. intros (_ & Hl & _). unfold pipe_write. rewrite decide_True; [done|]. simpl. lia. Qed.

Lemma answers_snoc d l : answers (d ++ [l]) = answers d ++ answer l.
Proof. unfold answers. rewrite fmap_app, concat_app. simpl. by rewrite app_nil_r. Qed.

Ltac weight := unfold alive, Zlen in *; simpl in *;
  repeat match goal with E : child _ = _ |- _ => rewrite E in *; clear E end; simpl in *; try case_match; lia.

(** The parent: the cases of [parent_step] in each phase. *)
Lemma parent_going died all n s s' : going died all n s -> parent_step s = Some s' -> exists m, m < n /\ going died all m s'.
Proof.
  intros (d & rest & -> & Hok & Hp) Hs. unfold Coroutine.parent_step in Hs.
  destruct Hp as [Ep El E2 Hi Eo Em|l ls -> Ep El E2 Hi Eo Em|l ls -> Ep El E1 E2 Ec Eo Em|l ls -> Ep El E1 E2 Ec Eo Em|l ls -> Ep El E2 Hi Eo Em
    |Hr Hd Ep E2 Ec Eo Em|Hr Ep E2 Hi Eo Em|Hr Hd Ep Ec Eo Em|Hr Hd Ep Ec Eo Em]; rewrite Ep in Hs; try done.
  - destruct (input s) as [|c b] eqn:Ei.
    + injection Hs as <-. change (lines_of []) with (@nil bytes) in El. subst rest. exists (alive s). split; [weight|]. exists d, []. split_and!; try done.
      replace (alive s) with (alive (set_parent (Exited 0) s)) by done. apply at_end; try done.
      destruct Hi as [?|[_ ?]]; [by left|by right].
    + destruct (fgets (MAXLINE - 1) (c :: b)) as [l r] eqn:Ef. injection Hs as <-. rewrite (lines_of_cons c b l r Ef) in El. subst rest.
      apply Forall_cons in Hok as [Hl Hls]. destruct (take_fits l (proj1 Hl)) as (_ & _ & -> & _).
      exists (5 * Zlen (l :: lines_of r) + alive s). split; [weight|]. exists d, (l :: lines_of r). split_and!; [done|by constructor|].
      by apply (at_write _ _ _ (set_parent (Write l) (set_input r s)) l (lines_of r)).
  - apply Forall_cons in Hok as [Hl Hls]. destruct (take_fits l (proj1 Hl)) as (_ & _ & _ & Hne). destruct l as [|c l]; [done|].
    destruct Hi as [[Ec E1]|[Hd Ec]]; rewrite Ec in Hs; simpl in Hs.
    + rewrite E1, pipe_write_fits in Hs by apply Hl. injection Hs as <-.
      set (s1 := set_parent Read (set_fd1 (c :: l) s)). exists (5 * Zlen ((c :: l) :: ls) - 1 + alive s1). split; [unfold s1; weight|].
      exists d, ((c :: l) :: ls). split_and!; [done|by constructor|]. by apply (line_sent _ _ _ s1 (c :: l) ls).
    + injection Hs as <-. exists 0. split; [weight|]. exists d, ((c :: l) :: ls). split_and!; [done|by constructor|].
      apply pipe_broken; try done. simpl. by rewrite Eo.
  - rewrite E2, Ec in Hs. done.
  - rewrite E2, Ec in Hs. done.
  - apply Forall_cons in Hok as [[_ Hl] Hls]. destruct (take_fits _ (answer_fits l Hl)) as (Et & Edr & Es & Hne). rewrite E2 in Hs.
    destruct (answer l) as [|c a] eqn:Ea; [done|]. rewrite Et, Edr, Es in Hs. rewrite decide_True in Hs by (rewrite <-Ea; apply answer_fits, Hl).
    injection Hs as <-. set (s1 := set_parent Fgets _). exists (5 * Zlen ls + 1 + alive s1). split; [unfold s1; weight|].
    exists (d ++ [l]), ls. split_and!; [by rewrite <-app_assoc|done|]. apply at_fgets; try done. simpl. by rewrite answers_snoc, Eo, Ea.
  - rewrite E2, Ec in Hs. injection Hs as <-. exists 0. split; [lia|]. exists d, rest. split_and!; try done.
    apply pipe_closed; try done. simpl. by rewrite Em.
Qed.

Lemma child_going died all n s s' : going died all n s -> child_step s = Some s' -> exists m, m < n /\ going died all m s'.
Proof.
  intros (d & rest & -> & Hok & Hp) Hs. unfold Coroutine.child_step in Hs.
  destruct Hp as [Ep El E2 Hi Eo Em|l ls -> Ep El E2 Hi Eo Em|l ls -> Ep El E1 E2 Ec Eo Em|l ls -> Ep El E1 E2 Ec Eo Em|l ls -> Ep El E2 Hi Eo Em
    |Hr Hd Ep E2 Ec Eo Em|Hr Ep E2 Hi Eo Em|Hr Hd Ep Ec Eo Em|Hr Hd Ep Ec Eo Em].
  all: try (destruct Hi as [[Ec E1]|[Hd Ec]]; [rewrite Ec, E1, Ep in Hs; simpl in Hs; done|rewrite Ec in Hs; done]).
  all: try (rewrite Ec in Hs; done).
  - apply Forall_cons in Hok as [Hl Hls]. destruct (take_fits l (proj1 Hl)) as (Et & Edr & Es & Hne). rewrite Ec, E1 in Hs.
    destruct l as [|c l]; [done|]. rewrite Et, Edr, Es in Hs. rewrite decide_True in Hs by apply Hl. destruct Hl as [Hf [a Ha]]. rewrite Ha in Hs.
    injection Hs as <-. set (s1 := set_child _ _). exists (5 * Zlen ((c :: l) :: ls) - 2 + alive s1). split; [unfold s1; weight|].
    exists d, ((c :: l) :: ls). split_and!; [done|constructor; [by split; [|exists a]|done]|].
    apply (line_added _ _ _ s1 (c :: l) ls); try done. unfold answer. by rewrite Ha.
  - apply Forall_cons in Hok as [Hl Hls]. rewrite Ec, Ep, E2 in Hs. simpl in Hs. rewrite pipe_write_fits in Hs by apply answer_fits, Hl.
    injection Hs as <-. set (s1 := set_child _ _). exists (5 * Zlen (l :: ls) - 3 + alive s1). split; [unfold s1; weight|].
    exists d, (l :: ls). split_and!; [done|by constructor|]. apply (answer_sent _ _ _ s1 l ls); try done. by left.
  - destruct Hi as [[Ec E1]|Ec]; [|by rewrite Ec in Hs]. rewrite Ec, E1, Ep in Hs. injection Hs as <-. exists 0. split; [weight|].
    exists d, rest. split_and!; try done. apply (at_end _ _ _ (set_child Gone s)); try done. by right.
Qed.

Lemma dies_going died all n s s' : going died all n s -> step PIPE_SIZE Dies s = Some s' -> exists m, m < n /\ going true all m s'.
Proof.
  intros (d & rest & -> & Hok & Hp) Hs. simpl in Hs.
  assert (Hs' : s' = set_child Gone s /\ (child s = CRead \/ exists l, child s = CWrite l)).
  { destruct (child s); try done; injection Hs as <-; (split; [done|]); [by left|right; by eexists]. }
  destruct Hs' as [-> Hc]. set (s1 := set_child Gone s).
  assert (Hn : alive s = 1 /\ alive s1 = 0) by (unfold alive; destruct Hc as [->|[l ->]]; done). destruct Hn as [Hn Hn1].
  assert (Hidle : idle true s1) by (right; done).
  enough (exists m, m < n /\ phase true d rest s1 m) as (m & Hm & ?) by (exists m; split; [done|by exists d, rest]).
  destruct Hp as [Ep El E2 Hi Eo Em|l ls -> Ep El E2 Hi Eo Em|l ls -> Ep El E1 E2 Ec Eo Em|l ls -> Ep El E1 E2 Ec Eo Em|l ls -> Ep El E2 Hi Eo Em
    |Hr Hd Ep E2 Ec Eo Em|Hr Ep E2 Hi Eo Em|Hr Hd Ep Ec Eo Em|Hr Hd Ep Ec Eo Em].
  all: try (exfalso; rewrite Ec in Hc; destruct Hc as [?|[? ?]]; done).
  all: try (exists 1; split; [unfold Zlen; simpl; lia|]; apply child_lost; done).
  - eexists. split; [|by apply (at_fgets _ _ _ s1)]. lia.
  - eexists. split; [|by apply (at_write _ _ _ s1 l ls)]. lia.
  - eexists. split; [|by apply (answer_sent _ _ _ s1 l ls)]. lia.
  - eexists. split; [|apply (at_end _ _ _ s1); try done; by right]. lia.
Qed.

(** The weight is never below zero, and at rest the parent has ended. *)
Lemma phase_bound died d rest s n : phase died d rest s n -> 0 <= n.
Proof. intros Hp. assert (0 <= alive s) by (unfold alive; by case_match). destruct Hp; subst; unfold Zlen in *; simpl in *; lia. Qed.

(** What the parent leaves behind when it ends, with the lines that were answered. *)
Inductive ending (all : list bytes) (died : bool) (s : system) : Prop :=
| all_answered : parent s = Exited 0 -> out s = answers all -> messages s = [] -> ending all died s
| child_closed d rest : died = true -> all = d ++ rest -> rest <> [] -> parent s = Exited 0 -> out s = answers d ->
    messages s = [B "child closed pipe"] -> ending all died s
| sigpipe_caught d rest : died = true -> all = d ++ rest -> rest <> [] -> parent s = Exited 1 ->
    out s = answers d ++ B "SIGPIPE caught" ++ [NEWLINE] -> messages s = [] -> ending all died s.

Lemma going_rest died all n s : going died all n s -> parent_step s = None -> child_step s = None -> child s = Gone /\ ending all died s.
Proof.
  intros (d & rest & -> & Hok & Hp) H1 H2. unfold Coroutine.parent_step, Coroutine.child_step in *.
  destruct Hp as [Ep El E2 Hi Eo Em|l ls -> Ep El E2 Hi Eo Em|l ls -> Ep El E1 E2 Ec Eo Em|l ls -> Ep El E1 E2 Ec Eo Em|l ls -> Ep El E2 Hi Eo Em
    |Hr Hd Ep E2 Ec Eo Em|Hr Ep E2 Hi Eo Em|Hr Hd Ep Ec Eo Em|Hr Hd Ep Ec Eo Em]; rewrite Ep in *.
  - destruct (input s); [done|]. by destruct (fgets (MAXLINE - 1) _).
  - destruct l as [|c l]; [done|]. destruct Hi as [[Ec E1]|[Hd Ec]]; rewrite Ec in *; [|done]. simpl in H1. rewrite E1, pipe_write_fits in H1; [done|].
    by apply Forall_cons in Hok as [[? ?] _].
  - rewrite Ec, E1 in H2. apply Forall_cons in Hok as [[(Hne & ? & ?) ?] _]. destruct l; [done|]. by destruct (decide _).
  - rewrite Ec, E2 in H2. apply Forall_cons in Hok as [[? Hl] _]. simpl in H2. by rewrite pipe_write_fits in H2 by by apply answer_fits.
  - rewrite E2 in H1. apply Forall_cons in Hok as [[? Hl] _]. destruct (answer_fits l Hl) as [Hne _]. destruct (answer l); [done|]. by destruct (decide _).
  - by rewrite E2, Ec in H1.
  - subst rest. destruct Hi as [[Ec E1]|Ec]; [by rewrite Ec, E1 in H2|]. split; [done|]. apply all_answered; by rewrite ?app_nil_r.
  - split; [done|]. by apply (child_closed _ _ _ d rest).
  - split; [done|]. by apply (sigpipe_caught _ _ _ d rest).
Qed.

Definition dead (moves : list move) : bool := existsb (fun m => match m with Dies => true | _ => false end) moves.

Lemma going_dead died died' all n s : going died all n s -> (died = true -> died' = true) -> going died' all n s.
Proof.
  intros (d & rest & E & Hok & Hp) Hd. exists d, rest. split_and!; try done.
  assert (Hidle : idle died s -> idle died' s) by (intros [?|[? ?]]; [by left|right; tauto]).
  destruct Hp; [by apply at_fgets; auto|by eapply at_write; eauto|by eapply line_sent; eauto|by eapply line_added; eauto|by eapply answer_sent; eauto
    |by apply child_lost; auto|by apply at_end; auto|by apply pipe_closed; auto|by apply pipe_broken; auto].
Qed.

Lemma run_going moves died all n s s' : going died all n s -> run moves s = Some s' ->
  exists m, m <= n - Zlen moves /\ going (died || dead moves) all m s'.
Proof.
  revert died n s. induction moves as [|m moves IH]; intros died n s H Hr; simpl in Hr.
  - injection Hr as <-. exists n. split; [unfold Zlen; simpl; lia|]. simpl. by rewrite orb_false_r.
  - destruct (step PIPE_SIZE m s) as [s1|] eqn:Es; [|done].
    assert (Hs : exists k, k < n /\ going (died || dead [m]) all k s1).
    { destruct m; simpl in Es; rewrite ?orb_false_r; [by apply (parent_going died _ _ s)|by apply (child_going died _ _ s)|].
      simpl. rewrite orb_true_r. by apply (dies_going died _ _ s). }
    destruct Hs as (k & Hk & H1). destruct (IH _ k s1 H1 Hr) as (j & Hj & H2). exists j. split; [unfold Zlen in *; simpl; lia|].
    simpl in *. by rewrite orb_false_r, <-orb_assoc in H2.
Qed.

(** C21: for every input without null bytes in which all sums fit, in every interleaving
    of the two processes: neither process commits undefined behaviour, they make at
    most five steps for each line and two more, and they only come to rest when
    both have ended; if the child did not die, the output is then the answers to all
    lines of the input in their order, and if it did, the answers to the first lines,
    with the message that the child has closed its pipe or that the signal was caught.
    The answer to a line with two numbers is their sum. *)
Theorem coroutine_answers input moves s : no_nul input -> Forall answered (lines_of input) -> run moves (start input) = Some s ->
  parent s <> PUndefined /\ child s <> CUndefined /\ Zlen moves <= 5 * Zlen (lines_of input) + 2 /\
  (parent_step s = None -> child_step s = None -> child s = Gone /\ ending (lines_of input) (dead moves) s) /\
  (forall i j, in_int i = true -> in_int j = true -> in_int (i + j) = true ->
     answer (dec i ++ [SPACE] ++ dec j ++ [NEWLINE]) = dec (i + j) ++ [NEWLINE]).
Proof.
  intros Hn Ha Hr. assert (H0 : going false (lines_of input) (5 * Zlen (lines_of input) + 2) (start input)).
  { exists [], (lines_of input). split; [done|]. split.
    - apply Forall_and. by split; [apply lines_fit|].
    - replace (5 * Zlen (lines_of input) + 2) with (5 * Zlen (lines_of input) + 1 + alive (start input)) by (unfold alive; simpl; lia).
      apply at_fgets; try done. by left. }
  destruct (run_going moves false _ _ _ s H0 Hr) as (m & Hm & Hg). simpl in Hg. split_and!.
  - destruct Hg as (d & rest & _ & _ & Hp). by destruct Hp; congruence.
  - destruct Hg as (d & rest & _ & _ & Hp). destruct Hp as [? ? ? [[? ?]|[? ?]]|? ? ? ? ? ? [[? ?]|[? ?]]| | |? ? ? ? ? ? [[? ?]|[? ?]]| |? ? ? [[? ?]|?]| |]; congruence.
  - destruct Hg as (d & rest & _ & _ & Hp). apply phase_bound in Hp. lia.
  - by apply (going_rest _ _ m).
  - intros i j Hi Hj Hs. unfold answer. by rewrite add2_sum.
Qed.
End proofs.

(** ** Runs *)

Fixpoint schedule (n : nat) (s : system) : list move * system :=
  match n with
  | O => ([], s)
  | S n =>
      match parent_step 4096 s, child_step 4096 s with
      | Some s, _ => let '(l, s) := schedule n s in (Parent :: l, s)
      | None, Some s => let '(l, s) := schedule n s in (Child :: l, s)
      | None, None => ([], s)
      end
  end.

Definition two_lines : bytes := B " 20 -8" ++ [NEWLINE] ++ B "20 x" ++ [NEWLINE].

Example both_answered : let '(moves, s) := schedule 100 (start two_lines) in
  Zlen moves = 12 /\ parent s = Exited 0 /\ child s = Gone /\ out s = B "12" ++ [NEWLINE] ++ B "invalid args" ++ [NEWLINE].
Proof. vm_compute. done. Qed.

(** The child dies before the second line. *)
Example sigpipe : (fun s => (parent s, out s)) <$>
    run 4096 [Parent; Parent; Child; Child; Parent; Dies; Parent; Parent] (start two_lines) =
  Some (Exited 1, B "12" ++ [NEWLINE] ++ B "SIGPIPE caught" ++ [NEWLINE]).
Proof. vm_compute. reflexivity. Qed.

(** A line that begins with a null byte is not sent, and both processes wait for ever. *)
Example nul_line : let '(_, s) := schedule 100 (start [NUL; NEWLINE]) in parent s = Read /\ child s = CRead /\ fd1 s = [] /\ fd2 s = [].
Proof. vm_compute. done. Qed.

(** A sum that is no [int]. *)
Example overflow : child (schedule 100 (start (B "2147483647 1" ++ [NEWLINE]))).2 = CUndefined.
Proof. vm_compute. reflexivity. Qed.

Lemma coroutine_answers_witness : let moves := (schedule 7 (start two_lines)).1 in let s := (schedule 7 (start two_lines)).2 in
  lines_of two_lines = [B " 20 -8" ++ [NEWLINE]; B "20 x" ++ [NEWLINE]] /\
  parent s <> PUndefined /\ child s <> CUndefined /\ Zlen moves <= 5 * Zlen (lines_of two_lines) + 2 /\
  (parent_step 4096 s = None -> child_step 4096 s = None -> child s = Gone /\ ending (lines_of two_lines) (dead moves) s) /\
  (forall i j, in_int i = true -> in_int j = true -> in_int (i + j) = true ->
     answer (dec i ++ [SPACE] ++ dec j ++ [NEWLINE]) = dec (i + j) ++ [NEWLINE]).
Proof.
  intros moves s. split; [vm_compute; reflexivity|]. apply (coroutine_answers 4096 ltac:(unfold MAXLINE; lia) two_lines moves s).
  - unfold no_nul, NUL. rewrite list_elem_of_In. simpl. intros Hin. repeat destruct Hin as [Hin|Hin]; done.
  - assert (lines_of two_lines = [B " 20 -8" ++ [NEWLINE]; B "20 x" ++ [NEWLINE]]) as -> by (vm_compute; reflexivity).
    repeat constructor; (eexists; vm_compute; reflexivity).
  - vm_compute. reflexivity.
Defined.
