(* ===== verification/ThreadLocal.v ===== *)
(** ThreadLocal: [getenv] of apue/12.6threadlocal.c, which gives each thread a buffer of its
    own. The whole search is under [env_mutex], so a call is one step of its thread; when a
    thread ends, its buffer is freed. *)
From stdpp Require Import sets gmap list strings.
From S2P Require Import Prelude Arrays Bytes Sys Environ.

Definition MAXSTRINGSZ : nat := 4096.
Definition NULL : Z := 0.

(** [specific] is the value of the key for each thread that has set it, [heap] the blocks
    that [malloc] has given. *)
Record world := World {
  environ : list bytes; init_done : bool; key : bool; env_mutex : bool; specific : gmap Z Z; heap : gmap Z bytes }.
Definition set_init_done (v : bool) (e : world) : world := World (environ e) v (key e) (env_mutex e) (specific e) (heap e).
Definition set_key (v : bool) (e : world) : world := World (environ e) (init_done e) v (env_mutex e) (specific e) (heap e).
Definition set_mutex (v : bool) (e : world) : world := World (environ e) (init_done e) (key e) v (specific e) (heap e).
Definition set_specific (v : gmap Z Z) (e : world) : world := World (environ e) (init_done e) (key e) (env_mutex e) v (heap e).
Definition set_heap (v : gmap Z bytes) (e : world) : world := World (environ e) (init_done e) (key e) (env_mutex e) (specific e) v.

Section getenv.
(** What [malloc] gives, with the indeterminate bytes, for the blocks that are in use. *)
Context (malloc : gmap Z bytes -> option (Z * bytes)).

(** *** The library *)

(** A mutex that is held now is not given back by anybody. *)
Definition mutex_lock : M world unit := m <- gets env_mutex ;; guard_ok (negb m) ;; modify (set_mutex true).
Definition mutex_unlock : M world unit := m <- gets env_mutex ;; guard_ok m ;; modify (set_mutex false).

Definition malloc_buf : M world Z :=
  h <- gets heap ;;
  match malloc h with
  | None => ret NULL
  | Some (p, b) => modify (set_heap (<[p := b]> h)) ;; ret p
  end.

(** A key that has not been made has no value. *)
Definition pthread_getspecific (self : Z) : M world Z :=
  k <- gets key ;; guard_ok k ;; s <- gets specific ;; ret (default NULL (s !! self)).
Definition pthread_setspecific (self p : Z) : M world unit :=
  k <- gets key ;; guard_ok k ;; s <- gets specific ;; modify (set_specific (<[self := p]> s)).

(** [strncpy] into the block at [p], which must be large enough. *)
Definition strncpy_at (p : Z) (s : bytes) (n : nat) : M world unit :=
  h <- gets heap ;;
  match h !! p with
  | Some b => guard_ok (bool_decide (n <= length b)%nat) ;; modify (set_heap (<[p := strncpy s n ++ drop n b]> h))
  | None => ub
  end.

(** *** 12.6threadlocal.c *)

Definition thread_init : M world unit := modify (set_key true).

Definition pthread_once : M world unit :=
  done_ <- gets init_done ;; (when negb done_ do (thread_init ;; modify (set_init_done true))).

Definition getenv (self : Z) (name : bytes) : M world Z :=
  pthread_once ;;
  mutex_lock ;;
  envbuf <- pthread_getspecific self ;;
  envbuf <- (if envbuf =? NULL then
               p <- malloc_buf ;; (when negb (p =? NULL) do pthread_setspecific self p) ;; ret p
             else ret envbuf) ;;
  if envbuf =? NULL then mutex_unlock ;; ret NULL
  else
    let len := wrap32 (Zlen name) in
    n <- gets (fun e => length (environ e)) ;;
    loop (S n) (fun i =>
      e <- gets environ ;;
      match e !! i with
      | None => mutex_unlock ;; ret (inr NULL)
      | Some s =>
          found <- (if strncmp name s (Z.to_nat (len mod 2 ^ 64)) =? 0 then c <- char_at s len ;; ret (c =? EQUALS) else ret false) ;;
          if found : bool then
            strncpy_at envbuf (drop (Z.to_nat (len + 1)) s) (MAXSTRINGSZ - 1) ;; mutex_unlock ;; ret (inr envbuf)
          else ret (inl (S i))
      end) 0%nat.

(** The end of a thread, with [free] for its value of the key. *)
Definition thread_exit (self : Z) : M world unit :=
  s <- gets specific ;;
  match s !! self with
  | None => ret tt
  | Some p =>
      modify (set_specific (delete self s)) ;;
      h <- gets heap ;;
      match h !! p with Some _ => modify (set_heap (delete p h)) | None => ub end
  end.

(** What threads do, one after the other. *)
Inductive event := Getenv (self : Z) (name : bytes) | Exit_ (self : Z).
Definition do_event (ev : event) : M world unit :=
  match ev with Getenv self name => _ <- getenv self name ;; ret tt | Exit_ self => thread_exit self end.
Fixpoint do_events (evs : list event) : M world unit :=
  match evs with [] => ret tt | ev :: evs => do_event ev ;; do_events evs end.

(** ** Blocks and threads *)

(** What POSIX says of [malloc]. *)
Definition posix_malloc : Prop := forall h p b, malloc h = Some (p, b) -> p <> NULL /\ h !! p = None /\ length b = MAXSTRINGSZ.

(** Each thread that has a buffer has one of its own, of the right size, and there are
    no other blocks; the mutex is free between the calls. *)
Record well_formed (e : world) : Prop := {
  wf_key : key e = init_done e;
  wf_none : init_done e = false -> specific e = ∅;
  wf_mutex : env_mutex e = false;
  wf_own : forall t t' p, specific e !! t = Some p -> specific e !! t' = Some p -> t = t';
  wf_block : forall t p, specific e !! t = Some p -> p <> NULL /\ exists b, heap e !! p = Some b /\ length b = MAXSTRINGSZ;
  wf_live : forall p b, heap e !! p = Some b -> exists t, specific e !! t = Some p }.

(** The block of another thread, and its place, do not change. *)
Definition keeps (self : Z) (e e' : world) : Prop :=
  environ e' = environ e /\ (forall t, t <> self -> specific e' !! t = specific e !! t) /\
  (forall t p, t <> self -> specific e !! t = Some p -> heap e' !! p = heap e !! p).

(** The result of a search: the buffer of the thread with the value, cut to the buffer, or
    a null pointer. *)
Definition found (self : Z) (name : bytes) (p : Z) (e e' : world) : Prop :=
  match lookup_env name (environ e) with
  | Some v => (p = NULL /\ specific e' !! self = None) \/
      (p <> NULL /\ specific e' !! self = Some p /\
       exists c, heap e' !! p = Some (strncpy v (MAXSTRINGSZ - 1) ++ [c]) /\
         ((length v < MAXSTRINGSZ - 1)%nat -> cstr (strncpy v (MAXSTRINGSZ - 1) ++ [c]) = v))
  | None => p = NULL
  end.

Hypothesis Hmalloc : posix_malloc.

(** The buffer of a thread, after the part of the call that finds or makes it. *)
Lemma wp_buffer self e (Q : Z -> world -> Prop) X : well_formed e -> init_done e = true ->
  (specific e !! self = None -> Q NULL (set_mutex true e)) ->
  (forall p b e', p <> NULL -> length b = MAXSTRINGSZ -> heap e' !! p = Some b -> specific e' !! self = Some p ->
     env_mutex e' = true -> well_formed (set_mutex false e') -> keeps self e e' -> Q p e') ->
  wp (envbuf <- pthread_getspecific self ;;
      (if envbuf =? NULL then p <- malloc_buf ;; (when negb (p =? NULL) do pthread_setspecific self p) ;; ret p
       else ret envbuf)) Q X (set_mutex true e).
Proof.
  intros H Hi Hnull Hsome. pose proof H as [Hk _ _ Hown Hblock Hlive]. set (e1 := set_mutex true e).
  apply wp_bind, wp_bind, wp_gets, wp_bind, wp_guard; [simpl; congruence|]. apply wp_bind, wp_gets, wp_ret. simpl.
  destruct (specific e !! self) as [p|] eqn:Es; simpl.
  - destruct (Hblock self p Es) as (Hp & b & Hb & Hl). rewrite (proj2 (Z.eqb_neq p NULL)) by done. apply wp_ret.
    apply (Hsome p b e1); try done. by destruct H as [? ? Hm ? ? ?]; split.
  - apply wp_bind, wp_bind, wp_gets. simpl. destruct (malloc (heap e)) as [[p b]|] eqn:Em; [|by apply wp_ret, wp_bind, wp_ret, wp_ret; apply Hnull].
    destruct (Hmalloc _ _ _ Em) as (Hp & Hfree & Hl).
    apply wp_bind, wp_modify, wp_ret, wp_bind. rewrite (proj2 (Z.eqb_neq p NULL)) by done. simpl.
    apply wp_bind, wp_gets, wp_bind, wp_guard; [simpl; congruence|]. apply wp_bind, wp_gets, wp_modify, wp_ret. simpl.
    assert (Hnp : forall t q, specific e !! t = Some q -> q <> p).
    { intros t q Ht ->. destruct (Hblock t p Ht) as (_ & b' & Hb' & _). congruence. }
    apply (Hsome p b); simpl; try done; [by rewrite lookup_insert_eq..| |].
    + split; simpl; try done; [by rewrite Hi| | |].
      * intros t t' q. rewrite !lookup_insert_Some. intros [[<- <-]|[? Ht]] [[<- E]|[? Ht']]; try done; [|by subst q; destruct (Hnp t p)|by apply (Hown t t' q)].
        by destruct (Hnp t' p).
      * intros t q. rewrite lookup_insert_Some. intros [[<- <-]|[? Ht]]; [split; [done|]; exists b; by rewrite lookup_insert_eq|].
        rewrite lookup_insert_ne by (intros ->; by destruct (Hnp t q Ht)). by apply (Hblock t).
      * intros q b'. rewrite lookup_insert_Some. intros [[<- <-]|[Hq Hb']]; [exists self; by rewrite lookup_insert_eq|].
        destruct (Hlive q b' Hb') as [t Ht]. exists t. rewrite lookup_insert_ne; [done|]. intros <-. congruence.
    + split_and!; simpl; [done|intros t ?; by rewrite lookup_insert_ne|]. intros t q ? Ht. rewrite lookup_insert_ne; [done|].
      intros ->. by destruct (Hnp t q).
Qed.

Lemma strncpy_length s n : length (strncpy s n) = n.
Proof. unfold strncpy. rewrite length_app, length_take, length_replicate. lia. Qed.

(** A shorter string is followed by a null byte. *)
Lemma strncpy_cstr s n r : no_nul s -> (length s < n)%nat -> cstr (strncpy s n ++ r) = s.
Proof.
  intros Hs Hl. unfold strncpy. rewrite take_ge by lia. destruct (n - length s)%nat as [|k] eqn:Ek; [lia|].
  simpl. rewrite <-app_assoc. by apply cstr_app.
Qed.

Lemma wp_bind_assoc {S A C D} (m : M S A) (f : A -> M S C) (k : C -> M S D) Q X s :
  wp (x <- m ;; f x) (fun y => wp (k y) Q X) X s -> wp (x <- m ;; y <- f x ;; k y) Q X s.
Proof. unfold wp, bind. destruct (m s) as [a s0| | |]; [|done..]. by destruct (f a s0). Qed.

(** An environment of C strings that an [int] can count. *)
Definition strings (l : list bytes) : Prop := Forall (fun s => no_nul s /\ Zlen s < 2 ^ 31) l.

Lemma lookup_env_no_nul name l v : strings l -> lookup_env name l = Some v -> no_nul v.
Proof.
  intros Hl Hv. unfold lookup_env in Hv. apply head_Some_elem_of, list_elem_of_omap in Hv as (s & Hs & Ev).
  apply value_of_spec in Ev as ->. pose proof (proj1 (Forall_forall _ _) Hl _ Hs) as [Hn _]. intros Hin. apply Hn. set_solver.
Qed.

(** The search, which the thread makes with the mutex. *)
Lemma wp_search name p b e (Q : Z -> world -> Prop) X : no_nul name -> Zlen name < 2 ^ 31 -> strings (environ e) ->
  env_mutex e = true -> heap e !! p = Some b -> length b = MAXSTRINGSZ ->
  match lookup_env name (environ e) with
  | Some v => Q p (set_mutex false (set_heap (<[p := strncpy v (MAXSTRINGSZ - 1) ++ drop (MAXSTRINGSZ - 1) b]> (heap e)) e))
  | None => Q NULL (set_mutex false e)
  end ->
  wp (n <- gets (fun e => length (environ e)) ;;
      loop (S n) (fun i =>
        e <- gets environ ;;
        match e !! i with
        | None => mutex_unlock ;; ret (inr NULL)
        | Some s =>
            found <- (if strncmp name s (Z.to_nat (wrap32 (Zlen name) mod 2 ^ 64)) =? 0
                      then c <- char_at s (wrap32 (Zlen name)) ;; ret (c =? EQUALS) else ret false) ;;
            if found : bool then
              strncpy_at p (drop (Z.to_nat (wrap32 (Zlen name) + 1)) s) (MAXSTRINGSZ - 1) ;; mutex_unlock ;; ret (inr p)
            else ret (inl (S i))
        end) 0%nat) Q X e.
Proof.
  intros Hn Hl Hs Hm Hb Hlen HQ. apply wp_bind, wp_gets.
  apply (wp_loop (fun i e' => e' = e /\ (i <= length (environ e))%nat /\
      lookup_env name (environ e) = lookup_env name (drop i (environ e))) (fun i _ => length (environ e) - i)%nat);
    [split_and!; [done|lia|done]|lia|].
  intros i e' (-> & Hi & Elook). apply wp_bind, wp_gets. simpl.
  destruct (environ e !! i) as [s|] eqn:Es.
  - apply wp_bind, wp_match_entry; [done..|]. erewrite drop_S in Elook by exact Es. unfold lookup_env in Elook. simpl in Elook.
    destruct (value_of name s) as [v|] eqn:Ev; simpl in Elook.
    + rewrite bool_decide_true by by eexists. apply value_of_spec in Ev.
      assert (Ed : drop (Z.to_nat (wrap32 (Zlen name) + 1)) s = v).
      { pose proof (Zlen_nonneg name). rewrite wrap32_id by lia. subst s. change (EQUALS :: v) with ([EQUALS] ++ v). rewrite app_assoc.
        apply drop_app_length'. rewrite length_app. unfold Zlen. simpl. lia. }
      rewrite Ed. unfold lookup_env in HQ. rewrite Elook in HQ. apply wp_bind, wp_bind, wp_gets. rewrite Hb.
      apply wp_bind, wp_guard; [apply bool_decide_true; rewrite Hlen; unfold MAXSTRINGSZ; lia|].
      apply wp_modify, wp_bind, wp_bind, wp_gets, wp_bind, wp_guard; [done|]. by apply wp_modify, wp_ret.
    + rewrite bool_decide_false by by intros []. apply wp_ret. apply lookup_lt_Some in Es. split_and!; [done|lia|exact Elook|lia].
  - apply wp_bind, wp_bind, wp_gets, wp_bind, wp_guard; [done|]. apply wp_modify, wp_ret. apply lookup_ge_None in Es.
    rewrite drop_ge in Elook by done. by rewrite Elook in HQ.
Qed.

(** One call. *)
Lemma wp_getenv self name e : well_formed e -> no_nul name -> Zlen name < 2 ^ 31 -> strings (environ e) ->
  wp (getenv self name) (fun p e' => well_formed e' /\ keeps self e e' /\ found self name p e e') noexit e.
Proof.
  intros H Hn Hl Hs. unfold getenv. apply wp_bind.
  apply wp_conseq with (Q := fun _ e1 => well_formed e1 /\ init_done e1 = true /\ specific e1 = specific e /\ heap e1 = heap e /\ environ e1 = environ e).
  { unfold pthread_once, thread_init. apply wp_bind, wp_gets. destruct (init_done e) eqn:Ei; simpl; [by apply wp_ret|].
    apply wp_bind, wp_modify, wp_modify. split_and!; try done. by destruct H as [? ? ? ? ? ?]; split. }
  intros _ e1 (H1 & Hi1 & Es1 & Eh1 & Ee1). apply wp_bind, wp_bind, wp_gets, wp_bind, wp_guard; [by rewrite (wf_mutex _ H1)|].
  apply wp_modify, wp_bind_assoc, wp_buffer; try done.
  - intros Hnone. apply wp_bind, wp_bind, wp_gets, wp_bind, wp_guard; [done|]. apply wp_modify, wp_ret.
    destruct H1 as [? ? ? ? ? ?]. split_and!; [by split|by split_and!; simpl; intros; rewrite ?Es1, ?Eh1|].
    unfold found. destruct (lookup_env _ _); [|done]. by left.
  - intros p b e2 Hp Hlen Hb Hown Hm [? ? ? ? Hblk ?] (Ke & Ks & Kh). rewrite (proj2 (Z.eqb_neq p NULL)) by done.
    apply (wp_search name p b); try done; [by rewrite Ke, Ee1|]. rewrite Ke, Ee1. unfold found.
    destruct (lookup_env name (environ e)) as [v|] eqn:Ev.
    + assert (Hd : exists c, drop (MAXSTRINGSZ - 1) b = [c]).
      { destruct (drop (MAXSTRINGSZ - 1) b) as [|c [|c' r]] eqn:Ed; apply (f_equal length) in Ed; rewrite length_drop, Hlen in Ed;
          unfold MAXSTRINGSZ in Ed; simpl in Ed; [lia|by exists c|lia]. }
      destruct Hd as [c Ed]. rewrite Ed. set (b' := strncpy v (MAXSTRINGSZ - 1) ++ [c]).
      assert (Hb' : length b' = MAXSTRINGSZ) by (unfold b'; rewrite length_app, strncpy_length; unfold MAXSTRINGSZ; simpl; lia).
      split_and!.
      * split; simpl; try done.
        -- intros t q Ht. destruct (Hblk t q Ht) as (Hq & bq & Hbq & Hlq). split; [done|].
           destruct (decide (q = p)) as [->|]; [exists b'; by rewrite lookup_insert_eq|exists bq; by rewrite lookup_insert_ne].
        -- intros q bq. rewrite lookup_insert_Some. intros [[<- _]|[_ Hq]]; [by exists self|by eauto].
      * split_and!; simpl; [by rewrite Ke, Ee1|intros t Ht; rewrite Ks by done; by rewrite Es1|].
        intros t q Ht Hq. rewrite <-Es1 in Hq. rewrite lookup_insert_ne, (Kh t q Ht Hq); [by rewrite Eh1|].
        intros <-. apply Ht. rewrite <-(Ks t Ht) in Hq. eauto.
      * right. split_and!; try done. exists c. simpl. rewrite lookup_insert_eq. split; [done|]. intros Hv.
        apply strncpy_cstr; [|done]. by apply (lookup_env_no_nul name (environ e)).
    + split_and!; [by split| |done]. split_and!; simpl; [by rewrite Ke, Ee1|intros t Ht; rewrite Ks by done; by rewrite Es1|].
      intros t q Ht Hq. rewrite <-Es1 in Hq. by rewrite (Kh t q Ht Hq), Eh1.
Qed.

(** The end of a thread frees its block alone. *)
Lemma wp_thread_exit self e : well_formed e ->
  wp (thread_exit self) (fun _ e' => well_formed e' /\ keeps self e e' /\ specific e' !! self = None) noexit e.
Proof.
  intros [H1 H2 H3 H4 H5 H6]. apply wp_bind, wp_gets. destruct (specific e !! self) as [p|] eqn:Es; [|apply wp_ret; split_and!; [by split|by split_and!|done]].
  apply wp_bind, wp_modify, wp_bind, wp_gets. destruct (H5 self p Es) as (Hp & b & Hb & Hl). simpl. rewrite Hb. apply wp_modify. simpl.
  split_and!; [|split_and!; simpl; [done|intros t ?; by rewrite lookup_delete_ne|]|by rewrite lookup_delete_eq].
  - split; simpl; try done.
    + intros Hi. rewrite (H2 Hi) in Es. done.
    + intros t t' q Ht Ht'. apply lookup_delete_Some in Ht as [_ Ht], Ht' as [_ Ht']. by apply (H4 t t' q).
    + intros t q [Hne Ht]%lookup_delete_Some. destruct (H5 t q Ht) as (Hq & bq & Hbq & Hlq). split; [done|]. exists bq.
      rewrite lookup_delete_ne; [done|]. intros <-. apply Hne. by apply (H4 self t p).
    + intros q bq [Hne Hq]%lookup_delete_Some. destruct (H6 q bq Hq) as [t Ht]. exists t. rewrite lookup_delete_ne; [done|].
      intros <-. congruence.
  - intros t q Ht Hq. rewrite lookup_delete_ne; [done|]. intros <-. apply Ht. by apply (H4 t self p).
Qed.
(** The names that threads ask for, and who asks. *)
Definition event_ok (ev : event) : Prop := match ev with Getenv _ name => no_nul name /\ Zlen name < 2 ^ 31 | Exit_ _ => True end.
Definition who (ev : event) : Z := match ev with Getenv self _ => self | Exit_ self => self end.

Lemma found_keeps self t name p e e1 e2 : t <> self -> found self name p e e1 -> keeps t e1 e2 -> found self name p e e2.
Proof.
  intros Ht Hf (_ & Ks & Kh). unfold found in *. destruct (lookup_env _ _) as [v|]; [|done].
  destruct Hf as [[? Hf]|(Hp & Hs & c & Hc & Hv)]; [left; by rewrite Ks|]. right. split_and!; [done|by rewrite Ks|].
  exists c. by rewrite (Kh self).
Qed.

Lemma wp_events self name p e e1 evs : well_formed e1 -> environ e1 = environ e -> strings (environ e) -> found self name p e e1 ->
  Forall event_ok evs -> Forall (fun ev => who ev <> self) evs ->
  wp (do_events evs) (fun _ e' => well_formed e' /\ found self name p e e') noexit e1.
Proof.
  revert e1. induction evs as [|ev evs IH]; intros e1 H Ee Hs Hf Hok Hwho; [by apply wp_ret|].
  apply Forall_cons in Hok as [Hev Hok]. apply Forall_cons in Hwho as [Hne Hwho]. apply wp_bind.
  apply wp_conseq with (Q := fun _ e2 => well_formed e2 /\ keeps (who ev) e1 e2).
  - destruct ev as [t n|t]; simpl in *.
    + destruct Hev. apply wp_bind. eapply wp_conseq; [apply wp_getenv; try done; by rewrite Ee|]. intros q e2 (? & ? & _). by apply wp_ret.
    + eapply wp_conseq; [by apply wp_thread_exit|]. by intros [] e2 (? & ? & _).
  - intros _ e2 [H2 K2]. apply IH; try done; [by destruct K2 as [-> _]|]. by apply (found_keeps self (who ev) name p e e1).
Qed.

(** C26: [getenv] of the threads: from every state in which each thread has at most one
    buffer, of its own and of [MAXSTRINGSZ] bytes, no other block is in use and the
    mutex is free, a call ends in such a state; it returns a null pointer when there is
    no entry of the name or no memory, and else the thread's own buffer with the value,
    whole when it is shorter than 4095 bytes. No call accesses a byte out of bounds,
    and whatever the other threads then do, ask for values or end, the string stays. *)
Theorem getenv_thread_local self name evs e : well_formed e -> strings (environ e) -> no_nul name -> Zlen name < 2 ^ 31 ->
  Forall event_ok evs -> Forall (fun ev => who ev <> self) evs ->
  wp (p <- getenv self name ;; do_events evs ;; ret p) (fun p e' => well_formed e' /\ found self name p e e') noexit e.
Proof.
  intros H Hs Hn Hl Hok Hwho. apply wp_bind. eapply wp_conseq; [by apply wp_getenv|]. intros p e1 (H1 & (Ke & _) & Hf).
  apply wp_bind. eapply wp_conseq; [by apply (wp_events self name p e)|]. intros [] e2 H2. by apply wp_ret.
Qed.
End getenv.

(** ** Runs *)

(** The lowest free number, with blocks full of 'X'. *)
Definition some_memory (h : gmap Z bytes) : option (Z * bytes) := Some (fresh (dom h ∪ {[ NULL ]}), replicate MAXSTRINGSZ 88).

Lemma some_memory_posix : posix_malloc some_memory.
Proof.
  intros h p b E. apply (inj Some), pair_eq in E as [<- <-]. pose proof (is_fresh (dom h ∪ {[ NULL ]})) as Hf. split_and!; [set_solver| |apply length_replicate].
  apply not_elem_of_dom. set_solver.
Qed.

Definition a_world : world := World [B "HOME=/root"; B "PATH=/bin"] false false false ∅ ∅.

Definition string_of (r : outcome world Z) : option (Z * bytes) :=
  match r with Ret p e => (fun b => (p, cstr b)) <$> heap e !! p | _ => None end.

Example two_buffers : string_of ((p <- getenv some_memory 7 (B "HOME") ;; do_events some_memory [Getenv 8 (B "PATH"); Getenv 8 (B "HOME"); Exit_ 8] ;; ret p) a_world) =
  Some (1, B "/root").
Proof. vm_compute. reflexivity. Qed.

(** The next call of the same thread overwrites the string. *)
Example same_thread : string_of ((p <- getenv some_memory 7 (B "HOME") ;; do_events some_memory [Getenv 7 (B "PATH")] ;; ret p) a_world) =
  Some (1, B "/bin").
Proof. vm_compute. reflexivity. Qed.

(** A value that is too long has no null byte behind it, but what [malloc] left there. *)
Example not_terminated :
  match getenv some_memory 7 (B "X") (World [B "X=" ++ replicate 5000 65] false false false ∅ ∅) with
  | Ret p e => heap e !! p = Some (replicate 4095 65 ++ [88])
  | _ => False
  end.
Proof. vm_compute. reflexivity. Qed.

Lemma a_world_wf : well_formed a_world.
Proof.
  by split; simpl; intros; simplify_map_eq.
Qed.

Lemma getenv_thread_local_witness : lookup_env (B "HOME") (environ a_world) = Some (B "/root") /\
  wp (p <- getenv some_memory 7 (B "HOME") ;; do_events some_memory [Getenv 8 (B "PATH"); Exit_ 8] ;; ret p)
    (fun p e' => well_formed e' /\ found 7 (B "HOME") p a_world e') noexit a_world.
Proof.
  assert (Hnul : forall s : bytes, forallb (fun c => negb (c =? 0)) s = true -> no_nul s).
  { intros s Hs Hin. rewrite forallb_forall in Hs. apply list_elem_of_In in Hin. by specialize (Hs _ Hin). }
  split; [vm_compute; reflexivity|]. apply (getenv_thread_local some_memory some_memory_posix 7 (B "HOME") [Getenv 8 (B "PATH"); Exit_ 8] a_world).
  - apply a_world_wf.
  - repeat constructor; try (by apply Hnul); lia.
  - by apply Hnul.
  - vm_compute. reflexivity.
  - apply Forall_cons. split; [split; [by apply Hnul|vm_compute; reflexivity]|by repeat constructor].
  - repeat constructor; done.
Defined.
