(* ===== verification/Sleep.v ===== *)
(** Sleep: the two versions of sleep with an alarm, [sleep] of apue/10.19my_sleep.c and [sleep2]
    of apue/10.10sleep2.c. A call of the system is one step; between the steps seconds
    pass, the alarm is delivered, and other signals are caught. The calls succeed. *)
From stdpp Require Import list.
From S2P Require Import Prelude.

(** What is done with SIGALRM: the handler of this file, the default action, which kills
    the process, a handler of the caller, or nothing, when the caller ignores it. *)
Inductive disposition := Sig_alrm | Default | Caller | Ignored.
#[export] Instance disposition_eq_dec : EqDecision disposition.
Proof. solve_decision. Defined.

(** The alarm clock, [None] when it is not set, and the state of SIGALRM; [elapsed] counts
    the seconds that the clock has run since it was set. *)
Record clock := Clock { remaining : option Z; pending : bool; blocked : bool; action : disposition; elapsed : Z }.

Definition set_pending (v : bool) (k : clock) : clock := Clock (remaining k) v (blocked k) (action k) (elapsed k).
Definition set_blocked (v : bool) (k : clock) : clock := Clock (remaining k) (pending k) v (action k) (elapsed k).
(** A signal that is ignored is discarded. *)
Definition kept (v : disposition) (signal : bool) : bool := match v with Ignored => false | _ => signal end.
Definition set_action (v : disposition) (k : clock) : clock := Clock (remaining k) (kept v (pending k)) (blocked k) v (elapsed k).

(** The seconds that were left, and the new setting; 0 turns the clock off. *)
Definition left (k : clock) : Z := default 0 (remaining k).
Definition alarm (seconds : Z) (k : clock) : clock :=
  Clock (if seconds =? 0 then None else Some seconds) (pending k) (blocked k) (action k) 0.
Definition alarm_off (k : clock) : clock := Clock None (pending k) (blocked k) (action k) (elapsed k).

(** A second passes. *)
Definition tick (k : clock) : clock :=
  match remaining k with
  | Some n => if n <=? 1 then Clock None (kept (action k) true) (blocked k) (action k) (elapsed k + 1)
              else Clock (Some (n - 1)) (pending k) (blocked k) (action k) (elapsed k + 1)
  | None => k
  end.

(** What happens next: a step of the function, a second, the delivery of SIGALRM, or a
    signal that a handler of the caller catches. *)
Inductive move := Step | Tick | Deliver | Interrupt.
#[export] Instance move_eq_dec : EqDecision move.
Proof. solve_decision. Defined.

(** ** 10.19my_sleep.c *)

Module MySleep.
Inductive point :=
| Set_action    (* sigaction(SIGALRM, &newact, &oldact) *)
| Block         (* sigprocmask(SIG_BLOCK, &newmask, &oldmask) *)
| Set_alarm     (* alarm(seconds) *)
| Suspend       (* sigsuspend(&suspmask) *)
| Asleep        (* in sigsuspend, where SIGALRM is not blocked *)
| Cancel        (* unslept = alarm(0) *)
| Restore       (* sigaction(SIGALRM, &oldact, NULL) *)
| Unmask        (* sigprocmask(SIG_SETMASK, &oldmask, NULL) *)
| Returned
| Killed.       (* by the default action of SIGALRM *)
#[export] Instance point_eq_dec : EqDecision point.
Proof. solve_decision. Defined.

Record state := State { at_ : point; clk : clock; oldact : disposition; oldmask : bool; unslept : Z }.
Definition goto (p : point) (k : clock) (s : state) : state := State p k (oldact s) (oldmask s) (unslept s).

Section sleep.
Context (seconds : Z).

Definition call (k : clock) : state := State Set_action k Default false 0.

Definition step (s : state) : option state :=
  let k := clk s in
  match at_ s with
  | Set_action => Some (State Block (set_action Sig_alrm k) (action k) (oldmask s) (unslept s))
  | Block => Some (State Set_alarm (set_blocked true k) (oldact s) (blocked k) (unslept s))
  | Set_alarm => Some (goto Suspend (alarm seconds k) s)
  | Suspend => Some (goto Asleep k s)
  | Asleep => None
  | Cancel => Some (State Restore (alarm_off k) (oldact s) (oldmask s) (left k))
  | Restore => Some (goto Unmask (set_action (oldact s) k) s)
  | Unmask => Some (goto Returned (set_blocked (oldmask s) k) s)
  | Returned | Killed => None
  end.

(** [sig_alrm] does nothing, but [sigsuspend] returns, with the mask as it was before. *)
Definition deliver (s : state) : option state :=
  let k := clk s in
  if pending k && (negb (blocked k) || bool_decide (at_ s = Asleep)) then
    let k := set_pending false k in
    match action k with
    | Default => Some (goto Killed k s)
    | Ignored => Some (goto (at_ s) k s)
    | _ => Some (goto (if decide (at_ s = Asleep) then Cancel else at_ s) k s)
    end
  else None.

Definition interrupt (s : state) : state := goto (if decide (at_ s = Asleep) then Cancel else at_ s) (clk s) s.

Definition make (m : move) (s : state) : option state :=
  if decide (at_ s = Killed) then None
  else match m with
       | Step => step s
       | Tick => Some (goto (at_ s) (tick (clk s)) s)
       | Deliver => deliver s
       | Interrupt => Some (interrupt s)
       end.

Fixpoint run (moves : list move) (s : state) : option state :=
  match moves with
  | [] => Some s
  | m :: moves => match make m s with Some s => run moves s | None => None end
  end.
End sleep.
End MySleep.

(** ** 10.10sleep2.c *)

Module Sleep2.
Inductive point :=
| Set_signal    (* signal(SIGALRM, sig_alrm) *)
| Setjmp        (* setjmp(env_alrm) *)
| Set_alarm     (* alarm(seconds) *)
| Pause         (* pause() *)
| Asleep        (* in pause *)
| Cancel        (* return(alarm(0)) *)
| Returned (unslept : Z)
| Killed
| Undefined.    (* longjmp without a setjmp, or to a function that has returned *)
#[export] Instance point_eq_dec : EqDecision point.
Proof. solve_decision. Defined.

Record state := State { at_ : point; clk : clock }.

Section sleep2.
Context (seconds : Z).

Definition call (k : clock) : state := State Set_signal k.

Definition step (s : state) : option state :=
  let k := clk s in
  match at_ s with
  | Set_signal => Some (State Setjmp (set_action Sig_alrm k))
  | Setjmp => Some (State Set_alarm k)
  | Set_alarm => Some (State Pause (alarm seconds k))
  | Pause => Some (State Asleep k)
  | Asleep => None
  | Cancel => Some (State (Returned (left k)) (alarm_off k))
  | Returned _ | Killed | Undefined => None
  end.

(** The handler [sig_alrm], at the start of which SIGALRM is blocked: [longjmp] does not
    change the mask. *)
Definition sig_alrm (p : point) : point :=
  match p with
  | Set_alarm | Pause | Asleep | Cancel => Cancel
  | _ => Undefined
  end.

Definition deliver (s : state) : option state :=
  let k := clk s in
  if pending k && negb (blocked k) then
    match action k with
    | Default => Some (State Killed (set_pending false k))
    | Caller | Ignored => Some (State (at_ s) (set_pending false k))
    | Sig_alrm => Some (State (sig_alrm (at_ s)) (set_blocked true (set_pending false k)))
    end
  else None.

Definition interrupt (s : state) : state := State (if decide (at_ s = Asleep) then Cancel else at_ s) (clk s).

Definition ended (p : point) : bool := match p with Killed | Undefined => true | _ => false end.

Definition make (m : move) (s : state) : option state :=
  if ended (at_ s) then None
  else match m with
       | Step => step s
       | Tick => Some (State (at_ s) (tick (clk s)))
       | Deliver => deliver s
       | Interrupt => Some (interrupt s)
       end.

Fixpoint run (moves : list move) (s : state) : option state :=
  match moves with
  | [] => Some s
  | m :: moves => match make m s with Some s => run moves s | None => None end
  end.
End sleep2.
End Sleep2.
