(* ===== verification/SleepProofs.v ===== *)
(** SleepProofs: both functions sleep the time they are asked to, or tell how much is left
    when another signal wakes them, and cannot miss their alarm; and the runs that show
    their limits. *)
From stdpp Require Import list.
From S2P Require Import Prelude Arrays Sleep.

(** The clock as a caller has it who has set no alarm. *)
Record quiet (a : disposition) (b : bool) (k : clock) : Prop := {
  q_remaining : remaining k = None; q_pending : pending k = false; q_blocked : blocked k = b; q_action : action k = a }.

(** The clock since it was set: it runs, or it has rung. *)
Inductive ringing (seconds : Z) (k : clock) : Prop :=
| to_ring n : remaining k = Some n -> 0 < n -> n + elapsed k = seconds -> pending k = false -> ringing seconds k
| has_rung : remaining k = None -> elapsed k = seconds -> ringing seconds k.

Lemma ringing_tick seconds k : ringing seconds k -> ringing seconds (tick k).
Proof.
  intros [n Hn Hp He Hf|Hn He]; unfold tick; rewrite Hn; [|by apply has_rung].
  destruct (Z.leb_spec n 1); [apply has_rung; simpl; [done|lia]|apply (to_ring _ _ (n - 1)); simpl; [done|lia|lia|done]].
Qed.

Lemma ringing_alarm seconds k : 0 < seconds -> pending k = false -> ringing seconds (alarm seconds k).
Proof. intros Hs Hp. apply (to_ring _ _ seconds); simpl; try done; [|lia]. by rewrite (proj2 (Z.eqb_neq _ _)) by lia. Qed.

(** What [alarm(0)] returns is what is left of the time. *)
Lemma ringing_left seconds k : 0 < seconds -> ringing seconds k -> left k + elapsed k = seconds /\ 0 <= left k.
Proof. unfold left. intros Hs [n -> Hp He _| -> He]; simpl; lia. Qed.

Lemma tick_off k : remaining k = None -> tick k = k.
Proof. unfold tick. by intros ->. Qed.

Definition is_call (m : move) : bool := match m with Step | Deliver => true | _ => false end.
Definition calls (moves : list move) : Z := Zlen (filter is_call moves).

(** ** 10.19my_sleep.c *)

Section my_sleep.
Import MySleep.
Context (seconds : Z) (a : disposition) (b : bool).
Hypothesis Hseconds : 0 < seconds.
Hypothesis Ha : a <> Sig_alrm.

(** The clock while the function has its handler and its mask. *)
Definition guarded (s : state) : Prop :=
  blocked (clk s) = true /\ action (clk s) = Sig_alrm /\ oldact s = a /\ oldmask s = b.

(** After the clock has been turned off; [w] says whether another signal was caught. *)
Definition over (w : bool) (s : state) : Prop :=
  remaining (clk s) = None /\ (pending (clk s) = true -> w = true) /\ unslept s + elapsed (clk s) = seconds /\ 0 <= unslept s /\
  (w = false -> unslept s = 0).

Definition at_point (w : bool) (s : state) : Prop :=
  match at_ s with
  | Set_action => quiet a b (clk s)
  | Block => quiet Sig_alrm b (clk s) /\ oldact s = a
  | Set_alarm => quiet Sig_alrm true (clk s) /\ guarded s
  | Suspend | Asleep => ringing seconds (clk s) /\ guarded s /\ (remaining (clk s) = None -> pending (clk s) = true)
  | Cancel => ringing seconds (clk s) /\ guarded s /\ (w = true \/ (remaining (clk s) = None /\ pending (clk s) = false))
  | Restore => over w s /\ guarded s
  | Unmask => over w s /\ blocked (clk s) = true /\ action (clk s) = a /\ oldmask s = b
  | Returned => over w s /\ blocked (clk s) = b /\ action (clk s) = a
  | Killed => w = true /\ a = Default
  end.

(** How many calls and deliveries are still to come. *)
Definition to_do (s : state) : Z :=
  match at_ s with
  | Set_action => 8 | Block => 7 | Set_alarm => 6
  | Suspend => 4 | Asleep => 3
  | Cancel => 3 | Restore => 2 | Unmask => 1 | Returned | Killed => 0
  end + (if pending (clk s) then 1 else 0) + (if remaining (clk s) then 1 else 0).

Ltac points s := destruct s as [[] k oa om u]; simpl in *; try done.

Lemma step_ok w s s' : at_point w s -> step seconds s = Some s' -> at_point w s' /\ to_do s' < to_do s.
Proof.
  intros H Hs. unfold step in Hs. points s; injection Hs as <-; unfold at_point, to_do, guarded, over in *; simpl in *.
  - destruct H as [Hr Hp ? ?]. rewrite Hr, Hp. split; [split; [by split|done]|lia].
  - destruct H as [[Hr Hp ? ?] ?]. rewrite Hr, Hp. split; [split_and!; try done; by split|lia].
  - destruct H as ([Hr Hp ? ?] & ? & ? & ? & ?). rewrite Hr. split; [split_and!; try done; [by apply ringing_alarm|]|].
    + rewrite (proj2 (Z.eqb_neq _ _)) by lia. done.
    + rewrite Hp. case_match; lia.
  - split; [done|lia].
  - destruct H as (Hr & ? & Hw). pose proof (ringing_left seconds k Hseconds Hr). split; [|destruct (remaining k), (pending k); lia].
    split; [|done]. split_and!; try done; try lia.
    + intros Hp. destruct Hw as [?|[_ ?]]; [done|congruence].
    + intros ->. destruct Hw as [?|[Hn _]]; [done|]. unfold left. by rewrite Hn.
  - destruct H as (Ho & Eb & Ea & -> & ?). destruct a, (pending k); simpl in *; (split; [naive_solver|lia]).
  - split; [|lia]. destruct H as (? & ? & ? & ?). split; [done|by split_and!].
Qed.

Lemma tick_off_ok w s : remaining (clk s) = None -> at_point w s ->
  at_point w (goto (at_ s) (tick (clk s)) s) /\ to_do (goto (at_ s) (tick (clk s)) s) <= to_do s.
Proof. intros Hr H. rewrite tick_off by done. destruct s. split; [done|apply Z.le_refl]. Qed.

Lemma tick_ok w s : at_point w s -> at_point w (goto (at_ s) (tick (clk s)) s) /\ to_do (goto (at_ s) (tick (clk s)) s) <= to_do s.
Proof.
  intros H. destruct (remaining (clk s)) as [n|] eqn:En; [|by apply tick_off_ok].
  assert (Ht : blocked (tick (clk s)) = blocked (clk s) /\ action (tick (clk s)) = action (clk s) /\
    ((remaining (tick (clk s)) = None /\ pending (tick (clk s)) = kept (action (clk s)) true) \/
     (remaining (tick (clk s)) = Some (n - 1) /\ pending (tick (clk s)) = pending (clk s)))).
  { unfold tick. rewrite En. destruct (n <=? 1); simpl; split_and!; auto. }
  destruct Ht as (Eb & Ea & Ht). points s; unfold at_point, to_do, guarded, over in *; simpl in *; rewrite ?En in *.
  all: try (destruct H as [[? ? ? ?] ?] || destruct H as [? ? ? ?]; congruence).
  all: try (destruct H as [[? _] _]; congruence).
  - destruct H as (Hr & (? & Eact & ? & ?) & _). rewrite Eact in *. simpl in Ht. rewrite Eb. apply ringing_tick in Hr.
    destruct Ht as [[-> ->]|[-> ->]]; (split; [by split_and!|case_match; lia]).
  - destruct H as (Hr & (? & Eact & ? & ?) & _). rewrite Eact in *. simpl in Ht. rewrite Eb. apply ringing_tick in Hr.
    destruct Ht as [[-> ->]|[-> ->]]; (split; [by split_and!|case_match; lia]).
  - destruct H as (Hr & (? & Eact & ? & ?) & Hw). destruct Hw as [->|[? _]]; [|done]. rewrite Eact in *. simpl in Ht. rewrite Eb. apply ringing_tick in Hr.
    destruct Ht as [[-> ->]|[-> ->]]; (split; [by split_and!; auto|case_match; lia]).
  - destruct Ht as [[-> ->]|[-> ->]]; (split; [done|repeat case_match; lia]).
Qed.

Lemma deliver_ok w s s' : at_ s <> Killed -> at_point w s -> deliver s = Some s' -> at_point w s' /\ to_do s' < to_do s.
Proof.
  intros Hk H Hs. unfold deliver in Hs. destruct (pending (clk s)) eqn:Ep; simpl in Hs; [|done].
  destruct (negb (blocked (clk s)) || bool_decide (at_ s = Asleep)) eqn:Ed; [|done]. apply orb_true_iff in Ed.
  points s; unfold at_point, to_do, guarded, over in *; simpl in *; rewrite Ep in *.
  all: try (destruct H as [[? ? ? ?] ?] || destruct H as [? ? ? ?]; congruence).
  all: try (destruct Ed as [Ed|Ed]; [|done]; destruct H as (? & (Eb & ?) & _); rewrite Eb in Ed; done).
  all: try (destruct Ed as [Ed|Ed]; [|done]; destruct H as (_ & Eb & _); rewrite Eb in Ed; done).
  - destruct H as (Hr & (? & Ea & ? & ?) & _). rewrite Ea in Hs. injection Hs as <-. simpl.
    assert (remaining k = None) as Hn by (destruct Hr; congruence). rewrite Hn. split; [|lia]. split_and!; auto.
    apply has_rung; [done|]. simpl. destruct Hr; congruence.
  - destruct Ed as [Ed|Ed]; [|done]. destruct H as ((Hn & Hp & Hu & H0 & Hz) & Eb & Ea). rewrite Ea in Hs. rewrite Hn. specialize (Hp eq_refl). subst w.
    destruct a; [done|injection Hs as <-; simpl; rewrite ?Hn..]; (split; [by split_and!|lia]).
Qed.

Lemma interrupt_ok w s : at_point w s -> at_point true (interrupt s) /\ to_do (interrupt s) <= to_do s.
Proof.
  intros H. unfold interrupt. points s; unfold at_point, to_do, guarded, over in *; simpl in *; (split; [|lia]).
  all: naive_solver.
Qed.

(** Another signal is caught. *)
Definition interrupted (moves : list move) : bool := existsb (fun m => bool_decide (m = Interrupt)) moves.

Lemma run_ok w moves s s' : at_point w s -> run seconds moves s = Some s' ->
  at_point (w || interrupted moves) s' /\ to_do s' + calls moves <= to_do s.
Proof.
  revert w s. induction moves as [|m moves IH]; intros w s H Hr; simpl in Hr.
  - injection Hr as <-. simpl. rewrite orb_false_r. split; [done|]. unfold calls, Zlen. simpl. lia.
  - destruct (make seconds m s) as [s1|] eqn:Em; [|done]. unfold make in Em. destruct (decide _); [done|].
    assert (H1 : at_point (w || bool_decide (m = Interrupt)) s1 /\ to_do s1 + calls [m] <= to_do s).
    { unfold calls, Zlen. destruct m; simpl; rewrite ?orb_false_r, ?orb_true_r.
      - destruct (step_ok w s s1 H Em). split; [done|lia].
      - injection Em as <-. destruct (tick_ok w s H). split; [done|lia].
      - destruct (deliver_ok w s s1 ltac:(done) H Em). split; [done|lia].
      - injection Em as <-. destruct (interrupt_ok w s H). split; [done|lia]. }
    destruct H1 as [H1 L1]. destruct (IH _ s1 H1 Hr) as [H2 L2]. simpl. rewrite orb_assoc. split; [done|].
    unfold calls, Zlen in *. rewrite filter_cons in *. destruct (decide (is_call m)); simpl in *; lia.
Qed.

Lemma to_do_pos s : 0 <= to_do s.
Proof. unfold to_do. destruct (at_ s), (pending (clk s)), (remaining (clk s)); lia. Qed.

(** C27: [sleep], for a caller who has set no alarm and asks for at least a second: in every
    order of its steps, of the seconds, the alarm and other signals, it returns the time it
    has not slept, which is 0 unless another signal was caught, with the caller's
    action and mask for SIGALRM and no alarm set; it makes at most eight steps, and
    when it cannot make one it is asleep with its alarm before it, so the alarm cannot be
    missed. It kills the process only when another signal wakes it and the alarm rings before it is
    turned off. *)
Theorem my_sleep_correct k moves s : quiet a b k -> run seconds moves (call k) = Some s ->
  calls moves <= 8 /\
  (at_ s = Returned -> action (clk s) = a /\ blocked (clk s) = b /\ remaining (clk s) = None /\
     unslept s + elapsed (clk s) = seconds /\ 0 <= unslept s /\ (interrupted moves = false -> unslept s = 0)) /\
  (at_ s = Killed -> interrupted moves = true /\ a = Default) /\
  (step seconds s = None -> deliver s = None -> at_ s = Returned \/ at_ s = Killed \/
     at_ s = Asleep /\ exists n, remaining (clk s) = Some n /\ 0 < n /\ n + elapsed (clk s) = seconds).
Proof.
  intros Hq Hr. destruct (run_ok false moves (call k) s Hq Hr) as [H L]. pose proof (to_do_pos s). simpl in H.
  assert (to_do (call k) = 8) as E by (destruct Hq as [Hrem Hp _ _]; unfold to_do; simpl; rewrite Hrem, Hp; done).
  unfold at_point in H. split_and!; [lia|intros Ea|intros Ea|]; try rewrite Ea in H.
  - destruct H as ((? & _ & ? & ? & ?) & ? & ?). by split_and!.
  - done.
  - intros Hs Hd. unfold step in Hs. unfold deliver in Hd. destruct (at_ s) eqn:Ea; try done; [|by left|by right; left].
    right. right. split; [done|]. destruct H as (Hring & _ & Hp). destruct Hring as [n Hn ? ? _|Hn _]; [by exists n|].
    rewrite (Hp Hn), (bool_decide_true (Asleep = Asleep)), orb_true_r in Hd by done. simpl in Hd. by destruct (action (clk s)).
Qed.
End my_sleep.

(** ** 10.10sleep2.c *)

Section sleep2.
Import Sleep2.
Context (seconds : Z) (a : disposition).
Hypothesis Hseconds : 0 < seconds.

(** [w] says whether another signal was caught. *)
Definition at_point2 (w : bool) (s : state) : Prop :=
  let k := clk s in
  match at_ s with
  | Set_signal => quiet a false k
  | Setjmp | Set_alarm => quiet Sig_alrm false k
  | Pause | Asleep => ringing seconds k /\ action k = Sig_alrm /\ blocked k = false /\ (remaining k = None -> pending k = true)
  | Cancel => ringing seconds k /\ action k = Sig_alrm /\
      ((w = true /\ blocked k = false) \/ (remaining k = None /\ blocked k = true /\ pending k = false))
  | Returned u => remaining k = None /\ action k = Sig_alrm /\ u + elapsed k = seconds /\ 0 <= u /\
      ((w = true /\ blocked k = false) \/ (u = 0 /\ blocked k = true /\ pending k = false))
  | Killed => False
  | Undefined => w = true
  end.

Lemma step2_ok w s s' : at_point2 w s -> step seconds s = Some s' -> at_point2 w s'.
Proof.
  intros H Hs. unfold step in Hs. destruct s as [[] k]; simpl in *; try done; injection Hs as <-; unfold at_point2 in *; simpl in *.
  - by destruct H; split.
  - done.
  - destruct H as [Hr Hp Hb Ha]. split_and!; [by apply ringing_alarm|done|done|]. by rewrite (proj2 (Z.eqb_neq _ _)) by lia.
  - done.
  - destruct H as (Hr & Ha & Hw). pose proof (ringing_left seconds k Hseconds Hr). split_and!; try done; try lia.
    destruct Hw as [?|(Hn & ? & ?)]; [by left|]. right. unfold left. by rewrite Hn.
Qed.

Lemma tick2_ok w s : at_point2 w s -> at_point2 w (State (at_ s) (tick (clk s))).
Proof.
  intros H. destruct (remaining (clk s)) as [n|] eqn:En; [|rewrite tick_off by done; by destruct s].
  assert (Ht : blocked (tick (clk s)) = blocked (clk s) /\ action (tick (clk s)) = action (clk s) /\
    (action (clk s) = Sig_alrm -> remaining (tick (clk s)) = None -> pending (tick (clk s)) = true)).
  { unfold tick. rewrite En. destruct (n <=? 1); simpl; split_and!; auto; [by intros ->|done]. }
  destruct Ht as (Eb & Ea & Ht). destruct s as [[] k]; unfold at_point2 in *; simpl in *; rewrite ?En in *; try done.
  all: try (destruct H as [? ? ? ?]; congruence).
  - destruct H as (Hr & ? & ? & _). rewrite Eb, Ea. apply ringing_tick in Hr. auto.
  - destruct H as (Hr & ? & ? & _). rewrite Eb, Ea. apply ringing_tick in Hr. auto.
  - destruct H as (Hr & ? & [?|(? & _)]); [|done]. rewrite Eb, Ea. apply ringing_tick in Hr. split_and!; try done. by left.
Qed.

Lemma deliver2_ok w s s' : ended (at_ s) = false -> at_point2 w s -> deliver s = Some s' -> at_point2 w s'.
Proof.
  intros He H Hs. unfold deliver in Hs. destruct (pending (clk s)) eqn:Ep; simpl in Hs; [|done]. destruct (blocked (clk s)) eqn:Eb; [done|]. simpl in Hs.
  destruct s as [p k]. assert (Hrung : ringing seconds k -> pending k = true -> remaining k = None /\ elapsed k = seconds) by (intros []; [congruence|done]).
  destruct p; unfold at_point2 in *; simpl in *; try done; try (destruct H as [? ? ? ?]; congruence).
  all: rewrite ?Ep, ?Eb in *.
  - destruct H as (Hr & Ea & _). rewrite Ea in Hs. injection Hs as <-. destruct (Hrung Hr eq_refl). split_and!; [by apply has_rung|done|]. by right.
  - destruct H as (Hr & Ea & _). rewrite Ea in Hs. injection Hs as <-. destruct (Hrung Hr eq_refl). split_and!; [by apply has_rung|done|]. by right.
  - destruct H as (Hr & Ea & _). rewrite Ea in Hs. injection Hs as <-. destruct (Hrung Hr eq_refl). split_and!; [by apply has_rung|done|]. by right.
  - destruct H as (_ & Ea & _ & _ & Hw). rewrite Ea in Hs. injection Hs as <-. simpl. naive_solver.
Qed.

Lemma interrupt2_ok w s : at_point2 w s -> at_point2 true (interrupt s).
Proof. intros H. unfold interrupt. destruct s as [[] k]; unfold at_point2 in *; simpl in *; naive_solver. Qed.

Lemma run2_ok w moves s s' : at_point2 w s -> run seconds moves s = Some s' -> at_point2 (w || interrupted moves) s'.
Proof.
  revert w s. induction moves as [|m moves IH]; intros w s H Hr; simpl in Hr.
  - injection Hr as <-. simpl. by rewrite orb_false_r.
  - destruct (make seconds m s) as [s1|] eqn:Em; [|done]. unfold make in Em. destruct (ended (at_ s)) eqn:Ee; [done|].
    simpl. rewrite orb_assoc. apply (IH _ s1); [|done].
    destruct m; simpl in *; rewrite ?orb_false_r, ?orb_true_r; [by apply (step2_ok w s)| | |injection Em as <-; by apply (interrupt2_ok w)].
    + injection Em as <-. by apply tick2_ok.
    + by apply (deliver2_ok w s).
Qed.

(** With SIGALRM blocked nothing but another signal ends the pause. *)
Definition stuck_point (s : state) : Prop :=
  blocked (clk s) = true /\ match at_ s with Set_signal | Setjmp | Set_alarm | Pause | Asleep => True | _ => False end.

Lemma run_stuck moves s s' : stuck_point s -> interrupted moves = false -> run seconds moves s = Some s' -> stuck_point s'.
Proof.
  revert s. induction moves as [|m moves IH]; intros s H Hi Hr; simpl in Hr; [by injection Hr as <-|].
  simpl in Hi. apply orb_false_iff in Hi as [Hm Hi]. destruct (make seconds m s) as [s1|] eqn:Em; [|done]. apply (IH s1); try done.
  destruct H as [Hb Hp]. unfold make in Em. destruct s as [p k]. simpl in *. destruct (ended p); [done|]. destruct m; [| | |done].
  - unfold step in Em. destruct p; try done; injection Em as <-; done.
  - injection Em as <-. split; [|done]. simpl. unfold tick. destruct (remaining k); [|done]. by destruct (_ <=? _).
  - unfold deliver in Em. simpl in Em. by rewrite Hb, andb_false_r in Em.
Qed.

(** C28: [sleep2], for a caller who has set no alarm, does not block SIGALRM and asks for at least a
    second: it returns the time it has not slept, which is 0 unless another signal was
    caught, and when it cannot make a step it is paused with its alarm before it. But
    its handler stays, and when it has slept its whole time SIGALRM is blocked, since
    [longjmp] leaves the handler with the mask of the handler: the next call never returns
    unless another signal is caught. *)
Theorem sleep2_works_once k moves s : quiet a false k -> run seconds moves (call k) = Some s ->
  (forall u, at_ s = Returned u -> remaining (clk s) = None /\ action (clk s) = Sig_alrm /\ u + elapsed (clk s) = seconds /\ 0 <= u /\
     (interrupted moves = false -> u = 0 /\ forall more s', interrupted more = false -> run seconds more (call (clk s)) = Some s' ->
        (forall v, at_ s' <> Returned v) /\ (step seconds s' = None -> at_ s' = Asleep))) /\
  at_ s <> Killed /\ (at_ s = Undefined -> interrupted moves = true) /\
  (step seconds s = None -> deliver s = None -> (exists u, at_ s = Returned u) \/ at_ s = Undefined \/
     at_ s = Asleep /\ exists n, remaining (clk s) = Some n /\ 0 < n /\ n + elapsed (clk s) = seconds).
Proof.
  intros Hq Hr. pose proof (run2_ok false moves (call k) s Hq Hr) as H. simpl in H. unfold at_point2 in H. split_and!.
  - intros u Eu. rewrite Eu in H. destruct H as (? & ? & ? & ? & Hw). split_and!; try done. intros Hi. destruct Hw as [[? _]|(-> & Hb & _)]; [congruence|].
    split; [done|]. intros more s' Hi' Hr'. destruct (run_stuck more (call (clk s)) s' (conj Hb I) Hi' Hr') as [_ Hp].
    split; [by intros v Ev; rewrite Ev in Hp|]. intros Hs. unfold step in Hs. by destruct (at_ s').
  - intros E. by rewrite E in H.
  - intros E. by rewrite E in H.
  - intros Hs Hd. unfold step in Hs. unfold deliver in Hd. destruct (at_ s) as [| | | | | |u| |] eqn:Ea; try done; [|left; by eexists|by right; left].
    right. right. split; [done|]. destruct H as (Hring & Hact & Hb & Hp). destruct Hring as [n Hn ? ? _|Hn _]; [by exists n|].
    by rewrite (Hp Hn), Hb, Hact in Hd.
Qed.
End sleep2.

(** ** Runs *)

Definition a_clock : clock := Clock None false false Default 0.

(** Two seconds. *)
Definition sleeping : list move := [Step; Step; Step; Step; Tick; Tick; Deliver; Step; Step; Step].

Example slept : (fun s => (MySleep.at_ s, MySleep.unslept s)) <$> MySleep.run 2 sleeping (MySleep.call a_clock) = Some (MySleep.Returned, 0).
Proof. vm_compute. reflexivity. Qed.

(** No time: [alarm(0)] sets no alarm, and the function sleeps until some other signal comes. *)
Example no_time : (fun s => (MySleep.at_ s, MySleep.clk s)) <$> MySleep.run 0 [Step; Step; Step; Step; Tick; Tick] (MySleep.call a_clock) =
  Some (MySleep.Asleep, Clock None false true Sig_alrm 0).
Proof. vm_compute. reflexivity. Qed.

(** Another signal wakes the process, and the alarm rings before it is turned off: with the
    caller's mask the pending signal kills the process. *)
Example killed : MySleep.at_ <$> MySleep.run 1 [Step; Step; Step; Step; Interrupt; Tick; Step; Step; Step; Deliver] (MySleep.call a_clock) =
  Some MySleep.Killed.
Proof. vm_compute. reflexivity. Qed.

(** A caller that ignores SIGALRM lives: the pending signal is discarded with the handler. *)
Example ignored : (fun s => (MySleep.at_ s, action (MySleep.clk s))) <$>
    MySleep.run 1 [Step; Step; Step; Step; Interrupt; Tick; Step; Step; Step]
      (MySleep.call (Clock None false false Ignored 0)) = Some (MySleep.Returned, Ignored).
Proof. vm_compute. reflexivity. Qed.

(** An alarm that the caller has set is lost. *)
Example earlier_alarm : (fun s => remaining (MySleep.clk s)) <$> MySleep.run 2 sleeping (MySleep.call (Clock (Some 60) false false Caller 0)) = Some None.
Proof. vm_compute. reflexivity. Qed.

Definition sleeping2 : list move := [Step; Step; Step; Step; Tick; Tick; Deliver; Step].

Example second_call : match Sleep2.run 2 sleeping2 (Sleep2.call a_clock) with
  | Some s => Sleep2.at_ s = Sleep2.Returned 0 /\
      Sleep2.at_ <$> Sleep2.run 2 [Step; Step; Step; Step; Tick; Tick; Tick] (Sleep2.call (Sleep2.clk s)) = Some Sleep2.Asleep /\
      Sleep2.run 2 sleeping2 (Sleep2.call (Sleep2.clk s)) = None
  | None => False
  end.
Proof. vm_compute. done. Qed.

Lemma my_sleep_correct_witness : let s := default (MySleep.call a_clock) (MySleep.run 2 sleeping (MySleep.call a_clock)) in
  MySleep.at_ s = MySleep.Returned /\ calls sleeping <= 8 /\
  (MySleep.at_ s = MySleep.Returned -> action (MySleep.clk s) = Default /\ blocked (MySleep.clk s) = false /\ remaining (MySleep.clk s) = None /\
     MySleep.unslept s + elapsed (MySleep.clk s) = 2 /\ 0 <= MySleep.unslept s /\ (interrupted sleeping = false -> MySleep.unslept s = 0)) /\
  (MySleep.at_ s = MySleep.Killed -> interrupted sleeping = true /\ Default = Default) /\
  (MySleep.step 2 s = None -> MySleep.deliver s = None -> MySleep.at_ s = MySleep.Returned \/ MySleep.at_ s = MySleep.Killed \/
     MySleep.at_ s = MySleep.Asleep /\ exists n, remaining (MySleep.clk s) = Some n /\ 0 < n /\ n + elapsed (MySleep.clk s) = 2).
Proof.
  intros s. split; [vm_compute; reflexivity|]. apply (my_sleep_correct 2 Default false ltac:(lia) ltac:(done) a_clock sleeping).
  - by split.
  - vm_compute. reflexivity.
Defined.

Lemma sleep2_works_once_witness : let s := default (Sleep2.call a_clock) (Sleep2.run 2 sleeping2 (Sleep2.call a_clock)) in
  Sleep2.at_ s = Sleep2.Returned 0 /\
  (forall u, Sleep2.at_ s = Sleep2.Returned u -> remaining (Sleep2.clk s) = None /\ action (Sleep2.clk s) = Sig_alrm /\
     u + elapsed (Sleep2.clk s) = 2 /\ 0 <= u /\
     (interrupted sleeping2 = false -> u = 0 /\ forall more s', interrupted more = false ->
        Sleep2.run 2 more (Sleep2.call (Sleep2.clk s)) = Some s' ->
        (forall v, Sleep2.at_ s' <> Sleep2.Returned v) /\ (Sleep2.step 2 s' = None -> Sleep2.at_ s' = Sleep2.Asleep))) /\
  Sleep2.at_ s <> Sleep2.Killed /\ (Sleep2.at_ s = Sleep2.Undefined -> interrupted sleeping2 = true) /\
  (Sleep2.step 2 s = None -> Sleep2.deliver s = None -> (exists u, Sleep2.at_ s = Sleep2.Returned u) \/ Sleep2.at_ s = Sleep2.Undefined \/
     Sleep2.at_ s = Sleep2.Asleep /\ exists n, remaining (Sleep2.clk s) = Some n /\ 0 < n /\ n + elapsed (Sleep2.clk s) = 2).
Proof.
  intros s. split; [vm_compute; reflexivity|]. apply (sleep2_works_once 2 Default ltac:(lia) a_clock sleeping2).
  - by split.
  - vm_compute. reflexivity.
Defined.
