(* ===== verification/Explore.v ===== *)
(** Explore: systems with finitely many states, whose invariants are checked by visiting
    every state that can be reached. *)
From stdpp Require Import list.
From S2P Require Import Prelude Arrays.

Section explore.
Context {St Move : Type} `{EqDecision St} (step : Move -> St -> option St).

Fixpoint run (ms : list Move) (s : St) : option St :=
  match ms with
  | [] => Some s
  | m :: ms => match step m s with Some s => run ms s | None => None end
  end.

(** The moves that there are. *)
Context (moves : list Move).
Definition successors (s : St) : list St := omap (fun m => step m s) moves.

Definition insert_new (s : St) (l : list St) : list St := if decide (s ∈ l) then l else s :: l.

(** Depth first, with the states that have been seen. *)
Fixpoint explore (fuel : nat) (todo seen : list St) : list St :=
  match fuel, todo with
  | S fuel, s :: todo =>
      if decide (s ∈ seen) then explore fuel todo seen else explore fuel (successors s ++ todo) (s :: seen)
  | _, _ => seen
  end.

Definition closed (l : list St) : bool := forallb (fun s => forallb (fun s' => bool_decide (s' ∈ l)) (successors s)) l.

(** Whether a property of each step out of these states holds. *)
Definition each_step (P : Move -> St -> St -> bool) (l : list St) : bool :=
  forallb (fun s => forallb (fun m => match step m s with Some s' => P m s s' | None => true end) moves) l.

Hypothesis Hmoves : forall m, m ∈ moves.

Lemma in_successors m s s' : step m s = Some s' -> s' ∈ successors s.
Proof. intros Hs. apply list_elem_of_omap. by exists m. Qed.

Lemma closed_step l m s s' : closed l = true -> s ∈ l -> step m s = Some s' -> s' ∈ l.
Proof.
  intros Hc Hl Hs. unfold closed in Hc. rewrite forallb_forall in Hc. apply list_elem_of_In, Hc in Hl.
  rewrite forallb_forall in Hl. apply in_successors, list_elem_of_In, Hl in Hs. by apply bool_decide_eq_true in Hs.
Qed.

(** No state that can be reached has been forgotten. *)
Lemma closed_run l ms s s' : closed l = true -> s ∈ l -> run ms s = Some s' -> s' ∈ l.
Proof.
  intros Hc. revert s. induction ms as [|m ms IH]; intros s Hl Hr; simpl in Hr; [by injection Hr as <-|].
  destruct (step m s) as [s1|] eqn:Es; [|done]. apply (IH s1); [|done]. by apply (closed_step l m s).
Qed.

Lemma checked (P : St -> bool) l s : forallb P l = true -> s ∈ l -> P s = true.
Proof. rewrite forallb_forall. intros HP Hl. by apply HP, list_elem_of_In. Qed.

Lemma checked_step P l m s s' : each_step P l = true -> s ∈ l -> step m s = Some s' -> P m s s' = true.
Proof.
  intros HP Hl Hs. apply (checked _ _ s HP) in Hl. rewrite forallb_forall in Hl.
  specialize (Hl m (proj1 (list_elem_of_In _ _) (Hmoves m))). by rewrite Hs in Hl.
Qed.

(** A number that certain moves make smaller bounds a run of these. *)
Lemma run_length (rank : St -> Z) (sub : Move -> bool) l ms s s' : closed l = true -> s ∈ l ->
  each_step (fun m s s' => negb (sub m) || (rank s' + 1 <=? rank s)) l = true -> Forall (fun m => sub m = true) ms ->
  run ms s = Some s' -> rank s' + Zlen ms <= rank s.
Proof.
  intros Hc Hl Hr Hms. revert s Hl. induction Hms as [|m ms Hm _ IH]; intros s Hl E; simpl in E.
  - injection E as <-. unfold Zlen. simpl. lia.
  - destruct (step m s) as [s1|] eqn:Es; [|done]. pose proof (checked_step _ l m s s1 Hr Hl Es) as H1. simpl in H1. rewrite Hm in H1. apply Z.leb_le in H1.
    specialize (IH s1 (closed_step l m s s1 Hc Hl Es) E). unfold Zlen in *. simpl. lia.
Qed.
End explore.
