(* ===== verification/RecordLocks.v ===== *)
(** RecordLocks: apue/14.3.3deadlock.c, a parent and a child that each lock a byte of a file
    and then want the byte of the other. Between the two they wait for each other with the
    functions that apue.h declares, which are those of apue.3e/lib/tellwait.c, with
    signals; they are the ones of [TellWait.Signals], step by step. The kernel refuses
    the lock that would be a deadlock. Each call of the system is one atomic step. *)
From stdpp Require Import list strings.
From S2P Require Import Prelude Arrays Bytes TellWait Explore.

(** Where a process is: at its calls of [lockabyte], in the second with the call blocked,
    between them while it tells the other process and waits for it, and at the end with
    its status. *)
Inductive point := First | Handshake | Second | Blocked | Exit_ | Exited (status : Z).
#[export] Instance point_eq_dec : EqDecision point.
Proof. solve_decision. Defined.
#[export] Instance signals_point_eq_dec : EqDecision Signals.point.
Proof. solve_decision. Defined.
#[export] Instance signals_process_eq_dec : EqDecision Signals.process.
Proof. solve_decision. Defined.
#[export] Instance signals_system_eq_dec : EqDecision Signals.system.
Proof. solve_decision. Defined.

(** What is printed, by whom. *)
Inductive line := Got_the_lock (w : side) (byte : Z) | Writew_lock_error (w : side).
#[export] Instance line_eq_dec : EqDecision line.
Proof. solve_decision. Defined.

(** [byte0] and [byte1] are the owners of the locks, [sync] the signals, masks and flags. *)
Record system := System {
  byte0 : option side; byte1 : option side; sync : Signals.system; parent : point; child : point; out : list line }.
#[export] Instance system_eq_dec : EqDecision system.
Proof. solve_decision. Defined.

(** The file has been made and [TELL_WAIT] called, then [fork]; a child has no locks. *)
Definition start : system := System None None (Signals.tell_wait [TELL; WAIT] [TELL; WAIT]) First First [].

Definition point_of (w : side) (s : system) : point := match w with Parent => parent s | Child => child s end.
Definition goto (w : side) (p : point) (s : system) : system :=
  match w with
  | Parent => System (byte0 s) (byte1 s) (sync s) p (child s) (out s)
  | Child => System (byte0 s) (byte1 s) (sync s) (parent s) p (out s)
  end.
Definition print (l : line) (s : system) : system := System (byte0 s) (byte1 s) (sync s) (parent s) (child s) (out s ++ [l]).
Definition set_sync (y : Signals.system) (s : system) : system := System (byte0 s) (byte1 s) y (parent s) (child s) (out s).

Definition owner (byte : Z) (s : system) : option side := if byte =? 0 then byte0 s else byte1 s.
Definition set_owner (byte : Z) (o : option side) (s : system) : system :=
  if byte =? 0 then System o (byte1 s) (sync s) (parent s) (child s) (out s)
  else System (byte0 s) o (sync s) (parent s) (child s) (out s).

(** The bytes that a process locks first and second. *)
Definition first_byte (w : side) : Z := match w with Child => 0 | Parent => 1 end.
Definition second_byte (w : side) : Z := match w with Child => 1 | Parent => 0 end.

(** The end of a process gives its locks back. *)
Definition release (w : side) (o : option side) : option side := if decide (o = Some w) then None else o.
Definition exit (w : side) (status : Z) (s : system) : system :=
  goto w (Exited status) (System (release w (byte0 s)) (release w (byte1 s)) (sync s) (parent s) (child s) (out s)).

(** Whether the other process is blocked, for a byte that this one has. *)
Definition waits_for (w : side) (s : system) : bool :=
  bool_decide (point_of (other w) s = Blocked) && bool_decide (owner (second_byte (other w)) s = Some w).

(** [lockabyte]: [next] is where the process goes on when it has the lock. *)
Definition lockabyte (w : side) (byte : Z) (next : point) (s : system) : option system :=
  match owner byte s with
  | None => Some (goto w next (print (Got_the_lock w byte) (set_owner byte (Some w) s)))
  | Some o =>
      if decide (o = w) then Some (goto w next (print (Got_the_lock w byte) s))
      else if waits_for w s then Some (exit w 1 (print (Writew_lock_error w) s))   (* EDEADLK *)
      else if decide (point_of w s = Blocked) then None
      else Some (goto w Blocked s)
  end.

(** TELL_PARENT and WAIT_PARENT, or TELL_CHILD and WAIT_CHILD. *)
Definition handshake (w : side) (s : system) : option system :=
  match Signals.step w (sync s) with
  | Some y => Some (goto w (if decide (Signals.todo (Signals.proc w y) = []) then Second else Handshake) (set_sync y s))
  | None => None
  end.

(** A move is a step of a process or the delivery of the signal for it. *)
Definition step (m : Signals.move) (s : system) : option system :=
  match m with
  | Signals.Step w =>
      match point_of w s with
      | First => lockabyte w (first_byte w) Handshake s
      | Handshake => handshake w s
      | Second | Blocked => lockabyte w (second_byte w) Exit_ s
      | Exit_ => Some (exit w 0 s)
      | Exited _ => None
      end
  | Signals.Deliver w =>
      match point_of w s with
      | Exited _ => None
      | _ => (fun y => set_sync y s) <$> Signals.deliver w (sync s)
      end
  end.

Notation run := (run step).
Definition all_moves : list Signals.move :=
  [Signals.Step Parent; Signals.Step Child; Signals.Deliver Parent; Signals.Deliver Child].

(** Every state that can be reached. *)
Definition states : list system := explore step all_moves 3000 [start] [].

(** How many moves are left at most. *)
Definition left_handshake (p : Signals.process) : Z :=
  match Signals.todo p with
  | [_; _] => 8
  | _ => match Signals.at_ p with
         | Signals.Outside => 7 | Signals.Test => if Signals.sigflag p =? 0 then 6 else 3
         | Signals.Suspend => 5 | Signals.Asleep => 4 | Signals.Clear => 2 | Signals.Unmask => 1
         end
  end.
Definition left (w : side) (s : system) : Z :=
  match point_of w s with
  | First => 12 | Handshake => 3 + left_handshake (Signals.proc w (sync s))
  | Second => 3 | Blocked => 2 | Exit_ => 1 | Exited _ => 0
  end.
Definition steps_left (s : system) : Z := left Parent s + left Child s.

(** One of the processes has been refused its second lock, the other has both. *)
Definition broken_by (w : side) (s : system) : bool :=
  bool_decide (point_of w s = Exited 1) && bool_decide (point_of (other w) s = Exited 0) &&
  bool_decide (drop 2 (out s) = [Writew_lock_error w; Got_the_lock (other w) (second_byte (other w))]) &&
  bool_decide (Got_the_lock w (first_byte w) ∈ take 2 (out s)) && bool_decide (Got_the_lock (other w) (first_byte (other w)) ∈ take 2 (out s)).

Definition at_rest (s : system) : bool :=
  if decide (successors step all_moves s = []) then broken_by Parent s || broken_by Child s else true.

(** A process that runs has a lock of its own exactly after it has printed so. *)
Definition has_lock (s : system) (w : side) (byte : Z) : bool :=
  match point_of w s with
  | Exited _ => negb (bool_decide (owner byte s = Some w))
  | _ => Bool.eqb (bool_decide (owner byte s = Some w)) (bool_decide (Got_the_lock w byte ∈ out s))
  end.
Definition locks_ok (s : system) : bool :=
  has_lock s Parent 0 && has_lock s Parent 1 && has_lock s Child 0 && has_lock s Child 1.

Lemma all_moves_complete m : m ∈ all_moves.
Proof. destruct m as [[]|[]]; unfold all_moves; rewrite list_elem_of_In; simpl; auto. Qed.

Lemma states_closed : closed step all_moves states = true.
Proof. vm_compute. reflexivity. Qed.
Lemma states_start : start ∈ states.
Proof. apply (bool_decide_eq_true_1 _). vm_compute. reflexivity. Qed.

(** C29: the deadlock is always broken, in every interleaving of the two processes and of
    the signals that they send each other: a process that runs has exactly the locks that
    it has printed; there are at most twenty-four moves; and when there is none left, both
    have ended, one of them with the error of its second lock, which it was refused
    while the other waited for its first, and the other with both locks and status 0. *)
Theorem deadlock_broken ms s : run ms start = Some s ->
  locks_ok s = true /\ Zlen ms <= 24 /\
  ((forall m, step m s = None) -> broken_by Parent s = true \/ broken_by Child s = true).
Proof.
  intros Hr. assert (Hs : s ∈ states).
  { apply (closed_run step all_moves all_moves_complete states ms start); [apply states_closed|apply states_start|done]. }
  split_and!.
  - apply (checked locks_ok states); [vm_compute; reflexivity|done].
  - pose proof (run_length step all_moves all_moves_complete steps_left (fun _ => true) states ms start s states_closed states_start
      ltac:(vm_compute; reflexivity) ltac:(by apply Forall_forall) Hr) as Hk.
    change (steps_left start) with 24 in Hk. assert (0 <= steps_left s); [|lia].
    unfold steps_left, left, left_handshake. repeat case_match; lia.
  - intros Hn. apply (checked at_rest states) in Hs; [|vm_compute; reflexivity]. unfold at_rest in Hs.
    rewrite decide_True in Hs; [by apply orb_true_iff in Hs|].
    apply elem_of_nil_inv. intros s' (m & _ & Em)%list_elem_of_omap. by rewrite Hn in Em.
Qed.

(** ** A run *)

(** The parent first, then the child; each waits for the signal of the other. *)
Definition a_run : list Signals.move :=
  let steps (n : Z) w := replicate (Z.to_nat n) (Signals.Step w) in
  steps 5 Parent ++ steps 2 Child ++ [Signals.Deliver Parent] ++ steps 3 Parent ++
  steps 3 Child ++ [Signals.Deliver Child] ++ steps 3 Child ++ steps 1 Parent ++ steps 1 Child ++ steps 2 Parent.

Example a_run_ends : (fun s => (parent s, child s, out s)) <$> run a_run start =
    Some (Exited 0, Exited 1, [Got_the_lock Parent 1; Got_the_lock Child 0; Writew_lock_error Child; Got_the_lock Parent 0]).
Proof. vm_compute. done. Qed.

Lemma deadlock_broken_witness : let s := default start (run a_run start) in
  run a_run start = Some s /\ locks_ok s = true /\ Zlen a_run <= 24 /\
  ((forall m, step m s = None) -> broken_by Parent s = true \/ broken_by Child s = true).
Proof.
  intros s. assert (Hr : run a_run start = Some s) by (vm_compute; reflexivity). split; [exact Hr|].
  exact (deadlock_broken a_run s Hr).
Defined.
