(* ===== verification/SignalThread.v ===== *)
(** SignalThread: apue/12.8pthread_signal.c, a thread that waits for signals and tells main
    through a flag and a condition variable that it shall quit. Each call, and each access
    to the flag, is one atomic step; signals come at any time. *)
From stdpp Require Import list strings.
From S2P Require Import Prelude Arrays Bytes Explore.

Inductive main_point :=
| Block        (* pthread_sigmask(SIG_BLOCK, &mask, &oldmask) *)
| Create       (* pthread_create *)
| Lock         (* pthread_mutex_lock *)
| Test         (* while (quitflag == 0) *)
| Wait         (* pthread_cond_wait *)
| Waiting      (* in it, without the mutex *)
| Woken        (* in it, before it has the mutex again *)
| Unlock       (* pthread_mutex_unlock *)
| Clear        (* quitflag = 0 *)
| Unblock      (* sigprocmask(SIG_SETMASK, &oldmask, NULL) *)
| Exit_        (* exit(0) *)
| Exited
| Killed.      (* by the default action of a signal *)
#[export] Instance main_point_eq_dec : EqDecision main_point.
Proof. solve_decision. Defined.

Inductive thread_point :=
| Not_created
| Sigwait      (* sigwait(&mask, &signo) *)
| Print_int    (* printf, then the loop again *)
| Print_quit   (* printf *)
| T_lock       (* pthread_mutex_lock *)
| T_set        (* quitflag = 1 *)
| T_unlock     (* pthread_mutex_unlock *)
| T_signal     (* pthread_cond_signal *)
| T_returned.
#[export] Instance thread_point_eq_dec : EqDecision thread_point.
Proof. solve_decision. Defined.

Inductive owner := Nobody | Main_has | Thread_has.
#[export] Instance owner_eq_dec : EqDecision owner.
Proof. solve_decision. Defined.

(** [sigint] and [sigquit] say whether a signal is pending, [came] whether SIGQUIT has come
    since the signals were blocked, and [said] whether "SIGQUIT caught" was printed. *)
Record system := System {
  main : main_point; thread : thread_point; lock : owner; quitflag : bool; blocked : bool;
  sigint : bool; sigquit : bool; came : bool; said : bool }.
#[export] Instance system_eq_dec : EqDecision system.
Proof. solve_decision. Defined.

Definition start : system := System Block Not_created Nobody false false false false false false.

Definition set_main (v : main_point) (s : system) : system :=
  System v (thread s) (lock s) (quitflag s) (blocked s) (sigint s) (sigquit s) (came s) (said s).
Definition set_thread (v : thread_point) (s : system) : system :=
  System (main s) v (lock s) (quitflag s) (blocked s) (sigint s) (sigquit s) (came s) (said s).
Definition set_lock (v : owner) (s : system) : system :=
  System (main s) (thread s) v (quitflag s) (blocked s) (sigint s) (sigquit s) (came s) (said s).
Definition set_quitflag (v : bool) (s : system) : system :=
  System (main s) (thread s) (lock s) v (blocked s) (sigint s) (sigquit s) (came s) (said s).
Definition set_blocked (v : bool) (s : system) : system :=
  System (main s) (thread s) (lock s) (quitflag s) v (sigint s) (sigquit s) (came s) (said s).
Definition set_sigint (v : bool) (s : system) : system :=
  System (main s) (thread s) (lock s) (quitflag s) (blocked s) v (sigquit s) (came s) (said s).
Definition set_sigquit (v : bool) (s : system) : system :=
  System (main s) (thread s) (lock s) (quitflag s) (blocked s) (sigint s) v (came s) (said s).
Definition set_came (s : system) : system :=
  System (main s) (thread s) (lock s) (quitflag s) (blocked s) (sigint s) (sigquit s) true (said s).
Definition set_said (s : system) : system :=
  System (main s) (thread s) (lock s) (quitflag s) (blocked s) (sigint s) (sigquit s) (came s) true.

(** When the process has ended nobody goes on. *)
Definition ended (s : system) : bool := match main s with Exited | Killed => true | _ => false end.

Definition main_step (s : system) : option system :=
  match main s with
  | Block => Some (set_main Create (set_blocked true s))
  | Create => Some (set_main Lock (set_thread Sigwait s))
  | Lock => if decide (lock s = Nobody) then Some (set_main Test (set_lock Main_has s)) else None
  | Test => Some (set_main (if quitflag s then Unlock else Wait) s)
  | Wait => Some (set_main Waiting (set_lock Nobody s))
  | Waiting => None
  | Woken => if decide (lock s = Nobody) then Some (set_main Test (set_lock Main_has s)) else None
  | Unlock => Some (set_main Clear (set_lock Nobody s))
  | Clear => Some (set_main Unblock (set_quitflag false s))
  | Unblock => Some (set_main (if sigint s || sigquit s then Killed else Exit_) (set_blocked false s))
  | Exit_ => Some (set_main Exited s)
  | Exited | Killed => None
  end.

(** [sigwait] takes one of the signals that are pending, SIGQUIT for [thread_quit]. *)
Definition thread_int (s : system) : option system :=
  match thread s with
  | Sigwait => if sigint s then Some (set_thread Print_int (set_sigint false s)) else None
  | _ => None
  end.
Definition thread_quit (s : system) : option system :=
  match thread s with
  | Sigwait => if sigquit s then Some (set_thread Print_quit (set_sigquit false s)) else None
  | _ => None
  end.

Definition thread_step (s : system) : option system :=
  match thread s with
  | Not_created | Sigwait | T_returned => None
  | Print_int => Some (set_thread Sigwait s)
  | Print_quit => Some (set_thread T_lock (set_said s))
  | T_lock => if decide (lock s = Nobody) then Some (set_thread T_set (set_lock Thread_has s)) else None
  | T_set => Some (set_thread T_unlock (set_quitflag true s))
  | T_unlock => Some (set_thread T_signal (set_lock Nobody s))
  | T_signal => Some (set_thread T_returned (if decide (main s = Waiting) then set_main Woken s else s))
  end.

(** A signal for the process; [quit] tells which. *)
Definition arrive (quit : bool) (s : system) : system :=
  if blocked s then if quit then set_came (set_sigquit true s) else set_sigint true s
  else set_main Killed s.

(** A wait may also end without cause. *)
Definition wake (s : system) : option system :=
  match main s with Waiting => Some (set_main Woken s) | _ => None end.

Inductive move := Main | Take_int | Take_quit | Thread | Sigint | Sigquit | Wake.
Definition moves : list move := [Main; Take_int; Take_quit; Thread; Sigint; Sigquit; Wake].

Definition step (m : move) (s : system) : option system :=
  if ended s then None
  else match m with
       | Main => main_step s
       | Take_int => thread_int s
       | Take_quit => thread_quit s
       | Thread => thread_step s
       | Sigint => Some (arrive false s)
       | Sigquit => Some (arrive true s)
       | Wake => wake s
       end.
Notation run := (run step).

(** ** All states *)

Definition states : list system := explore step moves 10000 [start] [].

Definition own (m : move) : bool := match m with Main | Take_int | Take_quit | Thread => true | _ => false end.

(** The steps of the two threads that are left, when no signal comes and no wait ends
    without cause. *)
Definition main_left (s : system) : Z :=
  match main s with
  | Block => 14 | Create => 13
  | Lock | Woken => if quitflag s then 6 else 11
  | Test => if quitflag s then 5 else 10
  | Wait => if quitflag s then 8 else 9
  | Waiting => 7
  | Unlock => 4 | Clear => 3 | Unblock => 2 | Exit_ => 1 | Exited | Killed => 0
  end.
Definition thread_left (s : system) : Z :=
  (if sigint s then 2 else 0) + (if sigquit s then 1 else 0) +
  match thread s with
  | Not_created => 6 | Sigwait => 5 | Print_int => 6 | Print_quit => 5 | T_lock => 4 | T_set => 3 | T_unlock => 2 | T_signal => 1 | T_returned => 0
  end.
Definition work (s : system) : Z := main_left s + thread_left s.

(** The mutex is held where the code says so, and the flag is not written by one thread
    while the other may access it. *)
Definition disciplined (s : system) : bool :=
  Bool.eqb (bool_decide (lock s = Main_has)) (match main s with Test | Wait | Unlock => true | _ => false end) &&
  Bool.eqb (bool_decide (lock s = Thread_has)) (match thread s with T_set | T_unlock => true | _ => false end) &&
  implb (bool_decide (main s = Clear)) (match thread s with T_signal | T_returned => true | _ => false end).

(** Main waits, the thread too, and SIGQUIT has not come. *)
Definition idle (s : system) : bool :=
  bool_decide (main s = Waiting) && bool_decide (thread s = Sigwait) && negb (quitflag s) && negb (came s) && negb (sigint s).

Definition at_rest (s : system) : bool :=
  match step Main s, step Take_int s, step Take_quit s, step Thread s with
  | None, None, None, None => ended s || idle s
  | _, _, _, _ => true
  end.

Definition exits_after_quit (s : system) : bool := implb (bool_decide (main s = Exited)) (said s) && implb (said s) (came s).

Lemma all_moves m : m ∈ moves.
Proof. rewrite list_elem_of_In. destruct m; unfold moves; simpl; tauto. Qed.

Lemma all_states_closed : closed step moves states = true.
Proof. vm_compute. reflexivity. Qed.
Lemma all_states_start : start ∈ states.
Proof. apply (bool_decide_eq_true_1 _). vm_compute. reflexivity. Qed.

(** C30: SIGQUIT is not missed: in every interleaving of the two threads, with signals that
    come and waits that end without cause at any time, the mutex is held where the
    code says so and the accesses to the flag exclude each other, but for the last, which
    comes when the thread has made its own; main exits only when the thread has caught SIGQUIT; and from
    every moment the threads make at most 22 steps of their own before they come to rest, where
    the process has ended, or both threads wait and SIGQUIT has not come yet. *)
Theorem quit_not_missed ms s : run ms start = Some s ->
  disciplined s = true /\ (main s = Exited -> said s = true /\ came s = true) /\
  forall more s', Forall (fun m => own m = true) more -> run more s = Some s' ->
    Zlen more <= 22 /\
    ((forall m, own m = true -> step m s' = None) -> ended s' = true \/ idle s' = true).
Proof.
  intros Hr. assert (Hs : s ∈ states) by (apply (closed_run step moves all_moves states ms start); [apply all_states_closed|apply all_states_start|done]).
  split_and!.
  - apply (checked disciplined states); [vm_compute; reflexivity|done].
  - intros E. apply (checked exits_after_quit states) in Hs; [|vm_compute; reflexivity]. unfold exits_after_quit in Hs.
    rewrite bool_decide_true in Hs by done. by destruct (said s), (came s).
  - intros more s' Hown Hr'. assert (Hs' : s' ∈ states) by (by apply (closed_run step moves all_moves states more s); [apply all_states_closed|..]).
    split.
    + pose proof (run_length step moves all_moves work own states more s s' all_states_closed Hs ltac:(vm_compute; reflexivity) Hown Hr') as L.
      assert (H1 : (work s <=? 22) = true) by (apply (checked (fun s => work s <=? 22) states); [vm_compute; reflexivity|done]).
      assert (H2 : (0 <=? work s') = true) by (apply (checked (fun s => 0 <=? work s) states); [vm_compute; reflexivity|done]). lia.
    + intros Hrest. apply (checked at_rest states) in Hs'; [|vm_compute; reflexivity]. unfold at_rest in Hs'.
      rewrite !Hrest in Hs' by done. by apply orb_true_iff in Hs'.
Qed.

(** ** Runs *)

Definition a_run : list move :=
  [Main; Main; Main; Main; Main; Sigint; Take_int; Sigquit; Thread; Wake; Main; Main; Main; Take_quit; Thread; Thread; Thread; Thread; Thread].

Example exits : main <$> run (a_run ++ [Main; Main; Main; Main; Main; Main]) start = Some Exited.
Proof. vm_compute. reflexivity. Qed.

(** A signal that comes when the thread has returned kills the process as main takes its
    old mask again. *)
Example killed_late : main <$> run (a_run ++ [Sigint; Main; Main; Main; Main; Main]) start = Some Killed.
Proof. vm_compute. reflexivity. Qed.

Lemma quit_not_missed_witness : let s := default start (run a_run start) in
  run a_run start = Some s /\ main s = Woken /\
  disciplined s = true /\ (main s = Exited -> said s = true /\ came s = true) /\
  forall more s', Forall (fun m => own m = true) more -> run more s = Some s' ->
    Zlen more <= 22 /\
    ((forall m, own m = true -> step m s' = None) -> ended s' = true \/ idle s' = true).
Proof.
  intros s. assert (Hr : run a_run start = Some s) by (vm_compute; reflexivity). split; [exact Hr|]. split; [vm_compute; reflexivity|].
  exact (quit_not_missed a_run s Hr).
Defined.
