(* ===== verification/Getaddrinfo.v ===== *)
(** Getaddrinfo: apue/16.3.3getaddrinfo.c, which prints what [getaddrinfo] has found, and a
    reader of its output. *)
From stdpp Require Import sets list strings.
From S2P Require Import Prelude Arrays Bytes.

Definition AF_UNSPEC : Z := 0.
Definition AF_UNIX : Z := 1.
Definition AF_INET : Z := 2.
Definition AF_INET6 : Z := 10.
Definition SOCK_STREAM : Z := 1.
Definition SOCK_DGRAM : Z := 2.
Definition SOCK_RAW : Z := 3.
Definition SOCK_SEQPACKET : Z := 5.
Definition IPPROTO_TCP : Z := 6.
Definition IPPROTO_UDP : Z := 17.
Definition IPPROTO_RAW : Z := 255.
Definition AI_PASSIVE : Z := 1.
Definition AI_CANONNAME : Z := 2.
Definition AI_NUMERICHOST : Z := 4.
Definition AI_V4MAPPED : Z := 8.
Definition AI_ALL : Z := 16.
Definition AI_NUMERICSERV : Z := 1024.

(** [sin_addr] and [sin_port], in network order, of the address of an entry. *)
Record addrinfo := Addrinfo {
  ai_flags : Z; ai_family : Z; ai_socktype : Z; ai_protocol : Z; ai_canonname : option bytes; sin_addr : Z; sin_port : Z }.

(** What has been printed on the two streams. *)
Record streams := Streams { stdout : bytes; stderr : bytes }.
Definition printf (text : bytes) : M streams unit := modify (fun s => Streams (stdout s ++ text) (stderr s)).
Definition err_quit (text : bytes) : M streams unit :=
  modify (fun s => Streams (stdout s) (stderr s ++ text ++ [NEWLINE])) ;; exit_ 1.

Definition print_family (aip : addrinfo) : M streams unit :=
  printf (B " family ") ;;
  let f := ai_family aip in
  if f =? AF_INET then printf (B "inet")
  else if f =? AF_INET6 then printf (B "inet6")
  else if f =? AF_UNIX then printf (B "unix")
  else if f =? AF_UNSPEC then printf (B "unspecified")
  else printf (B "unknown").

Definition print_type (aip : addrinfo) : M streams unit :=
  printf (B " type ") ;;
  let t := ai_socktype aip in
  if t =? SOCK_STREAM then printf (B "stream")
  else if t =? SOCK_DGRAM then printf (B "datagram")
  else if t =? SOCK_SEQPACKET then printf (B "seqpacket")
  else if t =? SOCK_RAW then printf (B "raw")
  else printf (B "unknown (" ++ dec t ++ B ")").

Definition print_protocol (aip : addrinfo) : M streams unit :=
  printf (B " protocol ") ;;
  let p := ai_protocol aip in
  if p =? 0 then printf (B "default")
  else if p =? IPPROTO_TCP then printf (B "TCP")
  else if p =? IPPROTO_UDP then printf (B "UDP")
  else if p =? IPPROTO_RAW then printf (B "raw")
  else printf (B "unknown (" ++ dec p ++ B ")").

Definition flag (aip : addrinfo) (bit : Z) (text : bytes) : M streams unit :=
  when negb (Z.land (ai_flags aip) bit =? 0) do printf text.

Definition print_flags (aip : addrinfo) : M streams unit :=
  printf (B "flags") ;;
  if ai_flags aip =? 0 then printf (B " 0")
  else
    flag aip AI_PASSIVE (B " passive") ;;
    flag aip AI_CANONNAME (B " canon") ;;
    flag aip AI_NUMERICHOST (B " numhost") ;;
    flag aip AI_NUMERICSERV (B " numserv") ;;
    flag aip AI_V4MAPPED (B " v4mapped") ;;
    flag aip AI_ALL (B " all").

(** The bytes of a 16-bit number are swapped. *)
Definition ntohs (p : Z) : Z := p mod 256 * 256 + p / 256 mod 256.

(** What the program asks for. *)
Record hints := Hints { h_flags : Z; h_family : Z; h_socktype : Z; h_protocol : Z }.

Section main.
(** The resolver, with the code of an error or the list; the text of an error; the text of
    an internet address; and what is in [hint.ai_protocol], which the program does not set. *)
Context (getaddrinfo : bytes -> bytes -> hints -> Z + list addrinfo) (gai_strerror : Z -> bytes) (inet_ntop : Z -> option bytes)
        (garbage : Z).

Definition print_host (aip : addrinfo) : M streams unit :=
  printf ([NEWLINE] ++ [9] ++ B "host " ++ default (B "-") (ai_canonname aip)) ;;
  (when ai_family aip =? AF_INET do
     (printf (B " address " ++ default (B "unknown") (inet_ntop (sin_addr aip))) ;;
      printf (B " port " ++ dec (ntohs (sin_port aip))))) ;;
  printf [NEWLINE].

Fixpoint print_list (ailist : list addrinfo) : M streams unit :=
  match ailist with
  | [] => ret tt
  | aip :: next =>
      print_flags aip ;; print_family aip ;; print_type aip ;; print_protocol aip ;;
      print_host aip ;;
      print_list next
  end.

Definition main (argv : list bytes) : M streams unit :=
  match argv with
  | [_; node; service] =>
      match getaddrinfo node service (Hints AI_CANONNAME 0 0 garbage) with
      | inl err => err_quit (B "getaddrinfo error: " ++ gai_strerror err)
      | inr ailist => print_list ailist ;; exit_ 0
      end
  | _ => err_quit (B "usage: " ++ default [] (head argv) ++ B " nodename service")
  end.
End main.

(** ** The text of an entry *)

Definition mask : Z := Z.lor AI_PASSIVE (Z.lor AI_CANONNAME (Z.lor AI_NUMERICHOST (Z.lor AI_NUMERICSERV (Z.lor AI_V4MAPPED AI_ALL)))).

Definition flag_words (f : Z) : list bytes :=
  if f =? 0 then [B "0"]
  else omap (fun x => if Z.land f x.1 =? 0 then None else Some x.2)
         [(AI_PASSIVE, B "passive"); (AI_CANONNAME, B "canon"); (AI_NUMERICHOST, B "numhost"); (AI_NUMERICSERV, B "numserv");
          (AI_V4MAPPED, B "v4mapped"); (AI_ALL, B "all")].
Definition family_word (f : Z) : bytes :=
  if f =? AF_INET then B "inet" else if f =? AF_INET6 then B "inet6" else if f =? AF_UNIX then B "unix"
  else if f =? AF_UNSPEC then B "unspecified" else B "unknown".
Definition unknown (n : Z) : list bytes := [B "unknown"; B "(" ++ dec n ++ B ")"].
Definition type_words (t : Z) : list bytes :=
  if t =? SOCK_STREAM then [B "stream"] else if t =? SOCK_DGRAM then [B "datagram"] else if t =? SOCK_SEQPACKET then [B "seqpacket"]
  else if t =? SOCK_RAW then [B "raw"] else unknown t.
Definition protocol_words (p : Z) : list bytes :=
  if p =? 0 then [B "default"] else if p =? IPPROTO_TCP then [B "TCP"] else if p =? IPPROTO_UDP then [B "UDP"]
  else if p =? IPPROTO_RAW then [B "raw"] else unknown p.

(** The words of the first line, and the line. *)
Definition entry_words (a : addrinfo) : list bytes :=
  [B "flags"] ++ flag_words (ai_flags a) ++ [B "family"; family_word (ai_family a)] ++ B "type" :: type_words (ai_socktype a) ++
  B "protocol" :: protocol_words (ai_protocol a).
Definition unwords (l : list bytes) : bytes := concat (map (cons SPACE) l).
Definition entry_line (a : addrinfo) : bytes := drop 1 (unwords (entry_words a)).

(** ** Reading it back *)

Fixpoint words (b : bytes) : list bytes :=
  match b with
  | [] => [[]]
  | c :: b => if c =? SPACE then [] :: words b
              else match words b with w :: ws => (c :: w) :: ws | [] => [[c]] end
  end.

Definition lookup_word {A} (l : list (bytes * A)) (w : bytes) : option A :=
  snd <$> head (filter (fun x => x.1 = w) l).

Definition flag_names : list (bytes * Z) :=
  [(B "0", 0); (B "passive", AI_PASSIVE); (B "canon", AI_CANONNAME); (B "numhost", AI_NUMERICHOST); (B "numserv", AI_NUMERICSERV);
   (B "v4mapped", AI_V4MAPPED); (B "all", AI_ALL)].
Definition family_names : list (bytes * option Z) :=
  [(B "inet", Some AF_INET); (B "inet6", Some AF_INET6); (B "unix", Some AF_UNIX); (B "unspecified", Some AF_UNSPEC); (B "unknown", None)].
Definition type_names : list (bytes * Z) :=
  [(B "stream", SOCK_STREAM); (B "datagram", SOCK_DGRAM); (B "seqpacket", SOCK_SEQPACKET); (B "raw", SOCK_RAW)].
Definition protocol_names : list (bytes * Z) :=
  [(B "default", 0); (B "TCP", IPPROTO_TCP); (B "UDP", IPPROTO_UDP); (B "raw", IPPROTO_RAW)].

Fixpoint read_flags (acc : Z) (ws : list bytes) : Z * list bytes :=
  match ws with
  | w :: ws' => match lookup_word flag_names w with Some b => read_flags (Z.lor acc b) ws' | None => (acc, ws) end
  | [] => (acc, [])
  end.

(** A name, or "unknown" and the number in parentheses. *)
Definition read_number (names : list (bytes * Z)) (ws : list bytes) : option (Z * list bytes) :=
  match ws with
  | w :: ws => match lookup_word names w, ws with
               | Some n, _ => Some (n, ws)
               | None, (_ :: d) :: ws => Some (atol d, ws)
               | None, _ => None
               end
  | [] => None
  end.

Definition read_entry (line : bytes) : option (Z * option Z * Z * Z) :=
  match words line with
  | _ :: ws =>
      match read_flags 0 ws with
      | (f, _ :: w :: _ :: ws) =>
          fam ← lookup_word family_names w;
          '(t, ws) ← read_number type_names ws;
          match ws with _ :: ws => '(p, _) ← read_number protocol_names ws; Some (f, fam, t, p) | [] => None end
      | _ => None
      end
  | [] => None
  end.

(** ** The round trip *)

Definition one_word (w : bytes) : Prop := SPACE ∉ w /\ NEWLINE ∉ w.

Lemma words_one w : one_word w -> words w = [w].
Proof.
  intros [Hw _]. induction w as [|c w IH]; simpl; [done|]. destruct (Z.eqb_spec c SPACE) as [->|]; [set_solver|].
  rewrite IH; [done|set_solver].
Qed.

Lemma words_cons w b : one_word w -> words (w ++ SPACE :: b) = w :: words b.
Proof.
  intros [Hw _]. induction w as [|c w IH]; simpl; [done|]. destruct (Z.eqb_spec c SPACE) as [->|]; [set_solver|].
  rewrite IH; [done|set_solver].
Qed.

Lemma words_unwords w ws : Forall one_word (w :: ws) -> words (w ++ unwords ws) = w :: ws.
Proof.
  revert w. induction ws as [|w' ws IH]; intros w [Hw Hws]%Forall_cons.
  - unfold unwords. simpl. rewrite app_nil_r. by apply words_one.
  - change (unwords (w' :: ws)) with (SPACE :: w' ++ unwords ws). rewrite words_cons, IH by done. done.
Qed.

Lemma one_word_b w : forallb (fun c => negb (c =? SPACE) && negb (c =? NEWLINE)) w = true -> one_word w.
Proof. rewrite forallb_forall. intros Hw. split; intros Hin; apply list_elem_of_In in Hin; by specialize (Hw _ Hin). Qed.

Lemma one_word_dec n : one_word (dec n).
Proof.
  destruct (Z.lt_ge_cases n 0); [rewrite dec_neg by done; split; (apply not_elem_of_cons; split; [done|])|split]; (apply dec_no; [lia|done]).
Qed.

Lemma one_word_unknown n : Forall one_word (unknown n).
Proof.
  constructor; [by apply one_word_b|]. constructor; [|done]. destruct (one_word_dec n) as [H1 H2]. unfold one_word. rewrite !elem_of_app.
  split; (intros [Hin|[Hin|Hin]]; [by apply list_elem_of_singleton in Hin|done|by apply list_elem_of_singleton in Hin]).
Qed.

Lemma entry_one_word a : Forall one_word (entry_words a).
Proof.
  unfold entry_words. apply Forall_app. split; [by constructor; [apply one_word_b|]|]. apply Forall_app. split.
  { unfold flag_words. destruct (_ =? _); [by constructor; [apply one_word_b|]|].
    apply Forall_forall. intros w (x & Hx & E)%list_elem_of_omap. destruct (_ =? _); [done|]. injection E as <-.
    rewrite list_elem_of_In in Hx. repeat destruct Hx as [<-|Hx]; try done; by apply one_word_b. }
  apply Forall_app. split.
  { constructor; [by apply one_word_b|]. constructor; [|done]. unfold family_word. repeat case_match; by apply one_word_b. }
  constructor; [by apply one_word_b|]. apply Forall_app. split.
  { unfold type_words. repeat case_match; try (constructor; [by apply one_word_b|done]). apply one_word_unknown. }
  constructor; [by apply one_word_b|]. unfold protocol_words. repeat case_match; try (constructor; [by apply one_word_b|done]). apply one_word_unknown.
Qed.

Lemma unwords_line ws : Forall one_word ws -> NEWLINE ∉ unwords ws.
Proof.
  induction 1 as [|w ws [_ Hw] _ IH]; [apply not_elem_of_nil|]. change (unwords (w :: ws)) with (SPACE :: w ++ unwords ws).
  rewrite elem_of_cons, elem_of_app. naive_solver.
Qed.

(** One bit of the flags. *)
Lemma land_bit f k : 0 <= k -> Z.land f (2 ^ k) = 0 \/ Z.land f (2 ^ k) = 2 ^ k.
Proof.
  intros Hk. destruct (Z.testbit f k) eqn:E; [right|left]; apply Z.bits_inj'; intros n Hn; rewrite Z.land_spec, Z.pow2_bits_eqb by done;
    (destruct (Z.eqb_spec k n) as [->|]; [by rewrite ?E, ?Z.bits_0|by rewrite andb_false_r, ?Z.bits_0]).
Qed.

Lemma read_flag_words f r : read_flags 0 (flag_words f ++ B "family" :: r) = (Z.land f mask, B "family" :: r).
Proof.
  unfold flag_words. destruct (Z.eqb_spec f 0) as [->|]; [by vm_compute|]. unfold mask. rewrite !Z.land_lor_distr_r.
  destruct (land_bit f 0) as [E0|E0]; [lia|..]; change (2 ^ 0) with AI_PASSIVE in E0;
  (destruct (land_bit f 1) as [E1|E1]; [lia|..]); change (2 ^ 1) with AI_CANONNAME in E1;
  (destruct (land_bit f 2) as [E2|E2]; [lia|..]); change (2 ^ 2) with AI_NUMERICHOST in E2;
  (destruct (land_bit f 10) as [E3|E3]; [lia|..]); change (2 ^ 10) with AI_NUMERICSERV in E3;
  (destruct (land_bit f 3) as [E4|E4]; [lia|..]); change (2 ^ 3) with AI_V4MAPPED in E4;
  (destruct (land_bit f 4) as [E5|E5]; [lia|..]); change (2 ^ 4) with AI_ALL in E5;
  simpl omap; rewrite E0, E1, E2, E3, E4, E5; reflexivity.
Qed.

Lemma read_number_unknown names n ws : lookup_word names (B "unknown") = None ->
  read_number names (unknown n ++ ws) = Some (n, ws).
Proof.
  intros E. unfold read_number, unknown. cbn [app]. rewrite E. change (B "(" ++ dec n ++ B ")") with (40 :: dec n ++ B ")").
  cbn beta iota zeta. by rewrite atol_dec_app.
Qed.

Lemma read_type t ws : read_number type_names (type_words t ++ ws) = Some (t, ws).
Proof.
  unfold type_words. repeat (case_match; [match goal with E : (t =? _) = true |- _ => apply Z.eqb_eq in E as -> end; reflexivity|]).
  by apply read_number_unknown.
Qed.

Lemma read_protocol p ws : read_number protocol_names (protocol_words p ++ ws) = Some (p, ws).
Proof.
  unfold protocol_words. repeat (case_match; [match goal with E : (p =? _) = true |- _ => apply Z.eqb_eq in E as -> end; reflexivity|]).
  by apply read_number_unknown.
Qed.

(** The family, unless it is one that the program does not know. *)
Definition known_family (f : Z) : option Z := if bool_decide (f ∈ [AF_INET; AF_INET6; AF_UNIX; AF_UNSPEC]) then Some f else None.

Lemma read_family f : lookup_word family_names (family_word f) = Some (known_family f).
Proof.
  unfold family_word, known_family. destruct (bool_decide_reflect (f ∈ [AF_INET; AF_INET6; AF_UNIX; AF_UNSPEC])) as [Hin|Hin].
  - rewrite list_elem_of_In in Hin. simpl in Hin. by destruct Hin as [<-|[<-|[<-|[<-|[]]]]].
  - repeat (case_match; [match goal with E : (f =? _) = true |- _ => apply Z.eqb_eq in E as -> end; exfalso; apply Hin; rewrite list_elem_of_In; simpl; tauto|]).
    reflexivity.
Qed.

(** *** What is printed *)

Definition prints (text : bytes) (m : M streams unit) : Prop := forall s, m s = Ret tt (Streams (stdout s ++ text) (stderr s)).

Lemma prints_printf text : prints text (printf text).
Proof. done. Qed.
Lemma prints_ret : prints [] (ret tt).
Proof. intros []. unfold ret. simpl. by rewrite app_nil_r. Qed.
Lemma prints_bind a b m k : prints a m -> prints b k -> prints (a ++ b) (m ;; k).
Proof. intros Ha Hb s. unfold bind. rewrite Ha, Hb. simpl. by rewrite app_assoc. Qed.
Lemma prints_eq a b m : prints a m -> a = b -> prints b m.
Proof. by intros ? <-. Qed.

(** The line of an entry. *)
Definition first_line (a : addrinfo) : bytes := B "flags" ++ unwords (drop 1 (entry_words a)).

Lemma prints_flag a bit text : prints (if Z.land (ai_flags a) bit =? 0 then [] else text) (flag a bit text).
Proof. unfold flag. destruct (_ =? _); simpl; [apply prints_ret|apply prints_printf]. Qed.

Lemma unwords_app l l' : unwords (l ++ l') = unwords l ++ unwords l'.
Proof. unfold unwords. by rewrite map_app, concat_app. Qed.

Lemma prints_flags a : prints (B "flags" ++ unwords (flag_words (ai_flags a))) (print_flags a).
Proof.
  unfold print_flags. apply prints_bind; [apply prints_printf|]. unfold flag_words. destruct (_ =? _); [apply prints_printf|].
  eapply prints_eq; [repeat (apply prints_bind; [apply prints_flag|]); apply prints_flag|].
  simpl. repeat case_match; reflexivity.
Qed.

Lemma prints_family a : prints (unwords [B "family"; family_word (ai_family a)]) (print_family a).
Proof.
  unfold print_family. eapply prints_eq; [apply prints_bind; [apply prints_printf|]; instantiate (1 := family_word (ai_family a))|].
  - unfold family_word. repeat case_match; apply prints_printf.
  - unfold unwords. simpl. by rewrite app_nil_r.
Qed.

Lemma prints_type a : prints (unwords (B "type" :: type_words (ai_socktype a))) (print_type a).
Proof.
  unfold print_type, type_words. eapply prints_eq; [apply prints_bind; [apply prints_printf|]|].
  - instantiate (1 := drop 1 (unwords (type_words (ai_socktype a)))). unfold type_words. repeat case_match; try apply prints_printf.
    eapply prints_eq; [apply prints_printf|]. unfold unwords, unknown. simpl. by rewrite !app_nil_r.
  - unfold type_words. repeat case_match; reflexivity.
Qed.

Lemma prints_protocol a : prints (unwords (B "protocol" :: protocol_words (ai_protocol a))) (print_protocol a).
Proof.
  unfold print_protocol. eapply prints_eq; [apply prints_bind; [apply prints_printf|]|].
  - instantiate (1 := drop 1 (unwords (protocol_words (ai_protocol a)))). unfold protocol_words. repeat case_match; try apply prints_printf.
    eapply prints_eq; [apply prints_printf|]. unfold unwords, unknown. simpl. by rewrite !app_nil_r.
  - unfold protocol_words. repeat case_match; reflexivity.
Qed.

Lemma prints_first_line a k text : prints text k ->
  prints (first_line a ++ text) (print_flags a ;; print_family a ;; print_type a ;; print_protocol a ;; k).
Proof.
  intros Hk. eapply prints_eq.
  - apply prints_bind; [apply prints_flags|]. apply prints_bind; [apply prints_family|]. apply prints_bind; [apply prints_type|].
    apply prints_bind; [apply prints_protocol|exact Hk].
  - unfold first_line, entry_words. rewrite (drop_app_length' [B "flags"]) by done. rewrite !unwords_app.
    change (B "type" :: type_words (ai_socktype a) ++ B "protocol" :: protocol_words (ai_protocol a))
      with ((B "type" :: type_words (ai_socktype a)) ++ B "protocol" :: protocol_words (ai_protocol a)).
    by rewrite unwords_app, <-!app_assoc.
Qed.

Lemma read_first_line a : read_entry (first_line a) =
  Some (Z.land (ai_flags a) mask, known_family (ai_family a), ai_socktype a, ai_protocol a).
Proof.
  unfold read_entry, first_line. set (ws := flag_words (ai_flags a) ++ B "family" :: family_word (ai_family a) ::
    B "type" :: type_words (ai_socktype a) ++ B "protocol" :: protocol_words (ai_protocol a)).
  change (drop 1 (entry_words a)) with ws. rewrite words_unwords by exact (entry_one_word a). cbn beta iota.
  unfold ws. rewrite read_flag_words. cbn beta iota. rewrite read_family. cbn [mbind option_bind].
  rewrite read_type. cbn [mbind option_bind]. rewrite <-(app_nil_r (protocol_words _)), read_protocol. reflexivity.
Qed.

Section output.
Context (getaddrinfo : bytes -> bytes -> hints -> Z + list addrinfo) (gai_strerror : Z -> bytes) (inet_ntop : Z -> option bytes) (garbage : Z).

(** The second line. *)
Definition host_line (a : addrinfo) : bytes :=
  [9] ++ B "host " ++ default (B "-") (ai_canonname a) ++
  (if ai_family a =? AF_INET then B " address " ++ default (B "unknown") (inet_ntop (sin_addr a)) ++ B " port " ++ dec (ntohs (sin_port a)) else []).

Definition entry_text (a : addrinfo) : bytes := first_line a ++ [NEWLINE] ++ host_line a ++ [NEWLINE].

Lemma prints_host a : prints ([NEWLINE] ++ host_line a ++ [NEWLINE]) (print_host inet_ntop a).
Proof.
  unfold print_host, host_line. eapply prints_eq; [apply prints_bind; [apply prints_printf|]; apply prints_bind; [|apply prints_printf]|].
  - instantiate (1 := if ai_family a =? AF_INET then _ else _). destruct (_ =? _); [apply prints_bind; apply prints_printf|apply prints_ret].
  - destruct (_ =? _); by rewrite <-!app_assoc.
Qed.

Lemma prints_list l : prints (concat (map entry_text l)) (print_list inet_ntop l).
Proof.
  induction l as [|a l IH]; [apply prints_ret|]. cbn [print_list map concat]. unfold entry_text at 1.
  eapply prints_eq; [apply prints_first_line, prints_bind; [apply prints_host|exact IH]|]. by rewrite <-!app_assoc.
Qed.

(** C31: what the program prints can be read back: with a name and a service it either ends with status
    1 and the text of the resolver's error, or with status 0 and two lines for each
    entry of the list, in its order, and the first line of an entry determines its type,
    its protocol, all flags that the program knows, and its family if that is known. *)
Theorem output_readable prog node service s :
  main getaddrinfo gai_strerror inet_ntop garbage [prog; node; service] s =
    match getaddrinfo node service (Hints AI_CANONNAME 0 0 garbage) with
    | inl err => Exit 1 (Streams (stdout s) (stderr s ++ B "getaddrinfo error: " ++ gai_strerror err ++ [NEWLINE]))
    | inr l => Exit 0 (Streams (stdout s ++ concat (map (fun a => first_line a ++ [NEWLINE] ++ host_line a ++ [NEWLINE]) l)) (stderr s))
    end /\
  forall a, read_entry (first_line a) = Some (Z.land (ai_flags a) mask, known_family (ai_family a), ai_socktype a, ai_protocol a) /\
    NEWLINE ∉ first_line a.
Proof.
  split.
  - unfold main. destruct (getaddrinfo _ _ _) as [err|l]; [unfold err_quit, bind, modify, exit_; by rewrite <-!app_assoc|].
    unfold bind. by rewrite (prints_list l s).
  - intros a. split; [apply read_first_line|]. unfold first_line. rewrite elem_of_app. intros [Hin|Hin].
    + revert Hin. apply (one_word_b (B "flags") eq_refl).
    + revert Hin. apply unwords_line. pose proof (entry_one_word a) as Hw. by apply Forall_cons in Hw as [_ Hw].
Qed.
End output.

(** ** A run *)

Definition an_entry : addrinfo := Addrinfo 1026 AF_INET SOCK_STREAM 33 (Some (B "host")) 16777343 20480.

Example an_entry_line : first_line an_entry = B "flags canon numserv family inet type stream protocol unknown (33)".
Proof. vm_compute. reflexivity. Qed.

Example a_run : main (fun _ _ _ => inr [an_entry]) (fun _ => []) (fun _ => Some (B "127.0.0.1")) 0 [B "prog"; B "host"; B "http"] (Streams [] []) =
  Exit 0 (Streams (B "flags canon numserv family inet type stream protocol unknown (33)" ++ [NEWLINE; 9] ++
    B "host host address 127.0.0.1 port 80" ++ [NEWLINE]) []).
Proof. vm_compute. reflexivity. Qed.
