(* ===== verification/Tls.v ===== *)
(** Tls: the file transfer of network/ssl: ssl_client.c, which sends a file over TLS, and
    ssl_server.c, which stores it. The calls of OpenSSL are calls like those of the
    system; a null pointer is the answer 0. The modes SMODE and CMODE that the Makefile
    passes to the compiler are parameters. *)
From stdpp Require Import sets list strings.
From S2P Require Import Prelude Arrays Bytes Sys.

Definition MAXBUF : Z := 1024.
(** The sizes of [pwd] and of [file] and [filename]. *)
Definition PWD_SIZE : Z := 100.
Definition FILE_SIZE : Z := 50.
Definition SLASH : Z := 47.
Definition LF : bytes := [NEWLINE].

Definition SSL_VERIFY_NONE : Z := 0.
Definition SSL_VERIFY_PEER : Z := 1.
Definition SSL_VERIFY_FAIL_IF_NO_PEER_CERT : Z := 2.
Definition X509_V_OK : Z := 0.
Definition O_RDONLY : Z := 0.
(** [O_CREAT|O_RDWR]. *)
Definition CREATE_FLAGS : Z := 66.

(** The macros that the Makefile defines; SERVER_SSL_VERIFY_NONE and
    CLIENT_SSL_VERIFY_PERR are defined nowhere, which is 0 in a condition. *)
Definition SERVER_SSL_VERIFY_NONE : Z := 0.
Definition SERVER_SSL_VERIFY_PEER : Z := 2.
Definition SERVER_SSL_VERIFY_FAIL_IF_NO_PEER_CERT : Z := 3.
Definition CLIENT_SSL_VERIFY_NONE : Z := 1.
Definition CLIENT_SSL_VERIFY_PERR : Z := 0.

Notation tls := (M (proc unit)).

Section tls.
Context `{Kernel} (SMODE CMODE : Z).
(** What [ERR_print_errors_fp] prints, the texts of errors and addresses, and the reading
    of an address. *)
Context (ssl_errors : bytes) (strerror : Z -> bytes) (inet_ntop : Z -> bytes) (inet_pton : bytes -> option Z).

Definition ssl_fail {A} : tls A := printf ssl_errors ;; exit_ 1.
Definition get_errno : tls Z := gets errno.
Definition perror_exit {A} (text : bytes) : tls A := perror text ;; e <- get_errno ;; exit_ e.

(** The working directory, and nothing for the root; after an error the array is
    indeterminate. *)
Definition getcwd_pwd : tls bytes :=
  a <- sys (Getcwd PWD_SIZE) ;;
  guard_ok (negb (a_ret a =? 0)) ;;
  let pwd := a_data a in
  ret (if Zlen pwd =? 1 then [] else pwd).
Definition strcat_pwd (pwd suffix : bytes) : tls bytes :=
  guard_ok (Zlen pwd + Zlen suffix + 1 <=? PWD_SIZE) ;; ret (pwd ++ suffix).

(** The server verifies its clients. *)
Definition smode_peer : bool :=
  (SMODE =? SERVER_SSL_VERIFY_PEER) || (SMODE =? Z.lor SERVER_SSL_VERIFY_PEER SERVER_SSL_VERIFY_FAIL_IF_NO_PEER_CERT).

Definition load_verify_locations : tls unit :=
  pwd <- getcwd_pwd ;;
  cafile <- strcat_pwd pwd (B "/ca/certs/ca.cer") ;;
  printf (B "capath = " ++ cafile ++ LF) ;;
  r <- sysret (Ssl_load_verify cafile) ;;
  if r =? 0 then ssl_fail else printf (B "SSL_CTX_load_verify_locations success" ++ LF).

(** The certificate and the key; [check] is the test of the server. *)
Definition use_certificate (cert key passwd : bytes) (check : bool) : tls unit :=
  pwd <- getcwd_pwd ;;
  printf (B "call SSL_CTX_use_certificate_file:" ++ LF) ;;
  path <- strcat_pwd pwd cert ;;
  r <- sysret (Ssl_use_certificate path) ;;
  (when r <=? 0 do ssl_fail) ;;
  pwd <- getcwd_pwd ;;
  sys_ (Ssl_passwd passwd) ;;
  printf (B "call SSL_CTX_use_PrivateKey_file:" ++ LF) ;;
  path <- strcat_pwd pwd key ;;
  r <- sysret (Ssl_use_key path) ;;
  (when r <=? 0 do ssl_fail) ;;
  (when check do (r <- sysret Ssl_check_key ;; (when r =? 0 do ssl_fail))).

Definition ssl_init (server : bool) : tls unit :=
  sys_ Ssl_init ;;
  ctx <- sysret (Ssl_ctx_new server) ;;
  when ctx =? 0 do ssl_fail.

(** A variable that has not been given a value is [None]. *)
Definition set_verify (mode : option Z) : tls unit :=
  match mode with Some m => sys_ (Ssl_set_verify m) | None => ub end.

(** ** ssl_server.c *)

Definition server_mode : option Z :=
  if SMODE =? SERVER_SSL_VERIFY_NONE then Some SSL_VERIFY_NONE
  else if SMODE =? SERVER_SSL_VERIFY_PEER then Some SSL_VERIFY_PEER
  else if SMODE =? Z.lor SERVER_SSL_VERIFY_PEER SERVER_SSL_VERIFY_FAIL_IF_NO_PEER_CERT
       then Some (Z.lor SSL_VERIFY_PEER SSL_VERIFY_FAIL_IF_NO_PEER_CERT)
  else None.

Definition server_ctx : tls unit :=
  ssl_init true ;;
  (when smode_peer do load_verify_locations) ;;
  set_verify server_mode ;;
  use_certificate (B "/ca/certs/server.cer") (B "/ca/private/server-key.pem") (B "asdqwe") true.

Definition server_socket (port lisnum : Z) : tls Z :=
  sockfd <- sysret Socket ;;
  (if sockfd =? -1 then perror (B "socket") ;; exit_ 1 else printf (B "socket created" ++ LF)) ;;
  r <- sysret (Setsockopt sockfd) ;;
  (if r <? 0 then perror (B "setsockopt error") else printf (B "setsockopt ok!" ++ LF)) ;;
  r <- sysret (Bind sockfd (Addr INADDR_ANY (port mod 2 ^ 16))) ;;
  (if r =? -1 then perror (B "bind error") ;; exit_ 1 else printf (B "binded" ++ LF)) ;;
  r <- sysret (Listen sockfd lisnum) ;;
  (if r =? -1 then perror (B "listen") ;; exit_ 1 else printf (B "begin listening" ++ LF)) ;;
  ret sockfd.

Section server.
(** The size of the array [buf] of the server. *)
Context (BUF_SIZE : Z).

(** [bzero(buf, MAXBUF + 1)] *)
Definition bzero_buf : tls unit := guard_ok (MAXBUF + 1 <=? BUF_SIZE).

(** The string in [buf] after [data] was read into the zeros; it must end there. *)
Definition buf_string (data : bytes) : tls bytes := guard_ok (Zlen data <? BUF_SIZE) ;; ret (cstr data).

(** What comes of the file, until the connection is closed. *)
Definition receive_data (ssl fd : Z) : tls unit :=
  forever (fun _ =>
    a <- sys (Ssl_read ssl MAXBUF) ;;
    let len := a_ret a in
    if len =? 0 then ret (inr tt)
    else
      s <- buf_string (if 0 <? len then a_data a else []) ;;
      printf (B "buf is " ++ s ++ LF) ;;
      if len <? 0 then perror (B "SSL_read error") ;; exit_ 1
      else
        r <- sysret (Write fd (a_data a)) ;;
        (when r <? 0 do (perror (B "write error") ;; exit_ 1)) ;;
        bzero_buf ;;
        ret (inl tt)) tt.

(** One connection: the name of the file, then its contents. *)
Definition receive_file (ssl clifd : Z) : tls unit :=
  bzero_buf ;;
  a <- sys (Ssl_read ssl MAXBUF) ;;
  (when a_ret a <? 0 do (perror (B "ssl_read error") ;; exit_ 1)) ;;
  name <- buf_string (if 0 <? a_ret a then a_data a else []) ;;
  printf (B "buf is " ++ name ++ LF) ;;
  guard_ok (Zlen name + 1 <=? FILE_SIZE) ;;
  fd <- sysret (Open name CREATE_FLAGS) ;;
  (when fd <? 0 do perror (B "open")) ;;
  printf (B "fd is " ++ dec fd ++ LF) ;;
  bzero_buf ;;
  receive_data ssl fd ;;
  sys_ (Close fd) ;; sys_ (Close clifd) ;; sys_ (Ssl_free ssl).

(** The result is the connection whose handshake has failed. *)
Definition serve (sockfd : Z) : tls (Z * Z) :=
  forever (fun _ =>
    a <- sys (Accept sockfd) ;;
    let clifd := a_ret a in
    (if clifd =? -1 then perror_exit (B "accept error")
     else printf (B "server: got connection from " ++ inet_ntop (s_addr (a_addr a)) ++ LF)) ;;
    ssl <- sysret Ssl_new ;;
    sys_ (Ssl_set_fd ssl clifd) ;;
    r <- sysret (Ssl_accept ssl) ;;
    if r =? -1 then perror (B "ssl_accept error") ;; printf ssl_errors ;; ret (inr (clifd, ssl))
    else
      printf (B "SSL_accept ok!" ++ LF) ;;
      receive_file ssl clifd ;;
      ret (inl tt)) tt.

(** Without an operand [argv[2]] is written, with one [argv[3]]: both are behind the end. *)
Definition server_main (argv : list bytes) : tls Z :=
  match argv with
  | _ :: port :: lisnum :: _ =>
      server_ctx ;;
      sockfd <- server_socket (atol port) (atol lisnum) ;;
      let! (clifd, ssl) := serve sockfd in
      sys_ (Close clifd) ;; sys_ (Close sockfd) ;; sys_ Ssl_ctx_free ;; sys_ (Ssl_free ssl) ;; ret 0
  | _ => ub
  end.
End server.

(** ** ssl_client.c *)

Definition client_mode : option Z :=
  if CMODE =? CLIENT_SSL_VERIFY_NONE then Some SSL_VERIFY_NONE
  else if CMODE =? CLIENT_SSL_VERIFY_PERR then Some SSL_VERIFY_PEER
  else None.

Definition showcerts (ssl : Z) : tls unit :=
  cert <- sysret (Ssl_peer_certificate ssl) ;;
  if negb (cert =? 0) then
    printf (B "Digital certificate information:" ++ LF) ;;
    a <- sys (X509_subject cert) ;; printf (B "Certificate: " ++ a_data a ++ LF) ;;
    a <- sys (X509_issuer cert) ;; printf (B "Issuser: " ++ a_data a ++ LF) ;;
    sys_ (X509_free cert)
  else printf (B "No certificate information!" ++ LF).

Definition client_ctx : tls unit :=
  ssl_init false ;;
  load_verify_locations ;;
  set_verify client_mode ;;
  when smode_peer do use_certificate (B "/ca/certs/client.cer") (B "/ca/private/client-key.pem") (B "zxcasd") false.

Definition client_socket (ip port : bytes) : tls Z :=
  sockfd <- sysret Socket ;;
  (when sockfd <? 0 do perror_exit (B "socket")) ;;
  printf (B "socket created" ++ LF) ;;
  addr <- (match inet_pton ip with Some a => ret a | None => perror_exit (B "inet_pton") end) ;;
  printf (B "address created" ++ LF) ;;
  r <- sysret (Connect sockfd (Addr addr (atol port mod 2 ^ 16))) ;;
  (when negb (r =? 0) do perror_exit (B "connect")) ;;
  printf (B "server connected" ++ LF) ;;
  ret sockfd.

Definition handshake (sockfd : Z) : tls Z :=
  ssl <- sysret Ssl_new ;;
  sys_ (Ssl_set_fd ssl sockfd) ;;
  r <- sysret (Ssl_connect ssl) ;;
  (if r =? -1 then fputs_stderr ssl_errors
   else
     a <- sys (Ssl_get_cipher ssl) ;;
     printf (B "Connected with " ++ a_data a ++ B " encryption" ++ LF) ;;
     showcerts ssl) ;;
  v <- sysret (Ssl_verify_result ssl) ;;
  (if v =? X509_V_OK then printf (B "The server sent a certificate which verified OK" ++ LF)
   else printf (B "The server sent a invalid certificate" ++ LF)) ;;
  ret ssl.

(** The index of the last slash among the first [i] bytes, or -1. *)
Fixpoint last_slash (name : bytes) (i : nat) : Z :=
  match i with
  | O => -1
  | S i => if aget (name ++ [NUL]) (Z.of_nat i) =? SLASH then Z.of_nat i else last_slash name i
  end.

(** The name without its directories. *)
Definition base_name (name : bytes) : bytes := drop (Z.to_nat (last_slash name (S (length name)) + 1)) name.

Definition send_failure (text : bytes) : tls unit :=
  e <- get_errno ;; printf (B "'" ++ text ++ B "' message send failure: " ++ strerror e).

Definition send_data (ssl fd : Z) : tls unit :=
  forever (fun _ =>
    a <- sys (Read fd 1024) ;;
    let size := a_ret a in
    if size =? 0 then ret (inr tt)
    else if size <? 0 then perror_exit (B "read")
    else
      r <- sysret (Ssl_write ssl (a_data a)) ;;
      (when r <? 0 do send_failure (cstr (a_data a))) ;;
      ret (inl tt)) tt.

Definition send_file (ssl : Z) : tls Z :=
  printf (B "Please input the filename which you want to load:" ++ LF) ;;
  a <- sys Scanf ;;
  guard_ok ((a_ret a =? 1) && (Zlen (a_data a) + 1 <=? FILE_SIZE)) ;;
  let filename := a_data a in
  fd <- sysret (Open filename O_RDONLY) ;;
  (when fd <? 0 do (perror (B "open") ;; exit_ 1)) ;;
  r <- sysret (Ssl_write ssl (base_name filename)) ;;
  (when r <? 0 do send_failure (base_name filename)) ;;
  send_data ssl fd ;;
  printf (B "send complete!" ++ LF) ;;
  ret fd.

Definition client_main (argv : list bytes) : tls Z :=
  match argv with
  | [_; ip; port] =>
      client_ctx ;;
      sockfd <- client_socket ip port ;;
      ssl <- handshake sockfd ;;
      fd <- send_file ssl ;;
      sys_ (Close fd) ;; sys_ (Ssl_shutdown ssl) ;; sys_ (Ssl_free ssl) ;; sys_ (Close sockfd) ;; sys_ Ssl_ctx_free ;; ret 0
  | _ =>
      let prog := default [] (head argv) in
      printf (B "Usage: " ++ LF ++ [9] ++ prog ++ B " IP Port" ++ LF ++ [9] ++ B "Such as:" ++ [9] ++ prog ++ B " 127.0.0.1 80" ++ LF) ;;
      exit_ 0
  end.
End tls.
