(* ===== verification/TlsProofs.v ===== *)
(** TlsProofs: the client sends the name of its file without the directories and then all
    that it reads of it; a connection of the server stores what it receives after the name in
    a file of this name. So a file arrives as it was, if the messages arrive in their order. *)
From stdpp Require Import sets list strings.
From S2P Require Import Prelude Arrays Bytes Sys Tls.

(** ** What a history says *)

(** The messages that came over a connection, the data given to [write] with success, and
    what the system took of them. *)
Definition received_by (e : event) : option (Z * bytes) :=
  match e with Called (Ssl_read ssl _) a => if 0 <? a_ret a then Some (ssl, a_data a) else None | _ => None end.
Definition passed_by (e : event) : option (Z * bytes) :=
  match e with Called (Write fd data) a => if 0 <=? a_ret a then Some (fd, data) else None | _ => None end.
Definition stored_by (e : event) : option (Z * bytes) :=
  match e with Called (Write fd data) a => if 0 <=? a_ret a then Some (fd, take (Z.to_nat (a_ret a)) data) else None | _ => None end.
(** The names with which files were opened, and the descriptors; the connections. *)
Definition opened_by (e : event) : option (bytes * Z) :=
  match e with Called (Open path _) a => Some (path, a_ret a) | _ => None end.
Definition connected_by (e : event) : option Z := match e with Called Ssl_new a => Some (a_ret a) | _ => None end.
(** The messages that were given to a connection, and what was read of a file. *)
Definition given_by (e : event) : option (Z * bytes) := match e with Called (Ssl_write ssl data) _ => Some (ssl, data) | _ => None end.
Definition loaded_by (e : event) : option (Z * bytes) :=
  match e with Called (Read fd _) a => if 0 <? a_ret a then Some (fd, a_data a) else None | _ => None end.
Notation received := (omap received_by).
Notation passed := (omap passed_by).
Notation stored := (omap stored_by).
Notation opened := (omap opened_by).
Notation connected := (omap connected_by).
Notation given := (omap given_by).
Notation loaded := (omap loaded_by).

(** No write stored less than it was given. *)
Definition whole (h : list event) : Prop :=
  Forall (fun e => match e with Called (Write _ data) a => 0 <= a_ret a -> a_ret a = Zlen data | _ => True end) h.

Lemma whole_stored h : whole h -> stored h = passed h.
Proof.
  induction 1 as [|e h He _ IH]; [done|]. destruct e as [[] a| | | | | |]; simpl; try exact IH.
  destruct (Z.leb_spec 0 (a_ret a)); [|exact IH]. f_equal; [|exact IH]. rewrite (He ltac:(lia)). unfold Zlen. by rewrite Nat2Z.id, firstn_all.
Qed.

Definition quiet_call (c : call) : bool :=
  match c with Ssl_read _ _ | Ssl_write _ _ | Write _ _ | Read _ _ | Open _ _ | Ssl_new => false | _ => true end.
Definition quiet (e : event) : Prop := match e with Called c _ => quiet_call c = true | _ => True end.

Lemma quiet_omap {A} (f : event -> option A) h : (forall e, quiet e -> f e = None) -> Forall quiet h -> omap f h = [].
Proof. intros Hf. induction 1 as [|e h He _ IH]; [done|]. simpl. by rewrite (Hf e He). Qed.

(** Quiet events leave all of them as they were. *)
Lemma quiet_none h : Forall quiet h ->
  (received h = [] /\ passed h = []) /\ opened h = [] /\ connected h = [] /\ given h = [] /\ loaded h = [].
Proof. intros Hq. split_and!; apply quiet_omap; try done; by intros [[] ?| | | | | |]. Qed.

Section proofs.
Context `{Kernel}.
Notation state := (proc unit).
Implicit Types s : state.

(** [h] has happened since [s0]. *)
Definition since s0 (h : list event) s : Prop := history s = history s0 ++ h.

Lemma since_snoc s0 h e s s' : since s0 h s -> history s' = history s ++ [e] -> since s0 (h ++ [e]) s'.
Proof. unfold since. intros -> ->. by rewrite app_assoc. Qed.

Lemma since_record s0 h h' e s : since s0 h s -> h' = h ++ [e] -> since s0 h' (record_event e s).
Proof. intros Hs ->. by apply (since_snoc _ _ _ s). Qed.

Lemma since_call s0 h c (Q : answer -> state -> Prop) (X : Z -> state -> Prop) s : since s0 h s ->
  (forall a s', allowed c a -> (exists rest, script s = a :: rest) -> since s0 (h ++ [Called c a]) s' ->
     (length (script s') < length (script s))%nat -> Q a s') ->
  (forall s', since s0 (h ++ [Waiting c]) s' -> X WAITING s') -> wp (sys c) Q X s.
Proof.
  intros Hs HQ HX. apply wp_sys.
  - intros a rest E Ha. apply HQ; [done|by exists rest|by apply (since_snoc _ _ _ s)|simpl; rewrite E; simpl; lia].
  - apply HX. by apply (since_snoc _ _ _ s).
Qed.

Lemma since_print s0 h t (Q : unit -> state -> Prop) (X : Z -> state -> Prop) s : since s0 h s ->
  (forall s', since s0 (h ++ [Printed t]) s' -> script s' = script s -> Q tt s') -> wp (printf t) Q X s.
Proof. intros Hs HQ. apply wp_modify, HQ; [by apply (since_snoc _ _ _ s)|done]. Qed.

Lemma since_perror s0 h t (Q : unit -> state -> Prop) (X : Z -> state -> Prop) s : since s0 h s ->
  (forall s', since s0 (h ++ [Perror t]) s' -> script s' = script s -> Q tt s') -> wp (perror t) Q X s.
Proof. intros Hs HQ. apply wp_modify, HQ; [by apply (since_snoc _ _ _ s)|done]. Qed.

(** What has happened in a loop that moves messages from [x] to [y], and whether all that
    came has gone. *)
Definition moving (from to : event -> option (Z * bytes)) (x y : Z) (all : bool) s0 h s : Prop :=
  exists h' inn out, since s0 (h ++ h') s /\ opened h' = [] /\ connected h' = [] /\
    omap from h' = map (pair x) inn /\ omap to h' = map (pair y) out /\ if all then out = inn else out `prefix_of` inn.

Lemma moving_start from to x y s0 h s : since s0 h s -> moving from to x y true s0 h s.
Proof. intros Hs. exists [], [], []. rewrite app_nil_r. done. Qed.

(** A round adds the events [e], in which [i] comes and [o] goes. *)
Lemma moving_add from to x y all s0 h s e i o s' : moving from to x y true s0 h s ->
  opened e = [] -> connected e = [] -> omap from e = map (pair x) i -> omap to e = map (pair y) o ->
  (if all : bool then o = i else o `prefix_of` i) -> history s' = history s ++ e -> moving from to x y all s0 h s'.
Proof.
  intros (h' & inn & out & Hs & Ho & Hc & Hi & Ht & ->) Eo Ec Ei Et Hio Eh. exists (h' ++ e), (inn ++ i), (inn ++ o).
  rewrite !omap_app, Ho, Hc, Hi, Ht, Eo, Ec, Ei, Et, !map_app. split_and!; try done.
  - unfold since in *. by rewrite Eh, Hs, !app_assoc.
  - destruct all; [by rewrite Hio|by apply prefix_app].
Qed.

(** A step that does not concern the files and the messages. *)
Definition silent {A} (P : A -> Prop) (m : M state A) : Prop := forall s0 s, grows quiet s0 s ->
  wp m (fun a s' => P a /\ grows quiet s0 s') (fun _ s' => grows quiet s0 s') s.
Notation silently := (silent (fun _ => True)).

Lemma silent_ret {A} (P : A -> Prop) a : P a -> silent P (ret a).
Proof. intros Ha s0 s Hs. by apply wp_ret. Qed.
Lemma silent_bind {A C} (P : A -> Prop) (Q : C -> Prop) m f : silent P m -> (forall a, P a -> silent Q (f a)) -> silent Q (bind m f).
Proof. intros Hm Hf s0 s Hs. apply wp_bind. eapply wp_conseq; [by apply (Hm s0)|]. intros a s1 [Ha H1]. by apply (Hf a Ha s0). Qed.
Lemma silent_seq {A C} (Q : C -> Prop) (m : M state A) f : silently m -> (forall a, silent Q (f a)) -> silent Q (bind m f).
Proof. intros Hm Hf. by apply (silent_bind (fun _ => True)). Qed.
Lemma silent_weaken {A} (P : A -> Prop) m : silent P m -> silently m.
Proof. intros Hm s0 s Hs. eapply wp_conseq; [by apply (Hm s0)|]. by intros a s1 [_ H1]. Qed.
Lemma silent_if {A} (P : A -> Prop) (b : bool) m m' : silent P m -> silent P m' -> silent P (if b then m else m').
Proof. by destruct b. Qed.
Lemma silent_exit {A} (P : A -> Prop) c : silent P (exit_ c).
Proof. intros s0 s Hs. by apply wp_exit. Qed.
Lemma silent_guard b : b = true -> silently (guard_ok b).
Proof. intros Hb s0 s Hs. by apply wp_guard. Qed.
Lemma silent_record (m : M state unit) e : quiet e -> (forall s, m s = Ret tt (record_event e s)) -> silently m.
Proof. intros He Hm s0 s Hs. unfold wp. rewrite Hm. split; [done|]. by apply grows_event. Qed.
Lemma silent_printf t : silently (printf t).
Proof. by apply (silent_record _ (Printed t)). Qed.
Lemma silent_perror t : silently (perror t).
Proof. by apply (silent_record _ (Perror t)). Qed.
Lemma silent_stderr t : silently (fputs_stderr t).
Proof. by apply (silent_record _ (Stderr t)). Qed.
Lemma silent_errno : silently get_errno.
Proof. intros s0 s Hs. by apply wp_gets. Qed.
Lemma silent_sys c : quiet_call c = true -> silent (allowed c) (sys c).
Proof. intros Hc s0 s Hs. by apply (wp_sys_grows quiet s0). Qed.
Lemma silent_call c : quiet_call c = true -> silently (sys c).
Proof. intros Hc. apply (silent_weaken (allowed c)). by apply silent_sys. Qed.
Lemma silent_sysret c : quiet_call c = true -> silently (sysret c).
Proof. intros Hc. apply (silent_bind (allowed c)); [by apply silent_sys|]. intros a _. by apply silent_ret. Qed.
Lemma silent_sys_ c : quiet_call c = true -> silently (sys_ c).
Proof. intros Hc. apply (silent_bind (allowed c)); [by apply silent_sys|]. intros a _. by apply silent_ret. Qed.

(** What a silent part leaves as it was. *)
Lemma silent_since {A} (P : A -> Prop) m (Q : A -> state -> Prop) (X : Z -> state -> Prop) s0 h s : silent P m -> since s0 h s ->
  (forall a s' h', P a -> Forall quiet h' -> since s0 (h ++ h') s' -> Q a s') ->
  (forall c s' h', Forall quiet h' -> since s0 (h ++ h') s' -> X c s') -> wp m Q X s.
Proof.
  intros Hm Hs HQ HX. eapply wp_mono; [apply (Hm s s); reflexivity|..].
  - intros a s' [Ha [(h' & E & Hh) _]]. apply (HQ a s' h'); try done. unfold since in *. by rewrite E, Hs, app_assoc.
  - intros c s' [(h' & E & Hh) _]. apply (HX c s' h'); try done. unfold since in *. by rewrite E, Hs, app_assoc.
Qed.
End proofs.
Notation silently := (silent (fun _ => True)).

(** Straight-line code, one part after the other. *)
Ltac silence1 := first
  [apply silent_sysret; reflexivity|apply silent_sys_; reflexivity|apply silent_call; reflexivity|apply silent_exit|apply silent_printf|apply silent_perror
  |apply silent_stderr|apply silent_errno|apply silent_ret; exact I|apply silent_if|apply silent_seq; [|intros ?]].
Ltac silence := repeat silence1.

Section transfer.
Context `{Kernel} (SMODE CMODE : Z) (ssl_errors : bytes) (strerror : Z -> bytes) (inet_pton : bytes -> option Z).
Notation state := (proc unit).
Implicit Types s : state.

(** What OpenSSL says of [SSL_read]: it fails, reports the end or stores at most [n] bytes. *)
Definition openssl_read : Prop := forall ssl n a, allowed (Ssl_read ssl n) a ->
  a_ret a <= 0 \/ a_ret a <= n /\ Zlen (a_data a) = a_ret a.
(** The working directory leaves room in [pwd] for the names of the files. *)
Definition short_cwd : Prop := forall n a, allowed (Getcwd n) a -> a_ret a <> 0 /\ Zlen (a_data a) <= 73.
(** The user enters a word without null bytes that fits. *)
Definition short_word : Prop := forall a, allowed Scanf a -> a_ret a = 1 /\ Zlen (a_data a) < FILE_SIZE /\ no_nul (a_data a).

Hypothesis Hread : openssl_read.

(** ** The server *)

(** Message after message is stored. *)
Lemma wp_receive_data ssl fd s0 h s : since s0 h s ->
  wp (receive_data (MAXBUF + 1) ssl fd) (fun _ => moving received_by passed_by ssl fd true s0 h)
    (fun _ => moving received_by passed_by ssl fd false s0 h) s.
Proof.
  intros Hs. apply (wp_forever (fun _ => moving received_by passed_by ssl fd true s0 h)); [by apply moving_start|].
  intros _ s1 H1. apply wp_bind, wp_sys.
  2: { by apply (moving_add _ _ _ _ _ _ _ s1 [Waiting (Ssl_read ssl MAXBUF)] [] []). }
  intros a rest Esc Ha. assert (Hlt : (length rest < length (script s1))%nat) by (rewrite Esc; simpl; lia).
  cbv zeta. destruct (Z.eqb_spec (a_ret a) 0) as [E0|Hne].
  { apply wp_ret. apply (moving_add _ _ _ _ _ _ _ s1 [Called (Ssl_read ssl MAXBUF) a] [] []); try done. simpl. by rewrite E0. }
  destruct (Hread _ _ _ Ha) as [Hle|[Hn Hl]].
  - assert (Hz : (0 <? a_ret a) = false) by lia. rewrite Hz. apply wp_bind, wp_bind, wp_guard; [done|]. apply wp_ret, wp_bind, wp_modify.
    rewrite (proj2 (Z.ltb_lt (a_ret a) 0)) by lia. apply wp_bind, wp_modify, wp_exit.
    apply (moving_add _ _ _ _ _ _ _ s1 [Called (Ssl_read ssl MAXBUF) a; Printed (B "buf is " ++ cstr [] ++ LF); Perror (B "SSL_read error")] [] []);
      try done; simpl; rewrite ?Hz, <-?app_assoc; done.
  - pose proof (Zlen_nonneg (a_data a)). assert (Hz : (0 <? a_ret a) = true) by lia. rewrite Hz. apply wp_bind, wp_bind, wp_guard; [lia|].
    apply wp_ret, wp_bind, wp_modify. rewrite (proj2 (Z.ltb_ge (a_ret a) 0)) by lia. set (p := Printed _). set (c := Write fd (a_data a)).
    apply wp_bind, wp_bind, wp_sys.
    2: { apply (moving_add _ _ _ _ _ _ _ s1 [Called (Ssl_read ssl MAXBUF) a; p; Waiting c] [a_data a] []);
           try done; simpl; rewrite ?Hz, <-?app_assoc; try done. apply prefix_nil. }
    intros b rest' Esc' Hb. apply wp_ret. simpl in Esc'. destruct (Z.ltb_spec (a_ret b) 0) as [Hneg|Hpos]; apply wp_bind; simpl.
    + apply wp_bind, wp_modify, wp_exit.
      apply (moving_add _ _ _ _ _ _ _ s1 [Called (Ssl_read ssl MAXBUF) a; p; Called c b; Perror (B "write error")] [a_data a] []);
        try done; simpl; rewrite ?Hz, ?(proj2 (Z.leb_gt 0 (a_ret b))), <-?app_assoc by lia; try done. apply prefix_nil.
    + apply wp_ret, wp_bind, wp_guard; [done|]. apply wp_ret. split; [|simpl; rewrite Esc' in Hlt; simpl in Hlt; lia].
      apply (moving_add _ _ _ _ _ _ _ s1 [Called (Ssl_read ssl MAXBUF) a; p; Called c b] [a_data a] [a_data a]);
        try done; simpl; rewrite ?Hz, ?(proj2 (Z.leb_le 0 (a_ret b))), <-?app_assoc by lia; done.
Qed.

(** The name that the first message gives to the file. *)
Definition name_of (a : answer) : bytes := cstr (if 0 <? a_ret a then a_data a else []).

(** After the message with the name, what was stored is a part of what has come. *)
Definition partly s0 s : Prop := exists h, since s0 h s /\ forall e h', h = e :: h' ->
  exists ssl fd inn out, received h' = map (pair ssl) inn /\ passed h' = map (pair fd) out /\ out `prefix_of` inn.

Lemma partly_none s0 h s : since s0 h s -> received (tail h) = [] -> passed (tail h) = [] -> partly s0 s.
Proof.
  intros Hs Hr Hp. exists h. split; [done|]. intros e h' ->. exists 0, 0, [], []. by split_and!.
Qed.

Lemma partly_after s0 e h s ssl fd inn out : since s0 (e :: h) s -> received h = map (pair ssl) inn -> passed h = map (pair fd) out ->
  out `prefix_of` inn -> partly s0 s.
Proof. intros Hs Hr Hp Hio. exists (e :: h). split; [done|]. intros e' h' [= <- <-]. by exists ssl, fd, inn, out. Qed.

(** One connection. *)
Lemma wp_receive_file ssl clifd s : (forall a rest, script s = a :: rest -> Zlen (name_of a) < FILE_SIZE) ->
  wp (receive_file (MAXBUF + 1) ssl clifd)
    (fun _ s' => exists a rest h fd messages, script s = a :: rest /\ since s (Called (Ssl_read ssl MAXBUF) a :: h) s' /\
       opened h = [(name_of a, fd)] /\ received h = map (pair ssl) messages /\ passed h = map (pair fd) messages)
    (fun _ => partly s) s.
Proof.
  intros Hname. apply wp_bind, wp_guard; [done|]. apply wp_bind, wp_sys.
  2: { by apply (partly_none _ [Waiting (Ssl_read ssl MAXBUF)]). }
  intros a rest Esc Ha. specialize (Hname a rest Esc). set (e := Called (Ssl_read ssl MAXBUF) a). set (s1 := answered _ _ _ _).
  assert (H1 : since s [e] s1) by done. apply wp_bind. destruct (Z.ltb_spec (a_ret a) 0) as [Hneg|Hpos]; simpl.
  { apply wp_bind, wp_modify, wp_exit. apply (partly_none _ [e; Perror (B "ssl_read error")]); [|done..].
    by apply (since_record s [e]). }
  apply wp_ret, wp_bind, wp_bind, wp_guard.
  { pose proof (Zlen_nonneg (a_data a)). destruct (Hread _ _ _ Ha) as [Hle|[? ?]].
    - rewrite (proj2 (Z.ltb_ge 0 (a_ret a))) by lia. done.
    - case_match; [lia|done]. }
  apply wp_ret. fold (name_of a). set (p := Printed (B "buf is " ++ name_of a ++ LF)). apply wp_bind, wp_modify, wp_bind, wp_guard; [lia|].
  set (s2 := record_event p s1). assert (H2 : since s [e; p] s2) by (by apply (since_record s [e])).
  apply wp_bind, wp_bind, (since_call s _ _ _ _ _ H2); [|intros s3 H3; by apply (partly_none _ _ _ H3)].
  intros b s3 _ _ H3 _. apply wp_ret. set (o := Called (Open _ _) b) in H3. apply wp_bind.
  eapply (silent_since (fun _ => True) _ _ _ s _ s3); [silence|exact H3|..].
  2: { intros c s4 h4 ((Er & Ep) & _)%quiet_none H4. by apply (partly_none _ _ _ H4). }
  intros [] s4 h4 _ Hq4 H4. eapply wp_bind, (silent_since (fun _ => True) _ _ _ s _ s4); [silence|exact H4|..].
  2: { intros c s5 h5 Hq5 H5. pose proof (proj2 (Forall_app quiet h4 h5) (conj Hq4 Hq5)) as ((Er & Ep) & _)%quiet_none.
       apply (partly_none _ (e :: p :: o :: h4 ++ h5)); [unfold since in *; rewrite H5; simpl; by rewrite <-?app_assoc|done..]. }
  intros [] s5 h5 _ Hq5 H5. apply wp_bind, wp_guard; [done|]. apply wp_bind.
  pose proof (proj2 (Forall_app quiet h4 h5) (conj Hq4 Hq5)) as ((Er & Ep) & Eo & _)%quiet_none.
  assert (H5' : since s ((e :: p :: o :: h4 ++ h5)) s5) by (unfold since in *; rewrite H5; simpl; by rewrite <-?app_assoc).
  clear H5. revert H5' Er Ep Eo. generalize (h4 ++ h5) as h6. clear Hq4 Hq5 H4. intros h6 H6 Er Ep Eo.
  eapply wp_mono; [apply (wp_receive_data _ (a_ret b) s _ s5 H6)|..].
  2: { intros c s7 (h7 & inn & out & H7 & _ & _ & Ei & Et & Hio).
       apply (partly_after s e ((p :: o :: h6) ++ h7) s7 ssl (a_ret b) inn out); [exact H7|..|exact Hio]; simpl; by rewrite omap_app, ?Er, ?Ep. }
  intros [] s7 (h7 & inn & out & H7 & Eo7 & _ & Ei & Et & ->).
  eapply (silent_since (fun _ => True) _ _ _ s _ s7); [silence|exact H7|..].
  - intros [] s8 h8 _ ((Er8 & Ep8) & Eo8 & _)%quiet_none H8. exists a, rest, ((p :: o :: h6) ++ h7 ++ h8), (a_ret b), inn. split; [exact Esc|].
    split; [unfold since in *; rewrite H8; simpl; by rewrite <-!app_assoc|].
    simpl. rewrite !omap_app, Eo, Er, Ep, Eo7, Eo8, Ei, Er8, Et, Ep8, !app_nil_r. done.
  - intros c s8 h8 ((Er8 & Ep8) & _)%quiet_none H8.
    apply (partly_after s e ((p :: o :: h6) ++ h7 ++ h8) s8 ssl (a_ret b) inn inn); [unfold since in *; rewrite H8; simpl; by rewrite <-!app_assoc|..|done];
      simpl; by rewrite !omap_app, ?Er, ?Ep, ?Ei, ?Et, ?Er8, ?Ep8, app_nil_r.
Qed.

(** ** The client *)

Hypothesis Hcwd : short_cwd.
Hypothesis Hword : short_word.
Hypothesis Hmode : is_Some (client_mode CMODE).

Lemma silent_getcwd : silent (fun pwd => Zlen pwd <= 73) getcwd_pwd.
Proof.
  apply (silent_bind (allowed (Getcwd PWD_SIZE))); [by apply silent_sys|]. intros a [Hr Hp]%Hcwd.
  apply silent_seq; [apply silent_guard; lia|]. intros _. apply silent_ret. by case_match.
Qed.

Lemma silent_strcat pwd suffix : Zlen pwd <= 73 -> (Zlen suffix <=? 26) = true -> silently (strcat_pwd pwd suffix).
Proof.
  intros Hp Hl%Z.leb_le. apply silent_seq; [|intros ?; by apply silent_ret]. apply silent_guard. unfold PWD_SIZE. lia.
Qed.

Ltac silence_cwd := repeat first
  [eapply silent_bind; [apply silent_getcwd|]; intros ??|apply silent_strcat; [assumption|reflexivity]|silence1].

Lemma silent_load_verify : silently (load_verify_locations ssl_errors).
Proof. silence_cwd. Qed.

Lemma silent_client_ctx : silently (client_ctx SMODE CMODE ssl_errors).
Proof.
  destruct Hmode as [mode Em]. unfold client_ctx, ssl_init, ssl_fail, use_certificate. rewrite Em. repeat first [apply silent_load_verify|progress silence_cwd].
Qed.

Lemma silent_client_socket ip port : silently (client_socket inet_pton ip port).
Proof. unfold client_socket, perror_exit. destruct (inet_pton ip); silence. Qed.

(** The handshake once the connection is made. *)
Definition shake (sockfd ssl : Z) : tls Z :=
  sys_ (Ssl_set_fd ssl sockfd) ;;
  r <- sysret (Ssl_connect ssl) ;;
  (if r =? -1 then fputs_stderr ssl_errors
   else
     a <- sys (Ssl_get_cipher ssl) ;;
     printf (B "Connected with " ++ a_data a ++ B " encryption" ++ LF) ;;
     showcerts ssl) ;;
  v <- sysret (Ssl_verify_result ssl) ;;
  (if v =? X509_V_OK then printf (B "The server sent a certificate which verified OK" ++ LF)
   else printf (B "The server sent a invalid certificate" ++ LF)) ;;
  ret ssl.

Lemma silent_shake sockfd ssl : silent (fun r => r = ssl) (shake sockfd ssl).
Proof.
  unfold shake, showcerts. repeat first
    [match goal with |- silent _ (ret _) => by apply silent_ret end|match goal with |- silent (fun r => r = ssl) _ => apply silent_seq; [|intros ?] end|silence1].
Qed.

(** What is left after the last slash, which is the place where [i--] stops. *)
Lemma last_slash_spec name i : (i <= S (length name))%nat ->
  (last_slash name i = -1 \/ 0 <= last_slash name i /\ name !! Z.to_nat (last_slash name i) = Some SLASH) /\
  forall k c, last_slash name i < Z.of_nat k < Z.of_nat i -> name !! k = Some c -> c <> SLASH.
Proof.
  induction i as [|i IH]; intros Hi; simpl; [split; [by left|lia]|].
  assert (Hc : forall c, name !! i = Some c -> aget (name ++ [NUL]) (Z.of_nat i) = c).
  { intros c E. pose proof (lookup_lt_Some _ _ _ E). pose proof (aget_lookup (name ++ [NUL]) (Z.of_nat i)) as Hg.
    rewrite Nat2Z.id, lookup_app_l, E in Hg by done. symmetry. apply (inj Some), Hg. rewrite Zlen_app. unfold Zlen. lia. }
  destruct (Z.eqb_spec (aget (name ++ [NUL]) (Z.of_nat i)) SLASH) as [E|Hne].
  - split; [|lia]. right. split; [lia|]. rewrite Nat2Z.id. destruct (name !! i) as [c|] eqn:Ec; [by rewrite <-E, (Hc c)|].
    apply lookup_ge_None in Ec. assert (i = length name) as -> by lia. unfold aget in E.
    rewrite Nat2Z.id in E. by rewrite list_lookup_total_middle in E by done.
  - destruct IH as [Hl Hk]; [lia|]. split; [done|]. intros k c Hb E. destruct (decide (k = i)) as [->|]; [|apply (Hk k); [lia|done]].
    intros ->. by apply Hne, Hc.
Qed.

Lemma base_name_spec name : exists dir, name = dir ++ base_name name /\ SLASH ∉ base_name name /\ (dir = [] \/ last dir = Some SLASH).
Proof.
  destruct (last_slash_spec name (S (length name))) as [Hl Hk]; [done|]. unfold base_name. set (l := last_slash _ _) in *.
  exists (take (Z.to_nat (l + 1)) name). split; [by rewrite take_drop|split].
  - intros (k & Ek)%list_elem_of_lookup. rewrite lookup_drop in Ek. pose proof (lookup_lt_Some _ _ _ Ek). assert (-1 <= l) by (destruct Hl as [|[? _]]; lia).
    eapply Hk; [|exact Ek|done]. lia.
  - destruct Hl as [->|[Hl El]]; [by left|right]. replace (Z.to_nat (l + 1)) with (S (Z.to_nat l)) by lia.
    rewrite (take_S_r _ _ _ El). apply last_snoc.
Qed.

(** Message after message is sent. *)
Lemma wp_send_data ssl fd s0 h s : since s0 h s ->
  wp (send_data strerror ssl fd) (fun _ => moving loaded_by given_by fd ssl true s0 h) (fun _ => moving loaded_by given_by fd ssl false s0 h) s.
Proof.
  intros Hs. apply (wp_forever (fun _ => moving loaded_by given_by fd ssl true s0 h)); [by apply moving_start|].
  intros _ s1 H1. apply wp_bind, wp_sys.
  2: { by apply (moving_add _ _ _ _ _ _ _ s1 [Waiting (Read fd 1024)] [] []). }
  intros a rest Esc Ha. assert (Hlt : (length rest < length (script s1))%nat) by (rewrite Esc; simpl; lia).
  cbv zeta. destruct (Z.eqb_spec (a_ret a) 0) as [E0|Hne].
  { apply wp_ret. apply (moving_add _ _ _ _ _ _ _ s1 [Called (Read fd 1024) a] [] []); try done. simpl. by rewrite E0. }
  destruct (Z.ltb_spec (a_ret a) 0) as [Hneg|Hpos].
  - apply wp_bind, wp_modify, wp_bind, wp_gets, wp_exit.
    apply (moving_add _ _ _ _ _ _ _ s1 [Called (Read fd 1024) a; Perror (B "read")] [] []);
      try done; simpl; rewrite ?(proj2 (Z.ltb_ge 0 (a_ret a))), <-?app_assoc by lia; done.
  - assert (Hz : (0 <? a_ret a) = true) by lia. set (c := Ssl_write ssl (a_data a)). apply wp_bind, wp_bind, wp_sys.
    2: { apply (moving_add _ _ _ _ _ _ _ s1 [Called (Read fd 1024) a; Waiting c] [a_data a] []);
           try done; simpl; rewrite ?Hz, <-?app_assoc; try done. apply prefix_nil. }
    intros b rest' Esc' Hb. apply wp_ret, wp_bind. simpl in Esc'. rewrite Esc' in Hlt. simpl in Hlt.
    set (s2 := answered _ _ _ _).
    assert (Hmore : forall h2 s3, Forall quiet h2 -> history s3 = history s2 ++ h2 -> moving loaded_by given_by fd ssl true s0 h s3).
    { intros h2 s3 (_ & Eo2 & Ec2 & Eg2 & El2)%quiet_none E.
      apply (moving_add _ _ _ _ _ _ _ s1 ([Called (Read fd 1024) a; Called c b] ++ h2) [a_data a] [a_data a]); try done;
        rewrite ?omap_app, ?Eo2, ?Ec2, ?Eg2, ?El2, ?E; simpl; rewrite ?Hz, <-?app_assoc; done. }
    destruct (a_ret b <? 0); simpl; [apply wp_bind, wp_gets, wp_modify|apply wp_ret]; apply wp_ret; (split; [|simpl; lia]).
    + eapply Hmore; [|done]. by repeat constructor.
    + apply (Hmore []); [done|]. by rewrite app_nil_r.
Qed.

(** What has happened to files, connections, messages and contents so far. *)
Record progress := Progress {
  p_opened : list (bytes * Z); p_connected : list Z; p_given : list (Z * bytes); p_loaded : list (Z * bytes) }.
Definition measure (h : list event) : progress := Progress (opened h) (connected h) (given h) (loaded h).
Definition plus (x y : progress) : progress :=
  Progress (p_opened x ++ p_opened y) (p_connected x ++ p_connected y) (p_given x ++ p_given y) (p_loaded x ++ p_loaded y).
Definition so_far s0 (x : progress) s : Prop := exists h, since s0 h s /\ measure h = x.

Lemma measure_app h h' : measure (h ++ h') = plus (measure h) (measure h').
Proof. unfold measure. by rewrite !omap_app. Qed.

Lemma so_far_silent {A} (P : A -> Prop) m (Q : A -> state -> Prop) (X : Z -> state -> Prop) s0 x s :
  silent P m -> so_far s0 x s -> (forall a s', P a -> so_far s0 x s' -> Q a s') ->
  (forall c s', so_far s0 x s' -> X c s') -> wp m Q X s.
Proof.
  intros Hm (h & Hs & <-) HQ HX.
  assert (Hmore : forall h' s', Forall quiet h' -> since s0 (h ++ h') s' -> so_far s0 (measure h) s').
  { intros h' s' (_ & Eo & Ec & Eg & El)%quiet_none H'. exists (h ++ h'). split; [done|]. unfold measure.
    by rewrite !omap_app, Eo, Ec, Eg, El, !app_nil_r. }
  eapply (silent_since P); [exact Hm|exact Hs|eauto..].
Qed.

Lemma so_far_call c (Q : answer -> state -> Prop) (X : Z -> state -> Prop) s0 x s : so_far s0 x s ->
  (forall a s', allowed c a -> so_far s0 (plus x (measure [Called c a])) s' -> Q a s') ->
  (forall s', so_far s0 x s' -> X WAITING s') -> wp (sys c) Q X s.
Proof.
  intros (h & Hs & <-) HQ HX. apply (since_call _ _ _ _ _ _ Hs).
  - intros a s' Ha _ H' _. apply HQ; [done|]. eexists. split; [exact H'|]. by rewrite measure_app.
  - intros s' H'. apply HX. eexists. split; [exact H'|]. unfold measure. by rewrite !omap_app, !app_nil_r.
Qed.

Lemma so_far_sysret c (Q : Z -> state -> Prop) (X : Z -> state -> Prop) s0 x s : so_far s0 x s ->
  (forall a s', allowed c a -> so_far s0 (plus x (measure [Called c a])) s' -> Q (a_ret a) s') ->
  (forall s', so_far s0 x s' -> X WAITING s') -> wp (sysret c) Q X s.
Proof. intros Hs HQ HX. apply wp_bind, (so_far_call _ _ _ _ _ _ Hs); [|exact HX]. intros a s' Ha H'. apply wp_ret. eauto. Qed.

(** One file was opened and one connection made, which was given the name without the
    directories and then what was read of the file; a run that ends early has given a part
    of them. *)
Definition sent name ssl fd data : progress :=
  Progress [(name, fd)] [ssl] (map (pair ssl) (base_name name :: data)) (map (pair fd) data).
Definition partly_sent s0 s : Prop := exists names conns ssl fd name out data,
  so_far s0 (Progress names conns (map (pair ssl) out) (map (pair fd) data)) s /\
  out `prefix_of` base_name name :: data /\ (out <> [] -> names = [(name, fd)] /\ conns = [ssl]).

Lemma partly_nothing s0 names conns s : so_far s0 (Progress names conns [] []) s -> partly_sent s0 s.
Proof. intros Hs. exists names, conns, 0, 0, [], [], []. split_and!; [exact Hs|apply prefix_nil|done]. Qed.

Lemma wp_send_file ssl s0 s : so_far s0 (Progress [] [ssl] [] []) s ->
  wp (send_file strerror ssl) (fun _ s' => exists name fd data, so_far s0 (sent name ssl fd data) s' /\ Zlen name < FILE_SIZE /\ no_nul name)
    (fun _ => partly_sent s0) s.
Proof.
  intros Hs. eapply wp_bind, so_far_silent; [apply silent_printf|exact Hs|intros [] s1 _ H1|intros c; apply partly_nothing].
  eapply wp_bind, so_far_call; [exact H1|intros a s2 (Er & Hl & Hn)%Hword H2|apply partly_nothing].
  apply wp_bind, wp_guard; [unfold FILE_SIZE in *; lia|]. cbv zeta. set (name := a_data a) in *.
  eapply wp_bind, so_far_sysret; [exact H2|intros b s3 _ H3|apply partly_nothing]. set (fd := a_ret b) in *.
  change (so_far s0 (Progress [(name, fd)] [ssl] [] []) s3) in H3. apply wp_bind. destruct (fd <? 0); simpl.
  { eapply (so_far_silent (fun _ => False)); [silence|exact H3|by intros ???|intros c s4; apply partly_nothing]. }
  apply wp_ret. eapply wp_bind, so_far_sysret; [exact H3|intros r s4 _ H4|intros s4; apply partly_nothing].
  change (so_far s0 (Progress [(name, fd)] [ssl] [(ssl, base_name name)] []) s4) in H4.
  assert (Hout : forall out data s', so_far s0 (Progress [(name, fd)] [ssl] (map (pair ssl) out) (map (pair fd) data)) s' ->
    out `prefix_of` base_name name :: data -> partly_sent s0 s').
  { intros out data s' H' Hp. by exists [(name, fd)], [ssl], ssl, fd, name, out, data. }
  eapply wp_bind, (so_far_silent (fun _ => True)); [unfold send_failure; silence|exact H4|intros [] s5 _ (h & H5 & Em)|].
  2: { intros c s5 H5. apply (Hout [base_name name] []); [exact H5|by eexists]. }
  unfold measure in Em. injection Em as Eo Ec Eg El. apply wp_bind. eapply wp_mono; [apply (wp_send_data ssl _ _ _ _ H5)|..].
  - intros [] s6 (h' & data & out & H6 & Eo6 & Ec6 & Ei & Et & ->). eapply (so_far_silent (fun _ => True) _ _ _ s0 (sent name ssl fd data)).
    + silence.
    + exists (h ++ h'). split; [done|]. unfold measure. by rewrite !omap_app, Eo, Ec, Eg, El, Eo6, Ec6, Ei, Et.
    + intros fd' s7 _ H7. by exists name, fd, data.
    + intros c s7 H7. by apply (Hout (base_name name :: data) data).
  - intros c s6 (h' & data & out & H6 & Eo6 & Ec6 & Ei & Et & Hp). apply (Hout (base_name name :: out) data); [|by apply prefix_cons].
    exists (h ++ h'). split; [done|]. unfold measure. by rewrite !omap_app, Eo, Ec, Eg, El, Eo6, Ec6, Ei, Et.
Qed.

Lemma wp_client_main prog ip port s :
  wp (client_main SMODE CMODE ssl_errors strerror inet_pton [prog; ip; port])
    (fun r s' => r = 0 /\ exists name ssl fd data, so_far s (sent name ssl fd data) s' /\ Zlen name < FILE_SIZE /\ no_nul name) (fun _ => partly_sent s) s.
Proof.
  assert (Hnone : forall conns s', so_far s (Progress [] conns [] []) s' -> partly_sent s s') by (intros conns s'; apply partly_nothing).
  eapply wp_bind, (so_far_silent _ _ _ _ s (Progress [] [] [] [])); [apply silent_client_ctx|exists []; unfold since; by rewrite app_nil_r|intros [] s1 _ H1|by intros c; apply Hnone].
  eapply wp_bind, so_far_silent; [apply silent_client_socket|exact H1|intros sockfd s2 _ H2|intros c; apply Hnone].
  apply wp_bind. unfold handshake. eapply wp_bind, so_far_sysret; [exact H2|intros a s3 _ H3|apply Hnone]. set (ssl := a_ret a) in *.
  change (so_far s (Progress [] [ssl] [] []) s3) in H3. fold (shake sockfd ssl).
  eapply so_far_silent; [apply silent_shake|exact H3|intros r s4 -> H4|intros c; apply Hnone].
  apply wp_bind. eapply wp_conseq; [by apply wp_send_file|]. intros fd' s5 (name & fd & data & H5 & Hl & Hn).
  eapply (so_far_silent (fun r => r = 0)); [|exact H5|..].
  - repeat (apply silent_seq; [by apply silent_sys_|intros _]). by apply silent_ret.
  - intros r s6 -> H6. split; [done|]. by exists name, ssl, fd, data.
  - intros c s6 H6. by exists [(name, fd)], [ssl], ssl, fd, name, (base_name name :: data), data.
Qed.

End transfer.

(** ** Runs *)

Lemma wp_returns {S A} (m : M S A) (Q : A -> S -> Prop) X s a s' : m s = Ret a s' -> wp m Q X s -> Q a s'.
Proof. unfold wp. by intros ->. Qed.

(** What POSIX and OpenSSL say of the answers, with a short directory and a short word. *)
Definition plain_kernel : Kernel := fun _ c a =>
  match c with
  | Ssl_read _ n => (a_ret a <=? 0) || ((a_ret a <=? n) && (Zlen (a_data a) =? a_ret a))
  | Getcwd _ => negb (a_ret a =? 0) && (Zlen (a_data a) <=? 73)
  | Scanf => (a_ret a =? 1) && (Zlen (a_data a) <? FILE_SIZE) && forallb (fun c => negb (c =? NUL)) (a_data a)
  | _ => true
  end.

Lemma plain_read : openssl_read (H := plain_kernel).
Proof. intros ssl n a [? Ha]. unfold may, plain_kernel in Ha. lia. Qed.
Lemma plain_cwd : short_cwd (H := plain_kernel).
Proof. intros n a [? Ha]. unfold may, plain_kernel in Ha. lia. Qed.
Lemma plain_word : short_word (H := plain_kernel).
Proof.
  intros a [? Ha]. unfold may, plain_kernel in Ha. apply andb_prop in Ha as [Hr Hn]. split_and!; [lia..|]. intros Hin.
  rewrite forallb_forall in Hn. apply list_elem_of_In in Hin. by specialize (Hn _ Hin).
Qed.

(** An answer with data. *)
Definition text (n : Z) (b : bytes) : answer := Ans n 0 b (Addr 0 0) [] [] 0 no_stat.
Definition message (b : bytes) : answer := text (Zlen b) b.

Definition client_script : list answer :=
  [number 0; number 1; text 1 (B "/home/u"); number 1; number 0; (* the library, its context, the directory, the certificate, the mode *)
   number 3; number 0; (* socket, connect *)
   number 1; number 1; number 1; text 0 (B "AES"); number 0; number 0; (* the connection and what it says of the server *)
   text 1 (B "/tmp/a.txt"); number 4; number 5; (* the name, the file *)
   message (B "hello "); number 6; message (B "world"); number 5; number 0;
   number 0; number 0; number 0; number 0; number 0].

Notation the_client := (client_main (H := plain_kernel) 0 1 [] (fun _ => []) (fun _ => Some 2130706433) [B "ssl_client"; B "127.0.0.1"; B "7838"]).
Definition client_start : proc unit := Proc client_script [] 0 tt.

(** The messages of a client, read in other pieces. *)
Definition server_script : list answer :=
  [message (B "a.txt"); number 5; message (B "hello wor"); number 9; message (B "ld"); number 2; number 0; number 0; number 0; number 0].

Example client_sends : match the_client client_start with
  | Ret r s => r = 0 /\ script s = [] /\ given (history s) = map (pair 1) [B "a.txt"; B "hello "; B "world"]
  | _ => False
  end.
Proof. vm_compute. done. Qed.

Example server_stores : match receive_file (H := plain_kernel) (MAXBUF + 1) 1 4 (Proc server_script [] 0 tt) with
  | Ret _ s => script s = [] /\ opened (history s) = [(B "a.txt", 5)] /\ concat (map snd (stored (history s))) = B "hello world"
  | _ => False
  end.
Proof. vm_compute. done. Qed.

(** A client that is compiled with CMODE=0, for a server without a verified certificate,
    verifies, and one with CMODE=1 does not; CMODE=3 leaves [mode] without a value. *)
Example modes : client_mode 0 = Some SSL_VERIFY_PEER /\ client_mode 1 = Some SSL_VERIFY_NONE /\ client_mode 3 = None /\ server_mode 1 = None.
Proof. done. Qed.

Lemma client_ends : exists h, the_client client_start = Ret 0 (Proc [] h 0 tt) /\ opened h = [(B "/tmp/a.txt", 4)] /\
  concat (map snd (loaded h)) = B "hello world".
Proof. eexists. split; [vm_compute; reflexivity|]. vm_compute. done. Qed.

